(* ===== verification/_CoqProject ===== *)
-Q . S2P
Prelude.v
ListH.v
DefaultPmm.v
PmmManager.v
SkewHeap.v
ProcData.v
StrideSched.v
Sched.v
Hash.v
CString.v
KString.v
Printfmt.v
Console.v
ConsoleInv.v
Bitmap.v
Iobuf.v
Vmm.v
Sem.v
Philosophers.v
Monitor.v
Paging.v
PagingInv.v
AddrSpace.v
Kmalloc.v
Slob.v
KernHeap.v
Vfs.v
File.v
FileInv.v
FileTable.v
Dev.v
DevInv.v
SfsDisk.v
Sfs.v
SfsInv.v
SfsMap.v
SfsFile.v
SfsDir.v
SfsVfs.v
SfsSync.v
SfsDemo.v
SfsLaws.v
Disk0.v
Mksfs.v
MksfsInv.v
MksfsTree.v
MksfsMount.v
MksfsImage.v
Sysfile.v
OpenFiles.v
SysfileInv.v
SfsStream.v
Proc.v
ProcTree.v
ProcInv.v
ProcFork.v
ProcExit.v
ProcWait.v
ProcRun.v
ProcDemo.v
Syscall.v
TrapInv.v
UserCalls.v
