(* ===== verification/Prelude.v ===== *)
(** * A verified model of the ucore kernel (src/code/lab8_result)

    ucore is a small uniprocessor kernel for the 32-bit PC: page allocation and paging
    with a swap disk, user address spaces, processes with fork, wait and exit, stride
    scheduling and timers, semaphores and monitors, a virtual file system with devices,
    and a C library of its own.  Programs enter it by system calls, and a program of the host writes the
    image of its file system.  Each file of this development translates one part; paths
    below are relative to src/code/lab8_result.

    ** Conventions

    A pointer is the address [ptr] (an integer) of an object in a finite map, NULL is
    [None].  An integer of the C code is a [Z]; [u32], [i32] and [u8] wrap it to its
    width where the code can leave the range.  A function returns [res]: [Ok], or
    [Panicked] (a failed [assert], [panic]), [Faulted] (an access through a pointer
    that designates nothing), or [NoFuel] (a loop that ran out of rounds).  [let!] and
    [assert!] sequence such results, so a definition reads in the order of the source.
    The kernel runs on one processor
    and disables interrupts around its critical sections, so such a section is one
    step, and interleaving matters between these steps only.

    ** Parts, and where they are

    - Library code: [ListH] (libs/list.h on a heap of prev/next pointers; [dlist] relates
      it to a sequence), [SkewHeap] (libs/skew_heap.h on parent/left/right pointers;
      [heap_at] relates it to a tree), [CString] (libs/string.c on a byte memory),
      [Printfmt] (libs/printfmt.c, generic in [putch]; [vsnprintf]), [Iobuf] and
      [Bitmap] (kern/fs/iobuf.c, kern/fs/sfs/bitmap.c).  [Hash]
      is libs/hash.c.
    - Physical memory: [DefaultPmm] (kern/mm/default_pmm.c: [pages[]] with the free list
      threaded through it) and [PmmManager], the class of kern/mm/pmm.h's function table
      with its laws, of which default_pmm.c is the instance.
    - Kernel heap: [Kmalloc] is kern/mm/kmalloc.c, whose free list lies in the memory it
      manages; [Slob] verifies the ring of free blocks, [KernHeap] what callers see.
    - Paging: [Paging] has page directories, tables, reference counts, the TLB and the
      swap area of kern/mm/pmm.c, swap.c, swap_fifo.c and kern/fs/swap/swapfs.c, for any
      [pmm_manager]; the disk controller is a function that says which transfers fail.
      [PagingInv] has the invariant [pg_inv] (tables are disjoint, [ref] counts the
      mappings, the TLB holds no stale entry), [AddrSpace] the ranges and areas of whole
      address spaces ([unmap_range], [exit_range], [copy_range], [exit_mmap],
      [dup_mmap], [do_pgfault]).  [Vmm] has the areas themselves (kern/mm/vmm.c).
    - Scheduling: [ProcData] is [struct proc_struct]; [StrideSched] has the class
      [sched_class] (the table of kern/schedule/sched.h with its laws) and its instance
      default_sched.c; [Sched] has sched.c (wake-up, dispatch, timers) for any class.
    - Synchronisation: [Sem] (kern/sync/wait.c, sem.c, with the abstract semaphore
      [asem]), [Monitor] (monitor.c) and [Philosophers] (check_sync.c), both over [asem]
      as labelled transition systems.
    - Files: [Vfs] has the inodes, devices and path lookup of kern/fs/vfs over the class
      [vfs_impl], the function tables of inodes and file systems; [File] has the open
      files of kern/fs/file.c and fs.c; [FileInv] states what the tables of functions
      promise ([vfs_laws]), [FileTable] and [OpenFiles] prove that the tables of open
      files and the counts of the inodes stay consistent.  [Dev] and [DevInv] have the
      devices of kern/fs/devs and kern/driver/ide.c, an instance of [vfs_impl] for which
      [vfs_laws] is proved.
    - File system on the disk (kern/fs/sfs): [SfsDisk] has the layout of sfs.h as bytes,
      sfs_io.c, and the class [block_dev] of the devices with its laws [block_dev_laws];
      [Sfs] the part of sfs_inode.c that works on one inode, [SfsVfs] the inodes in
      memory, the functions behind the VFS (an instance of [vfs_impl]), sfs_fs.c and
      sfs.c.  [SfsInv] has the invariant of the free map ([sfs_inv]), [SfsMap] the block
      map of a file ([file_inv]), [SfsFile] the content of a file, [SfsDir] the entries
      of a directory, [SfsSync] what reaches the disk, and [SfsDemo] a volume in memory
      at which the theorems are applied.
      [SfsLaws] proves [vfs_laws] for the tables of functions of
      sfs, and [Disk0] proves [block_dev_laws] for dev_disk0.c with the transfers of
      ide.c.  [Mksfs] is tools/mksfs.c, from the contents of a host directory to an image;
      [MksfsInv], [MksfsTree], [MksfsMount] and [MksfsImage] follow what it writes from
      its caches to the volume that the kernel mounts.
    - Processes: [Proc] has kern/process/proc.c.  Its state [kstate] joins the
      scheduler's state, a physical memory, the address spaces, the open files and the
      variables of proc.c, so that fork, exit and wait call the operations of all other
      parts.  [ProcTree] has [get_pid] and the tree of processes, [ProcInv] the
      invariant, [ProcFork], [ProcExit] and [ProcWait] the three families of calls,
      [ProcRun] sequences of them, [ProcDemo] a concrete running kernel.
    - System calls: [Sysfile] is kern/fs/sysfile.c on the memory of the process,
      [SysfileInv] its behaviour for any file system, [SfsStream] for files of sfs.
      [Syscall] has kern/syscall/syscall.c, the dispatch of kern/trap/trap.c and
      [do_execve]; its state [machine] adds to [kstate] what each sleeping process does
      when it runs again.  [TrapInv] has the invariant under arbitrary traps, [UserCalls]
      the stubs of user/libs/syscall.c and a machine that runs.
    - Console: [Console] has kern/driver/console.c, kern/libs/stdio.c and readline.c,
      [ConsoleInv] their theorems; [KString] is kern/libs/string.c.

    ** What the theorems show

    - The kernel under arbitrary programs: whatever the registers at a trap, whatever
      traps, interrupts and continuations follow each other, the invariant of processes
      holds, and timers belong to processes that wait for them ([reachable_minv]); the
      stub of each system call reaches its handler with the arguments of the program
      ([user_call_arrives]).
    - Processes: every state that any sequence of forks of kernel threads, exits, waits,
      kills, sleeps, yields and clock interrupts reaches has a tree of processes with
      unique pids, exact hash lists and an exact run queue ([reachable_sys_inv]); the
      calls come to an end and never panic where the invariant holds
      ([thread_fork_total], [do_exit_ok], [wait_round_total], [get_pid_fresh]); the hash
      lookup is the linear search ([find_proc_linear]).
    - Memory: the allocator is first fit with coalescing and never hands out a page
      twice; mapping, unmapping, copying and leaving address spaces keep [pg_inv] and
      free exactly the unshared frames; the checks of user memory are exact.
    - Scheduling: strides that wrap at 32 bits are compared correctly, a turn runs the
      process of least stride, no process is lost, timers fire at their deadline.
    - Synchronisation: [up] and [down] implement [asem]; monitors and the philosophers
      exclude each other in every interleaving and can always finish.
    - Files: calls keep every table well formed, and what is opened, shared by fork and
      closed by exit is balanced for every inode, under the system calls on files too
      ([sysfiles_balanced]); the keyboard buffer is a queue.
    - File system: whatever the device reports, writing patches the content of the file
      and leaves all other blocks in use alone, reading returns the content, a new length
      keeps the common part ([sfs_write_ok], [sfs_read_ok], [sfs_truncfile_ok]), also
      across the indirect block; on a device without errors a write fails only for lack
      of blocks.  Searching and listing a directory are the first match and the sequence
      of its entries ([sfs_dirent_search_ok], [sfs_getdirentry_ok]).  What [fsync] and
      [sfs_sync] write is what an inode load and a mount read ([sfs_fsync_ok],
      [sync_mount_roundtrip]).  The operations keep what the VFS relies on
      ([sfs_keeps_laws]); a block written to disk0 is read back ([disk0_write_read]);
      the system call [read] delivers the next bytes of the file to the memory of the
      process ([sysfile_read_sfs]).  For every directory of the host that fits, mksfs
      ends, and the kernel mounts the image and finds that directory on it ([mksfs_mounts]).
    - Console: [readline] returns the line as edited at the keyboard ([readline_text]),
      the cursor stays on the screen and the screen keeps its size ([cons_puts_screen]).
    - Kernel heap: every sequence of [kmalloc] and [kfree] calls keeps live blocks apart
      and free and live blocks together the pages taken ([heap_run_safe]).
    - Library: pointer lists, heaps, strings, formatted output and bitmaps compute what
      they are documented to, on every input, with their bounds.

    Where the code does not do what it means to do, the theorem states what happens:
    [default_free_stale_property], [mm_map_outcomes], [swap_in_stale_vaddr],
    [kmalloc_short], [sfs_truncfile_ok], [sfs_dirent_search_ok], [wild_access_panics],
    [full_ring_lost], [long_name_cut].

    ** Fuel

    Loops that do not recurse on a datum take a number of rounds, which a definition
    fixes and a theorem shows sufficient.  A walk along a pointer list takes the number
    of entries of the heap ([ListH], [DefaultPmm]); [merge_fuel] is the number of heap
    entries, one of which each recursive call consumes; [scan_fuel] is the number of
    mapped bytes plus one, because a scan stops or faults at an unmapped byte;
    [vprintfmt] takes the length of the format, and [printnum] 64 digits for 64 bits;
    [range_fuel] is the number of pages of a range; [alloc_loop] takes the number of
    swappable pages plus two, as each round swaps one out; [reparent_loop] and [find_zombie] take the
    number of processes; [pid_fuel] is twice [MAX_PID] plus two, because
    each round of [get_pid] moves [last_pid] on and it meets a free pid within two
    passes over the pid space ([get_pid_fresh]).  A walk of the slob ring takes
    [slob_fuel], the number of units of eight bytes in memory, since each round moves on
    to another block (twice that for a search that starts behind a page just added), and
    [find_order] 32 halvings.  The loops of kern/fs/sfs run over the blocks of an inode or
    of a range and recurse on their number; [namefile_loop] takes the bytes left in the
    buffer, one of which each round uses.  [sysfile_read] and [sysfile_write] take one
    round more than the bytes asked for, since every round but the last transfers a byte;
    [cons_intr] takes the bytes that wait at the device; [readline] is shown to return for
    any number of rounds above the characters of the line.  mksfs reads a file in as many
    rounds as it has bytes and writes its maps block by block.

    ** Not modelled

    - Hardware and assembly: the boot loader, entry code (trapentry.S, switch.S), the
      segment tables, the timer chip and the interrupt controller, and the waiting for
      ports; a device is the list of bytes it delivers.  The debugger and the kernel
      monitor (kern/debug).
    - [schedule] changes the current process; what a process does when it runs again is a
      function of its own ([do_wait]'s loop, [do_sleep_end], the second half of
      [__down]), which [Syscall] keeps in [pending].
    - [load_icode] is a parameter of [do_execve]: it fills page frames through the
      kernel's map of all memory and builds the stack of the program by virtual addresses,
      and the memories of the parts of this model are separate.
    - The self-tests ([check_*]) and output for people.
    - In parts other than [Kmalloc] a [kmalloc] is its outcome.  The semaphores of
      kern/fs/sfs/sfs_lock.c are never contended, since no transfer of the disk switches
      to another process.
    - user/ apart from the stubs of system calls, libs/rand.c, tools/sign.c and vector.c, the generated
      files of obj/ and the earlier kernel in src/code/lab4-spoc-discuss, whose core is an
      older copy.

    ** This file

    The prelude: the outcome type with its notation, the C integer types at their width,
    the bit operations of libs/atomic.h, and the generic lemmas and tactics that the
    components share. *)

From Stdlib Require Export ZArith Lia.
From stdpp Require Export base numbers sorting gmap list.

Open Scope Z_scope.

#[export] Set Warnings "-clear-no-such-hyp".

(** ** Outcomes of kernel code

    [Ok a] is a normal return; [Panicked] is a failed [assert] or a call of
    [panic], after which [__panic] never returns to its caller; [Faulted] is an
    access through a pointer that designates no object of the model; [NoFuel]
    is a loop that did not finish within the given number of rounds. *)
Inductive res (A : Type) : Type :=
  | Ok (a : A)
  | Panicked
  | Faulted
  | NoFuel.
Arguments Ok {A} a.
Arguments Panicked {A}.
Arguments Faulted {A}.
Arguments NoFuel {A}.

Definition bind {A B} (m : res A) (k : A → res B) : res B :=
  match m with
  | Ok a => k a
  | Panicked => Panicked
  | Faulted => Faulted
  | NoFuel => NoFuel
  end.

Declare Scope ucore_scope.
Delimit Scope ucore_scope with ucore.
Open Scope ucore_scope.

Notation "'let!' x ':=' m 'in' k" := (bind m (λ x, k))
  (at level 10, x pattern, m at level 100, k at level 200) : ucore_scope.

(** [assert(b); k] *)
Notation "'assert!' b ';;' k" := (if b then k else Panicked)
  (at level 10, b at level 99, k at level 200) : ucore_scope.

(** A read through a pointer: an absent object is a fault. *)
Definition deref {A} (o : option A) : res A :=
  match o with Some a => Ok a | None => Faulted end.

#[global] Instance res_eq_dec {A} `{EqDecision A} : EqDecision (res A).
Proof. solve_decision. Defined.

Lemma bind_ok {A B} (m : res A) (k : A → res B) b :
  bind m k = Ok b ↔ ∃ a, m = Ok a ∧ k a = Ok b.
Proof. destruct m; simpl; naive_solver. Qed.

Lemma deref_ok {A} (o : option A) a : deref o = Ok a ↔ o = Some a.
Proof. destruct o; simpl; naive_solver. Qed.

(** Splits a successful run into the runs of its parts. *)
Ltac inv_ok H :=
  match type of H with
  | bind _ _ = Ok _ =>
      let a := fresh "a" in let H1 := fresh "Hm" in let H2 := fresh "Hk" in
      apply bind_ok in H as (a & H1 & H2); inv_ok H1; inv_ok H2
  | deref _ = Ok _ => apply deref_ok in H
  | Ok _ = Ok _ => injection H; clear H; intros; subst
  | Panicked = Ok _ => discriminate H
  | Faulted = Ok _ => discriminate H
  | NoFuel = Ok _ => discriminate H
  | _ => idtac
  end.

(** [yields Q m]: the run does not get stuck for lack of fuel, and what it returns
    satisfies [Q]. *)
Definition yields {A} (Q : A → Prop) (m : res A) : Prop :=
  match m with Ok a => Q a | NoFuel => False | _ => True end.

Lemma yields_bind {A B} (P : A → Prop) (Q : B → Prop) m (k : A → res B) :
  yields P m → (∀ a, P a → yields Q (k a)) → yields Q (bind m k).
Proof. destruct m; cbn; auto. Qed.

Lemma yields_weaken {A} (P Q : A → Prop) m : yields P m → (∀ a, P a → Q a) → yields Q m.
Proof. destruct m; cbn; auto. Qed.

Lemma yields_deref {A} (Q : A → Prop) o : (∀ a, o = Some a → Q a) → yields Q (deref o).
Proof. destruct o; cbn; auto. Qed.

Lemma yields_ok {A} (Q : A → Prop) m : yields Q m ↔ m ≠ NoFuel ∧ ∀ a, m = Ok a → Q a.
Proof. destruct m; cbn; naive_solver. Qed.

Lemma yields_any {A B} (m : res A) (Q : B → Prop) (k : A → res B) :
  m ≠ NoFuel → (∀ a, yields Q (k a)) → yields Q (bind m k).
Proof. destruct m; cbn; auto. Qed.

Lemma bind_not_nofuel {A B} (x : res A) (k : A → res B) :
  x ≠ NoFuel → (∀ a, k a ≠ NoFuel) → bind x k ≠ NoFuel.
Proof. destruct x; cbn; auto. Qed.

Lemma deref_fuel {A} (o : option A) : deref o ≠ NoFuel.
Proof. by destruct o. Qed.

(** ** Machine integers *)

Definition u8 (z : Z) : Z := z `mod` 2 ^ 8.
Definition u32 (z : Z) : Z := z `mod` 2 ^ 32.
Definition i32 (z : Z) : Z := (z + 2 ^ 31) `mod` 2 ^ 32 - 2 ^ 31.

Definition is_u32 (z : Z) : Prop := 0 ≤ z < 2 ^ 32.
Definition is_i32 (z : Z) : Prop := - 2 ^ 31 ≤ z < 2 ^ 31.

Arguments u8 : simpl never.
Arguments u32 : simpl never.
Arguments i32 : simpl never.

Lemma u32_range z : is_u32 (u32 z).
Proof. apply Z.mod_pos_bound. lia. Qed.

Lemma u32_small z : 0 ≤ z < 2 ^ 32 → u32 z = z.
Proof. apply Z.mod_small. Qed.

Lemma i32_range z : is_i32 (i32 z).
Proof.
  unfold i32, is_i32.
  pose proof (Z.mod_pos_bound (z + 2 ^ 31) (2 ^ 32) ltac:(lia)). lia.
Qed.

Lemma i32_small z : - 2 ^ 31 ≤ z < 2 ^ 31 → i32 z = z.
Proof. intros H. unfold i32. rewrite Z.mod_small; lia. Qed.

Lemma u32_idem z : u32 (u32 z) = u32 z.
Proof. apply Z.mod_mod. lia. Qed.

Lemma u32_add_u32_l a b : u32 (u32 a + b) = u32 (a + b).
Proof. apply Zplus_mod_idemp_l. Qed.

Lemma i32_u32 z : i32 (u32 z) = i32 z.
Proof. unfold i32, u32. by rewrite Zplus_mod_idemp_l. Qed.

(** ** Error codes of libs/error.h *)

Definition E_UNSPECIFIED : Z := 1.
Definition E_BAD_PROC : Z := 2.
Definition E_INVAL : Z := 3.
Definition E_NO_MEM : Z := 4.
Definition E_NO_FREE_PROC : Z := 5.
Definition E_FAULT : Z := 6.
Definition E_SWAP_FAULT : Z := 7.
Definition E_INVAL_ELF : Z := 8.
Definition E_KILLED : Z := 9.
Definition E_PANIC : Z := 10.
Definition E_TIMEOUT : Z := 11.
Definition E_TOO_BIG : Z := 12.
Definition E_NO_DEV : Z := 13.
Definition E_NA_DEV : Z := 14.
Definition E_BUSY : Z := 15.
Definition E_NOENT : Z := 16.
Definition E_ISDIR : Z := 17.
Definition E_NOTDIR : Z := 18.
Definition E_XDEV : Z := 19.
Definition E_UNIMP : Z := 20.
Definition E_SEEK : Z := 21.
Definition E_MAX_OPEN : Z := 22.
Definition E_EXISTS : Z := 23.
Definition E_NOTEMPTY : Z := 24.
Definition MAXERROR : Z := 24.

(** [set_bit], [clear_bit] and [test_bit] of [libs/atomic.h]: the x86
    instructions [bts], [btr] and [bt] on a memory word. *)
Definition set_bit (nr : Z) (w : Z) : Z := Z.lor w (Z.shiftl 1 nr).
Definition clear_bit (nr : Z) (w : Z) : Z := Z.ldiff w (Z.shiftl 1 nr).
Definition test_bit (nr : Z) (w : Z) : bool := Z.testbit w nr.

Arguments set_bit : simpl never.
Arguments clear_bit : simpl never.
Arguments test_bit : simpl never.

Lemma test_set_bit_eq nr w : 0 ≤ nr → test_bit nr (set_bit nr w) = true.
Proof.
  intros. unfold test_bit, set_bit.
  rewrite Z.lor_spec, Z.shiftl_1_l, Z.pow2_bits_true by lia. apply orb_true_r.
Qed.

Lemma test_set_bit_ne nr k w : 0 ≤ nr → k ≠ nr → test_bit k (set_bit nr w) = test_bit k w.
Proof.
  intros. unfold test_bit, set_bit.
  rewrite Z.lor_spec, Z.shiftl_1_l, Z.pow2_bits_false by lia. apply orb_false_r.
Qed.

Lemma test_clear_bit_eq nr w : 0 ≤ nr → test_bit nr (clear_bit nr w) = false.
Proof.
  intros. unfold test_bit, clear_bit.
  rewrite Z.ldiff_spec, Z.shiftl_1_l, Z.pow2_bits_true by lia. apply andb_false_r.
Qed.

Lemma test_clear_bit_ne nr k w : 0 ≤ nr → k ≠ nr → test_bit k (clear_bit nr w) = test_bit k w.
Proof.
  intros. unfold test_bit, clear_bit.
  rewrite Z.ldiff_spec, Z.shiftl_1_l, Z.pow2_bits_false by lia. apply andb_true_r.
Qed.

(** ** Lists *)

Lemma submseteq_NoDup {A} (l k : list A) : NoDup l → k ⊆+ l → NoDup k.
Proof.
  intros Hl [k' Hp]%submseteq_Permutation. rewrite Hp in Hl.
  by apply NoDup_app in Hl as (? & _ & _).
Qed.

Lemma list_filter_id {A} (P : A → Prop) `{∀ x, Decision (P x)} (l : list A) : (∀ x, x ∈ l → P x) → filter P l = l.
Proof.
  induction l as [|x l IH]; intros Hl; [done|]. rewrite filter_cons_True by (apply Hl; set_solver).
  f_equal. apply IH. intros; apply Hl; set_solver.
Qed.

Lemma list_filter_none {A} (P : A → Prop) `{∀ x, Decision (P x)} (l : list A) : (∀ x, x ∈ l → ¬ P x) → filter P l = [].
Proof.
  induction l as [|x l IH]; intros Hl; [done|]. rewrite filter_cons_False by (apply Hl; set_solver).
  apply IH. intros; apply Hl; set_solver.
Qed.

Lemma NoDup_fmap_filter {A B} (f : A → B) (P : A → Prop) `{∀ x, Decision (P x)} (l : list A) :
  NoDup (f <$> l) → NoDup (f <$> filter P l).
Proof.
  induction l as [|x l IH]; [done|]. rewrite fmap_cons. intros [Hx Hnd]%NoDup_cons.
  rewrite filter_cons. case_decide; [|by apply IH]. rewrite fmap_cons. apply NoDup_cons.
  split; [|by apply IH]. intros (y & Hy & [_ Hin]%list_elem_of_filter)%list_elem_of_fmap.
  apply Hx, list_elem_of_fmap. eauto.
Qed.

Lemma Forall2_impl_in {A B} (P Q : A → B → Prop) l k :
  Forall2 P l k → (∀ x y, x ∈ l → y ∈ k → P x y → Q x y) → Forall2 Q l k.
Proof.
  induction 1 as [|x y l k Hxy Hf IH]; intros HQ; constructor.
  - apply HQ; [set_solver..|done].
  - apply IH. intros; apply HQ; [set_solver..|done].
Qed.

(** ** Sums over lists *)

Definition b2z (b : bool) : Z := if b then 1 else 0.

Definition zsum {A} (f : A → Z) (l : list A) : Z := foldr (λ t n, f t + n) 0 l.

Lemma zsum_ext {A} (f g : A → Z) l : (∀ t, t ∈ l → f t = g t) → zsum f l = zsum g l.
Proof.
  induction l as [|t l IH]; intros Hf; cbn; [done|]. rewrite (Hf t) by set_solver. f_equal. apply IH.
  intros; apply Hf; set_solver.
Qed.

Lemma zsum_change {A} `{EqDecision A} (f g : A → Z) l t :
  NoDup l → t ∈ l → (∀ u, u ∈ l → u ≠ t → f u = g u) → zsum f l = zsum g l - g t + f t.
Proof.
  induction l as [|u l IH]; [set_solver|]. intros [Hu Hnd]%NoDup_cons Ht Hf. cbn [zsum foldr]. fold (zsum f l) (zsum g l).
  destruct (decide (u = t)) as [->|Hne].
  - rewrite (zsum_ext f g l); [lia|]. intros v Hv. apply Hf; [set_solver|]. by intros ->.
  - rewrite (Hf u), IH by (done || set_solver). lia.
Qed.

Lemma zsum_const0 {A} (f : A → Z) l : (∀ t, f t = 0) → foldr (λ t n, f t + n) 0 l = 0.
Proof. intros Hf. induction l as [|t l IH]; cbn; [done|]. rewrite Hf, IH. done. Qed.

Lemma zsum_nonneg {A} (f : A → Z) l : (∀ t, t ∈ l → 0 ≤ f t) → 0 ≤ zsum f l.
Proof.
  induction l as [|t l IH]; intros Hf; cbn; [done|]. pose proof (Hf t ltac:(set_solver)).
  assert (0 ≤ zsum f l) by (apply IH; intros; apply Hf; set_solver). unfold zsum in *. lia.
Qed.

Lemma zsum_two {A} (f : A → Z) l t u : NoDup l → t ∈ l → u ∈ l → t ≠ u → (∀ v, v ∈ l → 0 ≤ f v) → f t + f u ≤ zsum f l.
Proof.
  intros Hnd Ht Hu Hne Hf. apply elem_of_Permutation in Ht as [l1 Hl1].
  assert (∀ l l', l ≡ₚ l' → zsum f l = zsum f l') as Hperm.
  { induction 1; cbn in *; unfold zsum in *; lia. }
  assert (u ∈ l1) as Hu1 by (rewrite Hl1 in Hu; set_solver). apply elem_of_Permutation in Hu1 as [l2 Hl2].
  rewrite (Hperm _ (t :: u :: l2)) by (by rewrite Hl1, Hl2). cbn. fold (zsum f l2).
  assert (0 ≤ zsum f l2); [|lia]. apply zsum_nonneg. intros v Hv. apply Hf. rewrite Hl1, Hl2. set_solver.
Qed.

Create HintDb ucore.
#[export] Hint Rewrite u32_idem u32_add_u32_l i32_u32 : ucore.
#[export] Hint Resolve u32_range i32_range : ucore.
