(* ===== verification/ListH.v ===== *)
(** * libs/list.h: circular doubly linked lists

    The list entries are modelled at the pointer level: a heap maps the address
    of each [list_entry_t] to its [prev] and [next] fields, and the operations
    read and write those fields in the order of the C code.  [dlist] relates a
    heap to the sequence of entries a client sees; the lemmas at the end are
    what clients use. *)

From S2P Require Import Prelude.

Section list_h.
Context {P : Type} `{Countable P}.

(** ** struct list_entry *)
Record list_entry := ListEntry { prev : P; next : P }.

Abbreviation lheap := (gmap P list_entry).

Definition rd (h : lheap) (p : P) : res list_entry := deref (h !! p).

Definition set_next (h : lheap) (p v : P) : res lheap :=
  let! e := rd h p in Ok (<[p := ListEntry (prev e) v]> h).

Definition set_prev (h : lheap) (p v : P) : res lheap :=
  let! e := rd h p in Ok (<[p := ListEntry v (next e)]> h).

(** [prev->next = next->prev = elm; elm->next = next; elm->prev = prev;]
    The inner assignment is the one to [next->prev]. *)
Definition __list_add (h : lheap) (elm prv nxt : P) : res lheap :=
  let! h := set_prev h nxt elm in
  let! h := set_next h prv elm in
  let! h := set_next h elm nxt in
  set_prev h elm prv.

Definition __list_del (h : lheap) (prv nxt : P) : res lheap :=
  let! h := set_next h prv nxt in
  set_prev h nxt prv.

Definition list_init (h : lheap) (elm : P) : res lheap :=
  let! h := set_next h elm elm in
  set_prev h elm elm.

Definition list_add_before (h : lheap) (listelm elm : P) : res lheap :=
  let! e := rd h listelm in __list_add h elm (prev e) listelm.

Definition list_add_after (h : lheap) (listelm elm : P) : res lheap :=
  let! e := rd h listelm in __list_add h elm listelm (next e).

Definition list_add (h : lheap) (listelm elm : P) : res lheap :=
  list_add_after h listelm elm.

Definition list_del (h : lheap) (listelm : P) : res lheap :=
  let! e := rd h listelm in __list_del h (prev e) (next e).

Definition list_del_init (h : lheap) (listelm : P) : res lheap :=
  let! h := list_del h listelm in list_init h listelm.

Definition list_empty (h : lheap) (lst : P) : res bool :=
  let! e := rd h lst in Ok (bool_decide (next e = lst)).

Definition list_next (h : lheap) (listelm : P) : res P :=
  let! e := rd h listelm in Ok (next e).

Definition list_prev (h : lheap) (listelm : P) : res P :=
  let! e := rd h listelm in Ok (prev e).

(** ** Representation of a sequence of entries *)

Definition nxt (h : lheap) (p : P) : option P := next <$> h !! p.
Definition prv (h : lheap) (p : P) : option P := prev <$> h !! p.

(** Neighbours: each points to the other. *)
Definition linked (h : lheap) (p q : P) : Prop := nxt h p = Some q ∧ prv h q = Some p.

Fixpoint lseg (h : lheap) (p : P) (l : list P) (q : P) : Prop :=
  match l with
  | [] => linked h p q
  | x :: l => linked h p x ∧ lseg h x l q
  end.

Definition dlist (h : lheap) (hd : P) (l : list P) : Prop :=
  lseg h hd l hd ∧ NoDup (hd :: l).

Implicit Types (h : lheap) (p q x hd : P) (l : list P).

Lemma lseg_app h p l1 x l2 q :
  lseg h p (l1 ++ x :: l2) q ↔ lseg h p l1 x ∧ lseg h x l2 q.
Proof. revert p. induction l1 as [|y l1 IH]; intros p; simpl; [done|]. rewrite IH. tauto. Qed.

Lemma lseg_frame h h' p l q :
  lseg h p l q →
  (∀ x, x ∈ p :: l → nxt h' x = nxt h x) →
  (∀ x, x ∈ l ++ [q] → prv h' x = prv h x) →
  lseg h' p l q.
Proof.
  revert p. induction l as [|y l IH]; intros p; simpl.
  - intros [H1 H2] Hn Hp. split; [rewrite Hn by set_solver | rewrite Hp by set_solver]; done.
  - intros [[H1 H2] Hs] Hn Hp. split.
    + split; [rewrite Hn by set_solver | rewrite Hp by set_solver]; done.
    + apply IH; [done| |]; intros; [apply Hn | apply Hp]; set_solver.
Qed.

(** A circular list may be entered at any of its entries. *)
Lemma dlist_rotate h hd l1 x l2 :
  dlist h hd (l1 ++ x :: l2) ↔ dlist h x (l2 ++ hd :: l1).
Proof.
  unfold dlist. rewrite !lseg_app.
  assert (hd :: l1 ++ x :: l2 ≡ₚ x :: l2 ++ hd :: l1) as Hp by solve_Permutation.
  rewrite Hp. tauto.
Qed.

Lemma dlist_dom h hd l x : dlist h hd l → x ∈ hd :: l → is_Some (h !! x).
Proof.
  intros [Hs _] Hx. revert Hs. generalize hd at 2. revert hd Hx.
  induction l as [|y l IH]; intros p Hx q; simpl.
  - intros [Hn _]. assert (x = p) as -> by set_solver.
    unfold nxt in Hn. destruct (h !! p); naive_solver.
  - intros [[Hn _] Hs]. apply elem_of_cons in Hx as [->|Hx]; [|eauto].
    unfold nxt in Hn. destruct (h !! p); naive_solver.
Qed.

Lemma dlist_size h hd l : dlist h hd l → (S (length l) ≤ size h)%nat.
Proof.
  intros Hd. rewrite <- size_dom.
  assert (list_to_set (hd :: l) ⊆ dom h) as Hsub.
  { intros x Hx. apply elem_of_dom. apply elem_of_list_to_set in Hx. eauto using dlist_dom. }
  apply subseteq_size in Hsub. rewrite size_list_to_set in Hsub by apply Hd. done.
Qed.

(** ** Reads *)

Lemma nxt_rd h p q : nxt h p = Some q ↔ list_next h p = Ok q.
Proof. unfold nxt, list_next, rd. destruct (h !! p); simpl; naive_solver. Qed.

Lemma prv_rd h p q : prv h p = Some q ↔ list_prev h p = Ok q.
Proof. unfold prv, list_prev, rd. destruct (h !! p); simpl; naive_solver. Qed.

Lemma lseg_next h p l q : lseg h p l q → list_next h p = Ok (default q (head l)).
Proof. rewrite <- nxt_rd. destruct l; simpl; unfold linked; tauto. Qed.

Lemma lseg_prev h p l q : lseg h p l q → list_prev h q = Ok (default p (last l)).
Proof.
  rewrite <- prv_rd. destruct l as [|x l _] using rev_ind; simpl; [by intros []|].
  rewrite lseg_app, last_snoc. simpl. by intros [_ []].
Qed.

Lemma dlist_next h hd l1 x l2 :
  dlist h hd (l1 ++ x :: l2) → list_next h x = Ok (default hd (head l2)).
Proof. intros [Hs _]. apply lseg_app in Hs as [_ Hs]. by apply lseg_next in Hs. Qed.

Lemma dlist_prev h hd l1 x l2 :
  dlist h hd (l1 ++ x :: l2) → list_prev h x = Ok (default hd (last l1)).
Proof. intros [Hs _]. apply lseg_app in Hs as [Hs _]. by apply lseg_prev in Hs. Qed.

Lemma dlist_next_head h hd l : dlist h hd l → list_next h hd = Ok (default hd (head l)).
Proof. intros [Hs _]. by apply lseg_next in Hs. Qed.

Lemma dlist_prev_head h hd l : dlist h hd l → list_prev h hd = Ok (default hd (last l)).
Proof. intros [Hs _]. by apply lseg_prev in Hs. Qed.

Lemma dlist_empty h hd l :
  dlist h hd l → list_empty h hd = Ok (bool_decide (l = [])).
Proof.
  intros Hd. pose proof (dlist_next_head _ _ _ Hd) as Hn.
  unfold list_next, list_empty in *. destruct (rd h hd) as [e| | |]; simpl in *; try done.
  injection Hn as ->. f_equal. apply bool_decide_ext. destruct Hd as [_ Hnd].
  apply NoDup_cons in Hnd as [Hnd _]. destruct l; simpl; [done|]. set_solver.
Qed.

(** ** Writes

    A write succeeds on an allocated entry, changes one field of it and keeps
    the set of allocated entries. *)

Lemma set_next_spec h p v :
  is_Some (h !! p) →
  ∃ h', set_next h p v = Ok h' ∧ dom h' = dom h ∧
    (∀ x, nxt h' x = if decide (x = p) then Some v else nxt h x) ∧
    (∀ x, prv h' x = prv h x).
Proof.
  intros [e He]. unfold set_next, rd. rewrite He. simpl.
  eexists. split; [done|]. split; [|split].
  - rewrite dom_insert_lookup_L; done.
  - intros x. unfold nxt. destruct (decide (x = p)) as [->|]; by simplify_map_eq.
  - intros x. unfold prv. destruct (decide (x = p)) as [->|]; by simplify_map_eq.
Qed.

Lemma set_prev_spec h p v :
  is_Some (h !! p) →
  ∃ h', set_prev h p v = Ok h' ∧ dom h' = dom h ∧
    (∀ x, nxt h' x = nxt h x) ∧
    (∀ x, prv h' x = if decide (x = p) then Some v else prv h x).
Proof.
  intros [e He]. unfold set_prev, rd. rewrite He. simpl.
  eexists. split; [done|]. split; [|split].
  - rewrite dom_insert_lookup_L; done.
  - intros x. unfold nxt. destruct (decide (x = p)) as [->|]; by simplify_map_eq.
  - intros x. unfold prv. destruct (decide (x = p)) as [->|]; by simplify_map_eq.
Qed.

Lemma is_Some_dom_eq h h' x : dom h' = dom h → is_Some (h !! x) → is_Some (h' !! x).
Proof. intros Hd Hx. apply elem_of_dom. rewrite Hd. by apply elem_of_dom. Qed.

(** Runs one write of a sequence of writes. *)
Ltac list_write lem :=
  match goal with
  | |- context [bind (?f ?h ?p ?v) _] =>
      let h' := fresh "h" in let E := fresh "E" in let D := fresh "D" in
      let N := fresh "Hn" in let V := fresh "Hp" in
      destruct (lem h p v) as (h' & E & D & N & V);
      [eauto using is_Some_dom_eq | rewrite E; simpl]
  end.

Lemma __list_add_spec h e p q :
  is_Some (h !! e) → is_Some (h !! p) → is_Some (h !! q) → e ≠ p → e ≠ q →
  ∃ h', __list_add h e p q = Ok h' ∧ dom h' = dom h ∧
    (∀ x, nxt h' x = if decide (x = e) then Some q else
                     if decide (x = p) then Some e else nxt h x) ∧
    (∀ x, prv h' x = if decide (x = e) then Some p else
                     if decide (x = q) then Some e else prv h x).
Proof.
  intros He Hp Hq Hep Heq. unfold __list_add.
  list_write set_prev_spec. list_write set_next_spec. list_write set_next_spec.
  destruct (set_prev_spec h2 e p) as (h3 & -> & D3 & Hn3 & Hp3);
    [eauto using is_Some_dom_eq|].
  exists h3. split; [done|]. split; [congruence|].
  split; intros x; [rewrite Hn3, Hn1, Hn0, Hn | rewrite Hp3, Hp2, Hp1, Hp0];
    repeat case_decide; congruence.
Qed.

Lemma __list_del_spec h p q :
  is_Some (h !! p) → is_Some (h !! q) →
  ∃ h', __list_del h p q = Ok h' ∧ dom h' = dom h ∧
    (∀ x, nxt h' x = if decide (x = p) then Some q else nxt h x) ∧
    (∀ x, prv h' x = if decide (x = q) then Some p else prv h x).
Proof.
  intros Hp Hq. unfold __list_del. list_write set_next_spec.
  destruct (set_prev_spec h0 q p) as (h1 & -> & D1 & Hn1 & Hp2);
    [eauto using is_Some_dom_eq|].
  exists h1. split; [done|]. split; [congruence|].
  split; intros x; [rewrite Hn1, Hn | rewrite Hp2, Hp0]; done.
Qed.

(** ** Effect on the represented sequence *)

Lemma dlist_add_after_head h hd l e :
  dlist h hd l → is_Some (h !! e) → e ∉ hd :: l →
  ∃ h', list_add_after h hd e = Ok h' ∧ dlist h' hd (e :: l) ∧ dom h' = dom h.
Proof.
  intros Hd He Hnin. pose proof (dlist_next_head _ _ _ Hd) as Hn.
  assert (default hd (head l) ∈ hd :: l) as Hq by (destruct l; set_solver).
  destruct (__list_add_spec h e hd (default hd (head l))) as (h' & Hadd & D & Hn' & Hp');
    eauto using dlist_dom; [eapply dlist_dom; [done|set_solver] | set_solver | set_solver | ].
  exists h'. unfold list_add_after, list_next, rd in *.
  destruct (h !! hd) as [ed|] eqn:Hhd; simpl in *; [|done].
  injection Hn as ->. split; [done|]. split; [|done].
  destruct Hd as [Hs Hnd]. split; [|apply NoDup_cons in Hnd as [??];
    rewrite !NoDup_cons; set_solver].
  simpl. split.
  { split; [rewrite Hn' | rewrite Hp']; repeat case_decide; set_solver. }
  destruct l as [|x l]; simpl in *.
  { split; [rewrite Hn' | rewrite Hp']; repeat case_decide; set_solver. }
  split.
  { split; [rewrite Hn' | rewrite Hp']; repeat case_decide; set_solver. }
  apply NoDup_cons in Hnd as [Hnd1 Hnd]. apply NoDup_cons in Hnd as [Hnd2 Hnd].
  eapply lseg_frame; [apply Hs| |]; intros y Hy; [rewrite Hn' | rewrite Hp'];
    repeat case_decide; set_solver.
Qed.

Lemma dlist_add_after h hd l1 x l2 e :
  dlist h hd (l1 ++ x :: l2) → is_Some (h !! e) → e ∉ hd :: l1 ++ x :: l2 →
  ∃ h', list_add_after h x e = Ok h' ∧ dlist h' hd (l1 ++ x :: e :: l2) ∧ dom h' = dom h.
Proof.
  rewrite dlist_rotate. intros Hd He Hnin.
  destruct (dlist_add_after_head h x (l2 ++ hd :: l1) e) as (h' & ? & ? & ?);
    [done..|set_solver|].
  exists h'. split; [done|]. split; [|done]. by apply dlist_rotate.
Qed.

(** [list_add_before] at an entry is [list_add_after] at its predecessor. *)
Lemma list_add_before_after h p q e :
  nxt h p = Some q → prv h q = Some p → list_add_before h q e = list_add_after h p e.
Proof.
  unfold nxt, prv, list_add_before, list_add_after, rd.
  destruct (h !! p) as [ep|], (h !! q) as [eq|]; simpl; naive_solver.
Qed.

Lemma dlist_add_before_head h hd l e :
  dlist h hd l → is_Some (h !! e) → e ∉ hd :: l →
  ∃ h', list_add_before h hd e = Ok h' ∧ dlist h' hd (l ++ [e]) ∧ dom h' = dom h.
Proof.
  intros Hd He Hnin. destruct l as [|x l _] using rev_ind; simpl.
  - destruct (Hd) as [[Hn Hp] _]. rewrite (list_add_before_after _ hd hd) by done.
    by apply dlist_add_after_head.
  - destruct (Hd) as [Hs _]. apply lseg_app in Hs as [_ [Hn Hp]].
    rewrite (list_add_before_after _ x hd) by done.
    rewrite <- app_assoc. by apply dlist_add_after.
Qed.

Lemma dlist_add_before h hd l1 x l2 e :
  dlist h hd (l1 ++ x :: l2) → is_Some (h !! e) → e ∉ hd :: l1 ++ x :: l2 →
  ∃ h', list_add_before h x e = Ok h' ∧ dlist h' hd (l1 ++ e :: x :: l2) ∧ dom h' = dom h.
Proof.
  rewrite dlist_rotate. intros Hd He Hnin.
  destruct (dlist_add_before_head h x (l2 ++ hd :: l1) e) as (h' & ? & Hd' & ?);
    [done..|set_solver|].
  exists h'. split; [done|]. split; [|done].
  rewrite <- app_assoc in Hd'. simpl in Hd'. apply dlist_rotate in Hd'.
  by rewrite <- app_assoc in Hd'.
Qed.

(** Deleting the entry a circular list is entered at. *)
Lemma dlist_del_head h x y l :
  dlist h x (y :: l) →
  ∃ h', list_del h x = Ok h' ∧ dlist h' y l ∧ dom h' = dom h ∧ h' !! x = h !! x.
Proof.
  intros Hd. pose proof (dlist_prev_head _ _ _ Hd) as Hpx.
  pose proof (dlist_next_head _ _ _ Hd) as Hnx. simpl in Hnx.
  set (z := default y (last l)). assert (default x (last (y :: l)) = z) as Hz.
  { unfold z. destruct l as [|w l _] using rev_ind; [done|].
    by rewrite app_comm_cons, !last_snoc. }
  assert (z ∈ y :: l) as Hzl.
  { unfold z. destruct l as [|w l _] using rev_ind; [set_solver|]. rewrite last_snoc. set_solver. }
  rewrite Hz in Hpx.
  destruct (__list_del_spec h z y) as (h' & Hdel & D & Hn' & Hp');
    [eapply dlist_dom; [done|set_solver]..|].
  exists h'. unfold list_del, list_next, list_prev, rd in *.
  destruct (h !! x) as [ex|] eqn:Hx; simpl in *; [|done].
  injection Hpx as ->. injection Hnx as ->.
  destruct Hd as [[_ Hs] Hnd]. apply NoDup_cons in Hnd as [Hxn Hnd].
  split; [done|]. split; [split; [|done] | split; [done|]].
  - clearbody z. destruct l as [|w l _] using rev_ind; simpl in *.
    + assert (z = y) as -> by set_solver.
      split; [rewrite Hn' | rewrite Hp']; by rewrite decide_True.
    + rewrite app_comm_cons, last_snoc in Hz. simpl in Hz. subst w.
      apply NoDup_cons in Hnd as [Hy Hnd]. apply NoDup_app in Hnd as (Hnd & Hd & _).
      rewrite lseg_app in Hs |- *. destruct Hs as [Hs Hlast].
      split; [|split; [rewrite Hn' | rewrite Hp']; by rewrite decide_True].
      eapply lseg_frame; [done| |]; intros v Hv; [rewrite Hn' | rewrite Hp'];
        rewrite decide_False; set_solver.
  - specialize (Hn' x). specialize (Hp' x). unfold nxt, prv in *. rewrite Hx in *.
    rewrite !decide_False in * by set_solver. simpl in *.
    destruct (h' !! x) as [[]|]; simpl in *; [|done]. destruct ex; simpl in *. congruence.
Qed.

Lemma dlist_del h hd l1 x l2 :
  dlist h hd (l1 ++ x :: l2) →
  ∃ h', list_del h x = Ok h' ∧ dlist h' hd (l1 ++ l2) ∧ dom h' = dom h ∧ h' !! x = h !! x.
Proof.
  rewrite dlist_rotate. intros Hd. destruct l2 as [|y l2]; simpl in *.
  - rewrite app_nil_r. by apply dlist_del_head.
  - destruct (dlist_del_head h x y (l2 ++ hd :: l1)) as (h' & ? & Hd' & ?); [done|].
    exists h'. split; [done|]. split; [|done]. by apply dlist_rotate.
Qed.

Lemma list_init_spec h e :
  is_Some (h !! e) →
  ∃ h', list_init h e = Ok h' ∧ dlist h' e [] ∧ dom h' = dom h ∧
    (∀ x, x ≠ e → h' !! x = h !! x).
Proof.
  intros [en He]. unfold list_init, set_next, set_prev, rd. rewrite He. simpl.
  rewrite lookup_insert_eq. simpl. eexists. split; [done|].
  split; [|split].
  - split; [|apply NoDup_singleton]. simpl. unfold linked, nxt, prv. by simplify_map_eq.
  - rewrite insert_insert_eq. by rewrite dom_insert_lookup_L.
  - intros x Hx. by rewrite !lookup_insert_ne.
Qed.

Lemma dlist_frame h h' hd l :
  (∀ x, x ∈ hd :: l → h' !! x = h !! x) → dlist h hd l → dlist h' hd l.
Proof.
  intros Hf [Hs Hnd]. split; [|done]. eapply lseg_frame; [done| |]; unfold nxt, prv.
  - intros x Hx. by rewrite Hf.
  - intros x Hx. rewrite Hf by set_solver. done.
Qed.

Lemma list_empty_nil h hd l : dlist h hd l → list_empty h hd = Ok (bool_decide (l = [])).
Proof.
  intros Hd. pose proof (dlist_next_head _ _ _ Hd) as Hn.
  unfold list_next, list_empty, rd in *. destruct (h !! hd) as [en|] eqn:E; [|done].
  simpl in *. f_equal. apply bool_decide_ext. injection Hn as Hn.
  destruct Hd as [_ Hnd]. destruct l as [|x l]; simpl in *; [done|].
  split; [|done]. intros Hx. apply NoDup_cons in Hnd. set_solver.
Qed.

(** [list_add_after] puts an entry right behind the given one,
    [list_next] and [list_prev] find it there, and [list_del_init] restores
    the list it was put into and leaves the entry an empty list of its own. *)
Theorem list_add_del_roundtrip h hd l1 x l2 e :
  dlist h hd (l1 ++ x :: l2) → is_Some (h !! e) → e ∉ hd :: l1 ++ x :: l2 →
  ∃ h1 h2, list_add_after h x e = Ok h1 ∧ dlist h1 hd (l1 ++ x :: e :: l2) ∧
    list_next h1 x = Ok e ∧ list_prev h1 e = Ok x ∧
    list_del_init h1 e = Ok h2 ∧ dlist h2 hd (l1 ++ x :: l2) ∧
    list_empty h2 e = Ok true ∧ list_empty h2 hd = Ok false.
Proof.
  intros Hd He Hnin. destruct (dlist_add_after _ _ _ _ _ _ Hd He Hnin) as (h1 & Ha & Hd1 & D1).
  assert (dlist h1 hd ((l1 ++ [x]) ++ e :: l2)) as Hd1' by (by rewrite <- app_assoc).
  destruct (dlist_del _ _ _ _ _ Hd1') as (h2 & Hdel & Hd2 & D2 & _).
  rewrite <- app_assoc in Hd2. simpl in Hd2.
  destruct (list_init_spec h2 e) as (h3 & Hi & Hd3 & _ & Hf).
  { eapply is_Some_dom_eq; [|exact He]. by rewrite D2, D1. }
  assert (dlist h3 hd (l1 ++ x :: l2)) as Hd4.
  { eapply dlist_frame; [|exact Hd2]. intros y Hy. apply Hf. by intros ->. }
  exists h1, h3. split_and!; [done|done| | | |done| |].
  - by apply (dlist_next _ _ _ _ _ Hd1).
  - rewrite (dlist_prev _ _ _ _ _ Hd1'). by rewrite last_snoc.
  - unfold list_del_init. by rewrite Hdel.
  - by rewrite (list_empty_nil _ _ _ Hd3).
  - rewrite (list_empty_nil _ _ _ Hd4). by destruct l1.
Qed.

End list_h.

(** *** A list of the entries 1 and 2 with head 0, and a lone entry 3. *)
Definition demo_list : gmap Z list_entry :=
  {[ 0%Z := ListEntry 2%Z 1%Z; 1%Z := ListEntry 0%Z 2%Z; 2%Z := ListEntry 1%Z 0%Z;
     3%Z := ListEntry 3%Z 3%Z ]}.

Lemma list_add_del_roundtrip_witness :
  ∃ h1 h2, list_add_after demo_list 1%Z 3%Z = Ok h1 ∧ dlist h1 0%Z [1; 3; 2]%Z ∧
    list_next h1 1%Z = Ok 3%Z ∧ list_prev h1 3%Z = Ok 1%Z ∧
    list_del_init h1 3%Z = Ok h2 ∧ dlist h2 0%Z [1; 2]%Z ∧
    list_empty h2 3%Z = Ok true ∧ list_empty h2 0%Z = Ok false.
Proof.
  apply (list_add_del_roundtrip demo_list 0%Z [] 1%Z [2%Z] 3%Z).
  - split; [by vm_compute|]. refine (bool_decide_unpack _ _). by vm_compute.
  - by eexists.
  - set_solver.
Defined.
