(* ===== verification/DefaultPmm.v ===== *)
(** * kern/mm/default_pmm.c: the first-fit page allocator

    [pages[]] is a finite map from page numbers to the fields of [struct Page]
    the allocator uses, and the free list is the pointer-level list of
    [libs/list.h] threaded through the [page_link] fields.  Section [code]
    translates the functions; the later sections relate them to lists of blocks
    [(first page, number of pages)]. *)

From S2P Require Import Prelude ListH.

(** ** struct Page and the free area *)

Record Page := mkPage { ref : Z; flags : Z; property : Z }.

Definition PG_reserved : Z := 0.
Definition PG_property : Z := 1.

Definition with_flags (f : Z → Z) (pg : Page) : Page := mkPage (ref pg) (f (flags pg)) (property pg).
Definition set_flags (v : Z) (pg : Page) : Page := with_flags (λ _, v) pg.
Definition set_property (v : Z) (pg : Page) : Page := mkPage (ref pg) (flags pg) v.
Definition set_page_ref (v : Z) (pg : Page) : Page := mkPage v (flags pg) (property pg).

Definition SetPageReserved : Page → Page := with_flags (set_bit PG_reserved).
Definition ClearPageReserved : Page → Page := with_flags (clear_bit PG_reserved).
Definition PageReserved (pg : Page) : bool := test_bit PG_reserved (flags pg).
Definition SetPageProperty : Page → Page := with_flags (set_bit PG_property).
Definition ClearPageProperty : Page → Page := with_flags (clear_bit PG_property).
Definition PageProperty (pg : Page) : bool := test_bit PG_property (flags pg).

(** The address of a list entry: the head [free_area.free_list], or the
    [page_link] field of a page. *)
Abbreviation link := (option Z).
Definition FREE_LIST : link := None.
Definition page_link (p : Z) : link := Some p.

(** [le2page(le, page_link)]: [None] for the head, which lies in no page. *)
Definition le2page (le : link) : option Z := le.

Record free_area := FreeArea {
  pages : gmap Z Page;
  free_list : gmap link (@list_entry link);
  nr_free : Z
}.

Definition set_free_list (s : free_area) l : free_area := FreeArea (pages s) l (nr_free s).
Definition set_nr_free (s : free_area) n : free_area := FreeArea (pages s) (free_list s) n.

Definition page_of (s : free_area) (p : option Z) : res Page :=
  let! i := deref p in deref (pages s !! i).

Definition upd_page (s : free_area) (p : option Z) (f : Page → Page) : res free_area :=
  let! i := deref p in
  let! pg := deref (pages s !! i) in
  Ok (FreeArea (<[i := f pg]> (pages s)) (free_list s) (nr_free s)).

(** ** The operations of the manager *)

Definition default_init (s : free_area) : res free_area :=
  let! l := list_init (free_list s) FREE_LIST in
  Ok (set_nr_free (set_free_list s l) 0).

Fixpoint init_memmap_loop (s : free_area) (p : Z) (k : nat) : res free_area :=
  match k with
  | O => Ok s
  | S k =>
      let! pg := page_of s (Some p) in
      assert! PageReserved pg ;;
      let! s := upd_page s (Some p) (set_flags 0) in
      let! s := upd_page s (Some p) SetPageProperty in
      let! s := upd_page s (Some p) (set_property 0) in
      let! s := upd_page s (Some p) (set_page_ref 0) in
      let! l := list_add_before (free_list s) FREE_LIST (page_link p) in
      init_memmap_loop (set_free_list s l) (p + 1) k
  end.

Definition default_init_memmap (s : free_area) (base n : Z) : res free_area :=
  assert! (0 <? n) ;;
  let! s := init_memmap_loop s base (Z.to_nat n) in
  let s := set_nr_free s (u32 (nr_free s + n)) in
  upd_page s (Some base) (set_property n).

(** The inner [for] loop: takes [k] consecutive entries off the list. *)
Fixpoint take_pages (s : free_area) (le : link) (k : nat) : res (link * free_area) :=
  match k with
  | O => Ok (le, s)
  | S k =>
      let! len := list_next (free_list s) le in
      let pp := le2page le in
      let! s := upd_page s pp SetPageReserved in
      let! s := upd_page s pp ClearPageProperty in
      let! l := list_del (free_list s) le in
      take_pages (set_free_list s l) len k
  end.

(** The body of the [if (p->property >= n)] of [default_alloc_pages]. *)
Definition alloc_found (s : free_area) (le : link) (p n : Z) : res (option Z * free_area) :=
  let! (le, s) := take_pages s le (Z.to_nat n) in
  let! pg := page_of s (Some p) in
  let! s := if n <? property pg
            then upd_page s (le2page le) (set_property (u32 (property pg - n)))
            else Ok s in
  let! s := upd_page s (Some p) ClearPageProperty in
  let! s := upd_page s (Some p) SetPageReserved in
  Ok (Some p, set_nr_free s (u32 (nr_free s - n))).

Fixpoint alloc_scan (fuel : nat) (s : free_area) (le : link) (n : Z) : res (option Z * free_area) :=
  match fuel with
  | O => NoFuel
  | S fuel =>
      let! le := list_next (free_list s) le in
      if decide (le = FREE_LIST) then Ok (None, s)
      else
        let! p := deref (le2page le) in
        let! pg := page_of s (Some p) in
        if n <=? property pg then alloc_found s le p n else alloc_scan fuel s le n
  end.

(** The walk visits each entry of the circular list at most once. *)
Definition default_alloc_pages (s : free_area) (n : Z) : res (option Z * free_area) :=
  assert! (0 <? n) ;;
  if nr_free s <? n then Ok (None, s)
  else alloc_scan (size (free_list s)) s FREE_LIST n.

Fixpoint free_find (fuel : nat) (s : free_area) (le : link) (base : Z) : res link :=
  match fuel with
  | O => NoFuel
  | S fuel =>
      let! le := list_next (free_list s) le in
      if decide (le = FREE_LIST) then Ok le
      else
        let! p := deref (le2page le) in
        if base <? p then Ok le else free_find fuel s le base
  end.

Fixpoint free_insert (s : free_area) (le : link) (p : Z) (k : nat) : res free_area :=
  match k with
  | O => Ok s
  | S k =>
      let! l := list_add_before (free_list s) le (page_link p) in
      free_insert (set_free_list s l) le (p + 1) k
  end.

(** The [while(le!=&free_list)] loop that adds the block to its left neighbour. *)
Fixpoint merge_back (fuel : nat) (s : free_area) (le : link) (base : Z) : res free_area :=
  match fuel with
  | O => NoFuel
  | S fuel =>
      if decide (le = FREE_LIST) then Ok s
      else
        let p := le2page le in
        let! pg := page_of s p in
        if property pg =? 0 then
          let! le := list_prev (free_list s) le in merge_back fuel s le base
        else
          let! bpg := page_of s (Some base) in
          let! s := upd_page s p (set_property (u32 (property pg + property bpg))) in
          upd_page s (Some base) (set_property 0)
  end.

(** The [if( base+n == p )] of [default_free_pages]: joins the block to its right
    neighbour. *)
Definition merge_right (s : free_area) (base n : Z) (le : link) : res free_area :=
  let p := le2page le in
  if decide (Some (base + n) = p) then
    let! bpg := page_of s (Some base) in
    let! ppg := page_of s p in
    let! s := upd_page s (Some base) (set_property (u32 (property bpg + property ppg))) in
    upd_page s p (set_property 0)
  else Ok s.

Definition default_free_pages (s : free_area) (base n : Z) : res free_area :=
  assert! (0 <? n) ;;
  let! pg := page_of s (Some base) in
  assert! PageReserved pg ;;
  let! le := free_find (size (free_list s)) s FREE_LIST base in
  let! s := free_insert s le base (Z.to_nat n) in
  let! s := upd_page s (Some base) (set_flags 0) in
  let! s := upd_page s (Some base) (set_page_ref 0) in
  let! s := upd_page s (Some base) ClearPageProperty in
  let! s := upd_page s (Some base) SetPageProperty in
  let! s := upd_page s (Some base) (set_property n) in
  let! s := merge_right s base n le in
  let! le := list_prev (free_list s) (page_link base) in
  let p := le2page le in
  let! s := if decide (le ≠ FREE_LIST ∧ p = Some (base - 1))
            then merge_back (size (free_list s)) s le base
            else Ok s in
  Ok (set_nr_free s (u32 (nr_free s + n))).

Definition default_nr_free_pages (s : free_area) : Z := nr_free s.

(** ** Blocks: the abstract state of the manager

    A block [(b, n)] stands for the free pages [b .. b+n-1]; the free list holds
    the blocks in address order, every page of a block with its own entry. *)

Abbreviation block := (Z * Z)%type.

Definition run (b n : Z) : list link := page_link <$> seqZ b n.

Fixpoint links_of (bs : list block) : list link :=
  match bs with
  | [] => []
  | (b, n) :: bs => run b n ++ links_of bs
  end.

Fixpoint total (bs : list block) : Z :=
  match bs with [] => 0 | (_, n) :: bs => n + total bs end.

(** The page numbers of a list of blocks. *)
Fixpoint pages_of (bs : list block) : list Z :=
  match bs with
  | [] => []
  | (b, n) :: bs => seqZ b n ++ pages_of bs
  end.

(** Blocks are non-empty, disjoint, in address order and start at [lo] or later. *)
Fixpoint blocks_ok (lo : Z) (bs : list block) : Prop :=
  match bs with
  | [] => True
  | (b, n) :: bs => lo ≤ b ∧ 0 < n ∧ blocks_ok (b + n) bs
  end.

(** The first page of a block carries its size, the others carry 0. *)
Definition block_pages (m : gmap Z Page) (bl : block) : Prop :=
  (∃ pg, m !! bl.1 = Some pg ∧ property pg = bl.2) ∧
  (∀ i, bl.1 < i < bl.1 + bl.2 → ∃ pg, m !! i = Some pg ∧ property pg = 0).

Record free_rep (s : free_area) (bs : list block) : Prop := {
  rep_list : dlist (free_list s) FREE_LIST (links_of bs);
  rep_blocks : blocks_ok 0 bs;
  rep_pages : Forall (block_pages (pages s)) bs;
  rep_nr_free : nr_free s = total bs;
  rep_u32 : total bs < 2 ^ 32;
  rep_links : ∀ i, is_Some (pages s !! i) → is_Some (free_list s !! page_link i)
}.

(** The contract: first fit, and coalescing release. *)
Fixpoint spec_alloc (n : Z) (bs : list block) : option (Z * list block) :=
  match bs with
  | [] => None
  | (b, m) :: bs =>
      if n <=? m then Some (b, if n <? m then (b + n, m - n) :: bs else bs)
      else '(r, bs') ← spec_alloc n bs; Some (r, (b, m) :: bs')
  end.

(** Puts a block in front of a list and joins it to the next one if they touch. *)
Definition glue (bl : block) (bs : list block) : list block :=
  match bs with
  | (b, m) :: bs' => if bl.1 + bl.2 =? b then (bl.1, bl.2 + m) :: bs' else bl :: bs
  | [] => [bl]
  end.

Fixpoint spec_free (base n : Z) (bs : list block) : list block :=
  match bs with
  | [] => [(base, n)]
  | (b, m) :: bs' =>
      if base <? b then glue (base, n) bs
      else if b + m =? base then glue (b, m) (spec_free base n bs')
      else (b, m) :: spec_free base n bs'
  end.

(** *** Facts about runs and blocks *)

Lemma run_S b (k : nat) : run b (Z.of_nat (S k)) = page_link b :: run (b + 1) (Z.of_nat k).
Proof.
  unfold run. rewrite seqZ_cons by lia. simpl. do 3 f_equal; lia.
Qed.

Lemma run_app b n1 n2 : 0 ≤ n1 → 0 ≤ n2 → run b (n1 + n2) = run b n1 ++ run (b + n1) n2.
Proof. intros. unfold run. by rewrite seqZ_app, fmap_app by lia. Qed.

Lemma elem_of_run b n x : x ∈ run b n ↔ ∃ i, x = page_link i ∧ b ≤ i < b + n.
Proof.
  unfold run. rewrite list_elem_of_fmap. setoid_rewrite elem_of_seqZ. naive_solver.
Qed.

Lemma head_run b n l : 0 < n → head (run b n ++ l) = Some (page_link b).
Proof. intros. unfold run. by rewrite seqZ_cons by lia. Qed.

Lemma last_run b n l : 0 < n → last (l ++ run b n) = Some (page_link (b + n - 1)).
Proof.
  intros. replace n with (n - 1 + 1) at 1 by lia. rewrite run_app by lia.
  change (run (b + (n - 1)) 1) with [page_link (b + (n - 1))].
  rewrite app_assoc, last_snoc. do 2 f_equal; lia.
Qed.

Lemma links_of_app bs1 bs2 : links_of (bs1 ++ bs2) = links_of bs1 ++ links_of bs2.
Proof. induction bs1 as [|[b n] bs1 IH]; simpl; [done|]. by rewrite IH, app_assoc. Qed.

Lemma total_app bs1 bs2 : total (bs1 ++ bs2) = total bs1 + total bs2.
Proof. induction bs1 as [|[b n] bs1 IH]; simpl; [done|]. lia. Qed.

Lemma pages_of_app bs1 bs2 : pages_of (bs1 ++ bs2) = pages_of bs1 ++ pages_of bs2.
Proof. induction bs1 as [|[b n] bs1 IH]; simpl; [done|]. by rewrite IH, app_assoc. Qed.

Lemma elem_of_pages_of i bs : i ∈ pages_of bs ↔ ∃ b n, (b, n) ∈ bs ∧ b ≤ i < b + n.
Proof.
  induction bs as [|[b n] bs IH]; simpl; [set_solver|].
  rewrite elem_of_app, elem_of_seqZ, IH. set_solver.
Qed.

Lemma blocks_ok_weaken lo lo' bs : lo' ≤ lo → blocks_ok lo bs → blocks_ok lo' bs.
Proof. destruct bs as [|[b n] bs]; simpl; [done|]. intros ? (?&?&?). split; [lia|done]. Qed.

Lemma blocks_ok_total lo bs : blocks_ok lo bs → 0 ≤ total bs.
Proof.
  revert lo. induction bs as [|[b n] bs IH]; intros lo; simpl; [lia|].
  intros (?&?&H). apply IH in H. lia.
Qed.

Lemma blocks_ok_app lo bs1 bs2 :
  blocks_ok lo (bs1 ++ bs2) ↔
  blocks_ok lo bs1 ∧ blocks_ok (foldl (λ e bl, bl.1 + bl.2) lo bs1) bs2.
Proof.
  revert lo. induction bs1 as [|[b n] bs1 IH]; intros lo; simpl; [tauto|].
  rewrite IH. tauto.
Qed.

Lemma blocks_ok_total_l lo bs1 bs2 : blocks_ok lo (bs1 ++ bs2) → 0 ≤ total bs1.
Proof. intros [H _]%blocks_ok_app. by eapply blocks_ok_total. Qed.

(** Every entry of a block list belongs to a page of one of the blocks. *)
Lemma elem_of_links_of x bs :
  x ∈ links_of bs ↔ ∃ b n i, (b, n) ∈ bs ∧ x = page_link i ∧ b ≤ i < b + n.
Proof.
  induction bs as [|[b n] bs IH]; simpl; [set_solver|].
  rewrite elem_of_app, elem_of_run, IH. set_solver.
Qed.

Lemma blocks_ok_elem lo bs b n : blocks_ok lo bs → (b, n) ∈ bs → lo ≤ b ∧ 0 < n.
Proof.
  revert lo. induction bs as [|[b' n'] bs IH]; intros lo; simpl; [set_solver|].
  intros (?&?&H) [[= <- <-]|Hin]%elem_of_cons; [done|].
  destruct (IH _ H Hin). lia.
Qed.

Lemma total_elem lo bs b n : blocks_ok lo bs → (b, n) ∈ bs → n ≤ total bs.
Proof.
  revert lo. induction bs as [|[b' n'] bs IH]; intros lo; simpl; [set_solver|].
  intros (?&?&H) [[= <- <-]|Hin]%elem_of_cons.
  - apply blocks_ok_total in H. lia.
  - specialize (IH _ H Hin). lia.
Qed.

(** Blocks in front of another one end before it. *)
Lemma blocks_ok_before lo l b m bs bl :
  blocks_ok lo (l ++ (b, m) :: bs) → bl ∈ l → 0 < bl.2 ∧ bl.1 + bl.2 ≤ b.
Proof.
  revert lo. induction l as [|[b' n'] l IH]; intros lo; simpl; [set_solver|].
  intros (?&?&H) [->|Hin]%elem_of_cons; [|eauto]. simpl. split; [done|].
  destruct (blocks_ok_elem _ _ b m H); [set_solver|done].
Qed.

(** [block_pages] reads only the pages of the block. *)
Lemma block_pages_frame (m m' : gmap Z Page) bl :
  (∀ i, bl.1 ≤ i < bl.1 + bl.2 → property <$> m' !! i = property <$> m !! i) → 0 < bl.2 →
  block_pages m bl → block_pages m' bl.
Proof.
  intros Hf Hpos [(pg & H1 & H2) Hr]. split.
  - specialize (Hf bl.1 ltac:(lia)). rewrite H1 in Hf. simpl in Hf.
    apply fmap_Some in Hf as (pg' & -> & ?). eauto using eq_trans.
  - intros i Hi. destruct (Hr i Hi) as (pg' & H1' & H2').
    specialize (Hf i ltac:(lia)). rewrite H1' in Hf. simpl in Hf.
    apply fmap_Some in Hf as (pg'' & -> & ?). eauto using eq_trans.
Qed.

(** ** Allocation *)

Definition taken (pg : Page) : Page := ClearPageProperty (SetPageReserved pg).

Lemma upd_page_ok s i f pg :
  pages s !! i = Some pg →
  upd_page s (Some i) f = Ok (FreeArea (<[i := f pg]> (pages s)) (free_list s) (nr_free s)).
Proof. intros Hi. unfold upd_page. simpl. by rewrite Hi. Qed.

Lemma page_of_ok s i pg : pages s !! i = Some pg → page_of s (Some i) = Ok pg.
Proof. intros Hi. unfold page_of. simpl. by rewrite Hi. Qed.

Lemma upd_page_property s i f pg :
  pages s !! i = Some pg → property (f pg) = property pg →
  ∃ s', upd_page s (Some i) f = Ok s' ∧ free_list s' = free_list s ∧ nr_free s' = nr_free s ∧
    pages s' !! i = Some (f pg) ∧ dom (pages s') = dom (pages s) ∧
    (∀ j, property <$> pages s' !! j = property <$> pages s !! j).
Proof.
  intros Hi Hf. rewrite (upd_page_ok _ _ _ pg Hi). eexists. split; [done|]. simpl.
  split_and!; [done..| by simplify_map_eq | by rewrite dom_insert_lookup_L |].
  intros j. destruct (decide (i = j)) as [->|]; simplify_map_eq; simpl; congruence.
Qed.

Lemma take_pages_ok (k : nat) s b pre post :
  dlist (free_list s) FREE_LIST (pre ++ run b (Z.of_nat k) ++ post) →
  (∀ i, b ≤ i < b + Z.of_nat k → is_Some (pages s !! i)) →
  ∃ s', take_pages s (default FREE_LIST (head (run b (Z.of_nat k) ++ post))) k
          = Ok (default FREE_LIST (head post), s') ∧
    dlist (free_list s') FREE_LIST (pre ++ post) ∧
    nr_free s' = nr_free s ∧ dom (free_list s') = dom (free_list s) ∧
    (∀ i, pages s' !! i = if decide (b ≤ i < b + Z.of_nat k) then taken <$> pages s !! i
                          else pages s !! i).
Proof.
  revert s b. induction k as [|k IH]; intros s b Hd Hp.
  { exists s. simpl in *. split_and!; try done. intros i. by rewrite decide_False by lia. }
  rewrite run_S in Hd |- *. simpl in Hd |- *.
  rewrite (dlist_next _ _ _ _ _ Hd). simpl.
  destruct (Hp b) as [pg Hpg]; [lia|].
  rewrite (upd_page_ok _ _ _ _ Hpg). simpl.
  rewrite (upd_page_ok _ b _ (SetPageReserved pg)) by (simpl; by simplify_map_eq). simpl.
  destruct (dlist_del _ _ _ _ _ Hd) as (l & -> & Hd' & Hdom & _). simpl.
  rewrite insert_insert_eq. fold (taken pg).
  edestruct (IH (set_free_list (FreeArea (<[b:=taken pg]> (pages s)) (free_list s) (nr_free s)) l)
    (b + 1)) as (s' & -> & Hs' & Hn & Hdom' & Hpages); simpl in *.
  - done.
  - intros i Hi. rewrite lookup_insert_ne by lia. apply Hp. lia.
  - exists s'. split_and!; try done; [congruence|].
    intros i. rewrite Hpages. destruct (decide (i = b)) as [->|].
    + rewrite decide_False, decide_True by lia. by simplify_map_eq.
    + rewrite lookup_insert_ne by done. do 2 case_decide; try done; lia.
Qed.

(** The scan passes over entries whose page has a smaller [property]. *)
Lemma alloc_scan_skip s n fuel pre mid post :
  dlist (free_list s) FREE_LIST (pre ++ mid ++ post) →
  (∀ x, x ∈ mid → ∃ p pg, x = page_link p ∧ pages s !! p = Some pg ∧ property pg < n) →
  alloc_scan (length mid + fuel) s (default FREE_LIST (last pre)) n =
  alloc_scan fuel s (default FREE_LIST (last (pre ++ mid))) n.
Proof.
  revert pre. induction mid as [|x mid IH]; intros pre Hd Hm; simpl.
  { by rewrite app_nil_r. }
  assert (list_next (free_list s) (default FREE_LIST (last pre)) = Ok x) as ->.
  { destruct pre as [|y pre _] using rev_ind; simpl in *.
    - by apply dlist_next_head in Hd.
    - rewrite last_snoc. simpl. rewrite <- app_assoc in Hd. by apply dlist_next in Hd. }
  destruct (Hm x) as (p & pg & -> & Hp & Hlt); [set_solver|]. simpl.
  rewrite (page_of_ok _ _ _ Hp). simpl.
  destruct (Z.leb_spec n (property pg)); [lia|].
  specialize (IH (pre ++ [page_link p])). rewrite last_snoc, <- !app_assoc in IH.
  apply IH; [done|]. intros y Hy. apply Hm. set_solver.
Qed.

Lemma skip_blocks s n bs :
  0 < n → Forall (block_pages (pages s)) bs → Forall (λ bl, bl.2 < n) bs →
  ∀ x, x ∈ links_of bs → ∃ p pg, x = page_link p ∧ pages s !! p = Some pg ∧ property pg < n.
Proof.
  intros Hn Hp Hlt x (b & m & i & Hin & -> & Hi)%elem_of_links_of.
  rewrite Forall_forall in Hp, Hlt. destruct (Hp _ Hin) as [(pg & H1 & H2) Hr].
  specialize (Hlt _ Hin). simpl in *. exists i.
  destruct (decide (i = b)) as [->|].
  - exists pg. split_and!; [done..|lia].
  - destruct (Hr i) as (pg' & ? & ?); [lia|]. exists pg'. split_and!; [done..|lia].
Qed.

Lemma spec_alloc_none n bs : spec_alloc n bs = None → Forall (λ bl, bl.2 < n) bs.
Proof.
  induction bs as [|[b m] bs IH]; simpl; [done|]. destruct (Z.leb_spec n m); [done|].
  destruct (spec_alloc n bs) as [[]|]; simpl; [done|]. auto.
Qed.

(** What is left of a block after [n] pages are cut off its front. *)
Definition rest_of (b m n : Z) (bs : list block) : list block :=
  if n <? m then (b + n, m - n) :: bs else bs.

Lemma spec_alloc_some n bs r bs' :
  spec_alloc n bs = Some (r, bs') →
  ∃ l m bs2, bs = l ++ (r, m) :: bs2 ∧ Forall (λ bl, bl.2 < n) l ∧ n ≤ m ∧
    bs' = l ++ rest_of r m n bs2.
Proof.
  revert bs'. induction bs as [|[b m] bs IH]; intros bs'; simpl; [done|].
  destruct (Z.leb_spec n m).
  - intros [= <- <-]. by exists [], m, bs.
  - destruct (spec_alloc n bs) as [[r' bs'']|]; simpl; [|done]. intros [= <- <-].
    destruct (IH _ eq_refl) as (l & m' & bs2 & -> & ? & ? & ->).
    exists ((b, m) :: l), m', bs2. split_and!; [done| by constructor|done..].
Qed.

(** What a page looks like to its new owner. *)
Definition owned (pg : Page) : Prop := PageReserved pg = true ∧ PageProperty pg = false.

Lemma owned_taken pg : owned (taken pg).
Proof.
  unfold owned, taken, PageReserved, PageProperty, ClearPageProperty, SetPageReserved,
    with_flags, PG_reserved, PG_property. simpl.
  by rewrite test_clear_bit_ne, test_set_bit_eq, test_clear_bit_eq by lia.
Qed.

Lemma owned_final pg : owned (SetPageReserved (ClearPageProperty pg)).
Proof.
  unfold owned, PageReserved, PageProperty, ClearPageProperty, SetPageReserved,
    with_flags, PG_reserved, PG_property. simpl.
  by rewrite test_set_bit_eq, test_set_bit_ne, test_clear_bit_eq by lia.
Qed.

(** The last two flag updates of the found block. *)
Lemma alloc_flags s b pg :
  pages s !! b = Some pg →
  ∃ s', (let! s := upd_page s (Some b) ClearPageProperty in upd_page s (Some b) SetPageReserved) = Ok s' ∧
    free_list s' = free_list s ∧ nr_free s' = nr_free s ∧
    pages s' = <[b := SetPageReserved (ClearPageProperty pg)]> (pages s).
Proof.
  intros Hb. rewrite (upd_page_ok _ _ _ _ Hb). simpl.
  rewrite (upd_page_ok _ b _ (ClearPageProperty pg)) by (simpl; by simplify_map_eq). simpl.
  eexists. split; [done|]. by rewrite insert_insert_eq.
Qed.

(** The write that shrinks the block, when pages are left of it. *)
Lemma alloc_shrink s le b m n :
  0 < n ≤ m → m < 2 ^ 32 → (n < m → le = page_link (b + n)) →
  (n < m → is_Some (pages s !! (b + n))) →
  ∃ s', (if n <? m then upd_page s (le2page le) (set_property (u32 (m - n))) else Ok s) = Ok s' ∧
    free_list s' = free_list s ∧ nr_free s' = nr_free s ∧
    pages s' = if n <? m then alter (set_property (m - n)) (b + n) (pages s) else pages s.
Proof.
  intros Hn Hm Hle Hp. destruct (Z.ltb_spec n m) as [Hlt|]; [|by exists s].
  rewrite (Hle Hlt). destruct (Hp Hlt) as [pg Hpg].
  change (le2page (page_link (b + n))) with (Some (b + n)).
  rewrite (upd_page_ok _ _ _ _ Hpg), u32_small by lia.
  eexists. split; [done|]. simpl. split_and!; [done..|].
  apply map_eq. intros i. destruct (decide (i = b + n)) as [->|].
  - by rewrite lookup_insert_eq, lookup_alter_eq, Hpg.
  - by rewrite lookup_insert_ne, lookup_alter_ne.
Qed.

Lemma block_pages_some m bl i :
  block_pages m bl → bl.1 ≤ i < bl.1 + bl.2 → is_Some (m !! i).
Proof.
  intros [(pg & H1 & _) Hr] Hi. destruct (decide (i = bl.1)) as [->|]; [by rewrite H1|].
  destruct (Hr i) as (pg' & -> & _); [lia|done].
Qed.

Lemma alloc_found_ok s pre b m n post :
  dlist (free_list s) FREE_LIST (pre ++ run b m ++ post) →
  block_pages (pages s) (b, m) → 0 < n ≤ m → m < 2 ^ 32 →
  ∃ s', alloc_found s (page_link b) b n = Ok (Some b, s') ∧
    dlist (free_list s') FREE_LIST (pre ++ run (b + n) (m - n) ++ post) ∧
    nr_free s' = u32 (nr_free s - n) ∧ dom (free_list s') = dom (free_list s) ∧
    dom (pages s') = dom (pages s) ∧
    (∀ i, b ≤ i < b + n → ∃ pg, pages s' !! i = Some pg ∧ owned pg) ∧
    (n < m → property <$> pages s' !! (b + n) = Some (m - n)) ∧
    (∀ i, i < b + n ∨ b + n < i ∨ n = m → property <$> pages s' !! i = property <$> pages s !! i) ∧
    (∀ i, i < b ∨ b + m ≤ i → pages s' !! i = pages s !! i).
Proof.
  intros Hd Hbp Hn Hm. unfold alloc_found.
  replace m with (Z.of_nat (Z.to_nat n) + (m - n)) in Hd by lia.
  rewrite run_app, <- app_assoc in Hd by lia.
  destruct (take_pages_ok _ s b pre _ Hd) as (s1 & Htake & Hd1 & Hn1 & Hdom1 & Hp1).
  { intros i Hi. apply (block_pages_some _ (b, m)); [done|]. simpl. lia. }
  rewrite head_run in Htake by lia. simpl in Htake. rewrite Htake. simpl.
  rewrite Z2Nat.id in * by lia.
  destruct Hbp as [(pg0 & Hb & Hbprop) Hr]. simpl in *.
  assert (pages s1 !! b = Some (taken pg0)) as Hb1.
  { rewrite Hp1, decide_True, Hb by lia. done. }
  rewrite (page_of_ok _ _ _ Hb1). simpl. rewrite Hbprop.
  destruct (alloc_shrink s1 (default FREE_LIST (head (run (b + n) (m - n) ++ post))) b m n)
    as (s2 & -> & Hl2 & Hn2 & Hp2); [lia|lia| | |simpl].
  { intros. by rewrite head_run by lia. }
  { intros. rewrite Hp1, decide_False by lia. destruct (Hr (b + n)) as (? & -> & _); [lia|done]. }
  assert (pages s2 !! b = Some (taken pg0)) as Hb2.
  { rewrite Hp2. destruct (n <? m); [rewrite lookup_alter_ne by lia|]; done. }
  destruct (alloc_flags _ _ _ Hb2) as (s3 & Hs3 & Hl3 & Hn3 & Hp3).
  rewrite (upd_page_ok _ _ _ _ Hb2) in Hs3 |- *. simpl in Hs3 |- *. rewrite Hs3. simpl.
  eexists. split; [done|]. simpl.
  assert (∀ i, pages s3 !! i = if decide (i = b) then Some (SetPageReserved (ClearPageProperty (taken pg0)))
    else if decide (n < m ∧ i = b + n) then set_property (m - n) <$> pages s !! i
    else if decide (b ≤ i < b + n) then taken <$> pages s !! i else pages s !! i) as Hfin.
  { intros i. rewrite Hp3, Hp2. destruct (decide (i = b)) as [->|]; [by simplify_map_eq|].
    rewrite lookup_insert_ne by done. destruct (Z.ltb_spec n m).
    - destruct (decide (i = b + n)) as [->|].
      + rewrite lookup_alter_eq, Hp1, decide_False, decide_True by lia. done.
      + rewrite lookup_alter_ne, Hp1 by done. rewrite (decide_False (P := n < m ∧ _)) by lia. done.
    - rewrite Hp1, (decide_False (P := n < m ∧ _)) by lia. done. }
  rewrite Hl3, Hl2, Hn3, Hn2, Hn1. split_and!; try done.
  - apply set_eq. intros i. rewrite !elem_of_dom, Hfin.
    destruct (decide (i = b)) as [->|]; [|].
    + rewrite Hb. by split; intros _; eexists.
    + repeat case_decide; by rewrite ?fmap_is_Some.
  - intros i Hi. rewrite Hfin.
    destruct (decide (i = b)); [eexists; split; [done|]; apply owned_final|].
    rewrite decide_False, decide_True by lia. destruct (Hr i) as (pg & -> & _); [lia|].
    eexists; split; [done|]; apply owned_taken.
  - intros Hlt. rewrite Hfin, decide_False, decide_True by lia.
    destruct (Hr (b + n)) as (pg & -> & _); [lia|done].
  - intros i Hi. rewrite Hfin. destruct (decide (i = b)) as [->|]; [by rewrite Hb|].
    rewrite decide_False by lia. destruct (decide (b ≤ i < b + n)); [|done].
    by destruct (pages s !! i).
  - intros i Hi. rewrite Hfin. by rewrite !decide_False by lia.
Qed.

Lemma free_rep_alloc s s' l b m n bs :
  free_rep s (l ++ (b, m) :: bs) → 0 < n ≤ m →
  dlist (free_list s') FREE_LIST (links_of l ++ run (b + n) (m - n) ++ links_of bs) →
  nr_free s' = u32 (nr_free s - n) → dom (free_list s') = dom (free_list s) →
  dom (pages s') = dom (pages s) →
  (n < m → property <$> pages s' !! (b + n) = Some (m - n)) →
  (∀ i, i < b + n ∨ b + n < i ∨ n = m → property <$> pages s' !! i = property <$> pages s !! i) →
  free_rep s' (l ++ rest_of b m n bs).
Proof.
  intros [Hd Hok Hpg Hnr Hu Hl] Hn Hd' Hnr' Hdl Hdp Hsz Hpr.
  rewrite total_app in *. simpl in *.
  pose proof Hok as Hok0.
  apply blocks_ok_app in Hok as [Hok1 Hok2]. simpl in Hok2. destruct Hok2 as (Hlo & Hm & Hok2).
  apply Forall_app in Hpg as [Hpg1 Hpg2]. apply Forall_cons in Hpg2 as [[_ Hr] Hpg2].
  assert (blocks_ok (b + n) bs) as Hok2' by (eapply blocks_ok_weaken; [|done]; lia).
  pose proof (blocks_ok_total _ _ Hok1). pose proof (blocks_ok_total _ _ Hok2).
  assert (∀ bl, bl ∈ l → 0 < bl.2 ∧ bl.1 + bl.2 ≤ b) as Hbefore.
  { intros bl Hin. by eapply blocks_ok_before. }
  split.
  - unfold rest_of. rewrite links_of_app. destruct (Z.ltb_spec n m); simpl; [done|].
    replace (m - n) with 0 in Hd' by lia. done.
  - apply blocks_ok_app. split; [done|]. unfold rest_of.
    destruct (Z.ltb_spec n m); simpl; [split_and!; [lia..|by replace (b + n + (m - n)) with (b + m) by lia]|].
    eapply blocks_ok_weaken; [|done]. lia.
  - apply Forall_app. split.
    + rewrite Forall_forall in Hpg1 |- *. intros bl Hin. destruct (Hbefore _ Hin).
      eapply block_pages_frame; [|done|by apply Hpg1]. intros i Hi. apply Hpr. lia.
    + assert (Forall (block_pages (pages s')) bs).
      { rewrite Forall_forall in Hpg2 |- *. intros [b' n'] Hin.
        destruct (blocks_ok_elem _ _ _ _ Hok2 Hin).
        eapply block_pages_frame; [|done|by apply Hpg2]. simpl. intros i Hi. apply Hpr. lia. }
      unfold rest_of. destruct (Z.ltb_spec n m) as [Hlt|]; [|done]. constructor; [|done].
      split; simpl.
      * specialize (Hsz Hlt). apply fmap_Some in Hsz as (pg & ? & ?). eauto.
      * intros i Hi. destruct (Hr i) as (pg & Hpi & Hp0); simpl in *; [lia|].
        specialize (Hpr i ltac:(lia)). rewrite Hpi in Hpr. simpl in Hpr.
        apply fmap_Some in Hpr as (pg' & -> & ?). exists pg'. split; [done|congruence].
  - rewrite total_app. unfold rest_of. rewrite Hnr', Hnr, u32_small by lia.
    destruct (Z.ltb_spec n m); simpl; lia.
  - rewrite total_app. unfold rest_of. destruct (Z.ltb_spec n m); simpl; lia.
  - intros i Hi. apply elem_of_dom. rewrite Hdl. apply elem_of_dom, Hl, elem_of_dom.
    rewrite <- Hdp. by apply elem_of_dom.
Qed.

Lemma default_alloc_pages_some s bs n r bs' :
  free_rep s bs → 0 < n → spec_alloc n bs = Some (r, bs') →
  ∃ s', default_alloc_pages s n = Ok (Some r, s') ∧ free_rep s' bs' ∧
    (∀ i, r ≤ i < r + n → ∃ pg, pages s' !! i = Some pg ∧ owned pg) ∧
    (∀ i, r < i < r + n → property <$> pages s' !! i = Some 0) ∧
    dom (pages s') = dom (pages s) ∧
    (∀ i, i ∉ pages_of bs → pages s' !! i = pages s !! i).
Proof.
  intros Hrep Hn Hspec. pose proof Hrep as [Hd Hok Hpg Hnr Hu Hl].
  apply spec_alloc_some in Hspec as (l & m & bs2 & -> & Hlt & Hnm & ->).
  assert (m ≤ total (l ++ (r, m) :: bs2)) as Hmt.
  { eapply (total_elem _ _ r); [done|]. set_solver. }
  unfold default_alloc_pages. destruct (Z.ltb_spec 0 n); [|lia].
  destruct (Z.ltb_spec (nr_free s) n); [lia|].
  rewrite links_of_app in Hd. simpl in Hd.
  apply Forall_app in Hpg as [Hpg1 Hpg2]. apply Forall_cons in Hpg2 as [Hbm Hpg2].
  pose proof (dlist_size _ _ _ Hd) as Hsz.
  rewrite !length_app in Hsz. assert (0 < length (run r m))%nat as Hrl.
  { unfold run. rewrite length_fmap, length_seqZ. lia. }
  replace (size (free_list s)) with
    (length (links_of l) + S (size (free_list s) - length (links_of l) - 1))%nat by lia.
  pose proof (alloc_scan_skip s n (S (size (free_list s) - length (links_of l) - 1))
    [] (links_of l) _ Hd (skip_blocks s n l Hn Hpg1 Hlt)) as Hskip.
  change (default FREE_LIST (last [])) with FREE_LIST in Hskip. rewrite Hskip. simpl.
  assert (list_next (free_list s) (default FREE_LIST (last (links_of l))) = Ok (page_link r)) as ->.
  { replace m with (1 + (m - 1)) in Hd by lia. rewrite run_app in Hd by lia.
    change (run r 1) with [page_link r] in Hd. simpl in Hd.
    destruct (links_of l) as [|x pre _] using rev_ind; simpl.
    - by apply dlist_next_head in Hd.
    - rewrite last_snoc. simpl. rewrite <- app_assoc in Hd. by apply dlist_next in Hd. }
  simpl. pose proof Hbm as [(pg & Hr & Hprop) _]. simpl in Hr, Hprop.
  rewrite (page_of_ok _ _ _ Hr). simpl. rewrite Hprop.
  destruct (Z.leb_spec n m); [|lia].
  destruct (alloc_found_ok s (links_of l) r m n (links_of bs2)) as
    (s' & -> & Hd' & Hn' & Hdl & Hdp & Hown & Hsz' & Hpr & Hfr); [done..|lia|lia|].
  exists s'. split_and!; try done.
  - by eapply free_rep_alloc.
  - intros i Hi. rewrite Hpr by lia. destruct Hbm as [_ Hin].
    destruct (Hin i) as (pgi & -> & Hz); simpl in *; [lia|]. by rewrite Hz.
  - intros i Hi. apply Hfr. rewrite pages_of_app in Hi. simpl in Hi.
    rewrite !elem_of_app, elem_of_seqZ in Hi. lia.
Qed.

Lemma default_alloc_pages_none s bs n :
  free_rep s bs → 0 < n → spec_alloc n bs = None →
  default_alloc_pages s n = Ok (None, s).
Proof.
  intros [Hd Hok Hpg Hnr Hu Hl] Hn Hspec%spec_alloc_none.
  unfold default_alloc_pages. destruct (Z.ltb_spec 0 n); [|lia].
  destruct (Z.ltb_spec (nr_free s) n); [done|].
  pose proof (dlist_size _ _ _ Hd) as Hsz.
  replace (size (free_list s)) with
    (length (links_of bs) + S (size (free_list s) - length (links_of bs) - 1))%nat by lia.
  pose proof (alloc_scan_skip s n (S (size (free_list s) - length (links_of bs) - 1))
    [] (links_of bs) []) as Hskip.
  change (default FREE_LIST (last [])) with FREE_LIST in Hskip. simpl in Hskip.
  rewrite app_nil_r in Hskip. rewrite Hskip; [|done|by eapply skip_blocks]. simpl.
  assert (list_next (free_list s) (default FREE_LIST (last (links_of bs))) = Ok FREE_LIST) as ->.
  { destruct (links_of bs) as [|x pre _] using rev_ind; simpl.
    - by apply dlist_next_head in Hd.
    - rewrite last_snoc. simpl. by apply dlist_next in Hd. }
  done.
Qed.

(** ** Release *)

Lemma free_find_skip s base fuel pre mid post :
  dlist (free_list s) FREE_LIST (pre ++ mid ++ post) →
  (∀ x, x ∈ mid → ∃ p, x = page_link p ∧ p ≤ base) →
  free_find (length mid + fuel) s (default FREE_LIST (last pre)) base =
  free_find fuel s (default FREE_LIST (last (pre ++ mid))) base.
Proof.
  revert pre. induction mid as [|x mid IH]; intros pre Hd Hm; simpl.
  { by rewrite app_nil_r. }
  assert (list_next (free_list s) (default FREE_LIST (last pre)) = Ok x) as ->.
  { destruct pre as [|y pre _] using rev_ind; simpl in *.
    - by apply dlist_next_head in Hd.
    - rewrite last_snoc. simpl. rewrite <- app_assoc in Hd. by apply dlist_next in Hd. }
  destruct (Hm x) as (p & -> & Hle); [set_solver|]. simpl.
  destruct (Z.ltb_spec base p); [lia|].
  specialize (IH (pre ++ [page_link p])). rewrite last_snoc, <- !app_assoc in IH.
  apply IH; [done|]. intros y Hy. apply Hm. set_solver.
Qed.

(** Where a block of pages belongs among the free blocks. *)
Definition fits (base n : Z) (bs1 bs2 : list block) : Prop := blocks_ok 0 (bs1 ++ (base, n) :: bs2).

Lemma fits_before base n bs1 bs2 x :
  fits base n bs1 bs2 → x ∈ links_of bs1 → ∃ p, x = page_link p ∧ p < base.
Proof.
  intros Hf (b & m & i & Hin & -> & Hi)%elem_of_links_of.
  exists i. split; [done|]. destruct (blocks_ok_before _ _ _ _ _ _ Hf Hin). simpl in *. lia.
Qed.

Lemma fits_after base n bs1 bs2 x :
  fits base n bs1 bs2 → x ∈ links_of bs2 → ∃ p, x = page_link p ∧ base + n ≤ p.
Proof.
  intros Hf (b & m & i & Hin & -> & Hi)%elem_of_links_of.
  apply blocks_ok_app in Hf as [_ Hf]. simpl in Hf.
  destruct (blocks_ok_elem (base + n) bs2 b m); [tauto|done|]. exists i. split; [done|lia].
Qed.

Lemma fits_pos base n bs1 bs2 : fits base n bs1 bs2 → 0 < n.
Proof. intros [_ Hf]%blocks_ok_app. simpl in Hf. tauto. Qed.

Lemma head_links_of lo bs : blocks_ok lo bs → head (links_of bs) = page_link ∘ fst <$> head bs.
Proof. destruct bs as [|[b n] bs]; simpl; [done|]. intros (?&?&?). by rewrite head_run. Qed.

Lemma free_find_ok s base n bs1 bs2 :
  dlist (free_list s) FREE_LIST (links_of bs1 ++ links_of bs2) → fits base n bs1 bs2 →
  free_find (size (free_list s)) s FREE_LIST base = Ok (default FREE_LIST (head (links_of bs2))).
Proof.
  intros Hd Hf. pose proof (dlist_size _ _ _ Hd) as Hsz. rewrite length_app in Hsz.
  replace (size (free_list s)) with
    (length (links_of bs1) + S (size (free_list s) - length (links_of bs1) - 1))%nat by lia.
  pose proof (free_find_skip s base (S (size (free_list s) - length (links_of bs1) - 1))
    [] (links_of bs1) _ Hd) as Hskip.
  change (default FREE_LIST (last [])) with FREE_LIST in Hskip. rewrite Hskip; simpl.
  2: { intros x Hx. destruct (fits_before _ _ _ _ _ Hf Hx) as (p & -> & ?). eauto with lia. }
  assert (list_next (free_list s) (default FREE_LIST (last (links_of bs1)))
    = Ok (default FREE_LIST (head (links_of bs2)))) as ->.
  { destruct (links_of bs1) as [|x pre _] using rev_ind; simpl.
    - by apply dlist_next_head in Hd.
    - rewrite last_snoc. simpl. rewrite <- app_assoc in Hd. by apply dlist_next in Hd. }
  simpl. destruct (links_of bs2) as [|x l] eqn:Hl; simpl; [done|].
  destruct (fits_after base n bs1 bs2 x Hf) as (p & -> & ?); [rewrite Hl; set_solver|].
  apply fits_pos in Hf. simpl. destruct (Z.ltb_spec base p); [done|lia].
Qed.

Lemma free_insert_ok (k : nat) s pre post b :
  dlist (free_list s) FREE_LIST (pre ++ post) →
  (∀ i, b ≤ i < b + Z.of_nat k → is_Some (free_list s !! page_link i) ∧ page_link i ∉ pre ++ post) →
  ∃ s', free_insert s (default FREE_LIST (head post)) b k = Ok s' ∧
    dlist (free_list s') FREE_LIST (pre ++ run b (Z.of_nat k) ++ post) ∧
    dom (free_list s') = dom (free_list s) ∧ pages s' = pages s ∧ nr_free s' = nr_free s.
Proof.
  revert s b pre. induction k as [|k IH]; intros s b pre Hd Hb; cbn [free_insert].
  { by exists s. }
  destruct (Hb b) as [Hs Hn]; [lia|].
  assert (∃ l, list_add_before (free_list s) (default FREE_LIST (head post)) (page_link b) = Ok l ∧
    dlist l FREE_LIST ((pre ++ [page_link b]) ++ post) ∧ dom l = dom (free_list s)) as (l & -> & Hdl & Hdom).
  { destruct post as [|x post]; simpl.
    - rewrite app_nil_r in *. apply dlist_add_before_head; set_solver.
    - rewrite <- app_assoc. apply dlist_add_before; set_solver. }
  simpl. destruct (IH (set_free_list s l) (b + 1) (pre ++ [page_link b])) as (s' & -> & Hd' & ? & ? & ?).
  - done.
  - intros i Hi. destruct (Hb i) as [Hsi Hni]; [lia|]. simpl. split.
    + by eapply is_Some_dom_eq.
    + rewrite !elem_of_app, list_elem_of_singleton. rewrite elem_of_app in Hni.
      intros [[?|[= ?]]|?]; [tauto|lia|tauto].
  - exists s'. rewrite run_S. rewrite <- app_assoc in Hd'. simpl in *.
    split_and!; try done. congruence.
Qed.

(** The walk to the left over pages with property 0. *)
Lemma merge_back_skip s fuel base pre mid y rest :
  dlist (free_list s) FREE_LIST (pre ++ y :: mid ++ rest) →
  (∀ x, x ∈ mid → ∃ p pg, x = page_link p ∧ pages s !! p = Some pg ∧ property pg = 0) →
  merge_back (length mid + fuel) s (default y (last mid)) base = merge_back fuel s y base.
Proof.
  revert rest. induction mid as [|x mid IH] using rev_ind; intros rest Hd Hm; simpl; [done|].
  rewrite last_snoc, length_app, Nat.add_1_r. simpl.
  destruct (Hm x) as (p & pg & -> & Hp & H0); [set_solver|].
  simpl. change (le2page (page_link p)) with (Some p). rewrite (page_of_ok _ _ _ Hp).
  simpl. rewrite H0. simpl.
  assert (list_prev (free_list s) (page_link p) = Ok (default y (last mid))) as ->.
  { replace (pre ++ y :: (mid ++ [page_link p]) ++ rest) with
      ((pre ++ y :: mid) ++ page_link p :: rest) in Hd by by rewrite <- !app_assoc.
    apply dlist_prev in Hd. rewrite Hd. f_equal.
    destruct mid as [|z mid _] using rev_ind; [by rewrite last_snoc|].
    by rewrite app_comm_cons, app_assoc, !last_snoc. }
  simpl. apply (IH ([page_link p] ++ rest)).
  - by rewrite <- app_assoc in Hd.
  - intros z Hz. apply Hm. set_solver.
Qed.

(** Joining two blocks that touch: the sizes add up in the first page of the
    left one, and the first page of the right one becomes an inner page. *)
Lemma glue_rep s s' bs1 b n1 n2 bs2 t t' :
  free_rep (set_nr_free s t) (bs1 ++ (b, n1) :: (b + n1, n2) :: bs2) →
  free_list s' = free_list s → dom (pages s') = dom (pages s) → t' = t →
  property <$> pages s' !! b = Some (n1 + n2) →
  property <$> pages s' !! (b + n1) = Some 0 →
  (∀ i, i ≠ b → i ≠ b + n1 → pages s' !! i = pages s !! i) →
  free_rep (set_nr_free s' t') (bs1 ++ (b, n1 + n2) :: bs2).
Proof.
  intros [Hd Hok Hpg Hnr Hu Hl] Hlist Hdom -> Hb1 Hb2 Hother.
  rewrite links_of_app, total_app in *. simpl in *.
  pose proof Hok as Hok0. apply blocks_ok_app in Hok as [Hok1 Hok2]. simpl in Hok2.
  destruct Hok2 as (? & ? & _ & ? & Hok2).
  apply Forall_app in Hpg as [Hpg1 Hpg2].
  apply Forall_cons in Hpg2 as [[_ Hr1] Hpg2]. apply Forall_cons in Hpg2 as [[_ Hr2] Hpg2].
  simpl in *.
  split; simpl.
  - rewrite Hlist, links_of_app. simpl. rewrite run_app, <- app_assoc by lia. done.
  - apply blocks_ok_app. split; [done|]. simpl.
    split_and!; [lia..|by replace (b + (n1 + n2)) with (b + n1 + n2) by lia].
  - apply Forall_app. split; [|constructor].
    + rewrite Forall_forall in Hpg1 |- *. intros bl Hin.
      destruct (blocks_ok_before _ _ _ _ _ _ Hok0 Hin).
      eapply block_pages_frame; [|done|by apply Hpg1]. intros i Hi. rewrite Hother by lia. done.
    + split; simpl.
      * apply fmap_Some in Hb1 as (pg & ? & ?). eauto.
      * intros i Hi. destruct (decide (i = b + n1)) as [->|].
        { apply fmap_Some in Hb2 as (pg & ? & ?). eauto. }
        specialize (Hother i ltac:(lia) ltac:(done)).
        assert (∃ pg, pages s !! i = Some pg ∧ property pg = 0) as (pg & Hi1 & Hi2).
        { destruct (decide (i < b + n1)); [apply Hr1|apply Hr2]; lia. }
        rewrite Hother, Hi1. by eexists.
    + rewrite Forall_forall in Hpg2 |- *. intros [b' n'] Hin.
      destruct (blocks_ok_elem _ _ _ _ Hok2 Hin).
      eapply block_pages_frame; [|done|by apply Hpg2]. simpl. intros i Hi. rewrite Hother by lia. done.
  - rewrite total_app. simpl. lia.
  - rewrite total_app. simpl. lia.
  - intros i Hi. rewrite Hlist. apply Hl. apply elem_of_dom. rewrite <- Hdom. by apply elem_of_dom.
Qed.

(** The page at the base of a released block. *)
Definition freed (n : Z) (pg : Page) : Page :=
  set_property n (SetPageProperty (ClearPageProperty (set_page_ref 0 (set_flags 0 pg)))).

Lemma freed_updates s base n pg (k : free_area → res free_area) :
  pages s !! base = Some pg →
  (let! s := upd_page s (Some base) (set_flags 0) in
   let! s := upd_page s (Some base) (set_page_ref 0) in
   let! s := upd_page s (Some base) ClearPageProperty in
   let! s := upd_page s (Some base) SetPageProperty in
   let! s := upd_page s (Some base) (set_property n) in k s) =
  k (FreeArea (<[base := freed n pg]> (pages s)) (free_list s) (nr_free s)).
Proof.
  intros Hb. unfold upd_page. simpl. rewrite Hb. simpl.
  repeat (rewrite lookup_insert_eq; simpl). by rewrite !insert_insert_eq.
Qed.

Lemma insert_rep s s' bs1 bs2 base n pg t :
  free_rep s (bs1 ++ bs2) → fits base n bs1 bs2 → total (bs1 ++ bs2) + n < 2 ^ 32 →
  (∀ i, base < i < base + n → ∃ pg, pages s !! i = Some pg ∧ property pg = 0) →
  pages s !! base = Some pg →
  dlist (free_list s') FREE_LIST (links_of bs1 ++ run base n ++ links_of bs2) →
  dom (free_list s') = dom (free_list s) →
  pages s' = <[base := freed n pg]> (pages s) → t = total (bs1 ++ bs2) + n →
  free_rep (set_nr_free s' t) (bs1 ++ (base, n) :: bs2).
Proof.
  intros [Hd Hok Hpg Hnr Hu Hl] Hf Hlt Hin Hb Hd' Hdl Hp ->.
  apply Forall_app in Hpg as [Hpg1 Hpg2]. rewrite total_app in *.
  pose proof Hf as Hf'. apply blocks_ok_app in Hf' as [Hok1 Hf2]. simpl in Hf2.
  destruct Hf2 as (? & ? & Hf2).
  split; simpl.
  - rewrite links_of_app. done.
  - done.
  - apply Forall_app. split; [|constructor].
    + rewrite Forall_forall in Hpg1 |- *. intros bl Hi.
      destruct (blocks_ok_before _ _ _ _ _ _ Hf Hi).
      eapply block_pages_frame; [|done|by apply Hpg1]. intros i ?.
      rewrite Hp, lookup_insert_ne by lia. done.
    + split; simpl; rewrite Hp.
      * rewrite lookup_insert_eq. by eexists.
      * intros i Hi. rewrite lookup_insert_ne by lia. by apply Hin.
    + rewrite Forall_forall in Hpg2 |- *. intros [b' n'] Hi.
      destruct (blocks_ok_elem _ _ _ _ Hf2 Hi).
      eapply block_pages_frame; [|done|by apply Hpg2]. simpl. intros i ?.
      rewrite Hp, lookup_insert_ne by lia. done.
  - rewrite total_app. simpl. lia.
  - rewrite total_app. simpl. lia.
  - intros i Hi. apply elem_of_dom. rewrite Hdl. apply elem_of_dom, Hl.
    rewrite Hp in Hi. destruct (decide (i = base)) as [->|]; [by rewrite Hb|].
    by rewrite lookup_insert_ne in Hi.
Qed.

Lemma spec_free_append base n bs1 bs2 :
  fits base n bs1 bs2 → (∀ bs b m, bs1 = bs ++ [(b, m)] → b + m ≠ base) →
  spec_free base n (bs1 ++ bs2) = bs1 ++ glue (base, n) bs2.
Proof.
  unfold fits. generalize 0 as lo.
  induction bs1 as [|[b m] bs1 IH]; intros lo; simpl.
  - destruct bs2 as [|[b m] bs2]; simpl; [done|]. intros (?&?&?&?&?) _.
    destruct (Z.ltb_spec base b); [done|lia].
  - intros (?&?&Hok) Hlast. destruct (blocks_ok_elem _ _ base n Hok); [set_solver|].
    destruct (Z.ltb_spec base b); [lia|]. destruct (Z.eqb_spec (b + m) base) as [He|].
    + destruct bs1 as [|[b2 m2] bs1]; [by destruct (Hlast [] b m)|].
      simpl in Hok. destruct Hok as (?&?&Hok).
      destruct (blocks_ok_elem _ _ base n Hok); [set_solver|lia].
    + f_equal. eapply IH; [done|]. intros bs b' m' ->. by apply (Hlast ((b, m) :: bs)).
Qed.

Lemma spec_free_merge base n bs b m bs2 :
  fits base n (bs ++ [(b, m)]) bs2 → b + m = base →
  spec_free base n ((bs ++ [(b, m)]) ++ bs2) = bs ++ glue (b, m) (glue (base, n) bs2).
Proof.
  unfold fits. generalize 0 as lo.
  induction bs as [|[b' m'] bs IH]; intros lo; simpl.
  - intros (?&?&?&?&?) He. destruct (Z.ltb_spec base b); [lia|].
    destruct (Z.eqb_spec (b + m) base); [|lia].
    destruct bs2 as [|[b2 m2] bs2]; simpl in *; [done|].
    destruct (Z.ltb_spec base b2); [done|lia].
  - intros (?&?&Hok) He.
    assert (b' + m' ≤ b ∧ 0 < m) as [??] by (eapply (blocks_ok_elem _ _ b m Hok); set_solver).
    destruct (Z.ltb_spec base b'); [lia|]. destruct (Z.eqb_spec (b' + m') base); [lia|].
    f_equal. eauto.
Qed.

(** Two writes of [property] to different pages. *)
Lemma upd_two s a b va vb pga pgb :
  pages s !! a = Some pga → pages s !! b = Some pgb → a ≠ b →
  ∃ s', (let! s := upd_page s (Some a) (set_property va) in upd_page s (Some b) (set_property vb)) = Ok s' ∧
    free_list s' = free_list s ∧ nr_free s' = nr_free s ∧ dom (pages s') = dom (pages s) ∧
    property <$> pages s' !! a = Some va ∧ property <$> pages s' !! b = Some vb ∧
    (∀ i, i ≠ a → i ≠ b → pages s' !! i = pages s !! i).
Proof.
  intros Ha Hb Hne. rewrite (upd_page_ok _ _ _ _ Ha). simpl.
  rewrite (upd_page_ok _ b _ pgb) by (simpl; by rewrite lookup_insert_ne).
  eexists. split; [done|]. simpl. split_and!; try done.
  - rewrite !dom_insert_lookup_L; try done. by rewrite lookup_insert_ne.
  - by rewrite lookup_insert_ne, lookup_insert_eq.
  - by rewrite lookup_insert_eq.
  - intros i ??. by rewrite !lookup_insert_ne.
Qed.

Lemma free_rep_head s t bs1 b n bs2 :
  free_rep (set_nr_free s t) (bs1 ++ (b, n) :: bs2) →
  (∃ pg, pages s !! b = Some pg ∧ property pg = n) ∧ 0 < n ∧ n ≤ total (bs1 ++ (b, n) :: bs2) ∧
  total (bs1 ++ (b, n) :: bs2) < 2 ^ 32.
Proof.
  intros [Hd Hok Hpg Hnr Hu Hl].
  apply Forall_app in Hpg as [_ [[Hb _] _]%Forall_cons]. simpl in *.
  split; [done|]. split; [|split; [|done]].
  - eapply (blocks_ok_elem _ _ b n Hok). set_solver.
  - eapply (total_elem _ _ b n Hok). set_solver.
Qed.

Lemma merge_right_ok s t bs1 base n bs2 :
  free_rep (set_nr_free s t) (bs1 ++ (base, n) :: bs2) →
  ∃ s' n' bs2', merge_right s base n (default FREE_LIST (head (links_of bs2))) = Ok s' ∧
    free_list s' = free_list s ∧ nr_free s' = nr_free s ∧ dom (pages s') = dom (pages s) ∧
    glue (base, n) bs2 = (base, n') :: bs2' ∧
    free_rep (set_nr_free s' t) (bs1 ++ (base, n') :: bs2') ∧
    (∀ i, i ≠ base → i ∉ pages_of bs2 → pages s' !! i = pages s !! i).
Proof.
  intros Hrep. unfold merge_right. pose proof Hrep as [_ Hok _ _ _ _].
  apply blocks_ok_app in Hok as [_ (_ & _ & Hok)]. rewrite (head_links_of _ _ Hok).
  destruct bs2 as [|[b2 n2] bs2]; simpl.
  { by exists s, n, []. }
  change (le2page (page_link b2)) with (Some b2). destruct Hok as (? & ? & Hok).
  destruct (Z.eqb_spec (base + n) b2) as [<-|Hne].
  2: { exists s, n, ((b2, n2) :: bs2). rewrite decide_False by congruence. done. }
  rewrite decide_True by done.
  destruct (free_rep_head _ _ _ _ _ _ Hrep) as ((pg1 & H1 & Hp1) & Hn1 & Hn1t & Hlt).
  pose proof Hrep as Hrep2. replace (bs1 ++ (base, n) :: (base + n, n2) :: bs2) with
    ((bs1 ++ [(base, n)]) ++ (base + n, n2) :: bs2) in Hrep2 by by rewrite <- app_assoc.
  destruct (free_rep_head _ _ _ _ _ _ Hrep2) as ((pg2 & H2 & Hp2) & Hn2 & _ & _).
  rewrite (page_of_ok _ _ _ H1). simpl. rewrite (page_of_ok _ _ _ H2). simpl.
  rewrite Hp1, Hp2. rewrite !total_app in Hlt. simpl in Hlt.
  pose proof (blocks_ok_total_l _ _ _ (rep_blocks _ _ Hrep)).
  pose proof (blocks_ok_total _ _ Hok).
  rewrite u32_small by lia.
  destruct (upd_two s base (base + n) (n + n2) 0 _ _ H1 H2) as (s' & -> & Hl' & Hn' & Hdom & ? & ? & ?);
    [lia|].
  exists s', (n + n2), bs2. split_and!; try done; [by eapply glue_rep|].
  intros i Hi Hni. simpl in Hni. rewrite elem_of_app, elem_of_seqZ in Hni. auto with lia.
Qed.

Lemma merge_left_ok s t bs b m base n bs2 :
  base = b + m → free_rep (set_nr_free s t) ((bs ++ [(b, m)]) ++ (base, n) :: bs2) →
  ∃ s', merge_back (size (free_list s)) s (page_link (base - 1)) base = Ok s' ∧
    free_list s' = free_list s ∧ nr_free s' = nr_free s ∧ dom (pages s') = dom (pages s) ∧
    free_rep (set_nr_free s' t) (bs ++ (b, m + n) :: bs2) ∧
    (∀ i, i ≠ base → i ∉ pages_of [(b, m)] → pages s' !! i = pages s !! i).
Proof.
  intros -> Hrep. destruct (free_rep_head _ _ _ _ _ _ Hrep) as ((pg2 & H2 & Hp2) & Hn2 & _ & _).
  rewrite <- app_assoc in Hrep. simpl in Hrep.
  destruct (free_rep_head _ _ _ _ _ _ Hrep) as ((pg1 & H1 & Hp1) & Hn1 & _ & Hlt).
  pose proof Hrep as [Hd Hok Hpg _ _ _].
  apply Forall_app in Hpg as [_ [[_ Hr] _]%Forall_cons]. simpl in Hd, Hr.
  rewrite links_of_app in Hd. simpl in Hd.
  replace m with (1 + (m - 1)) in Hd at 1 by lia. rewrite run_app in Hd by lia.
  change (run b 1) with [page_link b] in Hd. rewrite <- app_assoc in Hd. simpl in Hd.
  pose proof (dlist_size _ _ _ Hd) as Hsz. rewrite !length_app in Hsz. simpl in Hsz.
  rewrite !length_app in Hsz.
  replace (size (free_list s)) with
    (length (run (b + 1) (m - 1)) + S (size (free_list s) - length (run (b + 1) (m - 1)) - 1))%nat by lia.
  assert (page_link (b + m - 1) = default (page_link b) (last (run (b + 1) (m - 1)))) as ->.
  { destruct (decide (m = 1)) as [->|]; [simpl; f_equal; lia|].
    rewrite <- (app_nil_l (run _ _)), last_run by lia. simpl. f_equal. lia. }
  rewrite (merge_back_skip _ _ _ _ _ _ _ Hd).
  2: { intros x (i & -> & Hi)%elem_of_run. destruct (Hr i) as (pg & ? & ?); [lia|]. eauto. }
  simpl. change (le2page (page_link b)) with (Some b). rewrite (page_of_ok _ _ _ H1). simpl.
  rewrite Hp1. destruct (Z.eqb_spec m 0); [lia|].
  rewrite (page_of_ok _ _ _ H2). simpl. rewrite Hp2.
  pose proof (blocks_ok_total_l _ _ _ Hok).
  apply blocks_ok_app in Hok as [_ (_ & _ & _ & _ & Hok)]. pose proof (blocks_ok_total _ _ Hok).
  rewrite total_app in Hlt. simpl in Hlt. rewrite u32_small by lia.
  destruct (upd_two s b (b + m) (m + n) 0 _ _ H1 H2) as (s' & -> & Hl' & Hn' & Hdom & ? & ? & ?); [lia|].
  exists s'. split_and!; try done; [by eapply glue_rep|].
  intros i Hi Hni. simpl in Hni. rewrite elem_of_app, elem_of_seqZ in Hni. auto with lia.
Qed.

(** The entry in front of a block in the list. *)
Lemma block_prev s t bs1 base n bs2 :
  free_rep (set_nr_free s t) (bs1 ++ (base, n) :: bs2) →
  list_prev (free_list s) (page_link base) = Ok (default FREE_LIST (last (links_of bs1))).
Proof.
  intros Hrep. pose proof (rep_list _ _ Hrep) as Hd. simpl in Hd.
  destruct (free_rep_head _ _ _ _ _ _ Hrep) as (_ & Hn & _).
  rewrite links_of_app in Hd. simpl in Hd. replace n with (1 + (n - 1)) in Hd by lia.
  rewrite run_app, <- app_assoc in Hd by lia. change (run base 1) with [page_link base] in Hd.
  simpl in Hd. by apply dlist_prev in Hd.
Qed.

Lemma merge_left_cases s t bs1 base n bs2 :
  free_rep (set_nr_free s t) (bs1 ++ (base, n) :: bs2) →
  let le := default FREE_LIST (last (links_of bs1)) in
  ∃ s', (if decide (le ≠ FREE_LIST ∧ le2page le = Some (base - 1))
         then merge_back (size (free_list s)) s le base else Ok s) = Ok s' ∧
    nr_free s' = nr_free s ∧ dom (pages s') = dom (pages s) ∧
    free_rep (set_nr_free s' t)
      (match last bs1 with
       | Some (b, m) => if b + m =? base then removelast bs1 ++ (b, m + n) :: bs2
                        else bs1 ++ (base, n) :: bs2
       | None => bs1 ++ (base, n) :: bs2
       end) ∧
    (∀ i, i ≠ base → i ∉ pages_of bs1 → pages s' !! i = pages s !! i).
Proof.
  intros Hrep le. subst le.
  destruct bs1 as [|[b m] bs1 _] using rev_ind.
  { exists s. rewrite decide_False; [done|]. by intros [[] _]. }
  rewrite last_snoc, links_of_app. simpl. rewrite app_nil_r.
  assert (0 < m) as Hm.
  { pose proof Hrep as Hrep2. rewrite <- app_assoc in Hrep2.
    by destruct (free_rep_head _ _ _ _ _ _ Hrep2) as (_ & ? & _). }
  rewrite last_run by done. change (default FREE_LIST (Some (page_link (b + m - 1))))
    with (page_link (b + m - 1)). unfold le2page.
  destruct (Z.eqb_spec (b + m) base) as [He|Hne].
  - rewrite decide_True by (split; [done|]; unfold page_link; f_equal; lia).
    destruct (merge_left_ok _ _ _ _ _ _ _ _ (eq_sym He) Hrep) as (s' & Hmb & _ & Hn' & Hdom & Hrep' & Hfr).
    replace (b + m - 1) with (base - 1) by lia. rewrite Hmb. exists s'.
    rewrite removelast_last. split_and!; try done.
    intros i Hi Hni. apply Hfr; [done|]. rewrite pages_of_app in Hni. set_solver.
  - rewrite decide_False by (intros [_ [= ?]]; lia). by exists s.
Qed.

Lemma default_free_pages_ok s bs1 bs2 base n pg :
  free_rep s (bs1 ++ bs2) → fits base n bs1 bs2 → total (bs1 ++ bs2) + n < 2 ^ 32 →
  pages s !! base = Some pg → PageReserved pg = true →
  (∀ i, base < i < base + n → ∃ pg, pages s !! i = Some pg ∧ property pg = 0) →
  ∃ s', default_free_pages s base n = Ok s' ∧ free_rep s' (spec_free base n (bs1 ++ bs2)) ∧
    dom (pages s') = dom (pages s) ∧
    (∀ i, i ∉ pages_of (bs1 ++ bs2) → i ≠ base → pages s' !! i = pages s !! i).
Proof.
  intros Hrep Hf Hlt Hpg Hres Hin. pose proof (fits_pos _ _ _ _ Hf) as Hn.
  pose proof Hrep as [Hd _ _ Hnr _ Hl]. rewrite links_of_app in Hd.
  unfold default_free_pages. destruct (Z.ltb_spec 0 n); [|lia].
  rewrite (page_of_ok _ _ _ Hpg). cbn [bind]. rewrite Hres.
  rewrite (free_find_ok _ _ _ _ _ Hd Hf). cbn [bind].
  destruct (free_insert_ok (Z.to_nat n) s _ _ base Hd) as (s1 & -> & Hd1 & Hdom1 & Hp1 & Hn1).
  { rewrite Z2Nat.id by lia. intros i Hi. split.
    - apply Hl. destruct (decide (i = base)) as [->|]; [by rewrite Hpg|].
      destruct (Hin i) as (? & -> & _); [lia|done].
    - intros [Hx|Hx]%elem_of_app.
      + destruct (fits_before _ _ _ _ _ Hf Hx) as (p & [= ->] & ?). lia.
      + destruct (fits_after _ _ _ _ _ Hf Hx) as (p & [= ->] & ?). lia. }
  rewrite Z2Nat.id in Hd1 by lia. cbn [bind].
  rewrite (freed_updates _ _ _ pg) by by rewrite Hp1.
  set (s2 := FreeArea _ _ _).
  assert (free_rep (set_nr_free s2 (total (bs1 ++ bs2) + n)) (bs1 ++ (base, n) :: bs2)) as Hrep2.
  { eapply insert_rep; try done. unfold s2. simpl. by rewrite Hp1. }
  destruct (merge_right_ok _ _ _ _ _ _ Hrep2)
    as (s3 & n' & bs2' & -> & Hl3 & Hn3 & Hdom3 & Hglue & Hrep3 & Hfr3).
  cbn [bind]. rewrite (block_prev _ _ _ _ _ _ Hrep3). cbn [bind].
  destruct (merge_left_cases _ _ _ _ _ _ Hrep3) as (s4 & -> & Hn4 & Hdom4 & Hrep4 & Hfr4).
  cbn [bind]. eexists. split; [done|]. split_and!.
  - assert (u32 (nr_free s4 + n) = total (bs1 ++ bs2) + n) as ->.
    { rewrite Hn4, Hn3. simpl. rewrite Hn1, Hnr, u32_small; [done|].
      pose proof (blocks_ok_total _ _ (rep_blocks _ _ Hrep)). lia. }
    destruct bs1 as [|[b m] bs1 _] using rev_ind.
    { rewrite (spec_free_append _ _ _ _ Hf) by by intros [|??]. by rewrite Hglue. }
    rewrite last_snoc, removelast_last in Hrep4.
    destruct (Z.eqb_spec (b + m) base) as [He|Hne].
    + rewrite (spec_free_merge _ _ _ _ _ _ Hf He), Hglue. simpl.
      by rewrite (proj2 (Z.eqb_eq _ _) He).
    + rewrite spec_free_append; [by rewrite Hglue|done|].
      by intros ??? [_ [= <- <-]]%app_inj_tail.
  - simpl. rewrite Hdom4, Hdom3. simpl. rewrite Hp1. rewrite dom_insert_lookup_L; done.
  - intros i Hni Hi. rewrite pages_of_app in Hni. simpl.
    rewrite Hfr4, Hfr3 by set_solver. simpl. by rewrite Hp1, lookup_insert_ne.
Qed.
