(* ===== verification/PmmManager.v ===== *)
(** * struct pmm_manager (kern/mm/pmm.h) and its first-fit instance

    [pmm_manager] is the table of functions through which [kern/mm/pmm.c]
    reaches an allocator.  The class below gives the functions the code calls
    and what a client relies on; [default_pmm_manager] is the instance built
    from [default_pmm.c], and [pmm_run] drives any instance through a sequence
    of requests. *)

From S2P Require Import Prelude ListH DefaultPmm.

(** ** The function table and its contract

    [mgr_inv s own fr] says that [own] are the blocks handed out and not yet
    returned and that [fr] lists the free pages. *)
Class pmm_manager (S : Type) := {
  init_memmap : S → Z → Z → res S;
  alloc_pages : S → Z → res (option Z * S);
  free_pages : S → Z → Z → res S;
  nr_free_pages : S → Z;
  mgr_inv : S → list block → list Z → Prop;
  (** A block is [n] pages that were free; when none is returned, no free run of
      [n] pages is promised to exist. *)
  alloc_pages_law s own fr n :
    mgr_inv s own fr → 0 < n →
    ∃ r s', alloc_pages s n = Ok (r, s') ∧
      match r with
      | None => s' = s
      | Some b => ∃ fr', fr ≡ₚ seqZ b n ++ fr' ∧ mgr_inv s' ((b, n) :: own) fr'
      end;
  free_pages_law s own1 b n own2 fr :
    mgr_inv s (own1 ++ (b, n) :: own2) fr →
    ∃ s', free_pages s b n = Ok s' ∧ mgr_inv s' (own1 ++ own2) (seqZ b n ++ fr);
  nr_free_law s own fr : mgr_inv s own fr → nr_free_pages s = Z.of_nat (length fr);
  mgr_disjoint s own fr : mgr_inv s own fr → NoDup (pages_of own ++ fr);
  mgr_perm s own fr fr' : mgr_inv s own fr → fr ≡ₚ fr' → mgr_inv s own fr'
}.

(** ** Pages of block lists *)

Lemma length_pages_of lo bs : blocks_ok lo bs → Z.of_nat (length (pages_of bs)) = total bs.
Proof.
  revert lo. induction bs as [|[b n] bs IH]; intros lo; simpl; [done|].
  intros (?&?&H). rewrite length_app, length_seqZ, Nat2Z.inj_add, (IH _ H). lia.
Qed.

Lemma rest_of_pages b m n bs :
  0 < n ≤ m → seqZ b m ++ pages_of bs ≡ₚ seqZ b n ++ pages_of (rest_of b m n bs).
Proof.
  intros Hn. unfold rest_of. destruct (Z.ltb_spec n m); simpl.
  - replace m with (n + (m - n)) at 1 by lia. rewrite seqZ_app by lia. by rewrite <- app_assoc.
  - by replace m with n by lia.
Qed.

Lemma spec_alloc_pages n bs r bs' :
  0 < n → spec_alloc n bs = Some (r, bs') → pages_of bs ≡ₚ seqZ r n ++ pages_of bs'.
Proof.
  intros Hn (l & m & bs2 & -> & _ & ? & ->)%spec_alloc_some.
  rewrite !pages_of_app. simpl. rewrite rest_of_pages by (split; done).
  rewrite !app_assoc. f_equiv. apply Permutation_app_comm.
Qed.

Lemma glue_pages b n bs : 0 < n → (∀ b' m, head bs = Some (b', m) → 0 < m) →
  pages_of (glue (b, n) bs) = seqZ b n ++ pages_of bs.
Proof.
  intros Hn Hb. destruct bs as [|[b' m] bs]; simpl; [done|]. destruct (Z.eqb_spec (b + n) b') as [<-|]; [|done].
  simpl. specialize (Hb _ _ eq_refl). rewrite seqZ_app by lia. by rewrite <- app_assoc.
Qed.

Lemma glue_pos b n bs b' m :
  0 < n → (∀ b' m, head bs = Some (b', m) → 0 < m) → head (glue (b, n) bs) = Some (b', m) → 0 < m.
Proof.
  intros Hn Hb. destruct bs as [|[b2 m2] bs]; simpl; [naive_solver|].
  specialize (Hb _ _ eq_refl). destruct (Z.eqb_spec (b + n) b2); simpl; intros [= <- <-]; lia.
Qed.

Lemma spec_free_pos base n bs lo :
  0 < n → blocks_ok lo bs → ∀ b' m, head (spec_free base n bs) = Some (b', m) → 0 < m.
Proof.
  intros Hn. revert lo. induction bs as [|[b m] bs IH]; intros lo; simpl; [naive_solver|].
  intros (?&?&Hok) b' m'. destruct (base <? b).
  - destruct (base + n =? b); simpl; intros [= <- <-]; lia.
  - destruct (b + m =? base); simpl; [|by intros [= <- <-]].
    apply glue_pos; eauto.
Qed.

Lemma spec_free_pages base n bs lo :
  0 < n → blocks_ok lo bs → pages_of (spec_free base n bs) ≡ₚ seqZ base n ++ pages_of bs.
Proof.
  intros Hn. revert lo. induction bs as [|[b m] bs IH]; intros lo; simpl; [done|].
  intros (?&?&Hok). specialize (IH _ Hok). destruct (Z.ltb_spec base b).
  - destruct (Z.eqb_spec (base + n) b) as [<-|]; simpl; [|done].
    rewrite seqZ_app, <- app_assoc by lia. done.
  - assert (seqZ b m ++ pages_of (spec_free base n bs) ≡ₚ seqZ base n ++ seqZ b m ++ pages_of bs) as Hp.
    { rewrite IH, !app_assoc. f_equiv. apply Permutation_app_comm. }
    destruct (Z.eqb_spec (b + m) base); simpl; [|done].
    rewrite glue_pages; [done..|]. by eapply spec_free_pos.
Qed.

(** A range that meets no block has a place among the blocks. *)
Lemma fits_split lo base n bs :
  blocks_ok lo bs → lo ≤ base → 0 < n → NoDup (seqZ base n ++ pages_of bs) →
  ∃ bs1 bs2, bs = bs1 ++ bs2 ∧ blocks_ok lo (bs1 ++ (base, n) :: bs2).
Proof.
  revert lo. induction bs as [|[b m] bs IH]; intros lo; simpl.
  { intros. exists [], []. simpl. auto. }
  intros (?&?&Hok) ?? Hnd. apply NoDup_app in Hnd as (Hnd1 & Hdis & Hnd2).
  assert (base + n ≤ b ∨ b + m ≤ base) as [Hlt|Hge].
  { destruct (decide (base + n ≤ b)); [by left|]. right.
    destruct (decide (b + m ≤ base)); [done|]. destruct (Hdis (Z.max b base)).
    - rewrite elem_of_seqZ. lia.
    - rewrite elem_of_app, elem_of_seqZ. lia. }
  - exists [], ((b, m) :: bs). simpl. split_and!; done || lia.
  - destruct (IH _ Hok Hge) as (bs1 & bs2 & -> & Hok'); [done| |].
    + apply NoDup_app. split_and!; [done| |].
      * intros x Hx Hx'. apply (Hdis x Hx). set_solver.
      * by apply NoDup_app in Hnd2 as (_ & _ & ?).
    + exists ((b, m) :: bs1), bs2. simpl. auto.
Qed.

(** ** The first-fit manager keeps the contract *)

(** A block that was handed out: still reserved, and its inner pages carry no size. *)
Definition owned_block (m : gmap Z Page) (bl : block) : Prop :=
  0 ≤ bl.1 ∧ 0 < bl.2 ∧
  (∃ pg, m !! bl.1 = Some pg ∧ PageReserved pg = true) ∧
  (∀ i, bl.1 < i < bl.1 + bl.2 → ∃ pg, m !! i = Some pg ∧ property pg = 0).

Record pmm_inv (s : free_area) (own : list block) (bs : list block) : Prop := {
  inv_rep : free_rep s bs;
  inv_own : Forall (owned_block (pages s)) own;
  inv_disj : NoDup (pages_of own ++ pages_of bs);
  inv_u32 : total own + total bs < 2 ^ 32
}.

Lemma owned_block_frame m m' bl :
  (∀ i, bl.1 ≤ i < bl.1 + bl.2 → m' !! i = m !! i) → owned_block m bl → owned_block m' bl.
Proof.
  intros Hf (?&?&H1&H2). split_and!; [done..| |].
  - rewrite Hf by lia. done.
  - intros i Hi. rewrite Hf by lia. auto.
Qed.

Lemma owned_frame m m' own (bs : list Z) :
  NoDup (pages_of own ++ bs) → (∀ i, i ∉ bs → m' !! i = m !! i) →
  Forall (owned_block m) own → Forall (owned_block m') own.
Proof.
  intros (_ & Hdis & _)%NoDup_app Hf Hown. rewrite Forall_forall in Hown |- *.
  intros [b n] Hin. eapply owned_block_frame; [|by apply Hown]. simpl. intros i Hi.
  apply Hf. intros Hb. apply (Hdis i); [|done]. apply elem_of_pages_of. eauto.
Qed.

Lemma total_owned m own : Forall (owned_block m) own → 0 ≤ total own.
Proof.
  induction 1 as [|[b n] own (?&?&?)]; simpl in *; lia.
Qed.

Lemma pmm_alloc_inv s own bs n :
  pmm_inv s own bs → 0 < n →
  ∃ r s', default_alloc_pages s n = Ok (r, s') ∧
    match spec_alloc n bs with
    | None => r = None ∧ s' = s
    | Some (b, bs') => r = Some b ∧ pmm_inv s' ((b, n) :: own) bs'
    end.
Proof.
  intros [Hrep Hown Hdis Hu] Hn. destruct (spec_alloc n bs) as [[b bs']|] eqn:Hspec.
  2: { exists None, s. by rewrite (default_alloc_pages_none _ _ _ Hrep Hn Hspec). }
  destruct (default_alloc_pages_some _ _ _ _ _ Hrep Hn Hspec)
    as (s' & -> & Hrep' & Hres & Hzero & Hdom & Hfr).
  exists (Some b), s'. split_and!; [done..|].
  pose proof (spec_alloc_pages _ _ _ _ Hn Hspec) as Hperm.
  assert (NoDup (pages_of ((b, n) :: own) ++ pages_of bs')) as Hdis'.
  { simpl. rewrite Hperm in Hdis. by rewrite <- app_assoc, (Permutation_app_swap_app (seqZ b n)). }
  assert (total bs = n + total bs') as Htot.
  { pose proof (length_pages_of _ _ (rep_blocks _ _ Hrep)) as Hl.
    pose proof (length_pages_of _ _ (rep_blocks _ _ Hrep')) as Hl'.
    rewrite Hperm, length_app, length_seqZ in Hl. lia. }
  split; [done| |done|simpl; lia].
  constructor; [|by eapply owned_frame].
  split_and!; simpl; [|done| |].
  - apply spec_alloc_some in Hspec as (l & m & bs2 & -> & _).
    eapply (blocks_ok_elem 0 _ b m (rep_blocks _ _ Hrep)). set_solver.
  - destruct (Hres b) as (pg & ? & ? & ?); [lia|]. eauto.
  - intros i Hi. specialize (Hzero i Hi). by apply fmap_Some in Hzero as (pg & ? & ?); eauto.
Qed.

Lemma pmm_free_inv s own1 b n own2 bs :
  pmm_inv s (own1 ++ (b, n) :: own2) bs →
  ∃ s', default_free_pages s b n = Ok s' ∧ pmm_inv s' (own1 ++ own2) (spec_free b n bs).
Proof.
  intros [Hrep Hown Hdis Hu]. rewrite total_app in Hu. simpl in Hu.
  apply Forall_app in Hown as [Hown1 [(Hb0 & Hn & (pg & Hpg & Hres) & Hin) Hown2]%Forall_cons].
  simpl in *. pose proof (rep_blocks _ _ Hrep) as Hok.
  pose proof (total_owned _ _ Hown1). pose proof (total_owned _ _ Hown2).
  rewrite pages_of_app in Hdis. simpl in Hdis.
  assert (NoDup (seqZ b n ++ pages_of bs)) as Hnb.
  { rewrite <- !app_assoc in Hdis. apply NoDup_app in Hdis as (_ & _ & Hdis).
    rewrite (Permutation_app_comm (pages_of own2)), app_assoc in Hdis.
    by apply NoDup_app in Hdis as (? & _ & _). }
  destruct (fits_split 0 b n bs) as (bs1 & bs2 & -> & Hf); [done..|].
  destruct (default_free_pages_ok s bs1 bs2 b n pg) as (s' & -> & Hrep' & Hdom & Hfr);
    try done; [lia|].
  exists s'. split; [done|].
  pose proof (spec_free_pages b n _ 0 Hn Hok) as Hperm.
  assert (NoDup (pages_of (own1 ++ own2) ++ seqZ b n ++ pages_of (bs1 ++ bs2))) as Hdis'.
  { rewrite pages_of_app. rewrite <- !app_assoc in *.
    by rewrite (Permutation_app_swap_app (pages_of own2)). }
  split; [done| |by rewrite Hperm|].
  - eapply owned_frame; [done| |apply Forall_app; done].
    intros i Hi. rewrite elem_of_app, elem_of_seqZ in Hi. apply Hfr; [tauto|]. intros ->. lia.
  - pose proof (length_pages_of _ _ Hok) as Hl.
    pose proof (length_pages_of _ _ (rep_blocks _ _ Hrep')) as Hl'.
    rewrite Hperm, length_app, length_seqZ in Hl'. rewrite total_app. lia.
Qed.

#[export, refine] Instance default_pmm_manager : pmm_manager free_area := {
  init_memmap := default_init_memmap;
  alloc_pages := default_alloc_pages;
  free_pages := default_free_pages;
  nr_free_pages := default_nr_free_pages;
  mgr_inv s own fr := ∃ bs, pmm_inv s own bs ∧ fr ≡ₚ pages_of bs
}.
Proof.
  - intros s own fr n (bs & Hinv & Hp) Hn.
    destruct (pmm_alloc_inv _ _ _ _ Hinv Hn) as (r & s' & Ha & Hr). exists r, s'.
    split; [done|]. destruct (spec_alloc n bs) as [[b bs']|] eqn:Hspec; destruct Hr as [-> Hr]; [|done].
    exists (pages_of bs'). split; [by rewrite Hp, spec_alloc_pages|]. by exists bs'.
  - intros s own1 b n own2 fr (bs & Hinv & Hp).
    destruct (pmm_free_inv _ _ _ _ _ _ Hinv) as (s' & Hf & Hr). exists s'. split; [done|].
    exists (spec_free b n bs). split; [done|].
    pose proof (inv_own _ _ _ Hinv) as Hown. apply Forall_app in Hown as [_ [(_ & Hn & _) _]%Forall_cons].
    by rewrite Hp, (spec_free_pages b n bs 0 Hn (rep_blocks _ _ (inv_rep _ _ _ Hinv))).
  - intros s own fr (bs & [Hrep _ _ _] & Hp).
    unfold default_nr_free_pages. rewrite (rep_nr_free _ _ Hrep), Hp.
    by rewrite (length_pages_of 0 bs (rep_blocks _ _ Hrep)).
  - intros s own fr (bs & [Hrep _ Hd _] & Hp). by rewrite Hp.
  - intros s own fr fr' (bs & Hinv & Hp) Hp'. exists bs. by rewrite <- Hp'.
Defined.

(** ** Initialisation *)

Definition fresh_page (pg : Page) : Page :=
  set_page_ref 0 (set_property 0 (SetPageProperty (set_flags 0 pg))).

Lemma init_page_updates s p pg (k : free_area → res free_area) :
  pages s !! p = Some pg →
  (let! s := upd_page s (Some p) (set_flags 0) in
   let! s := upd_page s (Some p) SetPageProperty in
   let! s := upd_page s (Some p) (set_property 0) in
   let! s := upd_page s (Some p) (set_page_ref 0) in k s) =
  k (FreeArea (<[p := fresh_page pg]> (pages s)) (free_list s) (nr_free s)).
Proof.
  intros Hb. unfold upd_page. simpl. rewrite Hb. simpl.
  repeat (rewrite lookup_insert_eq; simpl). by rewrite !insert_insert_eq.
Qed.

Lemma init_memmap_loop_ok (k : nat) s p l :
  dlist (free_list s) FREE_LIST l →
  (∀ i, p ≤ i < p + Z.of_nat k →
     (∃ pg, pages s !! i = Some pg ∧ PageReserved pg = true) ∧
     is_Some (free_list s !! page_link i) ∧ page_link i ∉ l) →
  ∃ s', init_memmap_loop s p k = Ok s' ∧
    dlist (free_list s') FREE_LIST (l ++ run p (Z.of_nat k)) ∧
    dom (free_list s') = dom (free_list s) ∧ nr_free s' = nr_free s ∧
    (∀ i, pages s' !! i = if decide (p ≤ i < p + Z.of_nat k) then fresh_page <$> pages s !! i
                          else pages s !! i).
Proof.
  revert s p l. induction k as [|k IH]; intros s p l Hd Hp; cbn [init_memmap_loop].
  { exists s. simpl. rewrite app_nil_r. split_and!; try done.
    intros i. by rewrite decide_False by lia. }
  destruct (Hp p) as ((pg & Hpg & Hres) & Hlk & Hni); [lia|].
  rewrite (page_of_ok _ _ _ Hpg). cbn [bind]. rewrite Hres, (init_page_updates _ _ _ _ Hpg).
  cbn [bind free_list].
  destruct (dlist_add_before_head (free_list s) FREE_LIST l (page_link p)) as (fl & -> & Hd' & Hdom);
    [done..|set_solver|]. cbn [bind].
  destruct (IH (set_free_list (FreeArea (<[p:=fresh_page pg]> (pages s)) (free_list s) (nr_free s)) fl)
    (p + 1) (l ++ [page_link p])) as (s' & -> & Hd'' & Hdom' & Hn' & Hp'); simpl; [done| |].
  - intros i Hi. destruct (Hp i) as (Hpi & Hlki & Hnii); [lia|].
    rewrite lookup_insert_ne by lia. split_and!; [done|by eapply is_Some_dom_eq|].
    rewrite elem_of_app, list_elem_of_singleton. intros [?|[= ?]]; [done|lia].
  - exists s'. rewrite run_S. rewrite <- app_assoc in Hd''. simpl in *.
    split_and!; [done..|congruence|done|].
    intros i. rewrite Hp'. destruct (decide (i = p)) as [->|].
    + rewrite decide_False, decide_True by lia. by simplify_map_eq.
    + rewrite lookup_insert_ne by done. do 2 case_decide; try done; lia.
Qed.

Lemma blocks_ok_snoc lo bs base n :
  blocks_ok lo bs → lo ≤ base → 0 < n → (∀ i, i ∈ pages_of bs → i < base) →
  blocks_ok lo (bs ++ [(base, n)]).
Proof.
  revert lo. induction bs as [|[b m] bs IH]; intros lo; simpl; [auto|].
  intros (?&?&Hok) ?? Hlt. split_and!; [done..|]. apply IH; [done| |done|].
  - specialize (Hlt (b + m - 1)). rewrite elem_of_app, elem_of_seqZ in Hlt. lia.
  - intros i Hi. apply Hlt. set_solver.
Qed.

Lemma default_init_memmap_rep s bs base n :
  free_rep s bs → 0 ≤ base → 0 < n → total bs + n < 2 ^ 32 →
  (∀ i, i ∈ pages_of bs → i < base) →
  (∀ i, base ≤ i < base + n → ∃ pg, pages s !! i = Some pg ∧ PageReserved pg = true) →
  ∃ s', default_init_memmap s base n = Ok s' ∧ free_rep s' (bs ++ [(base, n)]).
Proof.
  intros [Hd Hok Hpg Hnr Hu Hl] Hb Hn Hlt Hord Hres. unfold default_init_memmap.
  destruct (Z.ltb_spec 0 n); [|lia].
  destruct (init_memmap_loop_ok (Z.to_nat n) s base _ Hd) as (s1 & -> & Hd1 & Hdom1 & Hn1 & Hp1).
  { intros i Hi. destruct (Hres i) as (pg & Hi1 & Hi2); [lia|]. split_and!; [eauto| |].
    - apply Hl. by rewrite Hi1.
    - intros (b & m & j & Hin & [= <-] & Hj)%elem_of_links_of.
      specialize (Hord i). rewrite elem_of_pages_of in Hord.
      assert (i < base) by (apply Hord; eauto). lia. }
  rewrite Z2Nat.id in * by lia. cbn [bind].
  destruct (Hres base) as (pg & Hpb & _); [lia|].
  assert (pages s1 !! base = Some (fresh_page pg)) as Hb1 by (by rewrite Hp1, decide_True, Hpb by lia).
  rewrite (upd_page_ok _ _ _ (fresh_page pg)) by done. eexists. split; [done|].
  pose proof (blocks_ok_total _ _ Hok). rewrite Hn1, Hnr, u32_small by lia.
  split; simpl; try (rewrite ?total_app; simpl; lia).
  - rewrite links_of_app. simpl. by rewrite app_nil_r.
  - by apply blocks_ok_snoc.
  - apply Forall_app. split; [|constructor; [|done]].
    + rewrite Forall_forall in Hpg |- *. intros [b m] Hin.
      destruct (blocks_ok_elem _ _ _ _ Hok Hin).
      eapply block_pages_frame; [|done|by apply Hpg]. simpl. intros i Hi.
      assert (i < base) by (apply Hord, elem_of_pages_of; eauto).
      rewrite lookup_insert_ne, Hp1, decide_False by lia. done.
    + split; simpl; [rewrite lookup_insert_eq; by eexists|].
      intros i Hi. destruct (Hres i) as (pgi & Hpi & _); [lia|].
      rewrite lookup_insert_ne, Hp1, decide_True, Hpi by lia. by eexists.
  - intros i Hi. apply elem_of_dom. rewrite Hdom1. apply elem_of_dom, Hl.
    destruct (decide (i = base)) as [->|]; [by rewrite Hpb|].
    rewrite lookup_insert_ne, Hp1 in Hi by done. case_decide; [by rewrite fmap_is_Some in Hi|done].
Qed.

(** Before [pmm_init] hands memory to the manager: [page_init] marks every page
    reserved, and the list head is allocated. *)
Definition boot_pages (s : free_area) : Prop :=
  is_Some (free_list s !! FREE_LIST) ∧
  ∀ i pg, pages s !! i = Some pg → is_Some (free_list s !! page_link i) ∧ PageReserved pg = true.

Lemma default_init_rep s :
  boot_pages s → ∃ s', default_init s = Ok s' ∧ free_rep s' [] ∧ pages s' = pages s.
Proof.
  intros [Hhd Hp]. unfold default_init.
  destruct (list_init_spec _ _ Hhd) as (l & -> & Hd & Hdom & Hfr). cbn [bind].
  eexists. split; [done|]. split; [|done]. split; simpl; try done.
  intros i [pg Hi]. by eapply is_Some_dom_eq, Hp.
Qed.

(** ** Driving a manager through requests

    A client asks for [n] pages, or gives back the [k]-th block it holds. *)
Inductive request := AllocPages (n : Z) | FreePages (k : nat).

Section run.
Context {S : Type} `{pmm_manager S}.

Fixpoint pmm_run (s : S) (own : list block) (reqs : list request) : res (S * list block) :=
  match reqs with
  | [] => Ok (s, own)
  | AllocPages n :: reqs =>
      let! (o, s) := alloc_pages s n in
      pmm_run s (match o with Some b => (b, n) :: own | None => own end) reqs
  | FreePages k :: reqs =>
      match own !! k with
      | None => pmm_run s own reqs
      | Some (b, n) => let! s := free_pages s b n in pmm_run s (delete k own) reqs
      end
  end.

Definition request_ok (r : request) : Prop :=
  match r with AllocPages n => 0 < n | FreePages _ => True end.

Lemma pmm_run_inv s own fr reqs :
  mgr_inv s own fr → Forall request_ok reqs →
  ∃ s' own' fr', pmm_run s own reqs = Ok (s', own') ∧ mgr_inv s' own' fr' ∧
    pages_of own' ++ fr' ≡ₚ pages_of own ++ fr.
Proof.
  revert s own fr. induction reqs as [|r reqs IH]; intros s own fr Hinv Hok.
  { by exists s, own, fr. }
  apply Forall_cons in Hok as [Hr Hok]. destruct r as [n|k]; simpl in *.
  - destruct (alloc_pages_law _ _ _ _ Hinv Hr) as (o & s' & -> & Ho). simpl.
    destruct o as [b|]; [|subst; by apply IH].
    destruct Ho as (fr' & Hp & Hinv'). destruct (IH _ _ _ Hinv' Hok) as (s2 & own2 & fr2 & -> & Hi & Hp2).
    exists s2, own2, fr2. split_and!; [done..|]. rewrite Hp2, Hp. simpl.
    by rewrite <- app_assoc, (Permutation_app_swap_app (seqZ b n)).
  - destruct (own !! k) as [[b n]|] eqn:Hk; [|by apply IH].
    rewrite <- (take_drop_middle _ _ _ Hk) in Hinv.
    destruct (free_pages_law _ _ _ _ _ _ Hinv) as (s' & -> & Hinv'). simpl.
    rewrite <- delete_take_drop in Hinv'.
    destruct (IH _ _ _ Hinv' Hok) as (s2 & own2 & fr2 & -> & Hi & Hp2).
    exists s2, own2, fr2. split_and!; [done..|]. rewrite Hp2, delete_take_drop.
    rewrite <- (take_drop_middle _ _ _ Hk) at 3. rewrite !pages_of_app. simpl.
    rewrite <- !app_assoc. f_equiv. apply Permutation_app_swap_app.
Qed.

End run.

(** ** The properties *)

(** C18: From boot, a memory of [n] pages managed by [default_pmm.c] serves every
    sequence of allocations and releases of live blocks without a failed
    assertion, a bad access or an endless walk; the live blocks never share a
    page, the free and the live pages together are always the [n] pages handed
    to [init_memmap], and [nr_free] counts the free ones. *)
Theorem pmm_run_safe s base n reqs :
  boot_pages s → 0 ≤ base → 0 < n < 2 ^ 32 →
  (∀ i, base ≤ i < base + n → is_Some (pages s !! i)) →
  Forall request_ok reqs →
  ∃ s0 s1 s' own' fr',
    default_init s = Ok s0 ∧ default_init_memmap s0 base n = Ok s1 ∧
    pmm_run s1 [] reqs = Ok (s', own') ∧
    NoDup (pages_of own' ++ fr') ∧ pages_of own' ++ fr' ≡ₚ seqZ base n ∧
    default_nr_free_pages s' = Z.of_nat (length fr').
Proof.
  intros Hboot Hb Hn Hex Hreqs.
  destruct (default_init_rep s Hboot) as (s0 & Hs0 & Hrep0 & Hp0).
  destruct (default_init_memmap_rep s0 [] base n Hrep0) as (s1 & Hs1 & Hrep1);
    [done|lia|simpl; lia|by intros i ?%elem_of_nil| |].
  { intros i Hi. destruct (Hex i Hi) as [pg Hpg]. rewrite Hp0.
    exists pg. split; [done|]. by apply (proj2 Hboot i). }
  assert (mgr_inv s1 [] (pages_of [(base, n)])) as Hinv.
  { exists [(base, n)]. split; [|done]. split; [done|done| |simpl; lia].
    simpl. rewrite app_nil_r. apply NoDup_seqZ. }
  destruct (pmm_run_inv _ _ _ _ Hinv Hreqs) as (s' & own' & fr' & Hrun & Hinv' & Hp).
  exists s0, s1, s', own', fr'. simpl in Hp. rewrite app_nil_r in Hp.
  split_and!; try done.
  - by eapply mgr_disjoint.
  - exact (nr_free_law s' own' fr' Hinv').
Qed.

(** Four pages of memory, all reserved, with arbitrary list fields. *)
Definition demo_memory (k : Z) : free_area :=
  FreeArea (list_to_map ((λ i, (i, mkPage 0 1 0)) <$> seqZ 1 k))
           (list_to_map ((λ i, (i, ListEntry i i)) <$> FREE_LIST :: (page_link <$> seqZ 1 k))) 0.

Lemma pmm_run_safe_witness :
  ∃ s0 s1 s' own' fr',
    default_init (demo_memory 4) = Ok s0 ∧ default_init_memmap s0 1 4 = Ok s1 ∧
    pmm_run s1 [] [AllocPages 2; AllocPages 1; FreePages 1; AllocPages 3; FreePages 0] = Ok (s', own') ∧
    NoDup (pages_of own' ++ fr') ∧ pages_of own' ++ fr' ≡ₚ seqZ 1 4 ∧
    default_nr_free_pages s' = Z.of_nat (length fr').
Proof.
  apply (pmm_run_safe (demo_memory 4) 1 4); [|lia|lia| |].
  - split; [by eexists|].
    assert (map_Forall (λ i pg, is_Some (free_list (demo_memory 4) !! page_link i) ∧
      PageReserved pg = true) (pages (demo_memory 4))) as H; [|exact H].
    refine (bool_decide_unpack _ _). by vm_compute.
  - intros i Hi. assert (i = 1 ∨ i = 2 ∨ i = 3 ∨ i = 4) as [-> | [-> | [-> | ->]]] by lia; by eexists.
  - repeat constructor.
Defined.

(** C19: [default_alloc_pages] is first fit: on a free list that represents the
    blocks [bs] it returns the first page of the first block with at least [n]
    pages and leaves the rest of that block, and it returns [NULL] without any
    change exactly when no block is large enough. *)
Theorem default_alloc_first_fit s bs n :
  free_rep s bs → 0 < n →
  ∃ s', default_alloc_pages s n = Ok (fst <$> spec_alloc n bs, s') ∧
    match spec_alloc n bs with
    | Some (b, bs') => free_rep s' bs' ∧
        (∀ i, b ≤ i < b + n → ∃ pg, pages s' !! i = Some pg ∧ owned pg)
    | None => s' = s ∧ Forall (λ bl, bl.2 < n) bs
    end.
Proof.
  intros Hrep Hn. destruct (spec_alloc n bs) as [[b bs']|] eqn:Hspec.
  - destruct (default_alloc_pages_some _ _ _ _ _ Hrep Hn Hspec) as (s' & ? & ? & ? & _). eauto.
  - exists s. split; [by apply (default_alloc_pages_none s bs)|].
    split; [done|]. by apply spec_alloc_none.
Qed.

(** C20: [default_free_pages] returns a block to its place in address order and
    joins it with the free blocks it touches on either side, provided the block
    meets no free page and its inner pages carry no size. *)
Theorem default_free_coalesces s bs base n pg :
  free_rep s bs → 0 ≤ base → 0 < n → total bs + n < 2 ^ 32 →
  NoDup (seqZ base n ++ pages_of bs) →
  pages s !! base = Some pg → PageReserved pg = true →
  (∀ i, base < i < base + n → ∃ pg, pages s !! i = Some pg ∧ property pg = 0) →
  ∃ s', default_free_pages s base n = Ok s' ∧ free_rep s' (spec_free base n bs) ∧
    pages_of (spec_free base n bs) ≡ₚ seqZ base n ++ pages_of bs.
Proof.
  intros Hrep Hb Hn Hlt Hnd Hpg Hres Hin. pose proof (rep_blocks _ _ Hrep) as Hok.
  destruct (fits_split 0 base n bs) as (bs1 & bs2 & -> & Hf); [done..|].
  destruct (default_free_pages_ok s bs1 bs2 base n pg) as (s' & Hs & Hr & _); try done.
  exists s'. split_and!; [done..|]. by eapply spec_free_pages.
Qed.

(** *** Concrete states for the witnesses *)

Definition or_else {A} (d : A) (m : res A) : A := match m with Ok a => a | _ => d end.

(** Pages 1 to [k], all free. *)
Definition demo_ready (k : Z) : free_area :=
  or_else (demo_memory k)
    (let! s := default_init (demo_memory k) in default_init_memmap s 1 k).

Lemma demo_ready_rep : free_rep (demo_ready 4) [(1, 4)].
Proof.
  destruct (default_init_rep (demo_memory 4)) as (s0 & Hs0 & Hrep0 & Hp0).
  { split; [by eexists|].
    assert (map_Forall (λ i pg, is_Some (free_list (demo_memory 4) !! page_link i) ∧
      PageReserved pg = true) (pages (demo_memory 4))) as H; [|exact H].
    refine (bool_decide_unpack _ _). by vm_compute. }
  destruct (default_init_memmap_rep s0 [] 1 4 Hrep0) as (s1 & Hs1 & Hrep1);
    [lia|lia|simpl; lia|by intros i ?%elem_of_nil| |].
  { intros i Hi. rewrite Hp0. assert (i = 1 ∨ i = 2 ∨ i = 3 ∨ i = 4) as [-> | [-> | [-> | ->]]] by lia;
      by eexists. }
  unfold demo_ready. rewrite Hs0. simpl. by rewrite Hs1.
Qed.

(** Pages 1 and 2 handed out, 3 and 4 free. *)
Definition demo_alloc : free_area :=
  (or_else (None, demo_ready 4) (default_alloc_pages (demo_ready 4) 2)).2.

Lemma demo_alloc_rep : free_rep demo_alloc [(3, 2)].
Proof.
  destruct (default_alloc_pages_some _ _ 2 1 [(3, 2)] demo_ready_rep ltac:(lia) eq_refl)
    as (s' & Hs & Hrep & _).
  unfold demo_alloc. by rewrite Hs.
Qed.

Lemma default_alloc_first_fit_witness :
  free_rep (demo_ready 4) [(1, 4)] ∧
  ∃ s', default_alloc_pages (demo_ready 4) 3 = Ok (Some 1, s') ∧ free_rep s' [(4, 1)] ∧
    (∀ i, 1 ≤ i < 4 → ∃ pg, pages s' !! i = Some pg ∧ owned pg).
Proof.
  split; [apply demo_ready_rep|].
  exact (default_alloc_first_fit (demo_ready 4) [(1, 4)] 3 demo_ready_rep ltac:(lia)).
Defined.

Lemma default_free_coalesces_witness :
  ∃ s', default_free_pages demo_alloc 1 2 = Ok s' ∧ free_rep s' [(1, 4)] ∧
    pages_of [(1, 4)] ≡ₚ seqZ 1 2 ++ pages_of [(3, 2)].
Proof.
  apply (default_free_coalesces demo_alloc [(3, 2)] 1 2 (mkPage 0 1 4)).
  - apply demo_alloc_rep.
  - lia.
  - lia.
  - simpl. lia.
  - refine (bool_decide_unpack _ _). by vm_compute.
  - by vm_compute.
  - reflexivity.
  - intros i Hi. assert (i = 2) as -> by lia. eexists. split; [by vm_compute|done].
Defined.

(** The release resets the fields of the first page only.  Three pages that
    were handed out one by one and come back as one block keep their stale sizes;
    the next request for five pages is then served from the middle of that block
    and runs over page 4, which is still in use. *)
Theorem default_free_stale_property :
  ∃ s1 s2 s3 s4 s5 s6,
    default_alloc_pages (demo_ready 8) 1 = Ok (Some 1, s1) ∧
    default_alloc_pages s1 1 = Ok (Some 2, s2) ∧
    default_alloc_pages s2 1 = Ok (Some 3, s3) ∧
    default_alloc_pages s3 1 = Ok (Some 4, s4) ∧
    default_free_pages s4 1 3 = Ok s5 ∧
    default_alloc_pages s5 5 = Ok (Some 2, s6) ∧
    4 ∈ seqZ 2 5.
Proof.
  do 6 eexists. split_and!; [vm_compute; reflexivity..|].
  refine (bool_decide_unpack _ _). by vm_compute.
Qed.
