(* ===== verification/SkewHeap.v ===== *)
(** * libs/skew_heap.h: the priority queue of the stride scheduler

    Entries live in a store that maps an entry's address to its [parent],
    [left] and [right] pointers; the operations follow the C code assignment by
    assignment.  [heap_at] relates a root pointer to a binary tree, and the
    refinement lemmas say that the pointer code computes [tmerge] and [tremove]. *)

From S2P Require Import Prelude.

Section skew_heap.
Context {P : Type} `{Countable P}.

(** ** struct skew_heap_entry *)
Record skew_heap_entry := SkewEntry { parent : option P; left : option P; right : option P }.

Abbreviation store := (gmap P skew_heap_entry).

(** [compare_f]: the C code passes the comparison function and only tests for -1. *)
Context (comp : P → P → Z).

Definition upd_entry (h : store) (p : P) (f : skew_heap_entry → skew_heap_entry) : res store :=
  let! e := deref (h !! p) in Ok (<[p := f e]> h).

Definition set_parent (v : option P) (e : skew_heap_entry) := SkewEntry v (left e) (right e).
Definition set_left (v : option P) (e : skew_heap_entry) := SkewEntry (parent e) v (right e).
Definition set_right (v : option P) (e : skew_heap_entry) := SkewEntry (parent e) (left e) v.

(** [if (l) l->parent = a;] *)
Definition set_parent_opt (h : store) (l : option P) (v : option P) : res store :=
  match l with None => Ok h | Some l => upd_entry h l (set_parent v) end.

(** All three fields are written, so the old contents of the entry do not matter. *)
Definition skew_heap_init (h : store) (a : P) : store := <[a := SkewEntry None None None]> h.

Fixpoint skew_heap_merge (fuel : nat) (h : store) (a b : option P) : res (option P * store) :=
  match fuel with
  | O => NoFuel
  | S fuel =>
      match a, b with
      | None, _ => Ok (b, h)
      | _, None => Ok (a, h)
      | Some a', Some b' =>
          if comp a' b' =? -1 then
            let! ea := deref (h !! a') in
            let r := left ea in
            let! (l, h) := skew_heap_merge fuel h (right ea) b in
            let! h := upd_entry h a' (set_left l) in
            let! h := upd_entry h a' (set_right r) in
            let! h := set_parent_opt h l a in
            Ok (a, h)
          else
            let! eb := deref (h !! b') in
            let r := left eb in
            let! (l, h) := skew_heap_merge fuel h a (right eb) in
            let! h := upd_entry h b' (set_left l) in
            let! h := upd_entry h b' (set_right r) in
            let! h := set_parent_opt h l b in
            Ok (b, h)
      end
  end.

(** Each round of the recursion uses up one entry of the store. *)
Definition merge_fuel (h : store) : nat := S (size h).

Definition skew_heap_insert (h : store) (a : option P) (b : P) : res (option P * store) :=
  let h := skew_heap_init h b in
  skew_heap_merge (merge_fuel h) h a (Some b).

Definition skew_heap_remove (h : store) (a : option P) (b : P) : res (option P * store) :=
  let! eb := deref (h !! b) in
  let p := parent eb in
  let! (rep, h) := skew_heap_merge (merge_fuel h) h (left eb) (right eb) in
  let! h := set_parent_opt h rep p in
  match p with
  | Some p' =>
      let! ep := deref (h !! p') in
      if decide (left ep = Some b) then
        let! h := upd_entry h p' (set_left rep) in Ok (a, h)
      else
        let! h := upd_entry h p' (set_right rep) in Ok (a, h)
  | None => Ok (rep, h)
  end.

(** ** Trees *)

Inductive tree := Leaf | Node (x : P) (l r : tree).

Fixpoint nodes (t : tree) : list P :=
  match t with Leaf => [] | Node x l r => x :: nodes l ++ nodes r end.

Definition root (t : tree) : option P := match t with Leaf => None | Node x _ _ => Some x end.

Fixpoint tmerge (a : tree) : tree → tree :=
  fix go (b : tree) : tree :=
    match a, b with
    | Leaf, _ => b
    | _, Leaf => a
    | Node x la ra, Node y lb rb =>
        if comp x y =? -1 then Node x (tmerge ra b) la else Node y (go rb) lb
    end.

Fixpoint tremove (x : P) (t : tree) : tree :=
  match t with
  | Leaf => Leaf
  | Node y l r => if decide (y = x) then tmerge l r else Node y (tremove x l) (tremove x r)
  end.

(** The tree [t] hangs at pointer [p], below the entry [par]. *)
Fixpoint heap_at (h : store) (t : tree) (p par : option P) : Prop :=
  match t with
  | Leaf => p = None
  | Node x l r => p = Some x ∧ ∃ pl pr, h !! x = Some (SkewEntry par pl pr) ∧
      heap_at h l pl (Some x) ∧ heap_at h r pr (Some x)
  end.

Lemma tmerge_leaf_l b : tmerge Leaf b = b.
Proof. by destruct b. Qed.

Lemma tmerge_leaf_r a : tmerge a Leaf = a.
Proof. by destruct a. Qed.

Lemma tmerge_node x la ra y lb rb :
  tmerge (Node x la ra) (Node y lb rb) =
  if comp x y =? -1 then Node x (tmerge ra (Node y lb rb)) la
  else Node y (tmerge (Node x la ra) rb) lb.
Proof. done. Qed.

Lemma tmerge_nodes a b : nodes (tmerge a b) ≡ₚ nodes a ++ nodes b.
Proof.
  revert b. induction a as [|x la IHl ra IHr]; intros b; [by rewrite tmerge_leaf_l|].
  induction b as [|y lb IHl' rb IHr']; [by rewrite tmerge_leaf_r, app_nil_r|].
  rewrite tmerge_node. destruct (comp x y =? -1); cbn [nodes].
  - rewrite IHr. cbn [nodes]. solve_Permutation.
  - rewrite IHr'. cbn [nodes]. solve_Permutation.
Qed.

Lemma tremove_notin x t : x ∉ nodes t → tremove x t = t.
Proof.
  induction t as [|y l IHl r IHr]; cbn [nodes tremove]; [done|]. intros Hn.
  rewrite decide_False by set_solver. f_equal; [apply IHl|apply IHr]; set_solver.
Qed.

Lemma tremove_nodes x t : NoDup (nodes t) → x ∈ nodes t → nodes t ≡ₚ x :: nodes (tremove x t).
Proof.
  induction t as [|y l IHl r IHr]; cbn [nodes tremove]; [set_solver|].
  intros [Hy (Hl & Hdis & Hr)%NoDup_app]%NoDup_cons Hx. case_decide as Hyx.
  - subst. by rewrite tmerge_nodes.
  - apply elem_of_cons in Hx as [->|Hx]; [done|]. apply elem_of_app in Hx as [Hx|Hx].
    + rewrite (tremove_notin x r) by (intros ?; eapply Hdis; eauto).
      cbn [nodes]. rewrite (IHl Hl Hx) at 1. solve_Permutation.
    + rewrite (tremove_notin x l) by (intros ?; eapply Hdis; eauto).
      cbn [nodes]. rewrite (IHr Hr Hx) at 1. solve_Permutation.
Qed.

Lemma heap_at_root h t p par : heap_at h t p par → p = root t.
Proof. destruct t; cbn; [done|]. by intros [-> _]. Qed.

Lemma heap_at_frame h h' t p par :
  (∀ x, x ∈ nodes t → h' !! x = h !! x) → heap_at h t p par → heap_at h' t p par.
Proof.
  revert p par. induction t as [|x l IHl r IHr]; intros p par Hf; cbn [heap_at nodes] in *; [done|].
  intros [-> (pl & pr & Hx & Hl & Hr)]. split; [done|]. exists pl, pr. split_and!.
  - rewrite Hf by set_solver. done.
  - apply IHl; [|done]. intros; apply Hf; set_solver.
  - apply IHr; [|done]. intros; apply Hf; set_solver.
Qed.

Lemma heap_at_dom h t p par x : heap_at h t p par → x ∈ nodes t → is_Some (h !! x).
Proof.
  revert p par. induction t as [|y l IHl r IHr]; intros p par; cbn [heap_at nodes]; [set_solver|].
  intros [-> (pl & pr & Hx & Hl & Hr)] [->|[?|?]%elem_of_app]%elem_of_cons; eauto.
Qed.

Lemma heap_at_size h t p par : heap_at h t p par → NoDup (nodes t) → (length (nodes t) ≤ size h)%nat.
Proof.
  intros Hh Hnd. rewrite <- size_dom.
  assert (list_to_set (nodes t) ⊆ dom h) as Hsub.
  { intros x Hx. apply elem_of_dom. apply elem_of_list_to_set in Hx. eauto using heap_at_dom. }
  apply subseteq_size in Hsub. by rewrite size_list_to_set in Hsub.
Qed.

(** Giving a tree another parent changes its root entry only. *)
Lemma set_parent_opt_ok h t p par v :
  heap_at h t p par → NoDup (nodes t) →
  ∃ h', set_parent_opt h p v = Ok h' ∧ heap_at h' t p v ∧ dom h' = dom h ∧
    (∀ x, x ∉ nodes t → h' !! x = h !! x).
Proof.
  destruct t as [|x l r]; cbn [heap_at nodes].
  { intros -> _. by exists h. }
  intros [-> (pl & pr & Hx & Hl & Hr)] [Hn (Hndl & Hdis & Hndr)%NoDup_app]%NoDup_cons. simpl.
  unfold upd_entry. rewrite Hx. simpl. eexists. split; [done|]. split_and!.
  - done.
  - exists pl, pr. unfold set_parent. simpl. rewrite lookup_insert_eq.
    split_and!; [done| |]; (eapply heap_at_frame; [|done]);
      intros y Hy; rewrite lookup_insert_ne; set_solver.
  - by rewrite dom_insert_lookup_L.
  - intros y Hy. rewrite lookup_insert_ne by set_solver. done.
Qed.

(** The assignments after the recursive call of [skew_heap_merge]. *)
Lemma merge_step h x px pl pr tl l parl la :
  h !! x = Some (SkewEntry px pl pr) → heap_at h tl l parl → heap_at h la pl (Some x) →
  NoDup (x :: nodes tl ++ nodes la) →
  ∃ h', (let! h := upd_entry h x (set_left l) in
         let! h := upd_entry h x (set_right pl) in
         let! h := set_parent_opt h l (Some x) in Ok (Some x, h)) = Ok (Some x, h') ∧
    heap_at h' (Node x tl la) (Some x) px ∧ dom h' = dom h ∧
    (∀ y, y ∉ x :: nodes tl → h' !! y = h !! y).
Proof.
  intros Hx Htl Hla [Hn (Hnd1 & Hdis & Hnd2)%NoDup_app]%NoDup_cons.
  unfold upd_entry. rewrite Hx. simpl. rewrite lookup_insert_eq. simpl.
  rewrite insert_insert_eq. unfold set_right, set_left. simpl.
  set (h1 := <[x:=_]> h).
  assert (heap_at h1 tl l parl) as Htl1.
  { eapply heap_at_frame; [|done]. intros y Hy. unfold h1. rewrite lookup_insert_ne; set_solver. }
  destruct (set_parent_opt_ok _ _ _ _ (Some x) Htl1 Hnd1) as (h2 & -> & Htl2 & Hdom & Hfr). simpl.
  eexists. split; [done|]. split_and!.
  - done.
  - exists l, pl. split_and!; [|done|].
    + rewrite Hfr by set_solver. unfold h1. by rewrite lookup_insert_eq.
    + eapply heap_at_frame; [|done]. intros y Hy.
      rewrite Hfr by set_solver. unfold h1. rewrite lookup_insert_ne; set_solver.
  - rewrite Hdom. unfold h1. by rewrite dom_insert_lookup_L.
  - intros y Hy. rewrite Hfr by set_solver. unfold h1. rewrite lookup_insert_ne; set_solver.
Qed.

Lemma skew_heap_merge_refines fuel h a b ta tb pa pb :
  heap_at h ta a pa → heap_at h tb b pb → NoDup (nodes ta ++ nodes tb) →
  (length (nodes ta ++ nodes tb) < fuel)%nat →
  ∃ h' par, skew_heap_merge fuel h a b = Ok (root (tmerge ta tb), h') ∧
    heap_at h' (tmerge ta tb) (root (tmerge ta tb)) par ∧ (par = pa ∨ par = pb) ∧
    dom h' = dom h ∧ (∀ x, x ∉ nodes ta ++ nodes tb → h' !! x = h !! x).
Proof.
  revert h a b ta tb pa pb. induction fuel as [|fuel IH]; intros h a b ta tb pa pb Ha Hb Hnd Hf; [lia|].
  destruct ta as [|x la ra].
  { rewrite tmerge_leaf_l. pose proof (heap_at_root _ _ _ _ Hb) as ->. cbn in Ha. subst a.
    exists h, pb. split_and!; auto. }
  destruct tb as [|y lb rb].
  { rewrite tmerge_leaf_r. cbn in Hb. subst b.
    pose proof (heap_at_root _ _ _ _ Ha) as ->. exists h, pa. split_and!; auto. }
  rewrite tmerge_node. cbn [heap_at] in Ha, Hb.
  destruct Ha as [-> (pla & pra & Hx & Hla & Hra)], Hb as [-> (plb & prb & Hy & Hlb & Hrb)].
  cbn [skew_heap_merge]. cbn [nodes app] in Hnd, Hf. destruct (comp x y =? -1); cbn [root].
  - rewrite Hx. cbn [deref bind left right].
    destruct (IH h pra (Some y) ra (Node y lb rb) (Some x) pb) as (h1 & par & -> & Ht & _ & Hd & Hfr).
    + done.
    + cbn. split; [done|]. by exists plb, prb.
    + cbn [nodes]. eapply (submseteq_NoDup _ _ Hnd). solve_submseteq.
    + cbn [nodes]. revert Hf. simpl. rewrite !length_app. simpl. rewrite !length_app. lia.
    + cbn [bind]. cbn [nodes] in Hfr.
      assert (NoDup (x :: nodes (tmerge ra (Node y lb rb)) ++ nodes la)) as Hnd'.
      { rewrite tmerge_nodes. cbn [nodes].
        eapply (submseteq_NoDup _ _ Hnd). solve_submseteq. }
      destruct (merge_step h1 x pa pla pra (tmerge ra (Node y lb rb))
        (root (tmerge ra (Node y lb rb))) par la) as (h2 & -> & Ht2 & Hd2 & Hfr2); try done.
      * rewrite Hfr; [done|]. apply NoDup_cons in Hnd as [Hnd _]. set_solver.
      * eapply heap_at_frame; [|done]. intros z Hz. apply Hfr.
        apply NoDup_cons in Hnd as [_ Hnd]. rewrite <- app_assoc in Hnd.
        apply NoDup_app in Hnd as (_ & Hdis & _). intros ?. apply (Hdis z Hz). set_solver.
      * exists h2, pa. split_and!; [done..|auto|congruence|]. intros z Hz. cbn [nodes] in Hz.
        rewrite Hfr2, Hfr; [done|set_solver|]. rewrite tmerge_nodes. cbn [nodes]. set_solver.
  - rewrite Hy. cbn [deref bind left right].
    destruct (IH h (Some x) prb (Node x la ra) rb pa (Some y)) as (h1 & par & -> & Ht & _ & Hd & Hfr).
    + cbn. split; [done|]. by exists pla, pra.
    + done.
    + cbn [nodes]. eapply (submseteq_NoDup _ _ Hnd). solve_submseteq.
    + cbn [nodes app]. revert Hf. simpl. rewrite !length_app. simpl. rewrite !length_app. lia.
    + cbn [bind]. cbn [nodes] in Hfr.
      assert (NoDup (y :: nodes (tmerge (Node x la ra) rb) ++ nodes lb)) as Hnd'.
      { rewrite tmerge_nodes. cbn [nodes].
        eapply (submseteq_NoDup _ _ Hnd). solve_submseteq. }
      assert (∀ z, z ∈ y :: nodes lb → z ∉ (x :: nodes la ++ nodes ra) ++ nodes rb) as Hsep.
      { rewrite tmerge_nodes in Hnd'. cbn [nodes] in Hnd'. intros z Hz ?.
        apply NoDup_cons in Hnd' as [Hn1 Hn2]. apply NoDup_app in Hn2 as (_ & Hdis & _).
        apply elem_of_cons in Hz as [->|Hz]; [apply Hn1; set_solver|]. eapply Hdis; eauto. }
      destruct (merge_step h1 y pb plb prb (tmerge (Node x la ra) rb)
        (root (tmerge (Node x la ra) rb)) par lb) as (h2 & -> & Ht2 & Hd2 & Hfr2); try done.
      * rewrite Hfr; [done|]. apply Hsep. set_solver.
      * eapply heap_at_frame; [|done]. intros z Hz. apply Hfr. apply Hsep. set_solver.
      * exists h2, pb. split_and!; [done..|auto|congruence|]. intros z Hz. cbn [nodes] in Hz.
        rewrite Hfr2, Hfr; [done|set_solver|]. rewrite tmerge_nodes. cbn [nodes]. set_solver.
Qed.

(** An entry below the root: its parent's child pointer is the only pointer to it
    from outside its subtree. *)
Lemma heap_at_inner h t p par x :
  heap_at h t p par → NoDup (nodes t) → x ∈ nodes t → root t ≠ Some x →
  ∃ q eq lx rx pl pr, q ∈ nodes t ∧ h !! q = Some eq ∧
    h !! x = Some (SkewEntry (Some q) pl pr) ∧
    heap_at h lx pl (Some x) ∧ heap_at h rx pr (Some x) ∧
    NoDup (q :: x :: nodes lx ++ nodes rx) ∧ (x :: nodes lx ++ nodes rx) ⊆+ nodes t ∧
    (∀ h' rep, heap_at h' (tmerge lx rx) rep (Some q) →
       h' !! q = Some (if decide (left eq = Some x) then set_left rep eq else set_right rep eq) →
       (∀ y, y ∈ nodes t → y ∉ q :: x :: nodes lx ++ nodes rx → h' !! y = h !! y) →
       heap_at h' (tremove x t) p par).
Proof.
  revert p par. induction t as [|y l IHl r IHr]; intros p par; cbn [heap_at nodes root]; [set_solver|].
  intros [-> (pl & pr & Hy & Hl & Hr)] Hnd Hx Hne.
  pose proof Hnd as [Hyn (Hndl & Hdis & Hndr)%NoDup_app]%NoDup_cons.
  cbn [tremove]. rewrite decide_False by congruence.
  apply elem_of_cons in Hx as [->|Hx]; [done|]. apply elem_of_app in Hx as [Hx|Hx].
  - assert (x ∉ nodes r) as Hxr by (intros ?; eapply Hdis; eauto).
    rewrite (tremove_notin x r) by done.
    destruct (decide (root l = Some x)) as [Hrl|Hrl].
    + destruct l as [|x' lx rx]; [done|]. injection Hrl as ->. cbn [nodes] in *.
      cbn [heap_at] in Hl. destruct Hl as [-> (plx & prx & Hxe & Hlx & Hrx)].
      exists y, (SkewEntry par (Some x) pr), lx, rx, plx, prx. cbn [left].
      split_and!; [set_solver|done..| | |].
      * apply NoDup_cons. split; [set_solver|done].
      * apply submseteq_cons. by apply submseteq_inserts_r.
      * intros h' rep Hrep Hq Hfr. rewrite decide_True in Hq by done. cbn [tremove].
        rewrite decide_True by done. split; [done|]. exists rep, pr. split_and!; [done..|].
        eapply heap_at_frame; [|done]. intros z Hz. apply Hfr; [set_solver|].
        intros Hz'. apply elem_of_cons in Hz' as [->|Hz']; [set_solver|]. eapply Hdis; eauto.
    + destruct (IHl _ _ Hl Hndl Hx Hrl) as (q & eq & lx & rx & plx & prx & Hq & Heq & Hxe & Hlx & Hrx & Hnd' & Hsub & Hk).
      exists q, eq, lx, rx, plx, prx. split_and!; [set_solver|done..| |].
      * apply submseteq_cons. by apply submseteq_inserts_r.
      * intros h' rep Hrep Hqe Hfr.
        assert (∀ z, z ∈ q :: x :: nodes lx ++ nodes rx → z ∈ nodes l) as Hin.
        { intros z [->|Hz]%elem_of_cons; [done|]. by eapply elem_of_submseteq. }
        split; [done|]. exists pl, pr. split_and!.
        -- rewrite Hfr; [done|set_solver|]. intros Hz%Hin. set_solver.
        -- apply (Hk h' rep); [done..|]. intros z Hz Hz'. apply Hfr; [set_solver|done].
        -- eapply heap_at_frame; [|done]. intros z Hz. apply Hfr; [set_solver|].
           intros Hz'%Hin. eapply Hdis; eauto.
  - assert (x ∉ nodes l) as Hxl by (intros ?; eapply Hdis; eauto).
    rewrite (tremove_notin x l) by done.
    destruct (decide (root r = Some x)) as [Hrr|Hrr].
    + destruct r as [|x' lx rx]; [done|]. injection Hrr as ->. cbn [nodes] in *.
      cbn [heap_at] in Hr. destruct Hr as [-> (plx & prx & Hxe & Hlx & Hrx)].
      exists y, (SkewEntry par pl (Some x)), lx, rx, plx, prx. cbn [left].
      split_and!; [set_solver|done..| | |].
      * apply NoDup_cons. split; [set_solver|done].
      * apply submseteq_cons. by apply submseteq_inserts_l.
      * intros h' rep Hrep Hq Hfr. rewrite decide_False in Hq.
        2: { rewrite (heap_at_root _ _ _ _ Hl). destruct l; cbn in *; [done|]. intros [= ->]. set_solver. }
        cbn [tremove]. rewrite decide_True by done. split; [done|]. exists pl, rep.
        split_and!; [done| |done].
        eapply heap_at_frame; [|done]. intros z Hz. apply Hfr; [set_solver|].
        intros Hz'. apply elem_of_cons in Hz' as [->|Hz']; [set_solver|]. eapply Hdis; eauto.
    + destruct (IHr _ _ Hr Hndr Hx Hrr) as (q & eq & lx & rx & plx & prx & Hq & Heq & Hxe & Hlx & Hrx & Hnd' & Hsub & Hk).
      exists q, eq, lx, rx, plx, prx. split_and!; [set_solver|done..| |].
      * apply submseteq_cons. by apply submseteq_inserts_l.
      * intros h' rep Hrep Hqe Hfr.
        assert (∀ z, z ∈ q :: x :: nodes lx ++ nodes rx → z ∈ nodes r) as Hin.
        { intros z [->|Hz]%elem_of_cons; [done|]. by eapply elem_of_submseteq. }
        split; [done|]. exists pl, pr. split_and!.
        -- rewrite Hfr; [done|set_solver|]. intros Hz%Hin. set_solver.
        -- eapply heap_at_frame; [|done]. intros z Hz. apply Hfr; [set_solver|].
           intros Hz'%Hin. eapply Hdis; eauto.
        -- apply (Hk h' rep); [done..|]. intros z Hz Hz'. apply Hfr; [set_solver|done].
Qed.

Lemma merge_fuel_ok h lx rx pl pr par par' :
  heap_at h lx pl par → heap_at h rx pr par' → NoDup (nodes lx ++ nodes rx) →
  (length (nodes lx ++ nodes rx) < merge_fuel h)%nat.
Proof.
  intros Hl Hr Hnd. unfold merge_fuel. rewrite <- size_dom.
  assert (list_to_set (nodes lx ++ nodes rx) ⊆ dom h) as Hsub.
  { intros z Hz. apply elem_of_dom. apply elem_of_list_to_set, elem_of_app in Hz as [Hz|Hz];
      eauto using heap_at_dom. }
  apply subseteq_size in Hsub. rewrite size_list_to_set in Hsub by done. lia.
Qed.

Lemma skew_heap_insert_refines h t p x :
  heap_at h t p None → NoDup (nodes t) → x ∉ nodes t →
  ∃ h', skew_heap_insert h p x = Ok (root (tmerge t (Node x Leaf Leaf)), h') ∧
    heap_at h' (tmerge t (Node x Leaf Leaf)) (root (tmerge t (Node x Leaf Leaf))) None ∧
    (∀ y, y ∉ x :: nodes t → h' !! y = h !! y).
Proof.
  intros Ht Hnd Hx. unfold skew_heap_insert. set (h1 := skew_heap_init h x).
  assert (heap_at h1 t p None) as Ht1.
  { eapply heap_at_frame; [|done]. intros y Hy. unfold h1, skew_heap_init.
    rewrite lookup_insert_ne; set_solver. }
  assert (heap_at h1 (Node x Leaf Leaf) (Some x) None) as Hx1.
  { split; [done|]. exists None, None. split_and!; try done.
    unfold h1, skew_heap_init. by rewrite lookup_insert_eq. }
  assert (NoDup (nodes t ++ nodes (Node x Leaf Leaf))) as Hnd1.
  { cbn. apply NoDup_app. split_and!; [done|set_solver|apply NoDup_singleton]. }
  destruct (skew_heap_merge_refines (merge_fuel h1) h1 p (Some x) t (Node x Leaf Leaf) None None)
    as (h2 & par & -> & Ht2 & Hpar & Hd & Hfr); [done..|by eapply merge_fuel_ok|].
  exists h2. split_and!; [done| |].
  - by destruct Hpar as [-> | ->].
  - intros y Hy. rewrite Hfr by (cbn; set_solver). unfold h1, skew_heap_init.
    rewrite lookup_insert_ne; set_solver.
Qed.

Lemma tremove_root x t : root t ≠ Some x → root (tremove x t) = root t.
Proof. destruct t; cbn; [done|]. intros Hne. by rewrite decide_False by congruence. Qed.

Lemma skew_heap_remove_refines h t p x :
  heap_at h t p None → NoDup (nodes t) → x ∈ nodes t →
  ∃ h', skew_heap_remove h p x = Ok (root (tremove x t), h') ∧
    heap_at h' (tremove x t) (root (tremove x t)) None ∧
    dom h' = dom h ∧ (∀ y, y ∉ nodes t → h' !! y = h !! y).
Proof.
  intros Ht Hnd Hx. unfold skew_heap_remove. destruct (decide (root t = Some x)) as [Hr|Hr].
  - destruct t as [|y l r]; [done|]. injection Hr as ->. cbn [nodes] in *.
    destruct Ht as [-> (pl & pr & Hxe & Hl & Hr)]. rewrite Hxe. cbn [deref bind parent left right].
    apply NoDup_cons in Hnd as [Hxn Hnd].
    destruct (skew_heap_merge_refines (merge_fuel h) h pl pr l r (Some x) (Some x))
      as (h1 & par & -> & Ht1 & _ & Hd1 & Hfr1); [done..|by eapply merge_fuel_ok|].
    cbn [bind tremove]. rewrite decide_True by done.
    destruct (set_parent_opt_ok _ _ _ _ None Ht1) as (h2 & -> & Ht2 & Hd2 & Hfr2);
      [by rewrite tmerge_nodes|].
    exists h2. split_and!; [done..|congruence|]. intros z Hz.
    rewrite Hfr2, Hfr1; [done|set_solver|rewrite tmerge_nodes; set_solver].
  - destruct (heap_at_inner _ _ _ _ _ Ht Hnd Hx Hr)
      as (q & eq & lx & rx & pl & pr & Hq & Heq & Hxe & Hlx & Hrx & Hnd' & Hsub & Hk).
    rewrite Hxe. cbn [deref bind parent left right].
    apply NoDup_cons in Hnd' as [Hqn Hnd']. pose proof Hnd' as [Hxn Hnd2]%NoDup_cons.
    destruct (skew_heap_merge_refines (merge_fuel h) h pl pr lx rx (Some x) (Some x))
      as (h1 & par & -> & Ht1 & _ & Hd1 & Hfr1); [done..|by eapply merge_fuel_ok|].
    cbn [bind]. set (rep := root (tmerge lx rx)) in *.
    destruct (set_parent_opt_ok _ _ _ _ (Some q) Ht1) as (h2 & -> & Ht2 & Hd2 & Hfr2);
      [by rewrite tmerge_nodes|].
    cbn [bind]. assert (∀ z, z ∉ x :: nodes lx ++ nodes rx → h2 !! z = h !! z) as Hfr.
    { intros z Hz. rewrite Hfr2, Hfr1; [done|set_solver|rewrite tmerge_nodes; set_solver]. }
    assert (h2 !! q = Some eq) as Hq2 by (by rewrite Hfr).
    rewrite Hq2. cbn [deref bind]. rewrite (heap_at_root _ _ _ _ Ht), (tremove_root _ _ Hr).
    rewrite <- (heap_at_root _ _ _ _ Ht).
    set (h3 := <[q := if decide (left eq = Some x) then set_left rep eq else set_right rep eq]> h2).
    assert ((if decide (left eq = Some x)
             then let! h := upd_entry h2 q (set_left rep) in Ok (p, h)
             else let! h := upd_entry h2 q (set_right rep) in Ok (p, h)) = Ok (p, h3)) as ->.
    { unfold upd_entry, h3. rewrite Hq2. by case_decide. }
    exists h3. split_and!; [done| | |].
    + apply (Hk h3 rep).
      * eapply heap_at_frame; [|done]. intros z Hz. unfold h3. rewrite lookup_insert_ne; [done|].
        intros <-. apply Hqn. rewrite tmerge_nodes in Hz. set_solver.
      * unfold h3. by rewrite lookup_insert_eq.
      * intros z _ Hz. unfold h3. rewrite lookup_insert_ne by set_solver. apply Hfr. set_solver.
    + unfold h3. rewrite dom_insert_lookup_L by done. congruence.
    + intros z Hz. unfold h3. rewrite lookup_insert_ne by set_solver. apply Hfr.
      intros Hz'. apply Hz. by eapply elem_of_submseteq.
Qed.

(** ** Heap order *)

Section order.
Context (D : P → Prop).

(** [y] does not go before [x]. *)
Definition not_before (x y : P) : Prop := comp y x ≠ -1.

Context (not_before_trans : ∀ x y z, D x → D y → D z → not_before x y → not_before y z → not_before x z)
  (before_not_before : ∀ x y, D x → D y → comp x y = -1 → not_before x y).

Fixpoint heap_ordered (t : tree) : Prop :=
  match t with
  | Leaf => True
  | Node x l r => Forall (not_before x) (nodes l ++ nodes r) ∧ heap_ordered l ∧ heap_ordered r
  end.

Lemma heap_ordered_cons x l r : Forall D (nodes (Node x l r)) → heap_ordered (Node x l r) →
  ∀ z, D z → not_before z x → Forall (not_before z) (nodes (Node x l r)).
Proof.
  cbn. intros [Hx HD]%Forall_cons [Hf _] z Hz Hzx. constructor; [done|].
  rewrite Forall_forall in *. intros y Hy. apply (not_before_trans z x y); auto.
Qed.

Lemma tmerge_ordered a b :
  Forall D (nodes a) → Forall D (nodes b) → heap_ordered a → heap_ordered b → heap_ordered (tmerge a b).
Proof.
  revert b. induction a as [|x la IHl ra IHr]; intros b Ha Hb Hoa Hob; [by rewrite tmerge_leaf_l|].
  induction b as [|y lb IHl' rb IHr']; [by rewrite tmerge_leaf_r|].
  rewrite tmerge_node. pose proof Ha as [Hx [Hla Hra]%Forall_app]%Forall_cons.
  pose proof Hb as [Hy [Hlb Hrb]%Forall_app]%Forall_cons.
  pose proof Hoa as (Hfa & Hola & Hora). pose proof Hob as (Hfb & Holb & Horb).
  apply Forall_app in Hfa as [Hfla Hfra]. apply Forall_app in Hfb as [Hflb Hfrb].
  destruct (Z.eqb_spec (comp x y) (-1)) as [Hc|Hc]; cbn [heap_ordered].
  - split_and!; [|apply IHr; done|done].
    apply Forall_app. split; [|done]. rewrite tmerge_nodes. apply Forall_app. split; [done|].
    apply heap_ordered_cons; try done. by apply before_not_before.
  - split_and!; [|apply IHr'; done|done].
    apply Forall_app. split; [|done]. rewrite tmerge_nodes. apply Forall_app. split; [|done].
    by apply heap_ordered_cons.
Qed.

Lemma tremove_ordered x t :
  NoDup (nodes t) → Forall D (nodes t) → heap_ordered t → heap_ordered (tremove x t).
Proof.
  induction t as [|y l IHl r IHr]; cbn [nodes heap_ordered tremove]; [done|].
  intros [Hyn (Hl & Hdis & Hr)%NoDup_app]%NoDup_cons [Hy [HDl HDr]%Forall_app]%Forall_cons (Hf & Hol & Hor).
  case_decide; [by apply tmerge_ordered|]. cbn. split_and!; [|auto..].
  apply Forall_app in Hf as [Hfl Hfr]. apply Forall_app.
  assert (∀ t', NoDup (nodes t') → Forall (not_before y) (nodes t') →
    Forall (not_before y) (nodes (tremove x t'))) as Hsub.
  { intros t' Hnd Ht'. destruct (decide (x ∈ nodes t')) as [Hin|Hin].
    - rewrite (tremove_nodes x t' Hnd Hin) in Ht'. by apply Forall_cons in Ht' as [_ ?].
    - by rewrite tremove_notin. }
  split; auto.
Qed.

Lemma heap_ordered_root t x : root t = Some x → heap_ordered t → ∀ y, y ∈ nodes t → y = x ∨ not_before x y.
Proof.
  destruct t as [|z l r]; cbn; [done|]. intros [= ->] [Hf _] y [->|Hy]%elem_of_cons; [by left|right].
  rewrite Forall_forall in Hf. by apply Hf.
Qed.

(** On the pointers of the store, [skew_heap_insert] adds
    one entry to an ordered heap and [skew_heap_remove] takes any entry out of
    it: the entries are those expected, the heap stays ordered, the root that is
    returned goes before every entry, and entries outside the heap are not
    written. *)
Theorem skew_heap_insert_remove h t p x z :
  heap_at h t p None → NoDup (nodes t) → x ∉ nodes t → z ∈ x :: nodes t →
  Forall D (x :: nodes t) → heap_ordered t →
  ∃ h1 h2 t1 t2, skew_heap_insert h p x = Ok (root t1, h1) ∧ heap_at h1 t1 (root t1) None ∧
    nodes t1 ≡ₚ x :: nodes t ∧ heap_ordered t1 ∧
    skew_heap_remove h1 (root t1) z = Ok (root t2, h2) ∧ heap_at h2 t2 (root t2) None ∧
    x :: nodes t ≡ₚ z :: nodes t2 ∧ heap_ordered t2 ∧
    (∀ r y, root t2 = Some r → y ∈ nodes t2 → y = r ∨ not_before r y) ∧
    (∀ y, y ∉ x :: nodes t → h2 !! y = h !! y).
Proof.
  intros Ht Hnd Hx Hz [HDx HD]%Forall_cons Hord.
  destruct (skew_heap_insert_refines _ _ _ _ Ht Hnd Hx) as (h1 & Hi & Ht1 & Hf1).
  set (t1 := tmerge t (Node x Leaf Leaf)) in *.
  assert (nodes t1 ≡ₚ x :: nodes t) as Hn1 by (unfold t1; rewrite tmerge_nodes; cbn; solve_Permutation).
  assert (heap_ordered t1) as Ho1.
  { apply tmerge_ordered; cbn; auto. }
  assert (NoDup (nodes t1)) as Hnd1 by (rewrite Hn1; by apply NoDup_cons).
  assert (Forall D (nodes t1)) as HD1 by (rewrite Hn1; by apply Forall_cons).
  destruct (skew_heap_remove_refines h1 t1 (root t1) z Ht1 Hnd1) as (h2 & Hr & Ht2 & _ & Hf2); [by rewrite Hn1|].
  pose proof (tremove_ordered z t1 Hnd1 HD1 Ho1) as Ho2.
  exists h1, h2, t1, (tremove z t1). split_and!; try done.
  - rewrite <- Hn1. apply tremove_nodes; [done|]. by rewrite Hn1.
  - intros r y Hroot. by apply heap_ordered_root.
  - intros y Hy. rewrite Hf2 by (by rewrite Hn1). by apply Hf1.
Qed.

End order.

End skew_heap.

(** Heap order only depends on the comparisons of the entries of the tree. *)
Lemma heap_ordered_ext {P} (comp comp' : P → P → Z) (t : @tree P) :
  (∀ a b, a ∈ nodes t → b ∈ nodes t → comp' a b = comp a b) →
  heap_ordered comp t → heap_ordered comp' t.
Proof.
  induction t as [|x l IHl r IHr]; cbn [nodes heap_ordered]; [done|].
  intros Hext (Hf & Hl & Hr). split_and!.
  - rewrite Forall_forall in *. intros y Hy. unfold not_before. rewrite Hext by set_solver. by apply Hf.
  - apply IHl; [|done]. intros; apply Hext; set_solver.
  - apply IHr; [|done]. intros; apply Hext; set_solver.
Qed.

Arguments Leaf {P}.
Arguments Node {P} x l r.

(** *** Two entries ordered by their addresses. *)
Definition demo_comp (a b : Z) : Z := if (a <? b)%Z then -1%Z else if (a =? b)%Z then 0%Z else 1%Z.
Definition demo_heap : gmap Z skew_heap_entry :=
  {[ 1%Z := SkewEntry None (Some 2%Z) None; 2%Z := SkewEntry (Some 1%Z) None None ]}.
Definition demo_tree : tree := Node 1%Z (Node 2%Z Leaf Leaf) Leaf.

Lemma demo_comp_spec a b : not_before demo_comp a b ↔ (a ≤ b)%Z.
Proof. unfold not_before, demo_comp. case_match; [lia|]. case_match; lia. Qed.

Lemma skew_heap_insert_remove_witness :
  ∃ h1 h2 t1 t2, skew_heap_insert demo_comp demo_heap (Some 1%Z) 0%Z = Ok (root t1, h1) ∧
    heap_at h1 t1 (root t1) None ∧
    nodes t1 ≡ₚ 0%Z :: nodes demo_tree ∧ heap_ordered demo_comp t1 ∧
    skew_heap_remove demo_comp h1 (root t1) 1%Z = Ok (root t2, h2) ∧ heap_at h2 t2 (root t2) None ∧
    0%Z :: nodes demo_tree ≡ₚ 1%Z :: nodes t2 ∧ heap_ordered demo_comp t2 ∧
    (∀ r y, root t2 = Some r → y ∈ nodes t2 → y = r ∨ not_before demo_comp r y) ∧
    (∀ y, y ∉ 0%Z :: nodes demo_tree → h2 !! y = demo_heap !! y).
Proof.
  apply (skew_heap_insert_remove demo_comp (λ _, True)).
  - intros x y z _ _ _. rewrite !demo_comp_spec. lia.
  - intros x y _ _. rewrite demo_comp_spec. unfold demo_comp. repeat case_match; lia.
  - split; [done|]. exists (Some 2%Z), None. split_and!; [done| |done]. split; [done|]. by exists None, None.
  - refine (bool_decide_unpack _ _). by vm_compute.
  - cbn. set_solver.
  - cbn. set_solver.
  - repeat constructor.
  - cbn. split_and!; try done. constructor; [|constructor]. apply demo_comp_spec. lia.
Defined.
