(* ===== verification/ProcData.v ===== *)
(** * kern/process/proc.h: the process control block

    The record holds the fields of [struct proc_struct] that the kernel code of
    this development reads or writes; register contexts and the links that are
    modelled as lists are left out.  Processes live in a table from addresses. *)

From S2P Require Import Prelude.

Inductive proc_state := PROC_UNINIT | PROC_SLEEPING | PROC_RUNNABLE | PROC_ZOMBIE.

#[export] Instance proc_state_eq_dec : EqDecision proc_state.
Proof. solve_decision. Defined.

Definition MAX_PROCESS : Z := 4096.
Definition MAX_PID : Z := MAX_PROCESS * 2.
Definition PROC_NAME_LEN : Z := 50.

Definition PF_EXITING : Z := 0x00000001.
Definition WT_INTERRUPTED : Z := 0x80000000.
Definition WT_CHILD : Z := Z.lor 0x00000001 WT_INTERRUPTED.
Definition WT_KSEM : Z := 0x00000100.
Definition WT_TIMER : Z := Z.lor 0x00000002 WT_INTERRUPTED.
Definition WT_KBD : Z := Z.lor 0x00000004 WT_INTERRUPTED.

(** The address of an object; [None] is [NULL]. *)
Abbreviation ptr := Z.

Record proc_struct := mkProc {
  state : proc_state;
  pid : Z;
  runs : Z;
  kstack : Z;
  need_resched : bool;
  parent : option ptr;
  mm : option ptr;
  cr3 : Z;
  flags : Z;
  name : list Z;
  exit_code : Z;
  wait_state : Z;
  cptr : option ptr;
  yptr : option ptr;
  optr : option ptr;
  rq : bool;               (* [proc->rq == &__rq] *)
  time_slice : Z;
  lab6_stride : Z;
  lab6_priority : Z;
  filesp : option ptr
}.

Abbreviation ptable := (gmap ptr proc_struct).

(** Assignments to one field. *)
Section setters.
Implicit Types p : proc_struct.

Definition set_state v p := mkProc v (pid p) (runs p) (kstack p) (need_resched p) (parent p) (mm p)
  (cr3 p) (flags p) (name p) (exit_code p) (wait_state p) (cptr p) (yptr p) (optr p) (rq p)
  (time_slice p) (lab6_stride p) (lab6_priority p) (filesp p).
Definition set_pid v p := mkProc (state p) v (runs p) (kstack p) (need_resched p) (parent p) (mm p)
  (cr3 p) (flags p) (name p) (exit_code p) (wait_state p) (cptr p) (yptr p) (optr p) (rq p)
  (time_slice p) (lab6_stride p) (lab6_priority p) (filesp p).
Definition set_runs v p := mkProc (state p) (pid p) v (kstack p) (need_resched p) (parent p) (mm p)
  (cr3 p) (flags p) (name p) (exit_code p) (wait_state p) (cptr p) (yptr p) (optr p) (rq p)
  (time_slice p) (lab6_stride p) (lab6_priority p) (filesp p).
Definition set_kstack v p := mkProc (state p) (pid p) (runs p) v (need_resched p) (parent p) (mm p)
  (cr3 p) (flags p) (name p) (exit_code p) (wait_state p) (cptr p) (yptr p) (optr p) (rq p)
  (time_slice p) (lab6_stride p) (lab6_priority p) (filesp p).
Definition set_need_resched v p := mkProc (state p) (pid p) (runs p) (kstack p) v (parent p) (mm p)
  (cr3 p) (flags p) (name p) (exit_code p) (wait_state p) (cptr p) (yptr p) (optr p) (rq p)
  (time_slice p) (lab6_stride p) (lab6_priority p) (filesp p).
Definition set_parent v p := mkProc (state p) (pid p) (runs p) (kstack p) (need_resched p) v (mm p)
  (cr3 p) (flags p) (name p) (exit_code p) (wait_state p) (cptr p) (yptr p) (optr p) (rq p)
  (time_slice p) (lab6_stride p) (lab6_priority p) (filesp p).
Definition set_mm v p := mkProc (state p) (pid p) (runs p) (kstack p) (need_resched p) (parent p) v
  (cr3 p) (flags p) (name p) (exit_code p) (wait_state p) (cptr p) (yptr p) (optr p) (rq p)
  (time_slice p) (lab6_stride p) (lab6_priority p) (filesp p).
Definition set_cr3 v p := mkProc (state p) (pid p) (runs p) (kstack p) (need_resched p) (parent p) (mm p)
  v (flags p) (name p) (exit_code p) (wait_state p) (cptr p) (yptr p) (optr p) (rq p)
  (time_slice p) (lab6_stride p) (lab6_priority p) (filesp p).
Definition set_flags v p := mkProc (state p) (pid p) (runs p) (kstack p) (need_resched p) (parent p) (mm p)
  (cr3 p) v (name p) (exit_code p) (wait_state p) (cptr p) (yptr p) (optr p) (rq p)
  (time_slice p) (lab6_stride p) (lab6_priority p) (filesp p).
Definition set_exit_code v p := mkProc (state p) (pid p) (runs p) (kstack p) (need_resched p) (parent p) (mm p)
  (cr3 p) (flags p) (name p) v (wait_state p) (cptr p) (yptr p) (optr p) (rq p)
  (time_slice p) (lab6_stride p) (lab6_priority p) (filesp p).
Definition set_wait_state v p := mkProc (state p) (pid p) (runs p) (kstack p) (need_resched p) (parent p) (mm p)
  (cr3 p) (flags p) (name p) (exit_code p) v (cptr p) (yptr p) (optr p) (rq p)
  (time_slice p) (lab6_stride p) (lab6_priority p) (filesp p).
Definition set_cptr v p := mkProc (state p) (pid p) (runs p) (kstack p) (need_resched p) (parent p) (mm p)
  (cr3 p) (flags p) (name p) (exit_code p) (wait_state p) v (yptr p) (optr p) (rq p)
  (time_slice p) (lab6_stride p) (lab6_priority p) (filesp p).
Definition set_yptr v p := mkProc (state p) (pid p) (runs p) (kstack p) (need_resched p) (parent p) (mm p)
  (cr3 p) (flags p) (name p) (exit_code p) (wait_state p) (cptr p) v (optr p) (rq p)
  (time_slice p) (lab6_stride p) (lab6_priority p) (filesp p).
Definition set_optr v p := mkProc (state p) (pid p) (runs p) (kstack p) (need_resched p) (parent p) (mm p)
  (cr3 p) (flags p) (name p) (exit_code p) (wait_state p) (cptr p) (yptr p) v (rq p)
  (time_slice p) (lab6_stride p) (lab6_priority p) (filesp p).
Definition set_rq v p := mkProc (state p) (pid p) (runs p) (kstack p) (need_resched p) (parent p) (mm p)
  (cr3 p) (flags p) (name p) (exit_code p) (wait_state p) (cptr p) (yptr p) (optr p) v
  (time_slice p) (lab6_stride p) (lab6_priority p) (filesp p).
Definition set_time_slice v p := mkProc (state p) (pid p) (runs p) (kstack p) (need_resched p) (parent p) (mm p)
  (cr3 p) (flags p) (name p) (exit_code p) (wait_state p) (cptr p) (yptr p) (optr p) (rq p)
  v (lab6_stride p) (lab6_priority p) (filesp p).
Definition set_lab6_stride v p := mkProc (state p) (pid p) (runs p) (kstack p) (need_resched p) (parent p) (mm p)
  (cr3 p) (flags p) (name p) (exit_code p) (wait_state p) (cptr p) (yptr p) (optr p) (rq p)
  (time_slice p) v (lab6_priority p) (filesp p).
Definition set_lab6_priority v p := mkProc (state p) (pid p) (runs p) (kstack p) (need_resched p) (parent p) (mm p)
  (cr3 p) (flags p) (name p) (exit_code p) (wait_state p) (cptr p) (yptr p) (optr p) (rq p)
  (time_slice p) (lab6_stride p) v (filesp p).
Definition set_filesp v p := mkProc (state p) (pid p) (runs p) (kstack p) (need_resched p) (parent p) (mm p)
  (cr3 p) (flags p) (name p) (exit_code p) (wait_state p) (cptr p) (yptr p) (optr p) (rq p)
  (time_slice p) (lab6_stride p) (lab6_priority p) v.

End setters.

Definition get_proc (t : ptable) (p : ptr) : res proc_struct := deref (t !! p).

Definition upd_proc (t : ptable) (p : ptr) (f : proc_struct → proc_struct) : res ptable :=
  let! pr := get_proc t p in Ok (<[p := f pr]> t).

Lemma get_proc_ok (t : ptable) p pr : t !! p = Some pr → get_proc t p = Ok pr.
Proof. intros Hp. unfold get_proc. by rewrite Hp. Qed.

Lemma upd_proc_ok (t : ptable) p pr f : t !! p = Some pr → upd_proc t p f = Ok (<[p := f pr]> t).
Proof. intros Hp. unfold upd_proc, get_proc. by rewrite Hp. Qed.
