(* ===== verification/StrideSched.v ===== *)
(** * kern/schedule: the scheduling class interface and the stride scheduler

    [sched_class] is the function table of [sched.h] together with what
    [sched.c] relies on.  [stride_*] translate [default_sched.c], compiled with
    [USE_SKEW_HEAP], over the pointer-level heap of [SkewHeap.v]. *)

From S2P Require Import Prelude SkewHeap ProcData.

(** ** struct sched_class

    [queued rq t l] says that the run queue holds exactly the processes [l].
    Queue operations leave every process field alone except the ones of the
    scheduling class itself. *)

(** The fields a scheduling class owns. *)
Definition same_but_sched (p q : proc_struct) : Prop :=
  set_rq false (set_time_slice 0 (set_lab6_stride 0 p)) =
  set_rq false (set_time_slice 0 (set_lab6_stride 0 q)).

Definition sched_frame (x : ptr) (t t' : ptable) : Prop :=
  (∀ y, y ≠ x → t' !! y = t !! y) ∧
  (∀ p, t !! x = Some p → ∃ p', t' !! x = Some p' ∧ same_but_sched p p').

Class sched_class (RQ : Type) := {
  sc_init : RQ → RQ;
  sc_enqueue : RQ → ptable → ptr → res (RQ * ptable);
  sc_dequeue : RQ → ptable → ptr → res (RQ * ptable);
  sc_pick_next : RQ → ptable → res (option ptr * ptable);
  sc_proc_tick : RQ → ptable → ptr → res ptable;
  queued : RQ → list ptr → Prop;
  queued_nodup q l : queued q l → NoDup l;
  queued_perm q l l' : queued q l → l ≡ₚ l' → queued q l';
  init_law q : queued (sc_init q) [];
  enqueue_law q t l x p :
    queued q l → x ∉ l → t !! x = Some p →
    ∃ q' t', sc_enqueue q t x = Ok (q', t') ∧ queued q' (x :: l) ∧ sched_frame x t t';
  pick_empty_law q t : queued q [] → sc_pick_next q t = Ok (None, t);
  (** Picking chooses a member of the queue, which can then be taken off. *)
  pick_dequeue_law q t l :
    queued q l → l ≠ [] → (∀ x, x ∈ l → is_Some (t !! x)) →
    ∃ x l' t' q' t'', l ≡ₚ x :: l' ∧ sc_pick_next q t = Ok (Some x, t') ∧
      sc_dequeue q t' x = Ok (q', t'') ∧ queued q' l' ∧ sched_frame x t t'';
  (** The tick of the current process touches only its slice and its flag. *)
  tick_law q t x p :
    t !! x = Some p → ∃ p', sc_proc_tick q t x = Ok (<[x := p']> t) ∧
      set_need_resched false (set_time_slice 0 p') = set_need_resched false (set_time_slice 0 p)
}.

(** ** default_sched.c *)

Definition BIG_STRIDE : Z := 0x7FFFFFFF.

(** struct run_queue; the pool entries are the [lab6_run_pool] fields of the
    processes and are named by the process address. *)
Record run_queue := mkRq {
  run_list : list ptr;
  proc_num : Z;
  max_time_slice : Z;
  lab6_run_pool : option ptr;
  pool : gmap ptr (@skew_heap_entry ptr)
}.

Definition set_pool (q : run_queue) (r : option ptr) h : run_queue :=
  mkRq (run_list q) (proc_num q) (max_time_slice q) r h.
Definition set_proc_num (q : run_queue) v : run_queue :=
  mkRq (run_list q) v (max_time_slice q) (lab6_run_pool q) (pool q).

Definition stride_of (t : ptable) (p : ptr) : Z := from_option lab6_stride 0 (t !! p).

Definition proc_stride_comp_f (t : ptable) (a b : ptr) : Z :=
  let c := i32 (stride_of t a - stride_of t b) in
  if 0 <? c then 1 else if c =? 0 then 0 else -1.

Definition stride_init (q : run_queue) : run_queue :=
  mkRq [] 0 (max_time_slice q) None (pool q).

Definition stride_enqueue (q : run_queue) (t : ptable) (x : ptr) : res (run_queue * ptable) :=
  let! (r, h) := skew_heap_insert (proc_stride_comp_f t) (pool q) (lab6_run_pool q) x in
  let q := set_pool q r h in
  let! p := get_proc t x in
  let! t := if (time_slice p =? 0) || (max_time_slice q <? time_slice p)
            then upd_proc t x (set_time_slice (max_time_slice q)) else Ok t in
  let! t := upd_proc t x (set_rq true) in
  Ok (set_proc_num q (u32 (proc_num q + 1)), t).

Definition stride_dequeue (q : run_queue) (t : ptable) (x : ptr) : res (run_queue * ptable) :=
  let! (r, h) := skew_heap_remove (proc_stride_comp_f t) (pool q) (lab6_run_pool q) x in
  let q := set_pool q r h in
  Ok (set_proc_num q (u32 (proc_num q - 1)), t).

Definition stride_pick_next (q : run_queue) (t : ptable) : res (option ptr * ptable) :=
  match lab6_run_pool q with
  | None => Ok (None, t)
  | Some x =>
      let! p := get_proc t x in
      let! t := if lab6_priority p =? 0
                then upd_proc t x (set_lab6_stride (u32 (lab6_stride p + BIG_STRIDE)))
                else upd_proc t x (set_lab6_stride (u32 (lab6_stride p + BIG_STRIDE / lab6_priority p))) in
      Ok (Some x, t)
  end.

Definition stride_proc_tick (q : run_queue) (t : ptable) (x : ptr) : res ptable :=
  let! p := get_proc t x in
  let! t := if 0 <? time_slice p then upd_proc t x (set_time_slice (time_slice p - 1)) else Ok t in
  let! p := get_proc t x in
  if time_slice p =? 0 then upd_proc t x (set_need_resched true) else Ok t.

(** ** The stride scheduler is a scheduling class *)

Definition pool_rep (q : run_queue) (tr : @tree ptr) (l : list ptr) : Prop :=
  heap_at (pool q) tr (lab6_run_pool q) None ∧ NoDup (nodes tr) ∧ nodes tr ≡ₚ l ∧
  proc_num q = u32 (Z.of_nat (length l)).

#[export] Instance pool_rep_proper q tr : Proper (Permutation ==> iff) (pool_rep q tr).
Proof. intros l l' Hl. unfold pool_rep. by rewrite Hl. Qed.

Lemma u32_incr n : u32 (u32 n + 1) = u32 (n + 1).
Proof. apply u32_add_u32_l. Qed.

Lemma u32_decr n : u32 (u32 (n + 1) - 1) = u32 n.
Proof. unfold u32. rewrite Zminus_mod_idemp_l. by replace (n + 1 - 1) with n by lia. Qed.

Lemma enqueue_slice_frame (m : Z) t x p :
  t !! x = Some p →
  ∃ p', (let! t := if (time_slice p =? 0) || (m <? time_slice p)
                   then upd_proc t x (set_time_slice m) else Ok t in
         upd_proc t x (set_rq true)) = Ok (<[x := p']> t) ∧
    same_but_sched p p' ∧ lab6_stride p' = lab6_stride p ∧ rq p' = true ∧
    time_slice p' = (if (time_slice p =? 0) || (m <? time_slice p) then m else time_slice p).
Proof.
  intros Hx. destruct ((time_slice p =? 0) || (m <? time_slice p)).
  - rewrite (upd_proc_ok _ _ _ _ Hx). cbn [bind].
    rewrite (upd_proc_ok _ _ (set_time_slice m p)) by apply lookup_insert_eq.
    rewrite insert_insert_eq. by eexists.
  - cbn [bind]. rewrite (upd_proc_ok _ _ _ _ Hx). by eexists.
Qed.

Lemma sched_frame_insert t x p p' :
  t !! x = Some p → same_but_sched p p' → sched_frame x t (<[x := p']> t).
Proof.
  intros Hx Hp. split; [intros y Hy; by apply lookup_insert_ne|].
  intros p0 Hp0. exists p'. rewrite lookup_insert_eq. split; [done|]. by simplify_eq.
Qed.

Lemma stride_enqueue_ok q t x p tr l :
  pool_rep q tr l → x ∉ l → t !! x = Some p →
  ∃ q' p', stride_enqueue q t x = Ok (q', <[x := p']> t) ∧
    pool_rep q' (tmerge (proc_stride_comp_f t) tr (Node x Leaf Leaf)) (x :: l) ∧
    same_but_sched p p' ∧ lab6_stride p' = lab6_stride p ∧ max_time_slice q' = max_time_slice q.
Proof.
  intros (Hh & Hnd & Hp & Hn) Hx Hpx. unfold stride_enqueue.
  assert (x ∉ nodes tr) as Hxt by by rewrite Hp.
  destruct (skew_heap_insert_refines (proc_stride_comp_f t) _ _ _ _ Hh Hnd Hxt) as (h' & -> & Hh' & _).
  set (tr' := tmerge _ _ _) in *. set (q' := set_pool q (root tr') h').
  assert (pool_rep (set_proc_num q' (u32 (proc_num q' + 1))) tr' (x :: l)) as Hrep.
  { assert (nodes tr' ≡ₚ x :: l) as Hp'.
    { unfold tr'. rewrite tmerge_nodes. cbn. by rewrite Permutation_app_comm, Hp. }
    split_and!; [done| |done|].
    - rewrite Hp'. apply NoDup_cons. split; [done|by rewrite <- Hp].
    - cbn. rewrite Hn, u32_incr. f_equal. lia. }
  destruct (enqueue_slice_frame (max_time_slice q) t x p Hpx) as (p' & Hrun & Hsame & Hs & _ & _).
  exists (set_proc_num q' (u32 (proc_num q' + 1))), p'. split; [|done].
  cbn [bind]. rewrite (get_proc_ok _ _ _ Hpx). cbn [bind].
  change (max_time_slice (set_pool q (root tr') h')) with (max_time_slice q).
  destruct ((time_slice p =? 0) || (max_time_slice q <? time_slice p));
    [rewrite (upd_proc_ok _ _ _ _ Hpx) in Hrun |- *|]; cbn [bind] in Hrun |- *; by rewrite Hrun.
Qed.

Lemma stride_dequeue_ok q t x tr l :
  pool_rep q tr (x :: l) →
  ∃ q', stride_dequeue q t x = Ok (q', t) ∧
    pool_rep q' (tremove (proc_stride_comp_f t) x tr) l ∧ max_time_slice q' = max_time_slice q.
Proof.
  intros (Hh & Hnd & Hp & Hn). unfold stride_dequeue.
  assert (x ∈ nodes tr) as Hxt by (rewrite Hp; set_solver).
  destruct (skew_heap_remove_refines (proc_stride_comp_f t) _ _ _ _ Hh Hnd Hxt) as (h' & -> & Hh' & _).
  cbn [bind]. eexists. split; [done|]. split; [|done].
  pose proof (tremove_nodes (proc_stride_comp_f t) _ _ Hnd Hxt) as Hp'.
  assert (nodes (tremove (proc_stride_comp_f t) x tr) ≡ₚ l) as Hpl.
  { apply (Permutation_cons_inv (a := x)). by rewrite <- Hp'. }
  split_and!; [done| |done|].
  - rewrite Hp' in Hnd. by apply NoDup_cons in Hnd as [_ ?].
  - cbn. rewrite Hn. cbn [length]. rewrite Nat2Z.inj_succ. unfold Z.succ. by rewrite u32_decr.
Qed.

(** The amount a process advances when it is chosen. *)
Definition pass (p : proc_struct) : Z :=
  if lab6_priority p =? 0 then BIG_STRIDE else BIG_STRIDE / lab6_priority p.

Lemma stride_pick_ok q t x p :
  lab6_run_pool q = Some x → t !! x = Some p →
  stride_pick_next q t = Ok (Some x, <[x := set_lab6_stride (u32 (lab6_stride p + pass p)) p]> t).
Proof.
  intros Hr Hx. unfold stride_pick_next, pass. rewrite Hr, (get_proc_ok _ _ _ Hx). cbn [bind].
  destruct (lab6_priority p =? 0); by rewrite (upd_proc_ok _ _ _ _ Hx).
Qed.

Lemma stride_tick_ok q t x p :
  t !! x = Some p →
  ∃ p', stride_proc_tick q t x = Ok (<[x := p']> t) ∧
    set_need_resched false (set_time_slice 0 p') = set_need_resched false (set_time_slice 0 p) ∧
    time_slice p' = (if 0 <? time_slice p then time_slice p - 1 else time_slice p) ∧
    need_resched p' = (time_slice p' =? 0) || need_resched p.
Proof.
  intros Hx. unfold stride_proc_tick. rewrite (get_proc_ok _ _ _ Hx). cbn [bind].
  set (p1 := if 0 <? time_slice p then set_time_slice (time_slice p - 1) p else p).
  assert ((if 0 <? time_slice p then upd_proc t x (set_time_slice (time_slice p - 1)) else Ok t)
    = Ok (<[x := p1]> t)) as ->.
  { unfold p1. destruct (0 <? time_slice p); [by apply upd_proc_ok|by rewrite insert_id]. }
  cbn [bind]. rewrite (get_proc_ok _ _ p1) by apply lookup_insert_eq. cbn [bind].
  exists (if time_slice p1 =? 0 then set_need_resched true p1 else p1).
  split_and!.
  - destruct (time_slice p1 =? 0); [|done].
    rewrite (upd_proc_ok _ _ p1) by apply lookup_insert_eq. by rewrite insert_insert_eq.
  - unfold p1. destruct (0 <? time_slice p), (_ =? 0); done.
  - unfold p1. destruct (0 <? time_slice p); cbn; by destruct (_ =? 0).
  - unfold p1. destruct (0 <? time_slice p); cbn; destruct (_ =? 0) eqn:E; cbn; by rewrite E.
Qed.

#[export, refine] Instance default_sched_class : sched_class run_queue := {
  sc_init := stride_init;
  sc_enqueue := stride_enqueue;
  sc_dequeue := stride_dequeue;
  sc_pick_next := stride_pick_next;
  sc_proc_tick := stride_proc_tick;
  queued q l := ∃ tr, pool_rep q tr l
}.
Proof.
  - intros q l (tr & _ & Hnd & Hp & _). by rewrite <- Hp.
  - intros q l l' (tr & Hq) Hl. exists tr. by rewrite <- Hl.
  - intros q. exists Leaf. split_and!; try done. apply NoDup_nil_2.
  - intros q t l x p (tr & Hq) Hx Hp.
    destruct (stride_enqueue_ok _ _ _ _ _ _ Hq Hx Hp) as (q' & p' & He & Hq' & Hs & _).
    eexists q', _. split; [done|]. split; [by eexists|by eapply sched_frame_insert].
  - intros q t (tr & Hh & _ & Hp & _). apply Permutation_nil_r in Hp.
    destruct tr; [|done]. cbn in Hh. unfold stride_pick_next. by rewrite Hh.
  - intros q t l (tr & Hq) Hl Hdom. pose proof Hq as (Hh & Hnd & Hp & Hn).
    destruct tr as [|x tl tr]; [by apply Permutation_nil_l in Hp|].
    pose proof Hh as [Hroot _]. destruct (Hdom x) as [p Hx]; [rewrite <- Hp; cbn; set_solver|].
    assert (l ≡ₚ x :: (nodes tl ++ nodes tr)) as Hl' by done.
    set (p1 := set_lab6_stride (u32 (lab6_stride p + pass p)) p).
    assert (pool_rep q (Node x tl tr) (x :: nodes tl ++ nodes tr)) as Hq2.
    { by rewrite <- Hl'. }
    destruct (stride_dequeue_ok q (<[x := p1]> t) x _ _ Hq2) as (q' & Hdeq & Hq' & _).
    exists x, (nodes tl ++ nodes tr), (<[x := p1]> t), q', (<[x := p1]> t).
    split; [done|]. split; [by apply stride_pick_ok|]. split; [done|].
    split; [by eexists|by eapply sched_frame_insert].
  - intros q t x p Hx. destruct (stride_tick_ok q t x p Hx) as (p' & ? & ? & _). eauto.
Defined.

(** ** Stride arithmetic

    Strides are 32-bit counters that wrap around.  They are comparable as long
    as all of them lie within [BIG_STRIDE] above a common base. *)

Definition off (t : ptable) (base : Z) (x : ptr) : Z := u32 (stride_of t x - base).

Definition in_window (t : ptable) (base : Z) (x : ptr) : Prop := off t base x ≤ BIG_STRIDE.

Lemma off_range t base x : 0 ≤ off t base x < 2 ^ 32.
Proof. apply u32_range. Qed.

Lemma comp_off t base x y :
  in_window t base x → in_window t base y →
  proc_stride_comp_f t x y =
    (if 0 <? off t base x - off t base y then 1 else
     if off t base x - off t base y =? 0 then 0 else -1).
Proof.
  unfold in_window. intros Hx Hy. pose proof (off_range t base x). pose proof (off_range t base y).
  assert (i32 (stride_of t x - stride_of t y) = off t base x - off t base y) as Hc.
  { rewrite <- (i32_small (off t base x - off t base y)) by (unfold BIG_STRIDE in *; lia).
    rewrite <- (i32_u32 (stride_of t x - _)), <- (i32_u32 (off t base x - _)). f_equal.
    unfold off, u32. rewrite <- Zminus_mod. f_equal. lia. }
  unfold proc_stride_comp_f. by rewrite Hc.
Qed.

Lemma comp_before t base x y :
  in_window t base x → in_window t base y →
  (proc_stride_comp_f t x y = -1 ↔ off t base x < off t base y).
Proof.
  intros Hx Hy. rewrite (comp_off _ _ _ _ Hx Hy).
  destruct (Z.ltb_spec 0 (off t base x - off t base y)); [lia|].
  destruct (Z.eqb_spec (off t base x - off t base y) 0); lia.
Qed.

(** The run queue as a heap ordered by stride. *)
Definition stride_queue (q : run_queue) (t : ptable) (base : Z) (l : list ptr) : Prop :=
  ∃ tr, pool_rep q tr l ∧ Forall (in_window t base) l ∧
    heap_ordered (proc_stride_comp_f t) tr.

Lemma window_order t base :
  (∀ x y z, in_window t base x → in_window t base y → in_window t base z →
     not_before (proc_stride_comp_f t) x y → not_before (proc_stride_comp_f t) y z →
     not_before (proc_stride_comp_f t) x z) ∧
  (∀ x y, in_window t base x → in_window t base y →
     proc_stride_comp_f t x y = -1 → not_before (proc_stride_comp_f t) x y).
Proof.
  unfold not_before. split.
  - intros x y z Hx Hy Hz. rewrite !(comp_before t base) by done. lia.
  - intros x y Hx Hy. rewrite !(comp_before t base) by done. lia.
Qed.

Lemma stride_of_insert t x p y : stride_of (<[x := p]> t) y = if decide (x = y) then lab6_stride p else stride_of t y.
Proof. unfold stride_of. case_decide; by simplify_map_eq. Qed.

Lemma comp_insert t x p a b :
  a ≠ x → b ≠ x → proc_stride_comp_f (<[x := p]> t) a b = proc_stride_comp_f t a b.
Proof. intros. unfold proc_stride_comp_f. by rewrite !stride_of_insert, !decide_False. Qed.

Lemma comp_insert_same t x p p' a b :
  t !! x = Some p → lab6_stride p' = lab6_stride p →
  proc_stride_comp_f (<[x := p']> t) a b = proc_stride_comp_f t a b.
Proof.
  intros Hx Hs. unfold proc_stride_comp_f.
  assert (∀ y, stride_of (<[x := p']> t) y = stride_of t y) as Hy; [|by rewrite !Hy].
  intros y. rewrite stride_of_insert. case_decide; [|done]. subst. unfold stride_of. by rewrite Hx.
Qed.

Lemma stride_queue_enqueue q t base l x p :
  stride_queue q t base l → x ∉ l → t !! x = Some p → in_window t base x →
  ∃ q' p', stride_enqueue q t x = Ok (q', <[x := p']> t) ∧
    stride_queue q' (<[x := p']> t) base (x :: l) ∧ same_but_sched p p' ∧ lab6_stride p' = lab6_stride p.
Proof.
  intros (tr & Hq & Hw & Ho) Hx Hp Hxw.
  destruct (stride_enqueue_ok _ _ _ _ _ _ Hq Hx Hp) as (q' & p' & He & Hq' & Hs & Hst & _).
  exists q', p'. split; [done|]. split; [|done]. eexists. split; [done|].
  destruct (window_order t base) as [Htr Hbn]. split.
  - rewrite Forall_cons. unfold in_window, off in *.
    assert (∀ y, stride_of (<[x := p']> t) y = stride_of t y) as Hsame.
    { intros y. rewrite stride_of_insert. case_decide; [|done]. subst. unfold stride_of. by rewrite Hp. }
    rewrite Hsame. split; [done|]. eapply Forall_impl; [done|]. intros y. by rewrite Hsame.
  - eapply heap_ordered_ext; [intros a b _ _; by apply (comp_insert_same t x p)|].
    destruct Hq as (_ & _ & Hn & _).
    apply (tmerge_ordered _ (in_window t base)); try done.
    + by rewrite Hn.
    + cbn. by constructor.
Qed.

Lemma pass_range p : 0 ≤ lab6_priority p → 0 ≤ pass p ≤ BIG_STRIDE.
Proof.
  intros Hpri. unfold pass, BIG_STRIDE. destruct (Z.eqb_spec (lab6_priority p) 0); [lia|].
  split; [apply Z.div_pos; lia|apply Z.div_le_upper_bound; nia].
Qed.

(** The window can be moved up to the stride of any member it does not cut off. *)
Lemma window_rebase t base x y :
  in_window t base y → off t base x ≤ off t base y →
  u32 (stride_of t y - stride_of t x) ≤ BIG_STRIDE.
Proof.
  unfold in_window. intros Hy Hle. pose proof (off_range t base x). pose proof (off_range t base y).
  assert (u32 (stride_of t y - stride_of t x) = u32 (off t base y - off t base x)) as ->.
  { unfold off, u32. rewrite <- Zminus_mod. f_equal. lia. }
  rewrite u32_small by (unfold BIG_STRIDE in *; lia). lia.
Qed.

Lemma window_advance s d : 0 ≤ d ≤ BIG_STRIDE → u32 (u32 (s + d) - s) ≤ BIG_STRIDE.
Proof.
  intros Hd. unfold u32. rewrite Zminus_mod_idemp_l. replace (s + d - s) with d by lia.
  rewrite Z.mod_small; unfold BIG_STRIDE in *; lia.
Qed.

(** One scheduling decision: the chosen process has the smallest stride, and
    after its stride has advanced everything lies in the window above the
    stride it had, so the next comparisons are exact again. *)
Lemma stride_queue_pick q t base l :
  stride_queue q t base l → l ≠ [] → (∀ x, x ∈ l → ∃ p, t !! x = Some p ∧ 0 ≤ lab6_priority p) →
  ∃ x p l' q', let t' := <[x := set_lab6_stride (u32 (lab6_stride p + pass p)) p]> t in
    t !! x = Some p ∧ l ≡ₚ x :: l' ∧ stride_pick_next q t = Ok (Some x, t') ∧
    stride_dequeue q t' x = Ok (q', t') ∧
    (∀ y, y ∈ l → off t base x ≤ off t base y) ∧
    stride_queue q' t' (stride_of t x) l' ∧ in_window t' (stride_of t x) x.
Proof.
  intros (tr & Hq & Hw & Ho) Hl Hdom. pose proof Hq as (Hh & Hnd & Hp & Hn).
  destruct tr as [|x tl tr]; [by apply Permutation_nil_l in Hp|].
  pose proof Hh as [Hroot _].
  assert (l ≡ₚ x :: (nodes tl ++ nodes tr)) as Hl' by done.
  destruct (Hdom x) as (p & Hx & Hpri); [rewrite Hl'; set_solver|].
  set (t' := <[x := set_lab6_stride (u32 (lab6_stride p + pass p)) p]> t).
  assert (Hq2 := Hq). rewrite Hl' in Hq2.
  destruct (stride_dequeue_ok q t' x _ _ Hq2) as (q' & Hdeq & Hq' & _).
  exists x, p, (nodes tl ++ nodes tr), q'. split; [done|]. split; [done|].
  split; [by apply stride_pick_ok|]. split; [done|].
  rewrite Hl' in Hw. apply Forall_cons in Hw as [Hxw Hw].
  cbn [heap_ordered] in Ho. destruct Ho as (Hmin & Hol & Hor).
  assert (∀ y, y ∈ nodes tl ++ nodes tr → off t base x ≤ off t base y) as Hle.
  { intros y Hy. rewrite Forall_forall in Hmin, Hw. specialize (Hmin y Hy). unfold not_before in Hmin.
    rewrite (comp_before t base) in Hmin by auto. lia. }
  apply NoDup_cons in Hnd as [Hxn Hnd]. pose proof Hnd as (Hndl & Hdis & Hndr)%NoDup_app.
  assert (stride_of t x = lab6_stride p) as Hsx by (unfold stride_of; by rewrite Hx).
  assert (∀ y, y ∈ nodes tl ++ nodes tr → in_window t' (stride_of t x) y) as Hw'.
  { intros y Hy. unfold in_window, off, t'. rewrite stride_of_insert, decide_False by set_solver.
    rewrite Forall_forall in Hw. apply (window_rebase t base); auto. }
  assert (in_window t' (stride_of t x) x) as Hxw'.
  { unfold in_window, off, t'. rewrite stride_of_insert, decide_True, Hsx by done.
    by apply window_advance, pass_range. }
  split; [intros y Hy; rewrite Hl' in Hy; apply elem_of_cons in Hy as [->|Hy]; auto; lia|].
  split; [|done]. cbn [tremove] in Hq'. rewrite decide_True in Hq' by done.
  eexists. split; [exact Hq'|]. split; [by apply Forall_forall|].
  destruct (window_order t' (stride_of t x)) as [Htr Hbn].
  apply (tmerge_ordered _ (in_window t' (stride_of t x))); try done.
  - apply Forall_forall. intros y Hy. apply Hw'. set_solver.
  - apply Forall_forall. intros y Hy. apply Hw'. set_solver.
  - eapply heap_ordered_ext; [|exact Hol]. intros a b Ha Hb. apply comp_insert; set_solver.
  - eapply heap_ordered_ext; [|exact Hor]. intros a b Ha Hb. apply comp_insert; set_solver.
Qed.

(** ** Turns: what [schedule] does with the run queue

    The running process goes back to the queue, the next one is picked and
    taken off. *)
Definition stride_turn (q : run_queue) (t : ptable) (c : ptr) : res (run_queue * ptable * option ptr) :=
  let! (q, t) := stride_enqueue q t c in
  let! (o, t) := stride_pick_next q t in
  match o with
  | None => Ok (q, t, None)
  | Some x => let! (q, t) := stride_dequeue q t x in Ok (q, t, Some x)
  end.

Fixpoint stride_turns (n : nat) (q : run_queue) (t : ptable) (c : ptr) : res (run_queue * ptable * ptr) :=
  match n with
  | O => Ok (q, t, c)
  | S n =>
      let! (q, t, o) := stride_turn q t c in
      let! x := deref o in stride_turns n q t x
  end.

(** The state between two turns: [c] runs, [l] waits. *)
Definition turn_inv (q : run_queue) (t : ptable) (base : Z) (c : ptr) (l : list ptr) : Prop :=
  stride_queue q t base l ∧ c ∉ l ∧ in_window t base c ∧
  ∀ y, y ∈ c :: l → ∃ p, t !! y = Some p ∧ 0 ≤ lab6_priority p.

Lemma same_but_sched_priority p p' : same_but_sched p p' → lab6_priority p' = lab6_priority p.
Proof. unfold same_but_sched. intros Hs. symmetry. exact (f_equal lab6_priority Hs). Qed.

Lemma turn_inv_step q t base c l :
  turn_inv q t base c l →
  ∃ q' t' x l', stride_turn q t c = Ok (q', t', Some x) ∧ c :: l ≡ₚ x :: l' ∧
    (∀ y, y ∈ c :: l → off t base x ≤ off t base y) ∧ turn_inv q' t' (stride_of t x) x l'.
Proof.
  intros (Hq & Hc & Hcw & Hdom). destruct (Hdom c) as (p & Hp & Hpri); [set_solver|].
  destruct (stride_queue_enqueue _ _ _ _ _ _ Hq Hc Hp Hcw) as (q1 & p1 & He & Hq1 & Hs1 & Hst1).
  pose proof (same_but_sched_priority _ _ Hs1) as Hpri1.
  assert (∀ y, stride_of (<[c := p1]> t) y = stride_of t y) as Hsame.
  { intros y. rewrite stride_of_insert. case_decide; [|done]. subst. unfold stride_of. by rewrite Hp. }
  assert (∀ y, y ∈ c :: l → ∃ p, <[c := p1]> t !! y = Some p ∧ 0 ≤ lab6_priority p) as Hdom1.
  { intros y Hy. destruct (decide (c = y)) as [<-|]; simplify_map_eq; [|by apply Hdom].
    eexists. split; [done|]. by rewrite Hpri1. }
  destruct (stride_queue_pick _ _ _ _ Hq1) as (x & px & l' & q2 & Hx & Hl' & Hpick & Hdeq & Hmin & Hq2 & Hw2);
    [done|done|].
  exists q2, (<[x:=set_lab6_stride (u32 (lab6_stride px + pass px)) px]> (<[c:=p1]> t)), x, l'.
  unfold stride_turn. rewrite He. cbn [bind]. rewrite Hpick. cbn [bind]. rewrite Hdeq. cbn [bind].
  rewrite Hsame in Hq2, Hw2. split; [done|]. split; [done|]. split.
  { intros y Hy. specialize (Hmin y Hy). unfold off in *. by rewrite !Hsame in Hmin. }
  split; [done|]. split; [|split; [done|]].
  - assert (NoDup (c :: l)) as Hnd.
    { apply NoDup_cons. split; [done|]. destruct Hq as (tr & (_ & Hndt & Hpt & _) & _). by rewrite <- Hpt. }
    rewrite Hl' in Hnd. by apply NoDup_cons in Hnd as [? _].
  - intros y Hy. rewrite <- Hl' in Hy. destruct (Hdom1 y Hy) as (py & Hpy & Hpry).
    destruct (decide (x = y)) as [<-|]; simplify_map_eq; eauto.
Qed.

(** C21: Whatever the 32-bit stride counters have wrapped around to, as long as
    those of the running and the waiting processes fit in one window of
    [BIG_STRIDE], a turn of the scheduler runs the process with the smallest
    stride (counted from the window's base), and the counters fit again in the
    window above the stride of the process that was chosen. *)
Theorem stride_turn_picks_min q t base c l :
  turn_inv q t base c l →
  ∃ q' t' x l', stride_turn q t c = Ok (q', t', Some x) ∧ c :: l ≡ₚ x :: l' ∧
    (∀ y, y ∈ c :: l → off t base x ≤ off t base y) ∧ turn_inv q' t' (stride_of t x) x l'.
Proof. apply turn_inv_step. Qed.

(** Every number of turns goes through: the heap operations never meet a
    dangling pointer, no process is lost or duplicated, and the strides stay
    comparable. *)
Theorem stride_turns_total n q t base c l :
  turn_inv q t base c l →
  ∃ q' t' c' base' l', stride_turns n q t c = Ok (q', t', c') ∧ c :: l ≡ₚ c' :: l' ∧
    turn_inv q' t' base' c' l'.
Proof.
  revert q t base c l. induction n as [|n IH]; intros q t base c l Hinv.
  { by exists q, t, c, base, l. }
  destruct (turn_inv_step _ _ _ _ _ Hinv) as (q1 & t1 & x & l1 & Ht & Hl1 & _ & Hinv1).
  destruct (IH _ _ _ _ _ Hinv1) as (q' & t' & c' & base' & l' & Hrun & Hl' & Hinv').
  exists q', t', c', base', l'. cbn [stride_turns]. rewrite Ht. cbn [bind deref].
  split_and!; [done| |done]. by rewrite Hl1.
Qed.

(** *** A queue whose strides have wrapped: process 2 waits at stride 3, process
    1 runs at stride [2^32 - 5]. *)
Definition demo_proc (stride pri : Z) : proc_struct :=
  mkProc PROC_RUNNABLE 1 0 0 false None None 0 0 [] 0 0 None None None true 5 stride pri None.
Definition demo_ptable : ptable := {[ 1 := demo_proc (2 ^ 32 - 5) 2; 2 := demo_proc 3 1 ]}.
Definition demo_rq : run_queue := mkRq [] 1 5 (Some 2) {[ 2 := SkewEntry None None None ]}.

Lemma demo_turn_inv : turn_inv demo_rq demo_ptable (2 ^ 32 - 5) 1 [2].
Proof.
  split; [|split; [set_solver|split; [by vm_compute|]]].
  - exists (Node 2 Leaf Leaf). split; [|split; [constructor; [by vm_compute|constructor]|by repeat constructor]].
    split; [split; [done|by exists None, None]|]. split; [apply NoDup_singleton|by vm_compute].
  - intros y Hy. assert (y = 1 ∨ y = 2) as [-> | ->] by set_solver; by eexists.
Qed.

Lemma stride_turn_picks_min_witness :
  ∃ q' t' x l', stride_turn demo_rq demo_ptable 1 = Ok (q', t', Some x) ∧ [1; 2] ≡ₚ x :: l' ∧
    (∀ y, y ∈ [1; 2] → off demo_ptable (2 ^ 32 - 5) x ≤ off demo_ptable (2 ^ 32 - 5) y) ∧
    turn_inv q' t' (stride_of demo_ptable x) x l'.
Proof. exact (stride_turn_picks_min demo_rq demo_ptable _ 1 [2] demo_turn_inv). Defined.

Lemma stride_turns_total_witness :
  ∃ q' t' c' base' l', stride_turns 1000 demo_rq demo_ptable 1 = Ok (q', t', c') ∧
    [1; 2] ≡ₚ c' :: l' ∧ turn_inv q' t' base' c' l'.
Proof. exact (stride_turns_total 1000 demo_rq demo_ptable _ 1 [2] demo_turn_inv). Defined.
