(* ===== verification/Sched.v ===== *)
(** * kern/schedule/sched.c: wake-up, dispatch and timers

    The functions are written over an arbitrary [sched_class], as in the source;
    their theorems use only the laws of that class.  Code between
    [local_intr_save] and [local_intr_restore] is one step.  [timer_list] is the
    sequence of timer addresses in list order; a timer is linked exactly when it
    occurs in it, because its entry is initialised and deleted with
    [list_init] and [list_del_init]. *)

From S2P Require Import Prelude SkewHeap ProcData StrideSched.

Record timer_t := mkTimer { expires : Z; timer_proc : option ptr }.

Definition set_expires (v : Z) (t : timer_t) : timer_t := mkTimer v (timer_proc t).

Record sched_state (RQ : Type) := mkSched {
  procs : ptable;
  current : ptr;
  idleproc : ptr;
  runq : RQ;
  timers : gmap ptr timer_t;
  timer_list : list ptr
}.
Arguments mkSched {RQ}.
Arguments procs {RQ}.
Arguments current {RQ}.
Arguments idleproc {RQ}.
Arguments runq {RQ}.
Arguments timers {RQ}.
Arguments timer_list {RQ}.

Section sched.
Context {RQ : Type} `{sched_class RQ}.
Implicit Types s : sched_state RQ.

Definition set_procs s t := mkSched t (current s) (idleproc s) (runq s) (timers s) (timer_list s).
Definition set_current s p := mkSched (procs s) p (idleproc s) (runq s) (timers s) (timer_list s).
Definition set_runq s (q : RQ) t := mkSched t (current s) (idleproc s) q (timers s) (timer_list s).
Definition set_timers s ts l := mkSched (procs s) (current s) (idleproc s) (runq s) ts l.

Definition sched_class_enqueue s (p : ptr) : res (sched_state RQ) :=
  if decide (p = idleproc s) then Ok s
  else let! (q, t) := sc_enqueue (runq s) (procs s) p in Ok (set_runq s q t).

Definition sched_class_dequeue s (p : ptr) : res (sched_state RQ) :=
  let! (q, t) := sc_dequeue (runq s) (procs s) p in Ok (set_runq s q t).

Definition sched_class_pick_next s : res (option ptr * sched_state RQ) :=
  let! (o, t) := sc_pick_next (runq s) (procs s) in Ok (o, set_procs s t).

Definition sched_class_proc_tick s (p : ptr) : res (sched_state RQ) :=
  if decide (p = idleproc s) then
    let! t := upd_proc (procs s) p (set_need_resched true) in Ok (set_procs s t)
  else let! t := sc_proc_tick (runq s) (procs s) p in Ok (set_procs s t).

Definition wakeup_proc s (p : ptr) : res (sched_state RQ) :=
  let! pr := get_proc (procs s) p in
  assert! bool_decide (state pr ≠ PROC_ZOMBIE) ;;
  if decide (state pr ≠ PROC_RUNNABLE) then
    let! t := upd_proc (procs s) p (set_state PROC_RUNNABLE) in
    let! t := upd_proc t p (set_wait_state 0) in
    let s := set_procs s t in
    if decide (p ≠ current s) then sched_class_enqueue s p else Ok s
  else Ok s.

(** [proc_run] of proc.c: the new process becomes [current]; loading its stack,
    page table and registers is the hardware's part. *)
Definition proc_run s (p : ptr) : sched_state RQ :=
  if decide (p ≠ current s) then set_current s p else s.

(** From [sched_class_pick_next] to [next->runs ++]. *)
Definition dispatch s : res (ptr * sched_state RQ) :=
  let! (next, s) := sched_class_pick_next s in
  let! s := match next with Some p => sched_class_dequeue s p | None => Ok s end in
  let next := default (idleproc s) next in
  let! np := get_proc (procs s) next in
  let! t := upd_proc (procs s) next (set_runs (i32 (runs np + 1))) in
  Ok (next, set_procs s t).

Definition schedule s : res (sched_state RQ) :=
  let! t := upd_proc (procs s) (current s) (set_need_resched false) in
  let s := set_procs s t in
  let! cur := get_proc (procs s) (current s) in
  let! s := if decide (state cur = PROC_RUNNABLE) then sched_class_enqueue s (current s) else Ok s in
  let! (next, s) := dispatch s in
  Ok (if decide (next ≠ current s) then proc_run s next else s).

(** ** Timers

    A timer's [expires] counts from the timer in front of it. *)

Definition get_timer (ts : gmap ptr timer_t) (t : ptr) : res timer_t := deref (ts !! t).

Definition timer_init s (tm : ptr) (p : ptr) (exp : Z) : sched_state RQ :=
  set_timers s (<[tm := mkTimer (u32 exp) (Some p)]> (timers s)) (timer_list s).

(** The loop of [add_timer] over the rest of the list from [le]; at its end or at
    the [break] the timer is put in front of [le]. *)
Fixpoint add_timer_walk (ts : gmap ptr timer_t) (tm : ptr) (l : list ptr)
    : res (gmap ptr timer_t * list ptr) :=
  match l with
  | [] => Ok (ts, [tm])
  | nx :: l' =>
      let! t := get_timer ts tm in
      let! n := get_timer ts nx in
      if expires t <? expires n then
        Ok (<[nx := set_expires (u32 (expires n - expires t)) n]> ts, tm :: l)
      else
        let ts := <[tm := set_expires (u32 (expires t - expires n)) t]> ts in
        let! (ts, l'') := add_timer_walk ts tm l' in
        Ok (ts, nx :: l'')
  end.

Definition add_timer s (tm : ptr) : res (sched_state RQ) :=
  let! t := get_timer (timers s) tm in
  assert! ((0 <? expires t) && bool_decide (timer_proc t ≠ None)) ;;
  assert! bool_decide (tm ∉ timer_list s) ;;
  let! (ts, l) := add_timer_walk (timers s) tm (timer_list s) in
  Ok (set_timers s ts l).

(** The entry after [tm] in the list. *)
Fixpoint next_timer (tm : ptr) (l : list ptr) : option ptr :=
  match l with
  | [] => None
  | x :: l => if decide (x = tm) then head l else next_timer tm l
  end.

Definition del_timer s (tm : ptr) : res (sched_state RQ) :=
  if decide (tm ∈ timer_list s) then
    let! t := get_timer (timers s) tm in
    let! ts :=
      if expires t =? 0 then Ok (timers s)
      else match next_timer tm (timer_list s) with
           | Some nx =>
               let! n := get_timer (timers s) nx in
               Ok (<[nx := set_expires (u32 (expires n + expires t)) n]> (timers s))
           | None => Ok (timers s)
           end in
    Ok (set_timers s ts (filter (λ x, x ≠ tm) (timer_list s)))
  else Ok s.

(** The [while (timer->expires == 0)] loop; [l] is the list from the current
    timer on. *)
Fixpoint run_timer_loop s (l : list ptr) : res (sched_state RQ) :=
  match l with
  | [] => Ok s
  | tm :: l =>
      let! t := get_timer (timers s) tm in
      if expires t =? 0 then
        let! p := deref (timer_proc t) in
        let! pr := get_proc (procs s) p in
        assert! ((wait_state pr =? 0) || negb (Z.land (wait_state pr) WT_INTERRUPTED =? 0)) ;;
        let! s := wakeup_proc s p in
        let! s := del_timer s tm in
        run_timer_loop s l
      else Ok s
  end.

Definition run_timer_list s : res (sched_state RQ) :=
  let! s :=
    match timer_list s with
    | [] => Ok s
    | tm :: l =>
        let! t := get_timer (timers s) tm in
        assert! negb (expires t =? 0) ;;
        let s := set_timers s (<[tm := set_expires (u32 (expires t - 1)) t]> (timers s)) (timer_list s) in
        run_timer_loop s (tm :: l)
    end in
  sched_class_proc_tick s (current s).

(** ** The run-queue invariant

    The run queue holds exactly the runnable processes other than the running
    one and the idle one. *)

Definition runnable (t : ptable) (p : ptr) : Prop := ∃ pr, t !! p = Some pr ∧ state pr = PROC_RUNNABLE.

Definition waiting s (p : ptr) : Prop := runnable (procs s) p ∧ p ≠ current s ∧ p ≠ idleproc s.

Record sched_inv s : Prop := {
  inv_queue : ∃ l, queued (runq s) l ∧ ∀ p, p ∈ l ↔ waiting s p;
  inv_current : is_Some (procs s !! current s);
  inv_idle : runnable (procs s) (idleproc s)
}.

Lemma same_but_sched_state p p' : same_but_sched p p' → state p' = state p.
Proof. unfold same_but_sched. intros Hs. symmetry. exact (f_equal state Hs). Qed.

Lemma same_but_sched_wait p p' : same_but_sched p p' → wait_state p' = wait_state p.
Proof. unfold same_but_sched. intros Hs. symmetry. exact (f_equal wait_state Hs). Qed.

Lemma sched_frame_runnable x t t' p : sched_frame x t t' → is_Some (t !! x) → runnable t' p ↔ runnable t p.
Proof.
  intros [Hne Hx] [px Hpx]. unfold runnable. destruct (decide (p = x)) as [->|]; [|by rewrite Hne].
  destruct (Hx _ Hpx) as (px' & -> & Hs%same_but_sched_state). rewrite Hpx. split.
  - intros (pr & [= <-] & ?). exists px. split; [done|congruence].
  - intros (pr & [= <-] & ?). exists px'. split; [done|congruence].
Qed.

Lemma runnable_insert t x p y : runnable (<[x := p]> t) y ↔ if decide (y = x) then state p = PROC_RUNNABLE else runnable t y.
Proof. unfold runnable. case_decide; [subst|]; simplify_map_eq; naive_solver. Qed.

Lemma upd_runnable t x p f y :
  t !! x = Some p → state (f p) = state p → runnable (<[x := f p]> t) y ↔ runnable t y.
Proof.
  intros Hx Hs. rewrite runnable_insert. case_decide; [|done]. subst. unfold runnable.
  rewrite Hx, Hs. naive_solver.
Qed.

(** What [wakeup_proc] leaves alone. *)
Definition same_rest s s' : Prop :=
  current s' = current s ∧ idleproc s' = idleproc s ∧ timers s' = timers s ∧ timer_list s' = timer_list s.

Lemma wakeup_proc_ok s p pr :
  sched_inv s → procs s !! p = Some pr → state pr ≠ PROC_ZOMBIE →
  ∃ s', wakeup_proc s p = Ok s' ∧ sched_inv s' ∧ same_rest s s' ∧
    (∃ pr', procs s' !! p = Some pr' ∧ state pr' = PROC_RUNNABLE ∧
       (wait_state pr' = 0 ∨ wait_state pr' = wait_state pr)) ∧
    (∀ q, q ≠ p → procs s' !! q = procs s !! q).
Proof.
  intros [(l & Hq & Hl) Hcur Hidle] Hp Hz. unfold wakeup_proc. rewrite (get_proc_ok _ _ _ Hp).
  cbn [bind]. rewrite bool_decide_true by done.
  destruct (decide (state pr ≠ PROC_RUNNABLE)) as [Hnr|Hr].
  2: { exists s. split_and!; try done; [by split; eauto|]. exists pr. split; [done|].
       split; [by destruct (decide (state pr = PROC_RUNNABLE))|by right]. }
  rewrite (upd_proc_ok _ _ _ _ Hp). cbn [bind].
  rewrite (upd_proc_ok _ _ (set_state PROC_RUNNABLE pr)) by apply lookup_insert_eq.
  rewrite insert_insert_eq. cbn [bind]. set (pr' := set_wait_state 0 _). set (t1 := <[p := pr']> (procs s)).
  assert (p ∉ l) as Hpl.
  { intros (( pr0 & ? & ?) & _)%Hl. simplify_eq. }
  assert (∀ q, runnable t1 q ↔ q = p ∨ runnable (procs s) q) as Hrun.
  { intros q. unfold t1. rewrite runnable_insert. case_decide; [|naive_solver]. subst. naive_solver. }
  assert (is_Some (t1 !! current s)) as Hcur1.
  { unfold t1. destruct (decide (p = current s)) as [<-|]; by simplify_map_eq. }
  change (current (set_procs s t1)) with (current s).
  destruct (decide (p ≠ current s)) as [Hpc|Hpc].
  - unfold sched_class_enqueue. cbn [idleproc set_procs runq procs].
    destruct (decide (p = idleproc s)) as [->|Hpi].
    { destruct Hidle as (? & ? & ?). simplify_eq. }
    assert (t1 !! p = Some pr') as Hp1 by apply lookup_insert_eq.
    destruct (enqueue_law _ _ _ _ _ Hq Hpl Hp1) as (q' & t' & -> & Hq' & Hfr). cbn [bind].
    pose proof (λ y, sched_frame_runnable p t1 t' y Hfr ltac:(by eexists)) as Hrun'.
    eexists. split; [done|]. split_and!; cbn; try done.
    + split; cbn.
      * exists (p :: l). split; [done|]. intros y. unfold waiting. cbn.
        rewrite elem_of_cons, Hl, Hrun', Hrun. unfold waiting. naive_solver.
      * destruct Hfr as [Hfr _]. rewrite Hfr by done. done.
      * apply Hrun', Hrun. by right.
    + destruct (proj2 Hfr _ Hp1) as (pr'' & ? & Hs). exists pr''. split; [done|].
      rewrite (same_but_sched_state _ _ Hs), (same_but_sched_wait _ _ Hs). auto.
    + intros q Hqp. destruct Hfr as [Hfr _]. rewrite Hfr by done. unfold t1. by rewrite lookup_insert_ne.
  - assert (p = current s) as -> by (by destruct (decide (p = current s))).
    eexists. split; [done|]. split_and!; cbn; try done.
    + split; cbn; [|done|apply Hrun; by right].
      exists l. split; [done|]. intros y. rewrite Hl. unfold waiting. cbn. rewrite Hrun. naive_solver.
    + exists pr'. split; [apply lookup_insert_eq|auto].
    + intros q Hqp. unfold t1. by rewrite lookup_insert_ne.
Qed.

(** Dispatch: a runnable process is chosen, the idle process only when no other
    process is runnable. *)
Lemma dispatch_ok s l :
  queued (runq s) l → (∀ p, p ∈ l → runnable (procs s) p ∧ p ≠ idleproc s) → runnable (procs s) (idleproc s) →
  ∃ next l' s', dispatch s = Ok (next, s') ∧
    queued (runq s') l' ∧ same_rest s s' ∧ (∀ p, runnable (procs s') p ↔ runnable (procs s) p) ∧
    (∀ p, is_Some (procs s !! p) → is_Some (procs s' !! p)) ∧ runnable (procs s) next ∧
    ((next = idleproc s ∧ l = [] ∧ l' = []) ∨ l ≡ₚ next :: l').
Proof.
  intros Hq Hl Hidle. unfold dispatch, sched_class_pick_next, sched_class_dequeue.
  destruct (decide (l = [])) as [->|Hne].
  - rewrite (pick_empty_law _ _ Hq). cbn. destruct Hidle as (ip & Hip & Hst).
    rewrite (get_proc_ok _ _ _ Hip). cbn [bind]. rewrite (upd_proc_ok _ _ _ _ Hip). cbn [bind].
    eexists _, [], _. split_and!; try done; cbn.
    + intros p. by apply upd_runnable.
    + intros p Hp. destruct (decide (idleproc s = p)) as [<-|]; by simplify_map_eq.
    + by exists ip.
    + by left.
  - destruct (pick_dequeue_law (runq s) (procs s) l) as (x & l' & t' & q' & t'' & Hp & Hpick & Hdeq & Hq' & Hfr);
      [done..| |].
    { intros x Hx. destruct (Hl x Hx) as [(? & ? & _) _]. by eexists. }
    rewrite Hpick. cbn. rewrite Hdeq. cbn.
    destruct (Hl x) as [(px & Hpx & Hst) _]; [rewrite Hp; set_solver|].
    destruct (proj2 Hfr _ Hpx) as (px'' & Hpx'' & Hs%same_but_sched_state).
    rewrite (get_proc_ok _ _ _ Hpx''). cbn [bind]. rewrite (upd_proc_ok _ _ _ _ Hpx''). cbn [bind].
    eexists _, l', _. split_and!; try done; cbn.
    + intros p. rewrite (upd_runnable t'' x px'') by done.
      apply (sched_frame_runnable x); [done|by eexists].
    + intros p Hpp. destruct (decide (x = p)) as [<-|]; simplify_map_eq; [done|].
      destruct Hfr as [Hfr _]. by rewrite Hfr.
    + by exists px.
    + by right.
Qed.

(** The state in which the next process is picked: the running process is back
    in the queue if it is still runnable. *)
Lemma requeue_ok s t1 l pc :
  queued (runq s) l → (∀ p, p ∈ l ↔ waiting s p) → procs s !! current s = Some pc →
  (∀ p, runnable t1 p ↔ runnable (procs s) p) →
  t1 !! current s = Some (set_need_resched false pc) → runnable (procs s) (idleproc s) →
  ∃ s1 l1, (if decide (state pc = PROC_RUNNABLE) then sched_class_enqueue (set_procs s t1) (current s)
            else Ok (set_procs s t1)) = Ok s1 ∧
    queued (runq s1) l1 ∧ same_rest s s1 ∧ (∀ p, runnable (procs s1) p ↔ runnable (procs s) p) ∧
    is_Some (procs s1 !! current s) ∧
    (∀ p, p ∈ l1 ↔ runnable (procs s) p ∧ p ≠ idleproc s).
Proof.
  intros Hq Hl Hpc Hrun1 Hpc1 Hidle.
  case_decide as Hst; [unfold sched_class_enqueue; cbn [idleproc set_procs runq procs];
      destruct (decide (current s = idleproc s)) as [Hci|Hci]|].
    - exists (set_procs s t1), l. split_and!; try done. intros p. rewrite Hl. unfold waiting.
      rewrite Hci. naive_solver.
    - assert (current s ∉ l) as Hnl by (rewrite Hl; intros (_ & ? & _); done).
      destruct (enqueue_law _ _ _ _ _ Hq Hnl Hpc1) as (q' & t' & -> & Hq' & Hfr). cbn [bind].
      exists (set_runq (set_procs s t1) q' t'), (current s :: l). split_and!; try done; cbn.
      + intros p. rewrite (sched_frame_runnable _ _ _ p Hfr) by by eexists. apply Hrun1.
      + destruct (proj2 Hfr _ Hpc1) as (p' & -> & _). done.
      + intros p. rewrite elem_of_cons, Hl. unfold waiting.
        destruct (decide (p = current s)) as [->|]; [|naive_solver].
        split; [intros _|by left]. split; [|done]. by exists pc.
    - exists (set_procs s t1), l. split_and!; try done. intros p. rewrite Hl. unfold waiting.
      split; [naive_solver|]. intros [Hr Hi]. split_and!; try done. intros ->.
      destruct Hr as (pr & ? & ?). simplify_eq.
Qed.

Lemma schedule_step s :
  sched_inv s →
  ∃ s', schedule s = Ok s' ∧ sched_inv s' ∧ runnable (procs s') (current s') ∧
    idleproc s' = idleproc s ∧ timers s' = timers s ∧ timer_list s' = timer_list s ∧
    (∀ p, runnable (procs s') p ↔ runnable (procs s) p) ∧
    (current s' = idleproc s → ∀ p, runnable (procs s) p → p = idleproc s).
Proof.
  intros [(l & Hq & Hl) [pc Hpc] Hidle]. unfold schedule.
  rewrite (upd_proc_ok _ _ _ _ Hpc). cbn [bind]. set (t1 := <[_ := _]> _).
  assert (∀ p, runnable t1 p ↔ runnable (procs s) p) as Hrun1 by (intros p; by apply upd_runnable).
  assert (t1 !! current s = Some (set_need_resched false pc)) as Hpc1 by apply lookup_insert_eq.
  cbn [current set_procs procs]. rewrite (get_proc_ok _ _ _ Hpc1). cbn [bind].
  change (state (set_need_resched false pc)) with (state pc).
  destruct (requeue_ok s t1 l pc Hq Hl Hpc Hrun1 Hpc1 Hidle) as (s1 & l1 & -> & Hq1 & Hrest1 & Hrs1 & Hcur1 & Hl1).
  cbn [bind]. destruct Hrest1 as (Hc1 & Hi1 & Ht1 & Htl1).
  destruct (dispatch_ok s1 l1 Hq1) as (next & l2 & s2 & -> & Hq2 & (Hc2 & Hi2 & Ht2 & Htl2) & Hrs2 & Hdom2 & Hnext & Hcase).
  { intros p Hp%Hl1. rewrite Hrs1, Hi1. done. }
  { by rewrite Hrs1, Hi1. }
  cbn [bind]. assert (∀ p, runnable (procs s2) p ↔ runnable (procs s) p) as Hrs by (intros p; by rewrite Hrs2).
  set (s3 := if decide (next ≠ current s2) then proc_run s2 next else s2).
  assert (current s3 = next ∧ procs s3 = procs s2 ∧ runq s3 = runq s2 ∧ idleproc s3 = idleproc s ∧
    timers s3 = timers s ∧ timer_list s3 = timer_list s) as (Hc3 & Hp3 & Hq3 & Hi3 & Ht3 & Htl3).
  { unfold s3, proc_run. destruct (decide (next ≠ current s2)); cbn; split_and!; try congruence.
    by destruct (decide (next = current s2)). }
  exists s3. rewrite Hp3. split_and!; [done| |by rewrite Hc3, Hrs2|done..|].
  - split; rewrite ?Hq3, ?Hp3, ?Hi3, ?Hc3.
    + exists l2. split; [done|]. intros p. unfold waiting. rewrite Hp3, Hc3, Hi3, Hrs.
      destruct Hcase as [(Hn & -> & ->)|Hperm].
      * split; [by intros ?%elem_of_nil|]. intros (Hr & Hn1 & Hn2).
        by assert (p ∈ []) as ?%elem_of_nil by by apply Hl1.
      * assert (NoDup (next :: l2)) as Hnd by (rewrite <- Hperm; by eapply queued_nodup).
        apply NoDup_cons in Hnd as [Hnd _].
        assert (p ∈ l1 ↔ p = next ∨ p ∈ l2) as Hpl by (rewrite Hperm, elem_of_cons; done).
        rewrite Hl1 in Hpl. naive_solver.
    + destruct Hnext as (? & ? & _). apply Hdom2. by eexists.
    + apply Hrs. done.
  - rewrite Hc3. intros Hn p Hr. destruct (decide (p = idleproc s)) as [|Hp]; [done|].
    destruct Hcase as [(_ & -> & _)|Hperm].
    + by assert (p ∈ []) as ?%elem_of_nil by by apply Hl1.
    + assert (next ∈ l1) as [_ Hni]%Hl1 by (rewrite Hperm; set_solver). done.
Qed.

(** ** Deadlines

    The absolute time of a timer is the sum of the [expires] fields up to it. *)

Definition exp_of (ts : gmap ptr timer_t) (x : ptr) : Z := from_option expires 0 (ts !! x).

Fixpoint deadlines (ts : gmap ptr timer_t) (acc : Z) (l : list ptr) : list (ptr * Z) :=
  match l with
  | [] => []
  | x :: l => (x, acc + exp_of ts x) :: deadlines ts (acc + exp_of ts x) l
  end.

Definition timer_ok (ts : gmap ptr timer_t) (x : ptr) : Prop :=
  ∃ t, ts !! x = Some t ∧ 0 ≤ expires t ∧ timer_proc t ≠ None.

Record timers_inv (ts : gmap ptr timer_t) (l : list ptr) : Prop := {
  ti_nodup : NoDup l;
  ti_ok : Forall (timer_ok ts) l;
  ti_head : ∀ d, head (deadlines ts 0 l) = Some d → 0 < d.2;
  ti_u32 : Forall (λ d, d.2 < 2 ^ 32) (deadlines ts 0 l)
}.

Lemma deadlines_ext ts ts' acc l :
  (∀ x, x ∈ l → exp_of ts' x = exp_of ts x) → deadlines ts' acc l = deadlines ts acc l.
Proof.
  revert acc. induction l as [|x l IH]; intros acc Hx; simpl; [done|].
  rewrite Hx by set_solver. f_equal. apply IH. set_solver.
Qed.

Lemma deadlines_ge ts acc l : Forall (timer_ok ts) l → Forall (λ d, acc ≤ d.2) (deadlines ts acc l).
Proof.
  intros Hok. revert acc. induction Hok as [|x l (t & Hx & Ht & _) _ IH]; intros acc; simpl; [constructor|].
  assert (0 ≤ exp_of ts x) by (unfold exp_of; rewrite Hx; done).
  constructor; simpl; [lia|]. eapply Forall_impl; [apply IH|]. simpl. intros; lia.
Qed.

Lemma deadlines_fst ts acc l : fst <$> deadlines ts acc l = l.
Proof. revert acc. induction l as [|x l IH]; intros acc; simpl; [done|]. by rewrite IH. Qed.

Lemma exp_of_insert ts x t y : exp_of (<[x := t]> ts) y = if decide (y = x) then expires t else exp_of ts y.
Proof. unfold exp_of. case_decide; [subst|]; by simplify_map_eq. Qed.

Lemma exp_of_some ts x t : ts !! x = Some t → exp_of ts x = expires t.
Proof. unfold exp_of. by intros ->. Qed.

Lemma timer_ok_insert ts x t y :
  timer_ok ts y → 0 ≤ expires t → timer_proc t ≠ None → timer_ok (<[x := t]> ts) y.
Proof.
  intros (t' & Hy & ? & ?) ??. destruct (decide (y = x)) as [->|]; [exists t|exists t']; by simplify_map_eq.
Qed.

(** The walk inserts the timer at its deadline and moves no other deadline. *)
Lemma add_timer_walk_ok tm t l ts acc :
  NoDup l → tm ∉ l → ts !! tm = Some t → 0 ≤ expires t < 2 ^ 32 → timer_proc t ≠ None →
  Forall (timer_ok ts) l → Forall (λ d, d.2 < acc + 2 ^ 32) (deadlines ts acc l) →
  ∃ ts' l' d1 d2, add_timer_walk ts tm l = Ok (ts', l') ∧
    deadlines ts acc l = d1 ++ d2 ∧ deadlines ts' acc l' = d1 ++ (tm, acc + expires t) :: d2 ∧
    Forall (λ d, d.2 ≤ acc + expires t) d1 ∧ Forall (λ d, acc + expires t < d.2) d2 ∧
    l' ≡ₚ tm :: l ∧ Forall (timer_ok ts') l' ∧ (∀ x, x ∉ tm :: l → ts' !! x = ts !! x).
Proof.
  revert ts t acc. induction l as [|nx l IH]; intros ts t acc Hnd Htm Ht He Hp Hok Hlt.
  { exists ts, [tm], [], []. simpl. rewrite (exp_of_some _ _ _ Ht).
    split_and!; try done; try constructor; [|done]. by exists t; split_and!; [|lia|]. }
  apply NoDup_cons in Hnd as [Hnx Hnd]. pose proof Hok as [(n & Hn & Hn0 & Hnp) Hok']%Forall_cons.
  cbn [add_timer_walk]. unfold get_timer. rewrite Ht, Hn. cbn [deref bind].
  pose proof (exp_of_some _ _ _ Hn) as Hen. cbn [deadlines] in Hlt. rewrite Hen in Hlt.
  apply Forall_cons in Hlt as [Hlt0 Hlt]. simpl in Hlt0.
  destruct (Z.ltb_spec (expires t) (expires n)) as [Hc|Hc].
  - rewrite u32_small by lia. set (ts' := <[nx := _]> ts).
    exists ts', (tm :: nx :: l), [], (deadlines ts acc (nx :: l)).
    assert (exp_of ts' tm = expires t) as Het.
    { unfold ts'. rewrite exp_of_insert, decide_False by set_solver. by apply exp_of_some. }
    assert (exp_of ts' nx = expires n - expires t) as Het2.
    { unfold ts'. by rewrite exp_of_insert, decide_True. }
    split_and!; try done.
    + cbn [deadlines app]. rewrite Het, Het2, Hen. f_equal.
      replace (acc + expires t + (expires n - expires t)) with (acc + expires n) by lia.
      f_equal. apply deadlines_ext. intros x Hx. unfold ts'. rewrite exp_of_insert, decide_False; set_solver.
    + cbn [deadlines]. rewrite Hen. constructor; simpl; [lia|].
      eapply Forall_impl; [by apply deadlines_ge|]. simpl. intros; lia.
    + constructor; [|eapply Forall_impl; [done|]; intros; by apply timer_ok_insert; simpl; try lia].
      exists t. unfold ts'. rewrite lookup_insert_ne by set_solver. split_and!; [done|lia|done].
    + intros x Hx. unfold ts'. rewrite lookup_insert_ne; set_solver.
  - rewrite u32_small by lia. set (t1 := set_expires _ t). set (ts1 := <[tm := t1]> ts).
    assert (∀ x, x ≠ tm → exp_of ts1 x = exp_of ts x) as Hext.
    { intros x Hx. unfold ts1. by rewrite exp_of_insert, decide_False. }
    destruct (IH ts1 t1 (acc + expires n)) as (ts' & l' & d1 & d2 & -> & Hd & Hd' & Hd1 & Hd2 & Hl' & Hok1 & Hfr).
    + done.
    + set_solver.
    + apply lookup_insert_eq.
    + simpl. lia.
    + done.
    + eapply Forall_impl; [done|]. intros; by apply timer_ok_insert; simpl; try lia.
    + rewrite (deadlines_ext ts) by (intros; apply Hext; set_solver).
      eapply Forall_impl; [done|]. simpl. intros; lia.
    + cbn [bind]. assert (expires t1 = expires t - expires n) as Et1 by done. rewrite Et1 in *.
      replace (acc + expires n + (expires t - expires n)) with (acc + expires t) in * by lia.
      rewrite (deadlines_ext ts ts1) in Hd by (intros; apply Hext; set_solver).
      assert (ts' !! nx = Some n) as Hn'.
      { rewrite Hfr by set_solver. unfold ts1. rewrite lookup_insert_ne; set_solver. }
      exists ts', (nx :: l'), ((nx, acc + expires n) :: d1), d2. split_and!; try done.
      * cbn [deadlines app]. by rewrite Hen, Hd.
      * cbn [deadlines app]. by rewrite (exp_of_some _ _ _ Hn'), Hd'.
      * constructor; simpl; [lia|done].
      * rewrite Hl'. apply Permutation_swap.
      * constructor; [|done]. by exists n.
      * intros x Hx. rewrite Hfr by set_solver. unfold ts1. rewrite lookup_insert_ne; set_solver.
Qed.

Lemma add_timer_step s tm t :
  timers_inv (timers s) (timer_list s) → tm ∉ timer_list s → timers s !! tm = Some t →
  0 < expires t < 2 ^ 32 → timer_proc t ≠ None →
  ∃ s' d1 d2, add_timer s tm = Ok s' ∧ timers_inv (timers s') (timer_list s') ∧
    deadlines (timers s) 0 (timer_list s) = d1 ++ d2 ∧
    deadlines (timers s') 0 (timer_list s') = d1 ++ (tm, expires t) :: d2 ∧
    Forall (λ d, d.2 ≤ expires t) d1 ∧ Forall (λ d, expires t < d.2) d2.
Proof.
  intros [Hnd Hok Hhd Hu] Htm Ht He Hp. unfold add_timer, get_timer. rewrite Ht. cbn [deref bind].
  destruct (Z.ltb_spec 0 (expires t)); [|lia]. rewrite !bool_decide_true by done. cbn [andb].
  destruct (add_timer_walk_ok tm t (timer_list s) (timers s) 0)
    as (ts' & l' & d1 & d2 & -> & Hd & Hd' & Hd1 & Hd2 & Hl' & Hok' & Hfr); [done..|lia|done|done|done|].
  cbn [bind]. rewrite Z.add_0_l in *. exists (set_timers s ts' l'), d1, d2. cbn [timers timer_list set_timers].
  split_and!; try done. split; try done.
  - rewrite Hl'. by apply NoDup_cons.
  - rewrite Hd'. rewrite Hd in Hhd. destruct d1; simpl in *; [intros d [= <-]; simpl; lia|done].
  - rewrite Hd'. rewrite Hd in Hu. apply Forall_app in Hu as [??]. apply Forall_app. split; [done|].
    constructor; [simpl; lia|done].
Qed.

(** Deleting: the time the timer contributed goes to the next one. *)
Lemma next_timer_cons_ne tm x l : x ≠ tm → next_timer tm (x :: l) = next_timer tm l.
Proof. intros. simpl. by rewrite decide_False. Qed.

Definition del_expires (ts : gmap ptr timer_t) (tm : ptr) (l : list ptr) : gmap ptr timer_t :=
  match next_timer tm l with
  | Some nx => alter (λ n, set_expires (u32 (expires n + exp_of ts tm)) n) nx ts
  | None => ts
  end.

Lemma exp_of_alter ts nx f y :
  is_Some (ts !! nx) → exp_of (alter f nx ts) y = if decide (y = nx) then expires (f (default (mkTimer 0 None) (ts !! nx))) else exp_of ts y.
Proof.
  intros [n Hn]. unfold exp_of. case_decide.
  - subst. by rewrite lookup_alter_eq, Hn.
  - by rewrite lookup_alter_ne.
Qed.

Lemma next_timer_in tm l nx : next_timer tm l = Some nx → nx ∈ l.
Proof.
  induction l as [|x l IH]; simpl; [done|]. case_decide.
  - intros Hh. destruct l; simplify_eq/=; set_solver.
  - intros Hn. apply elem_of_cons. right. by apply IH.
Qed.

Lemma next_timer_ne tm l nx : NoDup l → next_timer tm l = Some nx → nx ≠ tm.
Proof.
  induction l as [|x l IH]; simpl; [done|]. intros [Hx Hnd]%NoDup_cons. case_decide.
  - intros Hh. destruct l; simplify_eq/=; set_solver.
  - by apply IH.
Qed.

Lemma del_deadlines tm l ts acc :
  NoDup l → Forall (timer_ok ts) l → 0 ≤ acc → Forall (λ d, d.2 < 2 ^ 32) (deadlines ts acc l) →
  tm ∈ l → deadlines (del_expires ts tm l) acc (filter (λ x, x ≠ tm) l) =
           filter (λ d, d.1 ≠ tm) (deadlines ts acc l).
Proof.
  revert acc. induction l as [|x l IH]; intros acc Hnd Hok Hacc Hu Htm; [set_solver|].
  pose proof Hnd as [Hx Hnd']%NoDup_cons. pose proof Hok as [(t & Ht & Ht0 & _) Hok']%Forall_cons.
  pose proof (exp_of_some _ _ _ Ht) as Het. cbn [deadlines] in *. pose proof Hu as [Hu0 Hu']%Forall_cons.
  destruct (decide (x = tm)) as [->|Hne].
  - rewrite filter_cons_False by (intros []; done). rewrite (filter_cons_False _ (tm, _)) by (simpl; tauto).
    unfold del_expires. simpl. rewrite decide_True by done.
    assert (filter (λ x, x ≠ tm) l = l) as -> by (apply list_filter_id; set_solver).
    assert (filter (λ d : ptr * Z, d.1 ≠ tm) (deadlines ts (acc + exp_of ts tm) l)
      = deadlines ts (acc + exp_of ts tm) l) as ->.
    { apply list_filter_id. intros d Hd. intros Hd1. apply Hx. rewrite <- (deadlines_fst ts (acc + exp_of ts tm) l).
      apply list_elem_of_fmap. by exists d. }
    destruct l as [|nx l]; simpl; [done|].
    pose proof Hok' as [(n & Hn & Hn0 & _) _]%Forall_cons. pose proof (exp_of_some _ _ _ Hn) as Hen.
    apply Forall_cons in Hu' as [Hu1 _]. simpl in Hu1.
    assert (is_Some (ts !! nx)) as Hnx by by rewrite Hn.
    rewrite (exp_of_alter _ _ _ _ Hnx), decide_True, Hn by done. simpl.
    rewrite u32_small by lia. rewrite Hen.
    replace (acc + (expires n + exp_of ts tm)) with (acc + exp_of ts tm + expires n) by lia.
    f_equal. apply deadlines_ext. intros y Hy. rewrite (exp_of_alter _ _ _ _ Hnx), decide_False; [done|].
    intros ->. by apply NoDup_cons in Hnd' as [? _].
  - rewrite filter_cons_True by done. rewrite (filter_cons_True _ (x, _)) by done.
    assert (tm ∈ l) as Htl by set_solver.
    assert (del_expires ts tm (x :: l) = del_expires ts tm l) as ->.
    { unfold del_expires. by rewrite next_timer_cons_ne. }
    cbn [deadlines]. assert (exp_of (del_expires ts tm l) x = exp_of ts x) as Hxe.
    { unfold del_expires. destruct (next_timer tm l) as [nx|] eqn:Hnx; [|done].
      pose proof (next_timer_in _ _ _ Hnx) as Hin. rewrite exp_of_alter.
      - rewrite decide_False by set_solver. done.
      - rewrite Forall_forall in Hok'. destruct (Hok' _ Hin) as (n & ? & _). by eexists. }
    rewrite Hxe. f_equal. apply IH; try done. lia.
Qed.

Lemma del_timer_run s tm :
  NoDup (timer_list s) → Forall (timer_ok (timers s)) (timer_list s) → tm ∈ timer_list s →
  del_timer s tm = Ok (set_timers s (if exp_of (timers s) tm =? 0 then timers s
                                     else del_expires (timers s) tm (timer_list s))
                                  (filter (λ x, x ≠ tm) (timer_list s))).
Proof.
  intros Hnd Hok Htm. unfold del_timer, get_timer. rewrite decide_True by done.
  rewrite Forall_forall in Hok. destruct (Hok _ Htm) as (t & Ht & _). rewrite Ht. cbn [deref bind].
  rewrite (exp_of_some _ _ _ Ht). unfold del_expires. rewrite (exp_of_some _ _ _ Ht).
  destruct (expires t =? 0); [done|]. destruct (next_timer tm (timer_list s)) as [nx|] eqn:Hnx; [|done].
  destruct (Hok _ (next_timer_in _ _ _ Hnx)) as (n & Hn & _). rewrite Hn. cbn [deref bind].
  do 2 f_equal. apply map_eq. intros y. destruct (decide (y = nx)) as [->|].
  - by rewrite lookup_insert_eq, lookup_alter_eq, Hn.
  - by rewrite lookup_insert_ne, lookup_alter_ne.
Qed.

(** A timer that adds nothing can be removed without touching its successor. *)
Lemma del_deadlines_zero tm l ts acc :
  exp_of ts tm = 0 → deadlines ts acc (filter (λ x, x ≠ tm) l) = filter (λ d, d.1 ≠ tm) (deadlines ts acc l).
Proof.
  intros H0. revert acc. induction l as [|x l IH]; intros acc; [done|]. cbn [deadlines].
  destruct (decide (x = tm)) as [->|Hne].
  - rewrite filter_cons_False by tauto. rewrite (filter_cons_False _ (tm, _)) by (simpl; tauto).
    rewrite IH. by rewrite H0, Z.add_0_r.
  - rewrite filter_cons_True by done. rewrite (filter_cons_True _ (x, _)) by done.
    cbn [deadlines]. by rewrite IH.
Qed.

Lemma del_timer_step s tm :
  timers_inv (timers s) (timer_list s) → tm ∈ timer_list s →
  ∃ s', del_timer s tm = Ok s' ∧
    deadlines (timers s') 0 (timer_list s') =
      filter (λ d, d.1 ≠ tm) (deadlines (timers s) 0 (timer_list s)) ∧
    timer_list s' = filter (λ x, x ≠ tm) (timer_list s).
Proof.
  intros Hinv Htm. rewrite del_timer_run by (done || apply Hinv). eexists. split; [done|].
  cbn [timers timer_list set_timers]. split; [|done]. destruct Hinv as [Hnd Hok _ Hu].
  destruct (Z.eqb_spec (exp_of (timers s) tm) 0) as [H0|H0].
  - by apply del_deadlines_zero.
  - by apply del_deadlines.
Qed.

(** ** The tick *)

Definition wakeable (t : ptable) (p : ptr) : Prop :=
  ∃ pr, t !! p = Some pr ∧ state pr ≠ PROC_ZOMBIE ∧
    (wait_state pr = 0 ∨ Z.land (wait_state pr) WT_INTERRUPTED ≠ 0).

Lemma run_timer_loop_ok l : ∀ s,
  timer_list s = l → sched_inv s → NoDup l → Forall (timer_ok (timers s)) l →
  (∀ x t p, x ∈ l → timers s !! x = Some t → timer_proc t = Some p → wakeable (procs s) p) →
  ∃ s', run_timer_loop s l = Ok s' ∧ sched_inv s' ∧ timers s' = timers s ∧
    current s' = current s ∧ (∀ p, runnable (procs s) p → runnable (procs s') p) ∧
    deadlines (timers s) 0 (timer_list s') = filter (λ d, d.2 ≠ 0) (deadlines (timers s) 0 l) ∧
    (∀ x t p, (x, 0) ∈ deadlines (timers s) 0 l → timers s !! x = Some t → timer_proc t = Some p →
       runnable (procs s') p).
Proof.
  induction l as [|tm l IH]; intros s Hl Hinv Hnd Hok Hw.
  { exists s. rewrite Hl. split_and!; try done. intros ??? ?%elem_of_nil. done. }
  pose proof Hok as [(t & Ht & Ht0 & Htp) Hok']%Forall_cons. pose proof (exp_of_some _ _ _ Ht) as Het.
  cbn [run_timer_loop]. unfold get_timer. rewrite Ht. cbn [deref bind deadlines]. rewrite Het, Z.add_0_l.
  destruct (Z.eqb_spec (expires t) 0) as [H0|H0].
  2: { exists s. rewrite Hl. cbn [deadlines]. rewrite Het, Z.add_0_l.
       assert (∀ d, d ∈ (tm, expires t) :: deadlines (timers s) (expires t) l → d.2 ≠ 0) as Hnz.
       { intros d [->|Hd]%elem_of_cons; [done|].
         pose proof (deadlines_ge (timers s) (expires t) l Hok') as Hge.
         rewrite Forall_forall in Hge. specialize (Hge d Hd). lia. }
       split_and!; try done; [by rewrite list_filter_id|].
       intros x t' p Hx. by apply Hnz in Hx. }
  destruct (timer_proc t) as [p|] eqn:Hp; [|done]. cbn [deref bind].
  destruct (Hw tm t p) as (pr & Hpr & Hz & Hws); [set_solver|done..|].
  rewrite (get_proc_ok _ _ _ Hpr). cbn [bind].
  assert ((wait_state pr =? 0) || negb (Z.land (wait_state pr) WT_INTERRUPTED =? 0) = true) as ->.
  { destruct Hws as [->|Hws]; [done|]. apply Z.eqb_neq in Hws. rewrite Hws. by rewrite orb_true_r. }
  destruct (wakeup_proc_ok s p pr Hinv Hpr Hz) as (s1 & -> & Hinv1 & (Hc1 & Hi1 & Ht1 & Htl1) & (pr1 & Hpr1 & Hst1 & Hws1) & Hfr1).
  cbn [bind]. rewrite del_timer_run; rewrite ?Ht1, ?Htl1, ?Hl; [|done..|set_solver].
  rewrite Het, H0. cbn [bind Z.eqb].
  assert (filter (λ x, x ≠ tm) (tm :: l) = l) as Hfil.
  { rewrite filter_cons_False by tauto. apply list_filter_id. apply NoDup_cons in Hnd as [? _]. set_solver. }
  rewrite Hfil. set (s2 := set_timers s1 (timers s) l).
  assert (∀ q, runnable (procs s) q → runnable (procs s2) q) as Hmono.
  { intros q Hq. destruct (decide (q = p)) as [->|]; [by exists pr1|]. unfold runnable. cbn. by rewrite Hfr1. }
  destruct (IH s2) as (s' & -> & Hinv' & Ht' & Hc' & Hm' & Hd' & Hr'); cbn [timers timer_list set_timers s2].
  - done.
  - destruct Hinv1 as [(l1 & Hq1 & Hl1) ??]. split; try done. by exists l1.
  - by apply NoDup_cons in Hnd as [_ ?].
  - done.
  - intros x t' p' Hx Hxt Hxp. destruct (Hw x t' p') as (pr' & Hpr' & Hz' & Hws'); [set_solver|done..|].
    cbn. destruct (decide (p' = p)) as [->|].
    + exists pr1. split; [done|]. split; [congruence|]. simplify_eq. destruct Hws1 as [->| ->]; auto.
    + exists pr'. by rewrite Hfr1.
  - exists s'. cbn in Hd', Hr', Ht', Hc'. split_and!; try done.
    + congruence.
    + intros q Hq. by apply Hm', Hmono.
    + intros x t' p' [[= ->]|Hx]%elem_of_cons Hxt Hxp; [|by eapply Hr'].
      simplify_eq. apply Hm'. by exists pr1.
Qed.

Lemma tick_ok s :
  sched_inv s →
  ∃ s', sched_class_proc_tick s (current s) = Ok s' ∧ sched_inv s' ∧
    timers s' = timers s ∧ timer_list s' = timer_list s ∧ (∀ p, runnable (procs s') p ↔ runnable (procs s) p).
Proof.
  intros [(l & Hq & Hl) [pc Hpc] Hidle]. unfold sched_class_proc_tick.
  assert (∃ pc', (if decide (current s = idleproc s)
      then let! t := upd_proc (procs s) (current s) (set_need_resched true) in Ok (set_procs s t)
      else let! t := sc_proc_tick (runq s) (procs s) (current s) in Ok (set_procs s t))
    = Ok (set_procs s (<[current s := pc']> (procs s))) ∧ state pc' = state pc) as (pc' & -> & Hst).
  { case_decide.
    - rewrite (upd_proc_ok _ _ _ _ Hpc). by eexists.
    - destruct (tick_law (runq s) _ _ _ Hpc) as (pc' & -> & Hs). exists pc'. split; [done|].
      exact (f_equal state Hs). }
  assert (∀ p, runnable (<[current s := pc']> (procs s)) p ↔ runnable (procs s) p) as Hr.
  { intros p. rewrite runnable_insert. case_decide; [|done]. subst. unfold runnable. rewrite Hpc, Hst. naive_solver. }
  eexists. split; [done|]. split_and!; try done. split; cbn.
  - exists l. split; [done|]. intros p. rewrite Hl. unfold waiting. cbn. by rewrite Hr.
  - by rewrite lookup_insert_eq.
  - by apply Hr.
Qed.

Definition shift_deadline (d : ptr * Z) : ptr * Z := (d.1, d.2 - 1).

Lemma deadlines_shift ts acc l : deadlines ts (acc - 1) l = shift_deadline <$> deadlines ts acc l.
Proof.
  revert acc. induction l as [|x l IH]; intros acc; simpl; [done|]. unfold shift_deadline at 1. simpl.
  replace (acc - 1 + exp_of ts x) with (acc + exp_of ts x - 1) by lia. by rewrite IH.
Qed.

(** Decrementing the first timer moves all deadlines one tick closer. *)
Lemma deadlines_tick ts tm t l acc :
  NoDup (tm :: l) → ts !! tm = Some t → 0 < expires t < 2 ^ 32 →
  deadlines (<[tm := set_expires (u32 (expires t - 1)) t]> ts) acc (tm :: l) =
  shift_deadline <$> deadlines ts acc (tm :: l).
Proof.
  intros [Htm Hnd]%NoDup_cons Ht He. rewrite u32_small by lia. simpl.
  rewrite exp_of_insert, decide_True by done. rewrite (exp_of_some _ _ _ Ht). simpl.
  unfold shift_deadline at 1. simpl.
  replace (acc + (expires t - 1)) with (acc + expires t - 1) by lia. f_equal.
  rewrite <- deadlines_shift. apply deadlines_ext. intros x Hx.
  rewrite exp_of_insert, decide_False; [done|]. by intros ->.
Qed.

Lemma filter_shift (l : list (ptr * Z)) :
  filter (λ d, d.2 ≠ 0) (shift_deadline <$> l) = shift_deadline <$> filter (λ d, d.2 ≠ 1) l.
Proof.
  induction l as [|[x d] l IH]; [done|]. cbn [fmap list_fmap]. destruct (decide (d = 1)) as [->|Hd].
  - rewrite filter_cons_False by (simpl; lia). by rewrite (filter_cons_False _ (x, 1)) by (simpl; lia).
  - rewrite filter_cons_True by (simpl; lia). rewrite (filter_cons_True _ (x, d)) by (simpl; lia).
    by rewrite IH.
Qed.

Lemma timers_inv_filter ts l l' :
  timers_inv ts l → ∀ ts', (∀ x, timer_ok ts x → timer_ok ts' x) →
  deadlines ts' 0 l' = shift_deadline <$> filter (λ d, d.2 ≠ 1) (deadlines ts 0 l) →
  Forall (λ d, 0 < d.2) (deadlines ts 0 l) → timers_inv ts' l'.
Proof.
  intros [Hnd Hok Hhd Hu] ts' Hts Hd Hpos.
  assert (l' = fst <$> filter (λ d, d.2 ≠ 1) (deadlines ts 0 l)) as Hl'.
  { rewrite <- (deadlines_fst ts' 0 l'), Hd, <- list_fmap_compose. by apply list_fmap_ext. }
  assert (∀ x, x ∈ l' → x ∈ l) as Hsub.
  { rewrite Hl'. intros x (d & -> & [_ Hd']%list_elem_of_filter)%list_elem_of_fmap.
    rewrite <- (deadlines_fst ts 0 l). apply list_elem_of_fmap. by exists d. }
  split.
  - rewrite Hl'. apply NoDup_fmap_filter. by rewrite deadlines_fst.
  - rewrite Forall_forall in Hok |- *. auto.
  - rewrite Hd. intros d Hh. destruct (filter _ (deadlines ts 0 l)) as [|d0 fl] eqn:Hf; [done|].
    injection Hh as <-. assert (d0 ∈ d0 :: fl) as Hin by set_solver. rewrite <- Hf in Hin.
    apply list_elem_of_filter in Hin as [H1 Hin].
    rewrite Forall_forall in Hpos. specialize (Hpos _ Hin). simpl. lia.
  - rewrite Hd. apply Forall_fmap. rewrite Forall_forall in *. intros d [_ Hin]%list_elem_of_filter.
    specialize (Hu _ Hin). simpl. lia.
Qed.

Lemma deadlines_pos ts l : timers_inv ts l → Forall (λ d, 0 < d.2) (deadlines ts 0 l).
Proof.
  intros [_ Hok Hhd _]. destruct l as [|x l]; simpl in *; [constructor|].
  specialize (Hhd _ eq_refl). simpl in Hhd. apply Forall_cons in Hok as [_ Hok].
  constructor; [done|]. eapply Forall_impl; [by apply deadlines_ge|]. simpl. intros; lia.
Qed.

Lemma run_timer_list_step s :
  sched_inv s → timers_inv (timers s) (timer_list s) →
  (∀ x t p, x ∈ timer_list s → timers s !! x = Some t → timer_proc t = Some p → wakeable (procs s) p) →
  ∃ s', run_timer_list s = Ok s' ∧ sched_inv s' ∧ timers_inv (timers s') (timer_list s') ∧
    deadlines (timers s') 0 (timer_list s') =
      shift_deadline <$> filter (λ d, d.2 ≠ 1) (deadlines (timers s) 0 (timer_list s)) ∧
    (∀ p, runnable (procs s) p → runnable (procs s') p) ∧
    (∀ x t p, (x, 1) ∈ deadlines (timers s) 0 (timer_list s) → timers s !! x = Some t →
       timer_proc t = Some p → runnable (procs s') p).
Proof.
  intros Hinv Hti Hw. unfold run_timer_list. destruct (timer_list s) as [|tm l] eqn:Hl.
  { cbn [bind]. destruct (tick_ok s Hinv) as (s' & -> & Hinv' & Ht' & Htl' & Hr'). exists s'.
    rewrite Ht', Htl', Hl. split_and!; try done; [intros p; by rewrite Hr'|intros ??? ?%elem_of_nil; done]. }
  pose proof (deadlines_pos _ _ Hti) as Hpos. pose proof Hti as [Hnd Hok Hhd Hu].
  pose proof Hok as [(t & Ht & Ht0 & Htp) Hok']%Forall_cons. pose proof (exp_of_some _ _ _ Ht) as Het.
  unfold get_timer. rewrite Ht. cbn [deref bind].
  pose proof Hpos as [Hp0 _]%Forall_cons. simpl in Hp0. pose proof Hu as [Hu0 _]%Forall_cons. simpl in Hu0.
  rewrite Het in Hp0, Hu0. destruct (Z.eqb_spec (expires t) 0); [lia|]. cbn [negb].
  set (t1 := set_expires (u32 (expires t - 1)) t). set (s1 := set_timers s (<[tm := t1]> (timers s)) (tm :: l)).
  assert (0 ≤ expires t1) as Ht1 by apply u32_range.
  assert (∀ x, timer_ok (timers s) x → timer_ok (timers s1) x) as Hmono.
  { intros x Hx. by apply timer_ok_insert. }
  assert (deadlines (timers s1) 0 (tm :: l) = shift_deadline <$> deadlines (timers s) 0 (tm :: l)) as Hshift.
  { apply deadlines_tick; [done..|lia]. }
  assert (∀ x t', timers s1 !! x = Some t' → ∃ t0, timers s !! x = Some t0 ∧ timer_proc t0 = timer_proc t') as Hproc.
  { intros x t'. cbn. destruct (decide (tm = x)) as [<-|]; intros; simplify_map_eq; eauto. }
  destruct (run_timer_loop_ok (tm :: l) s1) as (s2 & -> & Hinv2 & Ht2 & Hc2 & Hm2 & Hd2 & Hr2).
  - done.
  - destruct Hinv as [(l1 & Hq1 & Hl1) ??]. split; try done. by exists l1.
  - done.
  - eapply Forall_impl; [apply Hok|apply Hmono].
  - intros x t' p Hx Hxt Hxp. destruct (Hproc _ _ Hxt) as (t0 & Hx0 & Hp'). apply (Hw x t0 p); congruence.
  - cbn [bind]. destruct (tick_ok s2 Hinv2) as (s' & -> & Hinv' & Ht' & Htl' & Hr'). exists s'.
    rewrite Ht', Htl', Ht2, Hd2, Hshift, filter_shift.
    split_and!; try done.
    + eapply (timers_inv_filter (timers s)); [exact Hti|exact Hmono| |done].
      by rewrite Hd2, Hshift, filter_shift.
    + intros p Hp. apply Hr', Hm2, Hp.
    + intros x t0 p Hx Hx0 Hp. apply Hr'.
      assert (∃ t', timers s1 !! x = Some t' ∧ timer_proc t' = Some p) as (t' & Hxt & Hp').
      { cbn. destruct (decide (tm = x)) as [<-|]; simplify_map_eq; eauto. }
      apply (Hr2 x t' p); [|done..]. rewrite Hshift. apply list_elem_of_fmap. by exists (x, 1).
Qed.

End sched.

(** ** The properties *)

Section properties.
Context {RQ : Type} `{sched_class RQ}.
Implicit Types s : sched_state RQ.

(** C22: [schedule] keeps the run queue exact (it holds the runnable processes
    except the running and the idle one), never fails, changes no process's
    runnability, runs a runnable process, and runs the idle process only when
    nothing else is runnable. *)
Theorem schedule_work_conserving s :
  sched_inv s →
  ∃ s', schedule s = Ok s' ∧ sched_inv s' ∧ runnable (procs s') (current s') ∧
    (∀ p, runnable (procs s') p ↔ runnable (procs s) p) ∧
    (current s' = idleproc s → ∀ p, runnable (procs s) p → p = idleproc s).
Proof. intros Hinv. destruct (schedule_step s Hinv) as (s' & ? & ? & ? & _ & _ & _ & ? & ?). eauto 10. Qed.

(** [wakeup_proc] makes any process that is not a zombie runnable and queues
    it, touching no other process; waking a runnable process again changes
    nothing, so it is never queued twice. *)
Theorem wakeup_proc_queues s p pr :
  sched_inv s → procs s !! p = Some pr → state pr ≠ PROC_ZOMBIE →
  ∃ s', wakeup_proc s p = Ok s' ∧ sched_inv s' ∧ runnable (procs s') p ∧
    (∀ q, q ≠ p → procs s' !! q = procs s !! q) ∧ wakeup_proc s' p = Ok s'.
Proof.
  intros Hinv Hp Hz. destruct (wakeup_proc_ok s p pr Hinv Hp Hz) as (s' & Hw & Hi & _ & (pr' & Hpr' & Hst & _) & Hfr).
  exists s'. split_and!; [done..|by exists pr'|done|].
  unfold wakeup_proc. rewrite (get_proc_ok _ _ _ Hpr'). cbn [bind].
  rewrite bool_decide_true by (rewrite Hst; done). rewrite decide_False by tauto. done.
Qed.

(** [add_timer] gives the new timer exactly the deadline it asks for and
    moves no other deadline, although the list only stores differences; and
    [del_timer] undoes it. *)
Theorem add_del_timer s tm t :
  timers_inv (timers s) (timer_list s) → tm ∉ timer_list s → timers s !! tm = Some t →
  0 < expires t < 2 ^ 32 → timer_proc t ≠ None →
  ∃ s1 s2 d1 d2, add_timer s tm = Ok s1 ∧ timers_inv (timers s1) (timer_list s1) ∧
    deadlines (timers s) 0 (timer_list s) = d1 ++ d2 ∧
    deadlines (timers s1) 0 (timer_list s1) = d1 ++ (tm, expires t) :: d2 ∧
    Forall (λ d, d.2 ≤ expires t) d1 ∧ Forall (λ d, expires t < d.2) d2 ∧
    del_timer s1 tm = Ok s2 ∧ timer_list s2 = timer_list s ∧
    deadlines (timers s2) 0 (timer_list s2) = deadlines (timers s) 0 (timer_list s).
Proof.
  intros Hti Htm Ht He Hp.
  destruct (add_timer_step s tm t Hti Htm Ht He Hp) as (s1 & d1 & d2 & Ha & Hti1 & Hd & Hd' & Hd1 & Hd2).
  assert (timer_list s1 = (fst <$> d1) ++ tm :: (fst <$> d2)) as Hl1.
  { rewrite <- (deadlines_fst (timers s1) 0 (timer_list s1)), Hd'. by rewrite fmap_app. }
  assert (timer_list s = (fst <$> d1) ++ (fst <$> d2)) as Hl.
  { rewrite <- (deadlines_fst (timers s) 0 (timer_list s)), Hd. by rewrite fmap_app. }
  destruct (del_timer_step s1 tm Hti1) as (s2 & Hdel & Hdd & Hl2); [rewrite Hl1; set_solver|].
  exists s1, s2, d1, d2. split_and!; try done.
  - rewrite Hl2, Hl1, Hl, filter_app, filter_cons_False by tauto.
    rewrite Hl in Htm. f_equal; apply list_filter_id; set_solver.
  - rewrite Hdd, Hd', Hd, filter_app, filter_cons_False by (simpl; tauto).
    rewrite Hl in Htm. f_equal; apply list_filter_id; intros [x d] Hx Hxt; simpl in Hxt; subst x; apply Htm;
      apply elem_of_app; [left|right]; apply list_elem_of_fmap; by exists (tm, d).
Qed.

(** C23: One clock tick moves every deadline one closer, takes the timers that
    reach it off the list and makes their processes runnable, keeping both the
    timer list and the run queue consistent. *)
Theorem run_timer_list_expires s :
  sched_inv s → timers_inv (timers s) (timer_list s) →
  (∀ x t p, x ∈ timer_list s → timers s !! x = Some t → timer_proc t = Some p → wakeable (procs s) p) →
  ∃ s', run_timer_list s = Ok s' ∧ sched_inv s' ∧ timers_inv (timers s') (timer_list s') ∧
    deadlines (timers s') 0 (timer_list s') =
      shift_deadline <$> filter (λ d, d.2 ≠ 1) (deadlines (timers s) 0 (timer_list s)) ∧
    (∀ x t p, (x, 1) ∈ deadlines (timers s) 0 (timer_list s) → timers s !! x = Some t →
       timer_proc t = Some p → runnable (procs s') p).
Proof.
  intros Hinv Hti Hw. destruct (run_timer_list_step s Hinv Hti Hw) as (s' & ? & ? & ? & ? & _ & ?). eauto 10.
Qed.

End properties.

(** *** A machine with an idle process 0, a running process 1, a queued process 2
    and a sleeping process 3 that waits for timer 10. *)
Definition idle_demo : proc_struct := demo_proc 0 0.
Definition sleeper_demo : proc_struct := set_state PROC_SLEEPING (set_wait_state WT_TIMER (demo_proc 0 0)).

Definition demo_sched : sched_state run_queue :=
  mkSched {[ 0 := idle_demo; 1 := demo_proc 7 1; 2 := demo_proc 3 1; 3 := sleeper_demo ]} 1 0 demo_rq
    {[ 10 := mkTimer 1 (Some 3); 11 := mkTimer 4 (Some 3) ]} [10].

Lemma demo_sched_inv : sched_inv demo_sched.
Proof.
  split; [|by eexists|by eexists].
  exists [2]. split.
  - exists (Node 2 Leaf Leaf). split; [split; [done|by exists None, None]|].
    split; [apply NoDup_singleton|by vm_compute].
  - intros p. unfold waiting, runnable. cbn [procs current idleproc demo_sched].
    rewrite list_elem_of_singleton. split.
    + intros ->. split_and!; [by eexists|done..].
    + intros ((pr & Hp & Hst) & H1 & H0).
      destruct (decide (p = 2)) as [|H2]; [done|]. destruct (decide (p = 3)) as [->|H3]; by simplify_map_eq.
Qed.

Lemma demo_timers_inv : timers_inv (timers demo_sched) (timer_list demo_sched).
Proof.
  split.
  - apply NoDup_singleton.
  - constructor; [|constructor]. by eexists.
  - intros d [= <-]. by vm_compute.
  - constructor; [by vm_compute|constructor].
Qed.

Lemma schedule_work_conserving_witness :
  ∃ s', schedule demo_sched = Ok s' ∧ sched_inv s' ∧ runnable (procs s') (current s') ∧
    (∀ p, runnable (procs s') p ↔ runnable (procs demo_sched) p) ∧
    (current s' = 0 → ∀ p, runnable (procs demo_sched) p → p = 0).
Proof. exact (schedule_work_conserving demo_sched demo_sched_inv). Defined.

Lemma wakeup_proc_queues_witness :
  ∃ s', wakeup_proc demo_sched 3 = Ok s' ∧ sched_inv s' ∧ runnable (procs s') 3 ∧
    (∀ q, q ≠ 3 → procs s' !! q = procs demo_sched !! q) ∧ wakeup_proc s' 3 = Ok s'.
Proof. by apply (wakeup_proc_queues demo_sched 3 sleeper_demo demo_sched_inv). Defined.

Lemma add_del_timer_witness :
  ∃ s1 s2 d1 d2, add_timer demo_sched 11 = Ok s1 ∧ timers_inv (timers s1) (timer_list s1) ∧
    [(10, 1)] = d1 ++ d2 ∧
    deadlines (timers s1) 0 (timer_list s1) = d1 ++ (11, 4) :: d2 ∧
    Forall (λ d, d.2 ≤ 4) d1 ∧ Forall (λ d, 4 < d.2) d2 ∧
    del_timer s1 11 = Ok s2 ∧ timer_list s2 = [10] ∧
    deadlines (timers s2) 0 (timer_list s2) = [(10, 1)].
Proof.
  apply (add_del_timer demo_sched 11 (mkTimer 4 (Some 3)) demo_timers_inv).
  - cbn. set_solver.
  - by vm_compute.
  - cbn. lia.
  - done.
Defined.

Lemma run_timer_list_expires_witness :
  ∃ s', run_timer_list demo_sched = Ok s' ∧ sched_inv s' ∧ timers_inv (timers s') (timer_list s') ∧
    deadlines (timers s') 0 (timer_list s') = [] ∧
    (∀ x t p, (x, 1) ∈ [(10, 1)] → timers demo_sched !! x = Some t → timer_proc t = Some p →
       runnable (procs s') p).
Proof.
  apply (run_timer_list_expires demo_sched demo_sched_inv demo_timers_inv).
  intros x t p Hx Ht Hp. apply list_elem_of_singleton in Hx as ->.
  assert (t = mkTimer 1 (Some 3)) as -> by (vm_compute in Ht; congruence).
  injection Hp as <-. eexists. split; [by vm_compute|]. split; [done|]. right. by vm_compute.
Defined.
