(* ===== verification/Hash.v ===== *)
(** * libs/hash.c: the multiplicative hash of processes and inodes *)

From S2P Require Import Prelude.

Definition GOLDEN_RATIO_PRIME_32 : Z := 0x9e370001.
Definition hash32 (val bits : Z) : Z := Z.shiftr (u32 (val * GOLDEN_RATIO_PRIME_32)) (32 - bits).

(** A hash of [bits] bits is an index into a table of [2 ^ bits] lists. *)
Lemma hash32_range val bits : 0 ≤ bits ≤ 32 → 0 ≤ hash32 val bits < 2 ^ bits.
Proof.
  intros Hb. unfold hash32. rewrite Z.shiftr_div_pow2 by lia. pose proof (u32_range (val * GOLDEN_RATIO_PRIME_32)) as Hr.
  unfold is_u32 in Hr. split; [apply Z.div_pos; [lia|apply Z.pow_pos_nonneg; lia]|].
  apply Z.div_lt_upper_bound; [apply Z.pow_pos_nonneg; lia|]. rewrite <- Z.pow_add_r by lia.
  replace (32 - bits + bits) with 32 by lia. apply Hr.
Qed.
