(* ===== verification/CString.v ===== *)
(** * libs/string.c: strings and memory blocks

    Memory maps addresses to bytes (values in [0, 255], as [unsigned char]); an
    address that is not mapped faults.  The definitions are the portable bodies of
    string.c, which the inline assembly of x86.h replaces on this machine for
    strcpy, strcmp, memset, memmove and memcpy.

    A loop over a string advances through consecutive mapped addresses, so
    [S (size m)] rounds always suffice ([scan_fuel]). *)

From S2P Require Import Prelude.

#[local] Coercion Z.of_nat : nat >-> Z.

Notation mem := (gmap Z Z).

Definition ld (m : mem) (a : Z) : res Z := deref (m !! a).

Definition st (m : mem) (a v : Z) : res mem :=
  match m !! a with Some _ => Ok (<[a := v]> m) | None => Faulted end.

Definition scan_fuel (m : mem) : nat := S (size m).

(** ** The operations *)

Fixpoint strlen_loop (fuel : nat) (m : mem) (s cnt : Z) : res Z :=
  match fuel with
  | O => NoFuel
  | S fuel =>
      let! c := ld m s in
      if c =? 0 then Ok cnt else strlen_loop fuel m (s + 1) (u32 (cnt + 1))
  end.

Definition strlen (m : mem) (s : Z) : res Z := strlen_loop (scan_fuel m) m s 0.

Fixpoint strnlen_loop (fuel : nat) (m : mem) (s len cnt : Z) : res Z :=
  match fuel with
  | O => NoFuel
  | S fuel =>
      if cnt <? len then
        let! c := ld m s in
        if c =? 0 then Ok cnt else strnlen_loop fuel m (s + 1) len (u32 (cnt + 1))
      else Ok cnt
  end.

Definition strnlen (m : mem) (s len : Z) : res Z := strnlen_loop (scan_fuel m) m s len 0.

Fixpoint strcpy_loop (fuel : nat) (m : mem) (p src : Z) : res mem :=
  match fuel with
  | O => NoFuel
  | S fuel =>
      let! c := ld m src in
      let! m := st m p c in
      if c =? 0 then Ok m else strcpy_loop fuel m (p + 1) (src + 1)
  end.

Definition strcpy (m : mem) (dst src : Z) : res (Z * mem) :=
  let! m := strcpy_loop (scan_fuel m) m dst src in Ok (dst, m).

Definition strcat (m : mem) (dst src : Z) : res (Z * mem) :=
  let! n := strlen m dst in strcpy m (dst + n) src.

Fixpoint strncpy_loop (len : nat) (m : mem) (p src : Z) : res mem :=
  match len with
  | O => Ok m
  | S len =>
      let! c := ld m src in
      let! m := st m p c in
      strncpy_loop len m (p + 1) (if c =? 0 then src else src + 1)
  end.

Definition strncpy (m : mem) (dst src len : Z) : res (Z * mem) :=
  let! m := strncpy_loop (Z.to_nat len) m dst src in Ok (dst, m).

Fixpoint strcmp_loop (fuel : nat) (m : mem) (s1 s2 : Z) : res Z :=
  match fuel with
  | O => NoFuel
  | S fuel =>
      let! c1 := ld m s1 in
      if c1 =? 0 then let! c2 := ld m s2 in Ok (c1 - c2)
      else
        let! c2 := ld m s2 in
        if c1 =? c2 then strcmp_loop fuel m (s1 + 1) (s2 + 1) else Ok (c1 - c2)
  end.

Definition strcmp (m : mem) (s1 s2 : Z) : res Z := strcmp_loop (scan_fuel m) m s1 s2.

Fixpoint strncmp (n : nat) (m : mem) (s1 s2 : Z) : res Z :=
  match n with
  | O => Ok 0
  | S n =>
      let! c1 := ld m s1 in
      if c1 =? 0 then let! c2 := ld m s2 in Ok (c1 - c2)
      else
        let! c2 := ld m s2 in
        if c1 =? c2 then strncmp n m (s1 + 1) (s2 + 1) else Ok (c1 - c2)
  end.

Fixpoint strchr_loop (fuel : nat) (m : mem) (s c : Z) : res (option Z) :=
  match fuel with
  | O => NoFuel
  | S fuel =>
      let! x := ld m s in
      if x =? 0 then Ok None else if x =? c then Ok (Some s) else strchr_loop fuel m (s + 1) c
  end.

Definition strchr (m : mem) (s c : Z) : res (option Z) := strchr_loop (scan_fuel m) m s c.

Fixpoint strfind_loop (fuel : nat) (m : mem) (s c : Z) : res Z :=
  match fuel with
  | O => NoFuel
  | S fuel =>
      let! x := ld m s in
      if x =? 0 then Ok s else if x =? c then Ok s else strfind_loop fuel m (s + 1) c
  end.

Definition strfind (m : mem) (s c : Z) : res Z := strfind_loop (scan_fuel m) m s c.

(** Character codes. *)
Definition ch_tab : Z := 9.
Definition ch_space : Z := 32.
Definition ch_plus : Z := 43.
Definition ch_minus : Z := 45.
Definition ch_0 : Z := 48.
Definition ch_9 : Z := 57.
Definition ch_A : Z := 65.
Definition ch_Z : Z := 90.
Definition ch_a : Z := 97.
Definition ch_x : Z := 120.
Definition ch_z : Z := 122.

Fixpoint skip_blanks (fuel : nat) (m : mem) (s : Z) : res Z :=
  match fuel with
  | O => NoFuel
  | S fuel =>
      let! c := ld m s in
      if (c =? ch_space) || (c =? ch_tab) then skip_blanks fuel m (s + 1) else Ok s
  end.

(** The value of a digit character, whatever the base. *)
Definition digit_of (c : Z) : option Z :=
  if (ch_0 <=? c) && (c <=? ch_9) then Some (c - ch_0)
  else if (ch_a <=? c) && (c <=? ch_z) then Some (c - ch_a + 10)
  else if (ch_A <=? c) && (c <=? ch_Z) then Some (c - ch_A + 10)
  else None.

Fixpoint strtol_digits (fuel : nat) (m : mem) (s base val : Z) : res (Z * Z) :=
  match fuel with
  | O => NoFuel
  | S fuel =>
      let! c := ld m s in
      match digit_of c with
      | None => Ok (val, s)
      | Some dig =>
          if base <=? dig then Ok (val, s)
          else strtol_digits fuel m (s + 1) base (i32 (val * base + dig))
      end
  end.

(** The result and the pointer that is stored in [*endptr]. *)
Definition strtol (m : mem) (s base : Z) : res (Z * Z) :=
  let! s := skip_blanks (scan_fuel m) m s in
  let! c := ld m s in
  let '(s, neg) := if c =? ch_plus then (s + 1, false)
                   else if c =? ch_minus then (s + 1, true) else (s, false) in
  let! c0 := ld m s in
  let! hex := if ((base =? 0) || (base =? 16)) && (c0 =? ch_0)
              then let! c1 := ld m (s + 1) in Ok (c1 =? ch_x) else Ok false in
  let '(s, base) := if hex : bool then (s + 2, 16)
                    else if (base =? 0) && (c0 =? ch_0) then (s + 1, 8)
                    else if base =? 0 then (s, 10) else (s, base) in
  let! (val, s) := strtol_digits (scan_fuel m) m s base 0 in
  Ok (if neg : bool then i32 (- val) else val, s).

Fixpoint memset_loop (n : nat) (m : mem) (p c : Z) : res mem :=
  match n with
  | O => Ok m
  | S n => let! m := st m p c in memset_loop n m (p + 1) c
  end.

Definition memset (m : mem) (s c n : Z) : res (Z * mem) :=
  let! m := memset_loop (Z.to_nat n) m s c in Ok (s, m).

(** [*d ++ = *s ++], [n] times. *)
Fixpoint copy_up (n : nat) (m : mem) (d s : Z) : res mem :=
  match n with
  | O => Ok m
  | S n => let! c := ld m s in let! m := st m d c in copy_up n m (d + 1) (s + 1)
  end.

(** [*-- d = *-- s], [n] times. *)
Fixpoint copy_down (n : nat) (m : mem) (d s : Z) : res mem :=
  match n with
  | O => Ok m
  | S n => let! c := ld m (s - 1) in let! m := st m (d - 1) c in copy_down n m (d - 1) (s - 1)
  end.

Definition memmove (m : mem) (dst src n : Z) : res (Z * mem) :=
  let! m := if (src <? dst) && (dst <? src + n)
            then copy_down (Z.to_nat n) m (dst + n) (src + n)
            else copy_up (Z.to_nat n) m dst src in
  Ok (dst, m).

Definition memcpy (m : mem) (dst src n : Z) : res (Z * mem) :=
  let! m := copy_up (Z.to_nat n) m dst src in Ok (dst, m).

Fixpoint memcmp (n : nat) (m : mem) (v1 v2 : Z) : res Z :=
  match n with
  | O => Ok 0
  | S n =>
      let! c1 := ld m v1 in
      let! c2 := ld m v2 in
      if c1 =? c2 then memcmp n m (v1 + 1) (v2 + 1) else Ok (c1 - c2)
  end.

(** ** Memory contents *)

Fixpoint bytes_at (m : mem) (s : Z) (l : list Z) : Prop :=
  match l with
  | [] => True
  | x :: l => m !! s = Some x ∧ bytes_at m (s + 1) l
  end.

(** A string of C: its characters and the terminating null. *)
Definition cstr (m : mem) (s : Z) (l : list Z) : Prop :=
  bytes_at m s (l ++ [0]) ∧ Forall (λ c, 0 < c < 256) l.

Definition mapped (m : mem) (s n : Z) : Prop := ∀ a, s ≤ a < s + n → is_Some (m !! a).

(** [m'] is [m] with [l] at [d]. *)
Definition updated (m m' : mem) (d : Z) (l : list Z) : Prop :=
  ∀ a, m' !! a = if decide (d ≤ a < d + length l) then l !! Z.to_nat (a - d) else m !! a.

Lemma bytes_at_lookup m s l :
  bytes_at m s l ↔ ∀ a, s ≤ a < s + length l → m !! a = l !! Z.to_nat (a - s).
Proof.
  revert s. induction l as [|x l IH]; intros s; cbn [bytes_at length].
  { split; [|done]. intros _ a Ha. lia. }
  rewrite IH. split.
  - intros [Hx Hl] a Ha. destruct (decide (a = s)) as [->|].
    + by replace (Z.to_nat (s - s)) with O by lia.
    + rewrite Hl by lia. by replace (Z.to_nat (a - s)) with (S (Z.to_nat (a - (s + 1)))) by lia.
  - intros Hl. split.
    + rewrite Hl by lia. by replace (Z.to_nat (s - s)) with O by lia.
    + intros a Ha. rewrite Hl by lia. by replace (Z.to_nat (a - s)) with (S (Z.to_nat (a - (s + 1)))) by lia.
Qed.

Lemma bytes_at_app m s l1 l2 :
  bytes_at m s (l1 ++ l2) ↔ bytes_at m s l1 ∧ bytes_at m (s + length l1) l2.
Proof.
  revert s. induction l1 as [|x l1 IH]; intros s; cbn [bytes_at app length].
  - rewrite Z.add_0_r. tauto.
  - rewrite IH. replace (s + 1 + length l1) with (s + S (length l1)) by lia. tauto.
Qed.

Lemma bytes_at_mapped m s l : bytes_at m s l → mapped m s (length l).
Proof.
  rewrite bytes_at_lookup. intros Hl a Ha. rewrite Hl by done. apply lookup_lt_is_Some. lia.
Qed.

Lemma mapped_size m s n : mapped m s n → n ≤ size m.
Proof.
  intros Hm. destruct (decide (0 ≤ n)); [|lia]. rewrite <- size_dom.
  assert (list_to_set (seqZ s n) ⊆ dom m) as Hsub.
  { intros x Hx%elem_of_list_to_set%elem_of_seqZ. apply elem_of_dom, Hm. lia. }
  apply subseteq_size in Hsub. rewrite size_list_to_set in Hsub by apply NoDup_seqZ.
  rewrite length_seqZ in Hsub. lia.
Qed.

(** The terminating null included, a string fits into the fuel of a scan. *)
Lemma cstr_fuel m s l : cstr m s l → (length l < scan_fuel m)%nat.
Proof.
  intros [Hb _]. apply bytes_at_mapped, mapped_size in Hb. rewrite length_app in Hb. cbn in Hb.
  unfold scan_fuel. lia.
Qed.

Lemma cstr_nil m s : cstr m s [] ↔ m !! s = Some 0.
Proof. unfold cstr. cbn. split; [tauto|]. intros ?. split; [tauto|constructor]. Qed.

Lemma cstr_cons m s x l : cstr m s (x :: l) ↔ m !! s = Some x ∧ 0 < x < 256 ∧ cstr m (s + 1) l.
Proof. unfold cstr. cbn. rewrite Forall_cons. tauto. Qed.

Lemma updated_nil m d : updated m m d [].
Proof. intros a. cbn. rewrite decide_False by lia. done. Qed.

Lemma updated_bytes m m' d l : updated m m' d l → bytes_at m' d l.
Proof. intros Hu. apply bytes_at_lookup. intros a Ha. rewrite Hu, decide_True by done. done. Qed.

Lemma updated_frame m m' d l a : updated m m' d l → ¬ (d ≤ a < d + length l) → m' !! a = m !! a.
Proof. intros Hu Ha. by rewrite Hu, decide_False. Qed.

Lemma bytes_at_frame m m' s l : (∀ a, s ≤ a < s + length l → m' !! a = m !! a) → bytes_at m s l → bytes_at m' s l.
Proof. rewrite !bytes_at_lookup. intros Hf Hl a Ha. rewrite Hf by done. by apply Hl. Qed.

Lemma cstr_frame m m' s l : (∀ a, s ≤ a ≤ s + length l → m' !! a = m !! a) → cstr m s l → cstr m' s l.
Proof.
  intros Hf [Hb Hn]. split; [|done]. eapply bytes_at_frame; [|done].
  intros a. rewrite length_app. cbn. intros ?. apply Hf. lia.
Qed.

Lemma ld_ok m a v : m !! a = Some v → ld m a = Ok v.
Proof. unfold ld. by intros ->. Qed.

Lemma st_ok m a v : is_Some (m !! a) → st m a v = Ok (<[a := v]> m).
Proof. unfold st. by intros [w ->]. Qed.

Lemma mapped_insert m d s n x : mapped m s n → mapped (<[d := x]> m) s n.
Proof. intros Hm a Ha. rewrite lookup_insert. case_decide; [done|]. by apply Hm. Qed.

Lemma updated_insert_head m m' d x l :
  updated (<[d := x]> m) m' (d + 1) l → updated m m' d (x :: l).
Proof.
  intros Hu a. rewrite Hu. cbn [length]. destruct (decide (a = d)) as [->|Hne].
  - rewrite decide_False by lia. rewrite decide_True by lia. rewrite lookup_insert_eq.
    by replace (Z.to_nat (d - d)) with O by lia.
  - destruct (decide (d + 1 ≤ a < d + 1 + length l)).
    + rewrite decide_True by lia. by replace (Z.to_nat (a - d)) with (S (Z.to_nat (a - (d + 1)))) by lia.
    + rewrite decide_False by lia. by rewrite lookup_insert_ne by congruence.
Qed.

(** ** Loops *)

Lemma strlen_loop_ok fuel m s l cnt :
  cstr m s l → (length l < fuel)%nat → 0 ≤ cnt → cnt + length l < 2 ^ 32 →
  strlen_loop fuel m s cnt = Ok (cnt + length l).
Proof.
  revert s l cnt. induction fuel as [|fuel IH]; intros s l cnt Hc Hf H0 Hr; [lia|].
  cbn [strlen_loop]. destruct l as [|x l].
  - apply cstr_nil in Hc. rewrite (ld_ok _ _ _ Hc). cbn. f_equal. lia.
  - apply cstr_cons in Hc as (Hx & Hx0 & Hc). rewrite (ld_ok _ _ _ Hx). cbn [bind length] in *.
    rewrite (proj2 (Z.eqb_neq x 0)) by lia. rewrite u32_small by lia. rewrite (IH _ l) by (done || lia).
    f_equal. lia.
Qed.

Lemma strlen_ok m s l : cstr m s l → length l < 2 ^ 32 → strlen m s = Ok (Z.of_nat (length l)).
Proof. intros Hc Hl. unfold strlen. by rewrite (strlen_loop_ok _ _ _ l) by eauto using cstr_fuel with lia. Qed.

Lemma copy_up_ok m d s l :
  bytes_at m s l → mapped m d (length l) → ¬ (s < d < s + length l) →
  ∃ m', copy_up (length l) m d s = Ok m' ∧ updated m m' d l.
Proof.
  revert m d s. induction l as [|x l IH]; intros m d s; cbn [bytes_at length copy_up].
  { intros _ _ _. exists m. split; [done|]. apply updated_nil. }
  intros [Hx Hl] Hd Hdis. rewrite (ld_ok _ _ _ Hx). cbn [bind].
  rewrite st_ok by (apply Hd; lia). cbn [bind].
  destruct (IH (<[d := x]> m) (d + 1) (s + 1)) as (m' & Hm' & Hu).
  - eapply bytes_at_frame; [|done]. intros a Ha. rewrite lookup_insert_ne; [done|]. lia.
  - apply mapped_insert. intros a Ha. apply Hd. lia.
  - lia.
  - exists m'. split; [done|]. by apply updated_insert_head.
Qed.

Lemma copy_down_ok m d s l :
  bytes_at m s l → mapped m d (length l) → s < d →
  ∃ m', copy_down (length l) m (d + length l) (s + length l) = Ok m' ∧ updated m m' d l.
Proof.
  revert m. induction l as [|x l IH] using rev_ind; intros m.
  { intros _ _ _. exists m. split; [done|]. apply updated_nil. }
  rewrite length_app. cbn [length]. replace (length l + 1)%nat with (S (length l)) by lia.
  intros [Hl [Hx _]]%bytes_at_app Hd Hsd. cbn [copy_down].
  replace (s + S (length l) - 1) with (s + length l) by lia.
  replace (d + S (length l) - 1) with (d + length l) by lia.
  rewrite (ld_ok _ _ _ Hx). cbn [bind]. rewrite st_ok by (apply Hd; lia). cbn [bind].
  destruct (IH (<[d + length l := x]> m)) as (m' & Hm' & Hu); [| |done|].
  - eapply bytes_at_frame; [|done]. intros a Ha. rewrite lookup_insert_ne; [done|]. lia.
  - apply mapped_insert. intros a Ha. apply Hd. lia.
  - exists m'. split; [done|]. intros a. rewrite Hu, length_app. cbn [length].
    destruct (decide (d ≤ a < d + length l)).
    + rewrite decide_True by lia. by rewrite lookup_app_l by lia.
    + destruct (decide (a = d + length l)) as [->|].
      * rewrite decide_True by lia. rewrite lookup_insert_eq, lookup_app_r by lia.
        by replace (Z.to_nat (d + length l - d) - length l)%nat with O by lia.
      * rewrite decide_False by lia. by rewrite lookup_insert_ne by congruence.
Qed.

Lemma strcpy_loop_ok fuel m p s l :
  cstr m s l → mapped m p (length l + 1) → (length l < fuel)%nat →
  p + length l < s ∨ s + length l < p →
  ∃ m', strcpy_loop fuel m p s = Ok m' ∧ updated m m' p (l ++ [0]).
Proof.
  revert m p s l. induction fuel as [|fuel IH]; intros m p s l Hc Hp Hf Hdis; [lia|].
  cbn [strcpy_loop]. destruct l as [|x l]; cbn [length app] in *.
  - apply cstr_nil in Hc. rewrite (ld_ok _ _ _ Hc). cbn [bind]. rewrite st_ok by (apply Hp; lia).
    cbn. eexists. split; [done|]. apply updated_insert_head, updated_nil.
  - apply cstr_cons in Hc as (Hx & Hx0 & Hc). rewrite (ld_ok _ _ _ Hx). cbn [bind].
    rewrite st_ok by (apply Hp; lia). cbn [bind]. rewrite (proj2 (Z.eqb_neq x 0)) by lia.
    destruct (IH (<[p := x]> m) (p + 1) (s + 1) l) as (m' & Hm' & Hu).
    + eapply cstr_frame; [|done]. intros a Ha. rewrite lookup_insert_ne; [done|]. lia.
    + apply mapped_insert. intros a Ha. apply Hp. lia.
    + lia.
    + lia.
    + exists m'. split; [done|]. by apply updated_insert_head.
Qed.

(** Comparison of strings, the end of a string before every character. *)
Fixpoint str_compare (l1 l2 : list Z) : comparison :=
  match l1, l2 with
  | [], [] => Eq
  | [], _ :: _ => Lt
  | _ :: _, [] => Gt
  | x :: l1, y :: l2 => match x ?= y with Eq => str_compare l1 l2 | c => c end
  end.

Lemma str_compare_eq l1 l2 : str_compare l1 l2 = Eq ↔ l1 = l2.
Proof.
  revert l2. induction l1 as [|x l1 IH]; intros [|y l2]; cbn; [done..|].
  destruct (Z.compare_spec x y) as [->|H|H]; [|naive_solver lia..].
  rewrite IH. naive_solver.
Qed.

Lemma strcmp_loop_ok fuel m s1 s2 l1 l2 :
  cstr m s1 l1 → cstr m s2 l2 → (length l1 < fuel)%nat →
  ∃ d, strcmp_loop fuel m s1 s2 = Ok d ∧ (d ?= 0) = str_compare l1 l2.
Proof.
  revert s1 s2 l1 l2. induction fuel as [|fuel IH]; intros s1 s2 l1 l2 H1 H2 Hf; [lia|].
  cbn [strcmp_loop]. destruct l1 as [|x l1].
  - apply cstr_nil in H1. rewrite (ld_ok _ _ _ H1). cbn [bind].
    destruct l2 as [|y l2]; [apply cstr_nil in H2|apply cstr_cons in H2 as (H2 & ? & _)];
      rewrite (ld_ok _ _ _ H2); cbn [bind]; eexists; (split; [done|]); [done|].
    apply Z.compare_lt_iff. lia.
  - apply cstr_cons in H1 as (H1 & Hx & Hc). rewrite (ld_ok _ _ _ H1). cbn [bind].
    rewrite (proj2 (Z.eqb_neq x 0)) by lia.
    destruct l2 as [|y l2]; [apply cstr_nil in H2|apply cstr_cons in H2 as (H2 & Hy & Hc2)];
      rewrite (ld_ok _ _ _ H2); cbn [bind str_compare].
    + rewrite (proj2 (Z.eqb_neq x 0)) by lia. eexists; split; [done|]. apply Z.compare_gt_iff. lia.
    + destruct (Z.eqb_spec x y) as [->|Hne].
      * rewrite Z.compare_refl. apply IH; [done..|cbn in Hf; lia].
      * eexists; split; [done|]. rewrite (Z.compare_sub x y).
        destruct (Z.compare_spec (x - y) 0) as [E|E|E]; [lia|done..].
Qed.

Lemma strchr_loop_ok fuel m s l c :
  cstr m s l → (length l < fuel)%nat →
  strchr_loop fuel m s c = Ok ((λ p : nat * Z, s + p.1) <$> list_find (c =.) l).
Proof.
  revert s l. induction fuel as [|fuel IH]; intros s l Hc Hf; [lia|]. cbn [strchr_loop].
  destruct l as [|x l].
  - apply cstr_nil in Hc. by rewrite (ld_ok _ _ _ Hc).
  - apply cstr_cons in Hc as (Hx & Hx0 & Hc). rewrite (ld_ok _ _ _ Hx). cbn [bind list_find].
    rewrite (proj2 (Z.eqb_neq x 0)) by lia. destruct (Z.eqb_spec x c) as [->|Hne].
    + rewrite decide_True by done. cbn. f_equal. f_equal. lia.
    + rewrite decide_False by congruence. rewrite (IH _ l) by (done || (cbn in Hf; lia)).
      destruct (list_find (c =.) l) as [[i y]|]; cbn; [|done]. do 2 f_equal. lia.
Qed.

(** ** Termination

    [scanned m s0 s fuel]: the loop has come from [s0] to [s] through mapped memory,
    and the fuel left covers the rest of memory. *)
Definition scanned (m : mem) (s0 s : Z) (fuel : nat) : Prop :=
  s0 ≤ s ∧ mapped m s0 (s - s0) ∧ size m < fuel + (s - s0).

Lemma scanned_start m s : scanned m s s (scan_fuel m).
Proof. unfold scanned, scan_fuel. split_and!; [lia| |lia]. intros a Ha. lia. Qed.

Lemma scanned_fuel m s0 s : ¬ scanned m s0 s 0.
Proof. intros (H0 & Hm & Hsz). apply mapped_size in Hm. lia. Qed.

Lemma scanned_step m s0 s fuel c : ld m s = Ok c → scanned m s0 s (S fuel) → scanned m s0 (s + 1) fuel.
Proof.
  unfold ld. intros Hc%deref_ok (H0 & Hm & Hsz). split_and!; [lia| |lia].
  intros a Ha. destruct (decide (a = s)) as [->|]; [by eexists|]. apply Hm. lia.
Qed.

Lemma scanned_st m m' s0 s fuel p v : st m p v = Ok m' → scanned m s0 s fuel → scanned m' s0 s fuel.
Proof.
  unfold st. destruct (m !! p) eqn:E; [|done]. intros [= <-] (H0 & Hm & Hsz).
  split_and!; [done|by apply mapped_insert|]. rewrite map_size_insert_Some; [done|by eexists].
Qed.

(** One round of a scan: the fuel is not used up, the byte at [s] is read or faults. *)
Ltac scan_round IH :=
  match goal with
  | Hs : scanned _ _ _ 0 |- _ => by apply scanned_fuel in Hs
  | |- context [ld ?m ?s] =>
      let c := fresh "c" in let E := fresh "E" in
      destruct (ld m s) as [c| | |] eqn:E; cbn [bind]; try done;
      [repeat case_match; try done; try (eapply IH, scanned_step; eassumption)
      |exfalso; unfold ld in E; by destruct (m !! s)]
  end.

Lemma strlen_loop_total fuel m s0 s cnt : scanned m s0 s fuel → strlen_loop fuel m s cnt ≠ NoFuel.
Proof. revert s cnt. induction fuel as [|fuel IH]; intros s cnt Hs; cbn [strlen_loop]; scan_round IH. Qed.

Lemma strnlen_loop_total fuel m s0 s len cnt : scanned m s0 s fuel → strnlen_loop fuel m s len cnt ≠ NoFuel.
Proof.
  revert s cnt. induction fuel as [|fuel IH]; intros s cnt Hs; cbn [strnlen_loop]; [scan_round IH|].
  case_match; [|done]. scan_round IH.
Qed.

Lemma strchr_loop_total fuel m s0 s c : scanned m s0 s fuel → strchr_loop fuel m s c ≠ NoFuel.
Proof. revert s. induction fuel as [|fuel IH]; intros s Hs; cbn [strchr_loop]; scan_round IH. Qed.

Lemma strfind_loop_total fuel m s0 s c : scanned m s0 s fuel → strfind_loop fuel m s c ≠ NoFuel.
Proof. revert s. induction fuel as [|fuel IH]; intros s Hs; cbn [strfind_loop]; scan_round IH. Qed.

Lemma strcmp_loop_total fuel m s0 s1 s2 : scanned m s0 s1 fuel → strcmp_loop fuel m s1 s2 ≠ NoFuel.
Proof.
  revert s1 s2. induction fuel as [|fuel IH]; intros s1 s2 Hs; cbn [strcmp_loop]; [scan_round IH|].
  destruct (ld m s1) as [c| | |] eqn:E; cbn [bind]; try done; [|unfold ld in E; by destruct (m !! s1)].
  destruct (ld m s2) as [c2| | |] eqn:E2; [| | |unfold ld in E2; by destruct (m !! s2)];
    cbn [bind]; repeat case_match; try done. eapply IH, scanned_step; eassumption.
Qed.

Lemma strcpy_loop_total fuel m s0 p s : scanned m s0 s fuel → strcpy_loop fuel m p s ≠ NoFuel.
Proof.
  revert m p s. induction fuel as [|fuel IH]; intros m p s Hs; cbn [strcpy_loop]; [scan_round IH|].
  destruct (ld m s) as [c| | |] eqn:E; cbn [bind]; try done; [|unfold ld in E; by destruct (m !! s)].
  destruct (st m p c) as [m'| | |] eqn:Es; [| | |unfold st in Es; by destruct (m !! p)]; cbn [bind]; try done.
  case_match; [done|]. eapply IH, scanned_st; [done|]. eapply scanned_step; eassumption.
Qed.

Lemma skip_blanks_total fuel m s0 s : scanned m s0 s fuel → skip_blanks fuel m s ≠ NoFuel.
Proof. revert s. induction fuel as [|fuel IH]; intros s Hs; cbn [skip_blanks]; scan_round IH. Qed.

Lemma strtol_digits_total fuel m s0 s base val : scanned m s0 s fuel → strtol_digits fuel m s base val ≠ NoFuel.
Proof. revert s val. induction fuel as [|fuel IH]; intros s val Hs; cbn [strtol_digits]; scan_round IH. Qed.

Lemma ld_not_nofuel m a : ld m a ≠ NoFuel.
Proof. unfold ld. by destruct (m !! a). Qed.

Lemma st_fuel m a v : st m a v ≠ NoFuel.
Proof. unfold st. by destruct (m !! a). Qed.

Lemma copy_up_fuel n m d s : copy_up n m d s ≠ NoFuel.
Proof.
  revert m d s. induction n as [|n IH]; intros m d s; [done|]. cbn. unfold ld. destruct (m !! s); cbn; [|done].
  destruct (st m d _) eqn:Hs; cbn; [apply IH|done..|]. by apply st_fuel in Hs.
Qed.

Lemma copy_down_fuel n m d s : copy_down n m d s ≠ NoFuel.
Proof.
  revert m d s. induction n as [|n IH]; intros m d s; [done|]. cbn. unfold ld. destruct (m !! _); cbn; [|done].
  destruct (st m _ _) eqn:Hs; cbn; [apply IH|done..|]. by apply st_fuel in Hs.
Qed.

Lemma memmove_fuel m d s n : memmove m d s n ≠ NoFuel.
Proof.
  unfold memmove. case_match; [destruct (copy_down _ _ _ _) eqn:E|destruct (copy_up _ _ _ _) eqn:E]; cbn; try done.
  - by apply copy_down_fuel in E.
  - by apply copy_up_fuel in E.
Qed.

Lemma strtol_total m s base : strtol m s base ≠ NoFuel.
Proof.
  unfold strtol. apply bind_not_nofuel; [by eapply skip_blanks_total, scanned_start|intros s1].
  apply bind_not_nofuel; [apply ld_not_nofuel|intros c].
  match goal with |- context [let '(_, _) := ?e in _] => destruct e as [s2 neg] end.
  apply bind_not_nofuel; [apply ld_not_nofuel|intros c0].
  apply bind_not_nofuel; [destruct (_ && _); [apply bind_not_nofuel; [apply ld_not_nofuel|done]|done]|intros hex].
  match goal with |- context [let '(_, _) := ?e in _] => destruct e as [s3 b3] end.
  apply bind_not_nofuel; [by eapply strtol_digits_total, scanned_start|]. by intros [].
Qed.

(** ** Properties *)

Lemma memmove_ok m dst src l :
  bytes_at m src l → mapped m dst (length l) →
  ∃ m', memmove m dst src (length l) = Ok (dst, m') ∧ updated m m' dst l.
Proof.
  intros Hl Hd. unfold memmove. rewrite Nat2Z.id.
  destruct ((src <? dst) && (dst <? src + length l)) eqn:E.
  - apply andb_true_iff in E as [E1%Z.ltb_lt _].
    destruct (copy_down_ok m dst src l Hl Hd E1) as (m' & -> & Hu). by exists m'.
  - destruct (copy_up_ok m dst src l Hl Hd) as (m' & -> & Hu); [|by exists m'].
    intros Hin. apply andb_false_iff in E as [E%Z.ltb_ge|E%Z.ltb_ge]; lia.
Qed.

(** [memmove] copies a block of memory between any two mapped
    places, also when they overlap: the destination then holds the bytes the source
    held before, and nothing else changes. *)
Theorem memmove_copies m dst src l :
  bytes_at m src l → mapped m dst (length l) →
  ∃ m', memmove m dst src (length l) = Ok (dst, m') ∧ updated m m' dst l.
Proof. apply memmove_ok. Qed.

(** [strcat] appends the source string to the destination string
    and writes nothing but the appended characters and the terminating null;
    it returns the end of the first string, which is where [strcpy] started. *)
Theorem strcat_appends m dst src l1 l2 :
  cstr m dst l1 → cstr m src l2 → length l1 < 2 ^ 32 →
  mapped m dst (length l1 + length l2 + 1) →
  dst + length l1 + length l2 < src ∨ src + length l2 < dst →
  ∃ m', strcat m dst src = Ok (dst + length l1, m') ∧ cstr m' dst (l1 ++ l2) ∧ cstr m' src l2 ∧
    (∀ a, ¬ (dst + length l1 ≤ a ≤ dst + length l1 + length l2) → m' !! a = m !! a).
Proof.
  intros H1 H2 Hlen Hd Hdis. unfold strcat. rewrite (strlen_ok _ _ l1) by done. cbn [bind].
  unfold strcpy. destruct (strcpy_loop_ok (scan_fuel m) m (dst + length l1) src l2) as (m' & -> & Hu);
    [done| |by eapply cstr_fuel|lia|].
  { intros a Ha. apply Hd. lia. }
  cbn [bind]. exists m'.
  assert (∀ a, ¬ (dst + length l1 ≤ a ≤ dst + length l1 + length l2) → m' !! a = m !! a) as Hf.
  { intros a Ha. eapply updated_frame; [done|]. rewrite length_app. cbn. lia. }
  split_and!; [done| | |done].
  - destruct H1 as [Hb1 Hn1], H2 as [_ Hn2]. split; [|by apply Forall_app].
    rewrite <- app_assoc. apply bytes_at_app. split; [|by eapply updated_bytes].
    apply bytes_at_app in Hb1 as [Hb1 _]. eapply bytes_at_frame; [|done]. intros a Ha. apply Hf. lia.
  - eapply cstr_frame; [|done]. intros a Ha. apply Hf. lia.
Qed.

(** [strcmp] returns a number whose sign is the lexicographic order
    of the two strings, so it is zero exactly for equal strings. *)
Theorem strcmp_order m s1 s2 l1 l2 :
  cstr m s1 l1 → cstr m s2 l2 →
  ∃ d, strcmp m s1 s2 = Ok d ∧ (d ?= 0) = str_compare l1 l2 ∧ (d = 0 ↔ l1 = l2).
Proof.
  intros H1 H2. destruct (strcmp_loop_ok (scan_fuel m) m s1 s2 l1 l2) as (d & Hd & Hc); [done..|by eapply cstr_fuel|].
  exists d. split_and!; [done|done|]. rewrite <- str_compare_eq, <- Hc. symmetry. apply Z.compare_eq_iff.
Qed.

(** The loops of string.c over strings that need not be terminated or
    disjoint stop on every memory: they return or fault at the end of the mapped
    memory, also when the copy overwrites the string it reads. *)
Theorem string_scans_terminate m s s' c len base :
  strlen m s ≠ NoFuel ∧ strnlen m s len ≠ NoFuel ∧ strchr m s c ≠ NoFuel ∧ strfind m s c ≠ NoFuel ∧
  strcmp m s s' ≠ NoFuel ∧ strcpy m s' s ≠ NoFuel ∧ strcat m s' s ≠ NoFuel ∧ strtol m s base ≠ NoFuel.
Proof.
  assert (∀ d, strcpy m d s ≠ NoFuel) as Hcpy.
  { intros d. apply bind_not_nofuel; [by eapply strcpy_loop_total, scanned_start|done]. }
  split_and!; [by eapply strlen_loop_total, scanned_start|by eapply strnlen_loop_total, scanned_start
    |by eapply strchr_loop_total, scanned_start|by eapply strfind_loop_total, scanned_start
    |by eapply strcmp_loop_total, scanned_start|by apply Hcpy| |apply strtol_total].
  apply bind_not_nofuel; [by eapply strlen_loop_total, scanned_start|intros; apply Hcpy].
Qed.

(** *** Memory with the strings [ab] at 10 and [ac] at 20, and room behind the first. *)
Definition demo_mem : mem :=
  list_to_map (zip [10; 11; 12; 13; 14; 20; 21; 22] [97; 98; 0; 7; 7; 97; 99; 0]).

Lemma memmove_copies_witness :
  ∃ m', memmove demo_mem 11 10 3 = Ok (11, m') ∧ updated demo_mem m' 11 [97; 98; 0].
Proof.
  apply (memmove_copies demo_mem 11 10 [97; 98; 0]).
  - repeat split.
  - intros a Ha. cbn in Ha. assert (a = 11 ∨ a = 12 ∨ a = 13) as [->|[->| ->]] by lia; by eexists.
Defined.

Lemma strcat_appends_witness :
  ∃ m', strcat demo_mem 10 20 = Ok (12, m') ∧ cstr m' 10 [97; 98; 97; 99] ∧ cstr m' 20 [97; 99] ∧
    (∀ a, ¬ (12 ≤ a ≤ 14) → m' !! a = demo_mem !! a).
Proof.
  apply (strcat_appends demo_mem 10 20 [97; 98] [97; 99]).
  - split; [by repeat split|by repeat constructor].
  - split; [by repeat split|by repeat constructor].
  - done.
  - intros a Ha. cbn in Ha.
    assert (a = 10 ∨ a = 11 ∨ a = 12 ∨ a = 13 ∨ a = 14) as [->|[->|[->|[->| ->]]]] by lia; by eexists.
  - cbn. lia.
Defined.

Lemma strcmp_order_witness :
  ∃ d, strcmp demo_mem 10 20 = Ok d ∧ (d ?= 0) = Lt ∧ (d = 0 ↔ [97; 98] = [97; 99]).
Proof.
  apply (strcmp_order demo_mem 10 20 [97; 98] [97; 99]); (split; [by repeat split|by repeat constructor]).
Defined.
