(* ===== verification/KString.v ===== *)
(** * kern/libs/string.c: copies of strings on the heap

    [block] is what [kmalloc] returned: the address of a fresh block, or nothing. *)

From S2P Require Import Prelude CString.

Definition strdup (m : mem) (src : Z) (block : option Z) : res (option Z * mem) :=
  let! len := strlen m src in
  match block with
  | None => Ok (None, m)
  | Some dst =>
      let! (_, m) := memcpy m dst src len in
      let! m := st m (dst + len) 0 in Ok (Some dst, m)
  end.

Definition stradd (m : mem) (src1 src2 : Z) (block : option Z) : res (option Z * mem) :=
  let! len1 := strlen m src1 in
  let! len2 := strlen m src2 in
  match block with
  | None => Ok (None, m)
  | Some ret =>
      let! (_, m) := memcpy m ret src1 len1 in let dst := ret + len1 in
      let! (_, m) := memcpy m dst src2 len2 in let dst := dst + len2 in
      let! m := st m dst 0 in Ok (Some ret, m)
  end.

(** [n] addresses from [d] on that hold no part of the string at [s]. *)
Definition apart (d n s : Z) (l : list Z) : Prop := d + n ≤ s ∨ s + Z.of_nat (length l) < d.

(** [memcpy] of a string without its null, and what else is there. *)
Lemma copy_chars m d s l : cstr m s l → mapped m d (Z.of_nat (length l)) → apart d (Z.of_nat (length l)) s l →
  ∃ m', memcpy m d s (Z.of_nat (length l)) = Ok (d, m') ∧ updated m m' d l.
Proof.
  intros [Hb _] Hm Ha. apply bytes_at_app in Hb as [Hb _]. unfold memcpy. rewrite Nat2Z.id. unfold apart in Ha.
  destruct (copy_up_ok m d s l Hb Hm) as (m' & -> & Hu); [lia|]. by exists m'.
Qed.

Lemma update_mapped m m' d l s n : updated m m' d l → mapped m s n → mapped m' s n.
Proof.
  intros Hu Hm a Ha. rewrite Hu. case_decide; [|by apply Hm]. apply lookup_lt_is_Some_2. lia.
Qed.

Lemma strdup_ok m src dst l : cstr m src l → Z.of_nat (length l) < 2 ^ 32 → mapped m dst (Z.of_nat (length l) + 1) →
  apart dst (Z.of_nat (length l) + 1) src l →
  ∃ m', strdup m src (Some dst) = Ok (Some dst, m') ∧ updated m m' dst (l ++ [0]) ∧ cstr m' dst l ∧ cstr m' src l.
Proof.
  intros Hc Hl Hm Ha. unfold strdup. rewrite (strlen_ok _ _ l) by done. cbn [bind].
  destruct (copy_chars m dst src l Hc) as (m1 & -> & Hu1); [intros a ?; apply Hm; lia|unfold apart in *; lia|]. cbn [bind].
  rewrite st_ok by (eapply update_mapped; [done|exact Hm|lia]). cbn [bind]. eexists. split; [done|].
  assert (updated m (<[dst + Z.of_nat (length l) := 0]> m1) dst (l ++ [0])) as Hu.
  { intros a. rewrite length_app. cbn [length]. destruct (decide (a = dst + Z.of_nat (length l))) as [->|Hne].
    - rewrite lookup_insert_eq, decide_True by lia. rewrite lookup_app_r by lia.
      replace (Z.to_nat (dst + Z.of_nat (length l) - dst) - length l)%nat with 0%nat by lia. done.
    - rewrite lookup_insert_ne, Hu1 by done. do 2 case_decide; try lia; [|done]. by rewrite lookup_app_l by lia. }
  split_and!; [done|split; [by eapply updated_bytes|apply Hc]|]. eapply cstr_frame; [|exact Hc].
  intros a Hr. eapply updated_frame; [exact Hu|]. rewrite length_app. cbn [length]. unfold apart in Ha. lia.
Qed.

Lemma stradd_ok m src1 src2 dst l1 l2 : cstr m src1 l1 → cstr m src2 l2 → Z.of_nat (length l1) < 2 ^ 32 → Z.of_nat (length l2) < 2 ^ 32 →
  mapped m dst (Z.of_nat (length l1) + Z.of_nat (length l2) + 1) →
  apart dst (Z.of_nat (length l1) + Z.of_nat (length l2) + 1) src1 l1 → apart dst (Z.of_nat (length l1) + Z.of_nat (length l2) + 1) src2 l2 →
  ∃ m', stradd m src1 src2 (Some dst) = Ok (Some dst, m') ∧ cstr m' dst (l1 ++ l2).
Proof.
  intros Hc1 Hc2 Hl1 Hl2 Hm Ha1 Ha2. unfold stradd. rewrite (strlen_ok _ _ l1), (strlen_ok _ _ l2) by done. cbn [bind].
  destruct (copy_chars m dst src1 l1 Hc1) as (m1 & -> & Hu1); [intros a ?; apply Hm; lia|unfold apart in *; lia|]. cbn [bind].
  assert (cstr m1 src2 l2) as Hc2'.
  { eapply cstr_frame; [|exact Hc2]. intros a Hr. eapply updated_frame; [exact Hu1|]. unfold apart in Ha2. lia. }
  destruct (copy_chars m1 (dst + Z.of_nat (length l1)) src2 l2 Hc2') as (m2 & -> & Hu2);
    [intros a ?; eapply update_mapped; [done|exact Hm|lia]|unfold apart in *; lia|]. cbn [bind].
  rewrite st_ok by (eapply update_mapped; [done|eapply update_mapped; [done|exact Hm]|lia]). cbn [bind].
  eexists. split; [done|]. split; [|apply Forall_app; split; [apply Hc1|apply Hc2]].
  rewrite <- app_assoc. apply bytes_at_app. split; [|apply bytes_at_app; split].
  - eapply bytes_at_frame; [|eapply updated_bytes; exact Hu1]. intros a Hr. rewrite lookup_insert_ne by lia.
    eapply updated_frame; [exact Hu2|lia].
  - eapply bytes_at_frame; [|eapply updated_bytes; exact Hu2]. intros a Hr. by rewrite lookup_insert_ne by lia.
  - cbn. split; [apply lookup_insert_eq|done].
Qed.
