(* ===== verification/Printfmt.v ===== *)
(** * libs/printfmt.c: formatted output

    [vprintfmt] is generic in the state that [putch] works on and in the memory the
    [%s] arguments are read from; [vsnprintf] instantiates it with a [sprintbuf].
    The format is a list of characters with an index for the pointer [fmt]; a
    [va_list] is the list of the 32-bit words on the i386 stack, of which a
    [long long] takes two. *)

From Stdlib Require Import String Ascii.
From S2P Require Import Prelude CString.

#[local] Coercion Z.of_nat : nat >-> Z.

(** The characters of a string literal. *)
Fixpoint lit (s : string) : list Z :=
  match s with
  | EmptyString => []
  | String c s => Z.of_N (N_of_ascii c) :: lit s
  end.

Definition chr (c : ascii) : Z := Z.of_N (N_of_ascii c).

Definition u64 (z : Z) : Z := z `mod` 2 ^ 64.
Definition i64 (z : Z) : Z := (z + 2 ^ 63) `mod` 2 ^ 64 - 2 ^ 63.

(** A [char] promoted to [int]. *)
Definition schar (c : Z) : Z := if c <? 128 then c else c - 256.

Definition error_string : list (option (list Z)) :=
  [ None; Some (lit "unspecified error"); Some (lit "bad process"); Some (lit "invalid parameter");
    Some (lit "out of memory"); Some (lit "out of processes"); Some (lit "segmentation fault");
    None; Some (lit "invalid elf file"); Some (lit "process is killed"); Some (lit "panic failure");
    None; None; Some (lit "no such device"); Some (lit "device not available");
    Some (lit "device/file is busy"); Some (lit "no such file or directory");
    Some (lit "is a directory"); Some (lit "not a directory"); Some (lit "cross device link");
    Some (lit "unimplemented feature"); Some (lit "illegal seek"); Some (lit "too many files are open");
    Some (lit "file or directory already exists"); Some (lit "directory is not empty") ].

(** ** Arguments *)

Definition va_word (ap : list Z) : res (Z * list Z) :=
  match ap with w :: ap => Ok (u32 w, ap) | [] => Faulted end.

Definition va_int (ap : list Z) : res (Z * list Z) :=
  let! (w, ap) := va_word ap in Ok (i32 w, ap).

Definition va_long_long (ap : list Z) : res (Z * list Z) :=
  let! (lo, ap) := va_word ap in let! (hi, ap) := va_word ap in Ok (lo + hi * 2 ^ 32, ap).

Definition getuint (ap : list Z) (lflag : Z) : res (Z * list Z) :=
  if 2 <=? lflag then va_long_long ap else va_word ap.

Definition getint (ap : list Z) (lflag : Z) : res (Z * list Z) :=
  if 2 <=? lflag then let! (v, ap) := va_long_long ap in Ok (i64 v, ap) else va_int ap.

Record fmt_flags := mkFlags { padc : Z; width : Z; precision : Z; lflag : Z; altflag : bool }.

Definition no_flags : fmt_flags := mkFlags (chr " ") (-1) (-1) 0 false.

(** [process_precision]: a number is the width if there is none yet. *)
Definition process_precision (fl : fmt_flags) (p : Z) : fmt_flags :=
  if width fl <? 0 then mkFlags (padc fl) p (-1) (lflag fl) (altflag fl)
  else mkFlags (padc fl) (width fl) p (lflag fl) (altflag fl).

Definition fmt_at (fmt : list Z) (i : nat) : res Z :=
  if decide (i = length fmt) then Ok 0 else deref (fmt !! i).

(** The width field; [i] is the index behind [ch]. *)
Fixpoint width_digits (fuel : nat) (fmt : list Z) (i : nat) (ch prec : Z) : res (Z * nat) :=
  match fuel with
  | O => NoFuel
  | S fuel =>
      let prec := i32 (prec * 10 + ch - ch_0) in
      let! ch := fmt_at fmt i in
      if (ch <? ch_0) || (ch_9 <? ch) then Ok (prec, i) else width_digits fuel fmt (S i) ch prec
  end.

(** [for (fmt --; fmt[-1] != '%'; fmt --)], entered with [fmt = &fmt[S i]]. *)
Fixpoint back_to_percent (fmt : list Z) (i : nat) : res nat :=
  match i with
  | O => Faulted
  | S j => let! c := fmt_at fmt j in if c =? chr "%" then Ok i else back_to_percent fmt j
  end.

Section vprintfmt.
Context {S : Type} (putch : Z → S → res S) (memory : S → mem).

Fixpoint putn (n : nat) (c : Z) (s : S) : res S :=
  match n with O => Ok s | Datatypes.S n => let! s := putch c s in putn n c s end.

Definition digit_char (d : Z) : Z := from_option id 0 (lit "0123456789abcdef" !! Z.to_nat d).

(** 64 rounds suffice for a 64-bit [num] in a base of at least 2. *)
Fixpoint printnum (fuel : nat) (num base width padc : Z) (s : S) : res S :=
  match fuel with
  | O => NoFuel
  | Datatypes.S fuel =>
      let result := num `div` base in
      let md := num `mod` base in
      let! s := if base <=? num then printnum fuel result base (width - 1) padc s
                else putn (Z.to_nat (width - 1)) padc s in
      putch (digit_char md) s
  end.

(** The loop of [%s] that prints the characters read by [rd]. *)
Fixpoint put_chars (fuel : nat) (rd : S → Z → res Z) (p : Z) (fl : fmt_flags) (s : S) : res (Z * S) :=
  match fuel with
  | O => NoFuel
  | Datatypes.S fuel =>
      let! c := rd s p in
      let ch := schar c in
      if ch =? 0 then Ok (width fl, s)
      else if (precision fl <? 0) || (0 <=? precision fl - 1) then
        let! s := if altflag fl && ((ch <? chr " ") || (chr "~" <? ch)) then putch (chr "?") s
                  else putch ch s in
        put_chars fuel rd (p + 1)
          (mkFlags (padc fl) (width fl - 1) (if precision fl <? 0 then precision fl else precision fl - 1)
             (lflag fl) (altflag fl)) s
      else Ok (width fl, s)
  end.

(** [case 's'] after [p] is fetched; [len] is [strnlen(p, precision)]. *)
Definition put_string (fuel : nat) (rd : S → Z → res Z) (len : S → res Z) (p : Z)
    (fl : fmt_flags) (s : S) : res S :=
  let! (w, s) := if (0 <? width fl) && negb (padc fl =? chr "-") then
                   let! n := len s in
                   let w := i32 (width fl - n) in
                   let! s := putn (Z.to_nat w) (padc fl) s in Ok (Z.min w 0, s)
                 else Ok (width fl, s) in
  let! (w, s) := put_chars fuel rd p (mkFlags (padc fl) w (precision fl) (lflag fl) (altflag fl)) s in
  putn (Z.to_nat w) (chr " ") s.

Definition rd_lit (l : list Z) (_ : S) (i : Z) : res Z := fmt_at l (Z.to_nat i).

Definition put_literal (l : list Z) (fl : fmt_flags) (s : S) : res S :=
  put_string (Datatypes.S (length l)) (rd_lit l)
    (λ _, Ok (Z.min (length l) (u32 (precision fl)))) 0 fl s.

(** [num] is negative: its sign goes out first, then the absolute value. *)
Definition put_signed (num : Z) (fl : fmt_flags) (s : S) : res S :=
  if num <? 0 then
    let! s := putch (chr "-") s in printnum 64 (u64 (- num)) 10 (width fl) (padc fl) s
  else printnum 64 num 10 (width fl) (padc fl) s.

(** [case 'e']; the calls of [printfmt] with ["error %d"] and ["%s"] are unfolded. *)
Definition put_error (err : Z) (s : S) : res S :=
  let err := if err <? 0 then i32 (- err) else err in
  let unknown := let! s := put_literal (lit "error ") no_flags s in put_signed err no_flags s in
  if MAXERROR <? err then unknown
  else if err <? 0 then Faulted
  else match error_string !! Z.to_nat err with
       | Some (Some p) => put_literal p no_flags s
       | _ => unknown
       end.

(** From [reswitch] to the end of the escape; [i] is the index of the next
    character. The result is the index behind the escape. *)
Fixpoint escape (fuel : nat) (fmt : list Z) (i : nat) (fl : fmt_flags) (ap : list Z) (s : S)
    : res (nat * list Z * S) :=
  match fuel with
  | O => NoFuel
  | Datatypes.S fuel =>
      let! ch := fmt_at fmt i in
      let i := Datatypes.S i in
      if ch =? chr "-" then
        escape fuel fmt i (mkFlags (chr "-") (width fl) (precision fl) (lflag fl) (altflag fl)) ap s
      else if ch =? chr "0" then
        escape fuel fmt i (mkFlags (chr "0") (width fl) (precision fl) (lflag fl) (altflag fl)) ap s
      else if (chr "1" <=? ch) && (ch <=? chr "9") then
        let! (p, i) := width_digits (Datatypes.S (length fmt)) fmt i ch 0 in
        escape fuel fmt i (process_precision fl p) ap s
      else if ch =? chr "*" then
        let! (p, ap) := va_int ap in escape fuel fmt i (process_precision fl p) ap s
      else if ch =? chr "." then
        escape fuel fmt i (mkFlags (padc fl) (if width fl <? 0 then 0 else width fl) (precision fl)
                             (lflag fl) (altflag fl)) ap s
      else if ch =? chr "#" then
        escape fuel fmt i (mkFlags (padc fl) (width fl) (precision fl) (lflag fl) true) ap s
      else if ch =? chr "l" then
        escape fuel fmt i (mkFlags (padc fl) (width fl) (precision fl) (lflag fl + 1) (altflag fl)) ap s
      else if ch =? chr "c" then
        let! (c, ap) := va_int ap in let! s := putch c s in Ok (i, ap, s)
      else if ch =? chr "e" then
        let! (err, ap) := va_int ap in let! s := put_error err s in Ok (i, ap, s)
      else if ch =? chr "s" then
        let! (p, ap) := va_word ap in
        let! s := if p =? 0 then put_literal (lit "(null)") fl s
                  else put_string (scan_fuel (memory s)) (λ s, ld (memory s))
                         (λ s, strnlen (memory s) p (u32 (precision fl))) p fl s in
        Ok (i, ap, s)
      else if ch =? chr "d" then
        let! (num, ap) := getint ap (lflag fl) in let! s := put_signed num fl s in Ok (i, ap, s)
      else if ch =? chr "u" then
        let! (num, ap) := getuint ap (lflag fl) in
        let! s := printnum 64 num 10 (width fl) (padc fl) s in Ok (i, ap, s)
      else if ch =? chr "o" then
        let! (num, ap) := getuint ap (lflag fl) in
        let! s := printnum 64 num 8 (width fl) (padc fl) s in Ok (i, ap, s)
      else if ch =? chr "p" then
        let! s := putch (chr "0") s in
        let! s := putch (chr "x") s in
        let! (num, ap) := va_word ap in
        let! s := printnum 64 num 16 (width fl) (padc fl) s in Ok (i, ap, s)
      else if ch =? chr "x" then
        let! (num, ap) := getuint ap (lflag fl) in
        let! s := printnum 64 num 16 (width fl) (padc fl) s in Ok (i, ap, s)
      else if ch =? chr "%" then
        let! s := putch ch s in Ok (i, ap, s)
      else
        let! s := putch (chr "%") s in
        let! i := back_to_percent fmt (pred i) in Ok (i, ap, s)
  end.

Fixpoint vprintfmt_loop (fuel : nat) (fmt : list Z) (i : nat) (ap : list Z) (s : S) : res S :=
  match fuel with
  | O => NoFuel
  | Datatypes.S fuel =>
      let! ch := fmt_at fmt i in
      if ch =? chr "%" then
        let! (i, ap, s) := escape (Datatypes.S (length fmt)) fmt (Datatypes.S i) no_flags ap s in
        vprintfmt_loop fuel fmt i ap s
      else if ch =? 0 then Ok s
      else let! s := putch ch s in vprintfmt_loop fuel fmt (Datatypes.S i) ap s
  end.

Definition vprintfmt (fmt : list Z) (ap : list Z) (s : S) : res S :=
  vprintfmt_loop (Datatypes.S (length fmt)) fmt 0 ap s.

End vprintfmt.

(** ** struct sprintbuf *)

Record sprintbuf := mkSprint { buf : Z; ebuf : Z; cnt : Z; sp_mem : mem }.

Definition sprintputch (ch : Z) (b : sprintbuf) : res sprintbuf :=
  let c := i32 (cnt b + 1) in
  if buf b <? ebuf b then
    let! m := st (sp_mem b) (buf b) (u8 ch) in Ok (mkSprint (buf b + 1) (ebuf b) c m)
  else Ok (mkSprint (buf b) (ebuf b) c (sp_mem b)).

Definition vsnprintf (m : mem) (str size : Z) (fmt ap : list Z) : res (Z * mem) :=
  let ebuf := str + size - 1 in
  if (str =? 0) || (ebuf <? str) then Ok (- E_INVAL, m)
  else
    let! b := vprintfmt sprintputch sp_mem fmt ap (mkSprint str ebuf 0 m) in
    let! m := st (sp_mem b) (buf b) 0 in
    Ok (cnt b, m).

(** ** Numbers that are printed and read back *)

(** [putch] into a list of characters. *)
Definition collect (c : Z) (l : list Z) : res (list Z) := Ok (l ++ [c]).

Lemma digit_of_char d : 0 ≤ d < 16 → digit_of (digit_char d) = Some d ∧ 0 < digit_char d < ch_x.
Proof.
  intros Hd. assert (Forall (λ d, digit_of (digit_char d) = Some d ∧ 0 < digit_char d < ch_x) (seqZ 0 16)) as Hall.
  { repeat (constructor; [by vm_compute|]). constructor. }
  rewrite Forall_forall in Hall. apply Hall, elem_of_seqZ. lia.
Qed.

(** The digits [l] of [num] add [num] to the value that [strtol] has read so far. *)
Definition reads_as (base num : Z) (l : list Z) : Prop :=
  ∀ fuel m s v, bytes_at m s l → 0 ≤ v → v * base ^ length l + num < 2 ^ 31 →
    strtol_digits (length l + fuel) m s base v =
    strtol_digits fuel m (s + length l) base (v * base ^ length l + num).

Lemma reads_as_digit base d : 0 ≤ d < base → base ≤ 16 → reads_as base d [digit_char d].
Proof.
  intros Hd Hb fuel m s v [Hx _] Hv. cbn [length Nat.add]. rewrite Z.pow_1_r. intros Hlt.
  cbn [strtol_digits]. rewrite (ld_ok _ _ _ Hx). cbn [bind].
  destruct (digit_of_char d) as [-> _]; [lia|]. rewrite (proj2 (Z.leb_gt _ _)) by lia.
  rewrite i32_small by nia. done.
Qed.

Lemma reads_as_app base num d l1 l2 :
  2 ≤ base → 0 ≤ num → reads_as base num l1 → reads_as base d l2 → 0 ≤ d →
  reads_as base (num * base ^ length l2 + d) (l1 ++ l2).
Proof.
  intros Hb Hn H1 H2 Hd fuel m s v [Hl1 Hl2]%bytes_at_app Hv. rewrite length_app, Nat2Z.inj_add.
  rewrite Z.pow_add_r by lia. intros Hlt.
  assert (0 < base ^ length l2) by (apply Z.pow_pos_nonneg; lia).
  rewrite <- Nat.add_assoc, H1; [|done|done|nia].
  assert (0 ≤ v * base ^ length l1) by (apply Z.mul_nonneg_nonneg; [done|apply Z.pow_nonneg; lia]).
  rewrite H2; [|done|lia|nia]. f_equal; [lia|nia].
Qed.

Lemma printnum_digits (fuel : nat) num base w pc acc :
  2 ≤ base ≤ 16 → 0 ≤ num < 2 ^ fuel → (0 < fuel)%nat → w ≤ 1 →
  ∃ l, printnum collect fuel num base w pc acc = Ok (acc ++ l) ∧ l ≠ [] ∧
    Forall (λ c, 0 < c < ch_x ∧ digit_of c ≠ None) l ∧ reads_as base num l.
Proof.
  intros Hb. revert num w. induction fuel as [|fuel IH]; intros num w Hn Hf Hw; [lia|].
  cbn [printnum].
  pose proof (Z.div_mod num base ltac:(lia)) as Hdm.
  pose proof (Z.mod_pos_bound num base ltac:(lia)) as Hm.
  destruct (digit_of_char (num `mod` base)) as [Hdig Hrng]; [lia|].
  assert (Forall (λ c, 0 < c < ch_x ∧ digit_of c ≠ None) [digit_char (num `mod` base)]) as Hall.
  { constructor; [|constructor]. by rewrite Hdig. }
  destruct (Z.leb_spec base num) as [Hle|Hlt]; cbn [bind].
  - assert (2 ^ S fuel = 2 * 2 ^ fuel) as Hpow by (rewrite Nat2Z.inj_succ, Z.pow_succ_r by lia; lia).
    destruct (IH (num `div` base) (w - 1)) as (l & -> & Hl & Hc & Hr); [|destruct fuel; [cbn in *; lia|lia]|lia|].
    { split; [apply Z.div_pos; lia|]. apply Z.div_lt_upper_bound; nia. }
    cbn [bind]. exists (l ++ [digit_char (num `mod` base)]). unfold collect. split_and!.
    + by rewrite app_assoc.
    + by destruct l.
    + by apply Forall_app.
    + replace num with (num `div` base * base ^ length [digit_char (num `mod` base)] + num `mod` base) at 1
        by (cbn [length]; rewrite Z.pow_1_r; lia).
      apply reads_as_app; [lia|apply Z.div_pos; lia|done|apply reads_as_digit; lia|lia].
  - replace (Z.to_nat (w - 1)) with O by lia. cbn [putn bind].
    exists [digit_char (num `mod` base)]. split_and!; [done..|].
    replace num with (num `mod` base) at 1 by (apply Z.mod_small; lia). by apply reads_as_digit; lia.
Qed.

(** C40: What [printnum] prints for a number is read back as that number
    by [strtol], in every base from 2 to 16. *)
Theorem strtol_printnum num base pc :
  2 ≤ base ≤ 16 → 0 ≤ num < 2 ^ 31 →
  ∃ l, printnum collect 64 num base (-1) pc [] = Ok l ∧ l ≠ [] ∧
    ∀ m s, cstr m s l → strtol m s base = Ok (num, s + length l).
Proof.
  intros Hb Hn. destruct (printnum_digits 64 num base (-1) pc []) as (l & Hp & Hne & Hall & Hr);
    [done|lia..|]. cbn [app] in Hp. exists l. split_and!; [done..|]. intros m s Hc.
  pose proof (cstr_fuel _ _ _ Hc) as Hfuel. destruct Hc as [Hb' _].
  destruct l as [|c l]; [done|]. inversion_clear Hall as [|? ? [Hc0 Hd] Hl].
  pose proof Hb' as [Hx Hrest]. unfold strtol. cbn [skip_blanks scan_fuel].
  assert (c ≠ ch_space ∧ c ≠ ch_tab ∧ c ≠ ch_plus ∧ c ≠ ch_minus) as (H1 & H2 & H3 & H4).
  { split_and!; intros ->; by vm_compute in Hd. }
  rewrite (ld_ok _ _ _ Hx). cbn [bind].
  rewrite (proj2 (Z.eqb_neq c ch_space)), (proj2 (Z.eqb_neq c ch_tab)) by done. cbn [orb bind].
  rewrite (ld_ok _ _ _ Hx). cbn [bind].
  rewrite (proj2 (Z.eqb_neq c ch_plus)), (proj2 (Z.eqb_neq c ch_minus)) by done.
  rewrite (ld_ok _ _ _ Hx). cbn [bind]. rewrite (proj2 (Z.eqb_neq base 0)) by lia. cbn [orb andb].
  assert ((if (base =? 16) && (c =? ch_0) then let! c1 := ld m (s + 1) in Ok (c1 =? ch_x) else Ok false) = Ok false)
    as ->.
  { destruct (_ && _); [|done]. destruct l as [|c1 l]; cbn [app bytes_at] in Hrest.
    - by rewrite (ld_ok _ _ _ (proj1 Hrest)).
    - inversion_clear Hl as [|? ? [Hc1 _] _]. rewrite (ld_ok _ _ _ (proj1 Hrest)). cbn [bind].
      by rewrite (proj2 (Z.eqb_neq c1 ch_x)) by lia. }
  cbn [bind]. apply bytes_at_app in Hb' as [Hbl [H0 _]].
  replace (scan_fuel m) with (length (c :: l) + S (scan_fuel m - length (c :: l) - 1))%nat by lia.
  rewrite Hr by (done || lia). cbn [strtol_digits]. rewrite (ld_ok _ _ _ H0). cbn [bind].
  by vm_compute (digit_of 0).
Qed.

Lemma strtol_printnum_witness :
  ∃ l, printnum collect 64 51966 16 (-1) 32 [] = Ok l ∧ l ≠ [] ∧
    ∀ m s, cstr m s l → strtol m s 16 = Ok (51966, s + length l).
Proof. apply (strtol_printnum 51966 16 32); lia. Defined.

(** ** Bounds of [vsnprintf] *)

Section bounds.
Context {S : Type} (putch : Z → S → res S) (memory : S → mem).
Context (I : S → Prop) (D : gset Z).
Context (putch_keeps : ∀ c s, I s → yields I (putch c s))
  (memory_dom : ∀ s, I s → dom (memory s) = D).

Lemma putn_keeps n c s : I s → yields I (putn putch n c s).
Proof.
  revert s. induction n as [|n IH]; intros s Hs; cbn [putn]; [done|].
  eapply yields_bind; [by apply putch_keeps|]. auto.
Qed.

Lemma printnum_keeps fuel num base w pc s :
  2 ≤ base → 0 ≤ num < 2 ^ Z.of_nat fuel → (0 < fuel)%nat → I s → yields I (printnum putch fuel num base w pc s).
Proof.
  intros Hb. revert num w. induction fuel as [|fuel IH]; intros num w Hn Hf Hs; [lia|]. cbn [printnum].
  eapply yields_bind with (P := I); [|intros; by apply putch_keeps].
  destruct (Z.leb_spec base num); [|by apply putn_keeps].
  assert (2 ^ Z.of_nat (Datatypes.S fuel) = 2 * 2 ^ Z.of_nat fuel) as Hpow
    by (rewrite Nat2Z.inj_succ, Z.pow_succ_r by lia; lia).
  apply IH; [|destruct fuel; [cbn in *; lia|lia]|done].
  split; [apply Z.div_pos; lia|]. apply Z.div_lt_upper_bound; nia.
Qed.

(** [put_chars] stops if every character it reads is within what the fuel covers. *)
Lemma put_chars_keeps (ok : nat → Z → Prop) rd fuel p fl s :
  (∀ p s, I s → ok O p → False) →
  (∀ f p s c, I s → ok (Datatypes.S f) p → rd s p = Ok c → c ≠ 0 → ok f (p + 1)) →
  (∀ s p, rd s p ≠ NoFuel) →
  I s → ok fuel p → yields (λ r, I r.2) (put_chars putch fuel rd p fl s).
Proof.
  intros H0 Hstep Hrd. revert p fl s. induction fuel as [|fuel IH]; intros p fl s Hs Hok; cbn [put_chars];
    [exfalso; by eapply H0|].
  destruct (rd s p) as [c| | |] eqn:E; cbn [bind]; [|done|done|by eapply Hrd].
  destruct (Z.eqb_spec (schar c) 0); [done|].
  destruct ((precision fl <? 0) || (0 <=? precision fl - 1)); [|done].
  apply yields_bind with (P := I); [case_match; by apply putch_keeps|].
  intros s' Hs'. apply IH; [done|]. eapply Hstep; [exact Hs|done|exact E|]. by intros ->.
Qed.

Lemma put_string_keeps (ok : nat → Z → Prop) rd len fuel p fl s :
  (∀ p s, I s → ok O p → False) →
  (∀ f p s c, I s → ok (Datatypes.S f) p → rd s p = Ok c → c ≠ 0 → ok f (p + 1)) →
  (∀ s p, rd s p ≠ NoFuel) → (∀ s, len s ≠ NoFuel) →
  I s → ok fuel p → yields I (put_string putch fuel rd len p fl s).
Proof.
  intros H0 Hstep Hrd Hlen Hs Hok. unfold put_string.
  apply yields_bind with (P := λ r, I r.2).
  - destruct (_ && _); [|done]. apply yields_bind with (P := λ _, True); [|intros n _].
    + specialize (Hlen s). by destruct (len s).
    + eapply yields_bind; [by apply putn_keeps|]. done.
  - intros [w s1] Hs1. eapply yields_bind; [by eapply put_chars_keeps|]. intros [w' s2] Hs2. by apply putn_keeps.
Qed.

Lemma fmt_at_not_nofuel l i : fmt_at l i ≠ NoFuel.
Proof. unfold fmt_at. case_decide; [done|]. by destruct (l !! i). Qed.

Lemma fmt_at_le l i c : fmt_at l i = Ok c → (i ≤ length l)%nat ∧ (c ≠ 0 → (i < length l)%nat).
Proof.
  unfold fmt_at. case_decide; [intros [= <-]; lia|].
  intros Hc%deref_ok%lookup_lt_Some. lia.
Qed.

Lemma put_literal_keeps l fl s : I s → yields I (put_literal putch l fl s).
Proof.
  intros Hs. unfold put_literal.
  apply (put_string_keeps (λ f p, 0 ≤ p ≤ length l ∧ length l < f + p)); try done; try lia.
  - intros f p s0 c _ [Hp Hf] Hc Hne. unfold rd_lit in Hc. apply fmt_at_le in Hc as [_ Hc].
    specialize (Hc Hne). lia.
  - intros. apply fmt_at_not_nofuel.
Qed.

Lemma put_memory_keeps p fl s : I s →
  yields I (put_string putch (scan_fuel (memory s)) (λ s, ld (memory s))
    (λ s, strnlen (memory s) p (u32 (precision fl))) p fl s).
Proof.
  intros Hs. apply (put_string_keeps (λ f q, scanned (memory s) p q f)); try done.
  - intros q s0 _ Hq. by eapply scanned_fuel.
  - intros f q s1 c Hs1 Hq Hc _. assert (is_Some (memory s !! q)) as [v Hv].
    { apply elem_of_dom. rewrite (memory_dom s), <- (memory_dom s1) by done. apply elem_of_dom.
      unfold ld in Hc. apply deref_ok in Hc. by eexists. }
    eapply scanned_step; [by apply ld_ok|done].
  - intros. apply ld_not_nofuel.
  - intros s1. unfold strnlen. eapply strnlen_loop_total, scanned_start.
  - apply scanned_start.
Qed.

Lemma put_signed_keeps num fl s : num < 2 ^ 64 → I s → yields I (put_signed putch num fl s).
Proof.
  intros Hn Hs. unfold put_signed. destruct (Z.ltb_spec num 0).
  - eapply yields_bind; [by apply putch_keeps|]. intros s' Hs'.
    apply printnum_keeps; [lia| |lia|done]. unfold u64. apply Z.mod_pos_bound. lia.
  - apply printnum_keeps; [lia| |lia|done]. change (2 ^ Z.of_nat 64) with (2 ^ 64). lia.
Qed.

Lemma put_error_keeps err s : err < 2 ^ 32 → I s → yields I (put_error putch err s).
Proof.
  intros He Hs. unfold put_error. set (e := if err <? 0 then i32 (- err) else err).
  assert (e < 2 ^ 64) as Hlt.
  { unfold e. case_match; [pose proof (i32_range (- err)) as Hr; unfold is_i32 in Hr; lia|lia]. }
  assert (yields I (let! s := put_literal putch (lit "error ") no_flags s in put_signed putch e no_flags s)) as Hunk.
  { eapply yields_bind; [by apply put_literal_keeps|]. intros. by apply put_signed_keeps. }
  destruct (MAXERROR <? e); [done|]. destruct (e <? 0); [done|].
  destruct (error_string !! Z.to_nat e) as [[l|]|]; [by apply put_literal_keeps|done|done].
Qed.

(** *** Arguments *)

Lemma va_word_yields ap : yields (λ r, 0 ≤ r.1 < 2 ^ 32) (va_word ap).
Proof. destruct ap as [|w ap]; cbn; [done|]. apply u32_range. Qed.

Lemma va_int_yields ap : yields (λ r, r.1 < 2 ^ 32) (va_int ap).
Proof.
  eapply yields_bind; [apply va_word_yields|]. intros [w ap'] _. cbn.
  pose proof (i32_range w) as Hr. unfold is_i32 in Hr. lia.
Qed.

Lemma va_long_long_yields ap : yields (λ r, 0 ≤ r.1 < 2 ^ 64) (va_long_long ap).
Proof.
  eapply yields_bind; [apply va_word_yields|]. intros [lo ap'] Hlo.
  eapply yields_bind; [apply va_word_yields|]. intros [hi ap''] Hhi. cbn in *. lia.
Qed.

Lemma getuint_yields ap lf : yields (λ r, 0 ≤ r.1 < 2 ^ 64) (getuint ap lf).
Proof.
  unfold getuint. case_match; [apply va_long_long_yields|].
  eapply yields_weaken; [apply va_word_yields|]. intros; cbn in *. lia.
Qed.

Lemma getint_yields ap lf : yields (λ r, r.1 < 2 ^ 64) (getint ap lf).
Proof.
  unfold getint. case_match.
  - eapply yields_bind; [apply va_long_long_yields|]. intros [v ap'] _. cbn. unfold i64.
    pose proof (Z.mod_pos_bound (v + 2 ^ 63) (2 ^ 64) ltac:(lia)). lia.
  - eapply yields_weaken; [apply va_int_yields|]. intros; cbn in *. lia.
Qed.

(** *** Escapes *)

Lemma width_digits_yields fuel fmt i ch prec :
  (length fmt < fuel + i)%nat → (i ≤ length fmt)%nat →
  yields (λ r, (i ≤ r.2 ≤ length fmt)%nat) (width_digits fuel fmt i ch prec).
Proof.
  revert i ch prec. induction fuel as [|fuel IH]; intros i ch prec Hf Hi; [lia|]. cbn [width_digits].
  destruct (fmt_at fmt i) as [c| | |] eqn:E; cbn [bind]; [|done|done|by eapply fmt_at_not_nofuel].
  destruct ((c <? ch_0) || (ch_9 <? c)) eqn:Eb; [cbn; lia|].
  apply orb_false_iff in Eb as [Hc%Z.ltb_ge _]. apply fmt_at_le in E as [_ E].
  assert (i < length fmt)%nat by (apply E; unfold ch_0 in Hc; lia).
  eapply yields_weaken; [apply IH; lia|]. cbn. intros; lia.
Qed.

Lemma back_to_percent_yields fmt i0 i :
  fmt_at fmt (pred i0) = Ok (chr "%") → (0 < i0 ≤ i)%nat →
  yields (λ j, i0 ≤ j ≤ i)%nat (back_to_percent fmt i).
Proof.
  intros Hp. induction i as [|i IH]; intros Hi; [lia|]. cbn [back_to_percent].
  destruct (decide (i0 = Datatypes.S i)) as [->|Hne].
  - cbn [pred] in Hp. rewrite Hp. cbn [bind]. rewrite Z.eqb_refl. cbn. lia.
  - destruct (fmt_at fmt i) as [c| | |] eqn:E; cbn [bind]; [|done|done|by eapply fmt_at_not_nofuel].
    case_match; [cbn; lia|]. eapply yields_weaken; [apply IH; lia|]. cbn; intros; lia.
Qed.

Definition escape_post (fmt : list Z) (i0 : nat) (r : nat * list Z * S) : Prop :=
  (i0 ≤ r.1.1 ≤ length fmt)%nat ∧ I r.2.

Lemma escape_yields fuel fmt i0 i fl ap s :
  fmt_at fmt (pred i0) = Ok (chr "%") → (0 < i0 ≤ i)%nat → (i ≤ length fmt)%nat →
  (length fmt < fuel + i)%nat → I s → yields (escape_post fmt i0) (escape putch memory fuel fmt i fl ap s).
Proof.
  intros Hp. revert i fl ap s. induction fuel as [|fuel IH]; intros i fl ap s H0 Hi Hf Hs; [lia|].
  cbn [escape].
  destruct (fmt_at fmt i) as [c| | |] eqn:E; cbn [bind]; [|done|done|by eapply fmt_at_not_nofuel].
  apply fmt_at_le in E as [_ E].
  assert (∀ k, (0 < k)%Z → c = k → (i < length fmt)%nat) as Hlt by (intros k Hk ->; apply E; lia).
  repeat match goal with
  | |- yields _ (if ?c =? chr ?k then _ else _) =>
      destruct (Z.eqb_spec c (chr k)) as [Hk|_];
      [apply Hlt in Hk; [|by vm_compute]|]
  | |- yields _ (escape _ _ _ _ _ _ _ _) => apply IH; [lia..|done]
  | |- yields _ (bind (va_int _) _) => eapply yields_bind; [apply va_int_yields|intros [? ?] ?; cbn [fst] in *]
  | |- yields _ (bind (va_word _) _) => eapply yields_bind; [apply va_word_yields|intros [? ?] ?; cbn [fst] in *]
  | |- yields _ (bind (getint _ _) _) => eapply yields_bind; [apply getint_yields|intros [? ?] ?; cbn [fst] in *]
  | |- yields _ (bind (getuint _ _) _) => eapply yields_bind; [apply getuint_yields|intros [? ?] ?; cbn [fst] in *]
  | |- yields _ (bind (putch _ _) _) => eapply yields_bind; [by apply putch_keeps|intros ? ?]
  | |- yields _ (bind (put_error _ _ _) _) => eapply yields_bind; [by apply put_error_keeps|intros ? ?]
  | |- yields _ (bind (put_signed _ _ _ _) _) => eapply yields_bind; [by apply put_signed_keeps|intros ? ?]
  | |- yields _ (bind (printnum _ _ _ _ _ _ _) _) =>
      eapply yields_bind; [apply printnum_keeps; [lia|change (2 ^ Z.of_nat 64) with (2 ^ 64); lia|lia|done]|intros ? ?]
  | |- yields _ (Ok _) => cbn; unfold escape_post; cbn; split; [lia|done]
  | |- yields _ (if (chr "1" <=? c) && _ then _ else _) =>
      destruct ((chr "1" <=? c) && (c <=? chr "9")) eqn:Hw;
      [apply andb_true_iff in Hw as [Hw%Z.leb_le _];
       assert (i < length fmt)%nat by (apply E; change (chr "1") with 49 in Hw; lia);
       eapply yields_bind; [apply width_digits_yields; lia|intros [? ?] ?; cbn [snd] in *]|]
  end.
  - eapply yields_bind with (P := I).
    + case_match; [by apply put_literal_keeps|by apply put_memory_keeps].
    + intros s1 Hs1. cbn. unfold escape_post. cbn. split; [lia|done].
  - eapply yields_bind; [by apply (back_to_percent_yields fmt i0)|]. cbn. intros j Hj.
    unfold escape_post. cbn. split; [lia|done].
Qed.

Lemma vprintfmt_keeps fmt ap s : I s → yields I (vprintfmt putch memory fmt ap s).
Proof.
  unfold vprintfmt. cut (∀ fuel i ap s, (length fmt < fuel + i)%nat → (i ≤ length fmt)%nat → I s →
    yields I (vprintfmt_loop putch memory fuel fmt i ap s)).
  { intros Hcut Hs. apply Hcut; [lia|lia|done]. }
  clear ap s. induction fuel as [|fuel IH]; intros i ap s Hf Hi Hs; [lia|]. cbn [vprintfmt_loop].
  destruct (fmt_at fmt i) as [c| | |] eqn:E; cbn [bind]; [|done|done|by eapply fmt_at_not_nofuel].
  pose proof (fmt_at_le _ _ _ E) as [_ Hlt].
  destruct (Z.eqb_spec c (chr "%")) as [->|_].
  - assert (i < length fmt)%nat by (apply Hlt; by vm_compute).
    eapply yields_bind; [apply (escape_yields _ fmt (Datatypes.S i)); [done|lia..|done]|].
    intros [[j ap'] s'] [Hj Hs']. cbn in *. apply IH; [lia..|done].
  - destruct (Z.eqb_spec c 0); [done|]. specialize (Hlt ltac:(done)).
    eapply yields_bind; [by apply putch_keeps|]. intros s' Hs'. apply IH; [lia..|done].
Qed.

End bounds.

(** The state of [vsnprintf]: what has been written is in the buffer, with room left
    for the terminating null. *)
Record sprint_inv (m : mem) (str size : Z) (b : sprintbuf) : Prop := {
  si_buf : str ≤ buf b ≤ ebuf b;
  si_ebuf : ebuf b = str + size - 1;
  si_dom : dom (sp_mem b) = dom m;
  si_frame : ∀ a, ¬ (str ≤ a < buf b) → sp_mem b !! a = m !! a;
  si_cnt : buf b < ebuf b → cnt b = buf b - str
}.

Lemma sprintputch_keeps m str size c b :
  size < 2 ^ 31 → sprint_inv m str size b → yields (sprint_inv m str size) (sprintputch c b).
Proof.
  intros Hsz [Hb He Hd Hf Hc]. unfold sprintputch. destruct (Z.ltb_spec (buf b) (ebuf b)) as [Hlt|Hge].
  - unfold st. destruct (sp_mem b !! buf b) as [w|] eqn:E; cbn; [|done].
    split; cbn; [lia|done| | |].
    + by rewrite dom_insert_lookup_L by (by eexists).
    + intros a Ha. rewrite lookup_insert_ne by lia. apply Hf. lia.
    + intros Hlt'. rewrite Hc by done. rewrite i32_small; lia.
  - cbn. split; cbn; [done..|]. lia.
Qed.


