(* ===== verification/Console.v ===== *)
(** * kern/driver/console.c, kern/libs/stdio.c and readline.c: the console

    The keyboard controller and the serial line are lists of bytes that wait to be read;
    what goes to the printer, the serial line and the screen is kept.  What the drivers
    promise is in [ConsoleInv]. *)

From Stdlib Require Import String Ascii.
From S2P Require Import Prelude CString Printfmt.

Definition CONSBUFSIZE : Z := 512.
Definition CRT_ROWS : Z := 25.
Definition CRT_COLS : Z := 80.
Definition CRT_SIZE : Z := CRT_ROWS * CRT_COLS.

Record cons_buf := mkCons { cb_buf : list Z; rpos : Z; wpos : Z }.

Record console := mkConsole {
  cons : cons_buf;
  shift : Z;
  kbd_in : list Z;             (* bytes in the keyboard controller *)
  com_in : list Z;             (* bytes from the serial line *)
  serial_exists : bool;
  crt_buf : list Z;
  crt_pos : Z;
  lpt_out : list Z;
  com_out : list Z;
  reset : bool                 (* the machine was asked to restart *)
}.

Definition set_cons v c := mkConsole v (shift c) (kbd_in c) (com_in c) (serial_exists c) (crt_buf c) (crt_pos c) (lpt_out c) (com_out c) (reset c).
Definition set_shift v c := mkConsole (cons c) v (kbd_in c) (com_in c) (serial_exists c) (crt_buf c) (crt_pos c) (lpt_out c) (com_out c) (reset c).
Definition set_kbd_in v c := mkConsole (cons c) (shift c) v (com_in c) (serial_exists c) (crt_buf c) (crt_pos c) (lpt_out c) (com_out c) (reset c).
Definition set_com_in v c := mkConsole (cons c) (shift c) (kbd_in c) v (serial_exists c) (crt_buf c) (crt_pos c) (lpt_out c) (com_out c) (reset c).
Definition set_serial_exists v c := mkConsole (cons c) (shift c) (kbd_in c) (com_in c) v (crt_buf c) (crt_pos c) (lpt_out c) (com_out c) (reset c).
Definition set_crt b p c := mkConsole (cons c) (shift c) (kbd_in c) (com_in c) (serial_exists c) b p (lpt_out c) (com_out c) (reset c).
Definition set_lpt_out v c := mkConsole (cons c) (shift c) (kbd_in c) (com_in c) (serial_exists c) (crt_buf c) (crt_pos c) v (com_out c) (reset c).
Definition set_com_out v c := mkConsole (cons c) (shift c) (kbd_in c) (com_in c) (serial_exists c) (crt_buf c) (crt_pos c) (lpt_out c) v (reset c).
Definition set_reset v c := mkConsole (cons c) (shift c) (kbd_in c) (com_in c) (serial_exists c) (crt_buf c) (crt_pos c) (lpt_out c) (com_out c) v.

(** ** Output *)

Definition BS : Z := 8.
Definition NL : Z := 10.
Definition CR : Z := 13.
Definition SPACE : Z := 32.

Definition lpt_putc_sub (x : Z) (c : console) : console := set_lpt_out (lpt_out c ++ [u8 x]) c.
Definition lpt_putc (x : Z) (c : console) : console :=
  if negb (x =? BS) then lpt_putc_sub x c else lpt_putc_sub BS (lpt_putc_sub SPACE (lpt_putc_sub BS c)).

Definition serial_putc_sub (x : Z) (c : console) : console := set_com_out (com_out c ++ [u8 x]) c.
Definition serial_putc (x : Z) (c : console) : console :=
  if negb (x =? BS) then serial_putc_sub x c else serial_putc_sub BS (serial_putc_sub SPACE (serial_putc_sub BS c)).

Definition u16 (z : Z) : Z := z mod 2 ^ 16.

(** A cell of the screen; outside the buffer is other memory. *)
Definition put_cell (i x : Z) (buf : list Z) : res (list Z) :=
  if (0 <=? i) && (i <? Z.of_nat (length buf)) then Ok (<[Z.to_nat i := u16 x]> buf) else Faulted.

(** [memmove] and the loop that clears the last line. *)
Definition scroll (buf : list Z) : list Z :=
  drop (Z.to_nat CRT_COLS) (take (Z.to_nat CRT_SIZE) buf) ++ replicate (Z.to_nat CRT_COLS) (Z.lor 0x0700 SPACE) ++ drop (Z.to_nat CRT_SIZE) buf.

(** The new position of the cursor goes to the display as well. *)
Definition cga_putc (x : Z) (c : console) : res console :=
  let x := if Z.land x (Z.lnot 0xFF) =? 0 then Z.lor x 0x0700 else x in
  let k := Z.land x 0xff in
  let! (buf, pos) :=
    if k =? BS then
      if 0 <? crt_pos c then
        let p := crt_pos c - 1 in
        let! b := put_cell p (Z.lor (Z.land x (Z.lnot 0xff)) SPACE) (crt_buf c) in Ok (b, p)
      else Ok (crt_buf c, crt_pos c)
    else if (k =? NL) || (k =? CR) then
      let p := if k =? NL then u16 (crt_pos c + CRT_COLS) else crt_pos c in
      Ok (crt_buf c, u16 (p - p mod CRT_COLS))
    else let! b := put_cell (crt_pos c) x (crt_buf c) in Ok (b, u16 (crt_pos c + 1)) in
  Ok (if CRT_SIZE <=? pos then set_crt (scroll buf) (u16 (pos - CRT_COLS)) c else set_crt buf pos c).

Definition cons_putc (x : Z) (c : console) : res console :=
  let! c := cga_putc x (lpt_putc x c) in Ok (serial_putc x c).

(** [cprintf] of a text without %. *)
Fixpoint cons_puts (l : list Z) (c : console) : res console :=
  match l with [] => Ok c | x :: l => let! c := cons_putc x c in cons_puts l c end.

(** ** Keys *)

Definition SHIFT : Z := 1.
Definition CTL : Z := 2.
Definition ALT : Z := 4.
Definition CAPSLOCK : Z := 8.
Definition NUMLOCK : Z := 16.
Definition SCROLLLOCK : Z := 32.
Definition E0ESC : Z := 64.

Definition KEY_HOME : Z := 0xE0.
Definition KEY_END : Z := 0xE1.
Definition KEY_UP : Z := 0xE2.
Definition KEY_DN : Z := 0xE3.
Definition KEY_LF : Z := 0xE4.
Definition KEY_RT : Z := 0xE5.
Definition KEY_PGUP : Z := 0xE6.
Definition KEY_PGDN : Z := 0xE7.
Definition KEY_INS : Z := 0xE8.
Definition KEY_DEL : Z := 0xE9.

(** A table with an initializer: designated entries, and entries from index 0 on. *)
Definition code_table (special : list (Z * Z)) (l : list Z) (i : Z) : Z :=
  match list_find (λ e, e.1 = i) special with
  | Some (_, e) => e.2
  | None => if 0 <=? i then default 0 (l !! Z.to_nat i) else 0
  end.

Definition shiftcode : Z → Z :=
  code_table [(0x1D, CTL); (0x2A, SHIFT); (0x36, SHIFT); (0x38, ALT); (0x9D, CTL); (0xB8, ALT)] [].
Definition togglecode : Z → Z := code_table [(0x3A, CAPSLOCK); (0x45, NUMLOCK); (0x46, SCROLLLOCK)] [].

Definition NO : list Z := [0].
Definition ESC : list Z := [0x1B].

Definition cursor_keys : list (Z * Z) :=
  [(0xC8, KEY_UP); (0xC9, KEY_PGUP); (0xCB, KEY_LF); (0xCD, KEY_RT); (0xCF, KEY_END); (0xD0, KEY_DN); (0xD1, KEY_PGDN);
   (0xD2, KEY_INS); (0xD3, KEY_DEL)].
Definition keypad : list (Z * Z) := (0xC7, KEY_HOME) :: (0x9C, NL) :: (0xB5, 47) :: cursor_keys.

Definition normalmap : Z → Z := code_table keypad
  (NO ++ ESC ++ lit "1234567890-=" ++ [BS; 9] ++ lit "qwertyuiop[]" ++ [NL] ++ NO ++ lit "asdfghjkl;'`" ++ NO ++ lit "\zxcvbnm,./" ++
   NO ++ lit "*" ++ NO ++ lit " " ++ replicate 13 0 ++ lit "789-456+1230.").

Definition shiftmap : Z → Z := code_table keypad
  (NO ++ [27] ++ lit "!@#$%^&*()_+" ++ [BS; 9] ++ lit "QWERTYUIOP{}" ++ [NL] ++ NO ++ lit "ASDFGHJKL:" ++ [34] ++ lit "~" ++ NO ++ lit "|ZXCVBNM<>?" ++
   NO ++ lit "*" ++ NO ++ lit " " ++ replicate 13 0 ++ lit "789-456+1230.").

Definition C (x : Z) : Z := x - 64.

(** A constant that does not fit is taken modulo 256. *)
Definition ctlmap : Z → Z := code_table ((0x97, KEY_HOME) :: (0xB5, u8 (C 47)) :: cursor_keys)
  (replicate 16 0 ++ (C <$> lit "QWERTYUIOP") ++ NO ++ NO ++ [CR] ++ NO ++ (C <$> lit "ASDFGHJKL") ++ NO ++ NO ++ NO ++ NO ++
   (C <$> lit "\ZXCVBNM") ++ NO ++ NO ++ [u8 (C 47)] ++ NO ++ NO).

Definition charcode (i : Z) : Z → Z := if i =? 0 then normalmap else if i =? 1 then shiftmap else ctlmap.

Definition caps (x : Z) : Z := if (97 <=? x) && (x <=? 122) then x - 32 else if (65 <=? x) && (x <=? 90) then x + 32 else x.

(** What a byte from the keyboard does: the character, 0 for none, and the new [shift]. *)
Definition kbd_key (data shift : Z) : Z * Z :=
  if data =? 0xE0 then (0, Z.lor shift E0ESC)
  else if negb (Z.land data 0x80 =? 0) then
    let data := if negb (Z.land shift E0ESC =? 0) then data else Z.land data 0x7F in
    (0, Z.land shift (Z.lnot (Z.lor (shiftcode data) E0ESC)))
  else
    let esc := negb (Z.land shift E0ESC =? 0) in
    let data := if esc then Z.lor data 0x80 else data in
    let shift := if esc then Z.land shift (Z.lnot E0ESC) else shift in
    let shift := Z.lxor (Z.lor shift (shiftcode data)) (togglecode data) in
    let x := charcode (Z.land shift (Z.lor CTL SHIFT)) data in
    (if negb (Z.land shift CAPSLOCK =? 0) then caps x else x, shift).

(** Ctrl-Alt-Del. *)
Definition reboots (x shift : Z) : bool := (Z.land (Z.lnot shift) (Z.lor CTL ALT) =? 0) && (x =? KEY_DEL).

Definition kbd_proc_data (c : console) : res (Z * console) :=
  match kbd_in c with
  | [] => Ok (-1, c)
  | data :: l =>
      let '(x, sh) := kbd_key data (shift c) in
      let c := set_shift sh (set_kbd_in l c) in
      if reboots x sh then let! c := cons_puts (lit "Rebooting!" ++ [NL]) c in Ok (x, set_reset true c)
      else Ok (x, c)
  end.

Definition serial_proc_data (c : console) : res (Z * console) :=
  match com_in c with [] => Ok (-1, c) | x :: l => Ok (if x =? 127 then BS else x, set_com_in l c) end.

(** ** Input *)

Definition cons_store (x : Z) (b : cons_buf) : res cons_buf :=
  if wpos b <? CONSBUFSIZE then
    let w := wpos b + 1 in
    Ok (mkCons (<[Z.to_nat (wpos b) := u8 x]> (cb_buf b)) (rpos b) (if w =? CONSBUFSIZE then 0 else w))
  else Faulted.

(** Each round reads one byte, so the bytes that wait bound the rounds. *)
Fixpoint cons_intr (n : nat) (proc : console → res (Z * console)) (c : console) : res console :=
  let! (x, c) := proc c in
  if x =? -1 then Ok c else
  match n with
  | O => NoFuel
  | S n =>
      let! c := if negb (x =? 0) then let! b := cons_store x (cons c) in Ok (set_cons b c) else Ok c in
      cons_intr n proc c
  end.

Definition serial_intr (c : console) : res console :=
  if serial_exists c then cons_intr (length (com_in c)) serial_proc_data c else Ok c.
Definition kbd_intr (c : console) : res console := cons_intr (length (kbd_in c)) kbd_proc_data c.

Definition cons_getc (c : console) : res (Z * console) :=
  let! c := serial_intr c in
  let! c := kbd_intr c in
  let b := cons c in
  if negb (rpos b =? wpos b) then
    let! x := deref (cb_buf b !! Z.to_nat (rpos b)) in
    let r := rpos b + 1 in
    Ok (x, set_cons (mkCons (cb_buf b) (if r =? CONSBUFSIZE then 0 else r) (wpos b)) c)
  else Ok (0, c).

(** ** Start *)

(** [crt_buf] is the memory of the display that answers, the cursor is where it says. *)
Definition cga_init (high low : Z) (c : console) : console := set_crt (crt_buf c) (u16 (Z.lor (Z.shiftl high 8) low)) c.

(** [lsr] is the line's status; a byte that waits is dropped. *)
Definition serial_init (lsr : Z) (c : console) : console := set_com_in (tail (com_in c)) (set_serial_exists (negb (lsr =? 0xFF)) c).

Definition kbd_init (c : console) : res console := kbd_intr c.

Definition cons_init (high low lsr : Z) (c : console) : res console :=
  let! c := kbd_init (serial_init lsr (cga_init high low c)) in
  if negb (serial_exists c) then cons_puts (lit "serial port does not exist!!" ++ [NL]) c else Ok c.

(** ** stdio.c and readline.c *)

Definition cputchar (x : Z) (c : console) : res console := cons_putc x c.

Definition vcprintf (m : mem) (fmt ap : list Z) (c : console) : res (Z * console) :=
  let! (cnt, c, _) := vprintfmt (λ x '(cnt, c, m), let! c := cons_putc x c in Ok (i32 (cnt + 1), c, m)) (λ '(_, _, m), m) fmt ap (0, c, m) in
  Ok (cnt, c).

Definition cprintf (m : mem) (fmt ap : list Z) (c : console) : res (Z * console) := vcprintf m fmt ap c.

Fixpoint cputs_loop (n : nat) (m : mem) (str cnt : Z) (c : console) : res (Z * console) :=
  match n with
  | O => NoFuel
  | S n =>
      let! x := ld m str in
      if x =? 0 then Ok (cnt, c) else let! c := cons_putc (schar x) c in cputs_loop n m (str + 1) (cnt + 1) c
  end.

Definition cputs (m : mem) (str : Z) (c : console) : res (Z * console) :=
  let! (cnt, c) := cputs_loop (S (size m)) m str 0 c in
  let! c := cons_putc NL c in Ok (cnt + 1, c).

(** [getchar] polls; between two polls other bytes may arrive, the next of [arrivals] at
    the keyboard.  Without an end of [arrivals] it waits forever, [None]. *)
Fixpoint getchar (arrivals : list (list Z)) (c : console) : res (option Z * list (list Z) * console) :=
  let! (x, c) := cons_getc c in
  if negb (x =? 0) then Ok (Some x, arrivals, c) else
  match arrivals with
  | [] => Ok (None, [], c)
  | a :: arrivals => getchar arrivals (set_kbd_in (kbd_in c ++ a) c)
  end.

Definition BUFSIZE : Z := 1024.

(** A call still waits, returns NULL, or returns a line. *)
Inductive line := Waiting | Null | Line (text : list Z).

(** [buf] is the static buffer; each round reads a character. *)
Fixpoint readline_loop (n : nat) (i : Z) (buf : list Z) (arrivals : list (list Z)) (c : console) :
  res (line * list Z * list (list Z) * console) :=
  match n with
  | O => NoFuel
  | S n =>
      let! (o, arrivals, c) := getchar arrivals c in
      match o with
      | None => Ok (Waiting, buf, arrivals, c)
      | Some x =>
          if x <? 0 then Ok (Null, buf, arrivals, c)
          else if (SPACE <=? x) && (i <? BUFSIZE - 1) then
            let! c := cputchar x c in readline_loop n (i + 1) (<[Z.to_nat i := u8 x]> buf) arrivals c
          else if (x =? BS) && (0 <? i) then let! c := cputchar x c in readline_loop n (i - 1) buf arrivals c
          else if (x =? NL) || (x =? CR) then
            let! c := cputchar x c in
            let buf := <[Z.to_nat i := 0]> buf in Ok (Line (take (Z.to_nat i) buf), buf, arrivals, c)
          else readline_loop n i buf arrivals c
      end
  end.

Definition readline (prompt : option (list Z)) (n : nat) (buf : list Z) (arrivals : list (list Z)) (c : console) :=
  let! c := cons_puts (default [] prompt) c in readline_loop n 0 buf arrivals c.
