(* ===== verification/ConsoleInv.v ===== *)
(** * The console: what its input and output promise

    The ring of input characters is a queue while fewer than its size wait, the cursor
    stays on the screen, and [readline] returns the line as edited at the keyboard. *)

From Stdlib Require Import String.
From S2P Require Import Prelude CString Printfmt Console.

(** ** The input buffer *)

(** [q] are the characters that wait in the ring, oldest first. *)
Record queue (b : cons_buf) (q : list Z) : Prop := {
  queue_size : length (cb_buf b) = 512%nat;
  queue_rpos : 0 ≤ rpos b < CONSBUFSIZE;
  queue_short : Z.of_nat (length q) < CONSBUFSIZE;
  queue_wpos : wpos b = (rpos b + Z.of_nat (length q)) mod CONSBUFSIZE;
  queue_at (k : nat) x : q !! k = Some x → cb_buf b !! Z.to_nat ((rpos b + Z.of_nat k) mod CONSBUFSIZE) = Some x
}.

Lemma next_mod a : 0 ≤ a < CONSBUFSIZE → (if a + 1 =? CONSBUFSIZE then 0 else a + 1) = (a + 1) mod CONSBUFSIZE.
Proof.
  intros Ha. destruct (Z.eqb_spec (a + 1) CONSBUFSIZE) as [->|Hne]; [done|].
  rewrite Z.mod_small; [done|]. unfold CONSBUFSIZE in *. lia.
Qed.

(** Two places of the ring that are less than its size apart. *)
Lemma ring_ne a i j : 0 ≤ i < j → j - i < CONSBUFSIZE → (a + i) mod CONSBUFSIZE ≠ (a + j) mod CONSBUFSIZE.
Proof.
  unfold CONSBUFSIZE. intros Hij Hd E.
  pose proof (Z.div_mod (a + i) 512). pose proof (Z.div_mod (a + j) 512). lia.
Qed.

Lemma store_ok b q x : queue b q → ∃ b', cons_store x b = Ok b' ∧ rpos b' = rpos b ∧ length (cb_buf b') = 512%nat ∧
  wpos b' = (rpos b + Z.of_nat (length q) + 1) mod CONSBUFSIZE ∧ cb_buf b' = <[Z.to_nat (wpos b) := u8 x]> (cb_buf b).
Proof.
  intros Q. pose proof (queue_wpos _ _ Q) as Ew.
  assert (0 ≤ wpos b < CONSBUFSIZE) as Hw by (rewrite Ew; by apply Z.mod_pos_bound).
  unfold cons_store. rewrite (proj2 (Z.ltb_lt (wpos b) CONSBUFSIZE)) by lia. cbv zeta.
  rewrite (next_mod _ Hw). eexists. split_and!; [done|done|..|done]; cbn; [by rewrite length_insert; apply Q|].
  by rewrite Ew, Zplus_mod_idemp_l.
Qed.

Lemma queue_push b q x : queue b q → Z.of_nat (length q) + 1 < CONSBUFSIZE →
  ∃ b', cons_store x b = Ok b' ∧ queue b' (q ++ [u8 x]).
Proof.
  intros Q Hl. destruct (store_ok b q x Q) as (b' & E & Er & Hs & Ew & Eb). exists b'. split; [done|].
  pose proof (queue_rpos _ _ Q). split; rewrite ?Er, ?length_app; cbn [length]; try done; try lia.
  - rewrite Ew. f_equal. lia.
  - intros k y Hk. rewrite Eb.
    destruct (decide (k = length q)) as [->|Hne].
    + rewrite lookup_app_r, Nat.sub_diag in Hk by lia. injection Hk as <-. rewrite <- (queue_wpos _ _ Q).
      apply list_lookup_insert_eq. rewrite (queue_size _ _ Q), (queue_wpos _ _ Q).
      pose proof (Z.mod_pos_bound (rpos b + Z.of_nat (length q)) CONSBUFSIZE). unfold CONSBUFSIZE in *. lia.
    + assert (k < length q)%nat as Hkq by (apply lookup_lt_Some in Hk; rewrite length_app in Hk; cbn in Hk; lia).
      rewrite lookup_app_l in Hk by done. rewrite list_lookup_insert_ne; [by apply Q|].
      rewrite (queue_wpos _ _ Q).
      pose proof (ring_ne (rpos b) (Z.of_nat k) (Z.of_nat (length q))).
      pose proof (Z.mod_pos_bound (rpos b + Z.of_nat (length q)) CONSBUFSIZE).
      pose proof (Z.mod_pos_bound (rpos b + Z.of_nat k) CONSBUFSIZE). unfold CONSBUFSIZE in *. lia.
Qed.

(** The code does not test for a full ring: one character more and all are lost. *)
Lemma queue_overflow b q x : queue b q → Z.of_nat (length q) + 1 = CONSBUFSIZE → ∃ b', cons_store x b = Ok b' ∧ queue b' [].
Proof.
  intros Q Hl. destruct (store_ok b q x Q) as (b' & E & Er & Hs & Ew & _). exists b'. split; [done|].
  pose proof (queue_rpos _ _ Q). split; rewrite ?Er; try done.
  rewrite Ew. replace (rpos b + Z.of_nat (length q) + 1) with (rpos b + 1 * CONSBUFSIZE) by lia.
  rewrite Z.mod_add by done. cbn. by rewrite Z.add_0_r.
Qed.

Lemma queue_empty b : queue b [] → rpos b = wpos b.
Proof. intros [_ Hr _ -> _]. cbn. rewrite Z.add_0_r. by rewrite Z.mod_small. Qed.

Lemma ring_pop b x q : queue b (x :: q) → rpos b ≠ wpos b ∧ cb_buf b !! Z.to_nat (rpos b) = Some x ∧
  queue (mkCons (cb_buf b) (if rpos b + 1 =? CONSBUFSIZE then 0 else rpos b + 1) (wpos b)) q.
Proof.
  intros [Hs Hr Hq Ew Hat]. cbn [length] in *. split_and!.
  - rewrite Ew. pose proof (ring_ne (rpos b) 0 (Z.of_nat (S (length q)))) as Hne. rewrite Z.add_0_r in Hne.
    rewrite (Z.mod_small (rpos b)) in Hne by done. lia.
  - specialize (Hat O x eq_refl). rewrite Z.add_0_r, Z.mod_small in Hat by done. done.
  - rewrite (next_mod _ Hr). split; cbn [rpos wpos cb_buf]; [done|by apply Z.mod_pos_bound|lia| |].
    + rewrite Ew, Zplus_mod_idemp_l. f_equal. lia.
    + intros k y Hk. specialize (Hat (S k) y Hk). rewrite Zplus_mod_idemp_l, <- Hat. do 3 f_equal. lia.
Qed.

(** ** Output *)

(** The cursor is on the screen, and the screen in the display's memory. *)
Definition screen_ok (c : console) : Prop := 0 ≤ crt_pos c < CRT_SIZE ∧ CRT_SIZE ≤ Z.of_nat (length (crt_buf c)).

(** What output leaves alone. *)
Definition input (c : console) := (cons c, shift c, kbd_in c, com_in c, serial_exists c).

Lemma put_cell_ok i x buf : 0 ≤ i < Z.of_nat (length buf) → put_cell i x buf = Ok (<[Z.to_nat i := u16 x]> buf).
Proof. intros Hi. unfold put_cell. rewrite (proj2 (Z.leb_le 0 i)), (proj2 (Z.ltb_lt i _)) by lia. done. Qed.

Lemma scroll_length buf : CRT_SIZE ≤ Z.of_nat (length buf) → length (scroll buf) = length buf.
Proof.
  unfold CRT_SIZE, CRT_ROWS, CRT_COLS, scroll. intros Hb.
  rewrite !length_app, length_replicate, !length_drop, length_take. unfold CRT_SIZE, CRT_ROWS, CRT_COLS. lia.
Qed.

Lemma u16_small z : 0 ≤ z < 2 ^ 16 → u16 z = z.
Proof. apply Z.mod_small. Qed.

(** The part of [cga_putc] after the switch. *)
Lemma scrolled_ok c buf pos : 0 ≤ pos < CRT_SIZE + CRT_COLS → length buf = length (crt_buf c) → CRT_SIZE ≤ Z.of_nat (length (crt_buf c)) →
  let c' := if CRT_SIZE <=? pos then set_crt (scroll buf) (u16 (pos - CRT_COLS)) c else set_crt buf pos c in
  screen_ok c' ∧ length (crt_buf c') = length (crt_buf c) ∧ input c' = input c ∧ com_out c' = com_out c.
Proof.
  intros Hp El Hb. cbv zeta. destruct (Z.leb_spec CRT_SIZE pos); unfold screen_ok; cbn.
  - rewrite scroll_length, u16_small, El; unfold CRT_SIZE, CRT_ROWS, CRT_COLS in *; [|lia..]. split_and!; try lia; done.
  - split_and!; try lia; done.
Qed.

Lemma cga_putc_ok x c : screen_ok c →
  ∃ c', cga_putc x c = Ok c' ∧ screen_ok c' ∧ length (crt_buf c') = length (crt_buf c) ∧ input c' = input c ∧ com_out c' = com_out c.
Proof.
  intros [Hp Hb]. unfold cga_putc. cbv zeta.
  set (y := if Z.land x (Z.lnot 0xFF) =? 0 then Z.lor x 0x0700 else x). clearbody y.
  assert (∀ m buf pos, m = Ok (buf, pos) → 0 ≤ pos < CRT_SIZE + CRT_COLS → length buf = length (crt_buf c) →
    ∃ c', (let! (buf, pos) := m in Ok (if CRT_SIZE <=? pos then set_crt (scroll buf) (u16 (pos - CRT_COLS)) c else set_crt buf pos c)) = Ok c'
      ∧ screen_ok c' ∧ length (crt_buf c') = length (crt_buf c) ∧ input c' = input c ∧ com_out c' = com_out c) as Hgo.
  { intros m buf pos -> Hpos El. eexists. split; [done|]. by apply scrolled_ok. }
  assert (∀ z, 0 ≤ z mod CRT_COLS < CRT_COLS) as Hm by (intros z; by apply Z.mod_pos_bound).
  assert (∀ z, 0 ≤ z → z mod CRT_COLS ≤ z) as Hm' by (intros z Hz; by apply Z.mod_le).
  destruct (_ =? BS); [destruct (Z.ltb_spec 0 (crt_pos c))|destruct ((_ =? NL) || _) eqn:Enl].
  - rewrite put_cell_ok by lia. eapply Hgo; [done|unfold CRT_COLS; lia|by rewrite length_insert].
  - eapply Hgo; [done|unfold CRT_COLS; lia|done].
  - set (p := if _ =? NL then u16 (crt_pos c + CRT_COLS) else crt_pos c).
    assert (0 ≤ p < CRT_SIZE + CRT_COLS) as Hpp
      by (unfold p; destruct (_ =? NL); rewrite ?u16_small; unfold CRT_SIZE, CRT_ROWS, CRT_COLS in *; lia).
    specialize (Hm p). specialize (Hm' p). eapply Hgo; [done| |done].
    rewrite u16_small; unfold CRT_SIZE, CRT_ROWS, CRT_COLS in *; lia.
  - rewrite put_cell_ok by lia. eapply Hgo; [done| |by rewrite length_insert].
    rewrite u16_small; unfold CRT_SIZE, CRT_ROWS, CRT_COLS in *; lia.
Qed.

(** What the serial line is sent for a character. *)
Definition serial_bytes (x : Z) : list Z := if x =? BS then [BS; SPACE; BS] else [u8 x].

Lemma cons_putc_ok x c : screen_ok c →
  ∃ c', cons_putc x c = Ok c' ∧ screen_ok c' ∧ length (crt_buf c') = length (crt_buf c) ∧ input c' = input c ∧
    com_out c' = com_out c ++ serial_bytes x.
Proof.
  intros Hs. unfold cons_putc. destruct (cga_putc_ok x (lpt_putc x c)) as (c1 & -> & Hs1 & El & Ei & Eo).
  { unfold lpt_putc. by destruct (negb (x =? BS)). }
  cbn [bind]. eexists. split; [done|]. unfold serial_putc, serial_bytes.
  assert (length (crt_buf (lpt_putc x c)) = length (crt_buf c) ∧ input (lpt_putc x c) = input c ∧ com_out (lpt_putc x c) = com_out c) as (E1 & E2 & E3)
    by (unfold lpt_putc; by destruct (negb (x =? BS))).
  rewrite E1 in El. rewrite E2 in Ei. rewrite E3 in Eo. rewrite <- Eo.
  destruct (Z.eqb_spec x BS); cbn [negb]; (split_and!; [done|exact El|exact Ei|]); cbn; [by rewrite <- !app_assoc|done].
Qed.

Lemma cons_puts_ok l c : screen_ok c →
  ∃ c', cons_puts l c = Ok c' ∧ screen_ok c' ∧ length (crt_buf c') = length (crt_buf c) ∧ input c' = input c ∧
    com_out c' = com_out c ++ concat (serial_bytes <$> l).
Proof.
  revert c. induction l as [|x l IH]; intros c Hs; cbn [cons_puts].
  - exists c. cbn. by rewrite app_nil_r.
  - destruct (cons_putc_ok x c Hs) as (c1 & -> & Hs1 & El1 & Ei1 & Eo1). cbn [bind].
    destruct (IH c1 Hs1) as (c2 & -> & Hs2 & El2 & Ei2 & Eo2). exists c2. split_and!; [done|done|congruence|congruence|].
    rewrite Eo2, Eo1, <- app_assoc. done.
Qed.

(** ** Keys *)

Definition byte (x : Z) : Prop := 0 ≤ x < 256.

#[global] Instance byte_dec x : Decision (byte x).
Proof. unfold byte. apply _. Defined.

(** What bytes from the keyboard mean, one value for each (0 for none), and the shift
    state they lead to. *)
Fixpoint typed (data : list Z) (sh : Z) : list Z * Z :=
  match data with
  | [] => ([], sh)
  | d :: data => let '(x, sh) := kbd_key d sh in let '(l, sh) := typed data sh in (x :: l, sh)
  end.

Definition chars (l : list Z) : list Z := filter (λ x, x ≠ 0) l.

Lemma code_table_byte special l i : Forall (λ e, byte e.2) special → Forall byte l → byte (code_table special l i).
Proof.
  intros Hs Hl. unfold code_table. destruct (list_find _ special) as [[k e]|] eqn:E.
  - apply list_find_Some in E as [E _]. exact (proj1 (Forall_lookup _ _) Hs _ _ E).
  - destruct (0 <=? i); [|unfold byte; lia]. destruct (l !! Z.to_nat i) as [x|] eqn:E2; cbn; [|unfold byte; lia].
    exact (proj1 (Forall_lookup _ _) Hl _ _ E2).
Qed.

Lemma charcode_byte k i : byte (charcode k i).
Proof.
  unfold charcode. destruct (k =? 0); [|destruct (k =? 1)]; unfold normalmap, shiftmap, ctlmap;
    (apply code_table_byte; apply (bool_decide_unpack _); vm_compute; exact I).
Qed.

Lemma kbd_key_byte d sh : byte (kbd_key d sh).1.
Proof.
  unfold kbd_key. destruct (d =? 0xE0); [cbn; unfold byte; lia|]. destruct (negb _); [cbn; unfold byte; lia|]. cbv zeta. cbn [fst].
  match goal with |- context [charcode ?k ?i] => pose proof (charcode_byte k i) as Hx; generalize dependent (charcode k i) end.
  intros x Hx. destruct (negb _); [|done]. unfold caps, byte in *.
  destruct (Z.leb_spec 97 x), (Z.leb_spec x 122), (Z.leb_spec 65 x), (Z.leb_spec x 90); cbn [andb]; lia.
Qed.

Lemma typed_byte data sh : Forall byte (typed data sh).1.
Proof.
  revert sh. induction data as [|d data IH]; intros sh; cbn [typed]; [constructor|].
  pose proof (kbd_key_byte d sh) as Hb. destruct (kbd_key d sh) as [x sh1]. specialize (IH sh1).
  destruct (typed data sh1) as [l sh2]. cbn in *. by constructor.
Qed.

(** ** From the devices to the buffer *)

(** The loop of an interrupt over a device: [pending] are the values that the device
    still gives, [I] what the loop keeps and [f] a part of the state it does not change. *)
Section intr.
Context {T : Type} (proc : console → res (Z * console)) (pending : console → list Z) (I : console → Prop) (f : console → T).
Context (proc_end : ∀ c, pending c = [] → proc c = Ok (-1, c)).
Context (proc_step : ∀ c x l, I c → pending c = x :: l →
  byte x ∧ ∃ c', proc c = Ok (x, c') ∧ I c' ∧ pending c' = l ∧ cons c' = cons c ∧ f c' = f c).
Context (I_cons : ∀ b c, I c → I (set_cons b c)) (pending_cons : ∀ b c, pending (set_cons b c) = pending c)
  (f_cons : ∀ b c, f (set_cons b c) = f c).

Lemma cons_intr_queue n c q :
  I c → queue (cons c) q → (length (pending c) ≤ n)%nat → Z.of_nat (length (q ++ chars (pending c))) < CONSBUFSIZE →
  ∃ c', cons_intr n proc c = Ok c' ∧ I c' ∧ pending c' = [] ∧ queue (cons c') (q ++ chars (pending c)) ∧ f c' = f c.
Proof.
  revert c q. induction n as [|n IH]; intros c q Hi Q Hn Hl; destruct (pending c) as [|x l] eqn:Ep; cbn [length] in Hn; try lia.
  1, 2: cbn [cons_intr]; rewrite (proc_end c Ep); cbn; exists c; rewrite app_nil_r; done.
  destruct (proc_step c x l Hi Ep) as (Hx & c1 & E1 & Hi1 & Ep1 & Ec1 & Ef1).
  cbn [cons_intr]. rewrite E1. cbn [bind]. rewrite (proj2 (Z.eqb_neq x (-1))) by (unfold byte in Hx; lia).
  unfold chars in *. rewrite filter_cons in *. destruct (Z.eqb_spec x 0) as [->|Hne]; cbn [negb].
  - rewrite (decide_False (P := 0 ≠ 0)) in * by (intros Hc; by apply Hc). cbn [bind].
    destruct (IH c1 q Hi1) as (c2 & E2 & Hi2 & Ep2 & Q2 & Ef2); [by rewrite Ec1|rewrite Ep1; lia|by rewrite Ep1|].
    exists c2. rewrite Ep1 in Q2. split_and!; try done; congruence.
  - rewrite (decide_True (P := x ≠ 0)) in * by done. rewrite length_app in Hl. cbn [length] in Hl.
    destruct (queue_push _ q x Q) as (b & Eb & Qb); [lia|]. rewrite Ec1, Eb. cbn [bind].
    assert (u8 x = x) as Ex by (apply Z.mod_small; exact Hx). rewrite Ex in Qb.
    destruct (IH (set_cons b c1) (q ++ [x])) as (c2 & E2 & Hi2 & Ep2 & Q2 & Ef2);
      [by apply I_cons|done|rewrite pending_cons, Ep1; lia|rewrite pending_cons, Ep1, !length_app; cbn; lia|].
    exists c2. rewrite pending_cons, Ep1, <- app_assoc in Q2. rewrite f_cons in Ef2. split_and!; try done; congruence.
Qed.
End intr.

(** The console is in order and [q] waits in its buffer. *)
Record console_ok (c : console) (q : list Z) : Prop := {
  ok_queue : queue (cons c) q;
  ok_screen : screen_ok c;
  ok_com : Forall byte (com_in c);
  ok_chars : Forall (λ x, 0 < x < 256) q
}.

Lemma chars_range l : Forall byte l → Forall (λ x, 0 < x < 256) (chars l).
Proof.
  intros Hl. apply Forall_forall. intros x Hx. apply list_elem_of_filter in Hx as [Hx Hi].
  pose proof (proj1 (Forall_forall _ _) Hl x Hi) as Hb. unfold byte in Hb. lia.
Qed.

Definition com_vals (c : console) : list Z := (λ x, if x =? 127 then BS else x) <$> com_in c.

Lemma com_vals_byte c : Forall byte (com_in c) → Forall byte (com_vals c).
Proof. intros Hc. apply Forall_fmap. eapply Forall_impl; [exact Hc|]. cbn. unfold byte, BS. intros x Hx. destruct (x =? 127); lia. Qed.

(** The characters that the serial line and the keyboard have for the kernel. *)
Definition com_chars (c : console) : list Z := if serial_exists c then chars (com_vals c) else [].
Definition kbd_chars (c : console) : list Z := chars (typed (kbd_in c) (shift c)).1.

Lemma serial_intr_queue c q : console_ok c q → Z.of_nat (length (q ++ com_chars c)) < CONSBUFSIZE →
  ∃ c', serial_intr c = Ok c' ∧ console_ok c' (q ++ com_chars c) ∧ com_chars c' = [] ∧
    kbd_in c' = kbd_in c ∧ shift c' = shift c ∧ serial_exists c' = serial_exists c.
Proof.
  intros [Q Hs Hc Hq] Hl. unfold serial_intr, com_chars in *. destruct (serial_exists c) eqn:Ee.
  2:{ exists c. rewrite app_nil_r, Ee. done. }
  pose proof (chars_range _ (com_vals_byte c Hc)) as Hr.
  destruct (cons_intr_queue serial_proc_data com_vals (λ c, screen_ok c ∧ Forall byte (com_in c))
    (λ c, (kbd_in c, shift c, serial_exists c))) with (n := length (com_in c)) (c := c) (q := q)
    as (c' & E & [Hs' Hc'] & Ep & Q' & Ef); try done.
  - intros c1 E. unfold serial_proc_data, com_vals in *. destruct (com_in c1); [done|discriminate].
  - intros c1 x l [Hs1 Hb] E. unfold serial_proc_data, com_vals in *. destruct (com_in c1) as [|y l'] eqn:Ec; [discriminate|].
    apply Forall_cons in Hb as [Hy Hb]. cbn in E. injection E as <- <-. split.
    { unfold byte, BS in *. destruct (y =? 127); lia. }
    eexists. split; [done|]. by cbn.
  - unfold com_vals. by rewrite length_fmap.
  - injection Ef as Ef1 Ef2 Ef3. exists c'. rewrite Ef3, Ee, Ep. split_and!; try done. split; try done. by apply Forall_app.
Qed.

Lemma kbd_intr_queue c q : console_ok c q → Z.of_nat (length (q ++ kbd_chars c)) < CONSBUFSIZE →
  ∃ c', kbd_intr c = Ok c' ∧ console_ok c' (q ++ kbd_chars c) ∧ com_chars c' = com_chars c ∧
    kbd_in c' = [] ∧ shift c' = (typed (kbd_in c) (shift c)).2 ∧ serial_exists c' = serial_exists c.
Proof.
  intros [Q Hs Hc Hq] Hl. unfold kbd_intr, kbd_chars in *.
  destruct (cons_intr_queue kbd_proc_data (λ c, (typed (kbd_in c) (shift c)).1) screen_ok
    (λ c, (com_in c, serial_exists c, (typed (kbd_in c) (shift c)).2))) with (n := length (kbd_in c)) (c := c) (q := q)
    as (c' & E & Hs' & Ep & Q' & Ef); try done.
  - intros c1 E. unfold kbd_proc_data. destruct (kbd_in c1) as [|d l]; [done|]. cbn [typed] in E.
    destruct (kbd_key d (shift c1)) as [x sh]. destruct (typed l sh). discriminate.
  - intros c1 x l Hs1 E. unfold kbd_proc_data. destruct (kbd_in c1) as [|d l'] eqn:Ec; [discriminate|]. cbn [typed] in *.
    pose proof (kbd_key_byte d (shift c1)) as Hb. destruct (kbd_key d (shift c1)) as [y sh]. destruct (typed l' sh) as [k sh'] eqn:Et.
    cbn in E, Hb. injection E as -> ->. split; [done|]. cbn [snd]. set (c2 := set_shift sh (set_kbd_in l' c1)).
    assert (Hc2 : ∀ c', screen_ok c' → input c' = input c2 → screen_ok c' ∧ (typed (kbd_in c') (shift c')).1 = l ∧ cons c' = cons c1 ∧
      (com_in c', serial_exists c', (typed (kbd_in c') (shift c')).2) = (com_in c1, serial_exists c1, sh')).
    { intros c' Hs2 Ei. injection Ei as -> -> -> -> ->. cbn. by rewrite Et. }
    destruct (reboots x sh).
    + destruct (cons_puts_ok (lit "Rebooting!" ++ [NL]) c2) as (c3 & -> & Hs3 & _ & Ei & _); [done|]. cbn [bind].
      exists (set_reset true c3). split; [done|]. by apply (Hc2 (set_reset true c3)).
    + exists c2. split; [done|]. by apply Hc2.
  - clear. generalize (shift c). induction (kbd_in c) as [|d l IH]; intros sh; cbn [typed]; [done|].
    destruct (kbd_key d sh) as [x sh1]. specialize (IH sh1). destruct (typed l sh1). cbn in *. lia.
  - injection Ef as Ef1 Ef2 Ef3. exists c'.
    assert (kbd_in c' = []) as Ek.
    { destruct (kbd_in c') as [|d l]; [done|]. cbn [typed] in Ep. destruct (kbd_key d (shift c')) as [x sh]. by destruct (typed l sh). }
    rewrite Ek in Ef3. cbn in Ef3. unfold com_chars, com_vals. rewrite Ef1, Ef2. split_and!; try done.
    split; rewrite ?Ef1; try done. apply Forall_app. split; [done|]. apply chars_range, typed_byte.
Qed.

(** All that waits to be read. *)
Definition waiting (c : console) (q : list Z) : list Z := q ++ com_chars c ++ kbd_chars c.

Lemma cons_getc_ok c q : console_ok c q → Z.of_nat (length (waiting c q)) < CONSBUFSIZE →
  ∃ c', cons_getc c = Ok (hd 0 (waiting c q), c') ∧ console_ok c' (tail (waiting c q)) ∧ com_chars c' = [] ∧ kbd_in c' = [] ∧
    shift c' = (typed (kbd_in c) (shift c)).2.
Proof.
  unfold waiting. rewrite app_assoc. intros Hok Hl. unfold cons_getc.
  destruct (serial_intr_queue c q Hok) as (c1 & -> & Hok1 & Em1 & Ek1 & Es1 & _); [rewrite length_app in Hl; lia|]. cbn [bind].
  assert (kbd_chars c1 = kbd_chars c) as Ekc by (unfold kbd_chars; by rewrite Ek1, Es1). rewrite <- Ekc in Hl.
  destruct (kbd_intr_queue c1 _ Hok1 Hl) as (c2 & -> & [Q Hs Hc Hq] & Em2 & Ek2 & Es2 & _). cbn [bind]. rewrite Ekc in Q, Hq.
  rewrite Em1 in Em2. rewrite Ek1, Es1 in Es2.
  destruct ((q ++ com_chars c) ++ kbd_chars c) as [|x l].
  - rewrite (proj2 (Z.eqb_eq _ _) (queue_empty _ Q)). cbn. exists c2. done.
  - apply Forall_cons in Hq as [_ Hq]. destruct (ring_pop _ _ _ Q) as (Hne & -> & Q'). rewrite (proj2 (Z.eqb_neq _ _) Hne). cbn [negb bind deref hd tail].
    eexists. split; [done|]. done.
Qed.

(** ** Lines *)

(** The characters of what arrives at the keyboard while [getchar] polls. *)
Fixpoint batches (sh : Z) (arrivals : list (list Z)) : list (list Z) :=
  match arrivals with [] => [] | a :: arrivals => chars (typed a sh).1 :: batches (typed a sh).2 arrivals end.

Definition final_shift (c : console) : Z := (typed (kbd_in c) (shift c)).2.

(** The characters that [getchar] returns one after the other ... *)
Definition stream (c : console) (q : list Z) (arrivals : list (list Z)) : list Z :=
  waiting c q ++ concat (batches (final_shift c) arrivals).

(** ... when never as many as the ring has places wait at once. *)
Definition fits (c : console) (q : list Z) (arrivals : list (list Z)) : Prop :=
  Forall (λ l, Z.of_nat (length l) < CONSBUFSIZE) (waiting c q :: batches (final_shift c) arrivals).

Lemma drained c q : com_chars c = [] → kbd_in c = [] → waiting c q = q ∧ final_shift c = shift c.
Proof. intros E1 E2. unfold waiting, final_shift, kbd_chars. rewrite E1, E2. cbn. by rewrite app_nil_r. Qed.

Lemma waiting_range c q : console_ok c q → Forall (λ x, 0 < x < 256) (waiting c q).
Proof.
  intros [_ _ Hc Hq]. unfold waiting, com_chars, kbd_chars. rewrite !Forall_app. split_and!; [done| |].
  - destruct (serial_exists c); [|constructor]. by apply chars_range, com_vals_byte.
  - apply chars_range, typed_byte.
Qed.

Lemma getchar_ok arrivals c q : console_ok c q → fits c q arrivals →
  ∃ o arrivals' c' q', getchar arrivals c = Ok (o, arrivals', c') ∧ console_ok c' q' ∧ fits c' q' arrivals' ∧
    o = head (stream c q arrivals) ∧ stream c' q' arrivals' = tail (stream c q arrivals) ∧ (∀ x, o = Some x → 0 < x < 256).
Proof.
  revert c q. induction arrivals as [|a arrivals IH]; intros c q Hok Hf; pose proof (waiting_range c q Hok) as Hr; apply Forall_cons in Hf as [Hw Hf].
  all: destruct (cons_getc_ok c q Hok Hw) as (c1 & E1 & Hok1 & Em1 & Ek1 & Es1); fold (final_shift c) in Es1.
  all: cbn [getchar]; rewrite E1; cbn [bind]; unfold stream.
  all: destruct (drained c1 (tail (waiting c q)) Em1 Ek1) as [Ew Efs].
  all: destruct (waiting c q) as [|x l] eqn:Ewc; cbn [hd tail] in *.
  - cbn [bind Z.eqb negb]. exists None, [], c1, []. unfold fits, stream. rewrite Ew. split_and!; try done. by repeat constructor.
  - apply Forall_cons in Hr as [Hx _]. rewrite (proj2 (Z.eqb_neq x 0)) by lia. cbn [negb].
    exists (Some x), [], c1, l. unfold fits, stream. rewrite Ew. split_and!; try done; [|by intros ? [= <-]]. constructor; [cbn in Hw; lia|constructor].
  - cbn [Z.eqb negb]. rewrite Ek1. cbn [app batches] in *. apply Forall_cons in Hf as [Ha Hf].
    set (c2 := set_kbd_in a c1).
    assert (com_chars c2 = []) as Em2 by exact Em1.
    assert (waiting c2 [] = chars (typed a (final_shift c)).1) as Ew2
      by (unfold waiting; rewrite Em2; unfold kbd_chars; cbn; by rewrite Es1).
    assert (final_shift c2 = (typed a (final_shift c)).2) as Ef2 by (unfold final_shift at 1; cbn; by rewrite Es1).
    destruct (IH c2 []) as (o & arr & c3 & q3 & E3 & Hok3 & Hf3 & Eo & Est & Ho).
    { by destruct Hok1. }
    { unfold fits. rewrite Ew2, Ef2. by constructor. }
    exists o, arr, c3, q3. unfold stream in Eo, Est. rewrite Ew2, Ef2 in Eo, Est. cbn [concat]. split_and!; done.
  - apply Forall_cons in Hr as [Hx _]. rewrite (proj2 (Z.eqb_neq x 0)) by lia. cbn [negb].
    exists (Some x), (a :: arrivals), c1, l. unfold fits, stream. rewrite Ew, Efs, Es1. split_and!; try done; [|by intros ? [= <-]].
    constructor; [cbn in Hw; lia|done].
Qed.

(** The line editor: a printable character is added at the end while there is room,
    a backspace takes the last one away. *)
Definition edit (text : list Z) (x : Z) : list Z :=
  if (SPACE <=? x) && (Z.of_nat (length text) <? BUFSIZE - 1) then text ++ [x]
  else if x =? BS then take (length text - 1) text else text.

Definition ends_line (x : Z) : bool := (x =? NL) || (x =? CR).

Lemma ends_line_control x : ends_line x = true → (SPACE <=? x) = false ∧ (x =? BS) = false.
Proof. intros [E|E]%orb_prop; apply Z.eqb_eq in E as ->; done. Qed.

(** Output changes nothing of this. *)
Lemma same_input c c' q arrivals : console_ok c q → screen_ok c' → input c' = input c →
  console_ok c' q ∧ stream c' q arrivals = stream c q arrivals ∧ (fits c q arrivals → fits c' q arrivals).
Proof.
  intros [Q Hs Hc Hq] Hs' Ei. injection Ei as E1 E2 E3 E4 E5.
  assert (waiting c' q = waiting c q ∧ final_shift c' = final_shift c) as [Ew Ef]
    by (unfold waiting, final_shift, com_chars, com_vals, kbd_chars; by rewrite E2, E3, E4, E5).
  unfold stream, fits. rewrite Ew, Ef. split_and!; try done. split; rewrite ?E1, ?E4; done.
Qed.

Lemma echo_ok x c q arrivals : console_ok c q →
  ∃ c', cputchar x c = Ok c' ∧ console_ok c' q ∧ stream c' q arrivals = stream c q arrivals ∧ (fits c q arrivals → fits c' q arrivals).
Proof.
  intros Hok. destruct (cons_putc_ok x c (ok_screen _ _ Hok)) as (c' & E & Hs' & _ & Ei & _). exists c'. split; [done|].
  by apply same_input.
Qed.

(** The text so far is the first part of the buffer. *)
Definition holds (text buf : list Z) : Prop := length buf = Z.to_nat BUFSIZE ∧ Z.of_nat (length text) < BUFSIZE ∧ take (length text) buf = text.

Lemma holds_push text buf x : holds text buf → byte x → Z.of_nat (length text) < BUFSIZE - 1 →
  holds (text ++ [x]) (<[length text := u8 x]> buf).
Proof.
  intros (El & Hl & Et) Hx Hlt. assert (u8 x = x) as -> by (apply Z.mod_small; exact Hx).
  unfold holds. rewrite length_insert, length_app. cbn [length]. split_and!; [done|unfold BUFSIZE in *; lia|].
  rewrite Nat.add_1_r. erewrite take_S_r; [|apply list_lookup_insert_eq; unfold BUFSIZE in *; lia].
  rewrite take_insert_ge by lia. by rewrite Et.
Qed.

Lemma holds_pop text buf : holds text buf → holds (take (length text - 1) text) buf.
Proof.
  intros (El & Hl & Et). unfold holds. rewrite length_take. split_and!; [done|lia|].
  replace (take (length text - 1) text) with (take (length text - 1) (take (length text) buf)) by (by rewrite Et).
  rewrite take_take. f_equal.
Qed.

Lemma readline_loop_ok body : ∀ n text buf arrivals c q x rest,
  console_ok c q → fits c q arrivals → holds text buf → (length body < n)%nat →
  stream c q arrivals = body ++ x :: rest → Forall (λ y, ends_line y = false) body → ends_line x = true →
  ∃ buf' arrivals' c' q', readline_loop n (Z.of_nat (length text)) buf arrivals c = Ok (Line (foldl edit text body), buf', arrivals', c') ∧
    console_ok c' q' ∧ fits c' q' arrivals' ∧ stream c' q' arrivals' = rest.
Proof.
  induction body as [|y body IH]; intros n text buf arrivals c q x rest Hok Hf Hb Hn Es Hl Hx; destruct n as [|n]; try (cbn in Hn; lia).
  all: destruct (getchar_ok arrivals c q Hok Hf) as (o & arr1 & c1 & q1 & E1 & Hok1 & Hf1 & Eo & Est & Hr).
  all: rewrite Es in Eo, Est; cbn in Eo, Est; subst o; specialize (Hr _ eq_refl).
  all: cbn [readline_loop]; rewrite E1; cbn [bind]; rewrite (proj2 (Z.ltb_ge _ 0)) by lia.
  - destruct (ends_line_control x Hx) as [-> ->]. cbn [andb]. fold (ends_line x). rewrite Hx.
    destruct (echo_ok x c1 q1 arr1 Hok1) as (c2 & -> & Hok2 & Es2 & Hf2). cbn [bind foldl]. cbv zeta.
    destruct Hb as (El & Hlt & Et). rewrite Nat2Z.id, take_insert_ge by lia. rewrite Et.
    do 4 eexists. split_and!; [done|exact Hok2|by apply Hf2|]. by rewrite Es2.
  - apply Forall_cons in Hl as [Hy Hl]. cbn [foldl length] in *. destruct (echo_ok y c1 q1 arr1 Hok1) as (c2 & Ec & Hok2 & Es2 & Hf2).
    unfold edit at 2. destruct ((SPACE <=? y) && _) eqn:Ep; [|destruct ((y =? BS) && _) eqn:Eb].
    + apply andb_prop in Ep as [_ Ep%Z.ltb_lt]. rewrite Ec. cbn [bind]. rewrite Nat2Z.id.
      replace (Z.of_nat (length text) + 1) with (Z.of_nat (length (text ++ [y]))) by (rewrite length_app; cbn; lia).
      eapply IH; [exact Hok2|by apply Hf2| |lia|by rewrite Es2|done|done]. apply holds_push; [done|unfold byte; lia|lia].
    + apply andb_prop in Eb as [-> Hlen%Z.ltb_lt]. rewrite Ec. cbn [bind].
      replace (Z.of_nat (length text) - 1) with (Z.of_nat (length (take (length text - 1) text))) by (rewrite length_take; lia).
      eapply IH; [exact Hok2|by apply Hf2|by apply holds_pop|lia|by rewrite Es2|done|done].
    + fold (ends_line y). rewrite Hy. assert ((if y =? BS then take (length text - 1) text else text) = text) as ->.
      { destruct (y =? BS); [|done]. by destruct text. }
      by eapply IH; [exact Hok1|exact Hf1|exact Hb|lia|exact Est|done|done].
Qed.

(** ** Typing *)

(** The key that a table has for a character. *)
Definition key_of (map : Z → Z) (x : Z) : option Z := snd <$> list_find (λ d, map d = x) (seqZ 0 128).

(** The scan codes of pressing and releasing the key, with the shift key held if need be. *)
Definition press (x : Z) : list Z :=
  match key_of normalmap x with
  | Some d => [d; Z.lor d 0x80]
  | None => match key_of shiftmap x with Some d => [0x2A; d; Z.lor d 0x80; Z.lor 0x2A 0x80] | None => [] end
  end.

(** Printable ASCII, backspace, tab, newline and escape. *)
Definition typeable : list Z := [BS; 9; NL; 0x1B] ++ seqZ 32 95.

Definition typing (sh : Z) (x : Z) : Prop := typed (press x) sh = ((typed (press x) sh).1, sh) ∧ chars (typed (press x) sh).1 = [if sh =? 0 then x else caps x].

Lemma press_ok : Forall (λ x, typing 0 x ∧ typing CAPSLOCK x) typeable.
Proof. apply (bool_decide_unpack _). vm_compute. exact I. Qed.

Lemma typed_cat a b sh : typed (a ++ b) sh = ((typed a sh).1 ++ (typed b (typed a sh).2).1, (typed b (typed a sh).2).2).
Proof.
  revert sh. induction a as [|d a IH]; intros sh; cbn [app typed]; [cbn; by destruct (typed b sh)|].
  destruct (kbd_key d sh) as [x sh1]. rewrite IH. destruct (typed a sh1) as [l sh2]. cbn. by destruct (typed b sh2).
Qed.

(** whoever presses the keys of a text one after the other, with the shift key where
    the table asks for it, types that text; with caps lock on, the text with the case of
    its letters exchanged; and the shift state is as before. *)
Theorem typing_roundtrip (text : list Z) (sh : Z) : sh = 0 ∨ sh = CAPSLOCK → (∀ x, x ∈ text → x ∈ typeable) →
  chars (typed (concat (press <$> text)) sh).1 = (if sh =? 0 then text else caps <$> text) ∧ (typed (concat (press <$> text)) sh).2 = sh.
Proof.
  intros Hsh. induction text as [|x text IH]; intros Ht; [by destruct (sh =? 0)|].
  destruct IH as [IH1 IH2]; [intros y Hy; apply Ht; by right|].
  assert (typing sh x) as [E1 E2] by (pose proof (proj1 (Forall_forall _ _) press_ok x (Ht x ltac:(left))); naive_solver).
  rewrite fmap_cons. cbn [concat]. rewrite typed_cat. rewrite E1. cbn [fst snd]. split; [|done].
  unfold chars in *. rewrite filter_app, E2, IH1. by destruct (sh =? 0).
Qed.

(** ** The properties of input and output *)

(** C3: as long as fewer characters wait than the ring has places, [readline] returns
    the next line that arrives from the keyboard and the serial line, edited by
    backspaces and cut where the buffer is full; what comes after the end of the line is
    left for the next call, and nothing is lost or reordered between the interrupts, the
    ring and the caller. *)
Theorem readline_text (prompt : option (list Z)) (n : nat) (buf : list Z) (arrivals : list (list Z)) (c : console) (q body : list Z) (x : Z) (rest : list Z) :
  console_ok c q → fits c q arrivals → length buf = Z.to_nat BUFSIZE → (length body < n)%nat →
  stream c q arrivals = body ++ x :: rest → Forall (λ y, ends_line y = false) body → ends_line x = true →
  ∃ buf' arrivals' c' q', readline prompt n buf arrivals c = Ok (Line (foldl edit [] body), buf', arrivals', c') ∧
    console_ok c' q' ∧ fits c' q' arrivals' ∧ stream c' q' arrivals' = rest.
Proof.
  intros Hok Hf Hb Hn Es Hl Hx. unfold readline.
  destruct (cons_puts_ok (default [] prompt) c (ok_screen _ _ Hok)) as (c1 & -> & Hs1 & _ & Ei & _). cbn [bind].
  destruct (same_input c c1 q arrivals Hok Hs1 Ei) as (Hok1 & Es1 & Hf1).
  apply (readline_loop_ok body n [] buf arrivals c1 q x rest); try done; [by apply Hf1|by rewrite Es1].
Qed.

(** C4: whatever is printed, no character is written outside the screen: the cursor ends
    up on one of its 2000 cells again, the serial line receives every character in order
    (a backspace as three), and the input that waits is not touched. *)
Theorem cons_puts_screen (l : list Z) (c : console) : screen_ok c →
  ∃ c', cons_puts l c = Ok c' ∧ 0 ≤ crt_pos c' < CRT_SIZE ∧ length (crt_buf c') = length (crt_buf c) ∧ input c' = input c ∧
    com_out c' = com_out c ++ concat (serial_bytes <$> l).
Proof.
  intros Hs. destruct (cons_puts_ok l c Hs) as (c' & E & [Hp _] & El & Ei & Eo). by exists c'.
Qed.

(** ** A console *)

(** A keyboard only; someone types [lz], a backspace and [s], and while the kernel polls
    they press return and begin the next line. *)
Definition typing_demo : list Z := concat (press <$> lit "lz" ++ [BS] ++ lit "s").
Definition console0 : console :=
  mkConsole (mkCons (replicate 512 0) 511 511) 0 typing_demo [] false (replicate 2000 0) 1990 [] [] false.
Definition arrivals0 : list (list Z) := [[]; press NL ++ press 112].

Lemma console0_ok : console_ok console0 [].
Proof.
  split; [|vm_compute; intuition discriminate|constructor|constructor].
  split; [reflexivity|vm_compute; intuition discriminate|reflexivity|reflexivity|done].
Qed.

Lemma readline_text_witness : ∃ buf' arrivals' c' q',
  readline (Some (lit "$ ")) 8 (replicate 1024 0) arrivals0 console0 = Ok (Line (lit "ls"), buf', arrivals', c') ∧
  console_ok c' q' ∧ fits c' q' arrivals' ∧ stream c' q' arrivals' = lit "p".
Proof.
  apply (readline_text (Some (lit "$ ")) 8 (replicate 1024 0) arrivals0 console0 [] (lit "lz" ++ [BS] ++ lit "s") NL (lit "p") console0_ok).
  - apply (bool_decide_unpack _). vm_compute. exact I.
  - vm_compute. reflexivity.
  - cbn. lia.
  - vm_compute. reflexivity.
  - apply (bool_decide_unpack _). vm_compute. exact I.
  - reflexivity.
Defined.

Lemma typing_roundtrip_witness :
  chars (typed (concat (press <$> lit "Ls -l")) CAPSLOCK).1 = lit "lS -L" ∧ (typed (concat (press <$> lit "Ls -l")) CAPSLOCK).2 = CAPSLOCK.
Proof.
  apply (typing_roundtrip (lit "Ls -l") CAPSLOCK); [by right|].
  apply Forall_forall. apply (bool_decide_unpack _). vm_compute. exact I.
Defined.

Lemma cons_puts_screen_witness : ∃ c', cons_puts (lit "over the end of the line" ++ [NL]) console0 = Ok c' ∧
  0 ≤ crt_pos c' < CRT_SIZE ∧ length (crt_buf c') = length (crt_buf console0) ∧ input c' = input console0 ∧
  com_out c' = [] ++ concat (serial_bytes <$> lit "over the end of the line" ++ [NL]).
Proof. exact (cons_puts_screen (lit "over the end of the line" ++ [NL]) console0 (ok_screen _ _ console0_ok)). Defined.

(** 512 bytes wait on the serial line: the interrupt stores them all, the ring looks
    empty, and none is ever returned. *)
Lemma full_ring_lost : ∃ c', cons_getc (set_com_in (replicate 512 97) (set_serial_exists true (set_kbd_in [] console0))) = Ok (0, c') ∧
  com_in c' = [] ∧ kbd_in c' = [] ∧ rpos (cons c') = wpos (cons c').
Proof. eexists. vm_compute. split_and!; reflexivity. Qed.
