(* ===== verification/Bitmap.v ===== *)
(** * kern/fs/sfs/bitmap.c: the free map of a file system

    A bit that is 1 stands for a free block.  The map is the list of its 32-bit
    words; the calls of [kmalloc] are represented by their outcomes. *)

From S2P Require Import Prelude.

Definition WORD_BITS : Z := 32.

(** [ROUNDUP_DIV] of libs/defs.h on a [uint32_t]. *)
Definition ROUNDUP_DIV (a n : Z) : Z := u32 (a + n - 1) `div` n.

Record bitmap := mkBitmap { nbits : Z; nwords : Z; map : list Z }.

Definition set_map (b : bitmap) (ws : list Z) : bitmap := mkBitmap (nbits b) (nwords b) ws.

(** [1 << offset] as a [WORD_TYPE]. *)
Definition bit_mask (offset : Z) : Z := u32 (Z.shiftl 1 offset).

(** [for (; overbits < WORD_BITS; overbits ++) map[ix] ^= (1 << overbits)] *)
Fixpoint clear_over (n : nat) (overbits w : Z) : Z :=
  match n with
  | O => w
  | S n => if overbits <? WORD_BITS then clear_over n (overbits + 1) (Z.lxor w (bit_mask overbits)) else w
  end.

(** [m1] and [m2]: whether the two calls of [kmalloc] return an object. *)
Definition bitmap_create (m1 m2 : bool) (n : Z) : res (option bitmap) :=
  assert! negb (n =? 0) && (n <? u32 (n + WORD_BITS)) ;;
  if negb m1 then Ok None
  else
    let nw := ROUNDUP_DIV n WORD_BITS in
    if negb m2 then Ok None
    else
      let ws := replicate (Z.to_nat nw) (2 ^ 32 - 1) in
      if n =? u32 (nw * WORD_BITS) then Ok (Some (mkBitmap n nw ws))
      else
        let ix := u32 (nw - 1) in
        let overbits := u32 (n - ix * WORD_BITS) in
        assert! (n `div` WORD_BITS =? ix) ;;
        assert! (0 <? overbits) && (overbits <? WORD_BITS) ;;
        let! w := deref (ws !! Z.to_nat ix) in
        Ok (Some (mkBitmap n nw (<[Z.to_nat ix := clear_over 32 overbits w]> ws))).

(** The inner loop of [bitmap_alloc] over the bits of a word from [offset] on. *)
Fixpoint find_offset (n : nat) (w offset : Z) : option Z :=
  match n with
  | O => None
  | S n => if Z.land w (bit_mask offset) =? 0 then find_offset n w (offset + 1) else Some offset
  end.

(** The outer loop, from word [ix] on: the index found and the new words. *)
Fixpoint alloc_words (ix : Z) (ws : list Z) : res (option Z * list Z) :=
  match ws with
  | [] => Ok (None, [])
  | w :: ws =>
      if w =? 0 then let! (r, ws) := alloc_words (ix + 1) ws in Ok (r, w :: ws)
      else match find_offset 32 w 0 with
           | Some offset => Ok (Some (u32 (ix * WORD_BITS + offset)), Z.lxor w (bit_mask offset) :: ws)
           | None => Panicked
           end
  end.

(** The result, the index stored in [*index_store], and the bitmap. *)
Definition bitmap_alloc (b : bitmap) : res (Z * option Z * bitmap) :=
  let! (r, ws) := alloc_words 0 (map b) in
  Ok (match r with Some _ => 0 | None => - E_NO_MEM end, r, set_map b ws).

(** The index of the word, and the mask. *)
Definition bitmap_translate (b : bitmap) (index : Z) : res (nat * Z) :=
  assert! (index <? nbits b) ;;
  Ok (Z.to_nat (index `div` WORD_BITS), bit_mask (index `mod` WORD_BITS)).

Definition bitmap_test (b : bitmap) (index : Z) : res bool :=
  let! (ix, mask) := bitmap_translate b index in
  let! w := deref (map b !! ix) in
  Ok (negb (Z.land w mask =? 0)).

Definition bitmap_free (b : bitmap) (index : Z) : res bitmap :=
  let! (ix, mask) := bitmap_translate b index in
  let! w := deref (map b !! ix) in
  assert! (Z.land w mask =? 0) ;;
  Ok (set_map b (<[ix := Z.lor w mask]> (map b))).

(** The data and its length in bytes. *)
Definition bitmap_getdata (b : bitmap) : list Z * Z := (map b, u32 (4 * nwords b)).

(** ** Bits of words *)

Definition is_free (b : bitmap) (i : Z) : bool :=
  match map b !! Z.to_nat (i `div` 32) with Some w => Z.testbit w (i `mod` 32) | None => false end.

Record bitmap_inv (b : bitmap) : Prop := {
  bi_nbits : 0 < nbits b < 2 ^ 32 - 32;
  bi_words : Z.of_nat (length (map b)) = nwords b;
  bi_nwords : nwords b = (nbits b + 31) `div` 32;
  bi_range : Forall is_u32 (map b);
  bi_over : ∀ i, nbits b ≤ i → is_free b i = false
}.

Lemma bit_mask_pow o : 0 ≤ o < 32 → bit_mask o = 2 ^ o.
Proof.
  intros Ho. unfold bit_mask. rewrite Z.shiftl_1_l. apply u32_small.
  split; [by apply Z.pow_nonneg|]. apply Z.pow_lt_mono_r; lia.
Qed.

Lemma land_mask w o : 0 ≤ o < 32 → (Z.land w (bit_mask o) =? 0) = negb (Z.testbit w o).
Proof.
  intros Ho. rewrite bit_mask_pow by done. destruct (Z.testbit w o) eqn:E.
  - apply Z.eqb_neq. intros H0. assert (Z.testbit (Z.land w (2 ^ o)) o = false) as Hf by by rewrite H0, Z.bits_0.
    rewrite Z.land_spec, E, Z.pow2_bits_true in Hf by lia. done.
  - apply Z.eqb_eq. apply Z.bits_inj_iff. intros n. rewrite Z.land_spec, Z.bits_0.
    destruct (decide (n = o)) as [->|]; [by rewrite E|].
    rewrite Z.pow2_bits_false by done. apply andb_false_r.
Qed.

Lemma testbit_lxor_mask w o n : 0 ≤ o < 32 →
  Z.testbit (Z.lxor w (bit_mask o)) n = if decide (n = o) then negb (Z.testbit w n) else Z.testbit w n.
Proof.
  intros Ho. rewrite bit_mask_pow, Z.lxor_spec by done. case_decide as Hn.
  - subst. rewrite Z.pow2_bits_true by lia. by destruct (Z.testbit w o).
  - rewrite Z.pow2_bits_false by done. by destruct (Z.testbit w n).
Qed.

Lemma testbit_lor_mask w o n : 0 ≤ o < 32 →
  Z.testbit (Z.lor w (bit_mask o)) n = if decide (n = o) then true else Z.testbit w n.
Proof.
  intros Ho. rewrite bit_mask_pow, Z.lor_spec by done. case_decide as Hn.
  - subst. rewrite Z.pow2_bits_true by lia. apply orb_true_r.
  - rewrite Z.pow2_bits_false by done. apply orb_false_r.
Qed.

Lemma u32_bits w : is_u32 w ↔ 0 ≤ w ∧ ∀ n, 32 ≤ n → Z.testbit w n = false.
Proof.
  split.
  - intros [H0 Hw]. split; [done|]. intros n Hn.
    destruct (decide (w = 0)) as [->|]; [apply Z.bits_0|].
    apply Z.bits_above_log2; [done|]. apply Z.log2_lt_pow2; [lia|].
    eapply Z.lt_le_trans; [done|]. apply Z.pow_le_mono_r; lia.
  - intros [H0 Hb]. split; [done|]. destruct (decide (w = 0)) as [->|]; [done|].
    apply Z.log2_lt_pow2; [lia|]. apply Z.nle_gt. intros Hl.
    pose proof (Z.bit_log2 w ltac:(lia)) as Ht. by rewrite Hb in Ht.
Qed.

Lemma lxor_mask_u32 w o : 0 ≤ o < 32 → is_u32 w → is_u32 (Z.lxor w (bit_mask o)).
Proof.
  intros Ho. rewrite !u32_bits. intros [H0 Hw]. split.
  - apply Z.lxor_nonneg. split; [|done]. intros _. rewrite bit_mask_pow by done. by apply Z.pow_nonneg.
  - intros n Hn. rewrite testbit_lxor_mask by done. rewrite decide_False by lia. by apply Hw.
Qed.

Lemma lor_mask_u32 w o : 0 ≤ o < 32 → is_u32 w → is_u32 (Z.lor w (bit_mask o)).
Proof.
  intros Ho. rewrite !u32_bits. intros [H0 Hw]. split.
  - apply Z.lor_nonneg. split; [done|]. rewrite bit_mask_pow by done. by apply Z.pow_nonneg.
  - intros n Hn. rewrite testbit_lor_mask by done. rewrite decide_False by lia. by apply Hw.
Qed.

Lemma find_offset_spec n w o :
  0 ≤ o → o + Z.of_nat n ≤ 32 →
  match find_offset n w o with
  | Some k => o ≤ k < o + Z.of_nat n ∧ Z.testbit w k = true ∧ ∀ j, o ≤ j < k → Z.testbit w j = false
  | None => ∀ j, o ≤ j < o + Z.of_nat n → Z.testbit w j = false
  end.
Proof.
  revert o. induction n as [|n IH]; intros o H0 Hn; cbn [find_offset]; [lia|].
  rewrite land_mask by lia. destruct (Z.testbit w o) eqn:E; cbn [negb].
  - split_and!; [lia|lia|done|lia].
  - specialize (IH (o + 1) ltac:(lia) ltac:(lia)).
    assert (∀ j, o + 1 ≤ j → o ≤ j) by lia.
    destruct (find_offset n w (o + 1)) as [k|].
    + destruct IH as (Hk & Hb & Hj). split_and!; [lia|lia|done|]. intros j Hjk.
      destruct (decide (j = o)) as [->|]; [done|]. apply Hj. lia.
    + intros j Hj. destruct (decide (j = o)) as [->|]; [done|]. apply IH. lia.
Qed.

Lemma u32_zero w : is_u32 w → (∀ j, 0 ≤ j < 32 → Z.testbit w j = false) → w = 0.
Proof.
  rewrite u32_bits. intros [H0 Hw] Hj. apply Z.bits_inj_iff. intros n. rewrite Z.bits_0.
  destruct (decide (n < 0)); [by apply Z.testbit_neg_r|]. destruct (decide (n < 32)); [apply Hj; lia|apply Hw; lia].
Qed.

(** What one run of the word loop finds: the first set bit. *)
Definition first_bit (ix : Z) (ws : list Z) (i : Z) (ws' : list Z) : Prop :=
  ∃ k w o, i = (ix + Z.of_nat k) * 32 + o ∧ 0 ≤ o < 32 ∧ ws !! k = Some w ∧ Z.testbit w o = true ∧
    ws' = <[k := Z.lxor w (bit_mask o)]> ws ∧ (∀ j, 0 ≤ j < o → Z.testbit w j = false) ∧
    (∀ k' w', (k' < k)%nat → ws !! k' = Some w' → w' = 0).

Lemma alloc_words_spec ix ws :
  0 ≤ ix → Forall is_u32 ws → (ix + Z.of_nat (length ws)) * 32 ≤ 2 ^ 32 →
  ∃ r ws', alloc_words ix ws = Ok (r, ws') ∧
    match r with None => ws' = ws ∧ Forall (eq 0) ws | Some i => first_bit ix ws i ws' end.
Proof.
  revert ix. induction ws as [|w ws IH]; intros ix H0 Hws Hlen; cbn [alloc_words length] in *.
  { exists None, []. by repeat constructor. }
  apply Forall_cons in Hws as [Hw Hws]. destruct (Z.eqb_spec w 0) as [->|Hne].
  - destruct (IH (ix + 1)) as (r & ws' & -> & Hr); [lia|done|lia|]. cbn [bind]. eexists r, (0 :: ws').
    split; [done|]. destruct r as [i|].
    + destruct Hr as (k & w & o & -> & Ho & Hk & Hb & -> & Hj & Hk').
      exists (S k), w, o. split_and!; try done; try lia.
      intros [|k'] w' Hlt Hw'; cbn in Hw'; [by simplify_eq|]. apply (Hk' k'); [lia|done].
    + destruct Hr as [-> Hall]. split; [done|]. by constructor.
  - pose proof (find_offset_spec 32 w 0 ltac:(lia) ltac:(lia)) as Hfo.
    destruct (find_offset 32 w 0) as [o|].
    + destruct Hfo as (Ho & Hb & Hj). eexists _, _. split; [done|].
      exists O, w, o. split_and!; try done; try lia.
      unfold WORD_BITS. rewrite Z.add_0_r. apply u32_small. lia.
    + exfalso. apply Hne, u32_zero; [done|]. intros. apply Hfo. lia.
Qed.

(** The word and the bit of an index. *)
Lemma is_free_word b k o : 0 ≤ o < 32 →
  is_free b (Z.of_nat k * 32 + o) = match map b !! k with Some w => Z.testbit w o | None => false end.
Proof.
  intros Ho. unfold is_free. rewrite Z.add_comm, Z.div_add, Z.mod_add by lia.
  rewrite Z.div_small, Z.mod_small by lia. by rewrite Z.add_0_l, Nat2Z.id.
Qed.

Lemma index_split i : 0 ≤ i → ∃ k o, 0 ≤ o < 32 ∧ i = Z.of_nat k * 32 + o.
Proof.
  intros Hi. exists (Z.to_nat (i `div` 32)), (i `mod` 32). pose proof (Z.mod_pos_bound i 32 ltac:(lia)).
  split; [lia|]. rewrite Z2Nat.id by (apply Z.div_pos; lia). pose proof (Z.div_mod i 32). lia.
Qed.

(** Changing one word changes the bits of that word only. *)
Lemma is_free_insert b k w v o i f :
  0 ≤ i → 0 ≤ o < 32 → map b !! k = Some w →
  (∀ n, 0 ≤ n < 32 → Z.testbit v n = if decide (n = o) then f else Z.testbit w n) →
  is_free (set_map b (<[k := v]> (map b))) i =
    if decide (i = Z.of_nat k * 32 + o) then f else is_free b i.
Proof.
  intros Hi Ho Hk Hv. destruct (index_split i Hi) as (k' & o' & Ho' & ->).
  rewrite !is_free_word by done. cbn [map set_map]. destruct (decide (k' = k)) as [->|Hne].
  - rewrite list_lookup_insert_eq by (by eapply lookup_lt_Some). rewrite Hv, Hk by done.
    destruct (decide (o' = o)) as [->|]; [by rewrite decide_True|]. rewrite decide_False by lia. done.
  - rewrite list_lookup_insert_ne by done. rewrite decide_False; [done|]. lia.
Qed.

Lemma bitmap_inv_set b k v :
  bitmap_inv b → is_u32 v →
  (∀ i, nbits b ≤ i → is_free (set_map b (<[k := v]> (map b))) i = false) →
  bitmap_inv (set_map b (<[k := v]> (map b))).
Proof.
  intros [Hn Hw Hnw Hr Ho] Hv Hover. split; cbn; [done| |done| |done].
  - by rewrite length_insert.
  - by apply Forall_insert.
Qed.

Lemma bitmap_inv_len b : bitmap_inv b → nbits b ≤ Z.of_nat (length (map b)) * 32 ≤ 2 ^ 32.
Proof.
  intros [Hn Hw Hnw _ _]. rewrite Hw, Hnw. pose proof (Z.div_mod (nbits b + 31) 32 ltac:(lia)).
  pose proof (Z.mod_pos_bound (nbits b + 31) 32 ltac:(lia)). lia.
Qed.

(** [bitmap_alloc] returns the smallest free index and takes
    exactly that one; it fails with [-E_NO_MEM], changing nothing, only if no index
    is free; and [bitmap_free] of the index gives the old map back. *)
Theorem bitmap_alloc_first b :
  bitmap_inv b →
  ∃ e r b', bitmap_alloc b = Ok (e, r, b') ∧ bitmap_inv b' ∧
    match r with
    | None => e = - E_NO_MEM ∧ b' = b ∧ ∀ i, 0 ≤ i → is_free b i = false
    | Some i => e = 0 ∧ 0 ≤ i < nbits b ∧ is_free b i = true ∧ (∀ j, 0 ≤ j < i → is_free b j = false) ∧
        (∀ j, 0 ≤ j → is_free b' j = if decide (j = i) then false else is_free b j) ∧
        bitmap_test b' i = Ok false ∧ bitmap_free b' i = Ok b
    end.
Proof.
  intros Hb. pose proof (bitmap_inv_len b Hb) as Hlen.
  destruct (alloc_words_spec 0 (map b)) as (r & ws' & Ha & Hr); [done|apply Hb|lia|].
  unfold bitmap_alloc. rewrite Ha. cbn [bind]. eexists _, r, _. split; [done|]. destruct r as [i|].
  - destruct Hr as (k & w & o & -> & Ho & Hk & Hbit & -> & Hj & Hzero). rewrite Z.add_0_l in *.
    set (b' := set_map b (<[k:=Z.lxor w (bit_mask o)]> (map b))).
    assert (∀ j, 0 ≤ j → is_free b' j = if decide (j = Z.of_nat k * 32 + o) then false else is_free b j) as Hf.
    { intros j H0. apply is_free_insert with (w := w); try done. intros n Hn. rewrite testbit_lxor_mask by done.
      case_decide; [subst; by rewrite Hbit|done]. }
    assert (is_free b (Z.of_nat k * 32 + o) = true) as Hfree by (by rewrite is_free_word, Hk).
    assert (Z.of_nat k * 32 + o < nbits b) as Hin.
    { apply Z.nle_gt. intros Hge. by rewrite (bi_over _ Hb) in Hfree. }
    assert (Z.to_nat ((Z.of_nat k * 32 + o) `div` 32) = k ∧ (Z.of_nat k * 32 + o) `mod` 32 = o) as [Hdiv Hmod].
    { rewrite Z.add_comm, Z.div_add, Z.mod_add, Z.div_small, Z.mod_small by lia. lia. }
    assert (is_u32 w) as Hw by (eapply Forall_lookup_1; [apply Hb|done]).
    assert (bitmap_translate b' (Z.of_nat k * 32 + o) = Ok (k, bit_mask o)) as Ht.
    { unfold bitmap_translate, WORD_BITS. cbn [nbits set_map b']. rewrite (proj2 (Z.ltb_lt _ _)) by done.
      by rewrite Hdiv, Hmod. }
    assert (map b' !! k = Some (Z.lxor w (bit_mask o))) as Hk'.
    { cbn. apply list_lookup_insert_eq. by eapply lookup_lt_Some. }
    assert (Z.land (Z.lxor w (bit_mask o)) (bit_mask o) =? 0 = true) as Hclr.
    { rewrite land_mask, testbit_lxor_mask, decide_True, Hbit by done. done. }
    split; [|split_and!; try done; try lia].
    + apply bitmap_inv_set; [done|by apply lxor_mask_u32|]. intros j Hge. rewrite Hf by lia.
      rewrite (bi_over _ Hb) by done. by case_decide.
    + intros j Hlt. destruct (index_split j) as (k' & o' & Ho' & ->); [lia|]. rewrite is_free_word by done.
      destruct (map b !! k') as [w'|] eqn:Ew; [|done]. destruct (decide (k' = k)) as [->|].
      * simplify_eq. apply Hj. lia.
      * rewrite (Hzero k' w'); [apply Z.bits_0|lia|done].
    + unfold bitmap_test. rewrite Ht. cbn [bind]. rewrite Hk'. cbn [deref bind]. by rewrite Hclr.
    + unfold bitmap_free. rewrite Ht. cbn [bind]. rewrite Hk'. cbn [deref bind]. rewrite Hclr. f_equal.
      assert (Z.lor (Z.lxor w (bit_mask o)) (bit_mask o) = w) as ->.
      { apply Z.bits_inj_iff. intros n. rewrite testbit_lor_mask, testbit_lxor_mask by done.
        case_decide; [by subst|done]. }
      unfold set_map. cbn. rewrite list_insert_insert_eq, list_insert_id by done. by destruct b.
  - destruct Hr as [-> Hall]. assert (set_map b (map b) = b) as -> by by destruct b.
    split; [done|]. split_and!; [done..|]. intros i Hi. destruct (index_split i Hi) as (k & o & Ho & ->).
    rewrite is_free_word by done. destruct (map b !! k) as [w|] eqn:E; [|done].
    rewrite <- (Forall_lookup_1 _ _ _ _ Hall E). apply Z.bits_0.
Qed.

Lemma bitmap_alloc_nbits b e r b' : bitmap_alloc b = Ok (e, r, b') → nbits b' = nbits b.
Proof. unfold bitmap_alloc. destruct (alloc_words 0 (map b)) as [[q ws]| | |]; cbn; intros E; [|done..]. by simplify_eq. Qed.

(** The word of an index. *)
Lemma bitmap_index b i : bitmap_inv b → 0 ≤ i < nbits b →
  ∃ k o w, i = Z.of_nat k * 32 + o ∧ 0 ≤ o < 32 ∧ map b !! k = Some w ∧ is_u32 w ∧ is_free b i = Z.testbit w o ∧
    bitmap_translate b i = Ok (k, bit_mask o).
Proof.
  intros Hb [H0 Hi]. destruct (index_split i H0) as (k & o & Ho & ->). pose proof (bitmap_inv_len b Hb) as Hlen.
  destruct (map b !! k) as [w|] eqn:Hk; [|apply lookup_ge_None in Hk; lia].
  exists k, o, w. split_and!; try done; try lia.
  - eapply Forall_lookup_1; [apply Hb|done].
  - by rewrite is_free_word, Hk.
  - unfold bitmap_translate, WORD_BITS. rewrite (proj2 (Z.ltb_lt _ _)) by done.
    rewrite Z.add_comm, Z.div_add, Z.mod_add, Z.div_small, Z.mod_small, Z.add_0_l, Nat2Z.id by lia. done.
Qed.

Lemma bitmap_test_ok b i : bitmap_inv b → 0 ≤ i < nbits b → bitmap_test b i = Ok (is_free b i).
Proof.
  intros Hb Hi. destruct (bitmap_index b i Hb Hi) as (k & o & w & _ & Ho & Hk & _ & -> & Ht).
  unfold bitmap_test. rewrite Ht. cbn [bind]. rewrite Hk. cbn [deref bind]. rewrite land_mask by done.
  by rewrite negb_involutive.
Qed.

Lemma bitmap_free_ok b i : bitmap_inv b → 0 ≤ i < nbits b → is_free b i = false →
  ∃ b', bitmap_free b i = Ok b' ∧ bitmap_inv b' ∧ nbits b' = nbits b ∧
    ∀ j, 0 ≤ j → is_free b' j = if decide (j = i) then true else is_free b j.
Proof.
  intros Hb Hi Hf. destruct (bitmap_index b i Hb Hi) as (k & o & w & E & Ho & Hk & Hw & Hbit & Ht).
  rewrite Hf in Hbit. unfold bitmap_free. rewrite Ht. cbn [bind]. rewrite Hk. cbn [deref bind].
  rewrite land_mask, <- Hbit by done. cbn [negb]. eexists. split; [done|].
  assert (∀ j, 0 ≤ j → is_free (set_map b (<[k:=Z.lor w (bit_mask o)]> (map b))) j =
    if decide (j = i) then true else is_free b j) as Hj.
  { intros j Hj. rewrite E. apply is_free_insert with (w := w); try done. intros n Hn. by apply testbit_lor_mask. }
  split_and!; [|done|done]. apply bitmap_inv_set; [done|by apply lor_mask_u32|].
  intros j Hj0. rewrite Hj, decide_False by lia. by apply Hb.
Qed.

Lemma clear_over_spec n o w :
  0 ≤ o ≤ 32 → 32 - o ≤ Z.of_nat n → is_u32 w →
  is_u32 (clear_over n o w) ∧
  ∀ j, 0 ≤ j → Z.testbit (clear_over n o w) j =
    if decide (o ≤ j < 32) then negb (Z.testbit w j) else Z.testbit w j.
Proof.
  revert o w. induction n as [|n IH]; intros o w Ho Hn Hw; cbn [clear_over].
  { split; [done|]. intros j Hj. rewrite decide_False by lia. done. }
  unfold WORD_BITS. destruct (Z.ltb_spec o 32).
  - destruct (IH (o + 1) (Z.lxor w (bit_mask o))) as [Hu Hj]; [lia|lia|apply lxor_mask_u32; [lia|done]|].
    split; [done|]. intros j H0. rewrite Hj, testbit_lxor_mask by lia.
    destruct (decide (j = o)) as [->|].
    + by rewrite decide_False, decide_True by lia.
    + destruct (decide (o + 1 ≤ j < 32)); [rewrite decide_True by lia|rewrite decide_False by lia]; done.
  - split; [done|]. intros j Hj. rewrite decide_False by lia. done.
Qed.

Lemma ones_testbit j : 0 ≤ j < 32 → Z.testbit (2 ^ 32 - 1) j = true.
Proof. intros Hj. change (2 ^ 32 - 1) with (Z.ones 32). by apply Z.ones_spec_low. Qed.

(** A bitmap of [n] blocks is created with exactly the indices
    below [n] free: the leftover bits of the last word are in use, and none of the
    assertions fails. Without memory nothing is created. *)
Theorem bitmap_create_all_free m1 m2 n :
  0 < n < 2 ^ 32 - 32 →
  if m1 && m2 then ∃ b, bitmap_create m1 m2 n = Ok (Some b) ∧ bitmap_inv b ∧ nbits b = n ∧
                     ∀ i, 0 ≤ i → is_free b i = bool_decide (i < n)
  else bitmap_create m1 m2 n = Ok None.
Proof.
  intros Hn. unfold bitmap_create, WORD_BITS. rewrite (proj2 (Z.eqb_neq n 0)) by lia.
  rewrite u32_small, (proj2 (Z.ltb_lt _ _)) by lia. cbn [negb andb].
  destruct m1; cbn [negb andb]; [|done]. destruct m2; cbn [negb]; [|done].
  unfold ROUNDUP_DIV. rewrite (u32_small (n + 32 - 1)) by lia. replace (n + 32 - 1) with (n + 31) by lia.
  set (nw := (n + 31) `div` 32).
  assert (n ≤ nw * 32 < n + 32) as Hnw.
  { pose proof (Z.div_mod (n + 31) 32 ltac:(lia)). pose proof (Z.mod_pos_bound (n + 31) 32 ltac:(lia)). lia. }
  rewrite (u32_small (nw * 32)), (u32_small (nw - 1)) by lia.
  set (ones := replicate (Z.to_nat nw) (2 ^ 32 - 1)).
  assert (Z.of_nat (length ones) = nw) as Hlen by (unfold ones; rewrite length_replicate; lia).
  assert (Forall is_u32 ones) as Hones by (apply Forall_replicate; unfold is_u32; lia).
  assert (∀ i, 0 ≤ i → is_free (mkBitmap n nw ones) i = bool_decide (i < nw * 32)) as Hfree.
  { intros i Hi. destruct (index_split i Hi) as (k & o & Ho & ->). rewrite is_free_word by done. cbn [map].
    destruct (ones !! k) as [w|] eqn:E.
    - pose proof (lookup_lt_Some _ _ _ E). apply lookup_replicate in E as [-> _].
      rewrite ones_testbit, bool_decide_true by lia. done.
    - apply lookup_ge_None in E. rewrite bool_decide_false by lia. done. }
  destruct (Z.eqb_spec n (nw * 32)) as [He|Hne].
  - eexists. split; [done|]. split_and!; [|done|].
    + split; cbn; [lia|lia|done|done|]. intros i Hi. rewrite Hfree by lia. apply bool_decide_false. lia.
    + intros i Hi. rewrite Hfree by done. by rewrite <- He.
  - rewrite (u32_small (n - (nw - 1) * 32)) by lia. set (o := n - (nw - 1) * 32).
    assert (n `div` 32 = nw - 1) as -> by (symmetry; apply (Z.div_unique n 32 _ o); lia).
    rewrite Z.eqb_refl, !(proj2 (Z.ltb_lt _ _)) by lia. cbn [andb].
    destruct (ones !! Z.to_nat (nw - 1)) as [w|] eqn:E; [|apply lookup_ge_None in E; lia].
    pose proof E as [-> _]%lookup_replicate. cbn [deref bind].
    destruct (clear_over_spec 32 o (2 ^ 32 - 1)) as [Hcu Hcb]; [lia|lia|unfold is_u32; lia|].
    set (b := mkBitmap n nw _). exists b.
    assert (∀ i, 0 ≤ i → is_free b i = bool_decide (i < n)) as Hb.
    { intros i Hi. destruct (index_split i Hi) as (k & o' & Ho' & ->). rewrite is_free_word by done. cbn [map b].
      destruct (decide (k = Z.to_nat (nw - 1))) as [->|Hk].
      - rewrite list_lookup_insert_eq by lia. rewrite Hcb, ones_testbit by lia. cbn [negb].
        case_decide; [rewrite bool_decide_false by lia|rewrite bool_decide_true by lia]; done.
      - rewrite list_lookup_insert_ne by done. pose proof (Hfree (Z.of_nat k * 32 + o') Hi) as Hk'.
        rewrite is_free_word in Hk' by done. cbn [map] in Hk'. rewrite Hk'.
        apply bool_decide_ext. lia. }
    split_and!; [done| |done|done]. split; cbn; [lia|by rewrite length_insert|done|by apply Forall_insert|].
    intros i Hi. rewrite Hb by lia. apply bool_decide_false. lia.
Qed.

Lemma bitmap_create_all_free_witness :
  ∃ b, bitmap_create true true 40 = Ok (Some b) ∧ bitmap_inv b ∧ nbits b = 40 ∧
    ∀ i, 0 ≤ i → is_free b i = bool_decide (i < 40).
Proof. apply (bitmap_create_all_free true true 40). lia. Defined.

(** *** A map of 34 blocks, of which 0 to 32 are in use. *)
Definition demo_bitmap : bitmap := mkBitmap 34 2 [0; 2].

Lemma demo_bitmap_inv : bitmap_inv demo_bitmap.
Proof.
  split; cbn; [lia|done|done|repeat constructor; unfold is_u32; lia|].
  intros i Hi. destruct (index_split i) as (k & o & Ho & ->); [lia|]. rewrite is_free_word by done.
  destruct k as [|[|k]]; cbn; [apply Z.bits_0| |done].
  change 2 with (2 ^ 1). apply Z.pow2_bits_false. lia.
Qed.

Lemma bitmap_alloc_first_witness :
  ∃ e r b', bitmap_alloc demo_bitmap = Ok (e, r, b') ∧ bitmap_inv b' ∧
    match r with
    | None => e = - E_NO_MEM ∧ b' = demo_bitmap ∧ ∀ i, 0 ≤ i → is_free demo_bitmap i = false
    | Some i => e = 0 ∧ 0 ≤ i < 34 ∧ is_free demo_bitmap i = true ∧
        (∀ j, 0 ≤ j < i → is_free demo_bitmap j = false) ∧
        (∀ j, 0 ≤ j → is_free b' j = if decide (j = i) then false else is_free demo_bitmap j) ∧
        bitmap_test b' i = Ok false ∧ bitmap_free b' i = Ok demo_bitmap
    end.
Proof. exact (bitmap_alloc_first demo_bitmap demo_bitmap_inv). Defined.
