(* ===== verification/Iobuf.v ===== *)
(** * kern/fs/iobuf.c: the buffer of a read or write request *)

From S2P Require Import Prelude CString.

#[local] Coercion Z.of_nat : nat >-> Z.

Record iobuf := mkIobuf { io_base : Z; io_offset : Z; io_len : Z; io_resid : Z }.

Definition iobuf_used (iob : iobuf) : Z := u32 (io_len iob - io_resid iob).

Definition iobuf_init (base len offset : Z) : iobuf := mkIobuf base offset len len.

Definition iobuf_skip (iob : iobuf) (n : Z) : res iobuf :=
  assert! (n <=? io_resid iob) ;;
  Ok (mkIobuf (io_base iob + n) (i32 (io_offset iob + n)) (io_len iob) (u32 (io_resid iob - n))).

(** The result, the size copied ([*copiedp]), the buffer and memory. *)
Definition iobuf_move (m : mem) (iob : iobuf) (data len : Z) (m2b : bool) : res (Z * Z * iobuf * mem) :=
  let alen := if len <? io_resid iob then len else io_resid iob in
  let! (iob, m, len) :=
    if 0 <? alen then
      let '(src, dst) := if m2b then (data, io_base iob) else (io_base iob, data) in
      let! (_, m) := memmove m dst src alen in
      let! iob := iobuf_skip iob alen in
      Ok (iob, m, u32 (len - alen))
    else Ok (iob, m, len) in
  Ok (if len =? 0 then 0 else - E_NO_MEM, alen, iob, m).

Definition iobuf_move_zeros (m : mem) (iob : iobuf) (len : Z) : res (Z * Z * iobuf * mem) :=
  let alen := if len <? io_resid iob then len else io_resid iob in
  let! (iob, m, len) :=
    if 0 <? alen then
      let! (_, m) := memset m (io_base iob) 0 alen in
      let! iob := iobuf_skip iob alen in
      Ok (iob, m, u32 (len - alen))
    else Ok (iob, m, len) in
  Ok (if len =? 0 then 0 else - E_NO_MEM, alen, iob, m).

(** The buffer lies in the 32-bit address space and is not longer than was asked for. *)
Record iobuf_ok (iob : iobuf) : Prop := {
  io_resid_le : 0 ≤ io_resid iob ≤ io_len iob;
  io_len_u32 : io_len iob < 2 ^ 32;
  io_off_i32 : 0 ≤ io_offset iob ∧ io_offset iob + io_resid iob < 2 ^ 31
}.

(** [iob] after [n] more bytes. *)
Definition advanced (iob : iobuf) (n : Z) : iobuf :=
  mkIobuf (io_base iob + n) (io_offset iob + n) (io_len iob) (io_resid iob - n).

Lemma iobuf_skip_ok iob n :
  iobuf_ok iob → 0 ≤ n ≤ io_resid iob →
  iobuf_skip iob n = Ok (advanced iob n) ∧ iobuf_ok (advanced iob n) ∧
  iobuf_used (advanced iob n) = iobuf_used iob + n.
Proof.
  intros [Hr Hl Ho] Hn. unfold iobuf_skip. rewrite (proj2 (Z.leb_le _ _)) by lia.
  rewrite i32_small, u32_small by lia. split_and!; [done|split; cbn; lia|].
  unfold iobuf_used, advanced. cbn. rewrite !u32_small by lia. lia.
Qed.

(** Memory as a list of bytes: what a buffer holds, and filling it. *)
Fixpoint load_bytes (n : nat) (m : mem) (a : Z) : res (list Z) :=
  match n with
  | O => Ok []
  | S n => let! c := ld m a in let! l := load_bytes n m (a + 1) in Ok (c :: l)
  end.

Fixpoint store_bytes (m : mem) (a : Z) (l : list Z) : res mem :=
  match l with
  | [] => Ok m
  | c :: l => let! m := st m a c in store_bytes m (a + 1) l
  end.

Lemma load_bytes_ok m a l : bytes_at m a l → load_bytes (length l) m a = Ok l.
Proof.
  revert a. induction l as [|x l IH]; intros a; [done|]. intros [Hx Hl]. cbn [length load_bytes].
  by rewrite (ld_ok _ _ _ Hx), (IH _ Hl).
Qed.

Lemma store_bytes_ok m a l : mapped m a (length l) → ∃ m', store_bytes m a l = Ok m' ∧ updated m m' a l.
Proof.
  revert m a. induction l as [|x l IH]; intros m a Hm; cbn [store_bytes].
  { exists m. split; [done|apply updated_nil]. }
  rewrite st_ok by (apply Hm; cbn; lia). cbn [bind]. destruct (IH (<[a := x]> m) (a + 1)) as (m' & -> & Hu).
  { apply mapped_insert. intros b Hb. apply Hm. cbn. lia. }
  exists m'. split; [done|by apply updated_insert_head].
Qed.

Lemma load_bytes_fuel n m a : load_bytes n m a ≠ NoFuel.
Proof. revert a. induction n as [|n IH]; intros a; [done|]. cbn. repeat (apply bind_not_nofuel; [|intros ?]); auto using ld_not_nofuel. Qed.

Lemma store_bytes_fuel m a l : store_bytes m a l ≠ NoFuel.
Proof. revert m a. induction l as [|x l IH]; intros m a; [done|]. cbn. apply bind_not_nofuel; auto using st_fuel. Qed.

Lemma updated_mapped m m' d l a n : updated m m' d l → mapped m a n → mapped m' a n.
Proof.
  intros Hu Hm x Hx. rewrite Hu. case_decide; [apply lookup_lt_is_Some; lia|by apply Hm].
Qed.

Lemma memset_loop_ok (n : nat) m d c :
  mapped m d n → ∃ m', memset_loop n m d c = Ok m' ∧ updated m m' d (replicate n c).
Proof.
  revert m d. induction n as [|n IH]; intros m d Hd; cbn [memset_loop].
  { exists m. split; [done|]. apply updated_nil. }
  rewrite st_ok by (apply Hd; lia). cbn [bind].
  destruct (IH (<[d := c]> m) (d + 1)) as (m' & Hm' & Hu).
  { apply mapped_insert. intros a Ha. apply Hd. lia. }
  exists m'. split; [done|]. by apply updated_insert_head.
Qed.

(** [iobuf_move] transfers as many bytes as both sides have room for,
    in the direction asked for, advances the buffer by exactly those, and returns 0
    just when the whole request fitted into the buffer. *)
Theorem iobuf_move_transfers m iob data len m2b l :
  iobuf_ok iob → 0 ≤ len < 2 ^ 32 →
  let n := Z.min len (io_resid iob) in
  let src := if m2b : bool then data else io_base iob in
  let dst := if m2b then io_base iob else data in
  bytes_at m src l → Z.of_nat (length l) = n → mapped m dst n →
  ∃ m', iobuf_move m iob data len m2b =
          Ok (if decide (len ≤ io_resid iob) then 0 else - E_NO_MEM, n, advanced iob n, m') ∧
    updated m m' dst l ∧ iobuf_ok (advanced iob n) ∧ iobuf_used (advanced iob n) = iobuf_used iob + n.
Proof.
  intros Hok Hlen n src dst Hsrc Hl Hdst. pose proof (io_resid_le _ Hok) as Hr.
  destruct (iobuf_skip_ok iob n Hok) as (Hskip & Hok' & Hused); [unfold n; lia|].
  unfold iobuf_move.
  assert ((if len <? io_resid iob then len else io_resid iob) = n) as ->
    by (unfold n; destruct (Z.ltb_spec len (io_resid iob)); lia).
  assert ((if u32 (len - n) =? 0 then 0 else - E_NO_MEM) =
          if decide (len ≤ io_resid iob) then 0 else - E_NO_MEM) as He.
  { rewrite u32_small by (unfold n; lia). case_decide; [rewrite (proj2 (Z.eqb_eq _ _))|rewrite (proj2 (Z.eqb_neq _ _))];
      try done; unfold n; lia. }
  destruct (Z.ltb_spec 0 n) as [Hpos|Hz].
  - rewrite <- Hl in Hdst. destruct (memmove_ok m dst src l Hsrc Hdst) as (m' & Hm & Hu). rewrite Hl in Hm.
    exists m'. split_and!; [|done..].
    destruct m2b; unfold src, dst in Hm; cbv beta iota; rewrite Hm; cbn [bind]; rewrite Hskip; cbn [bind]; by rewrite He.
  - assert (n = 0) as Hn0 by (unfold n in *; lia). exists m. cbn [bind].
    assert (advanced iob n = iob) as -> by (rewrite Hn0; unfold advanced; destruct iob; cbn; f_equal; lia).
    split_and!; [|destruct l; [apply updated_nil|cbn in Hl; lia]|done|lia].
    rewrite Hn0, Z.sub_0_r, u32_small in He by lia. by rewrite He.
Qed.

(** Reading beyond the end of a file: [iobuf_move_zeros] clears as
    many bytes as the buffer has room for and advances it by those. *)
Theorem iobuf_move_zeros_clears m iob len :
  iobuf_ok iob → 0 ≤ len < 2 ^ 32 → mapped m (io_base iob) (Z.min len (io_resid iob)) →
  let n := Z.min len (io_resid iob) in
  ∃ m', iobuf_move_zeros m iob len =
          Ok (if decide (len ≤ io_resid iob) then 0 else - E_NO_MEM, n, advanced iob n, m') ∧
    updated m m' (io_base iob) (replicate (Z.to_nat n) 0).
Proof.
  intros Hok Hlen Hm n. pose proof (io_resid_le _ Hok) as Hr. fold n in Hm.
  destruct (iobuf_skip_ok iob n Hok) as (Hskip & _ & _); [unfold n; lia|].
  unfold iobuf_move_zeros.
  assert ((if len <? io_resid iob then len else io_resid iob) = n) as ->
    by (unfold n; destruct (Z.ltb_spec len (io_resid iob)); lia).
  assert ((if u32 (len - n) =? 0 then 0 else - E_NO_MEM) =
          if decide (len ≤ io_resid iob) then 0 else - E_NO_MEM) as He.
  { rewrite u32_small by (unfold n; lia). case_decide; [rewrite (proj2 (Z.eqb_eq _ _))|rewrite (proj2 (Z.eqb_neq _ _))];
      try done; unfold n; lia. }
  destruct (Z.ltb_spec 0 n) as [Hpos|Hz].
  - destruct (memset_loop_ok (Z.to_nat n) m (io_base iob) 0) as (m' & Hs & Hu); [by rewrite Z2Nat.id by lia|].
    exists m'. split; [|done]. unfold memset. rewrite Hs. cbn [bind]. rewrite Hskip. cbn [bind]. by rewrite He.
  - assert (n = 0) as Hn0 by (unfold n in *; lia). exists m. cbn [bind].
    rewrite Hn0 in *. split; [|apply updated_nil].
    assert (advanced iob 0 = iob) as -> by (unfold advanced; destruct iob; cbn; f_equal; lia).
    rewrite Z.sub_0_r, u32_small in He by lia. by rewrite He.
Qed.

(** *** A request for four bytes at 10, of which two are still to come. *)
Definition demo_iob : iobuf := mkIobuf 12 102 4 2.

Lemma demo_iob_ok : iobuf_ok demo_iob.
Proof. by split; cbn; lia. Qed.

Lemma iobuf_move_transfers_witness :
  ∃ m', iobuf_move demo_mem demo_iob 20 3 true = Ok (- E_NO_MEM, 2, mkIobuf 14 104 4 0, m') ∧
    updated demo_mem m' 12 [97; 99] ∧ iobuf_ok (advanced demo_iob 2) ∧
    iobuf_used (advanced demo_iob 2) = iobuf_used demo_iob + 2.
Proof.
  apply (iobuf_move_transfers demo_mem demo_iob 20 3 true [97; 99] demo_iob_ok); [lia|by repeat split|done|].
  intros a Ha. cbn in Ha. assert (a = 12 ∨ a = 13) as [->| ->] by lia; by eexists.
Defined.

Lemma iobuf_move_zeros_clears_witness :
  ∃ m', iobuf_move_zeros demo_mem demo_iob 1 = Ok (0, 1, mkIobuf 13 103 4 1, m') ∧
    updated demo_mem m' 12 [0].
Proof.
  apply (iobuf_move_zeros_clears demo_mem demo_iob 1 demo_iob_ok); [lia|].
  intros a Ha. cbn in Ha. assert (a = 12) as -> by lia. by eexists.
Defined.
