(* ===== verification/Vmm.v ===== *)
(** * kern/mm/vmm.c: virtual memory areas

    A [vmm] holds the [vma_struct] and [mm_struct] objects by address.  The list
    [mmap_list] of a [mm_struct] is the list of the addresses of its areas (libs/list.h
    is verified in [ListH]); its semaphore and lock owner belong to the callers'
    locking and are not kept here.  An operation that calls [kmalloc] takes the
    address of the new object, or [None] when there is no memory. *)

From S2P Require Import Prelude CString.

(** ** kern/mm/memlayout.h, kern/mm/mmu.h *)

Definition PGSIZE : Z := 4096.
Definition PTSIZE : Z := PGSIZE * 1024.
Definition KERNBASE : Z := 0xC0000000.
Definition KMEMSIZE : Z := 0x38000000.
Definition KERNTOP : Z := KERNBASE + KMEMSIZE.
Definition USERTOP : Z := 0xB0000000.
Definition USERBASE : Z := 0x00200000.

Definition USER_ACCESS (s e : Z) : bool := (USERBASE <=? s) && (s <? e) && (e <=? USERTOP).
Definition KERN_ACCESS (s e : Z) : bool := (KERNBASE <=? s) && (s <? e) && (e <=? KERNTOP).

(** libs/defs.h, on 32-bit words. *)
Definition ROUNDDOWN (a n : Z) : Z := a - a `mod` n.
Definition ROUNDUP (a n : Z) : Z := ROUNDDOWN (u32 (a + n - 1)) n.

Definition VM_READ : Z := 1.
Definition VM_WRITE : Z := 2.
Definition VM_EXEC : Z := 4.
Definition VM_STACK : Z := 8.

Definition has_flag (flags f : Z) : bool := negb (Z.land flags f =? 0).

Record vma_struct := mkVma { vm_mm : option Z; vm_start : Z; vm_end : Z; vm_flags : Z }.

Definition set_vm_mm (mm : option Z) (v : vma_struct) : vma_struct :=
  mkVma mm (vm_start v) (vm_end v) (vm_flags v).

Record mm_struct := mkMm {
  mmap_list : list Z;
  mmap_cache : option Z;
  pgdir : option Z;
  map_count : Z;
  sm_priv : option Z;
  mm_count : Z
}.

Definition set_mmap_list (l : list Z) (n : Z) (mm : mm_struct) : mm_struct :=
  mkMm l (mmap_cache mm) (pgdir mm) n (sm_priv mm) (mm_count mm).
Definition set_mmap_cache (c : option Z) (mm : mm_struct) : mm_struct :=
  mkMm (mmap_list mm) c (pgdir mm) (map_count mm) (sm_priv mm) (mm_count mm).
Definition set_mm_count (n : Z) (mm : mm_struct) : mm_struct :=
  mkMm (mmap_list mm) (mmap_cache mm) (pgdir mm) (map_count mm) (sm_priv mm) n.

Definition mm_count_inc (mm : mm_struct) : mm_struct := set_mm_count (i32 (mm_count mm + 1)) mm.
Definition mm_count_dec (mm : mm_struct) : mm_struct := set_mm_count (i32 (mm_count mm - 1)) mm.

Record vmm := mkVmm { vmas : gmap Z vma_struct; mms : gmap Z mm_struct }.

Definition get_vma (s : vmm) (p : Z) : res vma_struct := deref (vmas s !! p).
Definition get_mm (s : vmm) (p : Z) : res mm_struct := deref (mms s !! p).
Definition put_vma (s : vmm) (p : Z) (v : vma_struct) : vmm := mkVmm (<[p := v]> (vmas s)) (mms s).
Definition put_mm (s : vmm) (p : Z) (m : mm_struct) : vmm := mkVmm (vmas s) (<[p := m]> (mms s)).

(** ** Operations *)

(** [swap_priv]: the list head that [swap_init_mm] stores when swapping is on. *)
Definition mm_create (s : vmm) (new : option Z) (swap_priv : option Z) : option Z * vmm :=
  match new with
  | Some p => (Some p, put_mm s p (mkMm [] None None 0 swap_priv 0))
  | None => (None, s)
  end.

Definition vma_create (s : vmm) (new : option Z) (st en flags : Z) : option Z * vmm :=
  match new with
  | Some p => (Some p, put_vma s p (mkVma (from_option vm_mm None (vmas s !! p)) st en flags))
  | None => (None, s)
  end.

Definition vma_has (v : vma_struct) (addr : Z) : bool := (vm_start v <=? addr) && (addr <? vm_end v).

Fixpoint find_loop (s : vmm) (l : list Z) (addr : Z) : res (option Z) :=
  match l with
  | [] => Ok None
  | p :: l => let! v := get_vma s p in if vma_has v addr then Ok (Some p) else find_loop s l addr
  end.

Definition find_vma (s : vmm) (mm : option Z) (addr : Z) : res (option Z * vmm) :=
  match mm with
  | None => Ok (None, s)
  | Some q =>
      let! m := get_mm s q in
      let! hit := match mmap_cache m with
                  | Some c => let! v := get_vma s c in Ok (vma_has v addr)
                  | None => Ok false
                  end in
      let! r := if hit : bool then Ok (mmap_cache m) else find_loop s (mmap_list m) addr in
      Ok (r, match r with Some _ => put_mm s q (set_mmap_cache r m) | None => s end)
  end.

Definition check_vma_overlap (prev next : vma_struct) : bool :=
  (vm_start prev <? vm_end prev) && (vm_end prev <=? vm_start next) && (vm_start next <? vm_end next).

(** The walk to the place of the new area: the entries up to [le_prev] and those
    behind it. *)
Fixpoint insert_point (s : vmm) (l : list Z) (start : Z) : res (list Z * list Z) :=
  match l with
  | [] => Ok ([], [])
  | p :: l' =>
      let! v := get_vma s p in
      if start <? vm_start v then Ok ([], l)
      else let! (a, b) := insert_point s l' start in Ok (p :: a, b)
  end.

Definition insert_vma_struct (s : vmm) (q p : Z) : res vmm :=
  let! m := get_mm s q in
  let! v := get_vma s p in
  assert! (vm_start v <? vm_end v) ;;
  let! (a, b) := insert_point s (mmap_list m) (vm_start v) in
  let! ok1 := match last a with
              | Some le_prev => let! u := get_vma s le_prev in Ok (check_vma_overlap u v)
              | None => Ok true
              end in
  assert! ok1 ;;
  let! ok2 := match head b with
              | Some le_next => let! u := get_vma s le_next in Ok (check_vma_overlap v u)
              | None => Ok true
              end in
  assert! ok2 ;;
  Ok (put_mm (put_vma s p (set_vm_mm (Some q) v)) q
        (set_mmap_list (a ++ p :: b) (i32 (map_count m + 1)) m)).

(** [mm_destroy] frees the areas and the [mm_struct]. *)
Definition mm_destroy (s : vmm) (q : Z) : res vmm :=
  let! m := get_mm s q in
  assert! (mm_count m =? 0) ;;
  Ok (mkVmm (foldr delete (vmas s) (mmap_list m)) (delete q (mms s))).

(** The result, the area stored in [*vma_store], and the state. *)
Definition mm_map (s : vmm) (mm : option Z) (addr len flags : Z) (new : option Z)
    : res (Z * option Z * vmm) :=
  let start := ROUNDDOWN addr PGSIZE in
  let en := ROUNDUP (u32 (addr + len)) PGSIZE in
  if negb (USER_ACCESS start en) then Ok (- E_INVAL, None, s)
  else
    match mm with
    | None => Panicked
    | Some q =>
        let! (r, s) := find_vma s mm start in
        let! clash := match r with
                      | Some p => let! v := get_vma s p in Ok (vm_start v <? en)
                      | None => Ok false
                      end in
        if clash : bool then Ok (- E_INVAL, None, s)
        else
          match vma_create s new start en flags with
          | (None, s) => Ok (- E_NO_MEM, None, s)
          | (Some p, s) => let! s := insert_vma_struct s q p in Ok (0, Some p, s)
          end
    end.

Definition access_flags (v : vma_struct) (write : bool) (start : Z) : bool :=
  has_flag (vm_flags v) (if write then VM_WRITE else VM_READ) &&
  negb (write && has_flag (vm_flags v) VM_STACK && (start <? u32 (vm_start v + PGSIZE))).

(** The loop of [user_mem_check]; it moves through at most all areas of the list. *)
Fixpoint mem_check_loop (fuel : nat) (s : vmm) (q : Z) (start en : Z) (write : bool) : res (bool * vmm) :=
  match fuel with
  | O => NoFuel
  | S fuel =>
      if start <? en then
        let! (r, s) := find_vma s (Some q) start in
        match r with
        | None => Ok (false, s)
        | Some p =>
            let! v := get_vma s p in
            if start <? vm_start v then Ok (false, s)
            else if access_flags v write start then mem_check_loop fuel s q (vm_end v) en write
            else Ok (false, s)
        end
      else Ok (true, s)
  end.

Definition user_mem_check (s : vmm) (mm : option Z) (addr len : Z) (write : bool) : res (bool * vmm) :=
  match mm with
  | Some q =>
      if negb (USER_ACCESS addr (u32 (addr + len))) then Ok (false, s)
      else
        let! m := get_mm s q in
        mem_check_loop (S (S (length (mmap_list m)))) s q addr (u32 (addr + len)) write
  | None => Ok (KERN_ACCESS addr (u32 (addr + len)), s)
  end.

Definition copy_from_user (s : vmm) (um : mem) (mm : option Z) (dst src len : Z) (writable : bool)
    : res (bool * vmm * mem) :=
  let! (ok, s) := user_mem_check s mm src len writable in
  if ok : bool then let! (_, um) := memcpy um dst src len in Ok (true, s, um) else Ok (false, s, um).

Definition copy_to_user (s : vmm) (um : mem) (mm : option Z) (dst src len : Z) : res (bool * vmm * mem) :=
  let! (ok, s) := user_mem_check s mm dst len true in
  if ok : bool then let! (_, um) := memcpy um dst src len in Ok (true, s, um) else Ok (false, s, um).

(** Every round but the last copies a whole page (or less) of the [maxn] bytes. *)
Fixpoint copy_string_loop (fuel : nat) (s : vmm) (um : mem) (mm : option Z) (dst src maxn part : Z)
    : res (bool * vmm * mem) :=
  match fuel with
  | O => NoFuel
  | S fuel =>
      let part := if maxn <? part then maxn else part in
      let! (ok, s) := user_mem_check s mm src part false in
      if negb ok then Ok (false, s, um)
      else
        let! alen := strnlen um src part in
        if alen <? part then let! (_, um) := memcpy um dst src (alen + 1) in Ok (true, s, um)
        else if part =? maxn then Ok (false, s, um)
        else
          let! (_, um) := memcpy um dst src part in
          copy_string_loop fuel s um mm (dst + part) (src + part) (u32 (maxn - part)) PGSIZE
  end.

Definition copy_string (s : vmm) (um : mem) (mm : option Z) (dst src maxn : Z) : res (bool * vmm * mem) :=
  let part := u32 (ROUNDDOWN (u32 (src + PGSIZE)) PGSIZE - src) in
  copy_string_loop (Z.to_nat (maxn `div` PGSIZE) + 3) s um mm dst src maxn part.

(** ** Well-formed address spaces

    The areas of a [mm_struct] are sorted by address and do not overlap, and the
    cached area is one of them. *)

Definition apart (vm : gmap Z vma_struct) (p p' : Z) : Prop :=
  ∀ v v', vm !! p = Some v → vm !! p' = Some v' → vm_end v ≤ vm_start v'.

Record mm_inv (vm : gmap Z vma_struct) (m : mm_struct) : Prop := {
  mi_vma : ∀ p, p ∈ mmap_list m → ∃ v, vm !! p = Some v ∧ 0 ≤ vm_start v < vm_end v ∧ vm_end v ≤ KERNBASE;
  mi_sorted : StronglySorted (apart vm) (mmap_list m);
  mi_cache : ∀ c, mmap_cache m = Some c → c ∈ mmap_list m;
  mi_count : map_count m = i32 (Z.of_nat (length (mmap_list m)))
}.

(** [p] is the area of [l] that holds [a]. *)
Definition covers (vm : gmap Z vma_struct) (l : list Z) (a p : Z) : Prop :=
  p ∈ l ∧ ∃ v, vm !! p = Some v ∧ vm_start v ≤ a < vm_end v.

Lemma vma_has_spec v a : vma_has v a = true ↔ vm_start v ≤ a < vm_end v.
Proof. unfold vma_has. rewrite andb_true_iff, Z.leb_le, Z.ltb_lt. done. Qed.

Lemma StronglySorted_app_inv {A} (R : A → A → Prop) l1 l2 :
  StronglySorted R (l1 ++ l2) ↔
  StronglySorted R l1 ∧ StronglySorted R l2 ∧ ∀ x y, x ∈ l1 → y ∈ l2 → R x y.
Proof.
  induction l1 as [|z l1 IH]; cbn; [set_solver by constructor|]. split.
  - intros [Hs Hall]%StronglySorted_inv. apply IH in Hs as (H1 & H2 & H3).
    rewrite Forall_app, !Forall_forall in Hall. destruct Hall as [Ha Hb]. split_and!; [|done|].
    + constructor; [done|]. by apply Forall_forall.
    + intros x y [->|Hx]%elem_of_cons Hy; auto.
  - intros ([Hs Hall]%StronglySorted_inv & H2 & H3). constructor.
    + apply IH. split_and!; [done..|]. intros; apply H3; set_solver.
    + rewrite Forall_app, !Forall_forall in *. split; [done|]. intros; apply H3; set_solver.
Qed.

Lemma covers_unique vm m a p p' :
  mm_inv vm m → covers vm (mmap_list m) a p → covers vm (mmap_list m) a p' → p = p'.
Proof.
  intros Hm [Hp (v & Hv & Ha)] [Hp' (v' & Hv' & Ha')].
  assert (Hgen : ∀ l, StronglySorted (apart vm) l → p ∈ l → p' ∈ l → p = p').
  { induction l as [|x l IH]; [set_solver|]. intros [Hs Hall]%StronglySorted_inv.
    rewrite Forall_forall in Hall. intros [->|H1]%elem_of_cons [->|H2]%elem_of_cons; [done| | |auto].
    - specialize (Hall _ H2 _ _ Hv Hv'). lia.
    - specialize (Hall _ H1 _ _ Hv' Hv). lia. }
  eapply Hgen; [apply Hm|done..].
Qed.

Lemma find_loop_ok s l a :
  (∀ p, p ∈ l → is_Some (vmas s !! p)) →
  ∃ r, find_loop s l a = Ok r ∧
    match r with Some p => covers (vmas s) l a p | None => ∀ p, ¬ covers (vmas s) l a p end.
Proof.
  induction l as [|x l IH]; intros Hl; cbn [find_loop].
  { eexists. split; [done|]. intros p [Hp _]. set_solver. }
  destruct (Hl x) as [v Hv]; [set_solver|]. unfold get_vma. rewrite Hv. cbn [deref bind].
  destruct (vma_has v a) eqn:E.
  - eexists. split; [done|]. split; [set_solver|]. exists v. by apply vma_has_spec in E.
  - destruct IH as (r & Hr & Hs); [intros; apply Hl; set_solver|]. exists r. split; [done|].
    destruct r as [p|].
    + destruct Hs as [Hp Hv']. split; [set_solver|done].
    + intros p [[->|Hp]%elem_of_cons (v' & Hv' & Ha)].
      * simplify_eq. apply not_true_iff_false in E. by apply E, vma_has_spec.
      * apply (Hs p). split; [done|]. by exists v'.
Qed.

Lemma mm_inv_set_cache vm m r : mm_inv vm m → (∀ c, r = Some c → c ∈ mmap_list m) → mm_inv vm (set_mmap_cache r m).
Proof. intros [Hv Hs _ Hn] Hr. by split. Qed.

(** [find_vma] changes the cache only and finds the area of the address. *)
Lemma find_vma_ok s q m a :
  mms s !! q = Some m → mm_inv (vmas s) m →
  ∃ r c, find_vma s (Some q) a = Ok (r, put_mm s q (set_mmap_cache c m)) ∧
    mm_inv (vmas s) (set_mmap_cache c m) ∧ (∀ p, r = Some p ↔ covers (vmas s) (mmap_list m) a p) ∧
    (∀ p, r = Some p → c = Some p).
Proof.
  intros Hq Hm. cbn [find_vma]. unfold get_mm. rewrite Hq. cbn [deref bind].
  assert (Hiff : ∀ p, covers (vmas s) (mmap_list m) a p →
    ∀ p', Some p = Some p' ↔ covers (vmas s) (mmap_list m) a p').
  { intros p Hp p'. split; [by intros [= <-]|]. intros Hp'. f_equal. by eapply covers_unique. }
  destruct (find_loop_ok s (mmap_list m) a) as (r & Hr & Hspec).
  { intros p Hp. destruct (mi_vma _ _ Hm p Hp) as (v & Hv & _). by eexists. }
  assert (∀ hit : bool, hit = false → ∃ r c,
    (let! r := if hit then Ok (mmap_cache m) else find_loop s (mmap_list m) a in
     Ok (r, match r with Some _ => put_mm s q (set_mmap_cache r m) | None => s end)) =
    Ok (r, put_mm s q (set_mmap_cache c m)) ∧
    mm_inv (vmas s) (set_mmap_cache c m) ∧ (∀ p, r = Some p ↔ covers (vmas s) (mmap_list m) a p) ∧
    (∀ p, r = Some p → c = Some p)) as Hmiss.
  { intros hit ->. rewrite Hr. cbn [bind]. destruct r as [p|].
    - exists (Some p), (Some p). split_and!; [done| |by apply Hiff|done].
      apply mm_inv_set_cache; [done|]. intros c [= <-]. apply Hspec.
    - exists None, (mmap_cache m). split_and!; [|by destruct m| |done].
      + f_equal. f_equal. unfold put_mm. rewrite insert_id; [by destruct s|]. rewrite Hq. by destruct m.
      + intros p. split; [done|]. intros Hp. by destruct (Hspec p). }
  destruct (mmap_cache m) as [c|] eqn:Hc; [|by apply (Hmiss false)].
  destruct (mi_vma _ _ Hm c) as (v & Hv & _); [by apply (mi_cache _ _ Hm)|]. unfold get_vma. rewrite Hv. cbn [deref bind].
  destruct (vma_has v a) eqn:E; cbn [bind]; [|by apply (Hmiss false)].
  exists (Some c), (Some c). split_and!; [done| | |done].
  - apply mm_inv_set_cache; [done|]. intros c' [= <-]. by apply (mi_cache _ _ Hm).
  - apply Hiff. split; [by apply (mi_cache _ _ Hm)|]. exists v. by apply vma_has_spec in E.
Qed.

(** ** Inserting an area *)

Lemma insert_point_ok s l start :
  (∀ p, p ∈ l → is_Some (vmas s !! p)) →
  ∃ a b, insert_point s l start = Ok (a, b) ∧ l = a ++ b ∧
    (∀ p v, p ∈ a → vmas s !! p = Some v → vm_start v ≤ start) ∧
    (∀ p v, head b = Some p → vmas s !! p = Some v → start < vm_start v).
Proof.
  induction l as [|x l IH]; intros Hl; cbn [insert_point].
  { exists [], []. split_and!; [done|done|set_solver|done]. }
  destruct (Hl x) as [v Hv]; [set_solver|]. unfold get_vma. rewrite Hv. cbn [deref bind].
  destruct (Z.ltb_spec start (vm_start v)).
  - exists [], (x :: l). split_and!; [done|done|set_solver|]. intros p v' [= <-] Hv'. by simplify_eq.
  - destruct IH as (a & b & -> & -> & Ha & Hb); [intros; apply Hl; set_solver|]. cbn [bind].
    exists (x :: a), b. split_and!; [done|done| |done].
    intros p v' [->|Hp]%elem_of_cons Hv'; [by simplify_eq|eauto].
Qed.

(** The new area meets no area of the list. *)
Definition disjoint_from (vm : gmap Z vma_struct) (l : list Z) (st en : Z) : Prop :=
  ∀ p v, p ∈ l → vm !! p = Some v → vm_end v ≤ st ∨ en ≤ vm_start v.

Lemma apart_insert vm p v v' p1 p2 :
  vm !! p = Some v → vm_start v' = vm_start v → vm_end v' = vm_end v →
  apart vm p1 p2 → apart (<[p := v']> vm) p1 p2.
Proof.
  intros Hp Hs He Hap w1 w2. rewrite !lookup_insert. intros H1 H2.
  assert (∃ u1, vm !! p1 = Some u1 ∧ vm_end u1 = vm_end w1) as (u1 & Hu1 & <-).
  { destruct (decide (p = p1)); [|by exists w1]. simplify_eq. by exists v. }
  assert (∃ u2, vm !! p2 = Some u2 ∧ vm_start u2 = vm_start w2) as (u2 & Hu2 & <-).
  { destruct (decide (p = p2)); [|by exists w2]. simplify_eq. by exists v. }
  by apply Hap.
Qed.

Lemma StronglySorted_impl {A} (R R' : A → A → Prop) l :
  (∀ x y, R x y → R' x y) → StronglySorted R l → StronglySorted R' l.
Proof.
  intros HR. induction 1 as [|x l Hs IH Hall]; constructor; [done|].
  eapply Forall_impl; [done|]. auto.
Qed.

Definition inserted (s : vmm) (q p : Z) (v : vma_struct) (l : list Z) (m : mm_struct) : vmm :=
  put_mm (put_vma s p (set_vm_mm (Some q) v)) q (set_mmap_list l (i32 (map_count m + 1)) m).

Lemma check_vma_overlap_spec u w :
  check_vma_overlap u w = true ↔ vm_start u < vm_end u ∧ vm_end u ≤ vm_start w ∧ vm_start w < vm_end w.
Proof. unfold check_vma_overlap. rewrite !andb_true_iff, !Z.ltb_lt, Z.leb_le. tauto. Qed.

(** It is enough to compare the new area with its neighbours. *)
Lemma check_prev_ok s a v :
  (∀ x, x ∈ a → ∃ w, vmas s !! x = Some w ∧ 0 ≤ vm_start w < vm_end w ∧ vm_end w ≤ KERNBASE) →
  StronglySorted (apart (vmas s)) a → vm_start v < vm_end v →
  ∃ ok, match last a with Some x => let! u := get_vma s x in Ok (check_vma_overlap u v) | None => Ok true end = Ok ok ∧
    (ok = true ↔ ∀ x w, x ∈ a → vmas s !! x = Some w → vm_end w ≤ vm_start v).
Proof.
  intros Hv Hs Hlt. destruct a as [|x a _] using rev_ind; [exists true; split; [done|]; set_solver|].
  rewrite last_snoc. destruct (Hv x) as (w & Hw & Hr & _); [set_solver|].
  unfold get_vma. rewrite Hw. cbn [deref bind]. eexists. split; [done|]. rewrite check_vma_overlap_spec. split.
  - intros (_ & Hle & _) y u [Hy| ->%list_elem_of_singleton]%elem_of_app Hu; [|by simplify_eq].
    apply StronglySorted_app_inv in Hs as (_ & _ & Hap). specialize (Hap y x Hy ltac:(set_solver) _ _ Hu Hw). lia.
  - intros Hall. specialize (Hall x w ltac:(set_solver) Hw). lia.
Qed.

Lemma check_next_ok s b v :
  (∀ x, x ∈ b → ∃ w, vmas s !! x = Some w ∧ 0 ≤ vm_start w < vm_end w ∧ vm_end w ≤ KERNBASE) →
  StronglySorted (apart (vmas s)) b → vm_start v < vm_end v →
  ∃ ok, match head b with Some x => let! u := get_vma s x in Ok (check_vma_overlap v u) | None => Ok true end = Ok ok ∧
    (ok = true ↔ ∀ x w, x ∈ b → vmas s !! x = Some w → vm_end v ≤ vm_start w).
Proof.
  intros Hv Hs Hlt. destruct b as [|x b]; [exists true; split; [done|]; set_solver|].
  cbn [head]. destruct (Hv x) as (w & Hw & Hr & _); [set_solver|].
  unfold get_vma. rewrite Hw. cbn [deref bind]. eexists. split; [done|]. rewrite check_vma_overlap_spec. split.
  - intros (_ & Hle & _) y u [->|Hy]%elem_of_cons Hu; [by simplify_eq|].
    apply StronglySorted_inv in Hs as [_ Hall]. rewrite Forall_forall in Hall.
    specialize (Hall y Hy _ _ Hw Hu). lia.
  - intros Hall. specialize (Hall x w ltac:(set_solver) Hw). lia.
Qed.

(** An area between its neighbours [a] and [b] is disjoint from all areas just
    when it begins behind [a] and ends before [b]. *)
Lemma disjoint_split s a b v :
  (∀ x, x ∈ a ++ b → ∃ w, vmas s !! x = Some w ∧ 0 ≤ vm_start w < vm_end w ∧ vm_end w ≤ KERNBASE) →
  StronglySorted (apart (vmas s)) b → vm_start v < vm_end v →
  (∀ p w, p ∈ a → vmas s !! p = Some w → vm_start w ≤ vm_start v) →
  (∀ p w, head b = Some p → vmas s !! p = Some w → vm_start v < vm_start w) →
  disjoint_from (vmas s) (a ++ b) (vm_start v) (vm_end v) ↔
  (∀ x w, x ∈ a → vmas s !! x = Some w → vm_end w ≤ vm_start v) ∧
  (∀ x w, x ∈ b → vmas s !! x = Some w → vm_end v ≤ vm_start w).
Proof.
  intros Hv Hs Hlt Ha Hb. split.
  - intros Hd. split; intros x w Hx Hw.
    + destruct (Hd x w) as [?|Hge]; [set_solver|done|done|]. pose proof (Ha x w Hx Hw). lia.
    + destruct (Hd x w) as [Hle|?]; [set_solver|done| |done]. exfalso.
      destruct b as [|y b]; [set_solver|]. destruct (Hv y) as (u & Hu & Hur & _); [set_solver|].
      pose proof (Hb y u eq_refl Hu) as Hyu. destruct (Hv x) as (w' & Hw' & Hr & _); [set_solver|]. simplify_eq.
      apply elem_of_cons in Hx as [->|Hx]; [simplify_eq; lia|].
      apply StronglySorted_inv in Hs as [_ Hall]. rewrite Forall_forall in Hall.
      pose proof (Hall x Hx _ _ Hu Hw). lia.
  - intros [Hd1 Hd2] x w [Hx|Hx]%elem_of_app Hw; eauto.
Qed.

Lemma i32_succ n : i32 (i32 n + 1) = i32 (n + 1).
Proof.
  unfold i32. replace ((n + 2 ^ 31) `mod` 2 ^ 32 - 2 ^ 31 + 1 + 2 ^ 31) with ((n + 2 ^ 31) `mod` 2 ^ 32 + 1) by lia.
  rewrite Zplus_mod_idemp_l. do 2 f_equal. lia.
Qed.

Lemma mm_inv_inserted s q p v a b m :
  mm_inv (vmas s) m → vmas s !! p = Some v → mmap_list m = a ++ b →
  0 ≤ vm_start v < vm_end v → vm_end v ≤ KERNBASE →
  (∀ x w, x ∈ a → vmas s !! x = Some w → vm_end w ≤ vm_start v) →
  (∀ x w, x ∈ b → vmas s !! x = Some w → vm_end v ≤ vm_start w) →
  mm_inv (vmas (inserted s q p v (a ++ p :: b) m)) (set_mmap_list (a ++ p :: b) (i32 (map_count m + 1)) m).
Proof.
  intros Hm Hp Hl Hrng Htop H1 H2.
  pose proof (mi_sorted _ _ Hm) as Hsort. rewrite Hl in Hsort.
  apply StronglySorted_app_inv in Hsort as (Hsa & Hsb & Hab).
  split; cbn [mmap_list set_mmap_list mmap_cache map_count vmas inserted put_mm put_vma].
  - intros x Hx. rewrite lookup_insert. case_decide as Hxp; [eexists; split; [done|]; cbn; lia|].
    apply (mi_vma _ _ Hm). rewrite Hl. set_solver.
  - assert (StronglySorted (apart (vmas s)) (a ++ p :: b)) as Hs'.
    { apply StronglySorted_app_inv. split_and!; [done| |].
      - constructor; [done|]. apply Forall_forall. intros x Hx w w' Hw Hw'. simplify_eq. eauto.
      - intros x y Hx [->|Hy]%elem_of_cons; [|auto]. intros w w' Hw Hw'. simplify_eq. eauto. }
    eapply StronglySorted_impl; [|done]. intros x y. by apply apart_insert with (v := v).
  - intros c Hc. apply (mi_cache _ _ Hm) in Hc. rewrite Hl in Hc. set_solver.
  - rewrite (mi_count _ _ Hm), i32_succ, Hl, !length_app. cbn [length]. f_equal. lia.
Qed.

Lemma insert_vma_struct_ok s q m p v :
  mms s !! q = Some m → mm_inv (vmas s) m → vmas s !! p = Some v →
  0 ≤ vm_start v < vm_end v → vm_end v ≤ KERNBASE →
  (disjoint_from (vmas s) (mmap_list m) (vm_start v) (vm_end v) ∧
   ∃ a b, mmap_list m = a ++ b ∧ insert_vma_struct s q p = Ok (inserted s q p v (a ++ p :: b) m) ∧
     mm_inv (vmas (inserted s q p v (a ++ p :: b) m)) (set_mmap_list (a ++ p :: b) (i32 (map_count m + 1)) m)) ∨
  (¬ disjoint_from (vmas s) (mmap_list m) (vm_start v) (vm_end v) ∧ insert_vma_struct s q p = Panicked).
Proof.
  intros Hq Hm Hp Hrng Htop. pose proof (mi_vma _ _ Hm) as Hv.
  assert (get_vma s p = Ok v) as Hgp by (unfold get_vma; by rewrite Hp).
  unfold insert_vma_struct, get_mm. rewrite Hq, Hgp. cbn [deref bind].
  rewrite (proj2 (Z.ltb_lt (vm_start v) (vm_end v))) by lia.
  destruct (insert_point_ok s (mmap_list m) (vm_start v)) as (a & b & -> & Hl & Ha & Hb).
  { intros x Hx. destruct (Hv x Hx) as (w & Hw & _). by eexists. }
  cbn [bind]. pose proof (mi_sorted _ _ Hm) as Hsort. rewrite Hl in Hsort, Hv.
  apply StronglySorted_app_inv in Hsort as (Hsa & Hsb & _).
  destruct (check_prev_ok s a v) as (ok1 & -> & H1); [intros; apply Hv; set_solver|done|lia|]. cbn [bind].
  destruct (check_next_ok s b v) as (ok2 & -> & H2); [intros; apply Hv; set_solver|done|lia|].
  rewrite Hl, (disjoint_split s a b v Hv Hsb ltac:(lia) Ha Hb), <- H1, <- H2.
  destruct ok1; [|right; split; [by intros [? _]|done]]. destruct ok2; [|right; split; [by intros [_ ?]|done]].
  left. split; [done|]. exists a, b. split_and!; [done|done|].
  by apply mm_inv_inserted; [..|apply H1|apply H2].
Qed.

(** A new area that is not in the list yet. *)
Lemma vma_create_ok vm m p v :
  vm !! p = None → mm_inv vm m →
  mm_inv (<[p := v]> vm) m ∧
  ∀ st en, disjoint_from (<[p := v]> vm) (mmap_list m) st en ↔ disjoint_from vm (mmap_list m) st en.
Proof.
  intros Hp Hm.
  assert (∀ x, x ∈ mmap_list m → <[p := v]> vm !! x = vm !! x) as Hsame.
  { intros x Hx. destruct (mi_vma _ _ Hm x Hx) as (w & Hw & _). rewrite lookup_insert_ne; [done|]. intros ->; congruence. }
  split.
  - destruct Hm as [Hv Hs Hc Hn]. split; [|clear Hc Hn Hv|done|done].
    + intros x Hx. rewrite Hsame by done. by apply Hv.
    + revert Hs Hsame. generalize (mmap_list m) as l. induction l as [|x l IH]; intros Hs Hsame; [constructor|].
      apply StronglySorted_inv in Hs as [Hs Hall]. constructor; [apply IH; [done|intros; apply Hsame; set_solver]|].
      rewrite Forall_forall in *. intros y Hy w w'. rewrite !Hsame by set_solver. by apply Hall.
  - intros st en. unfold disjoint_from.
    split; intros Hd x w Hx Hw; apply (Hd x w Hx); [by rewrite Hsame by done|by rewrite Hsame in Hw by done].
Qed.

(** ** Checking user memory *)

Definition access_ok (vm : gmap Z vma_struct) (l : list Z) (write : bool) (a : Z) : Prop :=
  ∃ p v, p ∈ l ∧ vm !! p = Some v ∧ vm_start v ≤ a < vm_end v ∧ access_flags v write a = true.

(** The areas that end behind [a]. *)
Definition areas_behind (vm : gmap Z vma_struct) (l : list Z) (a : Z) : list Z :=
  filter (λ p, a < from_option vm_end 0 (vm !! p)) l.

Lemma areas_behind_step vm l a p v :
  p ∈ l → vm !! p = Some v → a < vm_end v →
  (length (areas_behind vm l (vm_end v)) < length (areas_behind vm l a))%nat.
Proof.
  intros Hp Hv Ha. unfold areas_behind. induction l as [|x l IH]; [set_solver|].
  assert (length (filter (λ p, (vm_end v < from_option vm_end 0 (vm !! p))%Z) l) ≤
          length (filter (λ p, (a < from_option vm_end 0 (vm !! p))%Z) l))%nat as Hle.
  { clear IH Hp. induction l as [|y l IH]; [done|]. rewrite !filter_cons.
    repeat case_decide; cbn [length]; lia. }
  rewrite !filter_cons. apply elem_of_cons in Hp as [<-|Hp].
  - rewrite Hv. cbn [from_option]. rewrite decide_False, decide_True by lia. cbn [length]. lia.
  - specialize (IH Hp). repeat case_decide; cbn [length]; lia.
Qed.

Lemma put_mm_put_mm s q m m' : put_mm (put_mm s q m) q m' = put_mm s q m'.
Proof. unfold put_mm. cbn. by rewrite insert_insert_eq. Qed.

Lemma access_flags_mono v write a a' :
  0 ≤ vm_start v → vm_end v ≤ KERNBASE → vm_start v < vm_end v →
  a ≤ a' → access_flags v write a = true → access_flags v write a' = true.
Proof.
  unfold access_flags, KERNBASE, PGSIZE. intros H0 H1 H2 Ha. rewrite !andb_true_iff, !negb_true_iff, u32_small by lia.
  intros [Hf Hs]. split; [done|]. destruct (write && has_flag (vm_flags v) VM_STACK); [|done].
  cbn [andb] in *. apply Z.ltb_ge in Hs. apply Z.ltb_ge. lia.
Qed.

Lemma mem_check_loop_ok fuel s q m start en write :
  mms s !! q = Some m → mm_inv (vmas s) m →
  (length (areas_behind (vmas s) (mmap_list m) start) < fuel)%nat →
  ∃ b c, mem_check_loop fuel s q start en write = Ok (b, put_mm s q (set_mmap_cache c m)) ∧
    mm_inv (vmas s) (set_mmap_cache c m) ∧
    (b = true ↔ ∀ a, start ≤ a < en → access_ok (vmas s) (mmap_list m) write a).
Proof.
  revert s m start. induction fuel as [|fuel IH]; intros s m start Hq Hm Hf; [lia|]. cbn [mem_check_loop].
  assert (put_mm s q (set_mmap_cache (mmap_cache m) m) = s) as Hid.
  { unfold put_mm. rewrite insert_id; [by destruct s|]. rewrite Hq. by destruct m. }
  destruct (Z.ltb_spec start en) as [Hlt|Hge].
  2:{ exists true, (mmap_cache m). rewrite Hid. split_and!; [done|by destruct m|]. split; [intros _ a Ha; lia|done]. }
  destruct (find_vma_ok s q m start Hq Hm) as (r & c & -> & Hm' & Hr & _). cbn [bind].
  set (s' := put_mm s q (set_mmap_cache c m)). destruct r as [p|].
  2:{ exists false, c. split_and!; [done|done|]. split; [done|]. intros Hall.
      destruct (Hall start) as (p & v & Hp & Hv & Ha & _); [lia|].
      assert (None = Some p) as [=]. apply Hr. split; [done|]. by exists v. }
  destruct (proj1 (Hr p) eq_refl) as (Hp & v & Hv & Ha).
  assert (get_vma s' p = Ok v) as -> by (unfold get_vma, s'; cbn; by rewrite Hv). cbn [bind].
  rewrite (proj2 (Z.ltb_ge _ _)) by lia. destruct (access_flags v write start) eqn:Hacc.
  - pose proof (areas_behind_step (vmas s) (mmap_list m) start p v Hp Hv ltac:(lia)).
    destruct (IH s' (set_mmap_cache c m) (vm_end v)) as (b & c' & -> & Hm'' & Hb);
      [cbn; by rewrite lookup_insert_eq|done|change (vmas s') with (vmas s); cbn [mmap_list set_mmap_cache]; lia|].
    exists b, c'. cbn in Hm'', Hb. split_and!; [unfold s'; by rewrite put_mm_put_mm|done|]. rewrite Hb.
    split; intros Hall a Hin; [|apply Hall; lia]. destruct (decide (vm_end v ≤ a)); [apply Hall; lia|].
    destruct (mi_vma _ _ Hm p Hp) as (v' & Hv' & Hrng & Htop). simplify_eq.
    exists p, v. split_and!; [done|done|lia|lia|]. eapply access_flags_mono; [..|exact Hacc]; lia.
  - exists false, c. split_and!; [done|done|]. split; [done|]. intros Hall.
    destruct (Hall start) as (p' & v' & Hp' & Hv' & Ha' & Hacc'); [lia|].
    assert (p' = p) as ->.
    { eapply covers_unique; [exact Hm|split; [done|by exists v']|split; [done|by exists v]]. }
    congruence.
Qed.

(** ** Properties *)

(** [find_vma] returns the only area that holds the address, or NULL if
    there is none; the cache it leaves behind changes no later answer. *)
Theorem find_vma_correct s q m addr addr' :
  mms s !! q = Some m → mm_inv (vmas s) m →
  ∃ r s1 r' s2, find_vma s (Some q) addr = Ok (r, s1) ∧
    (∀ p, r = Some p ↔ covers (vmas s) (mmap_list m) addr p) ∧
    find_vma s1 (Some q) addr' = Ok (r', s2) ∧
    (∀ p, r' = Some p ↔ covers (vmas s) (mmap_list m) addr' p) ∧
    (∀ p p', covers (vmas s) (mmap_list m) addr p → covers (vmas s) (mmap_list m) addr p' → p = p').
Proof.
  intros Hq Hm. destruct (find_vma_ok s q m addr Hq Hm) as (r & c & Hf & Hm' & Hr & _).
  destruct (find_vma_ok (put_mm s q (set_mmap_cache c m)) q (set_mmap_cache c m) addr') as (r' & c' & Hf' & _ & Hr' & _);
    [cbn; by rewrite lookup_insert_eq|done|].
  exists r, (put_mm s q (set_mmap_cache c m)), r'. eexists. split_and!; [done|done|done|done|].
  intros p p'. by apply covers_unique.
Qed.

(** The page range that [mm_map] works on. *)
Definition map_start (addr : Z) : Z := ROUNDDOWN addr PGSIZE.
Definition map_end (addr len : Z) : Z := ROUNDUP (u32 (addr + len)) PGSIZE.

(** All outcomes of [mm_map]. Outside user space and when the first page lies
    in an area it returns [-E_INVAL]; without memory [-E_NO_MEM]; a range that meets no
    area becomes a new area of a well-formed address space. A range whose first page is
    free but that reaches into a later area is not refused: an assertion of
    [insert_vma_struct] fails. *)
Theorem mm_map_outcomes s q m addr len flags new :
  mms s !! q = Some m → mm_inv (vmas s) m →
  (∀ p, new = Some p → vmas s !! p = None) →
  let st := map_start addr in
  let en := map_end addr len in
  if USER_ACCESS st en then
    (∃ s', (∃ p, covers (vmas s) (mmap_list m) st p) ∧
       mm_map s (Some q) addr len flags new = Ok (- E_INVAL, None, s') ∧ vmas s' = vmas s) ∨
    ((∀ p, ¬ covers (vmas s) (mmap_list m) st p) ∧
     match new with
     | None => ∃ s', mm_map s (Some q) addr len flags new = Ok (- E_NO_MEM, None, s') ∧ vmas s' = vmas s
     | Some p =>
         (disjoint_from (vmas s) (mmap_list m) st en ∧
          ∃ s' m' a b, mm_map s (Some q) addr len flags new = Ok (0, Some p, s') ∧ mms s' !! q = Some m' ∧
            mm_inv (vmas s') m' ∧ mmap_list m = a ++ b ∧ mmap_list m' = a ++ p :: b ∧
            vmas s' !! p = Some (mkVma (Some q) st en flags)) ∨
         (¬ disjoint_from (vmas s) (mmap_list m) st en ∧ mm_map s (Some q) addr len flags new = Panicked)
     end)
  else mm_map s (Some q) addr len flags new = Ok (- E_INVAL, None, s).
Proof.
  intros Hq Hm Hnew st en. unfold mm_map. fold (map_start addr) (map_end addr len). fold st en.
  destruct (USER_ACCESS st en) eqn:Hua; [cbn [negb]|done].
  unfold USER_ACCESS in Hua. rewrite !andb_true_iff, !Z.leb_le, Z.ltb_lt in Hua.
  unfold USERBASE, USERTOP in Hua.
  destruct (find_vma_ok s q m st Hq Hm) as (r & c & -> & Hm' & Hr & _). cbn [bind].
  set (s1 := put_mm s q (set_mmap_cache c m)). destruct r as [p|].
  - left. exists s1. destruct (proj1 (Hr p) eq_refl) as (Hp & v & Hv & Ha). split_and!; [|..].
    + exists p. by apply Hr.
    + assert (get_vma s1 p = Ok v) as -> by (unfold get_vma, s1; cbn; by rewrite Hv). cbn [bind].
      by rewrite (proj2 (Z.ltb_lt _ _)) by lia.
    + done.
  - right. split; [intros p Hp; apply Hr in Hp; done|]. cbn [bind]. destruct new as [p|]; cbn [vma_create].
    2:{ by exists s1. }
    set (v := mkVma (from_option vm_mm None (vmas s1 !! p)) st en flags). set (s2 := put_vma s1 p v).
    destruct (vma_create_ok (vmas s) (set_mmap_cache c m) p v) as [Hi2 Hd2]; [by apply Hnew|done|].
    change (<[p:=v]> (vmas s)) with (vmas s2) in Hi2, Hd2. cbn [mmap_list set_mmap_cache] in Hd2. rewrite <- (Hd2 st en).
    destruct (insert_vma_struct_ok s2 q (set_mmap_cache c m) p v) as [(Hd & a & b & Hl & -> & Hi)|[Hd ->]];
      [cbn; by rewrite lookup_insert_eq|done|cbn; by rewrite lookup_insert_eq|cbn; lia|cbn; unfold KERNBASE; lia| |].
    + left. split; [done|]. cbn [bind]. eexists _, _, a, b. split_and!; [done| |exact Hi|done|done|].
      * cbn. by rewrite lookup_insert_eq.
      * cbn. by rewrite lookup_insert_eq.
    + right. done.
Qed.


(** *** A process with a program area and a stack. *)
Definition demo_vmm : vmm :=
  mkVmm {[ 2 := mkVma (Some 1) 0x00800000 0x00802000 3; 3 := mkVma (Some 1) 0xAFF00000 0xB0000000 11 ]}
        {[ 1 := mkMm [2; 3] (Some 3) None 2 None 1 ]}.
Definition demo_mm : mm_struct := mkMm [2; 3] (Some 3) None 2 None 1.

Lemma demo_mm_inv : mm_inv (vmas demo_vmm) demo_mm.
Proof.
  split.
  - intros p [->|[->|Hp]%elem_of_cons]%elem_of_cons; [..|set_solver]; (eexists; split; [done|]; cbn; unfold KERNBASE; lia).
  - repeat constructor. intros v v' Hv Hv'. vm_compute in Hv, Hv'. simplify_eq. cbn. lia.
  - intros c [= <-]. set_solver.
  - done.
Qed.

Lemma find_vma_correct_witness :
  ∃ r s1 r' s2, find_vma demo_vmm (Some 1) 0x00801fff = Ok (r, s1) ∧
    (∀ p, r = Some p ↔ covers (vmas demo_vmm) [2; 3] 0x00801fff p) ∧
    find_vma s1 (Some 1) 0x00802000 = Ok (r', s2) ∧
    (∀ p, r' = Some p ↔ covers (vmas demo_vmm) [2; 3] 0x00802000 p) ∧
    (∀ p p', covers (vmas demo_vmm) [2; 3] 0x00801fff p → covers (vmas demo_vmm) [2; 3] 0x00801fff p' → p = p').
Proof. by apply (find_vma_correct demo_vmm 1 demo_mm _ _ eq_refl demo_mm_inv). Defined.

(** A new range in front of the program area that reaches into it. *)
Lemma mm_map_outcomes_witness :
  (∃ s', (∃ p, covers (vmas demo_vmm) [2; 3] 0x007ff000 p) ∧
     mm_map demo_vmm (Some 1) 0x007ff000 0x2000 3 (Some 4) = Ok (- E_INVAL, None, s') ∧ vmas s' = vmas demo_vmm) ∨
  ((∀ p, ¬ covers (vmas demo_vmm) [2; 3] 0x007ff000 p) ∧
   ((disjoint_from (vmas demo_vmm) [2; 3] 0x007ff000 0x00801000 ∧
     ∃ s' m' a b, mm_map demo_vmm (Some 1) 0x007ff000 0x2000 3 (Some 4) = Ok (0, Some 4, s') ∧ mms s' !! 1 = Some m' ∧
       mm_inv (vmas s') m' ∧ [2; 3] = a ++ b ∧ mmap_list m' = a ++ 4 :: b ∧
       vmas s' !! 4 = Some (mkVma (Some 1) 0x007ff000 0x00801000 3)) ∨
    (¬ disjoint_from (vmas demo_vmm) [2; 3] 0x007ff000 0x00801000 ∧
     mm_map demo_vmm (Some 1) 0x007ff000 0x2000 3 (Some 4) = Panicked))).
Proof.
  apply (mm_map_outcomes demo_vmm 1 demo_mm 0x007ff000 0x2000 3 (Some 4) eq_refl demo_mm_inv).
  by intros p [= <-].
Defined.

