(* ===== verification/Sem.v ===== *)
(** * kern/sync/wait.c and kern/sync/sem.c: wait queues and semaphores

    [sync_state] extends the scheduler's state by the [wait_t] objects, the wait
    queues (the addresses of their entries in list order) and the values of the
    semaphores; a semaphore's queue has the semaphore's address.  A [wait_t] is
    linked exactly when some queue holds it.  [__down] is two atomic steps, before and
    after the call of [schedule].

    [asem] is the abstract semaphore that the clients use: a counter and the sequence
    of the processes that wait; [up_refines] and [down_refines] say that the code
    implements it. *)

From S2P Require Import Prelude SkewHeap ProcData StrideSched Sched.

Record wait_t := mkWait { proc : option ptr; wakeup_flags : Z; wait_queue : option ptr }.

Definition set_wakeup_flags (v : Z) (w : wait_t) : wait_t := mkWait (proc w) v (wait_queue w).
Definition set_wait_queue (q : option ptr) (w : wait_t) : wait_t := mkWait (proc w) (wakeup_flags w) q.

Record sync_state (RQ : Type) := mkSync {
  sched : sched_state RQ;
  waits : gmap ptr wait_t;
  queues : gmap ptr (list ptr);
  values : gmap ptr Z
}.
Arguments mkSync {RQ}.
Arguments sched {RQ}.
Arguments waits {RQ}.
Arguments queues {RQ}.
Arguments values {RQ}.

Section sem.
Context {RQ : Type} `{sched_class RQ}.
Implicit Types s : sync_state RQ.

Definition set_sched s x : sync_state RQ := mkSync x (waits s) (queues s) (values s).
Definition put_wait s (w : ptr) x : sync_state RQ := mkSync (sched s) (<[w := x]> (waits s)) (queues s) (values s).
Definition put_queue s (q : ptr) l : sync_state RQ := mkSync (sched s) (waits s) (<[q := l]> (queues s)) (values s).
Definition put_value s (q : ptr) v : sync_state RQ := mkSync (sched s) (waits s) (queues s) (<[q := v]> (values s)).

Definition get_wait s (w : ptr) : res wait_t := deref (waits s !! w).
Definition get_queue s (q : ptr) : res (list ptr) := deref (queues s !! q).
Definition get_value s (q : ptr) : res Z := deref (values s !! q).

(** [!list_empty(&(wait->wait_link))] *)
Definition wait_in_queue s (w : ptr) : bool :=
  existsb (λ ql : ptr * list ptr, bool_decide (w ∈ ql.2)) (map_to_list (queues s)).

(** ** wait.c *)

(** [list_init] on an entry that is still linked would cut its queue. *)
Definition wait_init s (w p : ptr) : res (sync_state RQ) :=
  if wait_in_queue s w then Faulted
  else Ok (put_wait s w (mkWait (Some p) WT_INTERRUPTED (from_option wait_queue None (waits s !! w)))).

Definition wait_queue_init s (q : ptr) : sync_state RQ := put_queue s q [].

Definition wait_queue_add s (q w : ptr) : res (sync_state RQ) :=
  let! x := get_wait s w in
  assert! negb (wait_in_queue s w) && bool_decide (proc x ≠ None) ;;
  let s := put_wait s w (set_wait_queue (Some q) x) in
  let! l := get_queue s q in
  Ok (put_queue s q (l ++ [w])).

Definition wait_queue_del s (q w : ptr) : res (sync_state RQ) :=
  let! x := get_wait s w in
  assert! wait_in_queue s w && bool_decide (wait_queue x = Some q) ;;
  let! l := get_queue s q in
  Ok (put_queue s q (filter (λ y, y ≠ w) l)).

(** The entry behind [w] in [l]. *)
Fixpoint next_in (w : ptr) (l : list ptr) : option ptr :=
  match l with
  | [] => None
  | x :: l => if decide (x = w) then head l else next_in w l
  end.

Definition wait_queue_next s (q w : ptr) : res (option ptr) :=
  let! x := get_wait s w in
  assert! wait_in_queue s w && bool_decide (wait_queue x = Some q) ;;
  let! l := get_queue s q in Ok (next_in w l).

Definition wait_queue_prev s (q w : ptr) : res (option ptr) :=
  let! x := get_wait s w in
  assert! wait_in_queue s w && bool_decide (wait_queue x = Some q) ;;
  let! l := get_queue s q in Ok (next_in w (reverse l)).

Definition wait_queue_first s (q : ptr) : res (option ptr) := let! l := get_queue s q in Ok (head l).
Definition wait_queue_last s (q : ptr) : res (option ptr) := let! l := get_queue s q in Ok (last l).
Definition wait_queue_empty s (q : ptr) : res bool := let! l := get_queue s q in Ok (bool_decide (l = [])).

Definition wakeup_wait s (q w : ptr) (flags : Z) (del : bool) : res (sync_state RQ) :=
  let! s := if del then wait_queue_del s q w else Ok s in
  let! x := get_wait s w in
  let s := put_wait s w (set_wakeup_flags flags x) in
  let! p := deref (proc x) in
  let! sch := wakeup_proc (sched s) p in
  Ok (set_sched s sch).

Definition wakeup_first s (q : ptr) (flags : Z) (del : bool) : res (sync_state RQ) :=
  let! o := wait_queue_first s q in
  match o with Some w => wakeup_wait s q w flags del | None => Ok s end.

(** The two loops of [wakeup_queue]; each goes through the queue once. *)
Fixpoint wakeup_all (fuel : nat) s (q w : ptr) (flags : Z) (del : bool) : res (sync_state RQ) :=
  match fuel with
  | O => NoFuel
  | S fuel =>
      let! s := wakeup_wait s q w flags del in
      let! o := if del then wait_queue_first s q else wait_queue_next s q w in
      match o with Some w => wakeup_all fuel s q w flags del | None => Ok s end
  end.

Definition wakeup_queue s (q : ptr) (flags : Z) (del : bool) : res (sync_state RQ) :=
  let! l := get_queue s q in
  match head l with Some w => wakeup_all (length l) s q w flags del | None => Ok s end.

Definition wait_current_set s (q w : ptr) (ws : Z) : res (sync_state RQ) :=
  let! s := wait_init s w (current (sched s)) in
  let! t := upd_proc (procs (sched s)) (current (sched s)) (set_state PROC_SLEEPING) in
  let! t := upd_proc t (current (sched s)) (set_wait_state ws) in
  wait_queue_add (set_sched s (set_procs (sched s) t)) q w.

(** The macro [wait_current_del]. *)
Definition wait_current_del s (q w : ptr) : res (sync_state RQ) :=
  if wait_in_queue s w then wait_queue_del s q w else Ok s.

(** ** sem.c *)

Definition sem_init s (q : ptr) (value : Z) : sync_state RQ := wait_queue_init (put_value s q value) q.

Definition __up s (q : ptr) (ws : Z) : res (sync_state RQ) :=
  let! o := wait_queue_first s q in
  match o with
  | None => let! v := get_value s q in Ok (put_value s q (i32 (v + 1)))
  | Some w =>
      let! x := get_wait s w in
      let! p := deref (proc x) in
      let! pr := get_proc (procs (sched s)) p in
      assert! bool_decide (wait_state pr = ws) ;;
      wakeup_wait s q w ws true
  end.

(** [__down] up to the call of [schedule]: [true] if the semaphore was taken; [w] is
    the address of the [wait_t] on the stack. *)
Definition __down_enter s (q w : ptr) (ws : Z) : res (bool * sync_state RQ) :=
  let! v := get_value s q in
  if 0 <? v then Ok (true, put_value s q (i32 (v - 1)))
  else let! s := wait_current_set s q w ws in Ok (false, s).

(** [__down] from the return of [schedule] on. *)
Definition __down_leave s (q w : ptr) (ws : Z) : res (Z * sync_state RQ) :=
  let! s := wait_current_del s q w in
  let! x := get_wait s w in
  Ok (if decide (wakeup_flags x ≠ ws) then wakeup_flags x else 0, s).

Definition up s (q : ptr) : res (sync_state RQ) := __up s q WT_KSEM.

Definition down_enter s (q w : ptr) : res (bool * sync_state RQ) := __down_enter s q w WT_KSEM.

Definition down_leave s (q w : ptr) : res (sync_state RQ) :=
  let! (flags, s) := __down_leave s q w WT_KSEM in assert! flags =? 0 ;; Ok s.

(** A [down] that has to wait gives the processor away. *)
Definition down_wait s (q w : ptr) : res (bool * sync_state RQ) :=
  let! (b, s) := down_enter s q w in
  if b : bool then Ok (true, s)
  else let! sch := schedule (sched s) in Ok (false, set_sched s sch).

Definition try_down s (q : ptr) : res (bool * sync_state RQ) :=
  let! v := get_value s q in
  if 0 <? v then Ok (true, put_value s q (i32 (v - 1))) else Ok (false, s).

(** ** The invariant of the wait queues *)

(** [w] waits in queue [q] for process [p], which sleeps in state [ws]. *)
Definition waits_for s (q w p : ptr) : Prop :=
  ∃ x pr, waits s !! w = Some x ∧ proc x = Some p ∧ wait_queue x = Some q ∧
    procs (sched s) !! p = Some pr ∧ state pr = PROC_SLEEPING ∧ wait_state pr = WT_KSEM.

Record sync_inv s : Prop := {
  sy_sched : sched_inv (sched s);
  sy_nodup : ∀ q l, queues s !! q = Some l → NoDup l;
  sy_waits : ∀ q l w, queues s !! q = Some l → w ∈ l → ∃ p, waits_for s q w p;
  (** a process waits in one place only *)
  sy_inj : ∀ q l w q' l' w' p, queues s !! q = Some l → w ∈ l → queues s !! q' = Some l' → w' ∈ l' →
    waits_for s q w p → waits_for s q' w' p → w = w'
}.

(** ** Abstract semaphores *)

Record asem := mkAsem { avalue : Z; awaiters : list ptr }.

Definition a_down (p : ptr) (a : asem) : bool * asem :=
  if 0 <? avalue a then (true, mkAsem (avalue a - 1) (awaiters a))
  else (false, mkAsem (avalue a) (awaiters a ++ [p])).

Definition a_up (a : asem) : option ptr * asem :=
  match awaiters a with
  | [] => (None, mkAsem (avalue a + 1) [])
  | p :: ws => (Some p, mkAsem (avalue a) ws)
  end.

(** The value is not negative, and nobody waits for a free semaphore. *)
Definition asem_ok (a : asem) : Prop := 0 ≤ avalue a ∧ (0 < avalue a → awaiters a = []).

Lemma a_down_ok p a : asem_ok a → asem_ok (a_down p a).2.
Proof.
  intros [H0 Hw]. unfold a_down. destruct (Z.ltb_spec 0 (avalue a)); cbn; split; cbn; try lia.
  intros. by apply Hw.
Qed.

Lemma a_up_ok a : asem_ok a → asem_ok (a_up a).2.
Proof.
  intros [H0 Hw]. unfold a_up. destruct (awaiters a) as [|p ws] eqn:E; cbn; split; cbn; try lia; [done|].
  intros Hv. by specialize (Hw Hv).
Qed.

Definition sem_rep s (q : ptr) (a : asem) : Prop :=
  values s !! q = Some (avalue a) ∧
  ∃ l, queues s !! q = Some l ∧ Forall2 (λ w p, waits_for s q w p) l (awaiters a).

Lemma wait_in_queue_spec s w : wait_in_queue s w = true ↔ ∃ q l, queues s !! q = Some l ∧ w ∈ l.
Proof.
  unfold wait_in_queue. rewrite existsb_exists. split.
  - intros ([q l] & Hin & Hw%bool_decide_eq_true). exists q, l. split; [|done].
    by apply elem_of_map_to_list, list_elem_of_In.
  - intros (q & l & Hq & Hw). exists (q, l). split; [|by apply bool_decide_eq_true].
    by apply list_elem_of_In, elem_of_map_to_list.
Qed.

Lemma wait_in_queue_false s w : wait_in_queue s w = false ↔ ∀ q l, queues s !! q = Some l → w ∉ l.
Proof.
  rewrite <- not_true_iff_false, wait_in_queue_spec. naive_solver.
Qed.

Lemma waits_for_frame s s' q w p :
  waits s' !! w = waits s !! w → procs (sched s') !! p = procs (sched s) !! p →
  waits_for s q w p → waits_for s' q w p.
Proof. intros Hw Hp (x & pr & ? & ? & ? & ? & ? & ?). exists x, pr. by rewrite Hw, Hp. Qed.

Lemma waits_for_fun s q q' w p p' : waits_for s q w p → waits_for s q' w p' → q = q' ∧ p = p'.
Proof. intros (x & ? & ? & ? & ? & _) (x' & ? & ? & ? & ? & _). by simplify_eq. Qed.

(** Only the value differs: everything about the queues stays. *)
Lemma sync_inv_value s q v : sync_inv s → sync_inv (put_value s q v).
Proof. intros [Hs Hn Hw Hi]. by split. Qed.

(** A step after which every queue entry was one before, still waiting for the same. *)
Lemma sync_inv_shrink s s' :
  sync_inv s → sched_inv (sched s') →
  (∀ q l, queues s' !! q = Some l → NoDup l ∧ ∀ w, w ∈ l →
     ∃ l0, queues s !! q = Some l0 ∧ w ∈ l0 ∧ ∀ p, waits_for s q w p → waits_for s' q w p) →
  sync_inv s'.
Proof.
  intros Hinv Hs Hold.
  assert (∀ q l w p, queues s' !! q = Some l → w ∈ l → waits_for s' q w p →
    ∃ l0, queues s !! q = Some l0 ∧ w ∈ l0 ∧ waits_for s q w p) as Hback.
  { intros q l w p Hq Hw Hwf. destruct (Hold _ _ Hq) as [_ Hl]. destruct (Hl _ Hw) as (l0 & Hq0 & Hw0 & Hk).
    exists l0. split_and!; [done|done|]. destruct (sy_waits _ Hinv _ _ _ Hq0 Hw0) as [p0 Hp0].
    by destruct (waits_for_fun _ _ _ _ _ _ Hwf (Hk _ Hp0)) as [_ ->]. }
  split; [done| | |].
  - intros q l Hq. by apply Hold in Hq as [? _].
  - intros q l w Hq Hw. destruct (Hold _ _ Hq) as [_ Hl]. destruct (Hl _ Hw) as (l0 & Hq0 & Hw0 & Hk).
    destruct (sy_waits _ Hinv _ _ _ Hq0 Hw0) as [p Hp]. eauto.
  - intros q1 l1 w1 q2 l2 w2 p Hq1 Hw1 Hq2 Hw2 Hf1 Hf2.
    destruct (Hback _ _ _ _ Hq1 Hw1 Hf1) as (l1' & Hq1' & Hw1' & Hf1').
    destruct (Hback _ _ _ _ Hq2 Hw2 Hf2) as (l2' & Hq2' & Hw2' & Hf2').
    by apply (sy_inj _ Hinv _ _ _ _ _ _ p Hq1' Hw1' Hq2' Hw2').
Qed.

(** The code of [wakeup_wait] on the first entry of a queue. *)
Lemma wakeup_wait_run s q w l p :
  sync_inv s → queues s !! q = Some (w :: l) → waits_for s q w p →
  ∃ s' x, wakeup_wait s q w WT_KSEM true = Ok s' ∧ values s' = values s ∧ queues s' = <[q := l]> (queues s) ∧
    waits s' = <[w := x]> (waits s) ∧ wakeup_flags x = WT_KSEM ∧ sched_inv (sched s') ∧
    runnable (procs (sched s')) p ∧ current (sched s') = current (sched s) ∧
    (∀ y, y ≠ p → procs (sched s') !! y = procs (sched s) !! y).
Proof.
  intros Hinv Hq (x & pr & Hx & Hxp & Hxq & Hp & Hst & Hws).
  pose proof (sy_nodup _ Hinv _ _ Hq) as [Hwl Hndl]%NoDup_cons.
  unfold wakeup_wait, wait_queue_del, get_wait, get_queue. rewrite Hx. cbn [deref bind].
  rewrite (proj2 (wait_in_queue_spec s w)) by (exists q, (w :: l); set_solver).
  rewrite bool_decide_true by done. cbn [andb]. rewrite Hq. cbn [deref bind waits put_queue]. rewrite Hx. cbn [deref bind].
  rewrite filter_cons_False by tauto. rewrite list_filter_id by (intros y Hy ->; done).
  change (proc (set_wakeup_flags WT_KSEM x)) with (proc x). rewrite Hxp. cbn [deref bind sched put_wait put_queue].
  destruct (wakeup_proc_ok (sched s) p pr (sy_sched _ Hinv) Hp) as (sch & -> & Hsch & Hsame & (pr' & Hpr' & Hrun & _) & Hfr);
    [by rewrite Hst|].
  cbn [bind]. eexists _, (set_wakeup_flags WT_KSEM x).
  split_and!; try done; [by exists pr'|apply Hsame].
Qed.

Lemma wakeup_wait_ok s q w l p :
  sync_inv s → queues s !! q = Some (w :: l) → waits_for s q w p →
  ∃ s', wakeup_wait s q w WT_KSEM true = Ok s' ∧ sync_inv s' ∧ values s' = values s ∧
    queues s' = <[q := l]> (queues s) ∧ runnable (procs (sched s')) p ∧
    (∃ x, waits s' !! w = Some x ∧ wakeup_flags x = WT_KSEM) ∧ wait_in_queue s' w = false ∧
    (∀ q' l' w' p', queues s' !! q' = Some l' → w' ∈ l' → waits_for s q' w' p' → waits_for s' q' w' p').
Proof.
  intros Hinv Hq Hwf. pose proof (sy_nodup _ Hinv _ _ Hq) as [Hwl Hndl]%NoDup_cons.
  destruct (wakeup_wait_run s q w l p Hinv Hq Hwf) as (s' & x & Hrun & Hv & Hqs & Hws & Hfl & Hsch & Hr & _ & Hfr).
  exists s'.
  assert (∀ q' l' w', queues s' !! q' = Some l' → w' ∈ l' →
    ∃ l0, queues s !! q' = Some l0 ∧ w' ∈ l0 ∧ w' ≠ w) as Hold.
  { intros q' l' w' Hq' Hw'. rewrite Hqs, lookup_insert in Hq'. case_decide as Hqq; simplify_eq.
    - exists (w :: l'). split_and!; [done|set_solver|]. by intros ->.
    - exists l'. split_and!; [done|done|]. intros ->.
      destruct (sy_waits _ Hinv _ _ _ Hq' Hw') as [p' Hp']. by destruct (waits_for_fun _ _ _ _ _ _ Hwf Hp'). }
  assert (∀ q' l' w' p', queues s' !! q' = Some l' → w' ∈ l' → waits_for s q' w' p' → waits_for s' q' w' p') as Hkeep.
  { intros q' l' w' p' Hq' Hw' Hwf'. destruct (Hold _ _ _ Hq' Hw') as (l0 & Hq0 & Hw0 & Hne).
    assert (p' ≠ p) as Hnp.
    { intros ->. apply Hne. eapply (sy_inj _ Hinv _ _ _ _ _ _ p Hq0 Hw0 Hq); [set_solver|done..]. }
    eapply waits_for_frame; [..|exact Hwf']; [by rewrite Hws, lookup_insert_ne|by apply Hfr]. }
  split_and!; try done.
  - apply (sync_inv_shrink s); [done|done|]. intros q' l' Hq'. split.
    + rewrite Hqs, lookup_insert in Hq'. case_decide; simplify_eq; [done|by eapply (sy_nodup _ Hinv)].
    + intros w' Hw'. destruct (Hold _ _ _ Hq' Hw') as (l0 & Hq0 & Hw0 & _). exists l0. split_and!; [done|done|].
      intros p'. by apply (Hkeep q' l').
  - exists x. by rewrite Hws, lookup_insert_eq.
  - apply wait_in_queue_false. intros q' l' Hq' Hw'. by destruct (Hold _ _ _ Hq' Hw') as (? & _ & _ & ?).
Qed.

(** ** Blocking *)

Lemma sched_inv_current (s : sched_state RQ) t pr :
  sched_inv s → current s ≠ idleproc s → t = <[current s := pr]> (procs s) → sched_inv (set_procs s t).
Proof.
  intros [(l & Hq & Hl) Hc Hi] Hne ->. split; cbn.
  - exists l. split; [done|]. intros p. rewrite Hl. unfold waiting. cbn. rewrite runnable_insert.
    case_decide; [subst|]; tauto.
  - rewrite lookup_insert_eq. by eexists.
  - rewrite runnable_insert, decide_False by done. done.
Qed.

(** What changes when the running process goes to the end of queue [q]. *)
Lemma wait_current_set_ok s q w l :
  sync_inv s → queues s !! q = Some l → wait_in_queue s w = false →
  runnable (procs (sched s)) (current (sched s)) → current (sched s) ≠ idleproc (sched s) →
  ∃ s', wait_current_set s q w WT_KSEM = Ok s' ∧ sync_inv s' ∧ values s' = values s ∧
    queues s' = <[q := l ++ [w]]> (queues s) ∧ waits_for s' q w (current (sched s)) ∧
    (∀ q' l' w' p', queues s !! q' = Some l' → w' ∈ l' → waits_for s q' w' p' → waits_for s' q' w' p').
Proof.
  intros Hinv Hq Hw (pr & Hpr & Hst) Hidle. pose proof (proj1 (wait_in_queue_false s w) Hw) as Hfree.
  unfold wait_current_set, wait_init. rewrite Hw. cbn [bind sched put_wait].
  set (c := current (sched s)) in *. set (w0 := mkWait _ _ _).
  rewrite (upd_proc_ok _ _ _ _ Hpr). cbn [bind].
  rewrite (upd_proc_ok _ _ (set_state PROC_SLEEPING pr)) by apply lookup_insert_eq. rewrite insert_insert_eq. cbn [bind].
  set (pr' := set_wait_state WT_KSEM (set_state PROC_SLEEPING pr)).
  unfold wait_queue_add, get_wait, get_queue. cbn [waits set_sched put_wait queues]. rewrite lookup_insert_eq. cbn [deref bind].
  match goal with |- context [wait_in_queue ?s1 w] => assert (wait_in_queue s1 w = false) as -> by exact Hw end.
  rewrite bool_decide_true by done. cbn [negb andb queues put_wait]. rewrite Hq. cbn [deref bind].
  eexists. split; [done|]. set (s' := put_queue _ q _).
  assert (∀ q' l' w' p', queues s !! q' = Some l' → w' ∈ l' → waits_for s q' w' p' → waits_for s' q' w' p' ∧ p' ≠ c ∧ w' ≠ w) as Hkeep.
  { intros q' l' w' p' Hq' Hw' Hwf. assert (w' ≠ w) as Hne by (intros ->; by apply (Hfree _ _ Hq')).
    assert (p' ≠ c) as Hnc.
    { intros ->. destruct Hwf as (? & ? & ? & ? & ? & Hpr0 & Hst0 & _). rewrite Hpr in Hpr0. simplify_eq. congruence. }
    split_and!; [|done|done]. eapply waits_for_frame; [..|exact Hwf]; cbn; by rewrite !lookup_insert_ne. }
  assert (waits_for s' q w c) as Hnew.
  { exists (set_wait_queue (Some q) w0), pr'. cbn. rewrite !lookup_insert_eq. done. }
  split_and!; [|done|done|done|by intros; eapply Hkeep].
  assert (∀ q' l' w', queues s' !! q' = Some l' → w' ∈ l' →
    (q' = q ∧ w' = w) ∨ ∃ l0, queues s !! q' = Some l0 ∧ w' ∈ l0) as Hold.
  { intros q' l' w' Hq' Hw'. cbn in Hq'. rewrite lookup_insert in Hq'. case_decide; simplify_eq; [|by eauto].
    apply elem_of_app in Hw' as [Hw'| ->%list_elem_of_singleton]; eauto. }
  assert (∀ q' l' w' p', queues s' !! q' = Some l' → w' ∈ l' → waits_for s' q' w' p' →
    (w' = w ∧ p' = c) ∨ (p' ≠ c ∧ ∃ l0, queues s !! q' = Some l0 ∧ w' ∈ l0 ∧ waits_for s q' w' p')) as Hback.
  { intros q' l' w' p' Hq' Hw' Hwf. destruct (Hold _ _ _ Hq' Hw') as [[-> ->]|(l0 & Hq0 & Hw0)].
    - left. by destruct (waits_for_fun _ _ _ _ _ _ Hnew Hwf).
    - right. destruct (sy_waits _ Hinv _ _ _ Hq0 Hw0) as [p0 Hp0].
      destruct (Hkeep _ _ _ _ Hq0 Hw0 Hp0) as (Hp0' & Hne & _).
      destruct (waits_for_fun _ _ _ _ _ _ Hwf Hp0') as [_ ->]. eauto 6. }
  split.
  - by eapply sched_inv_current; [apply Hinv| |done].
  - intros q' l'. cbn. rewrite lookup_insert. case_decide; [intros [= <-]|apply (sy_nodup _ Hinv)].
    subst q'. apply NoDup_app. split_and!; [by eapply (sy_nodup _ Hinv)| |apply NoDup_singleton].
    intros y Hy Hyw%list_elem_of_singleton. subst. by apply (Hfree _ _ Hq).
  - intros q' l' w' Hq' Hw'. destruct (Hold _ _ _ Hq' Hw') as [[-> ->]|(l0 & Hq0 & Hw0)]; [by eauto|].
    destruct (sy_waits _ Hinv _ _ _ Hq0 Hw0) as [p0 Hp0]. exists p0. by eapply Hkeep.
  - intros q1 l1 w1 q2 l2 w2 p' Hq1 Hw1 Hq2 Hw2 Hf1 Hf2.
    destruct (Hback _ _ _ _ Hq1 Hw1 Hf1) as [[-> ->]|(Hn1 & l1' & Hq1' & Hw1' & Hf1')];
      destruct (Hback _ _ _ _ Hq2 Hw2 Hf2) as [[-> ?]|(Hn2 & l2' & Hq2' & Hw2' & Hf2')]; try done.
    by apply (sy_inj _ Hinv _ _ _ _ _ _ p' Hq1' Hw1' Hq2' Hw2').
Qed.

Lemma sem_rep_frame s s' q a :
  values s' !! q = values s !! q → queues s' !! q = queues s !! q →
  (∀ l w p, queues s !! q = Some l → w ∈ l → waits_for s q w p → waits_for s' q w p) →
  sem_rep s q a → sem_rep s' q a.
Proof.
  intros Hv Hq Hk [Hva (l & Hl & Hf)]. split; [by rewrite Hv|]. exists l. split; [by rewrite Hq|].
  eapply Forall2_impl_in; [exact Hf|]. intros w p Hw _. by apply (Hk l).
Qed.
End sem.

(** ** Properties *)

Section properties.
Context {RQ : Type} `{sched_class RQ}.
Implicit Types s : sync_state RQ.

(** C24: [up] implements the abstract semaphore: it hands the semaphore
    to the process that has waited longest, which becomes runnable and whose [down]
    will succeed, and raises the value only if nobody waits. The other semaphores are
    not affected, and the invariant of queues and scheduler is kept. *)
Theorem up_refines s q a :
  sync_inv s → sem_rep s q a → avalue a < 2 ^ 31 - 1 → 0 ≤ avalue a →
  ∃ s', up s q = Ok s' ∧ sync_inv s' ∧ sem_rep s' q (a_up a).2 ∧
    (∀ q' a', q' ≠ q → sem_rep s q' a' → sem_rep s' q' a') ∧
    (∀ p, (a_up a).1 = Some p → runnable (procs (sched s')) p ∧
       ∃ w, waits_for s q w p ∧ down_leave s' q w = Ok s').
Proof.
  intros Hinv [Hv (l & Hq & Hf)] Hmax H0. unfold up, __up, wait_queue_first, get_queue, get_value, get_wait.
  rewrite Hq. cbn [deref bind]. unfold a_up. destruct (awaiters a) as [|p ps] eqn:Ha.
  - apply Forall2_nil_inv_r in Hf as ->. cbn [head]. rewrite Hv. cbn [deref bind fst snd].
    eexists. split; [done|]. split_and!; [by apply sync_inv_value| | |done].
    + split; cbn; [rewrite lookup_insert_eq, i32_small by lia; done|]. exists []. split; [done|constructor].
    + intros q' a' Hne Hr. eapply sem_rep_frame; [..|exact Hr]; cbn; [by rewrite lookup_insert_ne|done|].
      intros. by eapply waits_for_frame.
  - destruct l as [|w l]; [by apply Forall2_nil_inv_l in Hf|]. apply Forall2_cons in Hf as [Hwf Hf]. cbn [head].
    destruct (wakeup_wait_ok s q w l p Hinv Hq Hwf) as (s' & Hrun & Hinv' & Hvs & Hqs & Hr & (x' & Hx' & Hfl) & Hout & Hkeep).
    pose proof Hwf as (x & pr & Hx & Hxp & _ & Hp & _ & Hws). rewrite Hx. cbn [deref bind]. rewrite Hxp. cbn [deref bind].
    rewrite (get_proc_ok _ _ _ Hp). cbn [bind]. rewrite bool_decide_true by done. rewrite Hrun.
    exists s'. cbn [fst snd]. split_and!; [done|done| | |].
    + split; [by rewrite Hvs|]. exists l. split; [by rewrite Hqs, lookup_insert_eq|].
      eapply Forall2_impl_in; [exact Hf|]. intros w' p' Hw' _. apply Hkeep with (l' := l); [|done].
      by rewrite Hqs, lookup_insert_eq.
    + intros q' a' Hne Hrep. eapply sem_rep_frame; [..|exact Hrep]; [by rewrite Hvs|by rewrite Hqs, lookup_insert_ne|].
      intros l' w' p' Hl' Hw'. apply Hkeep with (l' := l'); [|done]. by rewrite Hqs, lookup_insert_ne.
    + intros p' [= <-]. split; [done|]. exists w. split; [done|].
      unfold down_leave, __down_leave, wait_current_del. rewrite Hout. cbn [bind]. unfold get_wait. rewrite Hx'.
      cbn [deref bind]. rewrite Hfl, decide_False by (intros []; done). done.
Qed.

(** C25: The first half of [down] implements the abstract semaphore: a free
    semaphore is taken at once; otherwise the running process goes to sleep at the end
    of the queue. The other semaphores are not affected. *)
Theorem down_refines s q w a :
  sync_inv s → sem_rep s q a → 0 ≤ avalue a < 2 ^ 31 → wait_in_queue s w = false →
  runnable (procs (sched s)) (current (sched s)) → current (sched s) ≠ idleproc (sched s) →
  ∃ s', down_enter s q w = Ok ((a_down (current (sched s)) a).1, s') ∧ sync_inv s' ∧
    sem_rep s' q (a_down (current (sched s)) a).2 ∧
    (∀ q' a', q' ≠ q → sem_rep s q' a' → sem_rep s' q' a') ∧
    ((a_down (current (sched s)) a).1 = false → waits_for s' q w (current (sched s))).
Proof.
  intros Hinv [Hv (l & Hq & Hf)] Hr Hw Hrun Hidle. unfold down_enter, __down_enter, get_value, a_down.
  rewrite Hv. cbn [deref bind]. destruct (Z.ltb_spec 0 (avalue a)); cbn [fst snd].
  - eexists. split; [done|]. split_and!; [by apply sync_inv_value| | |done].
    + split; cbn; [rewrite lookup_insert_eq, i32_small by lia; done|]. exists l. split; [done|].
      eapply Forall2_impl_in; [exact Hf|]. intros. by eapply waits_for_frame.
    + intros q' a' Hne Hrep. eapply sem_rep_frame; [..|exact Hrep]; cbn; [by rewrite lookup_insert_ne|done|].
      intros. by eapply waits_for_frame.
  - destruct (wait_current_set_ok s q w l Hinv Hq Hw Hrun Hidle) as (s' & -> & Hinv' & Hvs & Hqs & Hnew & Hkeep).
    cbn [bind]. exists s'. split_and!; [done|done| | |done].
    + split; [by rewrite Hvs|]. eexists. split; [by rewrite Hqs, lookup_insert_eq|].
      apply Forall2_app; [|by constructor]. eapply Forall2_impl_in; [exact Hf|]. intros w' p' Hw' _. by apply (Hkeep q l).
    + intros q' a' Hne Hrep. eapply sem_rep_frame; [..|exact Hrep]; [by rewrite Hvs|by rewrite Hqs, lookup_insert_ne|].
      intros l' w' p' Hl' Hw'. by apply (Hkeep q' l').
Qed.

End properties.

(** *** Process 3 waits on semaphore 20 through the [wait_t] at 30; process 1 runs. *)
Definition ksem_sleeper : proc_struct := set_state PROC_SLEEPING (set_wait_state WT_KSEM (demo_proc 0 0)).

Definition demo_sync : sync_state run_queue :=
  mkSync (set_procs demo_sched (<[3 := ksem_sleeper]> (procs demo_sched)))
    {[ 30 := mkWait (Some 3) WT_INTERRUPTED (Some 20) ]} {[ 20 := [30] ]} {[ 20 := 0 ]}.

Lemma demo_sync_inv : sync_inv demo_sync.
Proof.
  assert (Hone : ∀ q l w, queues demo_sync !! q = Some l → w ∈ l → q = 20 ∧ w = 30).
  { intros q l w Hq Hw. cbn in Hq. apply lookup_singleton_Some in Hq as [<- <-].
    by apply list_elem_of_singleton in Hw. }
  split.
  - split; [|by eexists|by eexists]. destruct demo_sched_inv as [(l & Hl & Hw) _ _]. exists l. split; [done|].
    intros p. rewrite Hw. unfold waiting. cbn [sched demo_sync procs set_procs current idleproc].
    rewrite runnable_insert. case_decide as Hp; [|done]. subst p. split; [|by intros [? _]].
    intros [(pr & Hpr & Hst) _]. vm_compute in Hpr. injection Hpr as <-. done.
  - intros q l Hq. cbn in Hq. apply lookup_singleton_Some in Hq as [<- <-]. apply NoDup_singleton.
  - intros q l w Hq Hw. destruct (Hone _ _ _ Hq Hw) as [-> ->]. exists 3. eexists _, ksem_sleeper. by split_and!.
  - intros q l w q' l' w' p Hq Hw Hq' Hw' _ _.
    destruct (Hone _ _ _ Hq Hw) as [_ ->], (Hone _ _ _ Hq' Hw') as [_ ->]. done.
Qed.

Lemma demo_sem_rep : sem_rep demo_sync 20 (mkAsem 0 [3]).
Proof.
  split; [done|]. exists [30]. split; [done|]. constructor; [|constructor].
  eexists _, ksem_sleeper. by split_and!.
Qed.

Lemma up_refines_witness :
  ∃ s', up demo_sync 20 = Ok s' ∧ sync_inv s' ∧ sem_rep s' 20 (mkAsem 0 []) ∧
    (∀ q' a', q' ≠ 20 → sem_rep demo_sync q' a' → sem_rep s' q' a') ∧
    (∀ p, Some 3 = Some p → runnable (procs (sched s')) p ∧
       ∃ w, waits_for demo_sync 20 w p ∧ down_leave s' 20 w = Ok s').
Proof. apply (up_refines demo_sync 20 (mkAsem 0 [3]) demo_sync_inv demo_sem_rep); cbn; lia. Defined.

Lemma down_refines_witness :
  ∃ s', down_enter demo_sync 20 31 = Ok (false, s') ∧ sync_inv s' ∧ sem_rep s' 20 (mkAsem 0 [3; 1]) ∧
    (∀ q' a', q' ≠ 20 → sem_rep demo_sync q' a' → sem_rep s' q' a') ∧
    (false = false → waits_for s' 20 31 1).
Proof.
  apply (down_refines demo_sync 20 31 (mkAsem 0 [3]) demo_sync_inv demo_sem_rep); [cbn; lia|by vm_compute| |done].
  exists (demo_proc 7 1). done.
Defined.
