(* ===== verification/Philosophers.v ===== *)
(** * kern/sync/check_sync.c: the dining philosophers with semaphores

    Five threads run [philosopher_using_semaphore].  A state of the system holds each
    thread's program point, the array [state_sema], and the abstract semaphores
    [mutex] and [s[i]] of [Sem].  [phi_step i] is one step of thread [i]: one access
    to the shared variables or one semaphore operation; it is [None] when the thread
    is blocked or has quit.  The theorems hold for every interleaving. *)

From stdpp Require Import functions.
From S2P Require Import Prelude ProcData Sem.

Definition N : Z := 5.
Definition LEFT (i : Z) : Z := (i - 1 + N) `mod` N.
Definition RIGHT (i : Z) : Z := (i + 1) `mod` N.
Definition THINKING : Z := 0.
Definition HUNGRY : Z := 1.
Definition EATING : Z := 2.
Definition TIMES : Z := 4.

(** Program points; [Take] and [Put] are those of [phi_take_forks_sema] and
    [phi_put_forks_sema]. *)
Inductive pc :=
  | Think                 (* the loop of philosopher_using_semaphore *)
  | TakeDown | TakeWait   (* down(&mutex), before it and asleep in it *)
  | TakeHungry            (* state_sema[i] = HUNGRY *)
  | TakeTest | TakeGot    (* phi_test_sema(i): the condition, the body *)
  | TakeUp                (* up(&mutex) *)
  | ForksDown | ForksWait (* down(&s[i]) *)
  | Eat
  | PutDown | PutWait     (* down(&mutex) *)
  | PutThink              (* state_sema[i] = THINKING *)
  | PutTestL | PutGotL    (* phi_test_sema(LEFT) *)
  | PutTestR | PutGotR    (* phi_test_sema(RIGHT) *)
  | PutUp                 (* up(&mutex) *)
  | Quit.

#[export] Instance pc_eq_dec : EqDecision pc.
Proof. solve_decision. Defined.

Record phi := mkPhi {
  pcs : Z → pc;
  iters : Z → Z;
  state_sema : Z → Z;
  mutex : asem;
  sems : Z → asem
}.

Definition set_pc (i : Z) (c : pc) (x : phi) : phi :=
  mkPhi (<[i := c]> (pcs x)) (iters x) (state_sema x) (mutex x) (sems x).
Definition set_phi_state (i v : Z) (x : phi) : phi :=
  mkPhi (pcs x) (iters x) (<[i := v]> (state_sema x)) (mutex x) (sems x).
Definition set_mutex (m : asem) (x : phi) : phi := mkPhi (pcs x) (iters x) (state_sema x) m (sems x).
Definition set_sem (i : Z) (a : asem) (x : phi) : phi :=
  mkPhi (pcs x) (iters x) (state_sema x) (mutex x) (<[i := a]> (sems x)).
Definition set_iter (i v : Z) (x : phi) : phi :=
  mkPhi (pcs x) (<[i := v]> (iters x)) (state_sema x) (mutex x) (sems x).

(** Where a thread that is woken up in [down] goes on. *)
Definition resume (c : pc) : pc :=
  match c with TakeWait => TakeHungry | ForksWait => Eat | PutWait => PutThink | c => c end.

Definition wake (o : option Z) (x : phi) : phi :=
  match o with Some p => set_pc p (resume (pcs x p)) x | None => x end.

Definition up_mutex (x : phi) : phi := let '(o, m) := a_up (mutex x) in wake o (set_mutex m x).
Definition up_sem (i : Z) (x : phi) : phi := let '(o, a) := a_up (sems x i) in wake o (set_sem i a x).

(** The condition and the body of [phi_test_sema(i)]. *)
Definition phi_cond (x : phi) (i : Z) : bool :=
  bool_decide (state_sema x i = HUNGRY) && bool_decide (state_sema x (LEFT i) ≠ EATING) &&
  bool_decide (state_sema x (RIGHT i) ≠ EATING).

Definition phi_body (i : Z) (x : phi) : phi := up_sem i (set_phi_state i EATING x).

Definition phi_step (i : Z) (x : phi) : option phi :=
  match pcs x i with
  | Think => if iters x i <? TIMES then Some (set_pc i TakeDown (set_iter i (iters x i + 1) x))
             else Some (set_pc i Quit x)
  | TakeDown => let '(b, m) := a_down i (mutex x) in
                Some (set_pc i (if b : bool then TakeHungry else TakeWait) (set_mutex m x))
  | TakeHungry => Some (set_pc i TakeTest (set_phi_state i HUNGRY x))
  | TakeTest => Some (set_pc i (if phi_cond x i then TakeGot else TakeUp) x)
  | TakeGot => Some (set_pc i TakeUp (phi_body i x))
  | TakeUp => Some (set_pc i ForksDown (up_mutex x))
  | ForksDown => let '(b, a) := a_down i (sems x i) in
                 Some (set_pc i (if b : bool then Eat else ForksWait) (set_sem i a x))
  | Eat => Some (set_pc i PutDown x)
  | PutDown => let '(b, m) := a_down i (mutex x) in
               Some (set_pc i (if b : bool then PutThink else PutWait) (set_mutex m x))
  | PutThink => Some (set_pc i PutTestL (set_phi_state i THINKING x))
  | PutTestL => Some (set_pc i (if phi_cond x (LEFT i) then PutGotL else PutTestR) x)
  | PutGotL => Some (set_pc i PutTestR (phi_body (LEFT i) x))
  | PutTestR => Some (set_pc i (if phi_cond x (RIGHT i) then PutGotR else PutUp) x)
  | PutGotR => Some (set_pc i PutUp (phi_body (RIGHT i) x))
  | PutUp => Some (set_pc i Think (up_mutex x))
  | TakeWait | ForksWait | PutWait | Quit => None
  end.

(** The start: [sem_init(&mutex, 1)], [sem_init(&s[i], 0)], [state_sema] zero. *)
Definition phi_init : phi :=
  mkPhi (λ _, Think) (λ _, 0) (λ _, THINKING) (mkAsem 1 []) (λ _, mkAsem 0 []).

(** A run: the threads [l] take one step each, in this order. *)
Fixpoint phi_run (l : list Z) (x : phi) : option phi :=
  match l with [] => Some x | i :: l => phi_step i x ≫= phi_run l end.

Definition valid (i : Z) : Prop := 0 ≤ i < N.

(** ** The invariant *)

Definition in_cs (c : pc) : bool :=
  match c with
  | TakeHungry | TakeTest | TakeGot | TakeUp | PutThink | PutTestL | PutGotL | PutTestR | PutGotR | PutUp => true
  | _ => false
  end.

Definition waits_mutex (c : pc) : bool := match c with TakeWait | PutWait => true | _ => false end.

(** What a thread's program point says of its entry of [state_sema] and of its
    semaphore's value. *)
Definition local_ok (c : pc) (st v : Z) : Prop :=
  match c with
  | TakeTest | TakeGot | ForksWait => st = HUNGRY ∧ v = 0
  | TakeUp | ForksDown => (st = HUNGRY ∧ v = 0) ∨ (st = EATING ∧ v = 1)
  | Eat | PutDown | PutWait | PutThink => st = EATING ∧ v = 0
  | _ => st = THINKING ∧ v = 0
  end.

(** A hungry thread that has done its own test. *)
Definition tested (c : pc) : bool := match c with TakeUp | ForksDown | ForksWait => true | _ => false end.
Definition will_test_left (c : pc) : bool := match c with PutTestL | PutGotL => true | _ => false end.
Definition will_test_right (c : pc) : bool :=
  match c with PutTestL | PutGotL | PutTestR | PutGotR => true | _ => false end.

(** Somebody will test for it again. *)
Definition helped (x : phi) (i : Z) : Prop :=
  state_sema x (LEFT i) = EATING ∨ state_sema x (RIGHT i) = EATING ∨
  will_test_left (pcs x (RIGHT i)) = true ∨ will_test_right (pcs x (LEFT i)) = true.

(** The thread whose forks a thread in the body of [phi_test_sema] is about to take. *)
Definition granting (c : pc) (i : Z) : option Z :=
  match c with TakeGot => Some i | PutGotL => Some (LEFT i) | PutGotR => Some (RIGHT i) | _ => None end.

Record phi_inv (x : phi) : Prop := {
  pi_mutex : asem_ok (mutex x);
  pi_nodup : NoDup (awaiters (mutex x));
  pi_wait : ∀ i, i ∈ awaiters (mutex x) ↔ valid i ∧ waits_mutex (pcs x i) = true;
  pi_cs : avalue (mutex x) = 1 ∧ (∀ i, valid i → in_cs (pcs x i) = false) ∨
          avalue (mutex x) = 0 ∧ ∃ h, valid h ∧ in_cs (pcs x h) = true ∧
            ∀ i, valid i → in_cs (pcs x i) = true → i = h;
  pi_local : ∀ i, valid i → local_ok (pcs x i) (state_sema x i) (avalue (sems x i));
  pi_sem : ∀ i, valid i → awaiters (sems x i) = if decide (pcs x i = ForksWait) then [i] else [];
  pi_got : ∀ i j, valid i → granting (pcs x i) i = Some j → phi_cond x j = true;
  pi_table : ∀ i, valid i → state_sema x i = EATING → state_sema x (RIGHT i) ≠ EATING;
  pi_helped : ∀ i, valid i → tested (pcs x i) = true → state_sema x i = HUNGRY → helped x i
}.

(** ** Neighbours *)

Lemma valid_cases i : valid i → i = 0 ∨ i = 1 ∨ i = 2 ∨ i = 3 ∨ i = 4.
Proof. unfold valid, N. lia. Qed.

Lemma neighbours i : valid i →
  valid (LEFT i) ∧ valid (RIGHT i) ∧ LEFT (RIGHT i) = i ∧ RIGHT (LEFT i) = i ∧
  LEFT i ≠ i ∧ RIGHT i ≠ i ∧ LEFT i ≠ RIGHT i.
Proof. intros [->|[->|[->|[->| ->]]]]%valid_cases; by vm_compute. Qed.

Lemma phi_cond_spec x i :
  phi_cond x i = true ↔
  state_sema x i = HUNGRY ∧ state_sema x (LEFT i) ≠ EATING ∧ state_sema x (RIGHT i) ≠ EATING.
Proof. unfold phi_cond. rewrite !andb_true_iff, !bool_decide_eq_true. tauto. Qed.

(** Looks up updated functions, splitting on the index where needed. *)
Ltac fn_simpl :=
  repeat first
    [ rewrite fn_lookup_insert
    | rewrite fn_lookup_insert_ne by congruence
    | match goal with |- context [<[?i := ?c]> ?f ?j] =>
        let E := fresh "E" in destruct (decide (j = i)) as [E|E];
        [first [subst j | rewrite E in *]; rewrite fn_lookup_insert|rewrite fn_lookup_insert_ne by congruence] end ].

Tactic Notation "fn_simpl" "in" hyp(Hf) :=
  repeat first
    [ rewrite fn_lookup_insert in Hf
    | rewrite fn_lookup_insert_ne in Hf by congruence ].

Ltac phi_cbn := cbn [pcs iters state_sema mutex sems set_pc set_phi_state set_mutex set_sem set_iter] in *.

Lemma phi_inv_iter x i v : phi_inv x → phi_inv (set_iter i v x).
Proof. intros []. by split. Qed.

(** ** Steps that keep the semaphores *)

(** Thread [i] moves on without entering or leaving a critical section or a queue. *)
Lemma phi_inv_pc x i c :
  phi_inv x → valid i →
  in_cs c = in_cs (pcs x i) → waits_mutex c = waits_mutex (pcs x i) → c ≠ ForksWait → pcs x i ≠ ForksWait →
  local_ok c (state_sema x i) (avalue (sems x i)) →
  (∀ j, granting c i = Some j → phi_cond x j = true) →
  (tested c = true → state_sema x i = HUNGRY → helped (set_pc i c x) i) →
  (∀ j, valid j → j ≠ i → tested (pcs x j) = true → state_sema x j = HUNGRY → helped x j → helped (set_pc i c x) j) →
  phi_inv (set_pc i c x).
Proof.
  intros [Hm Hnd Hw Hcs Hl Hs Hg Ht Hh] Hi Hc Hwm Hf Hf' Hloc Hgr Hhi Hhj. split; phi_cbn.
  - done.
  - done.
  - intros j. rewrite Hw. fn_simpl; [by rewrite Hwm|done].
  - destruct Hcs as [[Hv Hno]|(Hv & h & Hh1 & Hh2 & Hh3)].
    + left. split; [done|]. intros j Hj. fn_simpl; [rewrite Hc|]; auto.
    + right. split; [done|]. exists h. split_and!; [done| |].
      * fn_simpl; [by rewrite Hc|done].
      * intros j Hj. fn_simpl; [rewrite Hc|]; auto.
  - intros j Hj. fn_simpl; [done|auto].
  - intros j Hj. rewrite Hs by done. fn_simpl; [by rewrite !decide_False|done].
  - intros j k Hj. fn_simpl; [apply Hgr|by apply Hg].
  - done.
  - intros j Hj. fn_simpl; [done|]. intros Htj Hsj. apply Hhj; auto.
Qed.

(** The [helped] of the others if thread [i] announces no fewer tests. *)
Lemma helped_pc x i c j :
  valid i → valid j →
  (will_test_left (pcs x i) = true → will_test_left c = true) →
  (will_test_right (pcs x i) = true → will_test_right c = true) →
  helped x j → helped (set_pc i c x) j.
Proof.
  intros Hi Hj Hl Hr. unfold helped. phi_cbn. intros [?|[?|[Hw|Hw]]]; [by left|by right; left|right; right..].
  - left. destruct (decide (RIGHT j = i)) as [Hji|Hji].
    + rewrite Hji in *. rewrite fn_lookup_insert. auto.
    + by rewrite fn_lookup_insert_ne by congruence.
  - right. destruct (decide (LEFT j = i)) as [Hji|Hji].
    + rewrite Hji in *. rewrite fn_lookup_insert. auto.
    + by rewrite fn_lookup_insert_ne by congruence.
Qed.

(** [state_sema] changes for a thread in its critical section, from [THINKING] to
    [HUNGRY] before its test or from [EATING] to [THINKING]. *)
Lemma phi_inv_state x i c v :
  phi_inv x → valid i → in_cs (pcs x i) = true →
  (pcs x i = TakeHungry ∧ c = TakeTest ∧ v = HUNGRY) ∨ (pcs x i = PutThink ∧ c = PutTestL ∧ v = THINKING) →
  phi_inv (set_pc i c (set_phi_state i v x)).
Proof.
  intros [Hm Hnd Hw Hcs Hl Hs Hg Ht Hh] Hi Hin Hcase.
  assert (v ≠ EATING ∧ in_cs c = true ∧ waits_mutex c = false ∧ waits_mutex (pcs x i) = false ∧ c ≠ ForksWait ∧
    pcs x i ≠ ForksWait ∧ local_ok c v (avalue (sems x i)) ∧ granting c i = None ∧ tested c = false)
    as (Hve & Hcin & Hcw & Hiw & Hcf & Hif & Hloc & Hgr & Htc).
  { specialize (Hl i Hi). destruct Hcase as [(Hp & -> & ->)|(Hp & -> & ->)]; rewrite Hp in Hl |- *; cbn in Hl;
      split_and!; try done; cbn; tauto. }
  destruct Hcs as [[_ Hno]|(Hv & h & Hh1 & Hh2 & Hh3)]; [by rewrite Hno in Hin|].
  assert (h = i) as -> by (symmetry; auto).
  split; phi_cbn.
  - done.
  - done.
  - intros j. rewrite Hw. fn_simpl; [by rewrite Hcw, Hiw|done].
  - right. split; [done|]. exists i. split_and!; [done|by rewrite fn_lookup_insert|].
    intros j Hj. fn_simpl; [done|auto].
  - intros j Hj. fn_simpl; [done|auto].
  - intros j Hj. rewrite Hs by done. fn_simpl; [by rewrite !decide_False|done].
  - intros j k Hj. fn_simpl; [by rewrite Hgr|]. intros Hgj. exfalso.
    assert (in_cs (pcs x j) = true) as Hjin by (destruct (pcs x j); done). by apply Hh3 in Hjin.
  - intros j Hj. fn_simpl; intros Hej; try congruence. by apply Ht.
  - intros j Hj. fn_simpl; [by rewrite Htc|]. intros Htj Hsj. specialize (Hh j Hj Htj Hsj).
    destruct (neighbours j Hj) as (_ & _ & Hlr & Hrl & _). unfold helped in *. phi_cbn.
    destruct Hcase as [(Hp & -> & ->)|(Hp & -> & ->)].
    + specialize (Hl i Hi). rewrite Hp in Hl. cbn in Hl. destruct Hh as [He|[He|[Hw'|Hw']]].
      * left. fn_simpl; [rewrite (proj1 Hl) in He; done|done].
      * right; left. fn_simpl; [rewrite (proj1 Hl) in He; done|done].
      * right; right; left. fn_simpl; [by rewrite Hp in Hw'|done].
      * right; right; right. fn_simpl; [by rewrite Hp in Hw'|done].
    + destruct (decide (LEFT j = i)) as [Hli|Hli]; [right; right; right; by rewrite Hli, fn_lookup_insert|].
      destruct (decide (RIGHT j = i)) as [Hri|Hri]; [right; right; left; by rewrite Hri, fn_lookup_insert|].
      by rewrite !fn_lookup_insert_ne by congruence.
Qed.

(** ** Semaphore steps *)

(** [down(&mutex)], before a critical section that starts at [c]. *)
Lemma phi_inv_down x i c cw :
  phi_inv x → valid i →
  (pcs x i = TakeDown ∧ c = TakeHungry ∧ cw = TakeWait) ∨ (pcs x i = PutDown ∧ c = PutThink ∧ cw = PutWait) →
  phi_inv (let '(b, m) := a_down i (mutex x) in set_pc i (if b : bool then c else cw) (set_mutex m x)).
Proof.
  intros Hinv Hi Hcase. pose proof Hinv as [Hm Hnd Hw Hcs Hl Hs Hg Ht Hh].
  pose proof (a_down_ok i _ Hm) as Hm'. unfold a_down in *.
  assert (in_cs (pcs x i) = false ∧ waits_mutex (pcs x i) = false ∧ pcs x i ≠ ForksWait ∧
    in_cs c = true ∧ waits_mutex c = false ∧ c ≠ ForksWait ∧ granting c i = None ∧ tested c = false ∧
    in_cs cw = false ∧ waits_mutex cw = true ∧ cw ≠ ForksWait ∧ granting cw i = None ∧ tested cw = false ∧
    local_ok c (state_sema x i) (avalue (sems x i)) ∧ local_ok cw (state_sema x i) (avalue (sems x i)) ∧
    will_test_left (pcs x i) = false ∧ will_test_right (pcs x i) = false)
    as (Hii & Hiw & Hif & Hc1 & Hc2 & Hc3 & Hc4 & Hc5 & Hw1 & Hw2 & Hw3 & Hw4 & Hw5 & Hlc & Hlw & Htl & Htr).
  { specialize (Hl i Hi). destruct Hcase as [(Hp & -> & ->)|(Hp & -> & ->)]; rewrite Hp in Hl |- *;
      cbn in Hl; split_and!; done. }
  assert (∀ c' m j, valid j → helped x j → helped (set_pc i c' (set_mutex m x)) j) as Hkeep.
  { intros c' m j Hj Hhj. apply (helped_pc (set_mutex m x) i c' j); [done|done|..|done]; phi_cbn; congruence. }
  destruct (Z.ltb_spec 0 (avalue (mutex x))) as [Hpos|Hz].
  - destruct Hcs as [[Hv Hno]|(Hv & _)]; [|lia]. split; phi_cbn; cbn [avalue awaiters] in *.
    + done.
    + done.
    + intros j. rewrite Hw. fn_simpl; [by rewrite Hiw, Hc2|done].
    + right. split; [lia|]. exists i. split_and!; [done|by rewrite fn_lookup_insert|].
      intros j Hj. fn_simpl; [done|]. by rewrite Hno.
    + intros j Hj. fn_simpl; [done|auto].
    + intros j Hj. rewrite Hs by done. fn_simpl; [by rewrite !decide_False|done].
    + intros j k Hj. fn_simpl; [by rewrite Hc4|by apply Hg].
    + done.
    + intros j Hj. fn_simpl; [by rewrite Hc5|]. intros. by apply Hkeep, Hh.
  - split; phi_cbn; cbn [avalue awaiters] in *.
    + done.
    + apply NoDup_app. split_and!; [done| |apply NoDup_singleton].
      intros y Hy Hyi%list_elem_of_singleton. subst. apply Hw in Hy as [_ Hy]. congruence.
    + intros j. rewrite elem_of_app, list_elem_of_singleton, Hw. fn_simpl; [by rewrite Hiw, Hw2; naive_solver|naive_solver].
    + destruct Hcs as [[Hv _]|(Hv & h & Hh1 & Hh2 & Hh3)]; [lia|]. right. split; [done|]. exists h.
      split_and!; [done| |].
      * fn_simpl; congruence.
      * intros j Hj. fn_simpl; [congruence|auto].
    + intros j Hj. fn_simpl; [done|auto].
    + intros j Hj. rewrite Hs by done. fn_simpl; [by rewrite !decide_False|done].
    + intros j k Hj. fn_simpl; [by rewrite Hw4|by apply Hg].
    + done.
    + intros j Hj. fn_simpl; [by rewrite Hw5|]. intros. by apply Hkeep, Hh.
Qed.

(** [up(&mutex)] at the end of a critical section; [c] is the point behind it. *)
Lemma phi_inv_up x i c :
  phi_inv x → valid i → (pcs x i = TakeUp ∧ c = ForksDown) ∨ (pcs x i = PutUp ∧ c = Think) →
  phi_inv (set_pc i c (up_mutex x)).
Proof.
  intros Hinv Hi Hcase. pose proof Hinv as [Hm Hnd Hw Hcs Hl Hs Hg Ht Hh].
  pose proof (a_up_ok _ Hm) as Hm'.
  assert (in_cs (pcs x i) = true ∧ waits_mutex (pcs x i) = false ∧ pcs x i ≠ ForksWait ∧ in_cs c = false ∧
    waits_mutex c = false ∧ c ≠ ForksWait ∧ granting c i = None ∧ tested c = tested (pcs x i) ∧
    local_ok c (state_sema x i) (avalue (sems x i)) ∧
    will_test_left (pcs x i) = false ∧ will_test_right (pcs x i) = false)
    as (Hii & Hiw & Hif & Hc1 & Hc2 & Hc3 & Hc4 & Hc5 & Hlc & Htl & Htr).
  { specialize (Hl i Hi). destruct Hcase as [(Hp & ->)|(Hp & ->)]; rewrite Hp in Hl |- *; cbn in Hl; split_and!; done. }
  destruct Hcs as [[_ Hno]|(Hv & h & Hh1 & Hh2 & Hh3)]; [by rewrite Hno in Hii|].
  assert (h = i) as -> by (symmetry; auto).
  assert (∀ j, valid j → j ≠ i → in_cs (pcs x j) = false) as Hout.
  { intros j Hj Hne. destruct (in_cs (pcs x j)) eqn:E; [|done]. by apply Hh3 in E. }
  unfold up_mutex, a_up in *. destruct (awaiters (mutex x)) as [|p ps] eqn:Eaw; cbn [wake].
  - assert (∀ j, valid j → helped x j → helped (set_pc i c (set_mutex (mkAsem (avalue (mutex x) + 1) []) x)) j) as Hkeep.
    { intros j Hj Hhj. apply (helped_pc (set_mutex _ x) i c j); [done|done|..|done]; phi_cbn; congruence. }
    split; phi_cbn; cbn [avalue awaiters snd] in *.
    + done.
    + constructor.
    + intros j. rewrite Hw. fn_simpl; [by rewrite Hiw, Hc2|done].
    + left. split; [lia|]. intros j Hj. fn_simpl; auto.
    + intros j Hj. fn_simpl; [done|auto].
    + intros j Hj. rewrite Hs by done. fn_simpl; [by rewrite !decide_False|done].
    + intros j k Hj. fn_simpl; [by rewrite Hc4|by apply Hg].
    + done.
    + intros j Hj. fn_simpl; [rewrite Hc5|]; intros; by apply Hkeep, Hh.
  - apply NoDup_cons in Hnd as [Hpp Hnd].
    destruct (proj1 (Hw p)) as [Hpv Hpw]; [set_solver|].
    assert (p ≠ i) as Hpi by congruence.
    set (c2 := resume (pcs x p)).
    assert (in_cs c2 = true ∧ waits_mutex c2 = false ∧ c2 ≠ ForksWait ∧ pcs x p ≠ ForksWait ∧ granting c2 p = None ∧
      tested c2 = false ∧ local_ok c2 (state_sema x p) (avalue (sems x p)) ∧
      will_test_left (pcs x p) = false ∧ will_test_right (pcs x p) = false)
      as (Hd1 & Hd2 & Hd3 & Hd4 & Hd5 & Hd6 & Hd7 & Hd8 & Hd9).
    { specialize (Hl p Hpv). unfold c2. destruct (pcs x p); try done; cbn in Hl |- *; by split_and!. }
    assert (∀ m j, valid j → helped x j → helped (set_pc i c (set_pc p c2 (set_mutex m x))) j) as Hkeep.
    { intros m j Hj Hhj. apply helped_pc; [done|done|..].
      1, 2: phi_cbn; rewrite fn_lookup_insert_ne by congruence; congruence.
      apply (helped_pc (set_mutex m x) p c2 j); [done|done|..|done]; phi_cbn; congruence. }
    split; phi_cbn; cbn [avalue awaiters snd] in *; fold c2.
    + done.
    + done.
    + intros j. specialize (Hw j). rewrite elem_of_cons in Hw. fn_simpl.
      * rewrite Hc2. rewrite Hiw in Hw. naive_solver.
      * rewrite Hd2. naive_solver.
      * rewrite <- Hw. naive_solver.
    + right. split; [lia|]. exists p. split_and!; [done|by rewrite fn_lookup_insert_ne, fn_lookup_insert by congruence|].
      intros j Hj. fn_simpl; [congruence|done|]. by rewrite Hout.
    + intros j Hj. fn_simpl; [done|done|auto].
    + intros j Hj. rewrite Hs by done. fn_simpl; [by rewrite !decide_False|by rewrite !decide_False|done].
    + intros j k Hj. fn_simpl; [by rewrite Hc4|by rewrite Hd5|by apply Hg].
    + done.
    + intros j Hj. fn_simpl; [rewrite Hc5|by rewrite Hd6|]; intros; by apply Hkeep, Hh.
Qed.

(** [down(&s[i])] *)
Lemma phi_inv_forks x i :
  phi_inv x → valid i → pcs x i = ForksDown →
  phi_inv (let '(b, a) := a_down i (sems x i) in set_pc i (if b : bool then Eat else ForksWait) (set_sem i a x)).
Proof.
  intros Hinv Hi Hp. pose proof Hinv as [Hm Hnd Hw Hcs Hl Hs Hg Ht Hh].
  pose proof (Hs i Hi) as Hsi. rewrite Hp, decide_False in Hsi by done.
  pose proof (Hl i Hi) as Hli. rewrite Hp in Hli. cbn in Hli.
  assert (∀ c' j, valid j → helped x j → helped (set_pc i c' x) j) as Hkeep.
  { intros c' j Hj Hhj. apply (helped_pc x i c' j); [done|done|..|done]; by rewrite Hp. }
  unfold a_down. rewrite Hsi.
  set (c := if 0 <? avalue (sems x i) then Eat else ForksWait).
  set (a := if 0 <? avalue (sems x i) then mkAsem (avalue (sems x i) - 1) [] else mkAsem (avalue (sems x i)) [i]).
  assert (local_ok c (state_sema x i) (avalue a) ∧ awaiters a = (if decide (c = ForksWait) then [i] else []) ∧
    in_cs c = false ∧ waits_mutex c = false ∧ granting c i = None ∧ (tested c = true → helped x i))
    as (Hloc & Haw & Hc1 & Hc2 & Hc3 & Hc4).
  { unfold c, a. destruct Hli as [[Hst Hv]|[Hst Hv]]; rewrite Hv; cbn; split_and!; try done.
    intros _. apply Hh; [done|by rewrite Hp|done]. }
  assert (phi_inv (set_pc i c (set_sem i a x))) as Hres.
  { split; phi_cbn.
    - done.
    - done.
    - intros j. rewrite Hw. fn_simpl; [by rewrite Hc2, Hp|done].
    - destruct Hcs as [[Hv Hno]|(Hv & h & Hh1 & Hh2 & Hh3)]; [left|right]; (split; [done|]).
      + intros j Hj. fn_simpl; auto.
      + exists h. assert (h ≠ i) by (intros ->; by rewrite Hp in Hh2).
        split_and!; [done|by rewrite fn_lookup_insert_ne by congruence|]. intros j Hj. fn_simpl; [congruence|auto].
    - intros j Hj. fn_simpl; [done|auto].
    - intros j Hj. fn_simpl; [done|by rewrite Hs].
    - intros j k Hj. fn_simpl; [by rewrite Hc3|by apply Hg].
    - done.
    - intros j Hj. fn_simpl; [intros Htc _; by apply Hkeep, Hc4|intros; by apply Hkeep, Hh]. }
  unfold c, a in Hres. by destruct (0 <? avalue (sems x i)).
Qed.

Lemma local_hungry c v :
  local_ok c HUNGRY v → in_cs c = false → v = 0 ∧ (c = ForksDown ∨ c = ForksWait).
Proof. unfold HUNGRY. destruct c; cbn; unfold THINKING, HUNGRY, EATING; intuition (try lia; try done). Qed.

(** The body of [phi_test_sema(j)] gives the forks to thread [j]. *)
Lemma granting_status x i j :
  phi_inv x → valid i → granting (pcs x i) i = Some j →
  valid j ∧ state_sema x j = HUNGRY ∧ avalue (sems x j) = 0 ∧
  (j = i ∧ pcs x i = TakeGot ∨ j ≠ i ∧ (pcs x j = ForksDown ∨ pcs x j = ForksWait)).
Proof.
  intros Hinv Hi Hgr. pose proof (pi_got _ Hinv _ _ Hi Hgr) as (Hst & _ & _)%phi_cond_spec.
  assert (in_cs (pcs x i) = true) as Hin by (by destruct (pcs x i)).
  destruct (neighbours i Hi) as (Hvl & Hvr & _ & _ & Hnl & Hnr & _).
  pose proof (pi_local _ Hinv) as Hl.
  assert (∀ k, valid k → k ≠ i → state_sema x k = HUNGRY →
    avalue (sems x k) = 0 ∧ (pcs x k = ForksDown ∨ pcs x k = ForksWait)) as Hother.
  { intros k Hk Hne Hsk. specialize (Hl k Hk). rewrite Hsk in Hl. apply local_hungry; [done|].
    destruct (in_cs (pcs x k)) eqn:E; [|done].
    destruct (pi_cs _ Hinv) as [[_ Hno]|(_ & h & _ & _ & Hh)]; [by rewrite Hno in Hin|].
    by rewrite (Hh k Hk E), (Hh i Hi Hin) in Hne. }
  destruct (pcs x i) eqn:Hp; cbn in Hgr; simplify_eq.
  - specialize (Hl j Hi). rewrite Hp in Hl. destruct Hl as [_ Hv]. split_and!; [done..|by left].
  - destruct (Hother (LEFT i) Hvl Hnl Hst). split_and!; [done..|by right].
  - destruct (Hother (RIGHT i) Hvr Hnr Hst). split_and!; [done..|by right].
Qed.

(** What the body of [phi_test_sema(j)] in thread [i] leads to: [j] eats, with its
    semaphore raised unless it was waiting for it; [i] goes on at [c]. *)
Record granted (x x' : phi) (i j : Z) (c : pc) : Prop := {
  gr_i : pcs x' i = c;
  gr_j : j ≠ i → pcs x' j = resume (pcs x j);
  gr_pcs : ∀ k, k ≠ i → k ≠ j → pcs x' k = pcs x k;
  gr_state : state_sema x' j = EATING;
  gr_states : ∀ k, k ≠ j → state_sema x' k = state_sema x k;
  gr_mutex : mutex x' = mutex x;
  gr_sem : sems x' j = mkAsem (if decide (pcs x j = ForksWait) then 0 else 1) [];
  gr_sems : ∀ k, k ≠ j → sems x' k = sems x k
}.

Lemma phi_body_granted x i j c :
  phi_inv x → valid i → granting (pcs x i) i = Some j →
  granted x (set_pc i c (phi_body j x)) i j c.
Proof.
  intros Hinv Hi Hgr. destruct (granting_status x i j Hinv Hi Hgr) as (Hj & Hst & Hv & Hpc).
  pose proof (pi_sem _ Hinv j Hj) as Hs. unfold phi_body, up_sem, a_up. phi_cbn. rewrite Hs.
  case_decide as Hw; cbn [wake].
  - assert (j ≠ i) as Hne by (intros ->; destruct (pcs x i); done).
    split; phi_cbn; intros; rewrite ?Hv; try (by rewrite fn_lookup_insert); try (by rewrite !fn_lookup_insert_ne by congruence).
    + by rewrite fn_lookup_insert_ne, fn_lookup_insert by congruence.
    + done.
    + by rewrite fn_lookup_insert, decide_True by done.
  - split; phi_cbn; intros; rewrite ?Hv; try (by rewrite fn_lookup_insert); try (by rewrite !fn_lookup_insert_ne by congruence).
    + rewrite fn_lookup_insert_ne by congruence. by destruct Hpc as [[-> _]|[_ [-> |?]]].
    + done.
    + by rewrite fn_lookup_insert, decide_False by done.
Qed.

Lemma phi_inv_granted x x' i j c :
  phi_inv x → valid i → granting (pcs x i) i = Some j → granted x x' i j c →
  (pcs x i = TakeGot ∧ c = TakeUp) ∨ (pcs x i = PutGotL ∧ c = PutTestR) ∨ (pcs x i = PutGotR ∧ c = PutUp) →
  phi_inv x'.
Proof.
  intros Hinv Hi Hgr Hx Hcase. destruct (granting_status x i j Hinv Hi Hgr) as (Hj & Hst & Hv & Hpc).
  pose proof (pi_got _ Hinv _ _ Hi Hgr) as (_ & Hnl & Hnr)%phi_cond_spec.
  destruct Hinv as [Hm Hnd Hw Hcs Hl Hs Hg Ht Hh], Hx as [Gi Gj Gp Gs Gss Gm Gv Gvs].
  assert (in_cs (pcs x i) = true ∧ waits_mutex (pcs x i) = false ∧ in_cs c = true ∧ waits_mutex c = false ∧
    c ≠ ForksWait ∧ granting c i = None) as (Hii & Hiw & Hc1 & Hc2 & Hc3 & Hc4).
  { destruct Hcase as [[-> ->]|[[-> ->]|[-> ->]]]; done. }
  destruct Hcs as [[_ Hno]|(Hv0 & h & Hh1 & Hh2 & Hh3)]; [by rewrite Hno in Hii|].
  assert (h = i) as -> by (symmetry; auto).
  (* the program point of any other thread *)
  assert (∀ k, k ≠ i → in_cs (pcs x' k) = in_cs (pcs x k) ∧ waits_mutex (pcs x' k) = waits_mutex (pcs x k) ∧
    pcs x' k = (if decide (k = j) then resume (pcs x j) else pcs x k)) as Hk.
  { intros k Hne. destruct (decide (k = j)) as [->|Hkj]; [|by rewrite Gp].
    rewrite Gj by done. destruct Hpc as [[? _]|[_ [-> | ->]]]; done. }
  split; rewrite ?Gm.
  - done.
  - done.
  - intros k. rewrite Hw. destruct (decide (k = i)) as [->|Hne]; [by rewrite Gi, Hc2, Hiw|].
    by destruct (Hk k Hne) as (_ & -> & _).
  - right. split; [done|]. exists i. rewrite Gi. split_and!; [done|done|]. intros k Hkv Hin.
    destruct (decide (k = i)) as [|Hne]; [done|]. apply Hh3; [done|]. by destruct (Hk k Hne) as (<- & _ & _).
  - intros k Hkv. destruct (decide (k = j)) as [->|Hkj].
    + rewrite Gs, Gv. cbn [avalue]. destruct Hpc as [[-> Hp]|[Hne [Hp|Hp]]].
      * rewrite Gi, Hp. destruct Hcase as [[_ ->]|[[? _]|[? _]]]; [|congruence..]. by right.
      * rewrite Gj, Hp by done. by right.
      * rewrite Gj, Hp by done. done.
    + rewrite Gss, Gvs by done. specialize (Hl k Hkv). destruct (decide (k = i)) as [->|Hne]; [|by rewrite Gp].
      rewrite Gi. destruct Hcase as [[Hp _]|[[Hp ->]|[Hp ->]]]; rewrite Hp in *; cbn in Hl |- *; try done.
      cbn in Hgr. congruence.
  - intros k Hkv. destruct (decide (k = j)) as [->|Hkj].
    + rewrite Gv. cbn [awaiters]. destruct (decide (j = i)) as [->|Hne]; [by rewrite Gi, decide_False|].
      rewrite Gj by done. by destruct Hpc as [[? _]|[_ [-> | ->]]].
    + rewrite Gvs by done. rewrite Hs by done. destruct (decide (k = i)) as [->|Hne]; [|by rewrite Gp].
      rewrite Gi, !decide_False; [done..|]. intros E. by rewrite E in Hii.
  - intros k l Hkv Hgk. destruct (decide (k = i)) as [->|Hne]; [by rewrite Gi, Hc4 in Hgk|].
    assert (in_cs (pcs x' k) = true) as Hin by (by destruct (pcs x' k)).
    destruct (Hk k Hne) as (Heq & _ & _). rewrite Heq in Hin. by apply Hh3 in Hin.
  - intros k Hkv. destruct (neighbours j Hj) as (_ & _ & _ & Hrl & _ & Hjr & _).
    destruct (decide (k = j)) as [->|Hkj]; [by rewrite (Gss (RIGHT j)) by done|]. rewrite (Gss k) by done. intros Hek.
    destruct (decide (RIGHT k = j)) as [Hrk|Hrk]; [|rewrite Gss by done; by apply Ht].
    exfalso. apply Hnl. rewrite <- Hrk. by destruct (neighbours k Hkv) as (_ & _ & -> & _).
  - intros k Hkv Htk Hsk. destruct (decide (k = j)) as [->|Hkj]; [by rewrite Gs in Hsk|]. rewrite Gss in Hsk by done.
    assert (k ≠ i) as Hne.
    { intros ->. specialize (Hl i Hi). rewrite Hsk in Hl.
      destruct Hcase as [[Hp _]|[[Hp _]|[Hp _]]]; rewrite Hp in *; cbn in Hgr, Hl; [congruence|by destruct Hl..]. }
    rewrite Gp in Htk by done. destruct (neighbours k Hkv) as (_ & _ & Hlr & Hrl & _ & _ & _).
    assert (∀ n, state_sema x n = EATING → state_sema x' n = EATING) as Heat.
    { intros n Hn. destruct (decide (n = j)) as [->|]; [done|by rewrite Gss]. }
    destruct (Hh k Hkv Htk Hsk) as [He|[He|[He|He]]]; unfold helped; [left; auto|right; left; auto|..].
    + right; right; left. destruct (decide (RIGHT k = i)) as [Hri|Hri].
      * rewrite Hri, Gi in *. destruct Hcase as [[Hp ->]|[[Hp ->]|[Hp ->]]]; rewrite Hp in He, Hgr; try done.
        cbn in Hgr. congruence.
      * destruct (decide (RIGHT k = j)) as [Hrj|Hrj]; [|by rewrite Gp].
        rewrite Hrj in *. by destruct Hpc as [[? _]|[_ [Hp|Hp]]]; [|rewrite Hp in He..].
    + right; right; right. destruct (decide (LEFT k = i)) as [Hri|Hri].
      * rewrite Hri, Gi in *. destruct Hcase as [[Hp ->]|[[Hp ->]|[Hp ->]]]; rewrite Hp in He, Hgr; try done.
        cbn in Hgr. congruence.
      * destruct (decide (LEFT k = j)) as [Hrj|Hrj]; [|by rewrite Gp].
        rewrite Hrj in *. by destruct Hpc as [[? _]|[_ [Hp|Hp]]]; [|rewrite Hp in He..].
Qed.

(** ** Runs *)

Lemma phi_inv_init : phi_inv phi_init.
Proof.
  split; cbn.
  - by split.
  - constructor.
  - intros i. split; [set_solver|]. by intros [_ ?].
  - by left.
  - done.
  - done.
  - done.
  - intros i _. unfold THINKING, EATING. lia.
  - done.
Qed.

Lemma phi_inv_test x i j cg cn :
  phi_inv x → valid i → valid j →
  (pcs x i = TakeTest ∧ j = i ∧ cg = TakeGot ∧ cn = TakeUp) ∨
  (pcs x i = PutTestL ∧ j = LEFT i ∧ cg = PutGotL ∧ cn = PutTestR) ∨
  (pcs x i = PutTestR ∧ j = RIGHT i ∧ cg = PutGotR ∧ cn = PutUp) →
  phi_inv (set_pc i (if phi_cond x j then cg else cn) x).
Proof.
  intros Hinv Hi Hj Hcase. pose proof (pi_local _ Hinv i Hi) as Hl.
  destruct (neighbours i Hi) as (_ & _ & Hlr & Hrl & _).
  destruct (phi_cond x j) eqn:Hc.
  - apply phi_inv_pc; try done; destruct Hcase as [(Hp & -> & -> & ->)|[(Hp & -> & -> & ->)|(Hp & -> & -> & ->)]];
      rewrite Hp in *; try done; try (intros k [= <-]; done); try (intros; by apply helped_pc; rewrite ?Hp).
  - assert (state_sema x j = HUNGRY → state_sema x (LEFT j) = EATING ∨ state_sema x (RIGHT j) = EATING) as Hno.
    { intros Hst. destruct (decide (state_sema x (LEFT j) = EATING)); [by left|].
      destruct (decide (state_sema x (RIGHT j) = EATING)); [by right|].
      assert (phi_cond x j = true) by (by apply phi_cond_spec). congruence. }
    assert (∀ c, state_sema x j = HUNGRY → helped (set_pc i c x) j) as Hhelp.
    { intros c Hst. unfold helped. phi_cbn. destruct (Hno Hst); tauto. }
    apply phi_inv_pc; try done; destruct Hcase as [(Hp & -> & -> & ->)|[(Hp & -> & -> & ->)|(Hp & -> & -> & ->)]];
      rewrite Hp in *; try done; try (intros; by apply helped_pc; rewrite ?Hp); cbn in *; try (left; tauto).
    + intros _. apply Hhelp.
    + intros k Hk Hne Htk Hsk Hhk. destruct (decide (k = LEFT i)) as [->|Hkl]; [by apply Hhelp|].
      unfold helped in *. phi_cbn. destruct (neighbours k Hk) as (_ & _ & Hlrk & _).
      destruct Hhk as [?|[?|[Hw|Hw]]]; [tauto..| |].
      * right; right; left. rewrite fn_lookup_insert_ne; [done|]. intros E. by rewrite E, Hlrk in Hkl.
      * right; right; right. destruct (decide (LEFT k = i)) as [E|E]; [by rewrite E, fn_lookup_insert|].
        by rewrite fn_lookup_insert_ne by congruence.
    + intros k Hk Hne Htk Hsk Hhk. destruct (decide (k = RIGHT i)) as [->|Hkl]; [by apply Hhelp|].
      unfold helped in *. phi_cbn. destruct (neighbours k Hk) as (_ & _ & _ & Hrlk & _).
      destruct Hhk as [?|[?|[Hw|Hw]]]; [tauto..| |].
      * right; right; left. destruct (decide (RIGHT k = i)) as [E|E]; [|by rewrite fn_lookup_insert_ne by congruence].
        rewrite E, Hp in Hw. done.
      * right; right; right. rewrite fn_lookup_insert_ne; [done|]. intros E. by rewrite E, Hrlk in Hkl.
Qed.

Lemma phi_step_inv i x x' : phi_inv x → valid i → phi_step i x = Some x' → phi_inv x'.
Proof.
  intros Hinv Hi Hstep. unfold phi_step in Hstep. destruct (neighbours i Hi) as (Hvl & Hvr & _).
  pose proof (pi_local _ Hinv i Hi) as Hl.
  assert (∀ c, pcs x i ≠ ForksWait → c ≠ ForksWait → in_cs c = in_cs (pcs x i) → waits_mutex c = waits_mutex (pcs x i) →
    local_ok c (state_sema x i) (avalue (sems x i)) → granting c i = None → tested c = false →
    will_test_left (pcs x i) = false → will_test_right (pcs x i) = false → phi_inv (set_pc i c x)) as Hmove.
  { intros c H1 H2 H3 H4 H5 H6 H7 H8 H9. apply phi_inv_pc; try done; [by rewrite H6|by rewrite H7|].
    intros. apply helped_pc; try done; congruence. }
  destruct (pcs x i) eqn:Hp.
  - destruct (iters x i <? TIMES); injection Hstep as <-.
    + change (phi_inv (set_iter i (iters x i + 1) (set_pc i TakeDown x))). apply phi_inv_iter, Hmove; by rewrite ?Hp.
    + apply Hmove; by rewrite ?Hp.
  - pose proof (phi_inv_down x i TakeHungry TakeWait Hinv Hi ltac:(by left)) as Hd.
    destruct (a_down i (mutex x)) as [b m]. by injection Hstep as <-.
  - done.
  - injection Hstep as <-. apply phi_inv_state; [done|done|by rewrite Hp|by left].
  - injection Hstep as <-. apply phi_inv_test; [done|done|done|by left].
  - injection Hstep as <-. eapply (phi_inv_granted x _ i i TakeUp); [done|done|by rewrite Hp| |by left].
    apply phi_body_granted; [done|done|by rewrite Hp].
  - injection Hstep as <-. apply phi_inv_up; [done|done|by left].
  - pose proof (phi_inv_forks x i Hinv Hi Hp) as Hd. destruct (a_down i (sems x i)) as [b a]. by injection Hstep as <-.
  - done.
  - injection Hstep as <-. apply Hmove; by rewrite ?Hp.
  - pose proof (phi_inv_down x i PutThink PutWait Hinv Hi ltac:(by right)) as Hd.
    destruct (a_down i (mutex x)) as [b m]. by injection Hstep as <-.
  - done.
  - injection Hstep as <-. apply phi_inv_state; [done|done|by rewrite Hp|by right].
  - injection Hstep as <-. apply phi_inv_test; [done|done|done|by right; left].
  - injection Hstep as <-. eapply (phi_inv_granted x _ i (LEFT i) PutTestR); [done|done|by rewrite Hp| |by right; left].
    apply phi_body_granted; [done|done|by rewrite Hp].
  - injection Hstep as <-. apply phi_inv_test; [done|done|done|by right; right].
  - injection Hstep as <-. eapply (phi_inv_granted x _ i (RIGHT i) PutUp); [done|done|by rewrite Hp| |by right; right].
    apply phi_body_granted; [done|done|by rewrite Hp].
  - injection Hstep as <-. apply phi_inv_up; [done|done|by right].
  - done.
Qed.

Lemma phi_run_inv l x x' : phi_inv x → Forall valid l → phi_run l x = Some x' → phi_inv x'.
Proof.
  revert x. induction l as [|i l IH]; intros x Hinv Hl; cbn [phi_run]; [by intros [= <-]|].
  apply Forall_cons in Hl as [Hi Hl]. intros (x1 & Hs & Hr)%bind_Some. eauto using phi_step_inv.
Qed.

(** ** No deadlock *)

Lemma phi_stuck x :
  phi_inv x → (∀ i, valid i → phi_step i x = None) → ∀ i, valid i → pcs x i = Quit.
Proof.
  intros Hinv Hstuck.
  assert (∀ i, valid i → pcs x i = TakeWait ∨ pcs x i = PutWait ∨ pcs x i = ForksWait ∨ pcs x i = Quit) as Hpc.
  { intros i Hi. specialize (Hstuck i Hi). unfold phi_step in Hstuck.
    destruct (pcs x i); try tauto; repeat case_match; done. }
  assert (∀ i, valid i → waits_mutex (pcs x i) = false) as Hnw.
  { intros i Hi. destruct (waits_mutex (pcs x i)) eqn:E; [|done]. exfalso.
    assert (i ∈ awaiters (mutex x)) as Hin by (by apply (pi_wait _ Hinv)).
    destruct (pi_mutex _ Hinv) as [H0 Hfree]. destruct (pi_cs _ Hinv) as [[Hv _]|(_ & h & Hh & Hcs & _)].
    - rewrite Hfree in Hin by lia. set_solver.
    - by destruct (Hpc h Hh) as [Hp|[Hp|[Hp|Hp]]]; rewrite Hp in Hcs. }
  assert (∀ i, valid i → (pcs x i = ForksWait ∧ state_sema x i = HUNGRY) ∨ (pcs x i = Quit ∧ state_sema x i = THINKING)) as Hst.
  { intros i Hi. specialize (Hnw i Hi). pose proof (pi_local _ Hinv i Hi) as Hl.
    destruct (Hpc i Hi) as [Hp|[Hp|[Hp|Hp]]]; rewrite Hp in Hnw, Hl; try done; cbn in Hl; tauto. }
  intros i Hi. destruct (Hst i Hi) as [[Hp Hh]|[? _]]; [|done]. exfalso.
  destruct (neighbours i Hi) as (Hvl & Hvr & _).
  destruct (pi_helped _ Hinv i Hi) as [He|[He|[Hw|Hw]]]; [by rewrite Hp|done|..].
  - destruct (Hst _ Hvl) as [[_ E]|[_ E]]; by rewrite E in He.
  - destruct (Hst _ Hvr) as [[_ E]|[_ E]]; by rewrite E in He.
  - destruct (Hst _ Hvr) as [[E _]|[E _]]; by rewrite E in Hw.
  - destruct (Hst _ Hvl) as [[E _]|[E _]]; by rewrite E in Hw.
Qed.

(** ** Termination: a bound on the number of steps *)

Definition rank (c : pc) : Z :=
  match c with
  | Quit => 0 | Think => 1 | PutUp => 2 | PutGotR => 3 | PutTestR => 4 | PutGotL => 5 | PutTestL => 6
  | PutThink => 7 | PutWait => 8 | PutDown => 9 | Eat => 10 | ForksWait => 11 | ForksDown => 12
  | TakeUp => 13 | TakeGot => 14 | TakeTest => 15 | TakeHungry => 16 | TakeWait => 17 | TakeDown => 18
  end.

Definition left_of (x : phi) (i : Z) : Z := (TIMES - iters x i) * 18 + rank (pcs x i).
Definition steps_left (x : phi) : Z :=
  left_of x 0 + left_of x 1 + left_of x 2 + left_of x 3 + left_of x 4.

Lemma wake_frame o x k :
  iters (wake o x) k = iters x k ∧ (pcs (wake o x) k = pcs x k ∨ pcs (wake o x) k = resume (pcs x k)).
Proof.
  destruct o as [p|]; cbn [wake]; [|tauto]. phi_cbn. split; [done|].
  destruct (decide (k = p)) as [->|]; [rewrite fn_lookup_insert|rewrite fn_lookup_insert_ne by congruence]; tauto.
Qed.

Lemma rank_resume c : rank (resume c) ≤ rank c.
Proof. destruct c; cbn; lia. Qed.

(** A step to [c] after some thread may have been woken up. *)
Lemma left_of_wake x y o i c k :
  pcs y = pcs x → iters y = iters x → rank c + 1 ≤ rank (pcs x i) →
  left_of (set_pc i c (wake o y)) k ≤ left_of x k - (if decide (k = i) then 1 else 0).
Proof.
  intros Hp Hit Hc. unfold left_of. phi_cbn. destruct (wake_frame o y k) as [-> Hw]. rewrite Hit.
  destruct (decide (k = i)) as [->|Hne]; [rewrite fn_lookup_insert; lia|].
  rewrite fn_lookup_insert_ne by congruence. pose proof (rank_resume (pcs x k)).
  destruct Hw as [-> | ->]; rewrite Hp; lia.
Qed.

Lemma phi_step_left i x x' k :
  phi_step i x = Some x' → left_of x' k ≤ left_of x k - (if decide (k = i) then 1 else 0).
Proof.
  intros Hstep. unfold phi_step in Hstep.
  assert (∀ y c, pcs y = pcs x → iters y = iters x → rank c + 1 ≤ rank (pcs x i) →
    left_of (set_pc i c y) k ≤ left_of x k - (if decide (k = i) then 1 else 0)) as Hmove
    by (intros y c; apply (left_of_wake x y None)).
  destruct (pcs x i) eqn:Hp; try discriminate Hstep.
  1:{ destruct (Z.ltb_spec (iters x i) TIMES); injection Hstep as <-.
      - unfold left_of. phi_cbn. destruct (decide (k = i)) as [->|Hne].
        + rewrite !fn_lookup_insert, Hp. cbn. lia.
        + rewrite !fn_lookup_insert_ne by congruence. lia.
      - apply Hmove; cbn; [done|done|lia]. }
  all: repeat match type of Hstep with context [a_down ?p ?a] => destruct (a_down p a) as [[] ?] end;
    repeat match type of Hstep with context [if phi_cond ?y ?j then _ else _] => destruct (phi_cond y j) end;
    injection Hstep as <-; unfold up_mutex, phi_body, up_sem;
    repeat match goal with |- context [a_up ?a] => destruct (a_up a) end;
    first [apply Hmove; cbn; [done|done|lia] | apply left_of_wake; cbn; [done|done|rewrite Hp; cbn; lia]].
Qed.

Lemma phi_step_decreases i x x' : valid i → phi_step i x = Some x' → steps_left x' ≤ steps_left x - 1.
Proof.
  intros Hi Hstep. pose proof (λ k, phi_step_left i x x' k Hstep) as Hle. unfold steps_left.
  pose proof (Hle 0) as H0. pose proof (Hle 1) as H1. pose proof (Hle 2) as H2. pose proof (Hle 3) as H3. pose proof (Hle 4) as H4.
  assert (∀ k, (if decide (k = i) then 1 else 0) = if k =? i then 1 else 0) as Hd.
  { intros k. destruct (decide (k = i)), (Z.eqb_spec k i); done. }
  rewrite Hd in H0, H1, H2, H3, H4. clear Hd Hle Hstep.
  destruct (valid_cases i Hi) as [->|[->|[->|[->| ->]]]]; cbn [Z.eqb Pos.eqb] in *; lia.
Qed.

Definition iters_ok (x : phi) : Prop := ∀ k, iters x k ≤ TIMES.

Lemma phi_step_iters i x x' : iters_ok x → phi_step i x = Some x' → iters_ok x'.
Proof.
  intros Hx Hstep k. unfold phi_step in Hstep. specialize (Hx k).
  destruct (pcs x i) eqn:Hp; try discriminate Hstep.
  1:{ destruct (Z.ltb_spec (iters x i) TIMES); injection Hstep as <-; phi_cbn; [|done].
      destruct (decide (k = i)) as [->|]; [rewrite fn_lookup_insert; lia|by rewrite fn_lookup_insert_ne by congruence]. }
  all: repeat match type of Hstep with context [a_down ?p ?a] => destruct (a_down p a) as [[] ?] end;
    injection Hstep as <-; unfold up_mutex, phi_body, up_sem;
    repeat match goal with |- context [a_up ?a] => destruct (a_up a) end; phi_cbn;
    try (match goal with |- context [wake ?o ?y] => destruct (wake_frame o y k) as [-> _] end); done.
Qed.

Lemma phi_run_left l x x' :
  iters_ok x → Forall valid l → phi_run l x = Some x' →
  iters_ok x' ∧ steps_left x' + Z.of_nat (length l) ≤ steps_left x.
Proof.
  revert x. induction l as [|i l IH]; intros x Hx Hl; cbn [phi_run length].
  { intros [= <-]. split; [done|lia]. }
  apply Forall_cons in Hl as [Hi Hl]. intros (x1 & Hs & Hr)%bind_Some.
  destruct (IH x1 (phi_step_iters _ _ _ Hx Hs) Hl Hr) as [Hx' Hle].
  pose proof (phi_step_decreases _ _ _ Hi Hs). split; [done|lia].
Qed.

Lemma steps_left_nonneg x : iters_ok x → 0 ≤ steps_left x.
Proof.
  intros Hx. assert (∀ k, 0 ≤ left_of x k) as Hk.
  { intros k. unfold left_of. specialize (Hx k). assert (0 ≤ rank (pcs x k)) by (destruct (pcs x k); cbn; lia). lia. }
  unfold steps_left. pose proof (Hk 0). pose proof (Hk 1). pose proof (Hk 2). pose proof (Hk 3). pose proof (Hk 4). lia.
Qed.

(** ** Properties *)

(** Between [down(&s[i])] and the end of [phi_put_forks_sema]'s first assignment. *)
Definition holds_forks (c : pc) : bool :=
  match c with Eat | PutDown | PutWait | PutThink => true | _ => false end.

(** C27: In every interleaving of the five threads, two neighbours never hold
    their forks at the same time, and at most one thread is between [down(&mutex)] and
    [up(&mutex)]. *)
Theorem philosophers_exclusion l x i j :
  Forall valid l → phi_run l phi_init = Some x → valid i → valid j →
  (holds_forks (pcs x i) = true → holds_forks (pcs x (RIGHT i)) = false) ∧
  (in_cs (pcs x i) = true → in_cs (pcs x j) = true → i = j).
Proof.
  intros Hl Hr Hi Hj. pose proof (phi_run_inv _ _ _ phi_inv_init Hl Hr) as Hinv.
  assert (∀ k, valid k → holds_forks (pcs x k) = true → state_sema x k = EATING) as Heat.
  { intros k Hk Hh. pose proof (pi_local _ Hinv k Hk) as Hlk. destruct (pcs x k); try done; apply Hlk. }
  split.
  - intros Hh. destruct (holds_forks (pcs x (RIGHT i))) eqn:E; [|done]. exfalso.
    destruct (neighbours i Hi) as (_ & Hvr & _). by apply (pi_table _ Hinv i Hi); [apply Heat|apply Heat].
  - intros H1 H2. destruct (pi_cs _ Hinv) as [[_ Hno]|(_ & h & _ & _ & Hu)]; [by rewrite Hno in H1|].
    by rewrite (Hu i Hi H1), (Hu j Hj H2).
Qed.

(** C28: Every interleaving ends after at most 365 steps, and it can only end
    with all five philosophers having eaten [TIMES] times and quit: there is neither a
    deadlock nor a lost wake-up. *)
Theorem philosophers_finish l x :
  Forall valid l → phi_run l phi_init = Some x →
  Z.of_nat (length l) ≤ 365 ∧
  ((∀ i, valid i → phi_step i x = None) → ∀ i, valid i → pcs x i = Quit).
Proof.
  intros Hl Hr. split.
  - destruct (phi_run_left l phi_init x) as [Hx Hle]; [intros k; cbn; unfold TIMES; lia|done|done|].
    pose proof (steps_left_nonneg x Hx). change (steps_left phi_init) with 365 in Hle. lia.
  - apply phi_stuck. by apply (phi_run_inv _ _ _ phi_inv_init Hl).
Qed.

(** *** A run in which philosopher 0 eats while 1 waits for the forks. *)
Definition demo_run : list Z := [0; 0; 0; 0; 0; 0; 0; 1; 1; 1; 1; 1; 1].

Lemma demo_run_ok : Forall valid demo_run.
Proof. repeat constructor; unfold valid, N; lia. Qed.

Lemma philosophers_exclusion_witness :
  ∃ x, phi_run demo_run phi_init = Some x ∧
    (holds_forks (pcs x 0) = true → holds_forks (pcs x (RIGHT 0)) = false) ∧
    (in_cs (pcs x 0) = true → in_cs (pcs x 1) = true → 0 = 1).
Proof.
  eexists. split; [reflexivity|]. apply (philosophers_exclusion demo_run); [apply demo_run_ok|reflexivity|unfold valid, N; lia..].
Defined.

Lemma philosophers_finish_witness :
  ∃ x, phi_run demo_run phi_init = Some x ∧ Z.of_nat (length demo_run) ≤ 365 ∧
    ((∀ i, valid i → phi_step i x = None) → ∀ i, valid i → pcs x i = Quit).
Proof. eexists. split; [reflexivity|]. apply (philosophers_finish demo_run); [apply demo_run_ok|reflexivity]. Defined.
