(* ===== verification/Monitor.v ===== *)
(** * kern/sync/monitor.c: monitors with condition variables

    A monitor holds the semaphores [mutex] and [next] and, per condition variable, a
    semaphore and a count; the semaphores are the abstract ones of [Sem].  [mon_step]
    is one step of a thread that executes routines of the monitor: it enters, calls
    [cond_wait] and [cond_signal] any number of times, and leaves as the routines of
    check_sync.c do.  The theorems hold for all threads and all interleavings. *)

From stdpp Require Import functions.
From S2P Require Import Prelude ProcData Sem.

(** Program points of a thread; [c] is the condition variable. *)
Inductive mpc :=
  | Outside
  | EnterDown | EnterWait      (* down(&mtp->mutex), before it and asleep in it *)
  | Inside                     (* the body of a routine *)
  | WaitInc (c : Z)            (* cond_wait: cvp->count ++ *)
  | WaitUp (c : Z)             (* up of next or mutex *)
  | WaitDown (c : Z) | WaitSleep (c : Z)  (* down(&cvp->sem) *)
  | WaitDec (c : Z)            (* cvp->count -- *)
  | SigTest (c : Z)            (* cond_signal: if (cvp->count > 0) next_count ++ *)
  | SigUp (c : Z)              (* up(&cvp->sem) *)
  | SigDown | SigSleep         (* down(&next) *)
  | SigDec                     (* next_count -- *)
  | LeaveUp.                   (* up of next or mutex at the end of the routine *)

#[export] Instance mpc_eq_dec : EqDecision mpc.
Proof. solve_decision. Defined.

(** What a thread in the body of a routine does next. *)
Inductive action := CondWait (c : Z) | CondSignal (c : Z) | Leave.

Record monitor := mkMonitor {
  mpcs : Z → mpc;
  m_mutex : asem;
  m_next : asem;
  next_count : Z;
  cv_sem : Z → asem;
  cv_count : Z → Z
}.

(** [monitor_init]; the memory for the condition variables is there. *)
Definition monitor_init : monitor :=
  mkMonitor (λ _, Outside) (mkAsem 1 []) (mkAsem 0 []) 0 (λ _, mkAsem 0 []) (λ _, 0).

Definition set_mpc (t : Z) (p : mpc) (x : monitor) : monitor :=
  mkMonitor (<[t := p]> (mpcs x)) (m_mutex x) (m_next x) (next_count x) (cv_sem x) (cv_count x).
Definition set_m_mutex (a : asem) (x : monitor) : monitor :=
  mkMonitor (mpcs x) a (m_next x) (next_count x) (cv_sem x) (cv_count x).
Definition set_m_next (a : asem) (x : monitor) : monitor :=
  mkMonitor (mpcs x) (m_mutex x) a (next_count x) (cv_sem x) (cv_count x).
Definition set_next_count (v : Z) (x : monitor) : monitor :=
  mkMonitor (mpcs x) (m_mutex x) (m_next x) v (cv_sem x) (cv_count x).
Definition set_cv_sem (c : Z) (a : asem) (x : monitor) : monitor :=
  mkMonitor (mpcs x) (m_mutex x) (m_next x) (next_count x) (<[c := a]> (cv_sem x)) (cv_count x).
Definition set_cv_count (c v : Z) (x : monitor) : monitor :=
  mkMonitor (mpcs x) (m_mutex x) (m_next x) (next_count x) (cv_sem x) (<[c := v]> (cv_count x)).

Definition m_resume (p : mpc) : mpc :=
  match p with EnterWait => Inside | WaitSleep c => WaitDec c | SigSleep => SigDec | p => p end.

Definition m_wake (o : option Z) (x : monitor) : monitor :=
  match o with Some t => set_mpc t (m_resume (mpcs x t)) x | None => x end.

Definition m_up_mutex (x : monitor) : monitor := let '(o, a) := a_up (m_mutex x) in m_wake o (set_m_mutex a x).
Definition m_up_next (x : monitor) : monitor := let '(o, a) := a_up (m_next x) in m_wake o (set_m_next a x).
Definition m_up_cv (c : Z) (x : monitor) : monitor := let '(o, a) := a_up (cv_sem x c) in m_wake o (set_cv_sem c a x).

(** [if (next_count > 0) up(&next); else up(&mutex);] *)
Definition m_release (x : monitor) : monitor := if 0 <? next_count x then m_up_next x else m_up_mutex x.

(** One step of [cond_wait] resp. [cond_signal] for thread [t]. *)
Definition cond_wait (t : Z) (x : monitor) : option monitor :=
  match mpcs x t with
  | WaitInc c => Some (set_mpc t (WaitUp c) (set_cv_count c (cv_count x c + 1) x))
  | WaitUp c => Some (set_mpc t (WaitDown c) (m_release x))
  | WaitDown c => let '(b, a) := a_down t (cv_sem x c) in
                  Some (set_mpc t (if b : bool then WaitDec c else WaitSleep c) (set_cv_sem c a x))
  | WaitDec c => Some (set_mpc t Inside (set_cv_count c (cv_count x c - 1) x))
  | _ => None
  end.

Definition cond_signal (t : Z) (x : monitor) : option monitor :=
  match mpcs x t with
  | SigTest c => if 0 <? cv_count x c then Some (set_mpc t (SigUp c) (set_next_count (next_count x + 1) x))
                 else Some (set_mpc t Inside x)
  | SigUp c => Some (set_mpc t SigDown (m_up_cv c x))
  | SigDown => let '(b, a) := a_down t (m_next x) in
               Some (set_mpc t (if b : bool then SigDec else SigSleep) (set_m_next a x))
  | SigDec => Some (set_mpc t Inside (set_next_count (next_count x - 1) x))
  | _ => None
  end.

Definition mon_step (t : Z) (ac : action) (x : monitor) : option monitor :=
  match mpcs x t with
  | Outside => Some (set_mpc t EnterDown x)
  | EnterDown => let '(b, a) := a_down t (m_mutex x) in
                 Some (set_mpc t (if b : bool then Inside else EnterWait) (set_m_mutex a x))
  | EnterWait | WaitSleep _ | SigSleep => None
  | Inside => Some (set_mpc t (match ac with CondWait c => WaitInc c | CondSignal c => SigTest c | Leave => LeaveUp end) x)
  | WaitInc _ | WaitUp _ | WaitDown _ | WaitDec _ => cond_wait t x
  | SigTest _ | SigUp _ | SigDown | SigDec => cond_signal t x
  | LeaveUp => Some (set_mpc t Outside (m_release x))
  end.

Fixpoint mon_run (l : list (Z * action)) (x : monitor) : option monitor :=
  match l with [] => Some x | (t, ac) :: l => mon_step t ac x ≫= mon_run l end.

(** The thread has the monitor. *)
Definition active (p : mpc) : bool :=
  match p with
  | Inside | WaitInc _ | WaitUp _ | WaitDec _ | SigTest _ | SigUp _ | SigDec | LeaveUp => true
  | _ => false
  end.

(** The thread is counted in [cvp->count], resp. in [next_count]. *)
Definition counted (c : Z) (p : mpc) : bool :=
  match p with WaitUp d | WaitDown d | WaitSleep d | WaitDec d => bool_decide (d = c) | _ => false end.
Definition signalling (p : mpc) : bool :=
  match p with SigUp _ | SigDown | SigSleep | SigDec => true | _ => false end.

(** The three kinds of semaphores, uniformly. *)
Inductive semid := SMutex | SNext | SCv (c : Z).

#[export] Instance semid_eq_dec : EqDecision semid.
Proof. solve_decision. Defined.

Section monitor.
(** The threads and the condition variables of the monitor. *)
Context (threads cvs : list Z) (threads_nodup : NoDup threads) (cvs_nodup : NoDup cvs).

(** The right to be active: with a thread, or left in a semaphore. *)
Definition tokens (x : monitor) : Z :=
  avalue (m_mutex x) + avalue (m_next x) + zsum (λ c, avalue (cv_sem x c)) cvs +
  zsum (λ t, b2z (active (mpcs x t))) threads.

(** [a] is waited on by exactly the threads at [p]. *)
Definition sem_at (x : monitor) (a : asem) (p : mpc) : Prop :=
  asem_ok a ∧ NoDup (awaiters a) ∧ ∀ t, t ∈ awaiters a ↔ t ∈ threads ∧ mpcs x t = p.

Definition cv_of (p : mpc) : option Z :=
  match p with
  | WaitInc c | WaitUp c | WaitDown c | WaitSleep c | WaitDec c | SigTest c | SigUp c => Some c
  | _ => None
  end.

Record mon_inv (x : monitor) : Prop := {
  mo_mutex : sem_at x (m_mutex x) EnterWait;
  mo_next : sem_at x (m_next x) SigSleep;
  mo_cv : ∀ c, c ∈ cvs → sem_at x (cv_sem x c) (WaitSleep c);
  mo_tokens : tokens x = 1;
  mo_count : ∀ c, c ∈ cvs → cv_count x c = zsum (λ t, b2z (counted c (mpcs x t))) threads;
  mo_next_count : next_count x = zsum (λ t, b2z (signalling (mpcs x t))) threads;
  mo_cvs : ∀ t c, t ∈ threads → cv_of (mpcs x t) = Some c → c ∈ cvs
}.

(** A sum over the threads after thread [t] has moved to [p]. *)
Lemma zsum_pc (g : mpc → Z) (pcs : Z → mpc) t p :
  t ∈ threads →
  zsum (λ u, g (<[t := p]> pcs u)) threads = zsum (λ u, g (pcs u)) threads - g (pcs t) + g p.
Proof.
  intros Ht. rewrite (zsum_change _ (λ u, g (pcs u)) threads t); [|done|done|].
  - by rewrite fn_lookup_insert.
  - intros u _ Hu. by rewrite fn_lookup_insert_ne by congruence.
Qed.

Lemma zsum_cv (f : Z → asem) c a :
  c ∈ cvs →
  zsum (λ u, avalue (<[c := a]> f u)) cvs = zsum (λ u, avalue (f u)) cvs - avalue (f c) + avalue a.
Proof.
  intros Hc. rewrite (zsum_change _ (λ u, avalue (f u)) cvs c); [|done|done|].
  - by rewrite fn_lookup_insert.
  - intros u _ Hu. by rewrite fn_lookup_insert_ne by congruence.
Qed.

Lemma mon_inv_init : mon_inv monitor_init.
Proof.
  assert (∀ a p, awaiters a = [] → 0 ≤ avalue a → p ≠ Outside → sem_at monitor_init a p) as Hs.
  { intros a p Ha Hv Hp. split_and!; [by split|rewrite Ha; constructor|]. intros t. rewrite Ha. cbn. set_solver. }
  split; cbn.
  - by apply Hs.
  - by apply Hs.
  - intros. by apply Hs.
  - unfold tokens, zsum. cbn. rewrite !zsum_const0 by done. done.
  - intros c _. unfold zsum. by rewrite zsum_const0.
  - unfold zsum. by rewrite zsum_const0.
  - done.
Qed.

Definition sid_ok (k : semid) : Prop := match k with SCv c => c ∈ cvs | _ => True end.
Definition sget (x : monitor) (k : semid) : asem :=
  match k with SMutex => m_mutex x | SNext => m_next x | SCv c => cv_sem x c end.
Definition sset (k : semid) (a : asem) (x : monitor) : monitor :=
  match k with SMutex => set_m_mutex a x | SNext => set_m_next a x | SCv c => set_cv_sem c a x end.
Definition sleep_at (k : semid) : mpc :=
  match k with SMutex => EnterWait | SNext => SigSleep | SCv c => WaitSleep c end.
Definition before (k : semid) : mpc :=
  match k with SMutex => EnterDown | SNext => SigDown | SCv c => WaitDown c end.
Definition sup (k : semid) (x : monitor) : monitor :=
  let '(o, a) := a_up (sget x k) in m_wake o (sset k a x).

Definition asleep (p : mpc) : bool :=
  match p with EnterWait | SigSleep | WaitSleep _ => true | _ => false end.

Lemma asleep_spec p : asleep p = false ↔ ∀ k, p ≠ sleep_at k.
Proof.
  split; [by intros Hp [| |c] ->|]. intros Hp. destruct p; try done.
  - by destruct (Hp SMutex).
  - by destruct (Hp (SCv c)).
  - by destruct (Hp SNext).
Qed.

Lemma sleep_at_inj k k' : sleep_at k = sleep_at k' → k = k'.
Proof. by destruct k, k'; intros [=]; subst. Qed.

Lemma sget_sset k k' a x : sget (sset k a x) k' = if decide (k' = k) then a else sget x k'.
Proof.
  case_decide as Hk; [subst k'; destruct k; cbn; try done; by rewrite fn_lookup_insert|].
  destruct k, k'; cbn; try done. rewrite fn_lookup_insert_ne; [done|]. congruence.
Qed.

Lemma sset_frame k a x :
  mpcs (sset k a x) = mpcs x ∧ next_count (sset k a x) = next_count x ∧ cv_count (sset k a x) = cv_count x.
Proof. by destruct k. Qed.

Definition values_sum (x : monitor) : Z :=
  avalue (m_mutex x) + avalue (m_next x) + zsum (λ c, avalue (cv_sem x c)) cvs.

Lemma values_sum_sset k a x :
  sid_ok k → values_sum (sset k a x) = values_sum x - avalue (sget x k) + avalue a.
Proof. intros Hk. destruct k; unfold values_sum; cbn; [lia|lia|]. rewrite zsum_cv by done. lia. Qed.

Definition actives (x : monitor) : Z := zsum (λ t, b2z (active (mpcs x t))) threads.

(** The invariant with the semaphores taken uniformly. *)
Lemma mon_inv_alt x :
  mon_inv x ↔
  (∀ k, sid_ok k → sem_at x (sget x k) (sleep_at k)) ∧ values_sum x + actives x = 1 ∧
  (∀ c, c ∈ cvs → cv_count x c = zsum (λ t, b2z (counted c (mpcs x t))) threads) ∧
  next_count x = zsum (λ t, b2z (signalling (mpcs x t))) threads ∧
  (∀ t c, t ∈ threads → cv_of (mpcs x t) = Some c → c ∈ cvs).
Proof.
  split.
  - intros [Hm Hn Hc Ht Hcc Hnc Hv]. split_and!; try done. intros [| |c] Hk; cbn; auto.
  - intros (Hs & Ht & Hcc & Hnc & Hv). split; try done.
    + by apply (Hs SMutex).
    + by apply (Hs SNext).
    + intros c Hc. by apply (Hs (SCv c)).
Qed.

(** A move of thread [t] seen by the waiting list of one semaphore. *)
Lemma sem_at_pc x x' a p : (∀ t, t ∈ threads → mpcs x' t = p ↔ mpcs x t = p) → sem_at x a p → sem_at x' a p.
Proof. intros Hpc (Hok & Hnd & Hin). split_and!; [done|done|]. intros t. rewrite Hin. naive_solver. Qed.

Lemma actives_pc x t p : t ∈ threads → actives (set_mpc t p x) = actives x - b2z (active (mpcs x t)) + b2z (active p).
Proof. apply (zsum_pc (λ q, b2z (active q))). Qed.

(** A thread moves on without a semaphore operation; the two counters change by
    what the thread contributes to them. *)
Lemma mon_inv_move x x' t p :
  mon_inv x → t ∈ threads → asleep (mpcs x t) = false → asleep p = false → active p = active (mpcs x t) →
  mpcs x' = <[t := p]> (mpcs x) → (∀ k, sget x' k = sget x k) →
  (∀ c, c ∈ cvs → cv_count x' c = cv_count x c - b2z (counted c (mpcs x t)) + b2z (counted c p)) →
  next_count x' = next_count x - b2z (signalling (mpcs x t)) + b2z (signalling p) →
  (∀ c, cv_of p = Some c → c ∈ cvs) → mon_inv x'.
Proof.
  intros (Hs & Htok & Hcc & Hnc & Hv)%mon_inv_alt Ht Hna Hnp Hact Hpcs Hget Hcnt Hncnt Hcv. apply mon_inv_alt. split_and!.
  - intros k Hk. rewrite Hget. apply (sem_at_pc x); [|by apply Hs]. intros u _. rewrite Hpcs.
    destruct (decide (u = t)) as [->|]; [|by rewrite fn_lookup_insert_ne by congruence].
    rewrite fn_lookup_insert. rewrite asleep_spec in Hna. rewrite asleep_spec in Hnp.
    specialize (Hna k). specialize (Hnp k). tauto.
  - assert (values_sum x' = values_sum x) as ->.
    { unfold values_sum. rewrite (Hget SMutex : m_mutex x' = _), (Hget SNext : m_next x' = _). f_equal.
      apply zsum_ext. intros c _. by rewrite (Hget (SCv c) : cv_sem x' c = _). }
    unfold actives. rewrite Hpcs, (zsum_pc (λ q, b2z (active q))) by done. rewrite Hact. fold (actives x). lia.
  - intros c Hc. rewrite Hpcs, (zsum_pc (λ q, b2z (counted c q))) by done. rewrite Hcnt, Hcc by done. lia.
  - rewrite Hpcs, (zsum_pc (λ q, b2z (signalling q))) by done. rewrite Hncnt, Hnc. lia.
  - intros u c Hu. rewrite Hpcs. destruct (decide (u = t)) as [->|]; [rewrite fn_lookup_insert; apply Hcv|].
    rewrite fn_lookup_insert_ne by congruence. by apply Hv.
Qed.

(** [down]: thread [t] takes semaphore [k] or goes to sleep on it. *)
Lemma mon_inv_down x t k :
  mon_inv x → t ∈ threads → sid_ok k → mpcs x t = before k →
  mon_inv (let '(b, a) := a_down t (sget x k) in
           set_mpc t (if b : bool then m_resume (sleep_at k) else sleep_at k) (sset k a x)).
Proof.
  intros (Hs & Htok & Hcc & Hnc & Hv)%mon_inv_alt Ht Hk Hpc. destruct (Hs k Hk) as (Hok & Hnd & Hin).
  pose proof (a_down_ok t _ Hok) as Hok'. unfold a_down in *.
  set (b := 0 <? avalue (sget x k)). set (p := if b then m_resume (sleep_at k) else sleep_at k).
  set (a := if b then mkAsem (avalue (sget x k) - 1) (awaiters (sget x k)) else mkAsem (avalue (sget x k)) (awaiters (sget x k) ++ [t])).
  assert (active p = b ∧ active (before k) = false ∧ (∀ c, counted c p = counted c (before k)) ∧
    signalling p = signalling (before k) ∧ (∀ c, cv_of p = Some c → c ∈ cvs) ∧
    (∀ k', p = sleep_at k' ↔ k' = k ∧ b = false) ∧ (∀ k', before k ≠ sleep_at k'))
    as (Ha & Hab & Hcp & Hsp & Hcvp & Hsl & Hbk).
  { unfold p. destruct b, k as [| |c]; cbn; split_and!; try done; try (by intros ? [= <-]); try (by intros []);
      intros k'; split; try (by intros []); destruct k'; cbn; try done; try (by intros [= ->]); by intros [[= ->] _]. }
  destruct (sset_frame k a x) as (Hf1 & Hf2 & Hf3).
  cut (mon_inv (set_mpc t p (sset k a x))).
  { unfold p, a, b. destruct (0 <? avalue (sget x k)); done. }
  apply mon_inv_alt. cbn [next_count cv_count set_mpc mpcs]. rewrite Hf1, Hf2, Hf3. split_and!.
  - intros k' Hk'. change (sget (set_mpc t p (sset k a x)) k') with (sget (sset k a x) k').
    rewrite sget_sset. case_decide as Hkk; [subst k'|].
    + split_and!.
      * unfold a, b. by destruct (0 <? avalue (sget x k)).
      * unfold a. destruct b; cbn; [done|]. apply NoDup_app. split_and!; [done| |apply NoDup_singleton].
        intros u Hu Hut%list_elem_of_singleton. subst u. apply Hin in Hu as [_ Hu]. by rewrite Hpc in Hu; apply Hbk in Hu.
      * intros u. cbn [mpcs set_mpc]. rewrite Hf1. specialize (Hin u).
        assert (u ∈ awaiters a ↔ u ∈ awaiters (sget x k) ∨ (u = t ∧ b = false)) as ->.
        { unfold a. destruct b; cbn; [naive_solver|]. rewrite elem_of_app, list_elem_of_singleton. naive_solver. }
        rewrite Hin. destruct (decide (u = t)) as [->|Hne].
        -- rewrite fn_lookup_insert, Hsl, Hpc. pose proof (Hbk k). naive_solver.
        -- rewrite fn_lookup_insert_ne by congruence. naive_solver.
    + apply (sem_at_pc x); [|by apply Hs]. intros u _. cbn [mpcs set_mpc]. rewrite Hf1.
      destruct (decide (u = t)) as [->|]; [|by rewrite fn_lookup_insert_ne by congruence].
      rewrite fn_lookup_insert, Hsl, Hpc. pose proof (Hbk k'). naive_solver.
  - change (values_sum (set_mpc t p (sset k a x))) with (values_sum (sset k a x)).
    rewrite values_sum_sset by done. rewrite actives_pc by done. rewrite Hf1, Hpc, Ha, Hab.
    replace (actives (sset k a x)) with (actives x) by (unfold actives; by rewrite Hf1).
    unfold a, b. destruct (Z.ltb_spec 0 (avalue (sget x k))); cbn; lia.
  - intros c Hc. rewrite (zsum_pc (λ q, b2z (counted c q))) by done. rewrite Hpc, Hcp, Hcc by done. lia.
  - rewrite (zsum_pc (λ q, b2z (signalling q))) by done. rewrite Hpc, Hsp. lia.
  - intros u c Hu. destruct (decide (u = t)) as [->|]; [rewrite fn_lookup_insert; apply Hcvp|].
    rewrite fn_lookup_insert_ne by congruence. by apply Hv.
Qed.

(** [up]: thread [t] gives its right to be active to semaphore [k] or to the thread
    that has waited longest on it. *)
Lemma mon_inv_up x t k p :
  mon_inv x → t ∈ threads → sid_ok k → active (mpcs x t) = true → active p = false → asleep p = false →
  (∀ c, counted c p = counted c (mpcs x t)) → signalling p = signalling (mpcs x t) →
  (∀ c, cv_of p = Some c → c ∈ cvs) →
  mon_inv (set_mpc t p (sup k x)).
Proof.
  intros (Hs & Htok & Hcc & Hnc & Hv)%mon_inv_alt Ht Hk Hat Hap Hnp Hcp Hsp Hcvp.
  destruct (Hs k Hk) as (Hok & Hnd & Hin). pose proof (a_up_ok _ Hok) as Hok'.
  assert (asleep (mpcs x t) = false) as Hnt by (by destruct (mpcs x t)).
  pose proof (proj1 (asleep_spec _) Hnt) as Hnt'. pose proof (proj1 (asleep_spec _) Hnp) as Hnp'.
  assert (∀ u, b2z (active (mpcs x u)) = b2z (active (mpcs x u))) by done.
  unfold sup, a_up in *. destruct (awaiters (sget x k)) as [|u us] eqn:Eaw; cbn [m_wake snd] in *.
  - set (a := mkAsem (avalue (sget x k) + 1) []) in *. destruct (sset_frame k a x) as (Hf1 & Hf2 & Hf3).
    apply mon_inv_alt. cbn [next_count cv_count set_mpc mpcs]. rewrite Hf1, Hf2, Hf3. split_and!.
    + intros k' Hk'. change (sget (set_mpc t p (sset k a x)) k') with (sget (sset k a x) k').
      assert (sem_at x (sget (sset k a x) k') (sleep_at k')) as Hsx.
      { rewrite sget_sset. case_decide as Hkk; [subst k'|by apply Hs]. by split_and!; [|constructor|]. }
      apply (sem_at_pc x); [|done]. intros v _. cbn [mpcs set_mpc]. rewrite Hf1.
      destruct (decide (v = t)) as [->|]; [rewrite fn_lookup_insert|by rewrite fn_lookup_insert_ne by congruence].
      specialize (Hnt' k'). specialize (Hnp' k'). tauto.
    + change (values_sum (set_mpc t p (sset k a x))) with (values_sum (sset k a x)).
      rewrite values_sum_sset, actives_pc by done. rewrite Hf1, Hat, Hap.
      replace (actives (sset k a x)) with (actives x) by (unfold actives; by rewrite Hf1). cbn. lia.
    + intros c Hc. rewrite (zsum_pc (λ q, b2z (counted c q))) by done. rewrite Hcp, Hcc by done. lia.
    + rewrite (zsum_pc (λ q, b2z (signalling q))) by done. rewrite Hsp. lia.
    + intros v c Hvt. destruct (decide (v = t)) as [->|]; [rewrite fn_lookup_insert; apply Hcvp|].
      rewrite fn_lookup_insert_ne by congruence. by apply Hv.
  - set (a := mkAsem (avalue (sget x k)) us) in *. destruct (sset_frame k a x) as (Hf1 & Hf2 & Hf3).
    destruct (proj1 (Hin u)) as [Hu Hpu]; [set_solver|]. apply NoDup_cons in Hnd as [Huus Hnd].
    assert (u ≠ t) as Hut by (intros ->; by apply (Hnt' k)).
    set (r := m_resume (sleep_at k)). rewrite Hf1, Hpu. fold r.
    assert (active r = true ∧ active (sleep_at k) = false ∧ asleep r = false ∧ (∀ c, counted c r = counted c (sleep_at k)) ∧
      signalling r = signalling (sleep_at k) ∧ (∀ c, cv_of r = Some c → c ∈ cvs)) as (Hr1 & Hr2 & Hr3 & Hr4 & Hr5 & Hr6).
    { unfold r. destruct k; cbn; split_and!; try done. by intros ? [= <-]. }
    pose proof (proj1 (asleep_spec _) Hr3) as Hr3'.
    assert (∀ v, <[t := p]> (<[u := r]> (mpcs x)) v = if decide (v = t) then p else if decide (v = u) then r else mpcs x v) as Hpcs.
    { intros v. destruct (decide (v = t)) as [->|]; [by rewrite fn_lookup_insert|].
      rewrite fn_lookup_insert_ne by congruence. destruct (decide (v = u)) as [->|]; [by rewrite fn_lookup_insert|].
      by rewrite fn_lookup_insert_ne by congruence. }
    apply mon_inv_alt. cbn [next_count cv_count set_mpc mpcs]. rewrite Hf1, Hf2, Hf3. split_and!.
    + intros k' Hk'. change (sget (set_mpc t p (set_mpc u r (sset k a x))) k') with (sget (sset k a x) k').
      rewrite sget_sset. case_decide as Hkk; [subst k'|].
      * split_and!; [done|done|]. intros v. cbn [mpcs set_mpc awaiters a]. rewrite Hf1, Hpcs.
        specialize (Hin v). rewrite elem_of_cons in Hin. specialize (Hnp' k). specialize (Hr3' k). specialize (Hnt' k).
        destruct (decide (v = t)) as [->|]; [|destruct (decide (v = u)) as [->|]]; naive_solver.
      * apply (sem_at_pc x); [|by apply Hs]. intros v _. cbn [mpcs set_mpc]. rewrite Hf1, Hpcs.
        specialize (Hnp' k'). specialize (Hr3' k'). specialize (Hnt' k').
        destruct (decide (v = t)) as [->|]; [tauto|]. destruct (decide (v = u)) as [->|]; [|done].
        rewrite Hpu. split; [done|]. intros E%sleep_at_inj. congruence.
    + change (values_sum (set_mpc t p (set_mpc u r (sset k a x)))) with (values_sum (sset k a x)).
      rewrite values_sum_sset, !actives_pc by done. cbn [mpcs set_mpc]. rewrite fn_lookup_insert_ne by done.
      rewrite Hf1, Hpu, Hat, Hap, Hr1, Hr2.
      replace (actives (sset k a x)) with (actives x) by (unfold actives; by rewrite Hf1). cbn. lia.
    + intros c Hc. rewrite !(zsum_pc (λ q, b2z (counted c q))) by done. rewrite fn_lookup_insert_ne by done.
      rewrite Hcp, Hpu, Hr4, Hcc by done. lia.
    + rewrite !(zsum_pc (λ q, b2z (signalling q))) by done. rewrite fn_lookup_insert_ne by done. rewrite Hsp, Hpu, Hr5. lia.
    + intros v c Hvt. rewrite Hpcs. repeat case_decide; [apply Hcvp|apply Hr6|by apply Hv].
Qed.

Lemma m_release_sup x : m_release x = sup SNext x ∨ m_release x = sup SMutex x.
Proof. unfold m_release. destruct (0 <? next_count x); [by left|by right]. Qed.

Lemma mon_inv_release x t p :
  mon_inv x → t ∈ threads → active (mpcs x t) = true → active p = false → asleep p = false →
  (∀ c, counted c p = counted c (mpcs x t)) → signalling p = signalling (mpcs x t) →
  (∀ c, cv_of p = Some c → c ∈ cvs) →
  mon_inv (set_mpc t p (m_release x)).
Proof. intros. destruct (m_release_sup x) as [-> | ->]; by apply mon_inv_up. Qed.

Definition action_ok (ac : action) : Prop :=
  match ac with CondWait c | CondSignal c => c ∈ cvs | Leave => True end.

Lemma mon_step_inv t ac x x' :
  mon_inv x → t ∈ threads → action_ok ac → mon_step t ac x = Some x' → mon_inv x'.
Proof.
  intros Hinv Ht Hac Hstep. pose proof (mo_cvs _ Hinv t) as Hcv.
  pose proof (mon_inv_down x t) as Hdown. unfold sset, sget in Hdown.
  assert (∀ c v d, (if decide (d = c) then cv_count x c + v else cv_count x d) = <[c := cv_count x c + v]> (cv_count x) d) as Hins.
  { intros c v d. case_decide; [subst; by rewrite fn_lookup_insert|by rewrite fn_lookup_insert_ne by congruence]. }
  unfold mon_step, cond_wait, cond_signal in Hstep. destruct (mpcs x t) eqn:Hp; try discriminate Hstep.
  - injection Hstep as <-. apply (mon_inv_move x _ t EnterDown); rewrite ?Hp; try done; intros; cbn; lia.
  - specialize (Hdown SMutex Hinv Ht I eq_refl). cbn in Hdown. destruct (a_down t (m_mutex x)) as [b a]. by injection Hstep as <-.
  - injection Hstep as <-. destruct ac as [c|c|]; (eapply (mon_inv_move x _ t); [done|done|..|reflexivity| | | |]);
      rewrite ?Hp; try done; try (intros; cbn; lia); by intros ? [= <-].
  - injection Hstep as <-. apply (mon_inv_move x _ t (WaitUp c)); rewrite ?Hp; try done; [|cbn; lia|by intros ? [= <-]; auto].
    intros d Hd. cbn. rewrite <- Hins. case_decide; [subst; rewrite bool_decide_true by done|rewrite bool_decide_false by congruence]; cbn; lia.
  - injection Hstep as <-. apply mon_inv_release; rewrite ?Hp; try done. by intros ? [= <-]; auto.
  - specialize (Hdown (SCv c) Hinv Ht (Hcv c Ht eq_refl) eq_refl). cbn in Hdown.
    destruct (a_down t (cv_sem x c)) as [b a]. by injection Hstep as <-.
  - injection Hstep as <-. apply (mon_inv_move x _ t Inside); rewrite ?Hp; try done; [|cbn; lia].
    intros d Hd. cbn. change (cv_count x c - 1) with (cv_count x c + -1). rewrite <- Hins.
    case_decide; [subst; rewrite bool_decide_true by done|rewrite bool_decide_false by congruence]; cbn; lia.
  - destruct (0 <? cv_count x c); injection Hstep as <-.
    + apply (mon_inv_move x _ t (SigUp c)); rewrite ?Hp; try done; [intros; cbn; lia|cbn; lia|by intros ? [= <-]; auto].
    + apply (mon_inv_move x _ t Inside); rewrite ?Hp; try done; intros; cbn; lia.
  - injection Hstep as <-. change (m_up_cv c x) with (sup (SCv c) x).
    apply mon_inv_up; rewrite ?Hp; try done. cbn. auto.
  - specialize (Hdown SNext Hinv Ht I eq_refl). cbn in Hdown. destruct (a_down t (m_next x)) as [b a]. by injection Hstep as <-.
  - injection Hstep as <-. apply (mon_inv_move x _ t Inside); rewrite ?Hp; try done; intros; cbn; lia.
  - injection Hstep as <-. apply mon_inv_release; by rewrite ?Hp.
Qed.

Lemma mon_run_inv l x x' :
  mon_inv x → Forall (λ ta, ta.1 ∈ threads ∧ action_ok ta.2) l → mon_run l x = Some x' → mon_inv x'.
Proof.
  revert x. induction l as [|[t ac] l IH]; intros x Hinv Hl; cbn [mon_run]; [by intros [= <-]|].
  apply Forall_cons in Hl as [[Ht Hac] Hl]. intros (x1 & Hs & Hr)%bind_Some. eauto using mon_step_inv.
Qed.


(** [cvp->count] is the number of threads inside [cond_wait] and
    [next_count] the number of threads suspended inside [cond_signal], so a signal
    takes effect exactly if some thread waits. *)
Theorem monitor_counts l x :
  Forall (λ ta, ta.1 ∈ threads ∧ action_ok ta.2) l → mon_run l monitor_init = Some x →
  next_count x = zsum (λ t, b2z (signalling (mpcs x t))) threads ∧
  ∀ c t, c ∈ cvs → t ∈ threads →
    cv_count x c = zsum (λ t, b2z (counted c (mpcs x t))) threads ∧
    (mpcs x t = SigTest c → ∃ x', mon_step t Leave x = Some x' ∧
       (mpcs x' t = SigUp c ↔ ∃ u, u ∈ threads ∧ counted c (mpcs x u) = true)).
Proof.
  intros Hl Hr. pose proof (mon_run_inv _ _ _ mon_inv_init Hl Hr) as Hinv. destruct Hinv as [_ _ _ _ Hcc Hnc _].
  split; [done|]. intros c t Hc Ht. split; [by apply Hcc|]. intros Hp.
  assert (0 < cv_count x c ↔ ∃ u, u ∈ threads ∧ counted c (mpcs x u) = true) as Hpos.
  { rewrite Hcc by done. split.
    - intros Hlt. destruct (decide (Exists (λ u, counted c (mpcs x u) = true) threads)) as [He|He];
        [by apply Exists_exists in He|].
      rewrite (zsum_ext _ (λ _, 0) threads) in Hlt; [unfold zsum in Hlt; rewrite zsum_const0 in Hlt by done; lia|].
      intros v Hv. destruct (counted c (mpcs x v)) eqn:E; [|done]. exfalso. apply He, Exists_exists. eauto.
    - intros (u & Hu & Hcu). pose proof (zsum_change (λ v, b2z (counted c (mpcs x v)))
        (λ v, if decide (v = u) then 0 else b2z (counted c (mpcs x v))) threads u threads_nodup Hu) as ->.
      2:{ intros v _ Hv. by rewrite decide_False. }
      rewrite decide_True, Hcu by done. cbn.
      assert (0 ≤ zsum (λ v, if decide (v = u) then 0 else b2z (counted c (mpcs x v))) threads); [|lia].
      apply zsum_nonneg. intros v _. case_decide; [lia|]. by destruct (counted c (mpcs x v)). }
  unfold mon_step, cond_signal. rewrite Hp. destruct (Z.ltb_spec 0 (cv_count x c)).
  - eexists. split; [done|]. cbn. rewrite fn_lookup_insert. tauto.
  - eexists. split; [done|]. cbn. rewrite fn_lookup_insert. split; [done|]. intros Hex%Hpos. lia.
Qed.
End monitor.

(** *** Two threads and one condition variable: 1 waits, 2 enters and is about to signal. *)
Definition demo_mon_run : list (Z * action) :=
  [(1, Leave); (1, Leave); (1, CondWait 0); (1, Leave); (1, Leave); (1, Leave); (2, Leave); (2, Leave); (2, CondSignal 0)].

Lemma demo_mon_run_ok : Forall (λ ta, ta.1 ∈ [1; 2] ∧ action_ok [0] ta.2) demo_mon_run.
Proof. repeat constructor; cbn; set_solver. Qed.

Lemma demo_threads_nodup : NoDup [1; 2].
Proof. refine (bool_decide_unpack _ _). by vm_compute. Qed.


Lemma monitor_counts_witness :
  ∃ x, mon_run demo_mon_run monitor_init = Some x ∧
    next_count x = zsum (λ t, b2z (signalling (mpcs x t))) [1; 2] ∧
    ∀ c t, c ∈ [0] → t ∈ [1; 2] →
      cv_count x c = zsum (λ t, b2z (counted c (mpcs x t))) [1; 2] ∧
      (mpcs x t = SigTest c → ∃ x', mon_step t Leave x = Some x' ∧
         (mpcs x' t = SigUp c ↔ ∃ u, u ∈ [1; 2] ∧ counted c (mpcs x u) = true)).
Proof.
  eexists. split; [reflexivity|].
  apply (monitor_counts [1; 2] [0] demo_threads_nodup (NoDup_singleton 0) demo_mon_run);
    [apply demo_mon_run_ok|reflexivity].
Defined.
