(* ===== verification/Paging.v ===== *)
(** * kern/mm/pmm.c, kern/mm/swap.c, kern/mm/swap_fifo.c: page tables and swapping

    [vmem] is the physical memory as an array of words per page frame, the [ref] and
    [pra_vaddr] fields of [struct Page], the state of the page allocator behind
    [pmm_manager], the TLB of the processor and the swap area.  A frame is named by
    its page number, a page directory by the frame that holds it, and a [pte_t *] by
    frame and index.  [libs/list.h] is verified in [ListH]; the list of swappable pages
    is kept as a sequence.

    The theorems see the page tables through [walk], the entry that the hardware would
    find for a page number of the user address space. *)

From stdpp Require Import functions.
From S2P Require Import Prelude ListH DefaultPmm PmmManager Vmm.

(** ** kern/mm/mmu.h, kern/mm/memlayout.h, kern/mm/swap.h *)

Definition PDX (la : Z) : Z := Z.land (Z.shiftr la 22) 0x3FF.
Definition PTX (la : Z) : Z := Z.land (Z.shiftr la 12) 0x3FF.
Definition PPN (la : Z) : Z := Z.shiftr la 12.
Definition PGOFF (la : Z) : Z := Z.land la 0xFFF.

Definition PTE_P : Z := 0x001.
Definition PTE_W : Z := 0x002.
Definition PTE_U : Z := 0x004.
Definition PTE_USER : Z := Z.lor (Z.lor PTE_U PTE_W) PTE_P.

Definition PTE_ADDR (pte : Z) : Z := Z.ldiff pte 0xFFF.

(** [pte & PTE_P] as a truth value. *)
Definition present (pte : Z) : bool := negb (Z.land pte PTE_P =? 0).

Definition MAX_SWAP_OFFSET_LIMIT : Z := Z.shiftl 1 24.

(** ** State *)

Record vmem (S : Type) := mkVm {
  mgr : S;                      (* the pmm_manager's data *)
  npage : Z;
  page_refs : Z → Z;            (* pages[i].ref *)
  pra_vaddr : Z → Z;            (* pages[i].pra_vaddr *)
  phys : Z → Z → Z;             (* word i of frame p *)
  tlb : gmap Z Z;               (* cached entries by page number *)
  rcr3 : Z;                     (* frame of the current page directory *)
  swap_init_ok : bool;
  check_mm_struct : option mm_struct;
  pra_list : list Z;            (* pra_list_head, from head->next on *)
  swap_area : Z → Z → Z;        (* page images by swap offset *)
  max_swap_offset : Z
}.
Arguments mkVm {S}.
Arguments mgr {S}.
Arguments npage {S}.
Arguments page_refs {S}.
Arguments pra_vaddr {S}.
Arguments phys {S}.
Arguments tlb {S}.
Arguments rcr3 {S}.
Arguments swap_init_ok {S}.
Arguments check_mm_struct {S}.
Arguments pra_list {S}.
Arguments swap_area {S}.
Arguments max_swap_offset {S}.

Section setters.
Context {S : Type}.
Implicit Types vm : vmem S.

Definition set_mgr x vm : vmem S := mkVm x (npage vm) (page_refs vm) (pra_vaddr vm) (phys vm) (tlb vm) (rcr3 vm)
  (swap_init_ok vm) (check_mm_struct vm) (pra_list vm) (swap_area vm) (max_swap_offset vm).
Definition set_ref (p v : Z) vm : vmem S := mkVm (mgr vm) (npage vm) (<[p := v]> (page_refs vm)) (pra_vaddr vm) (phys vm)
  (tlb vm) (rcr3 vm) (swap_init_ok vm) (check_mm_struct vm) (pra_list vm) (swap_area vm) (max_swap_offset vm).
Definition set_pra_vaddr (p v : Z) vm : vmem S := mkVm (mgr vm) (npage vm) (page_refs vm) (<[p := v]> (pra_vaddr vm))
  (phys vm) (tlb vm) (rcr3 vm) (swap_init_ok vm) (check_mm_struct vm) (pra_list vm) (swap_area vm) (max_swap_offset vm).
Definition set_frame (p : Z) (w : Z → Z) vm : vmem S := mkVm (mgr vm) (npage vm) (page_refs vm) (pra_vaddr vm)
  (<[p := w]> (phys vm)) (tlb vm) (rcr3 vm) (swap_init_ok vm) (check_mm_struct vm) (pra_list vm) (swap_area vm)
  (max_swap_offset vm).
Definition set_tlb t vm : vmem S := mkVm (mgr vm) (npage vm) (page_refs vm) (pra_vaddr vm) (phys vm) t (rcr3 vm)
  (swap_init_ok vm) (check_mm_struct vm) (pra_list vm) (swap_area vm) (max_swap_offset vm).
Definition set_pra_list l vm : vmem S := mkVm (mgr vm) (npage vm) (page_refs vm) (pra_vaddr vm) (phys vm) (tlb vm)
  (rcr3 vm) (swap_init_ok vm) (check_mm_struct vm) l (swap_area vm) (max_swap_offset vm).
Definition set_swap_area a vm : vmem S := mkVm (mgr vm) (npage vm) (page_refs vm) (pra_vaddr vm) (phys vm) (tlb vm)
  (rcr3 vm) (swap_init_ok vm) (check_mm_struct vm) (pra_list vm) a (max_swap_offset vm).

(** [pgdir[i] = v], [*ptep = v] *)
Definition set_word (p i v : Z) vm : vmem S := set_frame p (<[i := v]> (phys vm p)) vm.

(** ** kern/mm/pmm.h *)

Definition KADDR vm (pa : Z) : res Z := assert! PPN pa <? npage vm ;; Ok (PPN pa).
Definition page2pa (p : Z) : Z := u32 (Z.shiftl p 12).
Definition pa2page vm (pa : Z) : res Z := assert! PPN pa <? npage vm ;; Ok (PPN pa).
Definition pte2page vm (pte : Z) : res Z := assert! present pte ;; pa2page vm (PTE_ADDR pte).
Definition pde2page vm (pde : Z) : res Z := pa2page vm (PTE_ADDR pde).

(** The kernel address of a page; [KADDR] and [PADDR] check their arguments. *)
Definition kva_of (p : Z) : Z := u32 (page2pa p + KERNBASE).
Definition page2kva (p : Z) vm : res Z := let! _ := KADDR vm (page2pa p) in Ok (kva_of p).
Definition kva2page (kva : Z) vm : res Z := assert! KERNBASE <=? kva ;; pa2page vm (u32 (kva - KERNBASE)).

Definition page_ref vm (p : Z) : Z := page_refs vm p.
Definition page_ref_inc (p : Z) vm : Z * vmem S :=
  let v := i32 (page_refs vm p + 1) in (v, set_ref p v vm).
Definition page_ref_dec (p : Z) vm : Z * vmem S :=
  let v := i32 (page_refs vm p - 1) in (v, set_ref p v vm).

(** [tlb_invalidate(pgdir, la)] *)
Definition tlb_invalidate (pgdir la : Z) vm : vmem S :=
  if decide (rcr3 vm = pgdir) then set_tlb (delete (PPN la) (tlb vm)) vm else vm.

(** [get_pte(pgdir, la, 0)] *)
Definition find_pte vm (pgdir la : Z) : res (option (Z * Z)) :=
  let pde := phys vm pgdir (PDX la) in
  if negb (present pde) then Ok None
  else let! t := KADDR vm (PTE_ADDR pde) in Ok (Some (t, PTX la)).

End setters.

(** [*ptep] *)
Abbreviation pte_at vm ptep := (phys vm (fst ptep) (snd ptep)).

Section pmm.
Context {S : Type} `{pmm_manager S}.
(** Whether the swap device reports an error for the page at an offset; a failing
    transfer moves nothing. *)
Context (ide_error : Z → bool).
Implicit Types vm : vmem S.

(** ** kern/mm/swap_fifo.c *)

(** The address of [pra_list_head]. *)
Definition pra_list_head : Z := 1.

Definition _fifo_init_mm (m : mm_struct) vm : mm_struct * vmem S :=
  (mkMm (mmap_list m) (mmap_cache m) (pgdir m) (map_count m) (Some pra_list_head) (mm_count m), set_pra_list [] vm).

Definition _fifo_map_swappable (m : mm_struct) (addr p : Z) (swap_in : bool) vm : res (vmem S) :=
  assert! bool_decide (sm_priv m ≠ None) ;; Ok (set_pra_list (p :: pra_list vm) vm).

(** The victim and the state with the victim unlinked. *)
Definition _fifo_swap_out_victim (m : mm_struct) (in_tick : Z) vm : res (Z * vmem S) :=
  assert! bool_decide (sm_priv m ≠ None) ;;
  assert! in_tick =? 0 ;;
  match last (pra_list vm) with
  | None => Panicked
  | Some p => Ok (p, set_pra_list (removelast (pra_list vm)) vm)
  end.

(** ** kern/fs/swap/swapfs.c *)

Definition swap_offset vm (entry : Z) : res Z :=
  let off := Z.shiftr entry 8 in assert! (0 <? off) && (off <? max_swap_offset vm) ;; Ok off.

Definition swapfs_read (entry p : Z) vm : res (Z * vmem S) :=
  let! off := swap_offset vm entry in
  if ide_error off then Ok (-1, vm) else Ok (0, set_frame p (swap_area vm off) vm).

Definition swapfs_write (entry p : Z) vm : res (Z * vmem S) :=
  let! off := swap_offset vm entry in
  if ide_error off then Ok (-1, vm) else Ok (0, set_swap_area (<[off := phys vm p]> (swap_area vm)) vm).

(** ** kern/mm/pmm.c: pages *)

(** [default_free_pages] also clears the [ref] fields of the pages. *)
Definition free_pages (base n : Z) vm : res (vmem S) :=
  let! s := PmmManager.free_pages (mgr vm) base n in
  Ok (foldr (λ p vm, set_ref p 0 vm) (set_mgr s vm) (seqZ base n)).

Definition free_page (p : Z) vm : res (vmem S) := free_pages p 1 vm.

(** ** kern/mm/swap.c *)

Definition swap_init_mm (m : mm_struct) vm : mm_struct * vmem S := _fifo_init_mm m vm.
Definition swap_map_swappable (m : mm_struct) (addr p : Z) (swap_in : bool) vm : res (vmem S) :=
  _fifo_map_swappable m addr p swap_in vm.

(** [(page->pra_vaddr/PGSIZE+1)<<8] *)
Definition swap_entry (v : Z) : Z := u32 (Z.shiftl (v / PGSIZE + 1) 8).

(** The loop runs [k] more times; [i] counts its rounds. *)
Fixpoint swap_out_loop (k : nat) (m : mm_struct) (in_tick i : Z) vm : res (Z * vmem S) :=
  match k with
  | O => Ok (i, vm)
  | Datatypes.S k =>
      let! (p, vm) := _fifo_swap_out_victim m in_tick vm in
      let v := pra_vaddr vm p in
      let! d := deref (pgdir m) in
      let! o := find_pte vm d v in
      let! ptep := deref o in
      assert! present (pte_at vm ptep) ;;
      let! (r, vm) := swapfs_write (swap_entry v) p vm in
      if decide (r ≠ 0) then
        let! vm := _fifo_map_swappable m v p false vm in
        swap_out_loop k m in_tick (i + 1) vm
      else
        let vm := set_word ptep.1 ptep.2 (swap_entry v) vm in
        let! vm := free_page p vm in
        swap_out_loop k m in_tick (i + 1) (tlb_invalidate d v vm)
  end.

Definition swap_out (m : mm_struct) (n in_tick : Z) vm : res (Z * vmem S) :=
  swap_out_loop (Z.to_nat n) m in_tick 0 vm.

(** ** kern/mm/pmm.c: allocation, which may swap pages out *)

Fixpoint alloc_loop (fuel : nat) (n : Z) vm : res (option Z * vmem S) :=
  match fuel with
  | O => NoFuel
  | Datatypes.S fuel =>
      let! (o, s) := PmmManager.alloc_pages (mgr vm) n in
      let vm := set_mgr s vm in
      if bool_decide (o ≠ None) || (1 <? n) || negb (swap_init_ok vm) then Ok (o, vm)
      else
        let! m := deref (check_mm_struct vm) in
        let! (_, vm) := swap_out m n 0 vm in
        alloc_loop fuel n vm
  end.

(** A round without an allocation swaps the oldest page out or, after a device error,
    moves it to the front of the list; the list is through after its length of rounds. *)
Definition alloc_pages (n : Z) vm : res (option Z * vmem S) := alloc_loop (length (pra_list vm) + 2) n vm.
Definition alloc_page vm : res (option Z * vmem S) := alloc_pages 1 vm.

(** ** kern/mm/pmm.c: page tables *)

Definition get_pte (d la : Z) (create : bool) vm : res (option (Z * Z) * vmem S) :=
  if present (phys vm d (PDX la)) then let! o := find_pte vm d la in Ok (o, vm)
  else if negb create then Ok (None, vm)
  else
    let! (o, vm) := alloc_page vm in
    match o with
    | None => Ok (None, vm)
    | Some p =>
        let vm := set_ref p 1 vm in
        let pa := page2pa p in
        let! q := KADDR vm pa in
        let vm := set_frame q (λ _, 0) vm in
        let vm := set_word d (PDX la) (Z.lor (Z.lor (Z.lor pa PTE_U) PTE_W) PTE_P) vm in
        let! o := find_pte vm d la in Ok (o, vm)
    end.

Fixpoint boot_map_loop (n : nat) (d la pa perm : Z) vm : res (vmem S) :=
  match n with
  | O => Ok vm
  | Datatypes.S n =>
      let! (o, vm) := get_pte d la true vm in
      match o with
      | None => Panicked                         (* assert(ptep != NULL) *)
      | Some ptep => boot_map_loop n d (u32 (la + PGSIZE)) (u32 (pa + PGSIZE)) perm
                       (set_word ptep.1 ptep.2 (Z.lor (Z.lor pa PTE_P) perm) vm)
      end
  end.

Definition boot_map_segment (d la size pa perm : Z) vm : res (vmem S) :=
  assert! PGOFF la =? PGOFF pa ;;
  let n := ROUNDUP (u32 (size + PGOFF la)) PGSIZE / PGSIZE in
  boot_map_loop (Z.to_nat n) d (ROUNDDOWN la PGSIZE) (ROUNDDOWN pa PGSIZE) perm vm.

Definition boot_alloc_page vm : res (Z * vmem S) :=
  let! (o, vm) := alloc_page vm in
  match o with Some p => Ok (p, vm) | None => Panicked end.

Definition get_page (d la : Z) vm : res (option Z * option (Z * Z)) :=
  let! o := find_pte vm d la in
  match o with
  | Some ptep => if present (pte_at vm ptep) then let! p := pte2page vm (pte_at vm ptep) in Ok (Some p, o) else Ok (None, o)
  | None => Ok (None, None)
  end.

Definition page_remove_pte (d la : Z) (ptep : Z * Z) vm : res (vmem S) :=
  if present (pte_at vm ptep) then
    let! p := pte2page vm (pte_at vm ptep) in
    let (r, vm) := page_ref_dec p vm in
    let! vm := if r =? 0 then free_page p vm else Ok vm in
    Ok (tlb_invalidate d la (set_word ptep.1 ptep.2 0 vm))
  else Ok vm.

Definition page_remove (d la : Z) vm : res (vmem S) :=
  let! o := find_pte vm d la in
  match o with Some ptep => page_remove_pte d la ptep vm | None => Ok vm end.

Definition page_insert (d p la perm : Z) vm : res (Z * vmem S) :=
  let! (o, vm) := get_pte d la true vm in
  match o with
  | None => Ok (- E_NO_MEM, vm)
  | Some ptep =>
      let (_, vm) := page_ref_inc p vm in
      let! vm :=
        if present (pte_at vm ptep) then
          let! q := pte2page vm (pte_at vm ptep) in
          if decide (q = p) then Ok (page_ref_dec p vm).2 else page_remove_pte d la ptep vm
        else Ok vm in
      let vm := set_word ptep.1 ptep.2 (Z.lor (Z.lor (page2pa p) PTE_P) perm) vm in
      Ok (0, tlb_invalidate d la vm)
  end.

Definition pgdir_alloc_page (d la perm : Z) vm : res (option Z * vmem S) :=
  let! (o, vm) := alloc_page vm in
  match o with
  | None => Ok (None, vm)
  | Some p =>
      let! (r, vm) := page_insert d p la perm vm in
      if decide (r ≠ 0) then let! vm := free_page p vm in Ok (None, vm)
      else
        match swap_init_ok vm, check_mm_struct vm with
        | true, Some m =>
            let! vm := swap_map_swappable m la p false vm in
            let vm := set_pra_vaddr p la vm in
            assert! page_ref vm p =? 1 ;; Ok (Some p, vm)
        | _, _ => Ok (Some p, vm)
        end
  end.

(** The do-while loops below leave [fuel] rounds for the pages of the range. *)
Fixpoint unmap_loop (fuel : nat) (d start en : Z) vm : res (vmem S) :=
  match fuel with
  | O => NoFuel
  | Datatypes.S fuel =>
      let! o := find_pte vm d start in
      let! (start, vm) :=
        match o with
        | None => Ok (ROUNDDOWN (u32 (start + PTSIZE)) PTSIZE, vm)
        | Some ptep =>
            let! vm := if decide (pte_at vm ptep ≠ 0) then page_remove_pte d start ptep vm else Ok vm in
            Ok (u32 (start + PGSIZE), vm)
        end in
      if negb (start =? 0) && (start <? en) then unmap_loop fuel d start en vm else Ok vm
  end.

Definition range_fuel (start en : Z) : nat := Z.to_nat ((en - start) / PGSIZE).

Definition unmap_range (d start en : Z) vm : res (vmem S) :=
  assert! (start `mod` PGSIZE =? 0) && (en `mod` PGSIZE =? 0) ;;
  assert! USER_ACCESS start en ;;
  unmap_loop (range_fuel start en) d start en vm.

Fixpoint exit_loop (fuel : nat) (d start en : Z) vm : res (vmem S) :=
  match fuel with
  | O => NoFuel
  | Datatypes.S fuel =>
      let i := PDX start in
      let! vm :=
        if present (phys vm d i) then
          let! p := pde2page vm (phys vm d i) in
          let! vm := free_page p vm in Ok (set_word d i 0 vm)
        else Ok vm in
      let start := u32 (start + PTSIZE) in
      if negb (start =? 0) && (start <? en) then exit_loop fuel d start en vm else Ok vm
  end.

Definition exit_range (d start en : Z) vm : res (vmem S) :=
  assert! (start `mod` PGSIZE =? 0) && (en `mod` PGSIZE =? 0) ;;
  assert! USER_ACCESS start en ;;
  exit_loop (range_fuel start en) d (ROUNDDOWN start PTSIZE) en vm.

(** The part of [copy_range] for a present page. *)
Definition copy_page (to start : Z) (ptep : Z * Z) vm : res (Z * vmem S) :=
  let! (n, vm) := get_pte to start true vm in
  match n with
  | None => Ok (- E_NO_MEM, vm)
  | Some _ =>
      let perm := Z.land (pte_at vm ptep) PTE_USER in
      let! page := pte2page vm (pte_at vm ptep) in
      let! (o, vm) := alloc_page vm in
      match o with
      | None => Panicked                   (* assert(npage != NULL) *)
      | Some npage =>
          let! src := KADDR vm (page2pa page) in
          let! dst := KADDR vm (page2pa npage) in
          let vm := set_frame dst (phys vm src) vm in
          let! (r, vm) := page_insert to npage start perm vm in
          assert! r =? 0 ;; Ok (0, vm)
      end
  end.

Fixpoint copy_loop (fuel : nat) (to from start en : Z) vm : res (Z * vmem S) :=
  match fuel with
  | O => NoFuel
  | Datatypes.S fuel =>
      let! o := find_pte vm from start in
      let! (r, start, vm) :=
        match o with
        | None => Ok (0, ROUNDDOWN (u32 (start + PTSIZE)) PTSIZE, vm)
        | Some ptep =>
            let! (r, vm) := if present (pte_at vm ptep) then copy_page to start ptep vm else Ok (0, vm) in
            Ok (r, u32 (start + PGSIZE), vm)
        end in
      if decide (r ≠ 0) then Ok (r, vm)
      else if negb (start =? 0) && (start <? en) then copy_loop fuel to from start en vm else Ok (0, vm)
  end.

Definition copy_range (to from start en : Z) vm : res (Z * vmem S) :=
  assert! (start `mod` PGSIZE =? 0) && (en `mod` PGSIZE =? 0) ;;
  assert! USER_ACCESS start en ;;
  copy_loop (range_fuel start en) to from start en vm.

Definition swap_in (m : mm_struct) (addr : Z) vm : res (Z * vmem S) :=
  let! (o, vm) := alloc_page vm in
  match o with
  | None => Panicked
  | Some p =>
      let! d := deref (pgdir m) in
      let! o := find_pte vm d addr in
      let! ptep := deref o in
      let! (_, vm) := swapfs_read (pte_at vm ptep) p vm in   (* a read error is ignored *)
      Ok (p, vm)
  end.

End pmm.
