(* ===== verification/PagingInv.v ===== *)
(** * The invariant of the page tables

    [pg_inv] relates the page tables of a set of address spaces, the allocator and the
    reference counts of [Paging]; the lemmas say how each piece of page-table code
    changes the mapping [walk] and that it keeps the invariant. *)

From stdpp Require Import functions.
From S2P Require Import Prelude ListH DefaultPmm PmmManager Vmm Paging.

(** ** Entries and addresses *)

Lemma present_bit e : present e = Z.testbit e 0.
Proof.
  unfold present, PTE_P. change 1 with (Z.ones 1). rewrite Z.land_ones by lia.
  change (2 ^ 1) with 2. pose proof (Z.bit0_mod e) as Hb. destruct (Z.testbit e 0); cbn in Hb; by rewrite <- Hb.
Qed.

(** The frame of an entry. *)
Definition frame_of (e : Z) : Z := PPN (PTE_ADDR e).

Lemma small_bits fl n : 0 ≤ fl < 4096 → 12 ≤ n → Z.testbit fl n = false.
Proof.
  intros Hf Hn. destruct (Z.eqb_spec fl 0) as [->|]; [apply Z.bits_0|].
  apply Z.bits_above_log2; [lia|]. assert (Z.log2 fl < 12); [|lia]. apply Z.log2_lt_pow2; lia.
Qed.

Lemma page2pa_small p : 0 ≤ p < 2 ^ 20 → page2pa p = Z.shiftl p 12.
Proof. intros Hp. unfold page2pa. apply u32_small. rewrite Z.shiftl_mul_pow2 by lia. lia. Qed.

Lemma frame_of_entry p fl : 0 ≤ p < 2 ^ 20 → 0 ≤ fl < 4096 → frame_of (Z.lor (page2pa p) fl) = p.
Proof.
  intros Hp Hf. rewrite page2pa_small by done. unfold frame_of, PPN, PTE_ADDR. apply Z.bits_inj'. intros n Hn.
  rewrite Z.shiftr_spec, Z.ldiff_spec, Z.lor_spec, Z.shiftl_spec, (small_bits fl), (small_bits 0xFFF) by lia.
  rewrite orb_false_r, andb_true_r. f_equal. lia.
Qed.

Lemma PPN_page2pa p : 0 ≤ p < 2 ^ 20 → PPN (page2pa p) = p.
Proof.
  intros Hp. rewrite page2pa_small by done. unfold PPN. rewrite Z.shiftr_shiftl_l by lia. apply Z.shiftl_0_r.
Qed.

Lemma present_entry p fl : 0 ≤ p < 2 ^ 20 → present (Z.lor (page2pa p) fl) = present fl.
Proof.
  intros Hp. rewrite !present_bit, page2pa_small, Z.lor_spec by done. rewrite Z.shiftl_spec_low by lia. done.
Qed.

(** Page numbers of user addresses. *)
Definition UVPN : Z := 0xB0000.
Definition uvpn (v : Z) : Prop := 0 ≤ v < UVPN.

Lemma PPN_div la : PPN la = la / 4096.
Proof. unfold PPN. by rewrite Z.shiftr_div_pow2 by lia. Qed.

Lemma PTX_ppn la : PTX la = PPN la `mod` 1024.
Proof. unfold PTX. change 0x3FF with (Z.ones 10). rewrite Z.land_ones by lia. done. Qed.

Lemma PDX_ppn la : 0 ≤ la < 2 ^ 32 → PDX la = PPN la / 1024.
Proof.
  intros Hla. unfold PDX. change 0x3FF with (Z.ones 10). rewrite Z.land_ones by lia.
  rewrite PPN_div, Z.shiftr_div_pow2, Z.div_div by lia. change (4096 * 1024) with (2 ^ 22).
  apply Z.mod_small. split; [apply Z.div_pos; lia|]. apply Z.div_lt_upper_bound; lia.
Qed.

Lemma uvpn_la la : 0 ≤ la < USERTOP → uvpn (PPN la) ∧ PDX la = PPN la / 1024.
Proof.
  intros Hla. unfold USERTOP in *. split; [|apply PDX_ppn; lia].
  unfold uvpn, UVPN. rewrite PPN_div. split; [apply Z.div_pos; lia|apply Z.div_lt_upper_bound; lia].
Qed.

Lemma uvpn_pdx v : uvpn v → 0 ≤ v / 1024 < 704.
Proof. unfold uvpn, UVPN. intros. split; [apply Z.div_pos; lia|apply Z.div_lt_upper_bound; lia]. Qed.

Section inv.
Context {S : Type} `{pmm_manager S}.
Implicit Types vm : vmem S.

(** ** The mapping *)

(** The page table for directory entry [x] of [d]. *)
Definition tab vm (d x : Z) : option Z := if present (phys vm d x) then Some (frame_of (phys vm d x)) else None.

(** The entry for page number [v] in directory [d]. *)
Definition walk vm (d v : Z) : Z :=
  match tab vm d (v / 1024) with Some t => phys vm t (v `mod` 1024) | None => 0 end.

Definition maps (e f : Z) : bool := present e && (frame_of e =? f).

(** How many user mappings of the directories [ds] lead to frame [f]. *)
Definition count vm (ds : list Z) (f : Z) : Z :=
  zsum (λ d, zsum (λ v, b2z (maps (walk vm d v) f)) (seqZ 0 UVPN)) ds.

Definition is_table vm (ds : list Z) (p : Z) : Prop :=
  p ∈ ds ∨ ∃ d x, d ∈ ds ∧ 0 ≤ x < 704 ∧ tab vm d x = Some p.

(** [x f] is the number of references to frame [f] that the running code holds itself. *)
Record pg_inv vm (ds : list Z) (own : list block) (fr : list Z) (x : Z → Z) : Prop := {
  pi_mgr : mgr_inv (mgr vm) own fr;
  pi_range : ∀ p, p ∈ pages_of own ++ fr → 0 ≤ p < npage vm;
  pi_npage : npage vm ≤ 2 ^ 20;
  pi_ds : NoDup ds ∧ Z.of_nat (length ds) ≤ 2048;
  pi_dir : ∀ d, d ∈ ds → (d, 1) ∈ own;
  pi_tab : ∀ d i t, d ∈ ds → 0 ≤ i < 704 → tab vm d i = Some t → (t, 1) ∈ own ∧ t ∉ ds ∧
    ∀ d' i', d' ∈ ds → 0 ≤ i' < 704 → tab vm d' i' = Some t → d' = d ∧ i' = i;
  pi_leaf : ∀ d v, d ∈ ds → uvpn v → present (walk vm d v) = true →
    (frame_of (walk vm d v), 1) ∈ own ∧ ¬ is_table vm ds (frame_of (walk vm d v));
  pi_extra : ∀ f, 0 ≤ x f ≤ 1;
  pi_refs : ∀ f, ¬ is_table vm ds f → page_refs vm f = count vm ds f + x f;
  pi_tlb : ∀ v e, rcr3 vm ∈ ds → uvpn v → tlb vm !! v = Some e → present e = true ∧ walk vm (rcr3 vm) v = e
}.

(** The parts of the state that page-table code leaves alone. *)
Definition same_env vm vm' : Prop :=
  npage vm' = npage vm ∧ rcr3 vm' = rcr3 vm ∧ swap_init_ok vm' = swap_init_ok vm ∧
  check_mm_struct vm' = check_mm_struct vm ∧ pra_list vm' = pra_list vm ∧ pra_vaddr vm' = pra_vaddr vm ∧
  swap_area vm' = swap_area vm ∧ max_swap_offset vm' = max_swap_offset vm.

#[export] Instance same_env_preorder : PreOrder same_env.
Proof. split; [by intros vm|]. unfold same_env. intros a b c. intuition congruence. Qed.

Lemma block_page p n own : (p, n) ∈ own → 0 < n → p ∈ pages_of own.
Proof.
  intros (l & k & ->)%list_elem_of_split Hn. rewrite pages_of_app. cbn.
  rewrite !elem_of_app, elem_of_seqZ. right. left. lia.
Qed.

Lemma pi_own_range vm ds own fr x p : pg_inv vm ds own fr x → (p, 1) ∈ own → 0 ≤ p < npage vm ∧ 0 ≤ p < 2 ^ 20.
Proof.
  intros Hi Hp. apply block_page in Hp; [|lia]. pose proof (pi_npage _ _ _ _ _ Hi).
  assert (0 ≤ p < npage vm); [|lia]. apply (pi_range _ _ _ _ _ Hi). set_solver.
Qed.

(** Two blocks of one page with the same page are the same position of the list. *)
Lemma own_split vm ds own fr x p :
  pg_inv vm ds own fr x → (p, 1) ∈ own →
  ∃ o1 o2, own = o1 ++ (p, 1) :: o2 ∧ (∀ q, q ≠ p → (q, 1) ∈ own → (q, 1) ∈ o1 ++ o2) ∧ p ∉ pages_of (o1 ++ o2) ∧ p ∉ fr.
Proof.
  intros Hi Hp. destruct (list_elem_of_split _ _ Hp) as (o1 & o2 & ->). exists o1, o2.
  split_and!; [done| |..].
  - intros q Hq. rewrite !elem_of_app, elem_of_cons. naive_solver.
  - pose proof (mgr_disjoint _ _ _ (pi_mgr _ _ _ _ _ Hi)) as Hnd.
    rewrite pages_of_app in Hnd |- *. cbn in Hnd. rewrite <- !app_assoc in Hnd. cbn in Hnd.
    apply NoDup_app in Hnd as (_ & Hd & Hnd). apply NoDup_cons in Hnd as [Hn _].
    rewrite elem_of_app. intros [Hin|Hin]; [apply (Hd _ Hin)|apply Hn]; set_solver.
  - pose proof (mgr_disjoint _ _ _ (pi_mgr _ _ _ _ _ Hi)) as Hnd.
    apply NoDup_app in Hnd as (_ & Hd & _). apply Hd. eapply block_page; [done|lia].
Qed.

Lemma find_pte_spec vm ds own fr x d la :
  pg_inv vm ds own fr x → d ∈ ds → 0 ≤ la < USERTOP →
  find_pte vm d la = Ok (match tab vm d (PPN la / 1024) with Some t => Some (t, PPN la `mod` 1024) | None => None end).
Proof.
  intros Hi Hd Hla. destruct (uvpn_la la Hla) as [Hv Hx]. unfold find_pte. rewrite Hx, PTX_ppn.
  pose proof (pi_tab _ _ _ _ _ Hi d _ (frame_of (phys vm d (PPN la / 1024))) Hd (uvpn_pdx _ Hv)) as Ht.
  unfold tab in *. destruct (present (phys vm d (PPN la / 1024))); cbn [negb]; [|done].
  destruct (Ht eq_refl) as (Ho & _). destruct (pi_own_range _ _ _ _ _ _ Hi Ho) as [Hr _].
  unfold KADDR. fold (frame_of (phys vm d (PPN la / 1024))). by rewrite (proj2 (Z.ltb_lt _ _) (proj2 Hr)).
Qed.

Lemma walk_tab vm d v t : tab vm d (v / 1024) = Some t → walk vm d v = phys vm t (v `mod` 1024).
Proof. unfold walk. by intros ->. Qed.

(** ** Writing an entry *)

Definition upd_walk (w : Z → Z → Z) (d v e : Z) : Z → Z → Z :=
  λ d' v', if decide (d' = d ∧ v' = v) then e else w d' v'.

Lemma phys_set_word p i e vm q j :
  phys (set_word p i e vm) q j = if decide (q = p ∧ j = i) then e else phys vm q j.
Proof.
  cbn. destruct (decide (q = p)) as [->|]; [rewrite fn_lookup_insert|rewrite fn_lookup_insert_ne by congruence].
  - destruct (decide (j = i)) as [->|]; [rewrite fn_lookup_insert|rewrite fn_lookup_insert_ne by congruence].
    + by rewrite decide_True. + by rewrite decide_False by naive_solver.
  - by rewrite decide_False by naive_solver.
Qed.

Lemma tab_frame vm vm' d i : (∀ j, phys vm' d j = phys vm d j) → tab vm' d i = tab vm d i.
Proof. intros Hp. unfold tab. by rewrite Hp. Qed.

Lemma is_table_ext vm vm' ds p :
  (∀ d i, d ∈ ds → 0 ≤ i < 704 → tab vm' d i = tab vm d i) → is_table vm' ds p ↔ is_table vm ds p.
Proof.
  intros Ht. unfold is_table. split; intros [?|(d & i & Hd & Hi & E)]; auto; right; exists d, i; (split; [done|]); (split; [done|]);
    rewrite <- E, Ht; done.
Qed.

Lemma walk_set_word vm ds own fr x d v t e :
  pg_inv vm ds own fr x → d ∈ ds → uvpn v → tab vm d (v / 1024) = Some t →
  (∀ d' i, d' ∈ ds → tab (set_word t (v `mod` 1024) e vm) d' i = tab vm d' i) ∧
  ∀ d' v', d' ∈ ds → uvpn v' → walk (set_word t (v `mod` 1024) e vm) d' v' = upd_walk (walk vm) d v e d' v'.
Proof.
  intros Hi Hd Hv Ht. destruct (pi_tab _ _ _ _ _ Hi _ _ _ Hd (uvpn_pdx _ Hv) Ht) as (_ & Hn & Hinj).
  assert (∀ d' i, d' ∈ ds → tab (set_word t (v `mod` 1024) e vm) d' i = tab vm d' i) as Htab.
  { intros d' i Hd'. apply tab_frame. intros j. rewrite phys_set_word, decide_False; [done|]. intros [-> _]. done. }
  split; [done|]. intros d' v' Hd' Hv'. unfold walk at 1, upd_walk. rewrite Htab by done.
  destruct (decide (d' = d ∧ v' = v)) as [[-> ->]|Hne].
  - rewrite Ht, phys_set_word, decide_True by done. done.
  - unfold walk. destruct (tab vm d' (v' / 1024)) as [t'|] eqn:Ht'; [|done].
    rewrite phys_set_word, decide_False; [done|]. intros [-> Hm]. apply Hne.
    destruct (Hinj _ _ Hd' (uvpn_pdx _ Hv') Ht') as [-> Hq]. split; [done|].
    rewrite (Z.div_mod v' 1024), (Z.div_mod v 1024) by lia. congruence.
Qed.

Lemma count_upd vm vm' ds d v e f :
  NoDup ds → d ∈ ds → uvpn v →
  (∀ d' v', d' ∈ ds → uvpn v' → walk vm' d' v' = upd_walk (walk vm) d v e d' v') →
  count vm' ds f = count vm ds f - b2z (maps (walk vm d v) f) + b2z (maps e f).
Proof.
  intros Hnd Hd Hv Hw. assert (∀ v, v ∈ seqZ 0 UVPN ↔ uvpn v) as Hin.
  { intros w. rewrite elem_of_seqZ. unfold uvpn. lia. }
  unfold count. rewrite (zsum_change _ (λ d, zsum (λ v, b2z (maps (walk vm d v) f)) (seqZ 0 UVPN)) ds d); [|done..|].
  - rewrite (zsum_change (λ v, b2z (maps (walk vm' d v) f)) (λ v, b2z (maps (walk vm d v) f)) (seqZ 0 UVPN) v).
    + rewrite Hw by done. unfold upd_walk. rewrite decide_True by done. lia.
    + apply NoDup_seqZ.
    + by apply Hin.
    + intros u Hu Hne. apply Hin in Hu. rewrite Hw by done. unfold upd_walk. by rewrite decide_False by naive_solver.
  - intros u Hu Hne. apply zsum_ext. intros w Hw'%Hin. rewrite Hw by done. unfold upd_walk.
    by rewrite decide_False by naive_solver.
Qed.

Lemma count_ext vm vm' ds f :
  (∀ d v, d ∈ ds → uvpn v → walk vm' d v = walk vm d v) → count vm' ds f = count vm ds f.
Proof.
  intros Hw. unfold count. apply zsum_ext. intros d Hd. apply zsum_ext. intros v [Hv1 Hv2]%elem_of_seqZ.
  rewrite Hw; [done|done|]. unfold uvpn. lia.
Qed.

Lemma maps_b2z e f : 0 ≤ b2z (maps e f) ≤ 1.
Proof. destruct (maps e f); cbn; lia. Qed.

Lemma zsum_le_length {A} (g : A → Z) l c : (∀ t, t ∈ l → g t ≤ c) → zsum g l ≤ c * Z.of_nat (length l).
Proof.
  induction l as [|t l IH]; intros Hg; cbn; [lia|]. pose proof (Hg t ltac:(set_solver)).
  assert (zsum g l ≤ c * Z.of_nat (length l)) by (apply IH; intros; apply Hg; set_solver). unfold zsum in *. lia.
Qed.

Lemma count_range vm ds f : Z.of_nat (length ds) ≤ 2048 → 0 ≤ count vm ds f < 2 ^ 31 - 1.
Proof.
  intros Hl. unfold count. split.
  - apply zsum_nonneg. intros d _. apply zsum_nonneg. intros v _. apply maps_b2z.
  - assert (zsum (λ d, zsum (λ v, b2z (maps (walk vm d v) f)) (seqZ 0 UVPN)) ds ≤ UVPN * Z.of_nat (length ds)).
    { apply zsum_le_length. intros d _. etransitivity; [apply (zsum_le_length _ _ 1); intros; apply maps_b2z|].
      rewrite length_seqZ. unfold UVPN. lia. }
    unfold UVPN in *. lia.
Qed.

Lemma count_pos vm ds d v f :
  d ∈ ds → uvpn v → maps (walk vm d v) f = true → 0 < count vm ds f.
Proof.
  intros Hd Hv Hm. unfold count.
  apply list_elem_of_split in Hd as (l1 & l2 & ->).
  assert (v ∈ seqZ 0 UVPN) as Hin by (apply elem_of_seqZ; unfold uvpn in Hv; lia).
  apply list_elem_of_split in Hin as (k1 & k2 & Hk). rewrite Hk.
  assert (∀ {A} (g : A → Z) l1 t l2, (∀ t, 0 ≤ g t) → g t ≤ zsum g (l1 ++ t :: l2)) as Hge.
  { intros A g m1 t m2 Hg. induction m1 as [|u m1 IH]; cbn.
    - pose proof (zsum_nonneg g m2 (λ t _, Hg t)). unfold zsum in *. lia.
    - pose proof (Hg u). unfold zsum in *. lia. }
  eapply Z.lt_le_trans; [|apply (Hge _ _ l1 d l2); intros u; apply zsum_nonneg; intros; apply maps_b2z].
  eapply Z.lt_le_trans; [|apply (Hge _ _ k1 v k2); intros u; apply maps_b2z]. cbn beta. rewrite Hm. cbn. lia.
Qed.

(** ** Keeping the invariant *)

Lemma pi_tab_keep vm vm' ds own (own' : list block) fr x :
  pg_inv vm ds own fr x → (∀ d i, d ∈ ds → 0 ≤ i < 704 → tab vm' d i = tab vm d i) →
  (∀ p, is_table vm ds p → (p, 1) ∈ own → (p, 1) ∈ own') →
  ∀ d i t, d ∈ ds → 0 ≤ i < 704 → tab vm' d i = Some t → (t, 1) ∈ own' ∧ t ∉ ds ∧
    ∀ d' i', d' ∈ ds → 0 ≤ i' < 704 → tab vm' d' i' = Some t → d' = d ∧ i' = i.
Proof.
  intros Hi Ht Ho d i t Hd Hr E. rewrite Ht in E by done.
  destruct (pi_tab _ _ _ _ _ Hi _ _ _ Hd Hr E) as (Ho' & Hn & Hinj). split_and!; [|done|].
  - apply Ho; [|done]. right. eauto 10.
  - intros d' i' Hd' Hi'. rewrite Ht by done. auto.
Qed.

(** A step that changes no mapping. *)
Lemma pg_inv_keep vm vm' ds own own' fr fr' x x' :
  pg_inv vm ds own fr x → same_env vm vm' →
  (∀ d i, d ∈ ds → 0 ≤ i < 704 → tab vm' d i = tab vm d i) →
  (∀ d v, d ∈ ds → uvpn v → walk vm' d v = walk vm d v) →
  tlb vm' ⊆ tlb vm →
  mgr_inv (mgr vm') own' fr' → (∀ p, p ∈ pages_of own' ++ fr' → p ∈ pages_of own ++ fr) →
  (∀ p, (p, 1) ∈ own → is_table vm ds p ∨ 0 < count vm ds p → (p, 1) ∈ own') →
  (∀ f, 0 ≤ x' f ≤ 1) →
  (∀ f, ¬ is_table vm ds f → page_refs vm' f - x' f = page_refs vm f - x f) →
  pg_inv vm' ds own' fr' x'.
Proof.
  intros Hi Henv Ht Hw Htlb Hm Hr Ho Hx Hrefs. pose proof (is_table_ext vm vm' ds) as Hit.
  destruct Henv as (En & Er & _).
  split; try done.
  - intros p Hp. rewrite En. by apply (pi_range _ _ _ _ _ Hi), Hr.
  - rewrite En. apply Hi.
  - apply Hi.
  - intros d Hd. apply Ho; [by apply (pi_dir _ _ _ _ _ Hi)|by left; left].
  - eapply pi_tab_keep; [done|done|]. auto.
  - intros d v Hd Hv. rewrite Hw by done. intros Hp. destruct (pi_leaf _ _ _ _ _ Hi d v Hd Hv Hp) as [Ho' Hn].
    rewrite Hit by done. split; [|done]. apply Ho; [done|]. right. eapply count_pos; [done|done|].
    unfold maps. by rewrite Hp, Z.eqb_refl.
  - intros f Hf. rewrite Hit in Hf by done. rewrite (count_ext vm) by done.
    pose proof (pi_refs _ _ _ _ _ Hi f Hf). specialize (Hrefs f Hf). lia.
  - intros v e. rewrite Er. intros Hd Hv Hl. rewrite Hw by done.
    eapply (pi_tlb _ _ _ _ _ Hi); [done|done|]. by eapply lookup_weaken.
Qed.

(** A step that sets the entry of page number [v] of directory [d] to [e]. *)
Lemma pg_inv_entry vm vm' ds own own' fr fr' x x' d v e :
  pg_inv vm ds own fr x → same_env vm vm' → d ∈ ds → uvpn v →
  (∀ d i, d ∈ ds → 0 ≤ i < 704 → tab vm' d i = tab vm d i) →
  (∀ d' v', d' ∈ ds → uvpn v' → walk vm' d' v' = upd_walk (walk vm) d v e d' v') →
  (∀ v' e', tlb vm' !! v' = Some e' → tlb vm !! v' = Some e' ∧ (rcr3 vm = d → v' ≠ v)) →
  mgr_inv (mgr vm') own' fr' → (∀ p, p ∈ pages_of own' ++ fr' → p ∈ pages_of own ++ fr) →
  (∀ p, (p, 1) ∈ own → is_table vm ds p ∨ 0 < count vm' ds p → (p, 1) ∈ own') →
  (present e = true → (frame_of e, 1) ∈ own ∧ ¬ is_table vm ds (frame_of e)) →
  (∀ f, 0 ≤ x' f ≤ 1) →
  (∀ f, ¬ is_table vm ds f →
     page_refs vm' f - x' f = page_refs vm f - x f - b2z (maps (walk vm d v) f) + b2z (maps e f)) →
  pg_inv vm' ds own' fr' x'.
Proof.
  intros Hi Henv Hd Hv Ht Hw Htlb Hm Hr Ho He Hx Hrefs. pose proof (is_table_ext vm vm' ds) as Hit.
  destruct Henv as (En & Er & _).
  assert (∀ d' v', d' ∈ ds → uvpn v' → present (walk vm' d' v') = true → 0 < count vm' ds (frame_of (walk vm' d' v'))) as Hc.
  { intros d' v' Hd' Hv' Hp. eapply count_pos; [done|done|]. unfold maps. by rewrite Hp, Z.eqb_refl. }
  split; try done.
  - intros p Hp. rewrite En. by apply (pi_range _ _ _ _ _ Hi), Hr.
  - rewrite En. apply Hi.
  - apply Hi.
  - intros d' Hd'. apply Ho; [by apply (pi_dir _ _ _ _ _ Hi)|by left; left].
  - eapply pi_tab_keep; [done|done|]. auto.
  - intros d' v' Hd' Hv' Hp. specialize (Hc d' v' Hd' Hv' Hp).
    assert ((frame_of (walk vm' d' v'), 1) ∈ own ∧ ¬ is_table vm ds (frame_of (walk vm' d' v'))) as [Ho1 Ho2].
    { rewrite Hw in Hp |- * by done. unfold upd_walk in *. case_decide; [auto|]. by apply (pi_leaf _ _ _ _ _ Hi). }
    rewrite Hit by done. split; [|done]. apply Ho; auto.
  - intros f Hf. rewrite Hit in Hf by done. rewrite (count_upd vm vm' ds d v e) by (done || apply Hi).
    pose proof (pi_refs _ _ _ _ _ Hi f Hf). specialize (Hrefs f Hf). lia.
  - intros v' e'. rewrite Er. intros Hr3 Hv' [Hl Hne]%Htlb. destruct (pi_tlb _ _ _ _ _ Hi v' e' Hr3 Hv' Hl) as [Hp' Hwk].
    split; [done|]. rewrite Hw by done. unfold upd_walk. rewrite decide_False; [done|]. intros [E1 E2]. by apply Hne.
Qed.

(** ** Allocation *)

Lemma page_of_block p : pages_of [(p, 1)] = [p].
Proof. done. Qed.

Lemma set_mgr_id vm : set_mgr (mgr vm) vm = vm.
Proof. by destruct vm. Qed.

Lemma not_owned_fresh vm ds own fr x p :
  pg_inv vm ds own fr x → p ∈ fr → (p, 1) ∉ own ∧ ¬ is_table vm ds p ∧ count vm ds p = 0.
Proof.
  intros Hi Hp. assert ((p, 1) ∉ own) as Hn.
  { intros Ho. destruct (own_split _ _ _ _ _ _ Hi Ho) as (? & ? & _ & _ & _ & ?). done. }
  split; [done|]. split.
  - intros [Hd|(d & i & Hd & Hr & Ht)]; apply Hn; [by apply (pi_dir _ _ _ _ _ Hi)|].
    by destruct (pi_tab _ _ _ _ _ Hi _ _ _ Hd Hr Ht).
  - unfold count. rewrite (zsum_ext _ (λ _, 0)); [by apply zsum_const0|]. intros d Hd.
    rewrite (zsum_ext _ (λ _, 0)); [by apply zsum_const0|]. intros v [Hv1 Hv2]%elem_of_seqZ.
    unfold maps. destruct (present (walk vm d v)) eqn:Hpr; [|done]. cbn.
    destruct (Z.eqb_spec (frame_of (walk vm d v)) p) as [<-|]; [|done]. exfalso. apply Hn.
    apply (pi_leaf _ _ _ _ _ Hi d v Hd); [unfold uvpn; lia|done].
Qed.

(** The outcomes of a call that may run out of memory, if [C], while no address space
    is prepared for swapping: [R] on success, [NULL] without swapping, and a fault in
    [swap_out(NULL)] with it. *)
Definition outcome {A} (C : Prop) vm (m : res (A * vmem S)) (a : A) (R : A → vmem S → Prop) : Prop :=
  (∃ b vm', m = Ok (b, vm') ∧ R b vm') ∨
  (C ∧ swap_init_ok vm = false ∧ m = Ok (a, vm)) ∨
  (C ∧ swap_init_ok vm = true ∧ m = Faulted).

Lemma alloc_page_spec ide vm ds own fr x :
  pg_inv vm ds own fr x → check_mm_struct vm = None →
  outcome True vm (alloc_page ide vm) None (λ o vm', ∃ p s' fr',
    o = Some p ∧ vm' = set_mgr s' vm ∧ fr ≡ₚ p :: fr' ∧ pg_inv vm' ds ((p, 1) :: own) fr' x).
Proof.
  intros Hi Hc. unfold outcome, alloc_page, alloc_pages. rewrite Nat.add_comm. cbn [Nat.add alloc_loop].
  destruct (alloc_pages_law _ _ _ 1 (pi_mgr _ _ _ _ _ Hi)) as (o & s' & -> & Ho); [lia|]. cbn [bind].
  destruct o as [p|].
  - left. exists (Some p), (set_mgr s' vm). split; [done|]. destruct Ho as (fr' & Hfr & Hm).
    exists p, s', fr'. split_and!; try done. eapply (pg_inv_keep vm); try done.
    + intros q. rewrite Hfr. cbn. set_solver.
    + intros q Hq _. set_solver.
    + apply Hi.
  - subst s'. rewrite set_mgr_id. right. cbn. destruct (swap_init_ok vm); cbn; [|by left]. right. by rewrite Hc.
Qed.

(** ** Kernel addresses of pages *)

Lemma mgr_set_refs vm l : mgr (foldr (λ p vm, set_ref p 0 vm) vm l) = mgr vm.
Proof. by induction l. Qed.

Lemma page2kva_ok p vm : 0 ≤ p < npage vm → npage vm ≤ KMEMSIZE / PGSIZE → page2kva p vm = Ok (kva_of p).
Proof.
  intros Hp Hn. change (KMEMSIZE / PGSIZE) with (2 ^ 15 * 7) in Hn. unfold page2kva, KADDR. rewrite PPN_page2pa by lia.
  by rewrite (proj2 (Z.ltb_lt _ _)) by lia.
Qed.

Lemma kva2page_page2kva p vm : 0 ≤ p < npage vm → npage vm ≤ KMEMSIZE / PGSIZE → kva2page (kva_of p) vm = Ok p.
Proof.
  intros Hp Hn. unfold kva2page, kva_of, pa2page. change (KMEMSIZE / PGSIZE) with (2 ^ 15 * 7) in Hn.
  assert (page2pa p = p * 4096) as Hpa by (rewrite page2pa_small by lia; rewrite Z.shiftl_mul_pow2 by lia; done).
  rewrite (u32_small (page2pa p + KERNBASE)) by (unfold KERNBASE; lia).
  rewrite (proj2 (Z.leb_le KERNBASE _)) by lia.
  replace (page2pa p + KERNBASE - KERNBASE) with (page2pa p) by lia. rewrite u32_small by lia. rewrite PPN_page2pa by lia.
  rewrite (proj2 (Z.ltb_lt _ _)) by lia. done.
Qed.

Definition table_entry (p : Z) : Z := Z.lor (Z.lor (Z.lor (page2pa p) PTE_U) PTE_W) PTE_P.

Lemma table_entry_spec p : 0 ≤ p < 2 ^ 20 → present (table_entry p) = true ∧ frame_of (table_entry p) = p.
Proof.
  intros Hp. unfold table_entry. rewrite <- !Z.lor_assoc. change (Z.lor PTE_U (Z.lor PTE_W PTE_P)) with 7.
  split; [by rewrite present_entry|]. by apply frame_of_entry.
Qed.

(** A new, empty page table [p] for entry [i] of directory [d]. *)
Definition with_table (p d i : Z) vm : vmem S :=
  set_word d i (table_entry p) (set_frame p (λ _, 0) (set_ref p 1 vm)).

Lemma with_table_phys p d i vm q j :
  p ≠ d → phys (with_table p d i vm) q j =
    if decide (q = d ∧ j = i) then table_entry p else if decide (q = p) then 0 else phys vm q j.
Proof.
  intros Hne. unfold with_table. rewrite phys_set_word. case_decide; [done|]. cbn.
  destruct (decide (q = p)) as [->|]; [by rewrite fn_lookup_insert|]. by rewrite fn_lookup_insert_ne by congruence.
Qed.

Section with_table.
Context vm ds own fr x p d i (Hi : pg_inv vm ds ((p, 1) :: own) fr x) (Hd : d ∈ ds) (Hr : 0 ≤ i < 704).
Context (Hp : (p, 1) ∉ own) (Hnt : ¬ is_table vm ds p) (Hc : count vm ds p = 0) (Ht : tab vm d i = None).

Lemma with_table_tab d' j : d' ∈ ds →
  tab (with_table p d i vm) d' j = if decide (d' = d ∧ j = i) then Some p else tab vm d' j.
Proof.
  intros Hd'. assert (p ≠ d) as Hpd by (intros ->; apply Hnt; by left).
  unfold tab. rewrite with_table_phys by done.
  destruct (pi_own_range _ _ _ _ _ p Hi) as [_ Hpr]; [set_solver|].
  case_decide; [by destruct (table_entry_spec p Hpr) as [-> ->]|].
  rewrite decide_False; [done|]. intros ->. apply Hnt. by left.
Qed.

Lemma with_table_walk d' v : d' ∈ ds → uvpn v → walk (with_table p d i vm) d' v = walk vm d' v.
Proof.
  intros Hd' Hv. assert (p ≠ d) as Hpd by (intros ->; apply Hnt; by left).
  unfold walk. rewrite with_table_tab by done. case_decide as Hdi.
  - destruct Hdi as [-> <-]. rewrite Ht, with_table_phys, decide_False by (done || naive_solver). by rewrite decide_True.
  - destruct (tab vm d' (v / 1024)) as [t|] eqn:Et; [|done].
    destruct (pi_tab _ _ _ _ _ Hi _ _ _ Hd' (uvpn_pdx _ Hv) Et) as (_ & Hn & _).
    rewrite with_table_phys, decide_False by (done || naive_solver). rewrite decide_False; [done|].
    intros ->. apply Hnt. right. exists d', (v / 1024). split; [done|]. split; [by apply uvpn_pdx|done].
Qed.

Lemma with_table_is_table q : is_table (with_table p d i vm) ds q ↔ is_table vm ds q ∨ q = p.
Proof.
  unfold is_table. split.
  - intros [?|(d' & j & Hd' & Hj & E)]; [by left; left|]. rewrite with_table_tab in E by done.
    case_decide; [right; congruence|]. left. right. exists d', j. done.
  - intros [[?|(d' & j & Hd' & Hj & E)]| ->]; [by left|..]; right.
    + exists d', j. split; [done|]. split; [done|]. rewrite with_table_tab by done. case_decide as Hdj; [|done].
      destruct Hdj as [-> ->]. congruence.
    + exists d, i. split; [done|]. split; [done|]. rewrite with_table_tab by done. by rewrite decide_True.
Qed.

Lemma with_table_inv : pg_inv (with_table p d i vm) ds ((p, 1) :: own) fr x.
Proof.
  assert (p ∉ ds) as Hpd by (intros ?; apply Hnt; by left).
  split; try apply Hi.
  - intros d' j t Hd' Hj. rewrite with_table_tab by done.
    assert (∀ d' i', d' ∈ ds → 0 ≤ i' < 704 → tab vm d' i' ≠ Some p) as Hno.
    { intros e i' He Hi' E. apply Hnt. right. eauto. }
    case_decide as Hdj.
    + intros [= <-]. split; [set_solver|]. split; [done|]. intros e i' He Hi'. rewrite with_table_tab by done.
      destruct Hdj as [-> ->]. case_decide; [done|]. by intros ?%Hno.
    + intros E. destruct (pi_tab _ _ _ _ _ Hi _ _ _ Hd' Hj E) as (Ho & Hn & Hinj). split; [done|]. split; [done|].
      intros e i' He Hi'. rewrite with_table_tab by done. case_decide; [|by apply Hinj].
      intros [= ->]. by apply Hno in E.
  - intros d' v Hd' Hv. rewrite with_table_walk by done. intros Hpr.
    destruct (pi_leaf _ _ _ _ _ Hi d' v Hd' Hv Hpr) as [Ho Hn]. split; [done|]. rewrite with_table_is_table.
    intros [?|E]; [done|]. assert (0 < count vm ds p); [|lia]. eapply count_pos; [done|done|].
    unfold maps. by rewrite Hpr, E, Z.eqb_refl.
  - intros f Hf. rewrite with_table_is_table in Hf. rewrite (count_ext vm) by (intros; by apply with_table_walk).
    cbn. rewrite fn_lookup_insert_ne by naive_solver. apply (pi_refs _ _ _ _ _ Hi). tauto.
  - intros v e Hd3 Hv Hl. rewrite with_table_walk by done. by apply (pi_tlb _ _ _ _ _ Hi).
Qed.
End with_table.

(** ** get_pte *)

(** What [get_pte] does to the state when it returns an entry. *)
Record got_pte vm vm' ds (own own' : list block) (fr fr' : list Z) : Prop := {
  gp_env : same_env vm vm';
  gp_walk : ∀ d v, d ∈ ds → uvpn v → walk vm' d v = walk vm d v;
  gp_tab : ∀ d i t, d ∈ ds → 0 ≤ i < 704 → tab vm d i = Some t → tab vm' d i = Some t;
  gp_tlb : tlb vm' = tlb vm;
  gp_own : ∀ p, p ∈ own → p ∈ own';
  gp_table : ∀ p, is_table vm ds p → is_table vm' ds p;
  gp_page : ∀ p, (p, 1) ∈ own → is_table vm' ds p → is_table vm ds p;
  gp_phys : ∀ p, ¬ is_table vm' ds p → phys vm' p = phys vm p ∧ page_refs vm' p = page_refs vm p;
  gp_fr : ∀ f, f ∈ fr' → f ∈ fr;
  gp_total : pages_of own' ++ fr' ≡ₚ pages_of own ++ fr
}.

Lemma got_pte_refl vm ds own fr : got_pte vm vm ds own own fr fr.
Proof. split; try done. Qed.

Lemma got_pte_with_table vm ds own fr fr' x s' p d i :
  pg_inv vm ds own fr x → fr ≡ₚ p :: fr' → pg_inv (set_mgr s' vm) ds ((p, 1) :: own) fr' x →
  d ∈ ds → 0 ≤ i < 704 → tab vm d i = None →
  pg_inv (with_table p d i (set_mgr s' vm)) ds ((p, 1) :: own) fr' x ∧
  tab (with_table p d i (set_mgr s' vm)) d i = Some p ∧
  got_pte vm (with_table p d i (set_mgr s' vm)) ds own ((p, 1) :: own) fr fr'.
Proof.
  intros Hi Hfr Hi' Hd Hr Ht.
  assert (p ∈ fr) as Hpf by (rewrite Hfr; set_solver).
  destruct (not_owned_fresh _ _ _ _ _ _ Hi Hpf) as (Hno & Hnt & Hc).
  split_and!.
  - by apply with_table_inv.
  - rewrite (with_table_tab _ _ _ _ _ _ _ _ Hi' Hd Hr Hno Hnt Hc Ht) by done. by rewrite decide_True.
  - pose proof (with_table_is_table _ _ _ _ _ _ _ _ Hi' Hd Hr Hno Hnt Hc Ht) as Hit.
    assert (p ≠ d) as Hpd by (intros ->; apply Hnt; by left).
    split; try done.
    + intros e v He Hv. by apply (with_table_walk _ _ _ _ _ _ _ _ Hi' Hd Hr Hno Hnt Hc Ht).
    + intros e j t He Hj E. rewrite (with_table_tab _ _ _ _ _ _ _ _ Hi' Hd Hr Hno Hnt Hc Ht) by done.
      case_decide as Hej; [|done]. destruct Hej as [-> ->]. congruence.
    + set_solver.
    + intros q Hq. apply Hit. by left.
    + intros q Hq [?| ->]%Hit; done.
    + intros q Hq. rewrite Hit in Hq. assert (q ≠ p) by naive_solver.
      assert (q ≠ d) by (intros ->; apply Hq; left; by left). split.
      * unfold with_table, set_word. cbn. by rewrite !fn_lookup_insert_ne by congruence.
      * cbn. by rewrite fn_lookup_insert_ne by congruence.
    + intros f Hf. rewrite Hfr. set_solver.
    + cbn. rewrite Hfr. apply Permutation_middle.
Qed.

Lemma get_pte_spec ide vm ds own fr x d la :
  pg_inv vm ds own fr x → check_mm_struct vm = None → d ∈ ds → 0 ≤ la < USERTOP →
  outcome (tab vm d (PPN la / 1024) = None) vm (get_pte ide d la true vm) None (λ o vm', ∃ t own' fr',
    o = Some (t, PPN la `mod` 1024) ∧ tab vm' d (PPN la / 1024) = Some t ∧
    pg_inv vm' ds own' fr' x ∧ got_pte vm vm' ds own own' fr fr').
Proof.
  intros Hi Hc Hd Hla. destruct (uvpn_la la Hla) as [Hv Hx]. unfold get_pte. rewrite Hx.
  destruct (present (phys vm d (PPN la / 1024))) eqn:Hpr.
  - left. rewrite (find_pte_spec _ _ _ _ _ _ _ Hi Hd Hla).
    assert (tab vm d (PPN la / 1024) = Some (frame_of (phys vm d (PPN la / 1024)))) as Ht by (unfold tab; by rewrite Hpr).
    rewrite Ht. eexists _, vm. split; [done|]. eexists _, own, fr. split_and!; [done..|]. apply got_pte_refl.
  - assert (tab vm d (PPN la / 1024) = None) as Ht by (unfold tab; by rewrite Hpr).
    cbn [negb]. destruct (alloc_page_spec ide vm ds own fr x Hi Hc) as [(o & vm' & -> & Hs)|[(_ & Hs & ->)|(_ & Hs & ->)]];
      [|right; left; done|right; right; done].
    destruct Hs as (p & s' & fr' & -> & -> & Hfr & Hi'). cbn [bind]. left.
    destruct (pi_own_range _ _ _ _ _ p Hi') as [Hp1 Hp2]; [set_solver|].
    unfold KADDR. rewrite PPN_page2pa by done. cbn [npage set_ref set_mgr].
    rewrite (proj2 (Z.ltb_lt p (npage vm)) (proj2 Hp1)). cbn [bind].
    destruct (got_pte_with_table vm ds own fr fr' x s' p d (PPN la / 1024) Hi Hfr Hi' Hd (uvpn_pdx _ Hv) Ht) as (Hw & Htab & Hg).
    change (set_word d (PPN la / 1024) (Z.lor (Z.lor (Z.lor (page2pa p) PTE_U) PTE_W) PTE_P)
              (set_frame p (λ _, 0) (set_ref p 1 (set_mgr s' vm)))) with (with_table p d (PPN la / 1024) (set_mgr s' vm)).
    rewrite (find_pte_spec _ _ _ _ _ _ _ Hw Hd Hla), Htab. cbn [bind].
    eexists _, _. split; [done|]. eexists _, _, _. split_and!; done.
Qed.

(** ** Freeing *)

Lemma free_page_spec vm ds own fr x q :
  pg_inv vm ds own fr x → (q, 1) ∈ own → ¬ is_table vm ds q → count vm ds q = 0 → x q = 0 →
  ∃ s' own', PmmManager.free_pages (mgr vm) q 1 = Ok s' ∧ free_page q vm = Ok (set_ref q 0 (set_mgr s' vm)) ∧
    pg_inv (set_ref q 0 (set_mgr s' vm)) ds own' (q :: fr) x ∧
    (∀ p, p ≠ q → (p, 1) ∈ own → (p, 1) ∈ own') ∧ pages_of own' ++ q :: fr ≡ₚ pages_of own ++ fr.
Proof.
  intros Hi Ho Hnt Hc Hx. destruct (own_split _ _ _ _ _ _ Hi Ho) as (o1 & o2 & -> & Hkeep & Hno & _).
  destruct (free_pages_law _ _ _ _ _ _ (pi_mgr _ _ _ _ _ Hi)) as (s' & Hf & Hm).
  exists s', (o1 ++ o2). unfold free_page, free_pages. split; [done|]. rewrite Hf. cbn [bind]. split; [done|].
  assert (pages_of (o1 ++ o2) ++ q :: fr ≡ₚ pages_of (o1 ++ (q, 1) :: o2) ++ fr) as Hp.
  { rewrite !pages_of_app. cbn. rewrite <- !app_assoc. cbn. apply Permutation_app_head. symmetry. apply (Permutation_middle (pages_of o2) fr q). }
  split_and!; [|done|done].
  eapply (pg_inv_keep vm); try done.
  - intros p. by rewrite Hp.
  - intros p Hp' Hor. apply Hkeep; [|done]. intros ->. destruct Hor as [?|?]; [done|lia].
  - apply Hi.
  - intros f Hft. cbn. destruct (decide (f = q)) as [->|]; [|by rewrite fn_lookup_insert_ne by congruence].
    rewrite fn_lookup_insert. rewrite (pi_refs _ _ _ _ _ Hi q Hnt). lia.
Qed.

(** ** Setting and removing entries *)

Lemma tlb_invalidate_eq d la vm :
  ∃ t, tlb_invalidate d la vm = set_tlb t vm ∧ t ⊆ tlb vm ∧ (rcr3 vm = d → t !! PPN la = None).
Proof.
  unfold tlb_invalidate. case_decide.
  - eexists. split; [done|]. split; [apply delete_subseteq|]. intros _. apply lookup_delete_eq.
  - exists (tlb vm). by destruct vm.
Qed.

Lemma phys_set_word_ne t i e vm p : p ≠ t → phys (set_word t i e vm) p = phys vm p.
Proof. intros Hne. unfold set_word. cbn. by rewrite fn_lookup_insert_ne by congruence. Qed.

(** Writing [e] into the entry for [la] and invalidating it, with reference counts
    adjusted on the way from [vm] to [vm0]. *)
Lemma set_entry_spec vm vm0 ds own fr x x' d la t e :
  pg_inv vm ds own fr x → d ∈ ds → 0 ≤ la < USERTOP → tab vm d (PPN la / 1024) = Some t →
  phys vm0 = phys vm → tlb vm0 = tlb vm → mgr vm0 = mgr vm → same_env vm vm0 →
  (present e = true → (frame_of e, 1) ∈ own ∧ ¬ is_table vm ds (frame_of e)) →
  (∀ f, 0 ≤ x' f ≤ 1) →
  (∀ f, ¬ is_table vm ds f →
     page_refs vm0 f - x' f = page_refs vm f - x f - b2z (maps (walk vm d (PPN la)) f) + b2z (maps e f)) →
  let vm' := tlb_invalidate d la (set_word t (PPN la `mod` 1024) e vm0) in
  pg_inv vm' ds own fr x' ∧ same_env vm vm' ∧ page_refs vm' = page_refs vm0 ∧ mgr vm' = mgr vm ∧
  (∀ d' i, d' ∈ ds → tab vm' d' i = tab vm d' i) ∧
  (∀ d' v', d' ∈ ds → uvpn v' → walk vm' d' v' = upd_walk (walk vm) d (PPN la) e d' v') ∧
  (∀ p, p ≠ t → phys vm' p = phys vm p) ∧ (rcr3 vm = d → tlb vm' !! PPN la = None) ∧ tlb vm' ⊆ tlb vm.
Proof.
  intros Hi Hd Hla Ht Ep Etlb Em Henv He Hx Hrefs. destruct (uvpn_la la Hla) as [Hv _].
  destruct (tlb_invalidate_eq d la (set_word t (PPN la `mod` 1024) e vm0)) as (tb & -> & Hsub & Hnone).
  cbn [rcr3 set_word set_frame tlb] in Hsub, Hnone. rewrite Etlb in Hsub.
  assert (rcr3 vm0 = rcr3 vm) as Er by apply Henv. rewrite Er in Hnone.
  destruct (walk_set_word vm ds own fr x d (PPN la) t e Hi Hd Hv Ht) as [Htab Hwalk].
  set (vm' := set_tlb tb (set_word t (PPN la `mod` 1024) e vm0)). cbn zeta.
  assert (phys vm' = phys (set_word t (PPN la `mod` 1024) e vm)) as Ep' by (cbn; by rewrite Ep).
  assert (∀ d' i, tab vm' d' i = tab (set_word t (PPN la `mod` 1024) e vm) d' i) as E1 by (intros; unfold tab; by rewrite Ep').
  assert (∀ d' v', walk vm' d' v' = walk (set_word t (PPN la `mod` 1024) e vm) d' v') as E2.
  { intros. unfold walk. by rewrite E1, Ep'. }
  assert (same_env vm vm') as Henv' by exact Henv.
  split_and!; try done.
  - eapply (pg_inv_entry vm vm' ds own own fr fr x x' d (PPN la) e); try done.
    + intros d' i Hd' _. by rewrite E1, Htab.
    + intros d' v' Hd' Hv'. by rewrite E2, Hwalk.
    + intros v' e' Hl. split; [by eapply lookup_weaken|]. intros Hr ->. cbn in Hl. by rewrite Hnone in Hl.
    + cbn. rewrite Em. apply Hi.
  - intros d' i Hd'. by rewrite E1, Htab.
  - intros d' v' Hd' Hv'. by rewrite E2, Hwalk.
  - intros p Hp. rewrite Ep'. by apply phys_set_word_ne.
Qed.

(** What removing the entry for [la] in [d] does. *)
Record removed vm vm' ds (own own' : list block) (fr fr' : list Z) (x : Z → Z) (d v : Z) : Prop := {
  rm_env : same_env vm vm';
  rm_tab : ∀ d' i, d' ∈ ds → tab vm' d' i = tab vm d' i;
  rm_walk : ∀ d' v', d' ∈ ds → uvpn v' → walk vm' d' v' = upd_walk (walk vm) d v 0 d' v';
  rm_phys : ∀ p, ¬ is_table vm ds p → phys vm' p = phys vm p;
  rm_tlb : tlb vm' ⊆ tlb vm;
  rm_own : ∀ p, (p, 1) ∈ own → p ≠ frame_of (walk vm d v) ∨ 0 < count vm' ds p + x p → (p, 1) ∈ own';
  rm_refs : ∀ p, ¬ is_table vm ds p → p ≠ frame_of (walk vm d v) → page_refs vm' p = page_refs vm p;
  rm_fr : fr' = if decide (count vm' ds (frame_of (walk vm d v)) + x (frame_of (walk vm d v)) = 0)
                then frame_of (walk vm d v) :: fr else fr;
  rm_total : pages_of own' ++ fr' ≡ₚ pages_of own ++ fr
}.

Lemma page_remove_pte_spec vm ds own fr x d la t :
  pg_inv vm ds own fr x → d ∈ ds → 0 ≤ la < USERTOP → tab vm d (PPN la / 1024) = Some t →
  present (walk vm d (PPN la)) = true →
  ∃ vm' own' fr', page_remove_pte d la (t, PPN la `mod` 1024) vm = Ok vm' ∧ pg_inv vm' ds own' fr' x ∧
    removed vm vm' ds own own' fr fr' x d (PPN la).
Proof.
  intros Hi Hd Hla Ht Hp. destruct (uvpn_la la Hla) as [Hv _]. pose proof (walk_tab _ _ _ _ Ht) as Hwt.
  set (q := frame_of (walk vm d (PPN la))) in *.
  destruct (pi_leaf _ _ _ _ _ Hi d (PPN la) Hd Hv Hp) as [Ho Hn]. fold q in Ho, Hn.
  destruct (pi_own_range _ _ _ _ _ _ Hi Ho) as [Hq1 Hq2].
  pose proof (pi_refs _ _ _ _ _ Hi q Hn) as Hrq. pose proof (pi_extra _ _ _ _ _ Hi q) as Hxq.
  pose proof (count_range vm ds q (proj2 (pi_ds _ _ _ _ _ Hi))) as Hcr.
  assert (0 < count vm ds q) as Hcp.
  { eapply count_pos; [done|done|]. unfold maps. by rewrite Hp, Z.eqb_refl. }
  unfold page_remove_pte. cbn [fst snd]. rewrite <- Hwt, Hp. unfold pte2page. rewrite Hp. unfold pa2page.
  change (PPN (PTE_ADDR (walk vm d (PPN la)))) with q. rewrite (proj2 (Z.ltb_lt q (npage vm)) (proj2 Hq1)). cbn [bind].
  unfold page_ref_dec. rewrite i32_small by lia. set (r := page_refs vm q - 1).
  destruct (set_entry_spec vm (set_ref q r vm) ds own fr x x d la t 0 Hi Hd Hla Ht) as (Hi' & He' & Hr' & Hm' & Htab' & Hw' & Hph' & _ & Htl'); try done.
  { apply Hi. }
  { intros f Hf. change (maps 0 f) with false. cbn. destruct (decide (f = q)) as [->|Hfq].
    - rewrite fn_lookup_insert. unfold maps. rewrite Hp. fold q. rewrite Z.eqb_refl. cbn. unfold r. lia.
    - rewrite fn_lookup_insert_ne by congruence. unfold maps. fold q. rewrite (proj2 (Z.eqb_neq q f)) by congruence.
      rewrite andb_false_r. cbn. lia. }
  set (vm' := tlb_invalidate d la (set_word t (PPN la `mod` 1024) 0 (set_ref q r vm))) in *.
  assert (¬ is_table vm' ds q) as Hnt' by (by rewrite (is_table_ext vm) by auto).
  assert (page_refs vm' q = r) as Hrq'. { rewrite Hr'. cbn. apply fn_lookup_insert. }
  pose proof (pi_refs _ _ _ _ _ Hi' q Hnt') as Hcq'. rewrite Hrq' in Hcq'.
  assert (t ≠ q) as Htq.
  { intros ->. apply Hn. right. exists d, (PPN la / 1024). split; [done|]. split; [by apply uvpn_pdx|done]. }
  assert (∀ p, ¬ is_table vm ds p → phys vm' p = phys vm p) as Hph.
  { intros p Hpt. apply Hph'. intros ->. apply Hpt. right. exists d, (PPN la / 1024).
    split; [done|]. split; [by apply uvpn_pdx|done]. }
  destruct (Z.eqb_spec r 0) as [Hr0|Hr0]; cycle 1.
  - cbn [bind]. exists vm', own, fr. split; [done|]. split; [done|]. split; try done.
    + intros p _ Hpq. fold q in Hpq. rewrite Hr'. cbn. by rewrite fn_lookup_insert_ne by congruence.
    + rewrite decide_False; [done|]. fold q. lia.
  - pose proof (count_range vm' ds q (proj2 (pi_ds _ _ _ _ _ Hi))) as Hcr'.
    destruct (free_page_spec vm' ds own fr x q Hi' Ho Hnt') as (s' & own' & Hf & _ & Hi2 & Hkeep & Htot); [lia|lia|].
    assert (free_page q (set_ref q r vm) = Ok (set_ref q 0 (set_mgr s' (set_ref q r vm)))) as Hf'.
    { unfold free_page, free_pages. rewrite Hm' in Hf. cbn [mgr set_ref]. by rewrite Hf. }
    rewrite Hf'. cbn [bind]. eexists _, own', (q :: fr).
    assert (tlb_invalidate d la (set_word t (PPN la `mod` 1024) 0 (set_ref q 0 (set_mgr s' (set_ref q r vm)))) =
            set_ref q 0 (set_mgr s' vm')) as ->.
    { unfold vm', tlb_invalidate. change (rcr3 (set_word t (PPN la `mod` 1024) 0 (set_ref q 0 (set_mgr s' (set_ref q r vm))))) with (rcr3 vm).
      change (rcr3 (set_word t (PPN la `mod` 1024) 0 (set_ref q r vm))) with (rcr3 vm). by case_decide. }
    split; [done|]. split; [done|]. split; try done.
    + intros p Hpo [Hpq|Hpc]; [by apply Hkeep|]. destruct (decide (p = q)) as [->|]; [|by apply Hkeep].
      change (count (set_ref q 0 (set_mgr s' vm')) ds q) with (count vm' ds q) in Hpc. lia.
    + intros p _ Hpq. fold q in Hpq. cbn. rewrite fn_lookup_insert_ne, Hr' by congruence. cbn. by rewrite fn_lookup_insert_ne by congruence.
    + rewrite decide_True; [done|]. fold q. change (count (set_ref q 0 (set_mgr s' vm')) ds q) with (count vm' ds q). lia.
Qed.

(** ** page_insert *)

Definition leaf_entry (p perm : Z) : Z := Z.lor (Z.lor (page2pa p) PTE_P) perm.

Lemma lor_small a b n : 0 ≤ n → 0 ≤ a < 2 ^ n → 0 ≤ b < 2 ^ n → 0 ≤ Z.lor a b < 2 ^ n.
Proof.
  intros Hn Ha Hb. assert (0 ≤ Z.lor a b) by (apply Z.lor_nonneg; lia). split; [done|].
  destruct (Z.eqb_spec (Z.lor a b) 0) as [->|]; [lia|].
  apply Z.log2_lt_pow2; [lia|]. rewrite Z.log2_lor by lia.
  destruct (Z.eqb_spec a 0) as [->|]; destruct (Z.eqb_spec b 0) as [->|]; [by rewrite Z.lor_0_l in *|..];
    apply Z.max_lub_lt; try (apply Z.log2_lt_pow2; lia); cbn; destruct (Z.eqb_spec n 0) as [->|]; lia.
Qed.

Lemma leaf_entry_spec p perm : 0 ≤ p < 2 ^ 20 → 0 ≤ perm < 4096 →
  present (leaf_entry p perm) = true ∧ frame_of (leaf_entry p perm) = p.
Proof.
  intros Hp Hf. unfold leaf_entry. rewrite <- Z.lor_assoc.
  assert (0 ≤ Z.lor PTE_P perm < 4096) by (apply (lor_small _ _ 12); unfold PTE_P; lia).
  split; [|by apply frame_of_entry]. rewrite present_entry by done. rewrite present_bit, Z.lor_spec. done.
Qed.

Record inserted vm vm' ds (own own' : list block) (fr fr' : list Z) (x : Z → Z) (d v e : Z) : Prop := {
  in_env : same_env vm vm';
  in_walk : ∀ d' v', d' ∈ ds → uvpn v' → walk vm' d' v' = upd_walk (walk vm) d v e d' v';
  in_phys : ∀ p, ¬ is_table vm' ds p → phys vm' p = phys vm p;
  in_table : ∀ p, is_table vm ds p → is_table vm' ds p;
  in_page : ∀ p, (p, 1) ∈ own → is_table vm' ds p → is_table vm ds p;
  in_tlb : rcr3 vm = d → tlb vm' !! v = None;
  in_own : ∀ p, (p, 1) ∈ own → present (walk vm d v) = false ∨ p ≠ frame_of (walk vm d v) ∨ 0 < count vm' ds p + x p → (p, 1) ∈ own';
  in_freed : ∀ f, 0 < count vm ds f → count vm' ds f = 0 → x f = 0 → f ∈ fr';
  in_fr : present (walk vm d v) = false → ∀ f, f ∈ fr' → f ∈ fr;
  in_total : pages_of own' ++ fr' ≡ₚ pages_of own ++ fr
}.

Lemma page_insert_spec ide vm ds own fr x d p la perm :
  pg_inv vm ds own fr x → check_mm_struct vm = None → d ∈ ds → 0 ≤ la < USERTOP →
  (p, 1) ∈ own → ¬ is_table vm ds p → x p = 0 → 0 ≤ perm < 4096 →
  outcome (tab vm d (PPN la / 1024) = None) vm (page_insert ide d p la perm vm) (- E_NO_MEM) (λ r vm', r = 0 ∧ ∃ own' fr',
    pg_inv vm' ds own' fr' x ∧ inserted vm vm' ds own own' fr fr' x d (PPN la) (leaf_entry p perm)).
Proof.
  intros Hi Hc Hd Hla Hp Hpt Hxp Hperm. destruct (uvpn_la la Hla) as [Hv _]. unfold page_insert.
  destruct (get_pte_spec ide vm ds own fr x d la Hi Hc Hd Hla) as [(o & vm1 & -> & Hs)|[(Hn & Hs & ->)|(Hn & Hs & ->)]];
    [|right; left; done|right; right; done].
  destruct Hs as (t & own1 & fr1 & -> & Ht & Hi1 & [Henv Hw1 Htab1 Htl1 Ho1 Htb1 Hpg1 Hph1 Hfr1 Htot1]). cbn [bind].
  left. pose proof (walk_tab _ _ _ _ Ht) as Hwt.
  assert (¬ is_table vm1 ds p) as Hpt1 by (intros ?; by apply Hpt, Hpg1).
  destruct (pi_own_range _ _ _ _ _ _ Hi Hp) as [_ Hpr].
  destruct (leaf_entry_spec p perm Hpr Hperm) as [He1 He2]. fold (leaf_entry p perm).
  set (e := leaf_entry p perm) in *.
  assert (∀ f, maps e f = (p =? f)) as Hme by (intros; unfold maps; by rewrite He1, He2).
  pose proof (count_range vm1 ds p (proj2 (pi_ds _ _ _ _ _ Hi))) as Hcr.
  pose proof (pi_refs _ _ _ _ _ Hi1 p Hpt1) as Hrp. rewrite Hxp in Hrp.
  unfold page_ref_inc. rewrite i32_small by lia. set (r := page_refs vm1 p + 1).
  assert (∀ vm0, phys vm0 = phys vm1 → tlb vm0 = tlb vm1 → mgr vm0 = mgr vm1 → same_env vm1 vm0 →
    (∀ f, ¬ is_table vm1 ds f → page_refs vm0 f = page_refs vm1 f - b2z (maps (walk vm1 d (PPN la)) f) + b2z (p =? f)) →
    (∀ f, b2z (maps (walk vm1 d (PPN la)) f) ≤ b2z (p =? f)) →
    ∃ b vm', Ok (0, tlb_invalidate d la (set_word t (PPN la `mod` 1024) e vm0)) = Ok (b, vm') ∧ b = 0 ∧ ∃ own' fr',
    pg_inv vm' ds own' fr' x ∧ inserted vm vm' ds own own' fr fr' x d (PPN la) e) as Hend.
  { intros vm0 E1 E2 E3 E4 Hrefs Hle.
    destruct (set_entry_spec vm1 vm0 ds own1 fr1 x x d la t e Hi1 Hd Hla Ht E1 E2 E3 E4) as (Hi2 & He' & _ & _ & Htab & Hw & Hph & Htl & _).
    { intros _. rewrite He2. split; [by apply Ho1|done]. }
    { apply Hi. }
    { intros f Hf. rewrite Hme, (Hrefs f Hf). lia. }
    eexists _, _. split; [done|]. split; [done|]. exists own1, fr1. split; [done|].
    assert (∀ q, is_table (tlb_invalidate d la (set_word t (PPN la `mod` 1024) e vm0)) ds q ↔ is_table vm1 ds q) as Hit.
    { intros q. apply is_table_ext. auto. }
    assert (is_table vm1 ds t) as Htt. { right. exists d, (PPN la / 1024). split; [done|]. split; [by apply uvpn_pdx|done]. }
    split; try done.
    - by transitivity vm1.
    - intros d' v' Hd' Hv'. rewrite Hw by done. unfold upd_walk. case_decide; [done|]. by apply Hw1.
    - intros q. rewrite Hit. intros Hq. rewrite Hph by (intros ->; done). by apply Hph1.
    - intros q Hq. by apply Hit, Htb1.
    - intros q Hq Hq2%Hit. by apply Hpg1.
    - intros Hr. apply Htl. rewrite <- Hr. apply Henv.
    - intros q Hq _. by apply Ho1.
    - intros f Hf1 Hf2 _. exfalso. rewrite (count_upd vm1 _ ds d (PPN la) e) in Hf2 by (done || apply Hi).
      rewrite (count_ext vm) in Hf2 by done. rewrite Hme in Hf2. specialize (Hle f). lia. }
  cbn [fst snd]. change (phys (set_ref p r vm1) t (PPN la `mod` 1024)) with (phys vm1 t (PPN la `mod` 1024)). rewrite <- Hwt.
  destruct (present (walk vm1 d (PPN la))) eqn:Hpres; cycle 1.
  { cbn [bind]. apply Hend; try done; [|intros f; unfold maps; rewrite Hpres; cbn; destruct (p =? f); cbn; lia].
    intros f Hf. unfold maps. rewrite Hpres. cbn.
    destruct (Z.eqb_spec p f) as [->|]; [rewrite fn_lookup_insert; cbn; lia|]. rewrite fn_lookup_insert_ne by done. cbn. lia. }
  set (q := frame_of (walk vm1 d (PPN la))).
  destruct (pi_leaf _ _ _ _ _ Hi1 d (PPN la) Hd Hv Hpres) as [Hqo Hqt]. fold q in Hqo, Hqt.
  destruct (pi_own_range _ _ _ _ _ _ Hi1 Hqo) as [Hq1 _].
  unfold pte2page. rewrite Hpres. unfold pa2page. change (PPN (PTE_ADDR (walk vm1 d (PPN la)))) with q.
  rewrite (proj2 (Z.ltb_lt q (npage (set_ref p r vm1))) (proj2 Hq1)). cbn [bind].
  destruct (decide (q = p)) as [Hqp|Hqp].
  { cbn [bind]. unfold page_ref_dec. cbn [snd]. cbn [page_refs set_ref]. rewrite fn_lookup_insert, i32_small by lia.
    apply Hend; try done; [|intros f; unfold maps; rewrite Hpres; fold q; rewrite Hqp; done].
    intros f Hf. unfold maps. rewrite Hpres. fold q. rewrite Hqp. cbn.
    destruct (Z.eqb_spec p f) as [->|]; [rewrite fn_lookup_insert; cbn; lia|]. rewrite !fn_lookup_insert_ne by done. cbn. lia. }
  assert (pg_inv (set_ref p r vm1) ds own1 fr1 (<[p := 1]> x)) as Hi2.
  { eapply (pg_inv_keep vm1); try done.
    - apply Hi1.
    - intros f. destruct (decide (f = p)) as [->|]; [rewrite fn_lookup_insert; lia|]. rewrite fn_lookup_insert_ne by congruence. apply Hi.
    - intros f Hf. cbn. destruct (decide (f = p)) as [->|]; [rewrite !fn_lookup_insert; lia|]. by rewrite !fn_lookup_insert_ne by congruence. }
  destruct (page_remove_pte_spec _ _ _ _ _ d la t Hi2 Hd Hla Ht Hpres) as (vm3 & own3 & fr3 & -> & Hi3 & [He3 Htab3 Hw3 Hph3 Htl3 Ho3 Hr3 Hfr3 Htot3]).
  cbn [bind].
  change (walk (set_ref p r vm1)) with (walk vm1) in *. change (tab (set_ref p r vm1)) with (tab vm1) in *.
  assert (¬ is_table vm3 ds p ∧ ∀ f, is_table vm3 ds f ↔ is_table vm1 ds f) as [Hpt3 Hit3].
  { assert (∀ f, is_table vm3 ds f ↔ is_table vm1 ds f) as Hit by (intros f; apply is_table_ext; auto).
    split; [by rewrite Hit|done]. }
  assert (walk vm3 d (PPN la) = 0) as Hw30. { rewrite Hw3 by done. unfold upd_walk. by rewrite decide_True. }
  assert (tab vm3 d (PPN la / 1024) = Some t) as Ht3 by (by rewrite Htab3).
  assert ((p, 1) ∈ own3) as Hp3. { apply Ho3; [by apply Ho1|]. left. fold q. congruence. }
  destruct (set_entry_spec vm3 vm3 ds own3 fr3 (<[p := 1]> x) x d la t e Hi3 Hd Hla Ht3) as (Hi4 & He4 & _ & _ & Htab4 & Hw4 & Hph4 & Htl4 & _); try done.
  { intros _. rewrite He2. done. }
  { apply Hi. }
  { intros f Hf. rewrite Hme, Hw30. change (maps 0 f) with false.
    destruct (Z.eqb_spec p f) as [->|]; [rewrite fn_lookup_insert; cbn; lia|]. rewrite fn_lookup_insert_ne by done. cbn. lia. }
  eexists _, _. split; [done|]. split; [done|]. exists own3, fr3. split; [done|].
  assert (∀ f, is_table (tlb_invalidate d la (set_word t (PPN la `mod` 1024) e vm3)) ds f ↔ is_table vm1 ds f) as Hit.
  { intros f. rewrite <- Hit3. apply is_table_ext. auto. }
  assert (is_table vm1 ds t) as Htt. { right. exists d, (PPN la / 1024). split; [done|]. split; [by apply uvpn_pdx|done]. }
  split.
  - transitivity vm1; [done|]. transitivity vm3; done.
  - intros d' v' Hd' Hv'. rewrite Hw4 by done. unfold upd_walk. destruct (decide (d' = d ∧ v' = PPN la)); [done|]. rewrite Hw3 by done.
    unfold upd_walk. rewrite decide_False by done. by apply Hw1.
  - intros f. rewrite Hit. intros Hf. rewrite Hph4 by (intros ->; done). rewrite (Hph3 f Hf). by apply Hph1.
  - intros f Hf. by apply Hit, Htb1.
  - intros f Hf Hf2%Hit. by apply Hpg1.
  - intros Hr. apply Htl4. rewrite <- Hr. transitivity (rcr3 (set_ref p r vm1)); [apply He3|apply Henv].
  - intros f Hf Hcase. rewrite <- Hw1 in Hcase by done. fold q in Hcase.
    destruct Hcase as [Hcase|Hcase]; [congruence|]. apply Ho3; [by apply Ho1|]. fold q.
    destruct (decide (f = q)) as [->|]; [|by left]. right. destruct Hcase as [|Hcase]; [done|].
    rewrite (count_upd vm3 _ ds d (PPN la) e) in Hcase by (done || apply Hi).
    rewrite Hme, Hw30, (proj2 (Z.eqb_neq p q)) in Hcase by congruence. change (maps 0 q) with false in Hcase. cbn [b2z] in Hcase.
    rewrite fn_lookup_insert_ne by congruence. lia.
  - intros f Hf1 Hf2 Hxf. rewrite (count_upd vm3 _ ds d (PPN la) e) in Hf2 by (done || apply Hi).
    rewrite Hme, Hw30 in Hf2. change (maps 0 f) with false in Hf2. pose proof (maps_b2z e f) as Hb. rewrite Hme in Hb.
    assert (0 ≤ count vm3 ds f) by (apply (count_range vm3 ds f); apply Hi). change (b2z false) with 0 in Hf2.
    assert (f ≠ p) as Hfp. { intros ->. rewrite Z.eqb_refl in Hf2. cbn in Hf2. lia. }
    destruct (decide (f = q)) as [->|Hfq].
    + rewrite Hfr3. fold q. rewrite decide_True; [set_solver|]. rewrite fn_lookup_insert_ne by congruence. lia.
    + assert (count vm3 ds f = count vm ds f) as E; [|lia].
      rewrite (count_upd vm1 vm3 ds d (PPN la) 0) by (done || apply Hi). rewrite (count_ext vm vm1) by done.
      change (maps 0 f) with false. unfold maps. fold q. rewrite (proj2 (Z.eqb_neq q f)) by congruence.
      rewrite andb_false_r. cbn. lia.
  - intros Hno. rewrite <- Hw1 in Hno by done. congruence.
  - rewrite Htot3. done.
Qed.

(** Writing to a frame that is no table. *)
Lemma set_frame_spec vm ds own fr x n w :
  pg_inv vm ds own fr x → ¬ is_table vm ds n →
  pg_inv (set_frame n w vm) ds own fr x ∧ (∀ d i, d ∈ ds → tab (set_frame n w vm) d i = tab vm d i) ∧
  (∀ d v, d ∈ ds → uvpn v → walk (set_frame n w vm) d v = walk vm d v).
Proof.
  intros Hi Hn.
  assert (∀ d i, d ∈ ds → tab (set_frame n w vm) d i = tab vm d i) as Ht.
  { intros d i Hd. apply tab_frame. intros j. cbn. rewrite fn_lookup_insert_ne; [done|]. intros ->. apply Hn. by left. }
  assert (∀ d v, d ∈ ds → uvpn v → walk (set_frame n w vm) d v = walk vm d v) as Hw.
  { intros d v Hd Hv. unfold walk. rewrite Ht by done. destruct (tab vm d (v / 1024)) as [t|] eqn:E; [|done].
    cbn. rewrite fn_lookup_insert_ne; [done|]. intros ->. apply Hn. right. exists d, (v / 1024).
    split; [done|]. split; [by apply uvpn_pdx|done]. }
  split; [|done]. eapply (pg_inv_keep vm); try done; [auto|apply Hi|apply Hi].
Qed.
End inv.
