(* ===== verification/AddrSpace.v ===== *)
(** * Ranges of user memory: unmapping, releasing and copying address spaces

    [unmap_range], [exit_range] and [copy_range] of kern/mm/pmm.c, and [exit_mmap],
    [dup_mmap] and [do_pgfault] of kern/mm/vmm.c, which call them for the areas of a
    process. *)

From stdpp Require Import functions.
From S2P Require Import Prelude ListH DefaultPmm PmmManager Vmm Paging PagingInv.

Section aspace.
Context {S : Type} `{pmm_manager S}.
Implicit Types vm : vmem S.

(** ** kern/mm/vmm.c *)

Definition PTE_perm (v : vma_struct) : Z := if has_flag (vm_flags v) VM_WRITE then Z.lor PTE_U PTE_W else PTE_U.

Section ops.
Context (ide : Z → bool).

Fixpoint unmap_areas (s : vmm) (d : option Z) (l : list Z) vm : res (vmem S) :=
  match l with
  | [] => Ok vm
  | p :: l =>
      let! v := get_vma s p in
      let! d' := deref d in
      let! vm := unmap_range d' (vm_start v) (vm_end v) vm in unmap_areas s d l vm
  end.

Fixpoint exit_areas (s : vmm) (d : option Z) (l : list Z) vm : res (vmem S) :=
  match l with
  | [] => Ok vm
  | p :: l =>
      let! v := get_vma s p in
      let! d' := deref d in
      let! vm := exit_range d' (vm_start v) (vm_end v) vm in exit_areas s d l vm
  end.

Definition exit_mmap (s : vmm) (q : Z) vm : res (vmem S) :=
  let! m := get_mm s q in
  assert! mm_count m =? 0 ;;
  let! vm := unmap_areas s (pgdir m) (mmap_list m) vm in
  exit_areas s (pgdir m) (mmap_list m) vm.

(** The loop of [dup_mmap] goes through the list backwards; [news] are the results of
    [kmalloc] for the new areas. *)
Fixpoint dup_areas (s : vmm) (to from : Z) (l : list Z) (news : list (option Z)) vm : res (Z * vmm * vmem S) :=
  match l with
  | [] => Ok (0, s, vm)
  | p :: l =>
      let! v := get_vma s p in
      let (o, s) := vma_create s (default None (head news)) (vm_start v) (vm_end v) (vm_flags v) in
      match o with
      | None => Ok (- E_NO_MEM, s, vm)
      | Some np =>
          let! s := insert_vma_struct s to np in
          let! mt := get_mm s to in let! mf := get_mm s from in
          let! dt := deref (pgdir mt) in let! df := deref (pgdir mf) in
          let! (r, vm) := copy_range ide dt df (vm_start v) (vm_end v) vm in
          if decide (r ≠ 0) then Ok (- E_NO_MEM, s, vm) else dup_areas s to from l (tail news) vm
      end
  end.

Definition dup_mmap (s : vmm) (to from : Z) (news : list (option Z)) vm : res (Z * vmm * vmem S) :=
  let! mf := get_mm s from in
  dup_areas s to from (reverse (mmap_list mf)) news vm.

(** [pgfault_num] is a statistic and not kept. *)
Definition do_pgfault (s : vmm) (mm : option Z) (error_code addr : Z) vm : res (Z * vmm * vmem S) :=
  let! (o, s) := find_vma s mm addr in
  match o with
  | None => Ok (- E_INVAL, s, vm)
  | Some p =>
      let! v := get_vma s p in
      if addr <? vm_start v then Ok (- E_INVAL, s, vm) else
      let code := Z.land error_code 3 in
      let denied :=
        if code =? 1 then true
        else if code =? 0 then negb (has_flag (vm_flags v) (Z.lor VM_READ VM_EXEC))
        else negb (has_flag (vm_flags v) VM_WRITE) in
      if denied then Ok (- E_INVAL, s, vm) else
      let perm := PTE_perm v in
      let addr := ROUNDDOWN addr PGSIZE in
      let! q := deref mm in
      let! m := get_mm s q in
      let! d := deref (pgdir m) in
      let! (o, vm) := get_pte ide d addr true vm in
      match o with
      | None => Ok (- E_NO_MEM, s, vm)
      | Some ptep =>
          if pte_at vm ptep =? 0 then
            let! (o, vm) := pgdir_alloc_page ide d addr perm vm in
            Ok (if o then 0 else - E_NO_MEM, s, vm)
          else if present (pte_at vm ptep) then Panicked
          else if negb (swap_init_ok vm) then Ok (- E_NO_MEM, s, vm)
          else
            let! (page, vm) := swap_in ide m addr vm in
            let! (_, vm) := page_insert ide d page addr perm vm in
            let! vm := swap_map_swappable m addr page true vm in
            Ok (0, s, vm)
      end
  end.
End ops.

(** ** Unmapping *)

Abbreviation noref := (λ _ : Z, 0).

(** An entry after [page_remove_pte]. *)
Definition clear (e : Z) : Z := if present e then 0 else e.

(** [vm'] is [vm] after the removal of the mappings of the page numbers [P] in [d]. *)
Record unmapped vm vm' ds (own own' : list block) (fr fr' : list Z) (d : Z) (P : Z → Prop) `{∀ v, Decision (P v)} : Prop := {
  um_env : same_env vm vm';
  um_tab : ∀ d' i, d' ∈ ds → tab vm' d' i = tab vm d' i;
  um_walk : ∀ d' v, d' ∈ ds → uvpn v →
    walk vm' d' v = if decide (d' = d ∧ P v) then clear (walk vm d' v) else walk vm d' v;
  um_phys : ∀ p, ¬ is_table vm ds p → phys vm' p = phys vm p;
  um_count : ∀ f, count vm' ds f ≤ count vm ds f;
  um_tlb : tlb vm' ⊆ tlb vm;
  um_own : ∀ p, (p, 1) ∈ own → (count vm' ds p = 0 → count vm ds p = 0) → (p, 1) ∈ own';
  um_fr : ∀ f, f ∈ fr → f ∈ fr';
  um_freed : ∀ f, 0 < count vm ds f → count vm' ds f = 0 → f ∈ fr';
  um_total : pages_of own' ++ fr' ≡ₚ pages_of own ++ fr
}.

Lemma count_nonneg vm ds f : 0 ≤ count vm ds f.
Proof. apply zsum_nonneg. intros d _. apply zsum_nonneg. intros v _. apply maps_b2z. Qed.

Lemma unmapped_refl vm ds own fr d (P : Z → Prop) `{∀ v, Decision (P v)} :
  (∀ v, uvpn v → P v → clear (walk vm d v) = walk vm d v) → unmapped vm vm ds own own fr fr d P.
Proof.
  intros HP. split; try done.
  - intros d' v Hd Hv. case_decide as Hc; [|done]. destruct Hc as [-> Hc]. by rewrite HP.
  - intros f. lia.
Qed.

Lemma unmapped_trans vm vm1 vm2 ds own own1 own2 fr fr1 fr2 d (P Q R : Z → Prop)
  `{∀ v, Decision (P v)} `{∀ v, Decision (Q v)} `{∀ v, Decision (R v)} :
  (∀ v, uvpn v → R v ↔ P v ∨ Q v) →
  unmapped vm vm1 ds own own1 fr fr1 d P → unmapped vm1 vm2 ds own1 own2 fr1 fr2 d Q →
  unmapped vm vm2 ds own own2 fr fr2 d R.
Proof.
  intros HR [A1 A2 A3 A4 A5 A6 A7 A8 A9 A10] [B1 B2 B3 B4 B5 B6 B7 B8 B9 B10]. split.
  - by transitivity vm1.
  - intros d' i Hd'. by rewrite B2, A2.
  - intros d' v Hd Hv. rewrite B3, A3 by done. specialize (HR v Hv).
    assert (∀ e, clear (clear e) = clear e) as Hcc.
    { intros e. unfold clear. destruct (present e) eqn:E; [done|by rewrite E]. }
    destruct (decide (d' = d)); [|by rewrite !decide_False by tauto].
    destruct (decide (P v)); destruct (decide (Q v)).
    + by rewrite !decide_True by tauto.
    + rewrite (decide_False (P := _ ∧ Q v)), !decide_True by tauto. done.
    + rewrite (decide_False (P := _ ∧ P v)), !decide_True by tauto. done.
    + by rewrite !decide_False by tauto.
  - intros p Hp. rewrite B4, A4; [done..|]. rewrite (is_table_ext vm) by auto. done.
  - intros f. specialize (A5 f). specialize (B5 f). lia.
  - by transitivity (tlb vm1).
  - intros p Hp Hc. pose proof (count_nonneg vm1 ds p). pose proof (count_nonneg vm2 ds p). specialize (A5 p). specialize (B5 p).
    apply B7; [apply A7; [done|]|]; lia.
  - auto.
  - intros f Hf1 Hf2. pose proof (count_nonneg vm1 ds f). destruct (decide (count vm1 ds f = 0)); [by apply B8, A9|].
    apply B9; lia.
  - by rewrite B10.
Qed.

Lemma removed_unmapped vm vm' ds own own' fr fr' x d v (P : Z → Prop) `{∀ v, Decision (P v)} :
  pg_inv vm ds own fr x → d ∈ ds → uvpn v → present (walk vm d v) = true → x = noref → (∀ w, uvpn w → P w ↔ w = v) →
  removed vm vm' ds own own' fr fr' x d v → unmapped vm vm' ds own own' fr fr' d P.
Proof.
  intros Hi Hd Hv Hpr -> HP [A1 A2 A3 A4 A5 A6 A7 A8 A9].
  assert (∀ f, count vm' ds f = count vm ds f - b2z (maps (walk vm d v) f)) as Hc.
  { intros f. rewrite (count_upd vm vm' ds d v 0) by (done || apply Hi). change (maps 0 f) with false. cbn. lia. }
  split; try done.
  - intros d' w Hd' Hw. rewrite A3 by done. specialize (HP w Hw). unfold upd_walk.
    destruct (decide (d' = d ∧ w = v)) as [[-> ->]|]; [|by rewrite decide_False by tauto].
    rewrite decide_True by tauto. unfold clear. by rewrite Hpr.
  - intros f. rewrite Hc. pose proof (maps_b2z (walk vm d v) f). lia.
  - intros p Hp Hcp. apply A6; [done|]. destruct (decide (p = frame_of (walk vm d v))) as [->|]; [|by left]. right.
    pose proof (count_nonneg vm' ds (frame_of (walk vm d v))).
    assert (0 < count vm ds (frame_of (walk vm d v))).
    { eapply count_pos; [done|done|]. unfold maps. by rewrite Hpr, Z.eqb_refl. }
    lia.
  - intros f Hf. rewrite A8. case_decide; [|done]. set_solver.
  - intros f Hf1 Hf2. rewrite A8. destruct (decide (f = frame_of (walk vm d v))) as [->|Hne].
    + rewrite decide_True by lia. set_solver.
    + rewrite Hc in Hf2. unfold maps in Hf2. rewrite (proj2 (Z.eqb_neq _ _)) in Hf2 by congruence.
      rewrite andb_false_r in Hf2. cbn in Hf2. lia.
Qed.

Lemma clear_absent e : present e = false → clear e = e.
Proof. unfold clear. by intros ->. Qed.

Definition in_range (st en v : Z) : Prop := PPN st ≤ v < PPN en.

#[export] Instance in_range_dec st en v : Decision (in_range st en v).
Proof. unfold in_range. apply _. Defined.

(** What the loops over a range assume about it. *)
Definition aligned_range (st en : Z) : Prop :=
  0 ≤ st ∧ st < en ∧ en ≤ USERTOP ∧ st `mod` PGSIZE = 0 ∧ en `mod` PGSIZE = 0.

Lemma mod_le_step st en n : 0 < n → st < en → st `mod` n = 0 → en `mod` n = 0 → st + n ≤ en.
Proof.
  intros Hn Hlt H1 H2. pose proof (Z.div_mod st n ltac:(lia)). pose proof (Z.div_mod en n ltac:(lia)).
  rewrite H1, H2 in *. assert (st / n < en / n) by nia. nia.
Qed.

Lemma next_page st en : aligned_range st en →
  st + PGSIZE ≤ en ∧ u32 (st + PGSIZE) = st + PGSIZE ∧ (st + PGSIZE) `mod` PGSIZE = 0 ∧ PPN (st + PGSIZE) = PPN st + 1 ∧
  (en - (st + PGSIZE)) / PGSIZE = (en - st) / PGSIZE - 1.
Proof.
  unfold aligned_range, PGSIZE, USERTOP. intros (Hs & Hlt & Hen & Hm1 & Hm2). pose proof (mod_le_step st en 4096).
  rewrite !PPN_div. split_and!; [lia|apply u32_small; lia| | |].
  - by rewrite Z.add_mod, Hm1 by lia.
  - by rewrite <- Z.div_add by lia.
  - replace (en - (st + 4096)) with (en - st + -1 * 4096) by lia. rewrite Z.div_add by lia. lia.
Qed.

Lemma next_table st en : aligned_range st en →
  let st' := ROUNDDOWN (u32 (st + PTSIZE)) PTSIZE in
  st < st' ∧ st' `mod` PGSIZE = 0 ∧ st' < 2 ^ 32 ∧ st' ≠ 0 ∧ (∀ v, PPN st ≤ v < PPN st' → v / 1024 = PPN st / 1024) ∧
  PPN st < PPN st' ∧ (en - st') / PGSIZE < (en - st) / PGSIZE.
Proof.
  unfold aligned_range, PGSIZE, PTSIZE, PGSIZE, USERTOP. intros (Hs & Hlt & Hen & Hm1 & Hm2). cbn zeta.
  change (4096 * 1024) with 4194304. rewrite u32_small by lia. unfold ROUNDDOWN.
  set (k := st / 4194304). assert ((st + 4194304) / 4194304 = k + 1) as Hk.
  { unfold k. by rewrite <- (Z.div_add st 1 4194304) by lia. }
  pose proof (Z.div_mod (st + 4194304) 4194304 ltac:(lia)) as Hd. rewrite Hk in Hd.
  replace (st + 4194304 - (st + 4194304) `mod` 4194304) with (4194304 * (k + 1)) by lia.
  pose proof (Z.div_mod st 4194304 ltac:(lia)) as Hd2. fold k in Hd2.
  pose proof (Z.mod_pos_bound st 4194304 ltac:(lia)). rewrite !PPN_div.
  assert (0 ≤ k) by (apply Z.div_pos; lia).
  assert (4194304 * (k + 1) / 4096 = 1024 * (k + 1)) as ->.
  { replace (4194304 * (k + 1)) with ((1024 * (k + 1)) * 4096) by lia. apply Z.div_mul. lia. }
  assert (st / 4096 / 1024 = k) as Hk2 by (rewrite Z.div_div by lia; done).
  pose proof (Z.div_mod (st / 4096) 1024 ltac:(lia)) as Hd3. rewrite Hk2 in Hd3.
  pose proof (Z.mod_pos_bound (st / 4096) 1024 ltac:(lia)).
  split_and!; try lia.
  - replace (4194304 * (k + 1)) with ((1024 * (k + 1)) * 4096) by lia. apply Z.mod_mul. lia.
  - intros v Hv. rewrite Hk2. symmetry. apply (Z.div_unique v 1024 k (v - 1024 * k)); lia.
  - rewrite (Z.div_mod en 4096), (Z.div_mod st 4096), Hm1, Hm2 by lia.
    replace (4194304 * (k + 1)) with (4096 * (1024 * (k + 1))) by lia.
    replace (4096 * (en / 4096) + 0 - 4096 * (1024 * (k + 1))) with ((en / 4096 - 1024 * (k + 1)) * 4096) by lia.
    replace (4096 * (en / 4096) + 0 - (4096 * (st / 4096) + 0)) with ((en / 4096 - st / 4096) * 4096) by lia.
    rewrite !Z.div_mul by lia. lia.
Qed.

Lemma PPN_le a b : a ≤ b → PPN a ≤ PPN b.
Proof. intros. rewrite !PPN_div. by apply Z.div_le_mono. Qed.

Lemma PPN_lt a b : a < b → a `mod` PGSIZE = 0 → b `mod` PGSIZE = 0 → PPN a < PPN b.
Proof.
  intros Hlt Ha Hb. pose proof (mod_le_step a b PGSIZE ltac:(done) Hlt Ha Hb) as Hle. apply PPN_le in Hle.
  rewrite !PPN_div in *. unfold PGSIZE in *. rewrite <- (Z.mul_1_l 4096) in Hle at 1. rewrite Z.div_add in Hle by lia. lia.
Qed.

Lemma walk_no_table vm d v : tab vm d (v / 1024) = None → walk vm d v = 0.
Proof. unfold walk. by intros ->. Qed.

(** One round at a page whose table exists. *)
Lemma unmap_page_spec vm ds own fr d la t :
  pg_inv vm ds own fr noref → d ∈ ds → 0 ≤ la < USERTOP → tab vm d (PPN la / 1024) = Some t →
  ∃ vm' own' fr',
    (if decide (pte_at vm (t, PPN la `mod` 1024) ≠ 0) then page_remove_pte d la (t, PPN la `mod` 1024) vm else Ok vm) = Ok vm' ∧
    pg_inv vm' ds own' fr' noref ∧ unmapped vm vm' ds own own' fr fr' d (λ v, v = PPN la).
Proof.
  intros Hi Hd Hla Ht. destruct (uvpn_la la Hla) as [Hv _]. cbn [fst snd]. rewrite <- (walk_tab _ _ _ _ Ht).
  assert (present (walk vm d (PPN la)) = false → unmapped vm vm ds own own fr fr d (λ v, v = PPN la)) as Hno.
  { intros Hp. apply unmapped_refl. intros v _ ->. by apply clear_absent. }
  destruct (decide (walk vm d (PPN la) ≠ 0)) as [Hne|Hz].
  - destruct (present (walk vm d (PPN la))) eqn:Hp.
    + destruct (page_remove_pte_spec _ _ _ _ _ d la t Hi Hd Hla Ht Hp) as (vm' & own' & fr' & -> & Hi' & Hr).
      exists vm', own', fr'. split; [done|]. split; [done|]. by eapply removed_unmapped.
    + unfold page_remove_pte. cbn [fst snd]. rewrite <- (walk_tab _ _ _ _ Ht), Hp. eauto 10.
  - exists vm, own, fr. split; [done|]. split; [done|]. apply Hno. apply dec_stable in Hz. by rewrite Hz.
Qed.

Lemma unmap_loop_spec fuel d en : ∀ st vm ds own fr,
  pg_inv vm ds own fr noref → d ∈ ds → aligned_range st en → (en - st) / PGSIZE ≤ Z.of_nat fuel →
  ∃ vm' own' fr', unmap_loop fuel d st en vm = Ok vm' ∧ pg_inv vm' ds own' fr' noref ∧
    unmapped vm vm' ds own own' fr fr' d (in_range st en).
Proof.
  induction fuel as [|fuel IH]; intros st vm ds own fr Hi Hd Hrg Hf.
  { destruct (next_page _ _ Hrg) as (Hle & _). assert (1 ≤ (en - st) / PGSIZE); [|lia].
    apply Z.div_le_lower_bound; unfold PGSIZE in *; lia. }
  pose proof Hrg as (Hst & Hlt & Hen & Hm1 & Hm2). assert (0 ≤ st < USERTOP) as Hla by lia.
  cbn [unmap_loop]. rewrite (find_pte_spec _ _ _ _ _ _ _ Hi Hd Hla). cbn [bind].
  destruct (tab vm d (PPN st / 1024)) as [t|] eqn:Ht; cbn [bind].
  - destruct (unmap_page_spec _ _ _ _ _ _ _ Hi Hd Hla Ht) as (vm1 & own1 & fr1 & -> & Hi1 & Hu1). cbn [bind].
    destruct (next_page _ _ Hrg) as (Hle & -> & Hm & HP & Hq).
    rewrite (proj2 (Z.eqb_neq (st + PGSIZE) 0)) by (unfold PGSIZE; lia). cbn [negb andb].
    destruct (Z.ltb_spec (st + PGSIZE) en) as [Hlt'|Hge].
    + destruct (IH (st + PGSIZE) vm1 ds own1 fr1 Hi1 Hd) as (vm2 & own2 & fr2 & -> & Hi2 & Hu2); [|lia|].
      { unfold aligned_range. unfold PGSIZE in *. split_and!; done || lia. }
      exists vm2, own2, fr2. split; [done|]. split; [done|]. eapply unmapped_trans; [|exact Hu1|exact Hu2].
      intros v Hv. unfold in_range. rewrite HP. pose proof (PPN_lt _ _ Hlt Hm1 Hm2). lia.
    + exists vm1, own1, fr1. split; [done|]. split; [done|].
      eapply (unmapped_trans _ _ _ _ _ _ _ _ _ _ _ (λ v, v = PPN st) (λ _, False)); [|done|by apply unmapped_refl].
      intros v Hv. assert (en = st + PGSIZE) as -> by lia. unfold in_range. rewrite HP. lia.
  - destruct (next_table _ _ Hrg) as (Hlt1 & Hm & H32 & Hne & Hsame & HPlt & Hfu).
    set (st' := ROUNDDOWN (u32 (st + PTSIZE)) PTSIZE) in *.
    rewrite (proj2 (Z.eqb_neq st' 0)) by done. cbn [negb andb].
    assert (unmapped vm vm ds own own fr fr d (in_range st st')) as Hu1.
    { apply unmapped_refl. intros v _ Hv. rewrite walk_no_table; [done|]. rewrite Hsame by done. done. }
    destruct (Z.ltb_spec st' en) as [Hlt'|Hge].
    + destruct (IH st' vm ds own fr Hi Hd) as (vm2 & own2 & fr2 & -> & Hi2 & Hu2); [|lia|].
      { unfold aligned_range. split_and!; done || lia. }
      exists vm2, own2, fr2. split; [done|]. split; [done|]. eapply unmapped_trans; [|exact Hu1|exact Hu2].
      intros v Hv. unfold in_range. pose proof (PPN_lt _ _ Hlt' Hm Hm2). lia.
    + exists vm, own, fr. split; [done|]. split; [done|]. apply unmapped_refl. intros v _ Hv.
      pose proof (PPN_le _ _ Hge). unfold in_range in Hv. rewrite walk_no_table; [done|]. rewrite Hsame by lia. done.
Qed.

Lemma unmap_range_spec d st en vm ds own fr :
  pg_inv vm ds own fr noref → d ∈ ds → aligned_range st en → USERBASE ≤ st →
  ∃ vm' own' fr', unmap_range d st en vm = Ok vm' ∧ pg_inv vm' ds own' fr' noref ∧
    unmapped vm vm' ds own own' fr fr' d (in_range st en).
Proof.
  intros Hi Hd Hrg Hb. pose proof Hrg as (Hst & Hlt & Hen & Hm1 & Hm2). unfold unmap_range, USER_ACCESS.
  rewrite (proj2 (Z.eqb_eq _ _) Hm1), (proj2 (Z.eqb_eq _ _) Hm2), (proj2 (Z.leb_le _ _) Hb), (proj2 (Z.leb_le _ _) Hen),
    (proj2 (Z.ltb_lt _ _) Hlt). cbn [andb].
  apply unmap_loop_spec; try done. unfold range_fuel. rewrite Z2Nat.id; [done|]. apply Z.div_pos; unfold PGSIZE; lia.
Qed.

(** ** Releasing page tables *)

(** [vm'] is [vm] after the release of the page tables at the directory entries [Q]. *)
Record released vm vm' ds (own own' : list block) (fr fr' : list Z) (d : Z) (Q : Z → Prop) `{∀ i, Decision (Q i)} : Prop := {
  rl_env : same_env vm vm';
  rl_tab : ∀ d' i, d' ∈ ds → 0 ≤ i < 704 → tab vm' d' i = if decide (d' = d ∧ Q i) then None else tab vm d' i;
  rl_walk : ∀ d' v, d' ∈ ds → uvpn v → walk vm' d' v = if decide (d' = d ∧ Q (v / 1024)) then 0 else walk vm d' v;
  rl_phys : ∀ p, ¬ is_table vm ds p → phys vm' p = phys vm p;
  rl_own : ∀ p, (p, 1) ∈ own → is_table vm' ds p ∨ ¬ is_table vm ds p → (p, 1) ∈ own';
  rl_fr : ∀ f, f ∈ fr → f ∈ fr';
  rl_freed : ∀ i t, 0 ≤ i < 704 → Q i → tab vm d i = Some t → t ∈ fr';
  rl_total : pages_of own' ++ fr' ≡ₚ pages_of own ++ fr
}.

(** The page tables of the directory entries [Q] hold no mapping. *)
Definition no_maps vm d (Q : Z → Prop) : Prop := ∀ v, uvpn v → Q (v / 1024) → present (walk vm d v) = false.

Lemma released_refl vm ds own fr d (Q : Z → Prop) `{∀ i, Decision (Q i)} :
  (∀ i, 0 ≤ i < 704 → Q i → tab vm d i = None) → released vm vm ds own own fr fr d Q.
Proof.
  intros HQ. split; try done.
  - intros d' i Hd' Hi. case_decide as E; [|done]. destruct E as [-> E]. by apply HQ.
  - intros d' v Hd' Hv. case_decide as E; [|done]. destruct E as [-> E]. apply walk_no_table, HQ; [by apply uvpn_pdx|done].
  - intros i t Hi Hq Ht. rewrite HQ in Ht by done. done.
Qed.

Lemma released_is_table vm vm' ds own own' fr fr' d Q `{∀ i, Decision (Q i)} p :
  released vm vm' ds own own' fr fr' d Q → is_table vm' ds p → is_table vm ds p.
Proof.
  intros Hr [?|(d' & i & Hd' & Hi & Ht)]; [by left|]. right. exists d', i. split; [done|]. split; [done|].
  rewrite (rl_tab _ _ _ _ _ _ _ _ _ Hr) in Ht by done. by case_decide.
Qed.

Lemma released_trans vm vm1 vm2 ds own own1 own2 fr fr1 fr2 d (P Q R : Z → Prop)
  `{∀ v, Decision (P v)} `{∀ v, Decision (Q v)} `{∀ v, Decision (R v)} :
  (∀ v, 0 ≤ v < 704 → R v ↔ P v ∨ Q v) → d ∈ ds →
  released vm vm1 ds own own1 fr fr1 d P → released vm1 vm2 ds own1 own2 fr1 fr2 d Q →
  released vm vm2 ds own own2 fr fr2 d R.
Proof.
  intros HR Hd G1 G2. pose proof G1 as [A1 A2 A3 A4 A5 A6 A7 A8]. pose proof G2 as [B1 B2 B3 B4 B5 B6 B7 B8]. split.
  - by transitivity vm1.
  - intros d' i Hd' Hi. rewrite B2, A2 by done. specialize (HR i Hi).
    repeat case_decide; try done; tauto.
  - intros d' v Hd' Hv. rewrite B3, A3 by done. specialize (HR _ (uvpn_pdx v Hv)).
    repeat case_decide; try done; tauto.
  - intros p Hp. rewrite B4, A4; [done..|]. intros ?. by eapply Hp, released_is_table.
  - intros p Hp [Ht|Ht]; apply B5.
    + apply A5; [done|]. left. by eapply released_is_table.
    + by left.
    + apply A5; auto.
    + right. intros ?. by eapply Ht, released_is_table.
  - auto.
  - intros i t Hi Hr Ht. destruct (decide (P i)); [by apply B6; eapply A7|]. apply (B7 i); [done| |].
    + apply HR in Hr; [|done]. tauto.
    + rewrite A2 by done. by rewrite decide_False by tauto.
  - by rewrite B8.
Qed.

Section drop_table.
Context vm ds own (own' : list block) fr (s' : S) d i t (Hi : pg_inv vm ds own fr noref) (Hd : d ∈ ds) (Hr : 0 ≤ i < 704) (Ht : tab vm d i = Some t).
Context (Hno : no_maps vm d (λ j, j = i)).
Context (Hm : mgr_inv s' own' (t :: fr)) (Hp : pages_of own' ++ t :: fr ≡ₚ pages_of own ++ fr).
Context (Ho : ∀ p, p ≠ t → (p, 1) ∈ own → (p, 1) ∈ own').

Let vm' := set_word d i 0 (set_ref t 0 (set_mgr s' vm)).

Lemma drop_tab d' j : d' ∈ ds → tab vm' d' j = if decide (d' = d ∧ j = i) then None else tab vm d' j.
Proof. intros Hd'. unfold tab, vm'. rewrite phys_set_word. case_decide; done. Qed.

Lemma drop_walk d' v : d' ∈ ds → uvpn v → walk vm' d' v = if decide (d' = d ∧ v / 1024 = i) then 0 else walk vm d' v.
Proof.
  intros Hd' Hv. unfold walk. rewrite drop_tab by done. case_decide as E; [done|].
  destruct (tab vm d' (v / 1024)) as [t'|] eqn:Et; [|done].
  destruct (pi_tab _ _ _ _ _ Hi _ _ _ Hd' (uvpn_pdx _ Hv) Et) as (_ & Hn & _). unfold vm'.
  rewrite phys_set_word, decide_False; [done|]. intros [-> _]. done.
Qed.

Lemma drop_present d' v : d' ∈ ds → uvpn v → present (walk vm' d' v) = true → walk vm' d' v = walk vm d' v.
Proof. intros Hd' Hv. rewrite drop_walk by done. by case_decide. Qed.

Lemma drop_count f : count vm' ds f = count vm ds f.
Proof.
  apply zsum_ext. intros d' Hd'. apply zsum_ext. intros v [Hv1 Hv2]%elem_of_seqZ. assert (uvpn v) as Hv by (unfold uvpn; lia).
  rewrite drop_walk by done. case_decide as E; [|done]. destruct E as [-> E]. unfold maps.
  by rewrite (Hno v Hv E).
Qed.

Lemma drop_is_table p : is_table vm' ds p ↔ is_table vm ds p ∧ p ≠ t.
Proof.
  destruct (pi_tab _ _ _ _ _ Hi _ _ _ Hd Hr Ht) as (_ & Hn & Hinj). unfold is_table. split.
  - intros [Hp'|(d' & j & Hd' & Hj & E)]; [split; [by left|by intros ->]|].
    rewrite drop_tab in E by done. case_decide as Hdj; [done|]. split; [right; eauto|]. intros ->.
    apply Hdj. by apply Hinj.
  - intros [[Hp'|(d' & j & Hd' & Hj & E)] Hne]; [by left|]. right. exists d', j. split; [done|]. split; [done|].
    rewrite drop_tab by done. case_decide as Hdj; [|done]. destruct Hdj as [-> ->]. congruence.
Qed.

Lemma drop_inv : pg_inv vm' ds own' (t :: fr) noref ∧ released vm vm' ds own own' fr (t :: fr) d (λ j, j = i).
Proof.
  destruct (pi_tab _ _ _ _ _ Hi _ _ _ Hd Hr Ht) as (Hto & Hn & Hinj). split.
  - split; try apply Hi; try done.
    + intros p. rewrite Hp. apply (pi_range _ _ _ _ _ Hi).
    + intros d' Hd'. apply Ho; [by intros ->|]. by apply (pi_dir _ _ _ _ _ Hi).
    + intros d' j u Hd' Hj. rewrite drop_tab by done. case_decide as E; [done|]. intros Hu.
      destruct (pi_tab _ _ _ _ _ Hi _ _ _ Hd' Hj Hu) as (Huo & Hun & Huinj). split_and!; [|done|].
      * apply Ho; [|done]. intros ->. apply E. by apply Hinj.
      * intros e j' He Hj'. rewrite drop_tab by done. case_decide; [done|]. by apply Huinj.
    + intros d' v Hd' Hv Hpr. rewrite (drop_present d' v Hd' Hv Hpr) in Hpr |- *.
      destruct (pi_leaf _ _ _ _ _ Hi d' v Hd' Hv Hpr) as [H1 H2]. rewrite drop_is_table. split; [|tauto].
      apply Ho; [|done]. intros E. apply H2. rewrite E. right. eauto.
    + intros f Hf. rewrite drop_is_table in Hf. rewrite drop_count. cbn. destruct (decide (f = t)) as [->|Hne].
      * rewrite fn_lookup_insert. assert (count vm ds t = 0); [|lia].
        unfold count. rewrite (zsum_ext _ (λ _, 0)); [by apply zsum_const0|]. intros e He.
        rewrite (zsum_ext _ (λ _, 0)); [by apply zsum_const0|]. intros v [Hv1 Hv2]%elem_of_seqZ.
        unfold maps. destruct (present (walk vm e v)) eqn:Hpr; [|done]. cbn.
        destruct (Z.eqb_spec (frame_of (walk vm e v)) t) as [E|]; [|done]. exfalso.
        destruct (pi_leaf _ _ _ _ _ Hi e v He ltac:(unfold uvpn; lia) Hpr) as [_ Hnt]. apply Hnt. rewrite E. right. eauto.
      * rewrite fn_lookup_insert_ne by congruence. apply (pi_refs _ _ _ _ _ Hi). tauto.
    + intros v e Hd3 Hv Hl. destruct (pi_tlb _ _ _ _ _ Hi v e Hd3 Hv Hl) as [Hpe Hwe]. split; [done|].
      change (rcr3 vm') with (rcr3 vm). rewrite drop_walk by done. case_decide as E; [|done]. destruct E as [E1 E2].
      rewrite E1 in Hwe. specialize (Hno v Hv E2). cbn in Hno. congruence.
  - split; try done.
    + intros d' j Hd' _. by apply drop_tab.
    + intros d' v Hd' Hv. by apply drop_walk.
    + intros p Hpt. unfold vm', set_word. cbn. rewrite fn_lookup_insert_ne; [done|]. intros ->. apply Hpt. by left.
    + intros p Hpo Hpt. apply Ho; [|done]. intros ->. rewrite drop_is_table in Hpt. destruct Hpt as [[_ ?]|Hpt]; [done|].
      apply Hpt. right. eauto.
    + intros f Hf. set_solver.
    + intros j u Hj -> Hu. set_solver.
Qed.
End drop_table.

Lemma tab_frame_of vm d i t : tab vm d i = Some t → present (phys vm d i) = true ∧ frame_of (phys vm d i) = t.
Proof. unfold tab. destruct (present (phys vm d i)); naive_solver. Qed.

Lemma exit_round_spec vm ds own fr d i :
  pg_inv vm ds own fr noref → d ∈ ds → 0 ≤ i < 704 → no_maps vm d (λ j, j = i) →
  ∃ vm' own' fr',
    (if present (phys vm d i) then
       let! p := pde2page vm (phys vm d i) in
       let! vm := free_page p vm in Ok (set_word d i 0 vm)
     else Ok vm) = Ok vm' ∧
    pg_inv vm' ds own' fr' noref ∧ released vm vm' ds own own' fr fr' d (λ j, j = i).
Proof.
  intros Hi Hd Hr Hno. destruct (tab vm d i) as [t|] eqn:Ht.
  - destruct (tab_frame_of _ _ _ _ Ht) as [-> Hf].
    destruct (pi_tab _ _ _ _ _ Hi _ _ _ Hd Hr Ht) as (Hto & _ & _).
    destruct (pi_own_range _ _ _ _ _ _ Hi Hto) as [Ht1 _].
    destruct (own_split _ _ _ _ _ _ Hi Hto) as (o1 & o2 & -> & Hkeep & _ & _).
    destruct (free_pages_law _ _ _ _ _ _ (pi_mgr _ _ _ _ _ Hi)) as (s' & Hfr & Hm).
    unfold pde2page, pa2page. fold (frame_of (phys vm d i)). rewrite Hf, (proj2 (Z.ltb_lt t (npage vm)) (proj2 Ht1)). cbn [bind].
    unfold free_page, free_pages. rewrite Hfr. cbn [bind].
    destruct (drop_inv vm ds _ (o1 ++ o2) fr s' d i t Hi Hd Hr Ht Hno Hm) as [Hi' Hrl]; [|done|].
    { rewrite !pages_of_app. cbn. rewrite <- !app_assoc. cbn. apply Permutation_app_head. symmetry.
      apply (Permutation_middle (pages_of o2) fr t). }
    eexists _, (o1 ++ o2), (t :: fr). split; [done|]. done.
  - assert (present (phys vm d i) = false) as -> by (unfold tab in Ht; by destruct (present (phys vm d i))).
    exists vm, own, fr. split; [done|]. split; [done|]. apply released_refl. by intros j _ ->.
Qed.

(** Directory entries of the page tables that the addresses from [st] to [en] use. *)
Definition table_range (st en i : Z) : Prop := st / PTSIZE ≤ i ∧ i * PTSIZE < en.

#[export] Instance table_range_dec st en i : Decision (table_range st en i).
Proof. unfold table_range. apply _. Defined.

Lemma PDX_div st : 0 ≤ st < USERTOP → PDX st = st / PTSIZE ∧ 0 ≤ st / PTSIZE < 704.
Proof.
  unfold USERTOP, PTSIZE, PGSIZE. intros Hs. rewrite PDX_ppn by lia. rewrite PPN_div, Z.div_div by lia.
  split; [done|]. split; [apply Z.div_pos; lia|apply Z.div_lt_upper_bound; lia].
Qed.

Lemma exit_loop_spec fuel d en : ∀ st vm ds own fr,
  pg_inv vm ds own fr noref → d ∈ ds → 0 ≤ st < en → en ≤ USERTOP → st `mod` PTSIZE = 0 →
  en ≤ st + PTSIZE * Z.of_nat fuel → no_maps vm d (table_range st en) →
  ∃ vm' own' fr', exit_loop fuel d st en vm = Ok vm' ∧ pg_inv vm' ds own' fr' noref ∧
    released vm vm' ds own own' fr fr' d (table_range st en).
Proof.
  induction fuel as [|fuel IH]; intros st vm ds own fr Hi Hd Hs Hen Hm Hf Hno; [lia|].
  destruct (PDX_div st) as [Hx Hxr]; [lia|]. cbn [exit_loop]. rewrite Hx.
  assert (PTSIZE * (st / PTSIZE) = st) as Hst by (pose proof (Z.div_mod st PTSIZE ltac:(done)); lia).
  destruct (exit_round_spec vm ds own fr d (st / PTSIZE) Hi Hd Hxr) as (vm1 & own1 & fr1 & -> & Hi1 & Hr1).
  { intros v Hv E. apply Hno; [done|]. rewrite E. unfold table_range. lia. }
  cbn [bind]. rewrite u32_small by (unfold USERTOP, PTSIZE, PGSIZE in *; lia).
  rewrite (proj2 (Z.eqb_neq (st + PTSIZE) 0)) by (unfold PTSIZE, PGSIZE; lia). cbn [negb andb].
  assert ((st + PTSIZE) / PTSIZE = st / PTSIZE + 1) as Hq by (by rewrite <- (Z.div_add st 1 PTSIZE) by done).
  destruct (Z.ltb_spec (st + PTSIZE) en) as [Hlt|Hge].
  - destruct (IH (st + PTSIZE) vm1 ds own1 fr1 Hi1 Hd) as (vm2 & own2 & fr2 & -> & Hi2 & Hr2); try done.
    + unfold PTSIZE, PGSIZE in *. lia.
    + rewrite Z.add_mod, Hm by done. done.
    + lia.
    + intros v Hv Hvr. rewrite (rl_walk _ _ _ _ _ _ _ _ _ Hr1) by done. case_decide; [done|]. apply Hno; [done|].
      unfold table_range in *. rewrite Hq in Hvr. lia.
    + exists vm2, own2, fr2. split; [done|]. split; [done|]. eapply released_trans; [|done|exact Hr1|exact Hr2].
      intros i Hir. unfold table_range. rewrite Hq. unfold PTSIZE, PGSIZE in *. nia.
  - exists vm1, own1, fr1. split; [done|]. split; [done|].
    eapply (released_trans _ _ _ _ _ _ _ _ _ _ _ (λ j, j = st / PTSIZE) (λ _, False)); [|done|exact Hr1|by apply released_refl].
    intros i Hir. unfold table_range. unfold PTSIZE, PGSIZE in *. split; [|intros [->|[]]; lia]. intros [H1 H2]. left. nia.
Qed.

Lemma exit_range_spec d st en vm ds own fr :
  pg_inv vm ds own fr noref → d ∈ ds → aligned_range st en → USERBASE ≤ st → no_maps vm d (table_range st en) →
  ∃ vm' own' fr', exit_range d st en vm = Ok vm' ∧ pg_inv vm' ds own' fr' noref ∧
    released vm vm' ds own own' fr fr' d (table_range st en).
Proof.
  intros Hi Hd Hrg Hb Hno. pose proof Hrg as (Hst & Hlt & Hen & Hm1 & Hm2). unfold exit_range, USER_ACCESS.
  rewrite (proj2 (Z.eqb_eq _ _) Hm1), (proj2 (Z.eqb_eq _ _) Hm2), (proj2 (Z.leb_le _ _) Hb), (proj2 (Z.leb_le _ _) Hen),
    (proj2 (Z.ltb_lt _ _) Hlt). cbn [andb].
  pose proof (Z.div_mod st PTSIZE ltac:(done)) as Hdm. pose proof (Z.mod_pos_bound st PTSIZE ltac:(done)) as Hmb.
  assert (ROUNDDOWN st PTSIZE = PTSIZE * (st / PTSIZE)) as -> by (unfold ROUNDDOWN; lia).
  assert (PTSIZE * (st / PTSIZE) / PTSIZE = st / PTSIZE) as Hq by (rewrite Z.mul_comm; by apply Z.div_mul).
  assert (0 ≤ st / PTSIZE) by (apply Z.div_pos; done).
  assert (∀ i, table_range (PTSIZE * (st / PTSIZE)) en i ↔ table_range st en i) as Hiff by (intros i; unfold table_range; by rewrite Hq).
  destruct (exit_loop_spec (range_fuel st en) d en (PTSIZE * (st / PTSIZE)) vm ds own fr Hi Hd) as (vm' & own' & fr' & He & Hi' & Hr'); try done.
  - unfold PTSIZE, PGSIZE in *. lia.
  - rewrite Z.mul_comm. by apply Z.mod_mul.
  - unfold range_fuel. rewrite Z2Nat.id by (apply Z.div_pos; unfold PGSIZE; lia).
    pose proof (Z.div_mod st PGSIZE ltac:(done)) as D1. pose proof (Z.div_mod en PGSIZE ltac:(done)) as D2. rewrite Hm1 in D1. rewrite Hm2 in D2.
    assert ((en - st) / PGSIZE = en / PGSIZE - st / PGSIZE) as ->.
    { rewrite D1, D2 at 1. replace (PGSIZE * (en / PGSIZE) + 0 - (PGSIZE * (st / PGSIZE) + 0)) with ((en / PGSIZE - st / PGSIZE) * PGSIZE) by lia.
      by apply Z.div_mul. }
    unfold PTSIZE, PGSIZE in *. change (4096 * 1024) with 4194304 in *.
    assert (st / 4096 < en / 4096) by lia. nia.
  - intros v Hv Hvr. by apply Hno; [|apply Hiff].
  - exists vm', own', fr'. split; [done|]. split; [done|].
    destruct Hr' as [A1 A2 A3 A4 A5 A6 A7 A8]. split; try done.
    + intros d' i Hd' Hir. rewrite A2 by done. specialize (Hiff i). repeat case_decide; try done; tauto.
    + intros d' v Hd' Hv. rewrite A3 by done. specialize (Hiff (v / 1024)). repeat case_decide; try done; tauto.
    + intros i t Hir Hq' Ht. apply (A7 i); [done|by apply Hiff|done].
Qed.

(** ** exit_mmap *)

(** The page numbers resp. directory entries of the areas [l]. *)
Definition area_pages (s : vmm) (p v : Z) : bool :=
  match vmas s !! p with Some a => bool_decide (in_range (vm_start a) (vm_end a) v) | None => false end.
Definition area_tables (s : vmm) (p i : Z) : bool :=
  match vmas s !! p with Some a => bool_decide (table_range (vm_start a) (vm_end a) i) | None => false end.
Definition in_areas (s : vmm) (l : list Z) (v : Z) : Prop := existsb (λ p, area_pages s p v) l = true.
Definition in_tables (s : vmm) (l : list Z) (i : Z) : Prop := existsb (λ p, area_tables s p i) l = true.

#[export] Instance in_areas_dec s l v : Decision (in_areas s l v).
Proof. unfold in_areas. apply _. Defined.
#[export] Instance in_tables_dec s l i : Decision (in_tables s l i).
Proof. unfold in_tables. apply _. Defined.

Definition area_ok (s : vmm) (p : Z) : Prop :=
  ∃ a, vmas s !! p = Some a ∧ aligned_range (vm_start a) (vm_end a) ∧ USERBASE ≤ vm_start a.

Lemma unmap_areas_spec s d l : ∀ vm ds own fr,
  pg_inv vm ds own fr noref → d ∈ ds → Forall (area_ok s) l →
  ∃ vm' own' fr', unmap_areas s (Some d) l vm = Ok vm' ∧ pg_inv vm' ds own' fr' noref ∧
    unmapped vm vm' ds own own' fr fr' d (in_areas s l).
Proof.
  induction l as [|p l IH]; intros vm ds own fr Hi Hd Hl; cbn [unmap_areas].
  { exists vm, own, fr. split; [done|]. split; [done|]. by apply unmapped_refl. }
  apply Forall_cons in Hl as [(a & Ha & Hrg & Hb) Hl]. unfold get_vma. rewrite Ha. cbn [deref bind].
  destruct (unmap_range_spec _ _ _ _ _ _ _ Hi Hd Hrg Hb) as (vm1 & own1 & fr1 & -> & Hi1 & Hu1). cbn [bind].
  destruct (IH _ _ _ _ Hi1 Hd Hl) as (vm2 & own2 & fr2 & -> & Hi2 & Hu2).
  exists vm2, own2, fr2. split; [done|]. split; [done|]. eapply unmapped_trans; [|exact Hu1|exact Hu2].
  intros v Hv. unfold in_areas. cbn [existsb]. rewrite orb_true_iff. unfold area_pages at 1. rewrite Ha.
  by rewrite bool_decide_eq_true.
Qed.

Lemma exit_areas_spec s d l : ∀ vm ds own fr,
  pg_inv vm ds own fr noref → d ∈ ds → Forall (area_ok s) l → no_maps vm d (λ _, True) →
  ∃ vm' own' fr', exit_areas s (Some d) l vm = Ok vm' ∧ pg_inv vm' ds own' fr' noref ∧
    released vm vm' ds own own' fr fr' d (in_tables s l).
Proof.
  induction l as [|p l IH]; intros vm ds own fr Hi Hd Hl Hno; cbn [exit_areas].
  { exists vm, own, fr. split; [done|]. split; [done|]. by apply released_refl. }
  apply Forall_cons in Hl as [(a & Ha & Hrg & Hb) Hl]. unfold get_vma. rewrite Ha. cbn [deref bind].
  destruct (exit_range_spec d _ _ _ _ _ _ Hi Hd Hrg Hb) as (vm1 & own1 & fr1 & -> & Hi1 & Hu1).
  { intros v Hv _. by apply Hno. }
  cbn [bind]. destruct (IH _ _ _ _ Hi1 Hd Hl) as (vm2 & own2 & fr2 & -> & Hi2 & Hu2).
  { intros v Hv _. rewrite (rl_walk _ _ _ _ _ _ _ _ _ Hu1) by done. case_decide; [done|]. by apply Hno. }
  exists vm2, own2, fr2. split; [done|]. split; [done|]. eapply released_trans; [|done|exact Hu1|exact Hu2].
  intros v Hv. unfold in_tables. cbn [existsb]. rewrite orb_true_iff. unfold area_tables at 1. rewrite Ha.
  by rewrite bool_decide_eq_true.
Qed.

Lemma no_present_walk e : present (clear e) = false.
Proof. unfold clear. by destruct (present e) eqn:E. Qed.

(** C30: [exit_mmap] gives back everything an address space holds: when every mapping
    and every page table of the directory lies in an area of the process, no page
    table is left afterwards, all of them and all frames that no other address space
    maps are free, the other address spaces keep their mappings, and the reference
    counts and the TLB stay exact. *)
Theorem exit_mmap_frees s q m d vm ds own fr :
  pg_inv vm ds own fr noref → mms s !! q = Some m → mm_count m = 0 → pgdir m = Some d → d ∈ ds →
  Forall (area_ok s) (mmap_list m) →
  (∀ v, uvpn v → present (walk vm d v) = true → in_areas s (mmap_list m) v) →
  (∀ i t, 0 ≤ i < 704 → tab vm d i = Some t → in_tables s (mmap_list m) i) →
  ∃ vm' own' fr', exit_mmap s q vm = Ok vm' ∧ pg_inv vm' ds own' fr' noref ∧
    (∀ i, 0 ≤ i < 704 → tab vm' d i = None) ∧
    (∀ i t, 0 ≤ i < 704 → tab vm d i = Some t → t ∈ fr') ∧
    (∀ f, 0 < count vm ds f → count vm' ds f = 0 → f ∈ fr') ∧
    (∀ d' v, d' ∈ ds → d' ≠ d → uvpn v → walk vm' d' v = walk vm d' v) ∧
    pages_of own' ++ fr' ≡ₚ pages_of own ++ fr.
Proof.
  intros Hi Hm Hc Hp Hd Hl Hv Ht. unfold exit_mmap, get_mm. rewrite Hm. cbn [deref bind]. rewrite Hc, Hp. cbn [Z.eqb].
  destruct (unmap_areas_spec _ _ _ _ _ _ _ Hi Hd Hl) as (vm1 & own1 & fr1 & -> & Hi1 & Hu). cbn [bind].
  assert (no_maps vm1 d (λ _, True)) as Hno.
  { intros v Hv' _. rewrite (um_walk _ _ _ _ _ _ _ _ _ Hu) by done. case_decide as E; [apply no_present_walk|].
    destruct (present (walk vm d v)) eqn:Hpr; [|done]. exfalso. apply E. auto. }
  destruct (exit_areas_spec _ _ _ _ _ _ _ Hi1 Hd Hl Hno) as (vm2 & own2 & fr2 & -> & Hi2 & Hr).
  pose proof Hu as [A1 A2 A3 A4 A5 A6 A7 A8 A9 A10]. pose proof Hr as [B1 B2 B3 B4 B5 B6 B7 B8].
  assert (∀ d' v, d' ∈ ds → uvpn v → present (walk vm2 d' v) = present (walk vm1 d' v)) as Hpr.
  { intros d' v Hd' Hv'. rewrite B3 by done. case_decide as E; [|done]. destruct E as [-> _]. by rewrite Hno. }
  assert (∀ f, count vm2 ds f = count vm1 ds f) as Hcnt.
  { intros f. apply zsum_ext. intros d' Hd'. apply zsum_ext. intros v [Hv1 Hv2]%elem_of_seqZ.
    unfold maps. rewrite Hpr by (done || unfold uvpn; lia). destruct (present (walk vm1 d' v)) eqn:E; [|done].
    rewrite B3 by (done || unfold uvpn; lia). case_decide as E'; [|done]. destruct E' as [-> _].
    rewrite Hno in E by (done || unfold uvpn; lia). done. }
  exists vm2, own2, fr2. split_and!; [done|done|..].
  - intros i Hir. rewrite B2, A2 by done. case_decide as E; [done|]. destruct (tab vm d i) as [t|] eqn:Et; [|done].
    exfalso. apply E. eauto.
  - intros i t Hir Et. apply (B7 i); [done|eauto|]. by rewrite A2.
  - intros f Hf1 Hf2. rewrite Hcnt in Hf2. auto.
  - intros d' v Hd' Hne Hv'. rewrite B3, A3, !decide_False by (done || tauto). done.
  - by rewrite B8.
Qed.

(** ** Copying *)

(** [vm'] is [vm] after the copy of the mappings of the page numbers [P] from one
    directory to another. *)
Record copied vm vm' ds (own own' : list block) (fr fr' : list Z) (to from : Z) (P : Z → Prop) : Prop := {
  cp_env : same_env vm vm';
  cp_rest : ∀ d v, d ∈ ds → d ≠ to → uvpn v → walk vm' d v = walk vm d v;
  cp_to : ∀ v, uvpn v → ¬ (P v ∧ present (walk vm from v) = true) → walk vm' to v = walk vm to v;
  cp_new : ∀ v, uvpn v → P v → present (walk vm from v) = true →
    ∃ n, walk vm' to v = leaf_entry n (Z.land (walk vm from v) PTE_USER) ∧ n ∈ fr ∧ count vm' ds n = 1 ∧
         phys vm' n = phys vm (frame_of (walk vm from v));
  cp_count : ∀ f, f ∉ fr → count vm' ds f = count vm ds f;
  cp_phys : ∀ p, (p, 1) ∈ own → ¬ is_table vm ds p → phys vm' p = phys vm p ∧ ¬ is_table vm' ds p;
  cp_own : ∀ p, (p, 1) ∈ own → (p, 1) ∈ own';
  cp_fr : ∀ f, f ∈ fr' → f ∈ fr;
  cp_total : pages_of own' ++ fr' ≡ₚ pages_of own ++ fr
}.

Lemma copied_refl vm ds own fr to from (P : Z → Prop) :
  (∀ v, uvpn v → P v → present (walk vm from v) = false) → copied vm vm ds own own fr fr to from P.
Proof. intros HP. split; try done. intros v Hv Hpv Hpr. rewrite HP in Hpr by done. done. Qed.

Lemma land_user e : 0 ≤ Z.land e PTE_USER < 4096.
Proof.
  change PTE_USER with (Z.ones 3). rewrite Z.land_ones by lia. pose proof (Z.mod_pos_bound e (2 ^ 3) ltac:(lia)). lia.
Qed.

Lemma copied_trans vm vm1 vm2 ds own own1 own2 fr fr1 fr2 to from (P Q R : Z → Prop) :
  pg_inv vm ds own fr noref → pg_inv vm1 ds own1 fr1 noref → to ∈ ds → from ∈ ds → to ≠ from →
  (∀ v, uvpn v → R v ↔ P v ∨ Q v) → (∀ v, P v → ¬ Q v) →
  copied vm vm1 ds own own1 fr fr1 to from P → copied vm1 vm2 ds own1 own2 fr1 fr2 to from Q →
  copied vm vm2 ds own own2 fr fr2 to from R.
Proof.
  intros Hi Hi1 Hto Hfrom Hne HR HPQ [A1 A2 A3 A4 A5 A6 A7 A8 A9] [B1 B2 B3 B4 B5 B6 B7 B8 B9].
  assert (∀ v, uvpn v → walk vm1 from v = walk vm from v) as Hwf by (intros; by apply A2).
  split.
  - by transitivity vm1.
  - intros d v Hd Hdt Hv. rewrite B2, A2 by done. done.
  - intros v Hv Hno. specialize (HR v Hv). rewrite B3, A3; [done|done|tauto|done|]. rewrite Hwf by done. tauto.
  - intros v Hv Hr Hpr. apply HR in Hr; [|done]. destruct Hr as [Hp|Hq].
    + destruct (A4 v Hv Hp Hpr) as (n & Hw & Hn & Hc & Hph). exists n.
      assert (walk vm2 to v = walk vm1 to v) as Hw2. { apply B3; [done|]. intros [Hq _]. by eapply HPQ. }
      assert (n ∈ pages_of own ++ fr) as Hnr by set_solver.
      pose proof (pi_range _ _ _ _ _ Hi n Hnr) as Hr1. pose proof (pi_npage _ _ _ _ _ Hi) as Hr2.
      destruct (leaf_entry_spec n (Z.land (walk vm from v) PTE_USER)) as [L1 L2]; [lia|apply land_user|].
      destruct (pi_leaf _ _ _ _ _ Hi1 to v Hto Hv) as [Ho Hnt]; [by rewrite Hw|]. rewrite Hw, L2 in Ho, Hnt.
      destruct (own_split _ _ _ _ _ _ Hi1 Ho) as (? & ? & _ & _ & _ & Hnfr).
      split_and!; [by rewrite Hw2|done|by rewrite B5|]. rewrite (proj1 (B6 n Ho Hnt)). done.
    + destruct (B4 v Hv Hq) as (n & Hw & Hn & Hc & Hph); [by rewrite Hwf|]. exists n. rewrite Hwf in Hw, Hph by done.
      destruct (pi_leaf _ _ _ _ _ Hi from v Hfrom Hv Hpr) as [Ho Hnt].
      split_and!; [done|by apply A8|done|]. rewrite Hph. by apply A6.
  - intros f Hf. rewrite B5, A5; [done|done|]. intros ?. by apply Hf, A8.
  - intros p Hp Hnt. destruct (A6 p Hp Hnt) as [E1 E2]. destruct (B6 p (A7 _ Hp) E2) as [-> E3]. done.
  - auto.
  - auto.
  - by rewrite B9.
Qed.

(** The outcomes of a copy: success, out of memory without swapping (an error code
    or, for a page, a failed assertion), or the fault of [swap_out(NULL)]. *)
Definition copy_outcome vm (m : res (Z * vmem S)) ds (own : list block) (fr : list Z) (to from : Z) (P : Z → Prop) : Prop :=
  (∃ vm' own' fr', m = Ok (0, vm') ∧ pg_inv vm' ds own' fr' noref ∧ copied vm vm' ds own own' fr fr' to from P) ∨
  (swap_init_ok vm = false ∧ (m = Panicked ∨ ∃ vm' own' fr', m = Ok (- E_NO_MEM, vm') ∧ pg_inv vm' ds own' fr' noref)) ∨
  (swap_init_ok vm = true ∧ m = Faulted).

Section copy.
Context (ide : Z → bool).

Lemma copy_page_spec vm ds own fr to from la t :
  pg_inv vm ds own fr noref → check_mm_struct vm = None → to ∈ ds → from ∈ ds → to ≠ from → 0 ≤ la < USERTOP →
  tab vm from (PPN la / 1024) = Some t → present (walk vm from (PPN la)) = true → present (walk vm to (PPN la)) = false →
  copy_outcome vm (copy_page ide to la (t, PPN la `mod` 1024) vm) ds own fr to from (λ v, v = PPN la).
Proof.
  intros Hi Hc Hto Hfrom Hne Hla Ht Hpf Hpt. destruct (uvpn_la la Hla) as [Hv _]. unfold copy_page.
  destruct (get_pte_spec ide vm ds own fr noref to la Hi Hc Hto Hla) as [(o & vm1 & -> & Hs)|[(_ & Hs & ->)|(_ & Hs & ->)]].
  2:{ right. left. split; [done|]. right. exists vm, own, fr. done. }
  2:{ right. by right. }
  destruct Hs as (t1 & own1 & fr1 & -> & Ht1 & Hi1 & Hg). cbn [bind fst snd].
  pose proof Hg as [Henv1 Hw1 Htab1 Htl1 Ho1 Htb1 Hpg1 Hph1 Hfr1 Htot1].
  assert (tab vm1 from (PPN la / 1024) = Some t) as Ht' by (apply Htab1; [done|by apply uvpn_pdx|done]).
  rewrite <- (walk_tab _ _ _ _ Ht'). rewrite Hw1 by done. set (e := walk vm from (PPN la)) in *. set (f := frame_of e).
  destruct (pi_leaf _ _ _ _ _ Hi from (PPN la) Hfrom Hv Hpf) as [Hfo Hft]. fold e f in Hfo, Hft.
  destruct (pi_own_range _ _ _ _ _ _ Hi1 (Ho1 _ Hfo)) as [Hf1 Hf2].
  unfold pte2page. rewrite Hpf. unfold pa2page. change (PPN (PTE_ADDR e)) with f.
  rewrite (proj2 (Z.ltb_lt f (npage vm1)) (proj2 Hf1)). cbn [bind].
  assert (check_mm_struct vm1 = None) as Hc1 by (by rewrite (proj1 (proj2 (proj2 (proj2 Henv1))))).
  assert (swap_init_ok vm1 = swap_init_ok vm) as Hs1 by apply Henv1.
  destruct (alloc_page_spec ide vm1 ds own1 fr1 noref Hi1 Hc1) as [(o & vm2 & -> & Hs)|[(_ & Hs & ->)|(_ & Hs & ->)]].
  2:{ right. left. rewrite <- Hs1. split; [done|]. by left. }
  2:{ right. right. by rewrite <- Hs1. }
  destruct Hs as (n & s' & fr2 & -> & -> & Hfr2 & Hi2). cbn [bind].
  assert (n ∈ fr1) as Hn1 by (rewrite Hfr2; set_solver).
  destruct (not_owned_fresh _ _ _ _ _ _ Hi1 Hn1) as (Hno & Hnt & Hcn).
  destruct (pi_own_range _ _ _ _ _ n Hi2) as [Hnr1 Hnr2]; [set_solver|].
  unfold KADDR. rewrite !PPN_page2pa by done. change (npage (set_mgr s' vm1)) with (npage vm1) in *.
  rewrite (proj2 (Z.ltb_lt f (npage vm1)) (proj2 Hf1)), (proj2 (Z.ltb_lt n (npage vm1)) (proj2 Hnr1)). cbn [bind].
  change (phys (set_mgr s' vm1) f) with (phys vm1 f).
  destruct (set_frame_spec (set_mgr s' vm1) ds _ _ _ n (phys vm1 f) Hi2 Hnt) as (Hi3 & Htab3 & Hw3).
  set (vm3 := set_frame n (phys vm1 f) (set_mgr s' vm1)) in *.
  assert (∀ d v, d ∈ ds → uvpn v → walk vm3 d v = walk vm d v) as Hw3'.
  { intros d v Hd Hv'. rewrite Hw3 by done. by apply Hw1. }
  assert (∀ p, is_table vm3 ds p ↔ is_table vm1 ds p) as Hit3 by (intros p; apply is_table_ext; auto).
  assert (tab vm3 to (PPN la / 1024) = Some t1) as Ht3 by (by rewrite Htab3).
  destruct (page_insert_spec ide vm3 ds _ _ _ to n la (Z.land e PTE_USER) Hi3) as [(r & vm4 & -> & -> & own4 & fr4 & Hi4 & Hin)|[(Hnone & _)|(Hnone & _)]];
    [done|done|done|set_solver|by rewrite Hit3|done|apply land_user| |congruence|congruence].
  cbn [bind Z.eqb]. left. exists vm4, own4, fr4. split; [done|]. split; [done|].
  destruct Hin as [Ei Ew Eph Etb Epg Etl Eo _ Efr Etot].
  destruct (leaf_entry_spec n (Z.land e PTE_USER) Hnr2 (land_user e)) as [L1 L2].
  assert (n ∈ fr) as Hnf by (by apply Hfr1).
  destruct (not_owned_fresh _ _ _ _ _ _ Hi Hnf) as (Hno0 & Hnt0 & Hcn0).
  assert (∀ g, count vm4 ds g = count vm ds g + b2z (n =? g)) as Hcount.
  { intros g. rewrite (count_upd vm3 vm4 ds to (PPN la) _ g) by (done || apply Hi). rewrite Hw3' by done.
    rewrite (count_ext vm vm3) by done. unfold maps. rewrite Hpt, L1, L2. cbn. lia. }
  assert (∀ p, (p, 1) ∈ own → ¬ is_table vm ds p → ¬ is_table vm4 ds p ∧ phys vm4 p = phys vm p) as Hphys.
  { intros p Hp Hpnt. assert (¬ is_table vm1 ds p) as H1 by (intros ?; by apply Hpnt, Hpg1).
    assert (¬ is_table vm4 ds p) as H4. { intros E. apply H1, Hit3, Epg; [set_solver|done]. }
    split; [done|]. rewrite Eph by done. unfold vm3. cbn. rewrite fn_lookup_insert_ne by (intros ->; done). by apply Hph1. }
  split.
  - transitivity vm1; [done|]. transitivity vm3; done.
  - intros d v Hd Hdt Hv'. rewrite Ew by done. unfold upd_walk. rewrite decide_False by tauto. by apply Hw3'.
  - intros v Hv' Hnp. rewrite Ew by done. unfold upd_walk. rewrite decide_False by naive_solver. by apply Hw3'.
  - intros v _ -> _. exists n. split_and!.
    + rewrite Ew by done. unfold upd_walk. by rewrite decide_True.
    + done.
    + rewrite Hcount, Hcn0, Z.eqb_refl. done.
    + rewrite Eph. 2:{ intros E. apply Hnt, Hit3, Epg; [set_solver|done]. }
      unfold vm3. cbn. rewrite fn_lookup_insert. apply Hph1. intros E. by apply Hft, Hpg1.
  - intros g Hg'. rewrite Hcount, (proj2 (Z.eqb_neq n g)) by (intros ->; done). cbn. lia.
  - intros p Hp Hpnt. destruct (Hphys p Hp Hpnt). done.
  - intros p Hp. apply Eo; [set_solver|]. left. by rewrite Hw3'.
  - intros g Hg'. apply Hfr1. rewrite Hfr2. apply Efr in Hg'; [set_solver|]. by rewrite Hw3'.
  - rewrite Etot. cbn. rewrite <- Htot1, Hfr2. apply Permutation_middle.
Qed.
Lemma copy_outcome_trans vm vm1 m ds own own1 fr fr1 to from (P Q R : Z → Prop) :
  pg_inv vm ds own fr noref → pg_inv vm1 ds own1 fr1 noref → to ∈ ds → from ∈ ds → to ≠ from →
  (∀ v, uvpn v → R v ↔ P v ∨ Q v) → (∀ v, P v → ¬ Q v) →
  copied vm vm1 ds own own1 fr fr1 to from P → copy_outcome vm1 m ds own1 fr1 to from Q →
  copy_outcome vm m ds own fr to from R.
Proof.
  intros Hi Hi1 Hto Hfrom Hne HR HPQ Hc. pose proof (cp_env _ _ _ _ _ _ _ _ _ _ Hc) as Henv.
  assert (swap_init_ok vm1 = swap_init_ok vm) as Hs1 by apply Henv. unfold copy_outcome. rewrite Hs1.
  intros [(vm2 & own2 & fr2 & -> & Hi2 & Hc2)|Hr]; [left|right; exact Hr].
  exists vm2, own2, fr2. split; [done|]. split; [done|]. eapply (copied_trans vm vm1 vm2); [exact Hi|exact Hi1|done|done|done|exact HR|exact HPQ|exact Hc|exact Hc2].
Qed.

Lemma copy_outcome_ext vm m ds own fr to from (P R : Z → Prop) :
  (∀ v, uvpn v → R v ↔ P v) → copy_outcome vm m ds own fr to from P → copy_outcome vm m ds own fr to from R.
Proof.
  intros HR [(vm2 & own2 & fr2 & -> & Hi2 & [A1 A2 A3 A4 A5 A6 A7 A8 A9])|Hr]; [left|right; exact Hr].
  exists vm2, own2, fr2. split; [done|]. split; [done|]. split; try done.
  - intros v Hv. rewrite HR by done. by apply A3.
  - intros v Hv. rewrite HR by done. by apply A4.
Qed.

Lemma copy_loop_spec fuel to from en : ∀ st vm ds own fr,
  pg_inv vm ds own fr noref → check_mm_struct vm = None → to ∈ ds → from ∈ ds → to ≠ from → aligned_range st en →
  (en - st) / PGSIZE ≤ Z.of_nat fuel → (∀ v, uvpn v → in_range st en v → present (walk vm to v) = false) →
  copy_outcome vm (copy_loop ide fuel to from st en vm) ds own fr to from (in_range st en).
Proof.
  induction fuel as [|fuel IH]; intros st vm ds own fr Hi Hc Hto Hfrom Hne Hrg Hf Hfree.
  { destruct (next_page _ _ Hrg) as (Hle & _). assert (1 ≤ (en - st) / PGSIZE); [|lia].
    apply Z.div_le_lower_bound; unfold PGSIZE in *; lia. }
  pose proof Hrg as (Hst & Hlt & Hen & Hm1 & Hm2). assert (0 ≤ st < USERTOP) as Hla by lia.
  destruct (uvpn_la st Hla) as [Hv _]. pose proof (PPN_lt _ _ Hlt Hm1 Hm2) as HPlt.
  cbn [copy_loop]. rewrite (find_pte_spec _ _ _ _ _ _ _ Hi Hfrom Hla). cbn [bind].
  destruct (tab vm from (PPN st / 1024)) as [t|] eqn:Ht; cbn [bind].
  - destruct (next_page _ _ Hrg) as (Hle & Hu & Hm & HP & Hq). cbn [fst snd].
    (* the page [st], then the rest *)
    assert (∀ vm1 own1 fr1, pg_inv vm1 ds own1 fr1 noref → copied vm vm1 ds own own1 fr fr1 to from (λ v, v = PPN st) →
      copy_outcome vm (if decide (0 ≠ 0) then Ok (0, vm1)
        else if negb (u32 (st + PGSIZE) =? 0) && (u32 (st + PGSIZE) <? en)
             then copy_loop ide fuel to from (u32 (st + PGSIZE)) en vm1 else Ok (0, vm1)) ds own fr to from (in_range st en)) as Hnext.
    { intros vm1 own1 fr1 Hi1 Hcp. rewrite Hu, decide_False by congruence.
      rewrite (proj2 (Z.eqb_neq (st + PGSIZE) 0)) by (unfold PGSIZE; lia). cbn [negb andb].
      destruct (Z.ltb_spec (st + PGSIZE) en) as [Hlt'|Hge].
      - eapply (copy_outcome_trans vm vm1 _ ds own own1 fr fr1 to from (λ v, v = PPN st) (in_range (st + PGSIZE) en));
          [exact Hi|exact Hi1|done|done|done| | |exact Hcp|].
        + intros v Hv'. unfold in_range. rewrite HP. lia.
        + intros v -> Hr. unfold in_range in Hr. lia.
        + apply (IH (st + PGSIZE) vm1 ds own1 fr1 Hi1); [|done|done|done| |lia|].
          * by rewrite (proj1 (proj2 (proj2 (proj2 (cp_env _ _ _ _ _ _ _ _ _ _ Hcp))))).
          * unfold aligned_range. unfold PGSIZE in *. split_and!; done || lia.
          * intros v Hv' Hr. unfold in_range in Hr. rewrite (cp_to _ _ _ _ _ _ _ _ _ _ Hcp) by (done || lia).
            apply Hfree; [done|]. unfold in_range. lia.
      - assert (en = st + PGSIZE) as He by lia. apply (copy_outcome_ext _ _ _ _ _ _ _ (λ v, v = PPN st)).
        + intros v _. unfold in_range. rewrite He, HP. lia.
        + left. eauto 10. }
    rewrite <- (walk_tab _ _ _ _ Ht). destruct (present (walk vm from (PPN st))) eqn:Hpr.
    + destruct (copy_page_spec vm ds own fr to from st t Hi Hc Hto Hfrom Hne Hla Ht Hpr) as [(vm1 & own1 & fr1 & -> & Hi1 & Hcp)|[[Hs [->|(vm1 & own1 & fr1 & -> & Hi1)]]|[Hs ->]]].
      { apply Hfree; [done|]. unfold in_range. lia. }
      * cbn [bind]. by eapply Hnext.
      * right. left. split; [done|]. by left.
      * right. left. split; [done|]. right. exists vm1, own1, fr1. done.
      * right. by right.
    + cbn [bind]. apply (Hnext vm own fr); [done|]. apply copied_refl. by intros v _ ->.
  - destruct (next_table _ _ Hrg) as (Hlt1 & Hm & H32 & Hne0 & Hsame & HPlt1 & Hfu).
    set (st' := ROUNDDOWN (u32 (st + PTSIZE)) PTSIZE) in *. rewrite decide_False by congruence.
    rewrite (proj2 (Z.eqb_neq st' 0)) by done. cbn [negb andb].
    assert (∀ v, PPN st ≤ v < PPN st' → present (walk vm from v) = false) as Hnone.
    { intros v Hr. rewrite walk_no_table; [done|]. by rewrite Hsame. }
    destruct (Z.ltb_spec st' en) as [Hlt'|Hge].
    + eapply (copy_outcome_trans vm vm _ ds own own fr fr to from (in_range st st') (in_range st' en));
        [exact Hi|exact Hi|done|done|done| | | |].
      * intros v Hv'. unfold in_range. pose proof (PPN_lt _ _ Hlt' Hm Hm2). lia.
      * intros v. unfold in_range. lia.
      * apply copied_refl. intros v _. apply Hnone.
      * apply (IH st' vm ds own fr Hi Hc Hto Hfrom Hne); [|lia|].
        -- unfold aligned_range. split_and!; done || lia.
        -- intros v Hv' Hr. apply Hfree; [done|]. unfold in_range in *. lia.
    + left. exists vm, own, fr. split; [done|]. split; [done|]. apply copied_refl. intros v _ Hr. apply Hnone.
      unfold in_range in Hr. pose proof (PPN_le _ _ Hge). lia.
Qed.


End copy.
End aspace.

(** ** Concrete states for the witnesses *)

(** A memory that is zero everywhere, with the directories [ds]. *)
Definition zero_vm {S} (s : S) (np d : Z) : vmem S :=
  mkVm s np (λ _, 0) (λ _, 0) (λ _ _, 0) ∅ d false None [] (λ _ _, 0) 0.

Lemma zero_vm_inv {S} `{pmm_manager S} (s : S) np d ds own fr :
  mgr_inv s own fr → (∀ p, p ∈ pages_of own ++ fr → 0 ≤ p < np) → np ≤ 2 ^ 20 → NoDup ds → Z.of_nat (length ds) ≤ 2048 →
  (∀ d, d ∈ ds → (d, 1) ∈ own) → pg_inv (zero_vm s np d) ds own fr (λ _, 0).
Proof.
  intros Hm Hr Hn Hds Hl Hd.
  assert (∀ e v, walk (zero_vm s np d) e v = 0) as Hw by done.
  split; try done; cbn.
  - intros f _. unfold count. rewrite (zsum_ext _ (λ _, 0)); [by unfold zsum; rewrite zsum_const0|]. intros e _.
    rewrite (zsum_ext _ (λ _, 0)); [by apply zsum_const0|]. done.
Qed.

Definition demo_get {A B} (d : B) (m : res (A * B)) : B := match m with Ok (_, b) => b | _ => d end.

(** Pages 1 to 8; 1 and 2 are page directories, 3 is a data page. *)
Definition demo_mgr : free_area :=
  let s := demo_ready 8 in
  let s := demo_get s (PmmManager.alloc_pages s 1) in
  let s := demo_get s (PmmManager.alloc_pages s 1) in
  demo_get s (PmmManager.alloc_pages s 1).

Lemma demo_ready_mgr : mgr_inv (demo_ready 8) [] (seqZ 1 8).
Proof.
  destruct (default_init_rep (demo_memory 8)) as (s0 & Hs0 & Hrep0 & Hp0).
  { split; [by eexists|].
    assert (map_Forall (λ i pg, is_Some (DefaultPmm.free_list (demo_memory 8) !! page_link i) ∧
      PageReserved pg = true) (pages (demo_memory 8))) as H; [|exact H].
    refine (bool_decide_unpack _ _). by vm_compute. }
  destruct (default_init_memmap_rep s0 [] 1 8 Hrep0) as (s1 & Hs1 & Hrep1);
    [lia|lia|simpl; lia|by intros i ?%elem_of_nil| |].
  { intros i Hi. rewrite Hp0. assert (i = 1 ∨ i = 2 ∨ i = 3 ∨ i = 4 ∨ i = 5 ∨ i = 6 ∨ i = 7 ∨ i = 8)
      as [-> | [-> | [-> | [-> | [-> | [-> | [-> | ->]]]]]]] by lia; by eexists. }
  unfold demo_ready. rewrite Hs0. simpl. rewrite Hs1. exists [(1, 8)]. split; [|done].
  split; [done|constructor| |by vm_compute]. apply (NoDup_seqZ 1 8).
Qed.

(** An allocation of the page [p] that the manager hands out next. *)
Lemma demo_alloc_page (s : free_area) own fr p s' fr' :
  mgr_inv s own fr → PmmManager.alloc_pages s 1 = Ok (Some p, s') → fr = p :: fr' → mgr_inv s' ((p, 1) :: own) fr'.
Proof.
  intros Hm Ha ->. destruct (alloc_pages_law _ _ _ 1 Hm) as (o & s2 & Ha' & Ho); [lia|].
  rewrite Ha in Ha'. injection Ha' as <- <-. destruct Ho as (fr2 & Hp & Hm2).
  eapply mgr_perm; [exact Hm2|]. change (seqZ p 1) with [p] in Hp. symmetry. exact (Permutation_cons_inv Hp).
Qed.

Lemma demo_mgr_inv : mgr_inv demo_mgr [(3, 1); (2, 1); (1, 1)] (seqZ 4 5).
Proof.
  unfold demo_mgr. set (s1 := demo_get (demo_ready 8) (PmmManager.alloc_pages (demo_ready 8) 1)).
  assert (mgr_inv s1 [(1, 1)] (seqZ 2 7)) as H1.
  { eapply demo_alloc_page; [apply demo_ready_mgr|by vm_compute|done]. }
  set (s2 := demo_get s1 (PmmManager.alloc_pages s1 1)).
  assert (mgr_inv s2 [(2, 1); (1, 1)] (seqZ 3 6)) as H2 by (eapply demo_alloc_page; [exact H1|by vm_compute|done]).
  eapply demo_alloc_page; [exact H2|by vm_compute|done].
Qed.

Definition demo_vm : vmem free_area := zero_vm demo_mgr 9 1.

Lemma demo_vm_inv : pg_inv demo_vm [1; 2] [(3, 1); (2, 1); (1, 1)] (seqZ 4 5) (λ _, 0).
Proof.
  apply zero_vm_inv.
  - apply demo_mgr_inv.
  - intros p Hp. assert (p ∈ seqZ 1 8) as E; [|apply elem_of_seqZ in E; lia].
    rewrite elem_of_app in Hp. rewrite elem_of_seqZ in Hp |- *. cbn in Hp. set_unfold. lia.
  - done.
  - refine (bool_decide_unpack _ _). by vm_compute.
  - done.
  - intros d. set_solver.
Qed.

Definition demo_la : Z := 0x800000.


(** The data page is mapped at [demo_la] in directory 1. *)
Definition demo_mapped : vmem free_area := demo_get demo_vm (page_insert (λ _, false) 1 3 demo_la PTE_USER demo_vm).

Definition demo_space : vmm :=
  mkVmm {[5 := mkVma (Some 9) demo_la (demo_la + PGSIZE) (Z.lor VM_READ VM_WRITE)]}
        {[9 := mkMm [5] None (Some 1) 1 None 0]}.

Lemma demo_mapped_inv :
  ∃ own fr, pg_inv demo_mapped [1; 2] own fr (λ _, 0) ∧
    ∀ d v, d ∈ [1; 2] → uvpn v → walk demo_mapped d v = upd_walk (walk demo_vm) 1 (PPN demo_la) (leaf_entry 3 PTE_USER) d v.
Proof.
  destruct (page_insert_spec (λ _, false) demo_vm [1; 2] _ _ _ 1 3 demo_la PTE_USER demo_vm_inv)
    as [(r & vm' & E & _ & own & fr & Hi & Hin)|[(_ & _ & E)|(_ & _ & E)]].
  - reflexivity.
  - set_solver.
  - by vm_compute.
  - set_solver.
  - intros [?|(d & i & _ & _ & Ht)]; [set_solver|discriminate Ht].
  - done.
  - by vm_compute.
  - exists own, fr. unfold demo_mapped. rewrite E. cbn [demo_get]. split; [done|]. apply Hin.
  - exfalso. assert ((match page_insert (λ _, false) 1 3 demo_la PTE_USER demo_vm with Ok (r, _) => r =? 0 | _ => false end) = true) as T
      by (by vm_compute). by rewrite E in T.
  - exfalso. assert ((match page_insert (λ _, false) 1 3 demo_la PTE_USER demo_vm with Ok (r, _) => r =? 0 | _ => false end) = true) as T
      by (by vm_compute). by rewrite E in T.
Qed.

Lemma demo_range : aligned_range demo_la (demo_la + PGSIZE).
Proof. by vm_compute. Qed.

Lemma demo_tables i t : 0 ≤ i < 704 → tab demo_mapped 1 i = Some t → in_tables demo_space [5] i.
Proof.
  intros Hi Ht. assert (forallb (λ i, match tab demo_mapped 1 i with Some _ => i =? 2 | None => true end) (seqZ 0 704) = true) as Hall
    by (by vm_compute).
  rewrite forallb_forall in Hall. specialize (Hall i). rewrite <- list_elem_of_In, elem_of_seqZ, Ht in Hall.
  assert (i = 2) as -> by (apply Z.eqb_eq; apply Hall; lia). by vm_compute.
Qed.

Lemma exit_mmap_frees_witness :
  ∃ own fr vm' own' fr', exit_mmap demo_space 9 demo_mapped = Ok vm' ∧ pg_inv vm' [1; 2] own' fr' (λ _, 0) ∧
    (∀ i, 0 ≤ i < 704 → tab vm' 1 i = None) ∧
    (∀ i t, 0 ≤ i < 704 → tab demo_mapped 1 i = Some t → t ∈ fr') ∧
    (∀ f, 0 < count demo_mapped [1; 2] f → count vm' [1; 2] f = 0 → f ∈ fr') ∧
    (∀ d' v, d' ∈ [1; 2] → d' ≠ 1 → uvpn v → walk vm' d' v = walk demo_mapped d' v) ∧
    pages_of own' ++ fr' ≡ₚ pages_of own ++ fr.
Proof.
  destruct demo_mapped_inv as (own & fr & Hi & Hw). exists own, fr.
  apply (exit_mmap_frees demo_space 9 (mkMm [5] None (Some 1) 1 None 0) 1 demo_mapped [1; 2] own fr Hi).
  - reflexivity.
  - reflexivity.
  - reflexivity.
  - by left.
  - repeat constructor. eexists. split; [reflexivity|]. split; [apply demo_range|by vm_compute].
  - intros v Hv. rewrite Hw by (done || (by left) || (by right; left)). unfold upd_walk.
    destruct (decide (1 = 1 ∧ v = PPN demo_la)) as [[_ ->]|]; [by vm_compute|done].
  - apply demo_tables.
Defined.


(** ** Swapping with few frames *)

(** Page faults (write, page not present) at the addresses [l], in this order. *)
Fixpoint faults {S} `{pmm_manager S} (s : vmm) (l : list Z) (vm : vmem S) : res (vmm * vmem S) :=
  match l with
  | [] => Ok (s, vm)
  | a :: l => let! (r, s, vm) := do_pgfault (λ _, false) s (Some 9) 2 a vm in assert! r =? 0 ;; faults s l vm
  end.

(** The address space of [check_swap] in a memory of four frames: the directory, the
    page table that the first fault takes, and two for data. *)
Definition swap_mm : mm_struct := mkMm [5] None (Some 1) 1 (Some pra_list_head) 0.
Definition swap_space : vmm := mkVmm {[5 := mkVma (Some 9) 0x1000 0x6000 (Z.lor VM_READ VM_WRITE)]} {[9 := swap_mm]}.
Definition swap_vm : vmem free_area :=
  mkVm (demo_get (demo_ready 4) (PmmManager.alloc_pages (demo_ready 4) 1)) 5 (λ _, 0) (λ _, 0) (λ _ _, 0) ∅ 1
       true (Some swap_mm) [] (λ _ _, 0) 1024.

(** A page that [do_pgfault] swaps in keeps the [pra_vaddr] of the frame's previous
    use.  When it becomes the victim later, [swap_out] writes it to the slot of, and
    unmaps, that other address: after faults at three pages, each twice, the pages
    0x1000 and 0x3000 share frame 4, whose reference count is 1, and frame 3, which
    the page 0x2000 had, is unmapped but not free. *)
Theorem swap_in_stale_vaddr :
  ∃ s vm, faults swap_space [0x1000; 0x2000; 0x3000; 0x1000; 0x2000; 0x3000] swap_vm = Ok (s, vm) ∧
    walk vm 1 1 = leaf_entry 4 (Z.lor PTE_U PTE_W) ∧ walk vm 1 3 = walk vm 1 1 ∧ page_ref vm 4 = 1 ∧
    present (walk vm 1 2) = false ∧ page_ref vm 3 = 1 ∧ tab vm 1 0 = Some 2 ∧ PmmManager.nr_free_pages (mgr vm) = 0.
Proof. do 2 eexists. split; [vm_compute; reflexivity|]. split_and!; vm_compute; done. Qed.
