(* ===== verification/Kmalloc.v ===== *)
(** * kern/mm/kmalloc.c: the slob allocator

    The free list lives in the memory that it manages: [kload] and [kstore] access the
    words of [vmem] through the kernel's addresses.  Pointers are addresses, [NULL] is 0.
    A block of [n] units takes [8 * n] bytes, of which the first word is [units] and the
    second, while the block is free, [next].  [Slob] verifies the ring of free blocks,
    [KernHeap] what callers see. *)

From stdpp Require Import functions.
From S2P Require Import Prelude ListH DefaultPmm PmmManager Vmm Paging PagingInv.

(** ** State *)

Record slob (S : Type) := mkSlob {
  sl_vm : vmem S;
  slobfree : Z;
  bigblocks : Z                 (* the first of the bigblock_t, 0 if there is none *)
}.
Arguments mkSlob {S}.
Arguments sl_vm {S}.
Arguments slobfree {S}.
Arguments bigblocks {S}.

Definition SLOB_UNIT : Z := 8.
Definition SLOB_UNITS (size : Z) : Z := u32 (size + SLOB_UNIT - 1) / SLOB_UNIT.
Definition SIZEOF_BIGBLOCK : Z := 12.
Definition PAGE_SIZE : Z := PGSIZE.

(** [ALIGN(addr, size)] *)
Definition ALIGN (addr size : Z) : Z := Z.land (u32 (addr + size - 1)) (u32 (Z.lnot (size - 1))).

(** ** Memory through kernel addresses *)

Section code.
Context {S : Type} `{pmm_manager S}.
Context (ide : Z → bool).
Notation slob := (slob S).
Implicit Types s : slob.

(** The kernel maps the pages of the memory from [KERNBASE] on; words are aligned. *)
Definition kvalid (vm : vmem S) (va : Z) : bool :=
  (KERNBASE <=? va) && (va - KERNBASE <? npage vm * PGSIZE) && (va mod 4 =? 0).
Definition kframe (va : Z) : Z := (va - KERNBASE) / PGSIZE.
Definition kword (va : Z) : Z := (va - KERNBASE) mod PGSIZE / 4.

Definition kload s (va : Z) : res Z :=
  if kvalid (sl_vm s) va then Ok (phys (sl_vm s) (kframe va) (kword va)) else Faulted.
Definition kstore (va v : Z) s : res slob :=
  if kvalid (sl_vm s) va
  then Ok (mkSlob (set_word (kframe va) (kword va) (u32 v) (sl_vm s)) (slobfree s) (bigblocks s)) else Faulted.

Definition with_vm (vm : vmem S) s : slob := mkSlob vm (slobfree s) (bigblocks s).
Definition with_slobfree p s : slob := mkSlob (sl_vm s) p (bigblocks s).
Definition with_bigblocks p s : slob := mkSlob (sl_vm s) (slobfree s) p.

(** [b->units], [b->next] *)
Definition units s (b : Z) : res Z := let! w := kload s b in Ok (i32 w).
Definition next s (b : Z) : res Z := kload s (u32 (b + 4)).
Definition set_units (b n : Z) s : res slob := kstore b n s.
Definition set_next (b p : Z) s : res slob := kstore (u32 (b + 4)) p s.

(** [b + n] *)
Definition slot (b n : Z) : Z := u32 (b + SLOB_UNIT * n).

(** ** Pages *)

Definition __slob_get_free_pages (order : Z) s : res (Z * slob) :=
  let! (o, m) := Paging.alloc_pages ide (i32 (Z.shiftl 1 order)) (sl_vm s) in
  let s := with_vm m s in
  match o with
  | None => Ok (0, s)
  | Some page => let! a := page2kva page m in Ok (a, s)
  end.

Definition __slob_free_pages (kva order : Z) s : res slob :=
  let! page := kva2page kva (sl_vm s) in
  let! m := Paging.free_pages page (i32 (Z.shiftl 1 order)) (sl_vm s) in Ok (with_vm m s).

(** Loops run along lists of blocks, of which the memory holds at most one per unit. *)
Definition slob_fuel s : nat := Z.to_nat (PGSIZE / SLOB_UNIT * npage (sl_vm s)).

(** ** slob_free *)

(** The loop that finds the reinsertion point. *)
Fixpoint free_point (fuel : nat) (b cur : Z) s : res Z :=
  match fuel with
  | O => NoFuel
  | Datatypes.S fuel =>
      let! n := next s cur in
      if (cur <? b) && (b <? n) then Ok cur
      else if (n <=? cur) && ((cur <? b) || (b <? n)) then Ok cur
      else free_point fuel b n s
  end.

(** Links block [b] to the next block [n], or merges them when they touch: what slob_free
    does first with the freed block and its successor, then with its predecessor and it. *)
Definition slob_join (b n : Z) s : res slob :=
  let! u := units s b in
  if slot b u =? n then
    let! nu := units s n in
    let! s := set_units b (i32 (u + nu)) s in
    let! nn := next s n in set_next b nn s
  else set_next b n s.

Definition slob_free (b size : Z) s : res slob :=
  if b =? 0 then Ok s
  else
    let! s := if size =? 0 then Ok s else set_units b (SLOB_UNITS size) s in
    let! cur := free_point (slob_fuel s) b (slobfree s) s in
    let! n := next s cur in
    let! s := slob_join b n s in
    let! s := slob_join cur b s in
    Ok (with_slobfree cur s).

(** ** slob_alloc *)

(** There is room in [cur], whose aligned part begins [delta] units behind it. *)
Definition slob_take (prev cur units_ aligned delta : Z) s : res (Z * slob) :=
  let! (prev, cur, s) :=
    if delta =? 0 then Ok (prev, cur, s)
    else
      let! cu := units s cur in
      let! s := set_units aligned (i32 (cu - delta)) s in
      let! cn := next s cur in
      let! s := set_next aligned cn s in
      let! s := set_next cur aligned s in
      let! s := set_units cur delta s in Ok (cur, aligned, s) in
  let! cu := units s cur in
  let! s :=
    if cu =? units_ then let! cn := next s cur in set_next prev cn s
    else
      let! s := set_next prev (slot cur units_) s in
      let! p := next s prev in
      let! cu := units s cur in
      let! s := set_units p (i32 (cu - units_)) s in
      let! p := next s prev in
      let! cn := next s cur in
      let! s := set_next p cn s in
      set_units cur units_ s in
  Ok (cur, with_slobfree prev s).

Fixpoint slob_search (fuel : nat) (size units_ align prev cur : Z) s : res (Z * slob) :=
  match fuel with
  | O => NoFuel
  | Datatypes.S fuel =>
      let aligned := if align =? 0 then 0 else ALIGN cur align in
      let delta := if align =? 0 then 0 else i32 (aligned - cur) / SLOB_UNIT in
      let! u := units s cur in
      if i32 (units_ + delta) <=? u then slob_take prev cur units_ aligned delta s
      else if cur =? slobfree s then
        if size =? PAGE_SIZE then Ok (0, s)
        else
          let! (page, s) := __slob_get_free_pages 0 s in
          if page =? 0 then Ok (0, s)
          else
            let! s := slob_free page PAGE_SIZE s in
            let cur := slobfree s in
            let! n := next s cur in slob_search fuel size units_ align cur n s
      else let! n := next s cur in slob_search fuel size units_ align cur n s
  end.

(** A search goes round the list at most twice, the second time with a new page. *)
Definition slob_alloc (size align : Z) s : res (Z * slob) :=
  assert! u32 (size + SLOB_UNIT) <? PAGE_SIZE ;;
  let prev := slobfree s in
  let! cur := next s prev in
  slob_search (2 * slob_fuel s) size (i32 (SLOB_UNITS size)) align prev cur s.

(** ** kmalloc, kfree, ksize *)

Fixpoint find_order_loop (fuel : nat) (size order : Z) : res Z :=
  match fuel with
  | O => NoFuel
  | Datatypes.S fuel => if 4096 <? size then find_order_loop fuel (Z.shiftr size 1) (order + 1) else Ok order
  end.

(** [size] has 32 bits. *)
Definition find_order (size : Z) : res Z := find_order_loop 32 size 0.

(** The fields [order], [pages], [next] of a [bigblock_t] *)
Definition bb_order (bb : Z) : Z := bb.
Definition bb_pages (bb : Z) : Z := u32 (bb + 4).
Definition bb_next (bb : Z) : Z := u32 (bb + 8).

Definition kmalloc (size : Z) s : res (Z * slob) :=
  if size <? PAGE_SIZE - SLOB_UNIT then
    let! (m, s) := slob_alloc (u32 (size + SLOB_UNIT)) 0 s in
    Ok (if m =? 0 then 0 else slot m 1, s)
  else
    let! (bb, s) := slob_alloc SIZEOF_BIGBLOCK 0 s in
    if bb =? 0 then Ok (0, s)
    else
      let! o := find_order (i32 size) in
      let! s := kstore (bb_order bb) o s in
      let! (p, s) := __slob_get_free_pages o s in
      let! s := kstore (bb_pages bb) p s in
      if p =? 0 then let! s := slob_free bb SIZEOF_BIGBLOCK s in Ok (0, s)
      else
        let! s := kstore (bb_next bb) (bigblocks s) s in
        Ok (p, with_bigblocks bb s).

(** The loop over the list of big blocks: where the pointer to the found one is stored
    ([None] is the variable [bigblocks]), and the found one. *)
Fixpoint find_big (fuel : nat) (last : option Z) (bb block : Z) s : res (option (option Z * Z)) :=
  match fuel with
  | O => NoFuel
  | Datatypes.S fuel =>
      if bb =? 0 then Ok None
      else
        let! p := kload s (bb_pages bb) in
        if p =? block then Ok (Some (last, bb))
        else let! n := kload s (bb_next bb) in find_big fuel (Some (bb_next bb)) n block s
  end.

Definition kfree (block : Z) s : res slob :=
  if block =? 0 then Ok s
  else
    let! found := if Z.land block (PAGE_SIZE - 1) =? 0
                  then find_big (Datatypes.S (slob_fuel s)) None (bigblocks s) block s else Ok None in
    match found with
    | Some (last, bb) =>
        let! n := kload s (bb_next bb) in
        let! s := match last with None => Ok (with_bigblocks n s) | Some a => kstore a n s end in
        let! o := kload s (bb_order bb) in
        let! s := __slob_free_pages block o s in
        slob_free bb SIZEOF_BIGBLOCK s
    | None => slob_free (slot block (-1)) 0 s
    end.

Definition ksize (block : Z) s : res Z :=
  if block =? 0 then Ok 0
  else
    let! found := if Z.land block (PAGE_SIZE - 1) =? 0
                  then find_big (Datatypes.S (slob_fuel s)) None (bigblocks s) block s else Ok None in
    match found with
    | Some (_, bb) => let! o := kload s (bb_order bb) in Ok (u32 (Z.shiftl PAGE_SIZE o))
    | None => let! u := units s (slot block (-1)) in Ok (u32 (u * SLOB_UNIT))
    end.

End code.
