(* ===== verification/Slob.v ===== *)
(** * The ring of free blocks of kern/mm/kmalloc.c

    The free list is a ring of blocks in address order, kept in the memory itself.
    [cells] relates it to a list of blocks, counted in units of eight bytes; [slob_inv]
    says that the free blocks and the blocks in use make up the pages that the allocator
    has taken.  [slob_free] inserts and merges, [slob_alloc] takes the first block that is
    large enough behind the place of the last operation, or adds a page. *)

From stdpp Require Import functions.
From S2P Require Import Prelude ListH DefaultPmm PmmManager Vmm Paging PagingInv Kmalloc.

Local Ltac Zify.zify_post_hook ::= Z.to_euclidean_division_equations.

(** ** Memory as words *)


(** The unit with which page [p] begins, and the number of units of a page. *)
Definition unit_of (p : Z) : Z := KERNBASE / 8 + 512 * p.

Section words.
Context {S : Type} `{pmm_manager S}.
Notation slob := (slob S).
Implicit Types s : slob.

Definition mw s (k : Z) : Z := phys (sl_vm s) (kframe (4 * k)) (kword (4 * k)).
Definition put (k v : Z) s : slob :=
  mkSlob (set_word (kframe (4 * k)) (kword (4 * k)) (u32 v) (sl_vm s)) (slobfree s) (bigblocks s).

Arguments mw : simpl never.
Arguments put : simpl never.

Lemma word_inj j k : kframe (4 * j) = kframe (4 * k) → kword (4 * j) = kword (4 * k) → j = k.
Proof.
  unfold kframe, kword, PGSIZE, KERNBASE. intros Hf Hw.
  assert ((4 * j - 3221225472) mod 4096 = 4 * ((4 * j - 3221225472) mod 4096 / 4)) by lia.
  assert ((4 * k - 3221225472) mod 4096 = 4 * ((4 * k - 3221225472) mod 4096 / 4)) by lia.
  lia.
Qed.

Lemma mw_put s k v j : mw (put k v s) j = if decide (j = k) then u32 v else mw s j.
Proof.
  unfold mw, put. cbn [sl_vm]. rewrite phys_set_word. destruct (decide (j = k)) as [->|Hne].
  - by rewrite decide_True.
  - rewrite decide_False; [done|]. intros [Hf Hw]. by apply Hne, word_inj.
Qed.

End words.

Ltac mw_simp := repeat (rewrite mw_put; first [rewrite decide_True by lia | rewrite decide_False by lia]).

Section ring.
Context {S : Type} `{pmm_manager S}.
Notation slob := (slob S).
Implicit Types s : slob.
#[local] Arguments mw : simpl never.
#[local] Arguments put : simpl never.

(** Unit [b] lies in the memory. *)
Definition uok s (b : Z) : Prop := KERNBASE / 8 ≤ b < unit_of (npage (sl_vm s)).

Definition fits_kernel s : Prop := npage (sl_vm s) ≤ KMEMSIZE / PGSIZE.

Lemma uok_word s b k : fits_kernel s → uok s b → 2 * b ≤ k ≤ 2 * b + 1 →
  kvalid (sl_vm s) (4 * k) = true ∧ 0 ≤ 4 * k < 2 ^ 32.
Proof.
  unfold fits_kernel, uok, unit_of, kvalid. change (KMEMSIZE / PGSIZE) with (2 ^ 15 * 7).
  unfold KERNBASE, PGSIZE. change (3221225472 / 8) with 402653184. intros Hn Hb Hk.
  rewrite !andb_true_iff, Z.leb_le, Z.ltb_lt, Z.eqb_eq. lia.
Qed.

Section access.
Context s b (Hf : fits_kernel s) (Hb : uok s b).

Lemma units_ok : units s (8 * b) = Ok (i32 (mw s (2 * b))).
Proof.
  destruct (uok_word s b (2 * b) Hf Hb) as [Hv _]; [lia|]. unfold units, kload.
  replace (8 * b) with (4 * (2 * b)) by lia. rewrite Hv. done.
Qed.

Lemma next_ok : next s (8 * b) = Ok (mw s (2 * b + 1)).
Proof.
  destruct (uok_word s b (2 * b + 1) Hf Hb) as [Hv Hr]; [lia|]. unfold next, kload.
  replace (8 * b + 4) with (4 * (2 * b + 1)) by lia. rewrite u32_small, Hv by lia. done.
Qed.

Lemma set_units_ok n : set_units (8 * b) n s = Ok (put (2 * b) n s).
Proof.
  destruct (uok_word s b (2 * b) Hf Hb) as [Hv _]; [lia|]. unfold set_units, kstore.
  replace (8 * b) with (4 * (2 * b)) by lia. rewrite Hv. done.
Qed.

Lemma set_next_ok n : set_next (8 * b) n s = Ok (put (2 * b + 1) n s).
Proof.
  destruct (uok_word s b (2 * b + 1) Hf Hb) as [Hv Hr]; [lia|]. unfold set_next, kstore.
  replace (8 * b + 4) with (4 * (2 * b + 1)) by lia. rewrite u32_small, Hv by lia. done.
Qed.
End access.

Lemma slot_ok s b n : fits_kernel s → uok s b → 0 ≤ n → uok s (b + n - 1) → slot (8 * b) n = 8 * (b + n).
Proof.
  unfold fits_kernel, uok, unit_of, slot, SLOB_UNIT. change (KMEMSIZE / PGSIZE) with (2 ^ 15 * 7).
  unfold KERNBASE. change (3221225472 / 8) with 402653184. intros Hn Hb H0 Hb'.
  replace (8 * b + 8 * n) with (8 * (b + n)) by lia.
  apply u32_small. lia.
Qed.

(** ** The ring of free blocks

    [cells s l e]: the blocks of [l] follow each other in the list, and the last one
    points to unit [e]. *)

Definition first_of (l : list block) (e : Z) : Z := match l with [] => e | (b, _) :: _ => b end.

Fixpoint cells s (l : list block) (e : Z) : Prop :=
  match l with
  | [] => True
  | (b, n) :: l => (uok s b ∧ uok s (b + n - 1) ∧ 0 < n) ∧ mw s (2 * b) = n ∧ mw s (2 * b + 1) = 8 * first_of l e ∧ cells s l e
  end.

Lemma first_of_app l1 l2 e : first_of (l1 ++ l2) e = first_of l1 (first_of l2 e).
Proof. by destruct l1 as [|[]]. Qed.

Lemma cells_app s l1 l2 e : cells s (l1 ++ l2) e ↔ cells s l1 (first_of l2 e) ∧ cells s l2 e.
Proof.
  induction l1 as [|[b n] l1 IH]; cbn; [tauto|]. rewrite IH, first_of_app. tauto.
Qed.

(** A list written from other words stays. *)
Lemma cells_keep s s' l e :
  npage (sl_vm s') = npage (sl_vm s) →
  (∀ b n, (b, n) ∈ l → mw s' (2 * b) = mw s (2 * b) ∧ mw s' (2 * b + 1) = mw s (2 * b + 1)) →
  cells s l e → cells s' l e.
Proof.
  intros Hn Hw. induction l as [|[b n] l IH]; cbn; [done|]. intros (Hu & H1 & H2 & Hl).
  destruct (Hw b n) as [E1 E2]; [by left|]. unfold uok in *. rewrite Hn, E1, E2. split_and!; try done; try lia.
  apply IH; [|done]. intros b' n' Hin. apply (Hw b' n'). by right.
Qed.

Lemma cells_elem s l e b n : cells s l e → (b, n) ∈ l → uok s b ∧ uok s (b + n - 1) ∧ 0 < n ∧ mw s (2 * b) = n.
Proof.
  induction l as [|[c m] l IH]; cbn; [set_solver|]. intros ((? & ? & ?) & ? & _ & Hl) [[= <- <-]|Hin]%elem_of_cons; auto.
Qed.

Lemma blocks_ok_first lo l b n l' e : blocks_ok lo (l ++ (b, n) :: l') → lo ≤ first_of (l ++ (b, n) :: l') e ≤ b.
Proof.
  destruct l as [|[c m] l]; cbn; [intros (? & _); lia|]. intros (? & ? & Hok).
  destruct (blocks_ok_before lo ((c, m) :: l) b n l' (c, m)); cbn in *; [split_and!; done|by left|lia].
Qed.

(** In an ordered list, the walk from the first block of [k] finds the place behind
    block [p]. *)
Lemma free_point_walk fuel lo k p m l e b s :
  fits_kernel s → blocks_ok lo (k ++ (p, m) :: l) → cells s (k ++ (p, m) :: l) e →
  e ≤ first_of (k ++ [(p, m)]) e → p < b → (l = [] ∨ b < first_of l e) → (length k < fuel)%nat →
  free_point fuel (8 * b) (8 * first_of (k ++ [(p, m)]) e) s = Ok (8 * p).
Proof.
  intros Hf. revert lo fuel. induction k as [|[c n] k IH]; intros lo fuel Hok Hc He Hp Hl Hfu;
    (destruct fuel as [|fuel]; [cbn in Hfu; lia|]); cbn in Hok, Hc, He |- *;
    destruct Hc as ((Hu & _) & _ & Hn & Hc); rewrite next_ok by done; cbn [bind]; rewrite Hn.
  - destruct Hok as (_ & _ & Hok). rewrite (proj2 (Z.ltb_lt (8 * p) (8 * b))) by lia. destruct Hl as [->|Hl]; cbn [first_of andb].
    + destruct (8 * b <? 8 * e); [done|]. by rewrite (proj2 (Z.leb_le _ _)) by lia.
    + by rewrite (proj2 (Z.ltb_lt _ _)) by lia.
  - destruct Hok as (? & ? & Hok). rewrite first_of_app. cbn [first_of].
    assert (c < first_of k p ≤ p) as Hcp.
    { pose proof (blocks_ok_first _ k p m l e Hok) as Hk. rewrite first_of_app in Hk. cbn in Hk. lia. }
    rewrite (proj2 (Z.ltb_ge (8 * b) _)), andb_false_r by lia. rewrite (proj2 (Z.leb_gt _ _)) by lia. cbn [andb].
    specialize (IH (c + n) fuel Hok Hc). rewrite first_of_app in IH. apply IH; cbn in *; lia || done.
Qed.

(** Behind the place, it goes on to the end of the list and round to its first block. *)
Lemma free_point_skip l lo fuel e b s :
  fits_kernel s → blocks_ok lo l → cells s l e → b < lo → e < b →
  free_point (length l + fuel) (8 * b) (8 * first_of l e) s = free_point fuel (8 * b) (8 * e) s.
Proof.
  intros Hf. revert lo. induction l as [|[c n] l IH]; intros lo Hok Hc Hlo He; [done|]. cbn in *.
  destruct Hok as (? & ? & Hok), Hc as ((Hu & _) & _ & Hn & Hc). rewrite next_ok by done. cbn [bind]. rewrite Hn.
  rewrite (proj2 (Z.ltb_ge (8 * c) _)) by lia. cbn [andb orb].
  replace ((8 * first_of l e <=? 8 * c) && (8 * b <? 8 * first_of l e)) with false.
  - apply (IH (c + n)); lia || done.
  - symmetry. apply andb_false_iff. rewrite Z.leb_gt, Z.ltb_ge. destruct l as [|[c' n'] l]; cbn in *; lia.
Qed.

Lemma free_point_ok bs a p m k l b f mf fuel s :
  fits_kernel s → bs = k ++ (p, m) :: l → blocks_ok a bs → first_of bs a = a → cells s bs a →
  (f, mf) ∈ bs → p < b → (l = [] ∨ b < first_of l a) → (length bs < fuel)%nat →
  free_point fuel (8 * b) (8 * f) s = Ok (8 * p).
Proof.
  intros Hf -> Hok Ha Hc Hin Hp Hl Hfu.
  assert (a ≤ p) as Hap by (eapply (blocks_ok_elem a _ p m); [done|set_solver]).
  apply elem_of_app in Hin as [Hin|Hin].
  - apply list_elem_of_split in Hin as (k1 & k2 & ->). rewrite <- app_assoc in Hok, Hc. cbn in Hok, Hc.
    apply blocks_ok_app in Hok as [Hok1 Hok]. apply cells_app in Hc as [_ Hc].
    assert (a ≤ f) as Haf.
    { destruct (blocks_ok_elem a (k1 ++ (f, mf) :: k2 ++ (p, m) :: l) f mf); [|set_solver|done]. by apply blocks_ok_app. }
    apply (free_point_walk fuel _ ((f, mf) :: k2) p m l a b s Hf Hok Hc); [exact Haf|done..|].
    rewrite !length_app in Hfu. cbn in *. lia.
  - apply elem_of_cons in Hin as [[= -> ->]|Hin].
    + apply blocks_ok_app in Hok as [_ Hok]. apply cells_app in Hc as [_ Hc].
      apply (free_point_walk fuel _ [] p m l a b s Hf Hok Hc); [exact Hap|done..|]. rewrite length_app in Hfu. cbn in *. lia.
    + destruct Hl as [->|Hl]; [by apply elem_of_nil in Hin|].
      apply list_elem_of_split in Hin as (l1 & l2 & ->).
      assert (cells s ((f, mf) :: l2) a) as Hc2 by (apply cells_app in Hc as [_ [_ Hc]%(cells_app _ [_])]; by apply cells_app in Hc as [_ ?]).
      assert (blocks_ok (b + 1) ((f, mf) :: l2)) as Hok2.
      { assert (blocks_ok f ((f, mf) :: l2)) as Hof.
        { apply blocks_ok_app in Hok as [_ (_ & _ & Hok)]. apply blocks_ok_app in Hok as [_ (? & ? & ?)]. cbn. split_and!; done || lia. }
        destruct Hof as (_ & ? & ?). cbn. split_and!; [|done..].
        apply blocks_ok_app in Hok as [_ (_ & _ & Hok)]. pose proof (blocks_ok_first _ _ _ _ _ a Hok). lia. }
      rewrite length_app in Hfu. cbn in Hfu. rewrite length_app in Hfu. cbn in Hfu.
      replace fuel with (length ((f, mf) :: l2) + (fuel - length ((f, mf) :: l2)))%nat by (cbn; lia).
      change (8 * f) with (8 * first_of ((f, mf) :: l2) a). rewrite (free_point_skip _ (b + 1)) by (lia || done).
      rewrite first_of_app in Ha. cbn in Ha. rewrite <- Ha at 1.
      replace (first_of k p) with (first_of (k ++ [(p, m)]) a) by (by rewrite first_of_app).
      apply (free_point_walk _ a k p m (l1 ++ (f, mf) :: l2)); try done; [|by right|cbn; lia].
      rewrite first_of_app. cbn. lia.
Qed.

(** ** Writes *)

(** Only words of units in [U] are written. *)
Record touched (U : Z → Prop) s s' : Prop := {
  to_env : same_env (sl_vm s) (sl_vm s');
  to_mgr : mgr (sl_vm s') = mgr (sl_vm s);
  to_refs : page_refs (sl_vm s') = page_refs (sl_vm s);
  to_tlb : tlb (sl_vm s') = tlb (sl_vm s);
  to_big : bigblocks s' = bigblocks s;
  to_words k : ¬ U (k / 2) → mw s' k = mw s k
}.

Lemma touched_refl U s : touched U s s.
Proof. done. Qed.

Lemma touched_trans U s1 s2 s3 : touched U s1 s2 → touched U s2 s3 → touched U s1 s3.
Proof.
  intros [E1 ? ? ? ? W1] [E2 ? ? ? ? W2]. split; try congruence; [by etrans|]. intros k Hk. rewrite W2, W1; done.
Qed.

Lemma touched_weaken (U V : Z → Prop) s s' : (∀ u, U u → V u) → touched U s s' → touched V s s'.
Proof. intros HUV [? ? ? ? ? W]. split; try done. intros k Hk. apply W. naive_solver. Qed.

Lemma touched_put (U : Z → Prop) k v s : U (k / 2) → touched U s (put k v s).
Proof. intros Hk. split; try done. intros j Hj. rewrite mw_put. case_decide; [by subst|done]. Qed.

Lemma touched_npage U s s' : touched U s s' → npage (sl_vm s') = npage (sl_vm s).
Proof. intros [E _ _ _ _ _]. apply E. Qed.

Lemma touched_cells (U : Z → Prop) s s' l e :
  touched U s s' → (∀ b n, (b, n) ∈ l → ¬ U b) → cells s l e → cells s' l e.
Proof.
  intros Ht Hd. apply cells_keep; [by eapply touched_npage|]. intros b n Hin. specialize (Hd b n Hin).
  split; apply (to_words _ _ _ Ht); [by replace (2 * b / 2) with b by lia|by replace ((2 * b + 1) / 2) with b by lia].
Qed.

Lemma units_small s b n : fits_kernel s → uok s b → uok s (b + n - 1) → 0 < n → i32 n = n ∧ u32 n = n ∧ 0 < n < 2 ^ 30.
Proof.
  unfold fits_kernel, uok, unit_of. change (KMEMSIZE / PGSIZE) with (2 ^ 15 * 7). unfold KERNBASE. intros.
  assert (0 < n < 2 ^ 30) by lia. split_and!; [apply i32_small; lia|apply u32_small; lia|lia..].
Qed.

Lemma unit_small s b : fits_kernel s → uok s b → u32 (8 * b) = 8 * b.
Proof.
  unfold fits_kernel, uok, unit_of. change (KMEMSIZE / PGSIZE) with (2 ^ 15 * 7). unfold KERNBASE. intros. apply u32_small; lia.
Qed.

Lemma fits_touched U s s' : touched U s s' → fits_kernel s → fits_kernel s'.
Proof. unfold fits_kernel. intros Ht. by rewrite (touched_npage _ _ _ Ht). Qed.

Lemma uok_touched U s s' b : touched U s s' → uok s b → uok s' b.
Proof. unfold uok. intros Ht. by rewrite (touched_npage _ _ _ Ht). Qed.

(** Two writes to block [b]: its new size and its new successor. *)
Lemma cells_put2 s b n l e v w :
  fits_kernel s → uok s b → uok s (b + n - 1) → 0 < n → u32 v = n → u32 w = 8 * first_of l e →
  (∀ c m, (c, m) ∈ l → c ≠ b) → cells s l e →
  cells (put (2 * b + 1) w (put (2 * b) v s)) ((b, n) :: l) e.
Proof.
  intros Hf Hb Hb' Hn Hv Hw Hne Hc. cbn. mw_simp. split_and!; try done.
  eapply (touched_cells (λ u, u = b)); [|intros c m Hin; by apply (Hne c m)|exact Hc].
  eapply touched_trans; apply touched_put; lia.
Qed.

Lemma cells_put1 s b n l e w :
  fits_kernel s → uok s b → uok s (b + n - 1) → 0 < n → mw s (2 * b) = n → u32 w = 8 * first_of l e →
  (∀ c m, (c, m) ∈ l → c ≠ b) → cells s l e → cells (put (2 * b + 1) w s) ((b, n) :: l) e.
Proof.
  intros Hf Hb Hb' Hn Hv Hw Hne Hc. cbn. mw_simp. split_and!; try done.
  eapply (touched_cells (λ u, u = b)); [|intros c m Hin; by apply (Hne c m)|exact Hc]. apply touched_put. lia.
Qed.

Lemma uok_first s l e : cells s l e → uok s e → uok s (first_of l e).
Proof. destruct l as [|[c m] l]; cbn; tauto. Qed.

Lemma slob_join_ok s b n l e :
  fits_kernel s → uok s b → uok s (b + n - 1) → 0 < n → mw s (2 * b) = n → uok s e → (l = [] → e < b) →
  (∀ c m, (c, m) ∈ l → b < c) → cells s l e →
  ∃ s', slob_join (8 * b) (8 * first_of l e) s = Ok s' ∧ touched (λ u, u = b) s s' ∧ slobfree s' = slobfree s ∧
    cells s' (glue (b, n) l) e.
Proof.
  intros Hf Hb Hb' Hn Hu He Heb Hl Hc. destruct (units_small s b n) as (Hi & Hun & Hs); [done..|].
  unfold slob_join. rewrite units_ok by done. cbn [bind]. rewrite Hu, Hi, (slot_ok s) by (done || lia).
  pose proof (uok_first _ _ _ Hc He) as Hfo.
  destruct l as [|[c m] l]; cbn [first_of glue fst snd] in *.
  { specialize (Heb eq_refl). rewrite (proj2 (Z.eqb_neq _ _)) by lia. rewrite set_next_ok by done. eexists. split; [done|].
    split; [apply touched_put; lia|]. split; [done|]. apply cells_put1; try done; [by apply (unit_small s)|by intros ??[]%elem_of_nil]. }
  pose proof Hc as ((Hcu & Hcu' & Hm) & Hmw & Hnx & Hc'). specialize (Hl c m) as Hbc. specialize (Hbc ltac:(by left)).
  assert (∀ c' m', (c', m') ∈ l → c' ≠ b) as Hlb by (intros c' m' Hin; specialize (Hl c' m' ltac:(by right)); lia).
  destruct (Z.eqb_spec (b + n) c) as [<-|Hne].
  - rewrite Z.eqb_refl. destruct (units_small s (b + n) m) as (Him & Hum & Hsm); [done..|].
    rewrite units_ok by done. cbn [bind]. rewrite Hmw, Him. rewrite set_units_ok by done. cbn [bind].
    rewrite next_ok by done. mw_simp. cbn [bind]. rewrite Hnx. rewrite set_next_ok by done. eexists. split; [done|].
    split; [eapply touched_trans; apply touched_put; lia|]. split; [done|].
    assert (uok s (b + (n + m) - 1)) as Hbm by (replace (b + (n + m) - 1) with (b + n + m - 1) by lia; done).
    destruct (units_small s b (n + m)) as (? & ? & ?); [done..|lia|].
    apply cells_put2; try done; try lia.
    + rewrite (i32_small (n + m)) by lia. done.
    + apply (unit_small s); [done|]. by apply (uok_first s l e).
  - rewrite (proj2 (Z.eqb_neq _ _)) by lia. rewrite set_next_ok by done. eexists. split; [done|].
    split; [apply touched_put; lia|]. split; [done|]. apply cells_put1; try done.
    + cbn. by apply (unit_small s).
    + intros c' m' [[= -> ->]|Hin]%elem_of_cons; [lia|by apply (Hlb c' m')].
Qed.

(** ** The invariant

    [a] is the unit of [arena], which lies below all pages of the allocator and stays in
    the ring; [bs] are the other free blocks, [al] the blocks in use, [pgs] the pages that
    the allocator has taken.  Free blocks and blocks in use make up these pages. *)

Definition slab (p : Z) : block := (unit_of p, 512).

Record slob_inv (a : Z) s (own : list block) (fr : list Z) (bs al : list block) (pgs : list Z) : Prop := {
  si_mgr : mgr_inv (mgr (sl_vm s)) own fr;
  si_range p : p ∈ pages_of own ++ fr → a + 2 ≤ unit_of p ∧ p < npage (sl_vm s);
  si_fits : fits_kernel s;
  si_arena : uok s a;
  si_blocks : blocks_ok (a + 2) bs;
  si_ring : cells s ((a, 1) :: bs) a;
  si_free : ∃ f m, slobfree s = 8 * f ∧ (f, m) ∈ (a, 1) :: bs;
  si_pgs : NoDup pgs ∧ ∀ p, p ∈ pgs → (p, 1) ∈ own;
  si_units : pages_of bs ++ pages_of al ≡ₚ pages_of (slab <$> pgs);
  si_al b n : (b, n) ∈ al → 0 < n
}.

Lemma elem_of_slabs u pgs : u ∈ pages_of (slab <$> pgs) ↔ ∃ p, p ∈ pgs ∧ unit_of p ≤ u < unit_of p + 512.
Proof.
  rewrite elem_of_pages_of. split.
  - intros (b & n & Hin & Hu). apply list_elem_of_fmap in Hin as (p & [= -> ->] & Hp). eauto.
  - intros (p & Hp & Hu). exists (unit_of p), 512. split; [|done]. apply list_elem_of_fmap. by exists p.
Qed.

Lemma slabs_nodup pgs : NoDup pgs → NoDup (pages_of (slab <$> pgs)).
Proof.
  induction 1 as [|p pgs Hp Hnd IH]; cbn; [constructor|]. apply NoDup_app. split; [apply NoDup_seqZ|].
  split; [|done]. intros u Hu%elem_of_seqZ (q & Hq & Hu')%elem_of_slabs. assert (p = q) as ->; [|done].
  unfold unit_of in *. lia.
Qed.

Section unit_facts.
Context a s own fr bs al pgs (Hi : slob_inv a s own fr bs al pgs).

Lemma si_unit u : u ∈ pages_of bs ∨ u ∈ pages_of al → a + 2 ≤ u ∧ uok s u.
Proof.
  intros Hu. assert (u ∈ pages_of (slab <$> pgs)) as (p & Hp & Hu')%elem_of_slabs.
  { rewrite <- (si_units _ _ _ _ _ _ _ Hi), elem_of_app. done. }
  apply (si_pgs _ _ _ _ _ _ _ Hi) in Hp. apply (block_page p 1) in Hp; [|lia].
  destruct (si_range _ _ _ _ _ _ _ Hi p) as [H1 H2]; [set_solver|]. pose proof (si_arena _ _ _ _ _ _ _ Hi) as [H3 _].
  unfold uok, unit_of in *. lia.
Qed.

Lemma si_nodup : NoDup (pages_of bs ++ pages_of al).
Proof. rewrite (si_units _ _ _ _ _ _ _ Hi). apply slabs_nodup, Hi. Qed.

Lemma si_block b n : (b, n) ∈ al → 0 < n ∧ a + 2 ≤ b ∧ uok s b ∧ uok s (b + n - 1).
Proof.
  intros Hin. pose proof (si_al _ _ _ _ _ _ _ Hi b n Hin) as Hn.
  assert (∀ u, b ≤ u < b + n → a + 2 ≤ u ∧ uok s u) as Hu.
  { intros u Hu. apply si_unit. right. apply elem_of_pages_of. eauto. }
  destruct (Hu b); [lia|]. destruct (Hu (b + n - 1)); [lia|]. done.
Qed.

Lemma blocks_ok_length lo hi l :
  blocks_ok lo l → (∀ b n, (b, n) ∈ l → b + n ≤ hi) → lo ≤ hi → Z.of_nat (length l) ≤ hi - lo.
Proof.
  clear Hi a s own fr bs al pgs. revert lo. induction l as [|[b n] l IH]; intros lo Hok Hhi Hlo; cbn; [lia|]. destruct Hok as (? & ? & Hok).
  specialize (Hhi b n) as Hb. specialize (Hb ltac:(by left)).
  specialize (IH _ Hok). rewrite Nat2Z.inj_succ. enough (Z.of_nat (length l) ≤ hi - (b + n)) by lia.
  apply IH; [|lia]. intros b' n' Hin. apply (Hhi b' n'). by right.
Qed.

(** The loops have enough rounds. *)
Lemma si_length : (Datatypes.S (length bs) < slob_fuel s)%nat.
Proof.
  unfold slob_fuel. change (PGSIZE / SLOB_UNIT) with 512.
  pose proof (si_arena _ _ _ _ _ _ _ Hi) as [Ha1 Ha2]. pose proof (si_blocks _ _ _ _ _ _ _ Hi) as Hok.
  assert (Z.of_nat (length bs) ≤ Z.max 0 (unit_of (npage (sl_vm s)) - (a + 2))) as Hl.
  { destruct bs as [|[b n] bs'] eqn:Hbs; [cbn; lia|]. rewrite <- Hbs in *.
    assert (a + 2 ≤ b) by (rewrite Hbs in Hok; apply Hok).
    destruct (cells_elem _ _ _ b n (si_ring _ _ _ _ _ _ _ Hi)) as ([_ ?] & _); [rewrite Hbs; by right; left|].
    enough (Z.of_nat (length bs) ≤ unit_of (npage (sl_vm s)) - (a + 2)) by lia.
    apply blocks_ok_length; [done| |lia]. intros c m Hin.
    destruct (cells_elem _ _ _ c m (si_ring _ _ _ _ _ _ _ Hi)) as (_ & [_ ?] & _); [by right|lia]. }
  unfold unit_of in *. lia.
Qed.
End unit_facts.

#[export] Instance pages_of_perm : Proper ((≡ₚ) ==> (≡ₚ)) pages_of.
Proof.
  induction 1 as [|[b n] l l' _ IH|[b n] [c m] l|l1 l2 l3 _ IH1 _ IH2]; cbn; [done|by rewrite IH| |by etrans].
  rewrite !app_assoc. f_equiv. apply Permutation_app_comm.
Qed.

Lemma slob_inv_perm a s own fr bs al al' pgs :
  al ≡ₚ al' → slob_inv a s own fr bs al pgs → slob_inv a s own fr bs al' pgs.
Proof.
  intros Hp []. split; try done.
  - by rewrite <- si_units0, Hp.
  - intros b n. rewrite <- Hp. apply si_al0.
Qed.

Lemma blocks_ok_glue lo b n l : blocks_ok lo ((b, n) :: l) → blocks_ok lo (glue (b, n) l).
Proof.
  destruct l as [|[c m] l]; cbn; [done|]. intros (? & ? & ? & ? & Hl).
  destruct (Z.eqb_spec (b + n) c) as [<-|]; cbn; split_and!; try done; try lia. by replace (b + (n + m)) with (b + n + m) by lia.
Qed.

(** What [spec_free] does between the neighbours of the freed block. *)
Lemma spec_free_between bs1 p m bs2 b n :
  blocks_ok 0 ((bs1 ++ [(p, m)]) ++ (b, n) :: bs2) →
  spec_free b n ((bs1 ++ [(p, m)]) ++ bs2) = bs1 ++ glue (p, m) (glue (b, n) bs2).
Proof.
  intros Hok. destruct (decide (p + m = b)) as [He|Hne]; [by apply spec_free_merge|].
  rewrite spec_free_append; [|done|].
  - rewrite <- app_assoc. f_equal. cbn. destruct bs2 as [|[c k] bs2]; cbn.
    + by rewrite (proj2 (Z.eqb_neq _ _)).
    + destruct (b + n =? c); cbn; by rewrite (proj2 (Z.eqb_neq _ _)).
  - intros l c k He. by apply app_inj_tail in He as [_ [= <- <-]].
Qed.

Lemma head_glue b n l e : first_of (glue (b, n) l) e = b.
Proof. destruct l as [|[c m] l]; cbn; [done|]. by destruct (b + n =? c). Qed.

Lemma elem_of_glue b n l c k : (c, k) ∈ glue (b, n) l → c = b ∨ (c, k) ∈ l.
Proof.
  destruct l as [|[d m] l]; cbn.
  - intros [[= -> ->]|?]%elem_of_cons; auto.
  - destruct (b + n =? d); intros [[= -> ->]|?]%elem_of_cons; auto. right. by right.
Qed.

(** The two links around the freed block. *)
Lemma slob_link_ok s bs1 p m bs2 b n a :
  fits_kernel s → blocks_ok 0 ((bs1 ++ [(p, m)]) ++ (b, n) :: bs2) → cells s ((bs1 ++ [(p, m)]) ++ bs2) a →
  uok s a → uok s b → uok s (b + n - 1) → 0 < n → mw s (2 * b) = n → a < b →
  ∃ s1 s2, slob_join (8 * b) (8 * first_of bs2 a) s = Ok s1 ∧ slob_join (8 * p) (8 * b) s1 = Ok s2 ∧
    touched (λ u, u = b ∨ u = p) s s2 ∧ slobfree s2 = slobfree s ∧ cells s2 (bs1 ++ glue (p, m) (glue (b, n) bs2)) a.
Proof.
  intros Hf Hok Hc Ha Hb Hb' Hn Hw Hab. apply cells_app in Hc as [[Hc1 Hp]%cells_app Hc2]. cbn in Hp.
  destruct Hp as ((Hpu & Hpu' & Hm) & Hpw & Hpn & _).
  assert (∀ c k, (c, k) ∈ bs2 → b < c) as Hbs2.
  { intros c k Hin. apply blocks_ok_app in Hok as [_ (_ & _ & Hok)].
    destruct (blocks_ok_elem _ _ c k Hok); [done|lia]. }
  destruct (slob_join_ok s b n bs2 a) as (s1 & E1 & Ht1 & Hf1 & Hg1); [done..|].
  rewrite <- app_assoc in Hok. cbn in Hok.
  assert (p < b ∧ ∀ c k, (c, k) ∈ bs1 → c < p) as [Hpb Hbs1].
  { pose proof Hok as [Hok1 Hok2]%blocks_ok_app. split; [cbn in Hok2; lia|].
    intros c k Hin. destruct (blocks_ok_before 0 bs1 p m ((b, n) :: bs2) (c, k)); [done..|cbn in *; lia]. }
  destruct (slob_join_ok s1 p m (glue (b, n) bs2) a) as (s2 & E2 & Ht2 & Hf2 & Hg2); try done.
  { by eapply fits_touched. } 1,2,4: by eapply uok_touched.
  { rewrite (to_words _ _ _ Ht1); [done|]. replace (2 * p / 2) with p by lia. lia. }
  { intros Hnil. exfalso. pose proof (head_glue b n bs2 a) as Hh. rewrite Hnil in Hh. cbn in Hh. lia. }
  { intros c k [->|Hin]%elem_of_glue; [done|]. specialize (Hbs2 c k Hin). lia. }
  rewrite head_glue in E2. exists s1, s2. split; [done|]. split; [done|]. split; [|split; [congruence|]].
  { eapply touched_trans; (eapply touched_weaken; [|done]); naive_solver. }
  apply cells_app. rewrite head_glue. split; [|done].
  eapply (touched_cells (λ u, u = p)); [done| |eapply (touched_cells (λ u, u = b)); [done| |exact Hc1]].
  - intros c k Hin ->. specialize (Hbs1 p k Hin). lia.
  - intros c k Hin ->. specialize (Hbs1 b k Hin). lia.
Qed.

Lemma spec_free_blocks lo bs1 bs2 b n :
  0 ≤ lo → blocks_ok lo (bs1 ++ (b, n) :: bs2) → blocks_ok lo (spec_free b n (bs1 ++ bs2)).
Proof.
  intros Hlo Hok. assert (blocks_ok 0 (bs1 ++ (b, n) :: bs2)) as Hok0 by (by eapply blocks_ok_weaken).
  destruct (decide (bs1 = [])) as [->|Hne].
  { cbn in Hok |- *. replace (spec_free b n bs2) with (glue (b, n) bs2); [by apply blocks_ok_glue|].
    symmetry. apply (spec_free_append b n [] bs2); [done|]. by intros [] ??. }
  destruct (exists_last Hne) as (k & [p m] & ->). rewrite spec_free_between by done.
  rewrite <- app_assoc in Hok. cbn in Hok. apply blocks_ok_app in Hok as [Hk (? & ? & Hok)]. apply blocks_ok_app. split; [done|].
  apply blocks_ok_glue. cbn. split_and!; [done..|]. by apply blocks_ok_glue.
Qed.

Lemma glue_head b n l : ∃ m, (b, m) ∈ glue (b, n) l.
Proof. destruct l as [|[c m] l]; cbn; [|destruct (b + n =? c)]; eexists; by left. Qed.

Lemma touched_slobfree U s s' p : touched U s s' → touched U s (with_slobfree p s').
Proof. by intros []. Qed.

(** The block is ready to be freed: its size is given, or its header still holds it. *)
Definition sized s (b n size : Z) : Prop := if size =? 0 then mw s (2 * b) = n else SLOB_UNITS size = n.

Lemma touched_inv (U : Z → Prop) a s s' own fr bs al pgs bs' al' :
  touched U s s' → slob_inv a s own fr bs al pgs → blocks_ok (a + 2) bs' → cells s' ((a, 1) :: bs') a →
  (∃ f m, slobfree s' = 8 * f ∧ (f, m) ∈ (a, 1) :: bs') → pages_of bs' ++ pages_of al' ≡ₚ pages_of bs ++ pages_of al →
  (∀ b n, (b, n) ∈ al' → 0 < n) → slob_inv a s' own fr bs' al' pgs.
Proof.
  intros Ht Hi. intros. split; try done.
  - rewrite (to_mgr _ _ _ Ht). apply Hi.
  - rewrite (touched_npage _ _ _ Ht). apply Hi.
  - eapply fits_touched; [done|apply Hi].
  - eapply uok_touched; [done|apply Hi].
  - apply Hi.
  - etrans; [done|apply Hi].
Qed.

Lemma size_written a s own fr bs al pgs b n size :
  slob_inv a s own fr bs al pgs → (b, n) ∈ al → sized s b n size →
  ∃ s0, (if size =? 0 then Ok s else set_units (8 * b) (SLOB_UNITS size) s) = Ok s0 ∧ touched (λ u, u = b) s s0 ∧
    slobfree s0 = slobfree s ∧ mw s0 (2 * b) = n ∧ cells s0 ((a, 1) :: bs) a.
Proof.
  intros Hi Hal Hsz. pose proof (si_fits _ _ _ _ _ _ _ Hi) as Hf. destruct (si_block _ _ _ _ _ _ _ Hi b n Hal) as (Hn & Hab & Hb & Hb').
  unfold sized in Hsz. destruct (size =? 0).
  { exists s. split_and!; try done. apply Hi. }
  rewrite set_units_ok, Hsz by done. exists (put (2 * b) n s). assert (touched (λ u, u = b) s (put (2 * b) n s)) as Ht by (apply touched_put; lia).
  split_and!; try done.
  - mw_simp. by apply (units_small s b).
  - eapply touched_cells; [exact Ht| |apply Hi]. intros c m Hin ->. apply elem_of_cons in Hin as [[= ? ?]|Hin]; [lia|].
    pose proof (si_nodup _ _ _ _ _ _ _ Hi) as (_ & Hd & _)%NoDup_app.
    apply (Hd b); rewrite elem_of_pages_of; [|exists b, n; split; [done|lia]].
    exists b, m. split; [done|]. destruct (blocks_ok_elem _ _ _ _ (si_blocks _ _ _ _ _ _ _ Hi) Hin). lia.
Qed.

(** [slob_free] puts the block at its place in address order and merges it with both
    neighbours. *)
Lemma slob_free_ok a s own fr bs al al' pgs b n size :
  slob_inv a s own fr bs al pgs → al ≡ₚ (b, n) :: al' → sized s b n size →
  ∃ s', slob_free (8 * b) size s = Ok s' ∧ slob_inv a s' own fr (spec_free b n bs) al' pgs ∧
    touched (λ u, u = b ∨ u ∈ a :: pages_of bs) s s'.
Proof.
  intros Hi Hal Hsz. pose proof (si_fits _ _ _ _ _ _ _ Hi) as Hf. pose proof (si_arena _ _ _ _ _ _ _ Hi) as Ha.
  destruct (si_block _ _ _ _ _ _ _ Hi b n) as (Hn & Hab & Hb & Hb'); [rewrite Hal; by left|].
  destruct (size_written _ _ _ _ _ _ _ _ _ _ Hi ltac:(rewrite Hal; by left) Hsz) as (s0 & E0 & Ht0 & Hf0 & Hw0 & Hc0).
  pose proof (si_nodup _ _ _ _ _ _ _ Hi) as Hnd. rewrite Hal in Hnd. cbn in Hnd.
  destruct (fits_split (a + 2) b n bs) as (bs1 & bs2 & -> & Hok); [apply Hi|done..| |].
  { rewrite app_assoc in Hnd. apply NoDup_app in Hnd as (Hnd & _). by rewrite (Permutation_app_comm (seqZ b n)). }
  assert (0 ≤ a) as Ha0 by (destruct Ha as [? _]; unfold KERNBASE in *; lia).
  assert (∃ k p m, (a, 1) :: bs1 = k ++ [(p, m)]) as (k & p & m & Hk).
  { destruct (exists_last (l := (a, 1) :: bs1)) as (k & [p m] & ->); [done|]. eauto. }
  assert (blocks_ok 0 ((k ++ [(p, m)]) ++ (b, n) :: bs2)) as Hokk.
  { rewrite <- Hk. cbn. split_and!; [lia..|]. eapply blocks_ok_weaken; [|exact Hok]. lia. }
  change ((a, 1) :: bs1 ++ bs2) with (((a, 1) :: bs1) ++ bs2) in Hc0. rewrite Hk in Hc0.
  unfold slob_free. destruct (Z.eqb_spec (8 * b) 0) as [?|_]; [lia|]. rewrite E0. cbn [bind].
  destruct (si_free _ _ _ _ _ _ _ Hi) as (f & fm & Hfr & Hin). rewrite Hf0, Hfr.
  change ((a, 1) :: bs1 ++ bs2) with (((a, 1) :: bs1) ++ bs2) in Hin.
  pose proof (si_length _ _ _ _ _ _ _ Hi) as Hlen.
  pose proof (fits_touched _ _ _ Ht0 Hf) as Hff. pose proof (uok_touched _ _ _ _ Ht0 Ha) as Haa.
  assert (slob_fuel s0 = slob_fuel s) as Hfu by (unfold slob_fuel; by rewrite (touched_npage _ _ _ Ht0)).
  assert (∀ c q, (c, q) ∈ bs2 → b + n ≤ c) as Hbs2.
  { intros c q Hq. apply blocks_ok_app in Hokk as [_ (_ & _ & Hx)]. by destruct (blocks_ok_elem _ _ c q Hx). }
  assert (p < b) as Hpb.
  { pose proof (blocks_ok_before 0 (k ++ [(p, m)]) b n bs2 (p, m) Hokk) as Hx. cbn in Hx. destruct Hx; [set_solver|lia]. }
  rewrite (free_point_ok ((k ++ [(p, m)]) ++ bs2) a p m k bs2 b f fm); try done.
  2:{ by rewrite <- app_assoc. }
  2:{ rewrite <- Hk. cbn. split_and!; [lia..|]. eapply blocks_ok_weaken; [|apply Hi]. lia. }
  2:{ by rewrite <- Hk. }
  2:{ by rewrite <- Hk. }
  2:{ destruct bs2 as [|[c q] bs2]; [by left|]. right. cbn. specialize (Hbs2 c q ltac:(by left)). lia. }
  2:{ rewrite <- Hk, Hfu. cbn in *. lia. }
  cbn [bind].
  assert (∃ e1 e2, cells s0 (k ++ [(p, m)]) e1 ∧ e1 = first_of bs2 a ∧ uok s0 p ∧ mw s0 (2 * p + 1) = 8 * e1 ∧ e2 = e1) as (e1 & _ & _ & -> & Hpu & Hpn & _).
  { pose proof Hc0 as [Hc1 _]%cells_app. pose proof Hc1 as [_ ((Hpu & _) & _ & Hpn & _)]%cells_app. eauto 10. }
  rewrite next_ok, Hpn by done. cbn [bind].
  destruct (slob_link_ok s0 k p m bs2 b n a) as (s1 & s2 & E1 & E2 & Ht2 & Hf2 & Hc2); try done; [by eapply uok_touched..|lia|].
  rewrite E1. cbn [bind]. rewrite E2. cbn [bind]. eexists. split; [done|].
  pose proof (spec_free_between k p m bs2 b n Hokk) as Hsf. rewrite <- Hk in Hsf. cbn in Hsf.
  rewrite (proj2 (Z.ltb_ge b a)), (proj2 (Z.eqb_neq (a + 1) b)) in Hsf by lia.
  assert (touched (λ u, u = b ∨ u ∈ a :: pages_of (bs1 ++ bs2)) s (with_slobfree (8 * p) s2)) as Ht.
  { eapply touched_trans; [eapply touched_weaken; [|exact Ht0]; cbn; auto|]. apply touched_slobfree. eapply touched_weaken; [|exact Ht2].
    intros u [->| ->]; [by left|]. right. assert ((p, m) ∈ (a, 1) :: bs1) as [[= -> _]|Hp]%elem_of_cons by (rewrite Hk; set_solver); [by left|].
    right. rewrite pages_of_app, elem_of_app. left. apply elem_of_pages_of. exists p, m. split; [done|].
    destruct (blocks_ok_elem _ _ p m Hok); [set_solver|lia]. }
  split; [|done]. eapply touched_inv; [exact Ht|exact Hi|apply spec_free_blocks; [lia|done]|..].
  - rewrite Hsf. eapply (touched_cells (λ _, False)); [by apply touched_slobfree, touched_refl|auto|done].
  - rewrite Hsf. destruct (glue_head p m (glue (b, n) bs2)) as (m' & Hm'). exists p, m'. split; [done|]. set_solver.
  - rewrite (spec_free_pages b n _ (a + 2)), Hal by (done || apply Hi). cbn. rewrite !app_assoc. f_equiv. apply Permutation_app_comm.
  - intros c q Hq. eapply (si_al _ _ _ _ _ _ _ Hi). rewrite Hal. by right.
Qed.

(** ** slob_alloc *)

Lemma slob_take_ok s l1 p mp c m l2 n a x :
  fits_kernel s → blocks_ok 0 (l1 ++ (p, mp) :: (c, m) :: l2) → cells s (l1 ++ (p, mp) :: (c, m) :: l2) a → uok s a →
  0 < n ≤ m →
  ∃ s', slob_take (8 * p) (8 * c) n x 0 s = Ok (8 * c, s') ∧ slobfree s' = 8 * p ∧ mw s' (2 * c) = n ∧
    touched (λ u, u = p ∨ c ≤ u < c + m) s s' ∧ cells s' (l1 ++ (p, mp) :: rest_of c m n l2) a.
Proof.
  intros Hf Hok Hc Ha Hn. pose proof Hc as [Hc1 Hc2]%cells_app. cbn in Hc1, Hc2.
  destruct Hc2 as ((Hpu & Hpu' & Hmp) & Hpw & Hpn & (Hcu & Hcu' & Hm) & Hcw & Hcn & Hc2).
  assert (∀ d k, (d, k) ∈ l1 → d < p) as Hl1.
  { intros d k Hin. destruct (blocks_ok_before _ _ _ _ _ (d, k) Hok Hin). cbn in *. lia. }
  apply blocks_ok_app in Hok as [_ (_ & _ & Hpc & _ & Hok)].
  assert (∀ d k, (d, k) ∈ l2 → c + m ≤ d) as Hl2 by (intros d k Hin; by destruct (blocks_ok_elem _ _ _ _ Hok Hin)).
  destruct (units_small s c m) as (Him & _ & Hms); [done..|].
  assert (uok s (c + n - 1) ∧ u32 n = n ∧ i32 n = n) as (Hcn' & Hun & Hin).
  { assert (uok s (c + n - 1)) by (unfold uok in *; lia). split; [done|]. by destruct (units_small s c n) as (? & ? & _); try done; lia. }
  pose proof (uok_first _ _ _ Hc2 Ha) as Hfo.
  unfold slob_take. cbn [Z.eqb bind]. rewrite units_ok by done. cbn [bind]. rewrite Hcw, Him.
  unfold rest_of. destruct (Z.eqb_spec m n) as [->|Hne].
  - rewrite next_ok by done. cbn [bind]. rewrite Hcn, set_next_ok by done. cbn [bind]. eexists. split; [done|]. split; [done|].
    rewrite Z.ltb_irrefl. split; [|split].
    + change (mw (put (2 * p + 1) (8 * first_of l2 a) s) (2 * c) = n). by mw_simp.
    + apply touched_slobfree, touched_put. left. lia.
    + eapply (touched_cells (λ _, False)); [by apply touched_slobfree, touched_refl|auto|].
      apply cells_app. split.
      * eapply (touched_cells (λ u, u = p)); [apply touched_put; lia|intros d k Hd ->; specialize (Hl1 _ _ Hd); lia|done].
      * apply cells_put1; try done; [by apply (unit_small s)|]. intros d k Hd ->. specialize (Hl2 _ _ Hd). lia.
  - rewrite (proj2 (Z.ltb_lt n m)) by lia. rewrite (slot_ok s) by (done || lia).
    assert (uok s (c + n)) as Hcn2 by (unfold uok in *; lia).
    assert (uok s (c + n + (m - n) - 1)) as Hcn3 by (by replace (c + n + (m - n) - 1) with (c + m - 1) by lia).
    assert (u32 (8 * (c + n)) = 8 * (c + n)) as Hu1 by by apply (unit_small s).
    destruct (units_small s (c + n) (m - n)) as (Hi1 & Hu2 & _); [done..|lia|].
    set (s1 := put (2 * p + 1) (8 * (c + n)) s). set (s2 := put (2 * (c + n)) (m - n) s1).
    set (s3 := put (2 * (c + n) + 1) (8 * first_of l2 a) s2). set (s4 := put (2 * c) n s3).
    rewrite set_next_ok by done. cbn [bind]. fold s1. rewrite next_ok by done.
    assert (mw s1 (2 * p + 1) = 8 * (c + n)) as -> by (unfold s1; mw_simp; done). cbn [bind].
    rewrite units_ok by done. assert (mw s1 (2 * c) = m) as -> by (unfold s1; by mw_simp). cbn [bind].
    rewrite Him, Hi1. rewrite set_units_ok by done. cbn [bind]. fold s2. rewrite next_ok by done.
    assert (mw s2 (2 * p + 1) = 8 * (c + n)) as -> by (unfold s2, s1; by mw_simp). cbn [bind].
    rewrite next_ok by done. assert (mw s2 (2 * c + 1) = 8 * first_of l2 a) as -> by (unfold s2, s1; by mw_simp). cbn [bind].
    rewrite set_next_ok by done. cbn [bind]. fold s3. rewrite set_units_ok by done. cbn [bind]. fold s4.
    eexists. split; [done|]. split; [done|]. split; [|split].
    + change (mw s4 (2 * c) = n). unfold s4. by mw_simp.
    + apply touched_slobfree. repeat (eapply touched_trans; [|apply touched_put]); [apply touched_refl|..]; lia.
    + eapply (touched_cells (λ _, False)); [by apply touched_slobfree, touched_refl|auto|].
      assert (touched (λ u, p ≤ u < c + m) s s4) as Ht.
      { repeat (eapply touched_trans; [|apply touched_put]); [apply touched_refl|..]; lia. }
      apply cells_app. split.
      * eapply (touched_cells); [exact Ht| |done]. intros d k Hd. specialize (Hl1 _ _ Hd). cbn. lia.
      * assert (uok s4 p ∧ uok s4 (p + mp - 1)) as [Hp4 Hp4'] by done.
        assert (u32 (8 * first_of l2 a) = 8 * first_of l2 a) as Hu3 by by apply (unit_small s).
        cbn. split_and!; try done; unfold s4, s3, s2, s1; mw_simp; try done; [lia|].
        eapply (touched_cells); [exact Ht| |done]. intros d k Hd. specialize (Hl2 _ _ Hd). cbn. lia.
Qed.

(** The last block of a walk that began behind block [p]. *)
Definition last_or (p : Z) (k : list block) : Z := foldl (λ _ bl, bl.1) p k.

Lemma search_walk ide k p fuel r e size n s :
  fits_kernel s → cells s (k ++ r) e → Forall (λ bl, bl.2 < n) k → (∀ c m, (c, m) ∈ k → slobfree s ≠ 8 * c) → 0 ≤ n < 2 ^ 30 →
  slob_search ide (length k + fuel) size n 0 (8 * p) (8 * first_of (k ++ r) e) s =
  slob_search ide fuel size n 0 (8 * last_or p k) (8 * first_of r e) s.
Proof.
  intros Hf Hc Hk Hs Hn. revert p. induction k as [|[c m] k IH]; intros p; [done|]. cbn in Hc. destruct Hc as ((Hu & Hu' & Hm) & Hw & Hnx & Hc).
  apply Forall_cons in Hk as [Hmn Hk]. cbn in Hmn. cbn [length Nat.add slob_search first_of app Z.eqb].
  rewrite units_ok by done. cbn [bind]. rewrite Hw. destruct (units_small s c m) as (Him & _ & _); [done..|]. rewrite Him.
  rewrite Z.add_0_r, i32_small, (proj2 (Z.leb_gt _ _)) by lia.
  specialize (Hs c m ltac:(by left)) as Hne. rewrite (proj2 (Z.eqb_neq _ _)) by congruence.
  rewrite next_ok by done. cbn [bind]. rewrite Hnx. cbn [last_or foldl fst]. apply IH; [done|done|].
  intros c' m' Hin. apply (Hs c' m'). by right.
Qed.

(** Where a list has its first block of at least [n] units, if it has one. *)
Lemma first_large n (l : list block) :
  Forall (λ bl, bl.2 < n) l ∨ ∃ k c m r, l = k ++ (c, m) :: r ∧ Forall (λ bl, bl.2 < n) k ∧ n ≤ m.
Proof.
  induction l as [|[c m] l IH]; [left; constructor|]. destruct (decide (n ≤ m)) as [Hle|Hgt].
  - right. exists [], c, m, l. split_and!; [done|constructor|done].
  - destruct IH as [Hl|(k & c' & m' & r & -> & Hk & Hm)]; [left|right; exists ((c, m) :: k), c', m', r; split; [done|split; [|done]]];
      (constructor; [cbn; lia|done]).
Qed.

Lemma last_or_cell s f mf k r e :
  cells s ((f, mf) :: k ++ r) e → ∃ mp, (last_or f k, mp) ∈ (f, mf) :: k ∧ mw s (2 * last_or f k + 1) = 8 * first_of r e.
Proof.
  revert f mf. induction k as [|[c m] k IH]; intros f mf Hc.
  - cbn in Hc |- *. exists mf. split; [by left|tauto].
  - destruct Hc as (_ & _ & _ & Hc). destruct (IH c m Hc) as (mp & Hin & E). exists mp. split; [by right|done].
Qed.

(** The ring read from behind [slobfree]. *)
Lemma cells_rotate s l1 f mf l2 a :
  first_of (l1 ++ (f, mf) :: l2) a = a → cells s (l1 ++ (f, mf) :: l2) a →
  cells s ((f, mf) :: l2 ++ l1 ++ [(f, mf)]) (first_of (l2 ++ l1 ++ [(f, mf)]) a) ∧
  mw s (2 * f + 1) = 8 * first_of (l2 ++ l1 ++ [(f, mf)]) a.
Proof.
  intros Ha Hc. rewrite first_of_app in Ha. cbn in Ha. pose proof Hc as [Hc1 (Hu & Hw & Hn & Hc2)]%cells_app. cbn in Hc1.
  assert (first_of (l1 ++ [(f, mf)]) a = a) as Ha' by (rewrite first_of_app; done).
  assert (first_of (l2 ++ l1 ++ [(f, mf)]) a = first_of l2 a) as E by (by rewrite first_of_app, Ha').
  assert (∀ e, first_of (l1 ++ [(f, mf)]) e = a) as Ha2 by (intros e; rewrite first_of_app; done).
  rewrite E. split; [|done]. cbn. rewrite first_of_app, Ha2. split_and!; try tauto.
  apply cells_app. rewrite Ha2. split; [done|]. apply cells_app. cbn. split_and!; tauto.
Qed.

(** A round of the search: it takes the first block that is large enough, or comes back to
    [slobfree] because there is none. *)
Lemma search_ring ide a s own fr bs al pgs size n :
  slob_inv a s own fr bs al pgs → 1 < n < 2 ^ 30 →
  ∃ f x, slobfree s = 8 * f ∧ uok s f ∧ mw s (2 * f + 1) = 8 * x ∧
  ((∃ l1 p mp c m l2, (a, 1) :: bs = l1 ++ (p, mp) :: (c, m) :: l2 ∧ n ≤ m ∧ ∀ fuel, (Datatypes.S (length bs) ≤ fuel)%nat →
      slob_search ide fuel size n 0 (8 * f) (8 * x) s = slob_take (8 * p) (8 * c) n 0 0 s) ∨
   (Forall (λ bl, bl.2 < n) bs ∧ ∃ p, ∀ fuel,
      slob_search ide (length bs + fuel) size n 0 (8 * f) (8 * x) s = slob_search ide fuel size n 0 (8 * p) (8 * f) s)).
Proof.
  intros Hi Hn. pose proof (si_fits _ _ _ _ _ _ _ Hi) as Hf. pose proof (si_ring _ _ _ _ _ _ _ Hi) as Hc.
  destruct (si_free _ _ _ _ _ _ _ Hi) as (f & mf & Hfr & Hin).
  assert (blocks_ok a ((a, 1) :: bs)) as Hok by (cbn; split_and!; [lia..|]; eapply blocks_ok_weaken; [|apply Hi]; lia).
  destruct (cells_elem _ _ _ _ _ Hc Hin) as (Hfu & _).
  destruct (list_elem_of_split _ _ Hin) as (l1 & l2 & HL). exists f, (first_of (l2 ++ l1 ++ [(f, mf)]) a).
  rewrite HL in Hc, Hok. destruct (cells_rotate s l1 f mf l2 a) as [Hr Hnf]; [by rewrite <- HL|done|].
  split_and!; try done. set (e := first_of (l2 ++ l1 ++ [(f, mf)]) a) in *.
  assert (∀ c m, (c, m) ∈ l2 ++ l1 → slobfree s ≠ 8 * c) as Hnof.
  { intros c m Hcm Heq. assert (c = f) as -> by lia. apply elem_of_app in Hcm as [Hcm|Hcm].
    - apply blocks_ok_app in Hok as [_ (_ & ? & Hok)]. destruct (blocks_ok_elem _ _ _ _ Hok Hcm). lia.
    - destruct (blocks_ok_before _ _ _ _ _ _ Hok Hcm). cbn in *. lia. }
  assert (length bs = length (l2 ++ l1)) as Hlen.
  { apply (f_equal length) in HL. cbn in HL. rewrite length_app in *. cbn in HL. lia. }
  assert (first_of (l2 ++ l1 ++ [(f, mf)]) e = e) as He.
  { unfold e. rewrite !app_assoc. destruct ((l2 ++ l1) ++ [(f, mf)]) as [|[]] eqn:E; [|done]. by destruct (l2 ++ l1). }
  destruct (first_large n ((l2 ++ l1) ++ [(f, mf)])) as [Hall|(k & c & m & r & E & Hk & Hm)].
  - right. apply Forall_app in Hall as [Hall Hmf]. apply Forall_cons in Hmf as [Hmf _]. split.
    + assert (Forall (λ bl, bl.2 < n) ((a, 1) :: bs)) as [_ ?]%Forall_cons; [|done]. rewrite HL.
      rewrite Forall_app, Forall_cons. rewrite Forall_app in Hall. tauto.
    + exists (last_or f (l2 ++ l1)). intros fuel. destruct Hr as (_ & _ & _ & Hr). rewrite app_assoc in Hr.
      rewrite Hlen. rewrite <- He, app_assoc. rewrite (search_walk ide (l2 ++ l1) f fuel [(f, mf)] e size n s); try done. lia.
  - left. assert (∀ c m, (c, m) ∈ k → (c, m) ∈ l2 ++ l1) as Hkl.
    { destruct (decide (r = [])) as [->|Hr0]; [apply app_inj_tail in E as [-> _]; done|].
      destruct (exists_last Hr0) as (r' & y & ->). change ((c, m) :: r' ++ [y]) with (((c, m) :: r') ++ [y]) in E.
      rewrite app_assoc in E. apply app_inj_tail in E as [-> _]. intros c' m' Hin'. set_solver. }
    rewrite <- app_assoc in E. rewrite E in Hr, He.
    destruct (last_or_cell _ _ _ _ _ _ Hr) as (mp & Hp & Hpn). cbn [first_of] in Hpn.
    assert (n ≤ 1 ∨ (c, m) ∈ bs) as [?|Hcbs]; [|lia|].
    { assert ((c, m) ∈ (a, 1) :: bs) as [[= -> ->]|?]%elem_of_cons; [|by left|by right].
      rewrite HL. assert ((c, m) ∈ l2 ++ l1 ++ [(f, mf)]) by (rewrite E; set_solver). set_solver. }
    assert ((last_or f k, mp) ∈ (a, 1) :: bs) as HpL.
    { apply elem_of_cons in Hp as [->|Hp]; [done|]. apply Hkl in Hp. rewrite HL. set_solver. }
    destruct (list_elem_of_split _ _ HpL) as (k1 & k2 & HL2). rewrite <- HL, HL2 in Hc.
    apply cells_app in Hc as [_ (_ & _ & Hpn2 & Hc2)].
    assert (a + 2 ≤ c) by (by destruct (blocks_ok_elem _ _ _ _ (si_blocks _ _ _ _ _ _ _ Hi) Hcbs)).
    destruct k2 as [|[c' m'] k2]; [cbn in Hpn2; lia|]. assert (c' = c) as -> by (cbn in Hpn2; lia).
    assert (m' = m) as ->.
    { destruct (cells_elem _ _ _ c m (si_ring _ _ _ _ _ _ _ Hi)) as (_ & _ & _ & Hw1); [by right|].
      destruct Hc2 as (_ & Hw2 & _). congruence. }
    exists k1, (last_or f k), mp, c, m, k2. split; [done|]. split; [done|]. intros fuel Hfuel.
    destruct Hr as (_ & _ & _ & Hr). apply (f_equal length) in E. rewrite !length_app in E. cbn in E. rewrite length_app in Hlen.
    replace fuel with (length k + Datatypes.S (fuel - length k - 1))%nat by lia. rewrite <- He at 1.
    rewrite (search_walk ide k f _ ((c, m) :: r) e); try done; [|intros c' m' Hin'; by eapply Hnof, Hkl|lia].
    cbn [slob_search first_of Z.eqb]. apply cells_app in Hr as [_ ((Hcu & Hcu' & Hm0) & Hcw & _)].
    destruct (units_small s c m) as (Him & _ & _); [done..|].
    rewrite units_ok by done. cbn [bind]. rewrite Hcw, Him, Z.add_0_r, i32_small, (proj2 (Z.leb_le _ _)) by lia. done.
Qed.

(** Allocation and release change words of the units in [U] only. *)
Record changed (U : Z → Prop) s s' : Prop := {
  ch_env : same_env (sl_vm s) (sl_vm s');
  ch_words k : ¬ U (k / 2) → mw s' k = mw s k
}.

Lemma changed_trans U s1 s2 s3 : changed U s1 s2 → changed U s2 s3 → changed U s1 s3.
Proof. intros [E1 W1] [E2 W2]. split; [by etrans|]. intros k Hk. rewrite W2, W1; done. Qed.

Lemma touched_changed (U V : Z → Prop) s s' : (∀ u, U u → V u) → touched U s s' → changed V s s'.
Proof. intros HUV [? ? ? ? ? W]. split; [done|]. intros k Hk. apply W. naive_solver. Qed.

(** The units of the pages in [fr] *)
Definition in_pages (fr : list Z) (u : Z) : Prop := ∃ p, p ∈ fr ∧ unit_of p ≤ u < unit_of p + 512.

Lemma blocks_ok_rest lo u c m n l :
  blocks_ok lo (u ++ (c, m) :: l) → 0 < n ≤ m → blocks_ok lo (u ++ rest_of c m n l).
Proof.
  intros [Hu (Hc & Hm & Hl)]%blocks_ok_app Hn. apply blocks_ok_app. split; [done|]. unfold rest_of.
  destruct (Z.ltb_spec n m); cbn; [split_and!; try lia|].
  - by replace (c + n + (m - n)) with (c + m) by lia.
  - eapply blocks_ok_weaken; [|exact Hl]. lia.
Qed.

Lemma elem_of_glue_grow b m l c k : 0 ≤ m → (c, k) ∈ l → ∃ c' k', (c', k') ∈ glue (b, m) l ∧ k ≤ k'.
Proof.
  intros Hm Hin. destruct l as [|[d j] l]; cbn; [by apply elem_of_nil in Hin|].
  destruct (b + m =? d); [|exists c, k; split; [by right|done]].
  apply elem_of_cons in Hin as [[= -> ->]|Hin]; [exists b, (m + j); split; [by left|lia]|exists c, k; split; [by right|done]].
Qed.

(** A freed block is part of a block at least as large. *)
Lemma spec_free_large lo b n bs : blocks_ok lo bs → ∃ c m, (c, m) ∈ spec_free b n bs ∧ n ≤ m.
Proof.
  revert lo. induction bs as [|[c m] bs IH]; intros lo; [intros _; exists b, n; split; [by left|done]|]. intros (? & ? & Hok).
  cbn [spec_free]. destruct (b <? c).
  - cbn. destruct (b + n =? c); eexists _, _; (split; [by left|lia]).
  - destruct (IH _ Hok) as (d & k & Hin & Hk). destruct (c + m =? b).
    + destruct (elem_of_glue_grow c m _ _ _ ltac:(lia) Hin) as (d' & k' & ? & ?). exists d', k'. split; [done|lia].
    + exists d, k. split; [by right|done].
Qed.

(** What a successful allocation of [n] units establishes. *)
Definition allocated (a : Z) s (own : list block) (fr : list Z) (bs al : list block) (pgs : list Z) (n c : Z) s' : Prop :=
  ∃ own' fr' bs' pgs', slob_inv a s' own' fr' bs' ((c, n) :: al) pgs' ∧ mw s' (2 * c) = n ∧
    bigblocks s' = bigblocks s ∧ (∀ bl, bl ∈ own → bl ∈ own') ∧ (∀ p, p ∈ fr' → p ∈ fr) ∧
    (∀ p, p ∈ pgs' → p ∈ pgs ∨ p ∈ fr) ∧ changed (λ u, u ∈ a :: pages_of bs ∨ in_pages fr u) s s'.

(** Taking a block the search has found. *)
Lemma take_found a s own fr bs al pgs n l1 p mp c m l2 :
  slob_inv a s own fr bs al pgs → (a, 1) :: bs = l1 ++ (p, mp) :: (c, m) :: l2 → 1 < n ≤ m →
  ∃ s', slob_take (8 * p) (8 * c) n 0 0 s = Ok (8 * c, s') ∧ allocated a s own fr bs al pgs n c s'.
Proof.
  intros Hi HL Hn.
  assert (blocks_ok 0 ((a, 1) :: bs)) as Hok.
  { pose proof (si_arena _ _ _ _ _ _ _ Hi) as [? _]. unfold KERNBASE in *. cbn. split_and!; [lia..|].
    eapply blocks_ok_weaken; [|apply Hi]. lia. }
  pose proof (si_ring _ _ _ _ _ _ _ Hi) as Hc. rewrite HL in Hok, Hc.
  destruct (slob_take_ok s l1 p mp c m l2 n a 0) as (s' & E & Hf' & Hw & Ht & Hc'); [apply Hi|done..|apply Hi|lia|].
  exists s'. split; [done|].
  assert (∃ u, (a, 1) :: u = l1 ++ [(p, mp)] ∧ bs = u ++ (c, m) :: l2) as (u & Hu & ->).
  { destruct l1 as [|y l1]; cbn in HL |- *; injection HL as -> ->.
    - by exists [].
    - exists (l1 ++ [(p, mp)]). split; [done|]. by rewrite <- app_assoc. }
  assert (l1 ++ (p, mp) :: rest_of c m n l2 = (a, 1) :: u ++ rest_of c m n l2) as HL'.
  { change (l1 ++ ?x :: ?y) with (l1 ++ [x] ++ y). by rewrite app_assoc, <- Hu. }
  rewrite HL' in Hc'. exists own, fr, (u ++ rest_of c m n l2), pgs. split; [|split_and!; try done].
  - eapply touched_inv; [exact Ht|exact Hi|eapply blocks_ok_rest; [apply Hi|lia]|exact Hc'| | |].
    + exists p, mp. rewrite <- HL'. split; [done|set_solver].
    + rewrite !pages_of_app. cbn [pages_of]. rewrite (rest_of_pages c m n l2) by lia.
      rewrite <- !app_assoc. f_equiv. rewrite !app_assoc. f_equiv. apply Permutation_app_comm.
    + intros d k [[= -> ->]|Hin]%elem_of_cons; [lia|]. by eapply (si_al _ _ _ _ _ _ _ Hi).
  - by rewrite (to_big _ _ _ Ht).
  - auto.
  - eapply touched_changed; [|exact Ht]. intros v Hv. left. rewrite elem_of_cons, pages_of_app. cbn [pages_of].
    rewrite !elem_of_app, elem_of_seqZ. destruct Hv as [->|Hv]; [|right; right; left; lia].
    assert ((p, mp) ∈ (a, 1) :: u) as [[= -> _]|Hp]%elem_of_cons by (rewrite Hu; set_solver); [by left|].
    right. left. apply elem_of_pages_of. exists p, mp. split; [done|].
    destruct (blocks_ok_elem _ _ p mp Hok); [set_solver|lia].
Qed.

(** ** Pages *)

Lemma kva_of_unit p : 0 ≤ p < KMEMSIZE / PGSIZE → kva_of p = 8 * unit_of p.
Proof.
  change (KMEMSIZE / PGSIZE) with (2 ^ 15 * 7). intros Hp. unfold kva_of, unit_of.
  rewrite page2pa_small, Z.shiftl_mul_pow2 by lia. unfold KERNBASE. rewrite u32_small; lia.
Qed.

Lemma with_mgr_id s : with_vm (set_mgr (mgr (sl_vm s)) (sl_vm s)) s = s.
Proof. unfold with_vm. rewrite set_mgr_id. by destruct s. Qed.

Lemma get_free_pages_ok ide order s own fr a :
  mgr_inv (mgr (sl_vm s)) own fr → (∀ p, p ∈ pages_of own ++ fr → a + 2 ≤ unit_of p ∧ p < npage (sl_vm s)) →
  fits_kernel s → uok s a → check_mm_struct (sl_vm s) = None → 0 ≤ order < 31 →
  (∃ p m fr', __slob_get_free_pages ide order s = Ok (8 * unit_of p, with_vm (set_mgr m (sl_vm s)) s) ∧
     fr ≡ₚ seqZ p (2 ^ order) ++ fr' ∧ mgr_inv m ((p, 2 ^ order) :: own) fr' ∧ p ∈ fr) ∨
  __slob_get_free_pages ide order s = Ok (0, s) ∨
  (__slob_get_free_pages ide order s = Faulted ∧ order = 0 ∧ swap_init_ok (sl_vm s) = true).
Proof.
  intros Hm Hr Hf Ha Hck Ho. unfold __slob_get_free_pages. rewrite Z.shiftl_1_l.
  assert (1 ≤ 2 ^ order ≤ 2 ^ 30) as Hp2.
  { split; [pose proof (Z.pow_pos_nonneg 2 order); lia|apply Z.pow_le_mono_r; lia]. }
  rewrite i32_small by lia.
  unfold Paging.alloc_pages. rewrite Nat.add_comm. cbn [Nat.add alloc_loop].
  destruct (alloc_pages_law _ _ _ (2 ^ order) Hm) as (o & m & -> & Hres); [lia|]. cbn [bind].
  destruct o as [p|].
  - left. destruct Hres as (fr' & Hfr & Hm'). rewrite bool_decide_true by done. cbn [orb bind].
    assert (p ∈ fr) as Hp by (rewrite Hfr, elem_of_app, elem_of_seqZ; left; lia).
    assert (0 ≤ p < npage (sl_vm s)) as Hpr.
    { destruct (Hr p) as [H1 H2]; [set_solver|]. destruct Ha as [H3 _]. unfold unit_of in H1. lia. }
    rewrite page2kva_ok; [|done|done]. cbn [bind].
    rewrite kva_of_unit by (unfold fits_kernel in Hf; lia). exists p, m, fr'. done.
  - right. subst m. rewrite bool_decide_false by by intros []. cbn [orb]. rewrite set_mgr_id.
    destruct (1 <? 2 ^ order) eqn:Hlt; cbn [orb bind]; [left; unfold with_vm; by destruct s|].
    destruct (swap_init_ok (sl_vm s)) eqn:Hsw; cbn [negb bind]; [|left; unfold with_vm; by destruct s].
    right. rewrite Hck. cbn. split_and!; try done. apply Z.ltb_ge in Hlt.
    destruct (decide (order = 0)) as [|]; [done|]. assert (2 ^ 1 ≤ 2 ^ order) by (apply Z.pow_le_mono_r; lia). lia.
Qed.

(** A page that the allocator takes is one more block in use, before it is freed. *)
Lemma page_taken a s own fr bs al pgs p m fr' :
  slob_inv a s own fr bs al pgs → fr ≡ₚ seqZ p 1 ++ fr' → mgr_inv m ((p, 1) :: own) fr' →
  slob_inv a (with_vm (set_mgr m (sl_vm s)) s) ((p, 1) :: own) fr' bs (slab p :: al) (p :: pgs).
Proof.
  intros Hi Hfr Hm. assert (p ∈ fr) as Hp by (rewrite Hfr; by left).
  destruct Hi as [Him Hr Hf Ha Hb Hc Hs [Hp1 Hp2] Hu Hal]. split; try done.
  - intros q Hq. apply Hr. rewrite Hfr. cbn in Hq |- *. set_solver.
  - by eapply (cells_keep s).
  - split.
    + constructor; [|done]. intros Hpp. apply mgr_disjoint in Him. apply NoDup_app in Him as (_ & Hd & _).
      apply (Hd p); [|done]. eapply block_page; [by apply Hp2|lia].
    + intros q [->|Hq]%elem_of_cons; [by left|right; auto].
  - cbn. rewrite <- Hu, !app_assoc. f_equiv. apply Permutation_app_comm.
  - intros b n [[= -> ->]|Hin]%elem_of_cons; [lia|eauto].
Qed.

(** ** slob_alloc, in full *)

Lemma slob_units_range size : 8 < size → size + 8 < 4096 → 1 < SLOB_UNITS size < 512 ∧ size ≤ 8 * SLOB_UNITS size.
Proof. intros. unfold SLOB_UNITS, SLOB_UNIT. rewrite u32_small by lia. lia. Qed.

Lemma unit_pos a s own fr bs al pgs p : slob_inv a s own fr bs al pgs → p ∈ pages_of own ++ fr → 0 < unit_of p.
Proof.
  intros Hi Hp. destruct (si_range _ _ _ _ _ _ _ Hi p Hp) as [? _]. destruct (si_arena _ _ _ _ _ _ _ Hi) as [? _].
  unfold KERNBASE in *. lia.
Qed.

(** A page is freed into the list, and the search begins again. *)
Lemma page_added a s own fr bs al pgs p m fr' :
  slob_inv a s own fr bs al pgs → fr ≡ₚ seqZ p 1 ++ fr' → mgr_inv m ((p, 1) :: own) fr' →
  ∃ s2, slob_free (8 * unit_of p) PAGE_SIZE (with_vm (set_mgr m (sl_vm s)) s) = Ok s2 ∧
    slob_inv a s2 ((p, 1) :: own) fr' (spec_free (unit_of p) 512 bs) al (p :: pgs) ∧ bigblocks s2 = bigblocks s ∧
    changed (λ u, u ∈ a :: pages_of bs ∨ in_pages fr u) s s2.
Proof.
  intros Hi Hfr Hm. pose proof (page_taken _ _ _ _ _ _ _ _ _ _ Hi Hfr Hm) as Hi1.
  destruct (slob_free_ok _ _ _ _ _ _ al _ (unit_of p) 512 PAGE_SIZE Hi1) as (s2 & E & Hi2 & Ht); [done|done|].
  exists s2. split_and!; try done.
  - by rewrite (to_big _ _ _ Ht).
  - assert (changed (λ u, u = unit_of p ∨ u ∈ a :: pages_of bs) (with_vm (set_mgr m (sl_vm s)) s) s2) as [He Hw]
      by (eapply touched_changed; [|exact Ht]; auto).
    split; [exact He|]. intros k Hk. transitivity (mw (with_vm (set_mgr m (sl_vm s)) s) k); [|done]. apply Hw.
    intros [Heq|Hin]; apply Hk; [right|by left]. exists p. split; [rewrite Hfr; by left|lia].
Qed.

(** Once a page has been added, the search succeeds. *)
Lemma search_again ide a s own fr bs al pgs size n f x c m :
  slob_inv a s own fr bs al pgs → 1 < n < 512 → (c, m) ∈ bs → n ≤ m → slobfree s = 8 * f → mw s (2 * f + 1) = 8 * x →
  ∃ d s', (∀ fuel, (slob_fuel s ≤ fuel)%nat → slob_search ide fuel size n 0 (8 * f) (8 * x) s = Ok (8 * d, s')) ∧
    a + 2 ≤ d ∧ allocated a s own fr bs al pgs n d s'.
Proof.
  intros Hi Hn Hin Hm Hf Hx. destruct (search_ring ide _ _ _ _ _ _ _ size n Hi) as (f' & x' & Hf' & Hu & Hx' & Hs); [lia|].
  assert (f' = f) as -> by lia. assert (x' = x) as -> by lia.
  destruct Hs as [(l1 & p & mp & d & k & l2 & HL & Hk & Hs)|[Hall _]].
  - destruct (take_found _ _ _ _ _ _ _ n _ _ _ _ _ _ Hi HL) as (s' & E & Ha); [lia|]. exists d, s'. split_and!; [|  |done].
    + intros fuel Hfu. rewrite Hs; [done|]. pose proof (si_length _ _ _ _ _ _ _ Hi). lia.
    + assert ((d, k) ∈ (a, 1) :: bs) as [[= -> ->]|Hd]%elem_of_cons by (rewrite HL; set_solver); [lia|].
      by destruct (blocks_ok_elem _ _ _ _ (si_blocks _ _ _ _ _ _ _ Hi) Hd).
  - rewrite Forall_forall in Hall. specialize (Hall _ Hin). cbn in Hall. lia.
Qed.

Lemma allocated_after a s s1 own own1 fr fr1 bs bs1 al pgs pgs1 n c s' :
  bigblocks s1 = bigblocks s → (∀ bl, bl ∈ own → bl ∈ own1) → (∀ p, p ∈ fr1 → p ∈ fr) →
  changed (λ u, u ∈ a :: pages_of bs ∨ in_pages fr u) s s1 →
  (∀ u, u ∈ pages_of bs1 → u ∈ pages_of bs ∨ in_pages fr u) →
  (∀ p, p ∈ pgs1 → p ∈ pgs ∨ p ∈ fr) →
  allocated a s1 own1 fr1 bs1 al pgs1 n c s' → allocated a s own fr bs al pgs n c s'.
Proof.
  intros Hb Ho Hfr Hch Hbs Hpg (own' & fr' & bs' & pgs' & Hi & Hw & Hb' & Ho' & Hfr' & Hpg' & Hch').
  exists own', fr', bs', pgs'. split_and!; [done|done|congruence|auto|auto|naive_solver|]. eapply changed_trans; [done|].
  destruct Hch' as [He Hw']. split; [done|]. intros k Hk. apply Hw'. intros [Hin|(p & Hp & Hu)]; apply Hk.
  - apply elem_of_cons in Hin as [->|Hin]; [left; by left|]. destruct (Hbs _ Hin); [left; by right|by right].
  - right. exists p. auto.
Qed.

Lemma slob_alloc_ok ide a s own fr bs al pgs size :
  slob_inv a s own fr bs al pgs → check_mm_struct (sl_vm s) = None → 8 < size → size + 8 < 4096 →
  (∃ c s', slob_alloc ide size 0 s = Ok (8 * c, s') ∧ a + 2 ≤ c ∧ allocated a s own fr bs al pgs (SLOB_UNITS size) c s') ∨
  slob_alloc ide size 0 s = Ok (0, s) ∨ (slob_alloc ide size 0 s = Faulted ∧ swap_init_ok (sl_vm s) = true).
Proof.
  intros Hi Hck Hs1 Hs2. destruct (slob_units_range size Hs1 Hs2) as [Hn _]. set (n := SLOB_UNITS size) in *.
  pose proof (si_fits _ _ _ _ _ _ _ Hi) as Hf. pose proof (si_length _ _ _ _ _ _ _ Hi) as Hlen.
  destruct (search_ring ide _ _ _ _ _ _ _ size n Hi) as (f & x & Hfr & Hfu & Hx & Hsr); [lia|].
  unfold slob_alloc. replace (u32 (size + SLOB_UNIT) <? PAGE_SIZE) with true
    by (symmetry; apply Z.ltb_lt; unfold PAGE_SIZE, PGSIZE, SLOB_UNIT; rewrite u32_small; lia).
  rewrite Hfr, next_ok, Hx by done. cbn [bind]. fold n. rewrite (i32_small n) by lia.
  destruct Hsr as [(l1 & p & mp & c & m & l2 & HL & Hm & Hsr)|[Hall (p & Hsr)]].
  { left. destruct (take_found _ _ _ _ _ _ _ n _ _ _ _ _ _ Hi HL) as (s' & E & Ha); [lia|]. exists c, s'.
    rewrite Hsr by lia. split_and!; [done| |done]. assert ((c, m) ∈ (a, 1) :: bs) as [[= -> ->]|Hd]%elem_of_cons by (rewrite HL; set_solver); [lia|].
    by destruct (blocks_ok_elem _ _ _ _ (si_blocks _ _ _ _ _ _ _ Hi) Hd). }
  replace (2 * slob_fuel s)%nat with (length bs + Datatypes.S (2 * slob_fuel s - length bs - 1))%nat by lia.
  rewrite Hsr. cbn [slob_search Z.eqb].
  destruct (si_free _ _ _ _ _ _ _ Hi) as (f' & mf & Hfr' & Hin). assert (f' = f) as -> by lia.
  destruct (cells_elem _ _ _ _ _ (si_ring _ _ _ _ _ _ _ Hi) Hin) as (_ & Hu2 & Hmf & Hw).
  rewrite units_ok, Hw by done. cbn [bind]. destruct (units_small s f mf) as (-> & _ & _); [done..|].
  assert (mf < n) as Hmn.
  { apply elem_of_cons in Hin as [[= -> ->]|Hin]; [lia|]. rewrite Forall_forall in Hall. by apply (Hall _ Hin). }
  rewrite Z.add_0_r, i32_small, (proj2 (Z.leb_gt _ _)), Hfr, Z.eqb_refl, (proj2 (Z.eqb_neq size PAGE_SIZE)) by (unfold PAGE_SIZE, PGSIZE; lia).
  destruct (get_free_pages_ok ide 0 s own fr a (si_mgr _ _ _ _ _ _ _ Hi) (si_range _ _ _ _ _ _ _ Hi) Hf (si_arena _ _ _ _ _ _ _ Hi) Hck)
    as [(q & m & fr' & -> & Hq & Hm & Hqf)|[->|(-> & _ & Hsw)]]; [lia|..].
  - left. cbn [bind]. destruct (page_added _ _ _ _ _ _ _ _ _ _ Hi Hq Hm) as (s2 & E2 & Hi2 & Hb2 & Hch2).
    assert (0 < unit_of q) as Hq0 by (eapply unit_pos; [exact Hi|set_solver]).
    rewrite (proj2 (Z.eqb_neq (8 * unit_of q) 0)) by lia.
    rewrite E2. cbn [bind]. destruct (si_free _ _ _ _ _ _ _ Hi2) as (f2 & m2 & Hf2 & Hin2).
    destruct (cells_elem _ _ _ _ _ (si_ring _ _ _ _ _ _ _ Hi2) Hin2) as (Hfu2 & _).
    destruct (spec_free_large (a + 2) (unit_of q) 512 bs) as (d & k & Hd & Hk); [apply Hi|].
    assert (slob_fuel s2 = slob_fuel s) as Hsf.
    { destruct Hch2 as [[He _] _]. unfold slob_fuel. by rewrite He. }
    destruct (search_ring ide _ _ _ _ _ _ _ size n Hi2) as (f3 & x3 & Hf3 & _ & Hx3 & _); [lia|]. assert (f3 = f2) as -> by lia.
    destruct (search_again ide _ _ _ _ _ _ _ size n f2 x3 d k Hi2) as (c & s' & Hs' & Hc & Ha); try done; [lia|].
    rewrite Hf2, next_ok, Hx3 by (done || apply Hi2). cbn [bind]. rewrite Hs' by (rewrite Hsf; lia).
    exists c, s'. split_and!; [done..|]. eapply (allocated_after a s s2); [done| | |done| | |exact Ha].
    + intros bl Hbl. by right.
    + intros y Hy. rewrite Hq, elem_of_app. by right.
    + intros u Hu. rewrite (spec_free_pages (unit_of q) 512 bs (a + 2)) in Hu by (done || apply Hi).
      apply elem_of_app in Hu as [Hu%elem_of_seqZ|Hu]; [right|by left]. by exists q.
    + intros y [->|Hy]%elem_of_cons; [by right|by left].
  - right. left. done.
  - right. right. done.
Qed.

End ring.
