(* ===== verification/KernHeap.v ===== *)
(** * kmalloc and kfree: the kernel heap

    [heap_inv] describes the heap by its live blocks: blocks of less than a page from the
    ring of [Slob], and blocks of whole pages in the list [bigblocks].  The theorems give
    every outcome of [kmalloc] and [kfree], and follow sequences of calls. *)

From stdpp Require Import functions.
From S2P Require Import Prelude ListH DefaultPmm PmmManager Vmm Paging PagingInv AddrSpace Kmalloc Slob.

Local Ltac Zify.zify_post_hook ::= Z.to_euclidean_division_equations.

Section heap.
Context {S : Type} `{pmm_manager S}.
Notation slob := (slob S).
Implicit Types s : slob.
#[local] Arguments mw : simpl never.
#[local] Arguments put : simpl never.

(** ** The heap

    [smalls] are the live blocks of less than a page, with their headers; [bigs] are the
    live blocks of whole pages, in the order of the list [bigblocks]: the cell of the
    [bigblock_t], the order and the first page. *)

Record big := mkBig { bg_cell : Z; bg_order : Z; bg_page : Z }.

Definition big_cell (g : big) : block := (bg_cell g, 2).
Definition big_block (g : big) : block := (bg_page g, 2 ^ bg_order g).

(** The address of the first [bigblock_t], 0 if there is none. *)
Definition bigs_head (l : list big) : Z := match l with [] => 0 | g :: _ => 8 * bg_cell g end.

Fixpoint big_list s (l : list big) : Prop :=
  match l with
  | [] => True
  | g :: l => mw s (2 * bg_cell g) = bg_order g ∧ mw s (2 * bg_cell g + 1) = 8 * unit_of (bg_page g) ∧
      mw s (2 * bg_cell g + 2) = bigs_head l ∧ big_list s l
  end.

Record heap_inv (a : Z) s (own : list block) (fr : list Z) (raw smalls : list block) (bigs : list big) : Prop := {
  hi_slob : ∃ bs pgs, slob_inv a s own fr bs (raw ++ smalls ++ (big_cell <$> bigs)) pgs ∧ NoDup (pgs ++ (bg_page <$> bigs));
  hi_head b n : (b, n) ∈ smalls → mw s (2 * b) = n ∧ 2 ≤ n;
  hi_first : bigblocks s = bigs_head bigs;
  hi_bigs : big_list s bigs;
  hi_own g : g ∈ bigs → big_block g ∈ own ∧ 0 ≤ bg_order g < 31
}.

(** Live blocks keep their contents: the words behind the header, the words of the pages. *)
Definition kept (smalls : list block) (bigs : list big) s s' : Prop :=
  (∀ b n k, (b, n) ∈ smalls → 2 * b + 2 ≤ k < 2 * (b + n) → mw s' k = mw s k) ∧
  (∀ g k, g ∈ bigs → 2 * unit_of (bg_page g) ≤ k < 2 * unit_of (bg_page g + 2 ^ bg_order g) → mw s' k = mw s k).

Lemma contents_refl smalls bigs s : kept smalls bigs s s.
Proof. done. Qed.

Lemma contents_trans smalls bigs s1 s2 s3 : kept smalls bigs s1 s2 → kept smalls bigs s2 s3 → kept smalls bigs s1 s3.
Proof.
  intros [A1 B1] [A2 B2]. split; intros; [erewrite A2, A1|erewrite B2, B1]; eauto.
Qed.

Lemma big_list_keep s s' l :
  (∀ g k, g ∈ l → 2 * bg_cell g ≤ k < 2 * bg_cell g + 4 → mw s' k = mw s k) → big_list s l → big_list s' l.
Proof.
  induction l as [|g l IH]; intros Hw; cbn; [done|]. intros (? & ? & ? & Hl).
  rewrite !(Hw g) by (lia || by left). split_and!; try done. apply IH; [|done]. intros g' k Hg. apply Hw. by right.
Qed.

(** A set of units that no live block meets. *)
Definition avoids (U : Z → Prop) (smalls : list block) (bigs : list big) : Prop :=
  (∀ b n u, (b, n) ∈ smalls → b ≤ u < b + n → ¬ U u) ∧
  (∀ g u, g ∈ bigs → bg_cell g ≤ u < bg_cell g + 2 → ¬ U u) ∧
  (∀ g u, g ∈ bigs → unit_of (bg_page g) ≤ u < unit_of (bg_page g + 2 ^ bg_order g) → ¬ U u).

Lemma changed_kept U smalls bigs s s' :
  avoids U smalls bigs → changed U s s' →
  kept smalls bigs s s' ∧ (∀ b n, (b, n) ∈ smalls → 0 < n → mw s' (2 * b) = mw s (2 * b)) ∧ (big_list s bigs → big_list s' bigs).
Proof.
  intros (Ha1 & Ha2 & Ha3) [_ Hw]. split; [split|split].
  - intros b n k Hin Hk. apply Hw. eapply Ha1; [done|lia].
  - intros g k Hin Hk. apply Hw. eapply Ha3; [done|lia].
  - intros b n Hin Hn. apply Hw. eapply Ha1; [done|lia].
  - apply big_list_keep. intros g k Hg Hk. apply Hw. eapply Ha2; [done|lia].
Qed.

Lemma unit_of_add p q : unit_of (p + q) = unit_of p + 512 * q.
Proof. unfold unit_of. lia. Qed.

Section heap_facts.
Context a s own fr raw smalls bigs (Hh : heap_inv a s own fr raw smalls bigs).

(** The pages of a big block are not free, and they are apart from the pages that are
    cut into units. *)
Lemma big_apart g bs pgs u :
  slob_inv a s own fr bs (raw ++ smalls ++ (big_cell <$> bigs)) pgs → NoDup (pgs ++ (bg_page <$> bigs)) → g ∈ bigs →
  unit_of (bg_page g) ≤ u < unit_of (bg_page g + 2 ^ bg_order g) →
  a < u ∧ ¬ in_pages fr u ∧ u ∉ pages_of bs ∧ u ∉ pages_of (raw ++ smalls ++ (big_cell <$> bigs)).
Proof.
  intros Hi Hnd Hg Hu. destruct (hi_own _ _ _ _ _ _ _ Hh g Hg) as [Ho Hor]. rewrite unit_of_add in Hu.
  assert (∃ q, bg_page g ≤ q < bg_page g + 2 ^ bg_order g ∧ unit_of q ≤ u < unit_of q + 512) as (q & Hq & Huq).
  { exists (bg_page g + (u - unit_of (bg_page g)) / 512). rewrite unit_of_add. lia. }
  assert (q ∈ pages_of own) as Hqo by (apply elem_of_pages_of; eexists _, _; split; [exact Ho|done]).
  pose proof (mgr_disjoint _ _ _ (si_mgr _ _ _ _ _ _ _ Hi)) as Hdis.
  assert (¬ in_pages (pgs ++ fr) u) as Hnp.
  { intros (p & Hp & Hup). assert (p = q) as -> by (unfold unit_of in *; lia). apply elem_of_app in Hp as [Hp|Hp].
    - destruct (si_pgs _ _ _ _ _ _ _ Hi) as [_ Hpo]. specialize (Hpo q Hp).
      apply NoDup_app in Hnd as (_ & Hnd & _). apply (Hnd q Hp). apply list_elem_of_fmap. exists g. split; [|done].
      destruct (list_elem_of_split _ _ Ho) as (o1 & o2 & E). rewrite E in Hpo, Hdis. rewrite pages_of_app in Hdis. cbn in Hdis.
      destruct (decide (q = bg_page g)) as [|Hne]; [done|]. exfalso.
      assert (q ∈ seqZ (bg_page g) (2 ^ bg_order g)) as Hqs by (apply elem_of_seqZ; lia).
      apply elem_of_app in Hpo as [Hpo|[[= Hpo _]|Hpo]%elem_of_cons]; [|done|].
      + apply (block_page q 1) in Hpo; [|lia]. rewrite <- !app_assoc in Hdis. apply NoDup_app in Hdis as (_ & Hdis & _).
        apply (Hdis q Hpo). set_solver.
      + apply (block_page q 1) in Hpo; [|lia]. rewrite <- !app_assoc in Hdis. apply NoDup_app in Hdis as (_ & _ & Hdis).
        apply NoDup_app in Hdis as (_ & Hdis & _). apply (Hdis q Hqs). set_solver.
    - apply NoDup_app in Hdis as (_ & Hdis & _). by apply (Hdis q). }
  destruct (si_range _ _ _ _ _ _ _ Hi q) as [Haq _]; [set_solver|].
  assert (∀ v, v ∈ pages_of bs ++ pages_of (raw ++ smalls ++ (big_cell <$> bigs)) → v ≠ u) as Hv.
  { intros v Hv ->. rewrite (si_units _ _ _ _ _ _ _ Hi) in Hv. apply elem_of_slabs in Hv as (p & Hp & Hup).
    apply Hnp. exists p. split; [set_solver|done]. }
  split_and!; [lia| | |].
  - intros (p & Hp & Hup). apply Hnp. exists p. split; [set_solver|done].
  - intros Hin. apply (Hv u); [set_solver|done].
  - intros Hin. apply (Hv u); [set_solver|done].
Qed.

(** Units of live blocks lie in pages that the allocator owns. *)
Lemma live_not_free bs pgs u :
  slob_inv a s own fr bs (raw ++ smalls ++ (big_cell <$> bigs)) pgs → u ∈ pages_of (raw ++ smalls ++ (big_cell <$> bigs)) →
  a < u ∧ ¬ in_pages fr u ∧ u ∉ pages_of bs.
Proof.
  intros Hi Hu. destruct (si_unit _ _ _ _ _ _ _ Hi u) as [? _]; [by right|]. split; [lia|]. split.
  - intros (p & Hp & Hup). assert (u ∈ pages_of (slab <$> pgs)) as (q & Hq & Huq)%elem_of_slabs.
    { rewrite <- (si_units _ _ _ _ _ _ _ Hi), elem_of_app. by right. }
    assert (q = p) as -> by (unfold unit_of in *; lia). apply (si_pgs _ _ _ _ _ _ _ Hi) in Hq. apply (block_page p 1) in Hq; [|lia].
    pose proof (mgr_disjoint _ _ _ (si_mgr _ _ _ _ _ _ _ Hi)) as (_ & Hdis & _)%NoDup_app. by apply (Hdis p).
  - intros Hb. pose proof (si_nodup _ _ _ _ _ _ _ Hi) as (_ & Hdis & _)%NoDup_app. by apply (Hdis u).
Qed.
End heap_facts.

Lemma heap_avoids a s own fr raw smalls bigs bs pgs :
  heap_inv a s own fr raw smalls bigs → slob_inv a s own fr bs (raw ++ smalls ++ (big_cell <$> bigs)) pgs →
  NoDup (pgs ++ (bg_page <$> bigs)) → avoids (λ u, u ∈ a :: pages_of bs ∨ in_pages fr u) smalls bigs.
Proof.
  intros Hh Hi Hnd.
  assert (∀ u, u ∈ pages_of (raw ++ smalls ++ (big_cell <$> bigs)) → ¬ (u ∈ a :: pages_of bs ∨ in_pages fr u)) as Hl.
  { intros u Hu. destruct (live_not_free _ _ _ _ _ _ _ _ _ u Hi Hu) as (? & ? & ?).
    rewrite elem_of_cons. intros [[->|?]|?]; [lia|done..]. }
  split_and!.
  - intros b n u Hin Hu. apply Hl. rewrite !pages_of_app, !elem_of_app. right. left. apply elem_of_pages_of. eauto.
  - intros g u Hg Hu. apply Hl. rewrite !pages_of_app, !elem_of_app. right. right. apply elem_of_pages_of. exists (bg_cell g), 2.
    split; [|done]. apply list_elem_of_fmap. by exists g.
  - intros g u Hg Hu. destruct (big_apart _ _ _ _ _ _ _ Hh g bs pgs u Hi Hnd Hg Hu) as (? & ? & ? & _).
    rewrite elem_of_cons. intros [[->|?]|?]; [lia|done..].
Qed.

(** An allocation from the list: the new block is in use, but nobody relies on its header. *)
Lemma allocated_heap a s own fr raw smalls bigs bs pgs n c s' :
  heap_inv a s own fr raw smalls bigs → slob_inv a s own fr bs (raw ++ smalls ++ (big_cell <$> bigs)) pgs →
  NoDup (pgs ++ (bg_page <$> bigs)) → allocated a s own fr bs (raw ++ smalls ++ (big_cell <$> bigs)) pgs n c s' →
  ∃ own' fr', heap_inv a s' own' fr' ((c, n) :: raw) smalls bigs ∧ mw s' (2 * c) = n ∧ kept smalls bigs s s' ∧
    same_env (sl_vm s) (sl_vm s').
Proof.
  intros Hh Hi Hnd (own' & fr' & bs' & pgs' & Hi' & Hw & Hb & Ho & Hfr & Hpg & Hch).
  destruct (changed_kept _ _ _ _ _ (heap_avoids _ _ _ _ _ _ _ _ _ Hh Hi Hnd) Hch) as (Hk & Hkh & Hkb).
  exists own', fr'. split_and!; try done; [split|apply Hch].
  - exists bs', pgs'. split; [done|]. apply NoDup_app. pose proof Hnd as (_ & Hd & Hnd2)%NoDup_app. split; [apply Hi'|]. split; [|done].
    intros p Hp (g & -> & Hg)%list_elem_of_fmap. destruct (hi_own _ _ _ _ _ _ _ Hh g Hg) as [_ Hor].
    assert (0 < 2 ^ bg_order g) by (apply Z.pow_pos_nonneg; lia).
    destruct (big_apart _ _ _ _ _ _ _ Hh g bs pgs (unit_of (bg_page g)) Hi Hnd Hg) as (_ & Hnf & _); [rewrite unit_of_add; lia|].
    destruct (Hpg _ Hp) as [Hin|Hin]; [|apply Hnf; exists (bg_page g); split; [done|lia]].
    apply (Hd _ Hin). apply list_elem_of_fmap. by exists g.
  - intros b k Hin. destruct (hi_head _ _ _ _ _ _ _ Hh b k Hin) as [<- ?]. split; [|done]. eapply Hkh; [exact Hin|lia].
  - rewrite Hb. apply Hh.
  - apply Hkb, Hh.
  - intros g Hg. destruct (hi_own _ _ _ _ _ _ _ Hh g Hg). auto.
Qed.

(** *** Blocks that are being set up *)

Lemma raw_small a s own fr raw smalls bigs c n :
  heap_inv a s own fr ((c, n) :: raw) smalls bigs → mw s (2 * c) = n → 2 ≤ n → heap_inv a s own fr raw ((c, n) :: smalls) bigs.
Proof.
  intros [(bs & pgs & Hi & Hnd) Hh ? ? ?] Hw Hn. split; try done.
  - exists bs, pgs. split; [|done]. eapply slob_inv_perm; [|exact Hi]. cbn. apply Permutation_middle.
  - intros b k [[= -> ->]|Hin]%elem_of_cons; auto.
Qed.

Lemma small_raw a s own fr raw smalls smalls' bigs c n :
  smalls ≡ₚ (c, n) :: smalls' → heap_inv a s own fr raw smalls bigs → heap_inv a s own fr ((c, n) :: raw) smalls' bigs.
Proof.
  intros Hp [(bs & pgs & Hi & Hnd) Hh ? ? ?]. split; try done.
  - exists bs, pgs. split; [|done]. eapply slob_inv_perm; [|exact Hi]. rewrite Hp. cbn. symmetry. apply Permutation_middle.
  - intros b k Hin. apply Hh. rewrite Hp. by right.
Qed.

Lemma raw_avoids a s own fr raw smalls bigs c n :
  heap_inv a s own fr ((c, n) :: raw) smalls bigs → avoids (λ u, c ≤ u < c + n) smalls bigs.
Proof.
  intros Hh. destruct (hi_slob _ _ _ _ _ _ _ Hh) as (bs & pgs & Hi & Hnd).
  pose proof (si_nodup _ _ _ _ _ _ _ Hi) as (_ & _ & Hd)%NoDup_app. cbn in Hd. apply NoDup_app in Hd as (_ & Hd & _).
  assert (∀ u, u ∈ pages_of (smalls ++ (big_cell <$> bigs)) → ¬ (c ≤ u < c + n)) as Hl.
  { intros u Hu Hc. apply (Hd u); [by apply elem_of_seqZ|]. rewrite pages_of_app, elem_of_app. by right. }
  split_and!.
  - intros b k u Hin Hu. apply Hl. rewrite pages_of_app, elem_of_app. left. apply elem_of_pages_of. eauto.
  - intros g u Hg Hu. apply Hl. rewrite pages_of_app, elem_of_app. right. apply elem_of_pages_of. exists (bg_cell g), 2.
    split; [|done]. apply list_elem_of_fmap. by exists g.
  - intros g u Hg Hu Hc. destruct (big_apart _ _ _ _ _ _ _ Hh g bs pgs u Hi Hnd Hg Hu) as (_ & _ & _ & Hx). apply Hx.
    cbn. rewrite elem_of_app, elem_of_seqZ. by left.
Qed.

Lemma avoids_or U V smalls bigs : avoids U smalls bigs → avoids V smalls bigs → avoids (λ u, U u ∨ V u) smalls bigs.
Proof. unfold avoids. intros (A1 & A2 & A3) (B1 & B2 & B3). naive_solver. Qed.

(** What a step that leaves the live blocks alone does to the heap. *)
Lemma heap_step U a s s' own own' fr fr' raw raw' smalls bigs bs' pgs' :
  heap_inv a s own fr raw smalls bigs → avoids U smalls bigs → changed U s s' → bigblocks s' = bigblocks s →
  slob_inv a s' own' fr' bs' (raw' ++ smalls ++ (big_cell <$> bigs)) pgs' → NoDup (pgs' ++ (bg_page <$> bigs)) →
  (∀ g, g ∈ bigs → big_block g ∈ own') → heap_inv a s' own' fr' raw' smalls bigs ∧ kept smalls bigs s s'.
Proof.
  intros Hh Ha Hch Hb Hi' Hnd Ho. destruct (changed_kept _ _ _ _ _ Ha Hch) as (Hk & Hkh & Hkb). split; [|done]. split.
  - eauto.
  - intros b k Hin. destruct (hi_head _ _ _ _ _ _ _ Hh b k Hin) as [<- ?]. split; [|done]. eapply Hkh; [exact Hin|lia].
  - rewrite Hb. apply Hh.
  - apply Hkb, Hh.
  - intros g Hg. split; [auto|]. by apply (hi_own _ _ _ _ _ _ _ Hh).
Qed.

(** A write to a block that is being set up. *)
Lemma raw_write a s own fr raw smalls bigs c n k v :
  heap_inv a s own fr ((c, n) :: raw) smalls bigs → 2 * c ≤ k < 2 * (c + n) →
  kstore (4 * k) v s = Ok (put k v s) ∧ heap_inv a (put k v s) own fr ((c, n) :: raw) smalls bigs ∧
  kept smalls bigs s (put k v s) ∧ same_env (sl_vm s) (sl_vm (put k v s)).
Proof.
  intros Hh Hk. destruct (hi_slob _ _ _ _ _ _ _ Hh) as (bs & pgs & Hi & Hnd).
  assert (touched (λ u, c ≤ u < c + n) s (put k v s)) as Ht by (apply touched_put; lia). split.
  - unfold kstore. destruct (uok_word s (k / 2) k) as [-> _]; [apply Hi| |lia|done].
    apply (si_unit _ _ _ _ _ _ _ Hi). right. cbn. rewrite elem_of_app, elem_of_seqZ. left. lia.
  - destruct (heap_step (λ u, c ≤ u < c + n) a s (put k v s) own own fr fr ((c, n) :: raw) ((c, n) :: raw) smalls bigs bs pgs) as [H1 H2]; try done.
    + by eapply raw_avoids.
    + eapply touched_changed; [|exact Ht]. auto.
    + eapply touched_inv; [exact Ht|exact Hi|apply Hi| |apply Hi|done|apply Hi].
      eapply touched_cells; [exact Ht| |apply Hi]. intros b m Hin Hb. cbn in Hb.
      destruct (live_not_free _ _ _ _ _ _ _ bs pgs b Hi) as (? & _ & Hx); [cbn; rewrite elem_of_app, elem_of_seqZ; left; lia|].
      apply elem_of_cons in Hin as [[= -> ->]|Hin]; [lia|]. apply Hx. apply elem_of_pages_of. exists b, m.
      split; [done|]. destruct (blocks_ok_elem _ _ _ _ (si_blocks _ _ _ _ _ _ _ Hi) Hin). lia.
    + intros g Hg. by apply (hi_own _ _ _ _ _ _ _ Hh).
Qed.

(** Freeing a block. *)
Lemma raw_free a s own fr raw smalls bigs c n size :
  heap_inv a s own fr ((c, n) :: raw) smalls bigs → sized s c n size →
  ∃ s', slob_free (8 * c) size s = Ok s' ∧ heap_inv a s' own fr raw smalls bigs ∧ kept smalls bigs s s' ∧
    same_env (sl_vm s) (sl_vm s').
Proof.
  intros Hh Hsz. destruct (hi_slob _ _ _ _ _ _ _ Hh) as (bs & pgs & Hi & Hnd).
  destruct (slob_free_ok _ _ _ _ _ _ (raw ++ smalls ++ (big_cell <$> bigs)) _ c n size Hi) as (s' & E & Hi' & Ht); [done..|].
  pose proof (si_al _ _ _ _ _ _ _ Hi c n ltac:(by left)) as Hn.
  exists s'. split; [done|]. cut (heap_inv a s' own fr raw smalls bigs ∧ kept smalls bigs s s'); [intros [? ?]; split_and!; [done..|apply Ht]|].
  apply (heap_step (λ u, c ≤ u < c + n ∨ (u ∈ a :: pages_of bs ∨ in_pages fr u)) a s s' own own fr fr ((c, n) :: raw) raw smalls bigs
           (spec_free c n bs) pgs); try done.
  - apply avoids_or; [by eapply raw_avoids|by eapply heap_avoids].
  - eapply touched_changed; [|exact Ht]. intros u [->|Hu]; [left; lia|auto].
  - apply Ht.
  - intros g Hg. by apply (hi_own _ _ _ _ _ _ _ Hh).
Qed.

Lemma same_env_check (vm vm' : vmem S) : same_env vm vm' → check_mm_struct vm' = check_mm_struct vm ∧ swap_init_ok vm' = swap_init_ok vm.
Proof. by intros (? & ? & ? & ? & _). Qed.

(** ** kmalloc *)

Lemma find_order_loop_ok fuel size order :
  size < 4096 * 2 ^ Z.of_nat fuel → ∃ o, find_order_loop (Datatypes.S fuel) size order = Ok o ∧ order ≤ o ≤ order + Z.of_nat fuel ∧
    Z.shiftr size (o - order) ≤ 4096 ∧ (order < o → 4096 < Z.shiftr size (o - order - 1)).
Proof.
  revert size order. induction fuel as [|fuel IH]; intros size order Hs.
  - cbn. rewrite (proj2 (Z.ltb_ge 4096 size)) by (cbn in Hs; lia). exists order. rewrite Z.sub_diag, Z.shiftr_0_r. cbn in Hs. split_and!; lia || done.
  - change (find_order_loop (Datatypes.S (Datatypes.S fuel)) size order) with
      (if 4096 <? size then find_order_loop (Datatypes.S fuel) (Z.shiftr size 1) (order + 1) else Ok order).
    destruct (Z.ltb_spec 4096 size) as [Hlt|Hge].
    + rewrite Nat2Z.inj_succ, Z.pow_succ_r in Hs by lia.
      destruct (IH (Z.shiftr size 1) (order + 1)) as (o & -> & Ho & H1 & H2).
      { rewrite Z.shiftr_div_pow2 by lia. change (2 ^ 1) with 2. lia. }
      exists o. rewrite Z.shiftr_shiftr in H1 by lia. replace (1 + (o - (order + 1))) with (o - order) in H1 by lia.
      split_and!; try done; try lia. intros _. destruct (decide (o = order + 1)) as [->|].
      * by replace (order + 1 - order - 1) with 0 by lia.
      * rewrite Z.shiftr_shiftr in H2 by lia. replace (1 + (o - (order + 1) - 1)) with (o - order - 1) in H2 by lia. apply H2. lia.
    + exists order. rewrite Z.sub_diag, Z.shiftr_0_r. split_and!; lia || done.
Qed.

(** The order is the number of halvings down to at most 4096 bytes. *)
Lemma find_order_ok size : size < 2 ^ 31 → ∃ o, find_order size = Ok o ∧ 0 ≤ o < 31 ∧ Z.shiftr size o ≤ 4096 ∧
  (0 < o → 4096 < Z.shiftr size (o - 1)).
Proof.
  intros Hs. destruct (find_order_loop_ok 19 size 0) as (o & E & Ho & H1 & H2); [lia|]. exists o.
  assert (∀ f f' z k, find_order_loop f z k = Ok o → find_order_loop (f + f') z k = Ok o) as Hmono.
  { clear. induction f as [|f IH]; intros f' z k; [done|]. cbn. destruct (4096 <? z); auto. }
  rewrite Z.sub_0_r in H1, H2. split; [by apply (Hmono 20%nat 12%nat)|]. split; [clear -Ho; lia|done].
Qed.

(** A block of whole pages is short of the size asked for exactly when the halvings lose
    bits and end at a full page. *)
Lemma find_order_short size o : 0 ≤ size < 2 ^ 31 → find_order size = Ok o →
  (PGSIZE * 2 ^ o < size ↔ Z.shiftr size o = 4096 ∧ size mod 2 ^ o ≠ 0).
Proof.
  intros Hs Ho. destruct (find_order_ok size) as (o' & E & Hr & H1 & _); [lia|]. assert (o' = o) as -> by congruence.
  rewrite Z.shiftr_div_pow2 in * by lia. assert (0 < 2 ^ o) as Hp by (apply Z.pow_pos_nonneg; lia). unfold PGSIZE.
  pose proof (Z.div_mod size (2 ^ o)) as Hd. pose proof (Z.mod_pos_bound size (2 ^ o) Hp) as Hm. specialize (Hd ltac:(lia)).
  set (q := size / 2 ^ o) in *. set (r := size mod 2 ^ o) in *. split; [|nia]. intros Hlt. split; nia.
Qed.

(** The outcomes of [slob_alloc] for a heap. *)
Lemma slob_alloc_heap ide a s own fr raw smalls bigs size :
  heap_inv a s own fr raw smalls bigs → check_mm_struct (sl_vm s) = None → 8 < size → size + 8 < 4096 →
  (∃ c s' own' fr', slob_alloc ide size 0 s = Ok (8 * c, s') ∧ 0 < c ∧ uok s' (c + 1) ∧ mw s' (2 * c) = SLOB_UNITS size ∧
     heap_inv a s' own' fr' ((c, SLOB_UNITS size) :: raw) smalls bigs ∧ kept smalls bigs s s' ∧ same_env (sl_vm s) (sl_vm s')) ∨
  slob_alloc ide size 0 s = Ok (0, s) ∨ (slob_alloc ide size 0 s = Faulted ∧ swap_init_ok (sl_vm s) = true).
Proof.
  intros Hh Hck Hs1 Hs2. destruct (hi_slob _ _ _ _ _ _ _ Hh) as (bs & pgs & Hi & Hnd).
  destruct (slob_alloc_ok ide _ _ _ _ _ _ _ size Hi Hck Hs1 Hs2) as [(c & s' & E & Hc & Ha)|[E|E]]; [|by right; left|by right; right].
  left. destruct (allocated_heap _ _ _ _ _ _ _ _ _ _ _ _ Hh Hi Hnd Ha) as (own' & fr' & Hh' & Hw & Hk & He).
  destruct (slob_units_range size Hs1 Hs2) as [Hn _].
  exists c, s', own', fr'. pose proof (si_arena _ _ _ _ _ _ _ Hi) as [Ha0 _]. unfold KERNBASE in Ha0. split_and!; try done; [lia|].
  destruct (hi_slob _ _ _ _ _ _ _ Hh') as (bs' & pgs' & Hi' & _). apply (si_unit _ _ _ _ _ _ _ Hi'). right. cbn.
  rewrite elem_of_app, elem_of_seqZ. left. lia.
Qed.

(** A request below a page. *)
Lemma kmalloc_small ide a s own fr smalls bigs size :
  heap_inv a s own fr [] smalls bigs → check_mm_struct (sl_vm s) = None → 0 < size < 4080 →
  (∃ c n s' own' fr', kmalloc ide size s = Ok (8 * (c + 1), s') ∧ size ≤ 8 * (n - 1) ∧
     heap_inv a s' own' fr' [] ((c, n) :: smalls) bigs ∧ kept smalls bigs s s' ∧ same_env (sl_vm s) (sl_vm s')) ∨
  kmalloc ide size s = Ok (0, s) ∨ (kmalloc ide size s = Faulted ∧ swap_init_ok (sl_vm s) = true).
Proof.
  intros Hh Hck Hs. unfold kmalloc, PAGE_SIZE, PGSIZE, SLOB_UNIT. rewrite (proj2 (Z.ltb_lt size _)), u32_small by lia.
  destruct (slob_alloc_heap ide _ _ _ _ _ _ _ (size + 8) Hh Hck) as [(c & s' & own' & fr' & -> & Hc & Hu & Hw & Hh' & Hk & He)|[->|[-> Hsw]]]; [lia..| | |].
  - left. destruct (slob_units_range (size + 8)) as [Hn1 Hn2]; [lia..|]. cbn [bind]. rewrite (proj2 (Z.eqb_neq _ _)) by lia.
    destruct (hi_slob _ _ _ _ _ _ _ Hh') as (bs' & pgs' & Hi' & _).
    exists c, (SLOB_UNITS (size + 8)), s', own', fr'. split_and!; try done; [|lia|].
    + destruct (si_block _ _ _ _ _ _ _ Hi' c (SLOB_UNITS (size + 8))) as (_ & _ & Huc & _); [by left|].
      rewrite (slot_ok s'); [done|apply Hi'|done|lia|]. by replace (c + 1 - 1) with c by lia.
    + apply raw_small; try done. lia.
  - right. by left.
  - right. by right.
Qed.

(** The pages and the [bigblock_t] become a live block. *)
Lemma make_big a s own fr fr' raw smalls bigs c o p m :
  heap_inv a s own fr ((c, 2) :: raw) smalls bigs → 0 ≤ o < 31 → fr ≡ₚ seqZ p (2 ^ o) ++ fr' → mgr_inv m ((p, 2 ^ o) :: own) fr' →
  mw s (2 * c) = o → mw s (2 * c + 1) = 8 * unit_of p → mw s (2 * c + 2) = bigs_head bigs →
  heap_inv a (with_bigblocks (8 * c) (with_vm (set_mgr m (sl_vm s)) s)) ((p, 2 ^ o) :: own) fr' raw smalls (mkBig c o p :: bigs).
Proof.
  intros Hh Ho Hfr Hm Hw1 Hw2 Hw3. pose proof Hh as [(bs & pgs & Hi & Hnd) Hhd Hf Hb Hown].
  assert (0 < 2 ^ o) as Hpo by (apply Z.pow_pos_nonneg; lia).
  assert (p ∈ fr) as Hp by (rewrite Hfr, elem_of_app, elem_of_seqZ; left; lia). split.
  - exists bs, pgs. split.
    + eapply slob_inv_perm; [|destruct Hi as [Him Hr Hfi Ha Hbl Hc Hs [Hp1 Hp2] Hu Hal]; split].
      * cbn. by rewrite <- !Permutation_middle.
      * exact Hm.
      * intros q Hq. apply Hr. rewrite Hfr. cbn in Hq. set_solver.
      * done.
      * done.
      * exact Hbl.
      * by eapply (cells_keep s).
      * done.
      * split; [done|]. intros q Hq. right. auto.
      * exact Hu.
      * exact Hal.
    + cbn. rewrite <- Permutation_middle. constructor; [|done]. intros [Hin|(g & -> & Hg)%list_elem_of_fmap]%elem_of_app.
      * apply (si_pgs _ _ _ _ _ _ _ Hi) in Hin. apply (block_page p 1) in Hin; [|lia].
        pose proof (mgr_disjoint _ _ _ (si_mgr _ _ _ _ _ _ _ Hi)) as (_ & Hd & _)%NoDup_app. by apply (Hd p).
      * assert (0 < 2 ^ bg_order g) by (apply Z.pow_pos_nonneg; [lia|apply Hown; done]).
        destruct (big_apart _ _ _ _ _ _ _ Hh g bs pgs (unit_of (bg_page g)) Hi Hnd Hg) as (_ & Hnf & _); [rewrite unit_of_add; lia|].
        apply Hnf. exists (bg_page g). split; [done|lia].
  - exact Hhd.
  - done.
  - cbn. split_and!; try done. eapply (big_list_keep s); [by intros|exact Hb].
  - intros g [->|Hg]%elem_of_cons; [split; [by left|done]|]. destruct (Hown g Hg). split; [by right|done].
Qed.

Lemma bigs_head_u32 a s own fr raw smalls bigs : heap_inv a s own fr raw smalls bigs → u32 (bigs_head bigs) = bigs_head bigs.
Proof.
  intros Hh. destruct (hi_slob _ _ _ _ _ _ _ Hh) as (bs & pgs & Hi & _). destruct bigs as [|g bigs]; [done|]. cbn.
  apply (unit_small s); [apply Hi|]. destruct (si_block _ _ _ _ _ _ _ Hi (bg_cell g) 2) as (_ & _ & ? & _); [|done].
  rewrite !elem_of_app, list_elem_of_fmap. right. right. exists g. split; [done|by left].
Qed.

Lemma bb_fields s c : fits_kernel s → uok s (c + 1) → 0 < c →
  bb_order (8 * c) = 4 * (2 * c) ∧ bb_pages (8 * c) = 4 * (2 * c + 1) ∧ bb_next (8 * c) = 4 * (2 * c + 2).
Proof.
  unfold fits_kernel, uok, unit_of. change (KMEMSIZE / PGSIZE) with (2 ^ 15 * 7). unfold KERNBASE, bb_order, bb_pages, bb_next. intros.
  rewrite !u32_small by lia. lia.
Qed.

(** A request of a page or more. *)
Lemma kmalloc_big ide a s own fr smalls bigs size :
  heap_inv a s own fr [] smalls bigs → check_mm_struct (sl_vm s) = None → 4088 ≤ size < 2 ^ 32 →
  (∃ g s' own' fr', kmalloc ide size s = Ok (8 * unit_of (bg_page g), s') ∧ find_order (i32 size) = Ok (bg_order g) ∧
     heap_inv a s' own' fr' [] smalls (g :: bigs) ∧ kept smalls bigs s s' ∧ same_env (sl_vm s) (sl_vm s')) ∨
  (∃ s' own' fr', kmalloc ide size s = Ok (0, s') ∧ heap_inv a s' own' fr' [] smalls bigs ∧ kept smalls bigs s s' ∧
     same_env (sl_vm s) (sl_vm s')) ∨
  (kmalloc ide size s = Faulted ∧ swap_init_ok (sl_vm s) = true).
Proof.
  intros Hh Hck Hs. unfold kmalloc, PAGE_SIZE, PGSIZE, SLOB_UNIT, SIZEOF_BIGBLOCK. rewrite (proj2 (Z.ltb_ge size _)) by lia.
  destruct (slob_alloc_heap ide _ _ _ _ _ _ _ 12 Hh Hck) as [(c & s1 & own1 & fr1 & -> & Hc & Hu & _ & Hh1 & Hk1 & He1)|[->|[-> Hsw]]]; [lia..| |right; left; by exists s, own, fr|by right; right].
  change (SLOB_UNITS 12) with 2 in *. cbn [bind]. rewrite (proj2 (Z.eqb_neq _ _)) by lia.
  destruct (find_order_ok (i32 size)) as (o & Eo & Ho & _); [pose proof (i32_range size) as [_ ?]; lia|]. rewrite Eo. cbn [bind].
  assert (fits_kernel s1) as Hf1 by (destruct (hi_slob _ _ _ _ _ _ _ Hh1) as (? & ? & Hi1 & _); apply Hi1).
  destruct (bb_fields s1 c Hf1 Hu Hc) as (-> & -> & ->).
  destruct (raw_write a s1 own1 fr1 [] smalls bigs c 2 (2 * c) o Hh1) as (E2 & Hh2 & Hk2 & He2); [lia|].
  rewrite E2. cbn [bind]. set (s2 := put (2 * c) o s1) in *.
  destruct (hi_slob _ _ _ _ _ _ _ Hh2) as (bs & pgs & Hi2 & _). destruct (same_env_check _ _ He1) as [Hck1 Hsw1].
  destruct (get_free_pages_ok ide o s2 own1 fr1 a (si_mgr _ _ _ _ _ _ _ Hi2) (si_range _ _ _ _ _ _ _ Hi2) Hf1 (si_arena _ _ _ _ _ _ _ Hi2))
    as [(p & m & fr' & -> & Hfr & Hm & Hp)|[->|(-> & _ & Hsw)]]; [by etrans; [exact Hck1|]|lia|..]; cbn [bind].
  - left. destruct (raw_write _ _ _ _ _ _ _ _ _ (2 * c + 1) (8 * unit_of p) Hh2) as (E3 & Hh3 & Hk3 & He3); [lia|].
    destruct (raw_write _ _ _ _ _ _ _ _ _ (2 * c + 2) (bigblocks s1) Hh3) as (E4 & Hh4 & Hk4 & He4); [lia|].
    assert (0 < unit_of p) as Hp0 by (eapply unit_pos; [exact Hi2|set_solver]).
    assert (u32 (8 * unit_of p) = 8 * unit_of p) as Hup.
    { apply (unit_small s2); [done|]. destruct (si_range _ _ _ _ _ _ _ Hi2 p) as [? ?]; [set_solver|].
      destruct (si_arena _ _ _ _ _ _ _ Hi2) as [? _]. unfold uok, unit_of in *. lia. }
    set (s5 := put (2 * c + 2) (bigblocks s1) (put (2 * c + 1) (8 * unit_of p) s2)) in *.
    assert (∀ k v, kstore (4 * k) v (with_vm (set_mgr m (sl_vm s2)) s2) =
      if kvalid (sl_vm s2) (4 * k) then Ok (put k v (with_vm (set_mgr m (sl_vm s2)) s2)) else Faulted) as Ek by done.
    assert (kvalid (sl_vm s2) (4 * (2 * c + 1)) = true) as Hv1 by (unfold kstore in E3; by destruct (kvalid _ _)).
    assert (kvalid (sl_vm s2) (4 * (2 * c + 2)) = true) as Hv2.
    { unfold kstore in E4. change (kvalid (sl_vm (put (2 * c + 1) (8 * unit_of p) s2)) (4 * (2 * c + 2))) with (kvalid (sl_vm s2) (4 * (2 * c + 2))) in E4.
      by destruct (kvalid _ _). }
    rewrite Ek, Hv1. cbn [bind]. rewrite (proj2 (Z.eqb_neq _ _)) by lia. unfold kstore at 1.
    change (kvalid (sl_vm (put (2 * c + 1) (8 * unit_of p) (with_vm (set_mgr m (sl_vm s2)) s2))) (4 * (2 * c + 2)))
      with (kvalid (sl_vm s2) (4 * (2 * c + 2))). rewrite Hv2. cbn [bind].
    exists (mkBig c o p), (with_bigblocks (8 * c) (with_vm (set_mgr m (sl_vm s5)) s5)), ((p, 2 ^ o) :: own1), fr'. split_and!; [done|done| | |].
    + eapply make_big; [exact Hh4|done|done|done|..]; unfold s5, s2; mw_simp; [by rewrite u32_small by lia|done|].
      rewrite (hi_first _ _ _ _ _ _ _ Hh1). by eapply bigs_head_u32.
    + eapply contents_trans; [exact Hk1|]. eapply contents_trans; [exact Hk2|]. eapply contents_trans; [exact Hk3|exact Hk4].
    + etrans; [exact He1|]. exact He4.
  - right. left. destruct (raw_write _ _ _ _ _ _ _ _ _ (2 * c + 1) 0 Hh2) as (E3 & Hh3 & Hk3 & He3); [lia|]. rewrite E3. cbn [bind Z.eqb].
    destruct (raw_free _ _ _ _ _ _ _ _ _ 12 Hh3) as (s4 & -> & Hh4 & Hk4 & He4); [done|]. cbn [bind].
    exists s4, own1, fr1. split_and!; [done|done| |].
    + eapply contents_trans; [exact Hk1|]. eapply contents_trans; [exact Hk2|]. by eapply contents_trans.
    + etrans; [exact He1|]. by etrans.
  - right. right. split; [done|]. by rewrite <- Hsw1.
Qed.

(** ** kfree *)

Definition cell_ok s (g : big) : Prop := uok s (bg_cell g) ∧ uok s (bg_cell g + 1).

Lemma kload_word s k : kvalid (sl_vm s) (4 * k) = true → kload s (4 * k) = Ok (mw s k).
Proof. unfold kload. by intros ->. Qed.

Lemma cell_loads s g : fits_kernel s → cell_ok s g → bg_cell g ≠ 0 ∧
  kload s (bb_order (8 * bg_cell g)) = Ok (mw s (2 * bg_cell g)) ∧
  kload s (bb_pages (8 * bg_cell g)) = Ok (mw s (2 * bg_cell g + 1)) ∧
  kload s (bb_next (8 * bg_cell g)) = Ok (mw s (2 * bg_cell g + 2)) ∧
  bb_next (8 * bg_cell g) = 4 * (2 * bg_cell g + 2) ∧ kvalid (sl_vm s) (4 * (2 * bg_cell g + 2)) = true.
Proof.
  intros Hf [Hu Hu2]. assert (0 < bg_cell g) as Hc by (destruct Hu as [? _]; unfold KERNBASE in *; lia).
  destruct (bb_fields s (bg_cell g) Hf Hu2 Hc) as (-> & -> & ->).
  destruct (uok_word s (bg_cell g) (2 * bg_cell g) Hf Hu) as [H1 _]; [lia|].
  destruct (uok_word s (bg_cell g) (2 * bg_cell g + 1) Hf Hu) as [H2 _]; [lia|].
  destruct (uok_word s (bg_cell g + 1) (2 * bg_cell g + 2) Hf Hu2) as [H3 _]; [lia|].
  rewrite !kload_word by done. split_and!; done || lia.
Qed.

(** The pointer to the big block that follows [l]. *)
Definition last_ptr (l : list big) : option Z :=
  match last l with None => None | Some h => Some (4 * (2 * bg_cell h + 2)) end.

Lemma find_big_ok fuel l1 g l2 x s :
  fits_kernel s → (∀ h, h ∈ l1 ++ g :: l2 → cell_ok s h) → big_list s (l1 ++ g :: l2) →
  (∀ h, h ∈ l1 → bg_page h ≠ bg_page g) → (length l1 < fuel)%nat →
  find_big fuel x (bigs_head (l1 ++ g :: l2)) (8 * unit_of (bg_page g)) s =
    Ok (Some (match l1 with [] => x | _ => last_ptr l1 end, 8 * bg_cell g)).
Proof.
  intros Hf. revert x fuel. induction l1 as [|h l1 IH]; intros x fuel Hcell Hb Hne Hfu; (destruct fuel as [|fuel]; [cbn in Hfu; lia|]);
    cbn in Hb; destruct Hb as (_ & Hp & Hn & Hb); cbn [find_big app bigs_head].
  - destruct (cell_loads s g Hf) as (Hc & _ & -> & _); [apply Hcell; by left|]. rewrite (proj2 (Z.eqb_neq _ 0)) by lia.
    cbn [bind]. by rewrite Hp, Z.eqb_refl.
  - destruct (cell_loads s h Hf) as (Hc & _ & -> & -> & Hnx & _); [apply Hcell; by left|]. rewrite (proj2 (Z.eqb_neq _ 0)) by lia.
    cbn [bind]. rewrite Hp, (proj2 (Z.eqb_neq _ _)), Hn.
    2:{ specialize (Hne h ltac:(by left)). unfold unit_of. lia. }
    cbn [bind]. rewrite IH; [|intros; apply Hcell; by right|done|intros; apply Hne; by right|cbn in Hfu; lia].
    do 3 f_equal. rewrite Hnx. destruct l1 as [|h' l1] using rev_ind; [done|]. unfold last_ptr.
    change (h :: l1 ++ [h']) with ((h :: l1) ++ [h']). rewrite !last_snoc. by destruct l1.
Qed.

Lemma find_big_none fuel l x block s :
  fits_kernel s → (∀ h, h ∈ l → cell_ok s h) → big_list s l → (∀ h, h ∈ l → 8 * unit_of (bg_page h) ≠ block) → (length l < fuel)%nat →
  find_big fuel x (bigs_head l) block s = Ok None.
Proof.
  intros Hf. revert x fuel. induction l as [|h l IH]; intros x fuel Hcell Hb Hne Hfu; (destruct fuel as [|fuel]; [cbn in Hfu; lia|]);
    [done|]. cbn in Hb. destruct Hb as (_ & Hp & Hn & Hb). cbn [find_big bigs_head].
  destruct (cell_loads s h Hf) as (Hc & _ & -> & -> & _); [apply Hcell; by left|]. rewrite (proj2 (Z.eqb_neq _ 0)) by lia.
  cbn [bind]. rewrite Hp, (proj2 (Z.eqb_neq _ _)), Hn by (apply Hne; by left). cbn [bind].
  apply IH; [intros; apply Hcell; by right|done|intros; apply Hne; by right|cbn in Hfu; lia].
Qed.

Section bigs_facts.
Context a s own fr raw smalls bigs (Hh : heap_inv a s own fr raw smalls bigs).

Lemma hi_cell g : g ∈ bigs → cell_ok s g.
Proof.
  intros Hg. destruct (hi_slob _ _ _ _ _ _ _ Hh) as (bs & pgs & Hi & _).
  destruct (si_block _ _ _ _ _ _ _ Hi (bg_cell g) 2) as (_ & _ & H1 & H2).
  { rewrite !elem_of_app, list_elem_of_fmap. right. right. by exists g. }
  split; [done|]. by replace (bg_cell g + 1) with (bg_cell g + 2 - 1) by lia.
Qed.

Lemma hi_fits : fits_kernel s.
Proof. destruct (hi_slob _ _ _ _ _ _ _ Hh) as (? & ? & Hi & _). apply Hi. Qed.

(** The list of big blocks is shorter than the fuel of the loops. *)
Lemma hi_length : (length bigs < Datatypes.S (slob_fuel s))%nat.
Proof.
  destruct (hi_slob _ _ _ _ _ _ _ Hh) as (bs & pgs & Hi & _).
  pose proof (si_nodup _ _ _ _ _ _ _ Hi) as (_ & _ & Hnd)%NoDup_app. rewrite !pages_of_app in Hnd.
  apply NoDup_app in Hnd as (_ & _ & (_ & _ & Hnd)%NoDup_app).
  assert (∀ l : list big, (length l ≤ length (pages_of (big_cell <$> l)))%nat) as Hl.
  { induction l as [|g l IH]; [done|]. cbn [fmap list_fmap pages_of big_cell]. rewrite length_app, length_seqZ. cbn [length]. lia. }
  specialize (Hl bigs).
  assert (pages_of (big_cell <$> bigs) ⊆+ seqZ (KERNBASE / 8) (512 * npage (sl_vm s))) as Hsub%submseteq_length.
  { apply NoDup_submseteq; [done|]. intros u Hu. apply elem_of_seqZ.
    destruct (si_unit _ _ _ _ _ _ _ Hi u) as (_ & Huo); [right; rewrite !pages_of_app, !elem_of_app; auto|]. unfold uok, unit_of in Huo. lia. }
  rewrite length_seqZ in Hsub. unfold slob_fuel. change (PGSIZE / SLOB_UNIT) with 512. lia.
Qed.

Lemma hi_pages : NoDup (bg_page <$> bigs).
Proof. destruct (hi_slob _ _ _ _ _ _ _ Hh) as (? & ? & _ & (_ & _ & ?)%NoDup_app). done. Qed.
End bigs_facts.

(** Returning a block of less than a page. *)
Lemma kfree_small a s own fr smalls smalls' bigs b n :
  heap_inv a s own fr [] smalls bigs → smalls ≡ₚ (b, n) :: smalls' →
  ∃ s', kfree (8 * (b + 1)) s = Ok s' ∧ heap_inv a s' own fr [] smalls' bigs ∧ kept smalls' bigs s s' ∧
    same_env (sl_vm s) (sl_vm s').
Proof.
  intros Hh Hp. destruct (hi_head _ _ _ _ _ _ _ Hh b n) as [Hw Hn]; [rewrite Hp; by left|].
  pose proof (hi_fits _ _ _ _ _ _ _ Hh) as Hf. destruct (hi_slob _ _ _ _ _ _ _ Hh) as (bs & pgs & Hi & Hnd).
  destruct (si_unit _ _ _ _ _ _ _ Hi b) as [_ Hu]; [right; apply elem_of_pages_of; exists b, n; split; [|lia]; rewrite Hp; by left|].
  unfold kfree. assert (0 < b) as Hb by (destruct Hu as [? _]; unfold KERNBASE in *; lia).
  rewrite (proj2 (Z.eqb_neq _ 0)) by lia.
  assert ((if Z.land (8 * (b + 1)) (PAGE_SIZE - 1) =? 0 then find_big (Datatypes.S (slob_fuel s)) None (bigblocks s) (8 * (b + 1)) s else Ok None) = Ok None) as ->.
  { destruct (_ =? 0); [|done]. rewrite (hi_first _ _ _ _ _ _ _ Hh). apply find_big_none; [done|by eapply hi_cell|apply Hh| |by eapply hi_length].
    intros g Hg Heq. assert (0 < 2 ^ bg_order g) by (apply Z.pow_pos_nonneg; [lia|by apply (hi_own _ _ _ _ _ _ _ Hh)]).
    destruct (big_apart _ _ _ _ _ _ _ Hh g bs pgs (b + 1) Hi Hnd Hg) as (_ & _ & _ & Hx); [rewrite unit_of_add; lia|].
    apply Hx. rewrite pages_of_app, elem_of_app. right. rewrite pages_of_app, elem_of_app. left.
    apply elem_of_pages_of. exists b, n. split; [rewrite Hp; by left|lia]. }
  cbn [bind]. assert (slot (8 * (b + 1)) (-1) = 8 * b) as ->.
  { unfold slot, SLOB_UNIT. replace (8 * (b + 1) + 8 * -1) with (8 * b) by lia. by apply (unit_small s). }
  eapply raw_free; [by eapply small_raw|done].
Qed.

(** The next pointer of the block before [g] is redirected. *)
Lemma big_list_unlink s s' l1 g l2 :
  NoDup (bg_page <$> l1 ++ g :: l2) → (∀ h h', h ∈ l1 ++ g :: l2 → h' ∈ l1 ++ g :: l2 → h ≠ h' → bg_cell h + 2 ≤ bg_cell h' ∨ bg_cell h' + 2 ≤ bg_cell h) →
  big_list s (l1 ++ g :: l2) →
  (∀ k, mw s' k = if decide (Some (4 * k) = last_ptr l1) then bigs_head l2 else mw s k) → big_list s' (l1 ++ l2).
Proof.
  intros Hnd Hdis Hb Hw. induction l1 as [|h l1 IH]; cbn in Hb |- *.
  - destruct Hb as (_ & _ & _ & Hb). eapply big_list_keep; [|exact Hb]. intros k j _ _. by rewrite Hw.
  - destruct Hb as (H1 & H2 & H3 & Hb). cbn in Hnd. apply NoDup_cons in Hnd as [Hn Hnd].
    assert (∀ h', h' ∈ l1 → bg_cell h' + 2 ≤ bg_cell h ∨ bg_cell h + 2 ≤ bg_cell h') as Hd.
    { intros h' Hin. destruct (Hdis h h'); [by left|right; set_solver| |auto|auto].
      intros ->. apply Hn. apply list_elem_of_fmap. exists h'. split; [done|set_solver]. }
    assert (∀ k, 2 * bg_cell h ≤ k < 2 * bg_cell h + 4 → l1 ≠ [] → mw s' k = mw s k) as Hk.
    { intros k Hk Hl1. rewrite Hw, decide_False; [done|]. unfold last_ptr.
      destruct (exists_last Hl1) as (l0 & x & ->). change (h :: l0 ++ [x]) with ((h :: l0) ++ [x]). rewrite last_snoc.
      intros [= He]. destruct (Hd x); [set_solver|lia|lia]. }
    destruct l1 as [|h1 l1].
    + assert (∀ k, k ≠ 2 * bg_cell h + 2 → mw s' k = mw s k) as Hk'.
      { intros k Hne. rewrite Hw, decide_False; [done|]. cbn. intros [= ?]. lia. }
      rewrite !Hk' by lia. rewrite Hw, decide_True by done. split_and!; try done. destruct Hb as (_ & _ & _ & Hb).
      eapply big_list_keep; [|exact Hb]. intros x k Hx Hkx. apply Hk'. intros ->.
      destruct (Hdis h x); [by left|right; right; done| |lia|lia]. intros ->. apply Hn. apply list_elem_of_fmap. exists x. split; [done|by right].
    + rewrite !Hk by (lia || done). split_and!; try done. apply IH; [done| |done|].
      * intros x y Hx Hy. apply Hdis; by right.
      * intros k. rewrite Hw. done.
Qed.

(** The cells of big blocks are apart. *)
Lemma cells_apart a s own fr raw smalls bigs h h' :
  heap_inv a s own fr raw smalls bigs → h ∈ bigs → h' ∈ bigs → h ≠ h' → bg_cell h + 2 ≤ bg_cell h' ∨ bg_cell h' + 2 ≤ bg_cell h.
Proof.
  intros Hh H1 H2 Hne. destruct (hi_slob _ _ _ _ _ _ _ Hh) as (bs & pgs & Hi & _).
  pose proof (si_nodup _ _ _ _ _ _ _ Hi) as (_ & _ & Hnd)%NoDup_app. rewrite !pages_of_app in Hnd.
  apply NoDup_app in Hnd as (_ & _ & (_ & _ & Hnd)%NoDup_app).
  destruct (list_elem_of_split _ _ H1) as (l1 & l2 & ->).
  assert (∀ u, u ∈ seqZ (bg_cell h) 2 → u ∉ pages_of (big_cell <$> l1) ∧ u ∉ pages_of (big_cell <$> l2)) as Hd.
  { rewrite fmap_app, pages_of_app in Hnd. cbn [fmap list_fmap pages_of big_cell] in Hnd. apply NoDup_app in Hnd as (_ & Hd1 & (_ & Hd2 & _)%NoDup_app).
    intros u Hu. split; [|by apply Hd2]. intros Hu1. apply (Hd1 u Hu1), elem_of_app. by left. }
  assert (∀ u, u ∈ seqZ (bg_cell h) 2 → u ∉ seqZ (bg_cell h') 2) as Hdd.
  { intros u Hu Hu'. destruct (Hd u Hu) as [Hd1 Hd2]. apply elem_of_app in H2 as [H2|[->|H2]%elem_of_cons]; [apply Hd1|done|apply Hd2];
      apply elem_of_pages_of; exists (bg_cell h'), 2; (split; [apply list_elem_of_fmap; by exists h'|by apply elem_of_seqZ]). }
  destruct (decide (bg_cell h + 2 ≤ bg_cell h' ∨ bg_cell h' + 2 ≤ bg_cell h)) as [|Hn]; [done|].
  exfalso. apply (Hdd (Z.max (bg_cell h) (bg_cell h'))); apply elem_of_seqZ; lia.
Qed.

(** Taking a big block out of the list and giving its pages back leaves its cell. *)
Lemma drop_big a s s' own1 own2 fr smalls l1 g l2 m :
  heap_inv a s (own1 ++ big_block g :: own2) fr [] smalls (l1 ++ g :: l2) →
  mgr_inv m (own1 ++ own2) (seqZ (bg_page g) (2 ^ bg_order g) ++ fr) → mgr (sl_vm s') = m → same_env (sl_vm s) (sl_vm s') →
  slobfree s' = slobfree s → bigblocks s' = bigs_head (l1 ++ l2) →
  (∀ k, mw s' k = if decide (Some (4 * k) = last_ptr l1) then bigs_head l2 else mw s k) →
  heap_inv a s' (own1 ++ own2) (seqZ (bg_page g) (2 ^ bg_order g) ++ fr) [(bg_cell g, 2)] smalls (l1 ++ l2) ∧
  kept smalls (l1 ++ l2) s s'.
Proof.
  intros Hh Hm Hmg He Hsf Hbb Hw. pose proof Hh as [(bs & pgs & Hi & Hnd) Hhd Hf Hb Hown].
  set (U := λ u, ∃ h, last l1 = Some h ∧ bg_cell h ≤ u < bg_cell h + 2).
  assert (changed U s s') as Hch.
  { split; [done|]. intros k Hk. rewrite Hw, decide_False; [done|]. unfold last_ptr. destruct (last l1) as [h|] eqn:El; [|done].
    intros [= Heq]. apply Hk. exists h. split; [done|lia]. }
  assert (∀ u, U u → u ∈ pages_of ([] ++ smalls ++ (big_cell <$> l1 ++ g :: l2)) ∧ u ∉ pages_of smalls) as HU.
  { intros u (h & Hl & Hu). assert (u ∈ pages_of (big_cell <$> l1 ++ g :: l2)) as Hin.
    { apply elem_of_pages_of. exists (bg_cell h), 2. split; [|done]. apply list_elem_of_fmap. exists h. split; [done|].
      apply last_Some in Hl as (l0 & ->). set_solver. }
    split; [cbn; rewrite pages_of_app, elem_of_app; by right|]. intros Hs.
    pose proof (si_nodup _ _ _ _ _ _ _ Hi) as (_ & _ & Hx)%NoDup_app. cbn in Hx. rewrite pages_of_app in Hx.
    apply NoDup_app in Hx as (_ & Hx & _). by apply (Hx u). }
  assert (∀ x, x ∈ l1 ++ l2 → x ∈ l1 ++ g :: l2 ∧ bg_page x ≠ bg_page g) as Hsub.
  { intros x Hx. split; [set_solver|]. rewrite fmap_app in Hnd. cbn in Hnd. rewrite app_assoc in Hnd.
    pose proof Hnd as Hnd2. rewrite <- Permutation_middle in Hnd2. apply NoDup_cons in Hnd2 as [Hng _]. intros Heq. apply Hng.
    rewrite <- Heq, <- app_assoc, <- fmap_app, elem_of_app, list_elem_of_fmap. right. by exists x. }
  split; [split|split].
  - exists bs, pgs. split.
    + destruct Hi as [Him Hr Hfi Ha Hbl Hc Hs [Hp1 Hp2] Hu Hal].
      assert (npage (sl_vm s') = npage (sl_vm s)) as Hnp by apply He. split.
      * by rewrite Hmg.
      * rewrite Hnp. intros p Hp. apply Hr. rewrite pages_of_app in Hp |- *. cbn. set_solver.
      * unfold fits_kernel. by rewrite Hnp.
      * unfold uok. by rewrite Hnp.
      * done.
      * eapply cells_keep; [done| |exact Hc]. intros b n Hin.
        assert (∀ k, k / 2 = b → mw s' k = mw s k) as Hk; [|split; apply Hk; lia].
        intros k <-. apply (ch_words _ _ _ Hch). intros HUk. destruct (HU _ HUk) as [HUa _].
        destruct (live_not_free a s (own1 ++ big_block g :: own2) fr [] smalls (l1 ++ g :: l2) bs pgs (k / 2)) as (? & _ & Hx); [by split|done|].
        apply elem_of_cons in Hin as [[= Hin _]|Hin]; [lia|]. apply Hx, elem_of_pages_of. exists (k / 2), n. split; [done|].
        destruct (blocks_ok_elem _ _ _ _ Hbl Hin). lia.
      * by rewrite Hsf.
      * split; [done|]. intros p Hp. specialize (Hp2 p Hp). apply elem_of_app in Hp2 as [?|[[= Hpg Ho]|?]%elem_of_cons]; [set_solver| |set_solver].
        exfalso. apply NoDup_app in Hnd as (_ & Hd & _). apply (Hd p Hp). apply list_elem_of_fmap. exists g. split; [done|set_solver].
      * rewrite <- Hu. f_equiv. apply pages_of_perm. cbn. rewrite !fmap_app. cbn. by rewrite !app_assoc, <- Permutation_middle.
      * intros b n Hin. apply (Hal b n). cbn in Hin |- *. rewrite !fmap_app in *. cbn. set_solver.
    + rewrite fmap_app in Hnd |- *. cbn in Hnd. rewrite app_assoc, <- Permutation_middle in Hnd. rewrite app_assoc.
      by apply NoDup_cons in Hnd as [_ ?].
  - intros b n Hin. destruct (Hhd b n Hin) as [<- ?]. split; [|done]. apply (ch_words _ _ _ Hch). intros HUk. destruct (HU _ HUk) as [_ Hx].
    apply Hx, elem_of_pages_of. exists b, (mw s (2 * b)). split; [done|lia].
  - done.
  - eapply big_list_unlink; [by eapply hi_pages|intros; by eapply cells_apart|done|done].
  - intros x Hx. destruct (Hsub x Hx) as [Hx1 Hx2]. destruct (Hown x Hx1) as [Ho ?]. split; [|done].
    apply elem_of_app in Ho as [?|[[= ? ?]|?]%elem_of_cons]; set_solver.
  - intros b n k Hin Hk. apply (ch_words _ _ _ Hch). intros HUk. destruct (HU _ HUk) as [_ Hx].
    apply Hx, elem_of_pages_of. exists b, n. split; [done|lia].
  - intros x k Hx Hk. apply (ch_words _ _ _ Hch). intros HUk. destruct (HU _ HUk) as [Hx' _].
    destruct (Hsub x Hx) as [Hx1 _].
    destruct (big_apart _ _ _ _ _ _ _ Hh x bs pgs (k / 2) Hi Hnd Hx1) as (_ & _ & _ & Hn); [lia|done].
Qed.

(** The state after the predecessor of a big block points to the block behind it. *)
Definition unlinked (l1 : list big) (v : Z) s : slob :=
  match last l1 with Some h => put (2 * bg_cell h + 2) v s | None => with_bigblocks v s end.

Lemma unlink_write l1 v s : fits_kernel s → (∀ h, h ∈ l1 → cell_ok s h) →
  match last_ptr l1 with None => Ok (with_bigblocks v s) | Some x => kstore x v s end = Ok (unlinked l1 v s).
Proof.
  intros Hf Hc. unfold last_ptr, unlinked. destruct (last l1) as [h|] eqn:El; [|done].
  destruct (cell_loads s h Hf) as (_ & _ & _ & _ & _ & Hv); [apply Hc; apply last_Some in El as (l0 & ->); set_solver|].
  unfold kstore. by rewrite Hv.
Qed.

Lemma mw_unlinked l1 v s k : u32 v = v → mw (unlinked l1 v s) k = if decide (Some (4 * k) = last_ptr l1) then v else mw s k.
Proof.
  intros Hv. unfold unlinked, last_ptr. destruct (last l1) as [h|]; [|by rewrite decide_False].
  rewrite mw_put, Hv. destruct (decide (k = _)) as [->|]; [by rewrite decide_True|]. rewrite decide_False; [done|]. intros [= ?]. lia.
Qed.

(** Giving pages back through the kernel address of the first. *)
Lemma slob_free_pages_ok s own1 own2 fr p o :
  mgr_inv (mgr (sl_vm s)) (own1 ++ (p, 2 ^ o) :: own2) fr → fits_kernel s → 0 ≤ p < npage (sl_vm s) → 0 ≤ o < 31 →
  ∃ s', __slob_free_pages (8 * unit_of p) o s = Ok s' ∧ mgr_inv (mgr (sl_vm s')) (own1 ++ own2) (seqZ p (2 ^ o) ++ fr) ∧
    same_env (sl_vm s) (sl_vm s') ∧ slobfree s' = slobfree s ∧ bigblocks s' = bigblocks s ∧ ∀ k, mw s' k = mw s k.
Proof.
  intros Hm Hf Hp Ho. unfold __slob_free_pages. assert (2 ^ o ≤ 2 ^ 30) by (apply Z.pow_le_mono_r; lia).
  assert (0 < 2 ^ o) by (apply Z.pow_pos_nonneg; lia).
  rewrite <- kva_of_unit by (unfold fits_kernel in Hf; lia). rewrite kva2page_page2kva by done. cbn [bind].
  rewrite Z.shiftl_1_l, i32_small by lia. unfold Paging.free_pages.
  destruct (free_pages_law _ _ _ _ _ _ Hm) as (m & -> & Hm'). cbn [bind]. eexists. split; [done|].
  assert (∀ l (vm : vmem S), same_env vm (foldr (λ p vm, set_ref p 0 vm) vm l) ∧ phys (foldr (λ p vm, set_ref p 0 vm) vm l) = phys vm) as Hfold.
  { induction l as [|q l IH]; intros vm; [done|]. cbn. destruct (IH vm) as [IH1 IH2]. split; [|done]. etrans; [exact IH1|done]. }
  destruct (Hfold (seqZ p (2 ^ o)) (set_mgr m (sl_vm s))) as [He Hph]. split_and!; try done.
  - cbn. by rewrite mgr_set_refs.
  - intros k. unfold mw. cbn. by rewrite Hph.
Qed.

(** Returning a block of whole pages: its pages and its cell become free. *)
Lemma kfree_big a s own fr smalls l1 g l2 :
  heap_inv a s own fr [] smalls (l1 ++ g :: l2) →
  ∃ s' own' fr', kfree (8 * unit_of (bg_page g)) s = Ok s' ∧ fr' ≡ₚ seqZ (bg_page g) (2 ^ bg_order g) ++ fr ∧
    heap_inv a s' own' fr' [] smalls (l1 ++ l2) ∧ kept smalls (l1 ++ l2) s s' ∧ same_env (sl_vm s) (sl_vm s').
Proof.
  intros Hh. pose proof (hi_fits _ _ _ _ _ _ _ Hh) as Hf. pose proof Hh as [(bs & pgs & Hi & Hnd) _ Hfb Hb Hown].
  destruct (Hown g) as [Hog Hord]; [set_solver|]. assert (1 ≤ 2 ^ bg_order g ≤ 2 ^ 30) as Hp2.
  { split; [pose proof (Z.pow_pos_nonneg 2 (bg_order g)); lia|apply Z.pow_le_mono_r; lia]. }
  destruct (list_elem_of_split _ _ Hog) as (own1 & own2 & ->).
  assert (bg_page g ∈ pages_of (own1 ++ big_block g :: own2)) as Hpg.
  { apply elem_of_pages_of. eexists _, _. split; [exact Hog|]. lia. }
  destruct (si_range _ _ _ _ _ _ _ Hi (bg_page g)) as [Hpl Hpn]; [set_solver|].
  assert (0 < unit_of (bg_page g)) as Hu0 by (eapply unit_pos; [exact Hi|set_solver]).
  assert (0 ≤ bg_page g) as Hp0 by (destruct (si_arena _ _ _ _ _ _ _ Hi) as [? _]; unfold unit_of in Hpl; lia).
  assert (8 * unit_of (bg_page g) = kva_of (bg_page g)) as Hkva by (rewrite kva_of_unit; [done|unfold fits_kernel in Hf; lia]).
  unfold kfree. rewrite (proj2 (Z.eqb_neq _ 0)) by lia.
  assert (Z.land (8 * unit_of (bg_page g)) (PAGE_SIZE - 1) =? 0 = true) as ->.
  { apply Z.eqb_eq. change (PAGE_SIZE - 1) with (Z.ones 12). rewrite Z.land_ones by lia. unfold unit_of, KERNBASE. change (2 ^ 12) with 4096. lia. }
  rewrite Hfb, find_big_ok; try done; [|by eapply hi_cell| |pose proof (hi_length _ _ _ _ _ _ _ Hh) as Hl; rewrite length_app in Hl; cbn in Hl; lia].
  2:{ intros h Hin Heq. pose proof (hi_pages _ _ _ _ _ _ _ Hh) as Hn. rewrite fmap_app in Hn. apply NoDup_app in Hn as (_ & Hn & _).
      apply (Hn (bg_page g)); [rewrite <- Heq; apply list_elem_of_fmap; by exists h|cbn; by left]. }
  cbn [bind]. destruct (cell_loads s g Hf) as (_ & _ & _ & -> & _); [eapply hi_cell; [done|set_solver]|]. cbn [bind].
  assert (mw s (2 * bg_cell g) = bg_order g ∧ mw s (2 * bg_cell g + 2) = bigs_head l2) as [Hw1 Hw2].
  { clear -Hb. induction l1 as [|h l1 IH]; cbn in Hb; [tauto|]. apply IH. tauto. }
  assert (match l1 with [] => None | _ => last_ptr l1 end = last_ptr l1) as -> by by destruct l1.
  assert (u32 (bigs_head l2) = bigs_head l2) as Hu32.
  { destruct l2 as [|g2 l2]; [done|]. apply (unit_small s); [done|]. destruct (hi_cell _ _ _ _ _ _ _ Hh g2) as [? _]; [set_solver|done]. }
  rewrite Hw2, unlink_write; [|done|intros h Hin; eapply hi_cell; [done|set_solver]]. cbn [bind].
  set (s1 := unlinked l1 (bigs_head l2) s).
  assert (same_env (sl_vm s) (sl_vm s1) ∧ mgr (sl_vm s1) = mgr (sl_vm s) ∧ slobfree s1 = slobfree s ∧ bigblocks s1 = bigs_head (l1 ++ l2)) as (He1 & Hm1 & Hs1 & Hb1).
  { unfold s1, unlinked. destruct l1 as [|h l1]; [done|]. destruct (last (h :: l1)) eqn:El; [done|by apply last_None in El]. }
  assert (∀ k, mw s1 k = if decide (Some (4 * k) = last_ptr l1) then bigs_head l2 else mw s k) as Hmw1 by (intros k; by apply mw_unlinked).
  assert (fits_kernel s1) as Hf1 by (unfold fits_kernel; destruct He1 as [-> _]; done).
  destruct (cell_loads s1 g Hf1) as (_ & -> & _).
  { destruct (hi_cell _ _ _ _ _ _ _ Hh g) as [? ?]; [set_solver|]. unfold cell_ok, uok. destruct He1 as [-> _]. done. }
  cbn [bind]. rewrite Hmw1, decide_False, Hw1.
  2:{ unfold last_ptr. destruct (last l1) as [h|] eqn:El; [|done]. apply last_Some in El as (l0 & ->). intros [= Heq].
      destruct (cells_apart _ _ _ _ _ _ _ h g Hh) as [?|?]; [set_solver|set_solver| |lia|lia]. intros ->. lia. }
  destruct (slob_free_pages_ok s1 own1 own2 fr (bg_page g) (bg_order g)) as (s2 & -> & Hm2 & He2 & Hs2 & Hb2 & Hw2'); [rewrite Hm1; apply Hi|done|destruct He1 as [-> _]; lia|done|].
  cbn [bind].
  destruct (drop_big a s s2 own1 own2 fr smalls l1 g l2 _ Hh Hm2) as [Hh2 Hk2]; [done|by etrans|congruence|congruence|intros k; by rewrite Hw2', Hmw1|].
  destruct (raw_free _ _ _ _ _ _ _ _ _ 12 Hh2) as (s3 & E3 & Hh3 & Hk3 & He3); [done|].
  unfold SIZEOF_BIGBLOCK. rewrite E3. exists s3, (own1 ++ own2), (seqZ (bg_page g) (2 ^ bg_order g) ++ fr). split_and!; try done.
  - by eapply contents_trans.
  - etrans; [exact He1|]. by etrans.
Qed.

(** ** Sequences of calls

    [live] are the addresses that [kmalloc] returned and that were not freed since;
    [HFree k] frees the [k]-th of them. *)

Inductive heap_call := HAlloc (size : Z) | HFree (k : nat).

Definition heap_step1 (ide : Z → bool) (c : heap_call) (live : list Z) s : res (list Z * slob) :=
  match c with
  | HAlloc size => let! (p, s) := kmalloc ide size s in Ok (if p =? 0 then live else p :: live, s)
  | HFree k =>
      match live !! k with
      | Some p => let! s := kfree p s in Ok (delete k live, s)
      | None => Ok (live, s)
      end
  end.

Fixpoint heap_run (ide : Z → bool) (cs : list heap_call) (live : list Z) s : res (list Z * slob) :=
  match cs with
  | [] => Ok (live, s)
  | c :: cs => let! (live, s) := heap_step1 ide c live s in heap_run ide cs live s
  end.

(** Sizes that [kmalloc] does not panic at. *)
Definition size_ok (c : heap_call) : Prop :=
  match c with HAlloc size => 0 < size < 2 ^ 32 ∧ ¬ (4080 ≤ size < 4088) | HFree _ => True end.

Definition addrs (smalls : list block) (bigs : list big) : list Z :=
  ((λ bl, 8 * (bl.1 + 1)) <$> smalls) ++ ((λ g, 8 * unit_of (bg_page g)) <$> bigs).

(** The heap whose live blocks are at the addresses [live]. *)
Definition heap_ok (a : Z) (live : list Z) s : Prop :=
  ∃ own fr smalls bigs, heap_inv a s own fr [] smalls bigs ∧ live ≡ₚ addrs smalls bigs ∧ check_mm_struct (sl_vm s) = None.

Lemma kmalloc_panics ide size s : 4080 ≤ size < 4088 → kmalloc ide size s = Panicked.
Proof.
  intros Hs. unfold kmalloc, slob_alloc, PAGE_SIZE, PGSIZE, SLOB_UNIT. rewrite (proj2 (Z.ltb_lt size _)) by lia.
  rewrite !u32_small by (try rewrite u32_small; lia). by rewrite (proj2 (Z.ltb_ge _ _)) by lia.
Qed.

Lemma heap_alloc_ok ide a live s size :
  heap_ok a live s → size_ok (HAlloc size) →
  (∃ live' s', heap_step1 ide (HAlloc size) live s = Ok (live', s') ∧ heap_ok a live' s' ∧ same_env (sl_vm s) (sl_vm s')) ∨
  (heap_step1 ide (HAlloc size) live s = Faulted ∧ swap_init_ok (sl_vm s) = true).
Proof.
  intros (own & fr & smalls & bigs & Hh & Hl & Hck) [Hs Hne]. cbn [heap_step1].
  assert (∀ p s', p ≠ 0 → kmalloc ide size s = Ok (p, s') →
    (let! (p, s) := kmalloc ide size s in Ok (if p =? 0 then live else p :: live, s)) = Ok (p :: live, s')) as Hst.
  { intros p s' Hp ->. cbn [bind]. by rewrite (proj2 (Z.eqb_neq _ _)). }
  destruct (decide (size < 4080)).
  - destruct (kmalloc_small ide _ _ _ _ _ _ size Hh Hck) as [(c & n & s' & own' & fr' & E & _ & Hh' & _ & He)|[->|[-> Hsw]]]; [lia|..].
    + left. eexists _, s'. split; [apply Hst; [|exact E]|split; [|done]].
      * destruct (hi_slob _ _ _ _ _ _ _ Hh') as (? & ? & Hi & _). destruct (si_block _ _ _ _ _ _ _ Hi c n) as (_ & _ & [? _] & _); [by left|].
        unfold KERNBASE in *. lia.
      * exists own', fr', ((c, n) :: smalls), bigs. split_and!; [done|cbn; by rewrite Hl|]. by rewrite (proj1 (same_env_check _ _ He)).
    + left. exists live, s. split; [done|]. split; [|done]. by exists own, fr, smalls, bigs.
    + by right.
  - destruct (kmalloc_big ide _ _ _ _ _ _ size Hh Hck) as [(g & s' & own' & fr' & E & _ & Hh' & _ & He)|[(s' & own' & fr' & -> & Hh' & _ & He)|[-> Hsw]]]; [cbn in Hne; lia|..].
    + left. eexists _, s'. split; [apply Hst; [|exact E]|split; [|done]].
      * destruct (hi_slob _ _ _ _ _ _ _ Hh') as (? & ? & Hi & _). destruct (hi_own _ _ _ _ _ _ _ Hh' g) as [Ho ?]; [by left|].
        apply block_page in Ho; [|apply Z.pow_pos_nonneg; lia]. pose proof (unit_pos _ _ _ _ _ _ _ (bg_page g) Hi). set_solver by lia.
      * exists own', fr', smalls, (g :: bigs). split_and!; [done| |by rewrite (proj1 (same_env_check _ _ He))].
        unfold addrs. cbn. by rewrite Hl, <- Permutation_middle.
    + left. exists live, s'. split; [done|]. split; [|done]. exists own', fr', smalls, bigs. split_and!; [done..|]. by rewrite (proj1 (same_env_check _ _ He)).
    + by right.
Qed.

Lemma heap_free_ok ide a live s k :
  heap_ok a live s → ∃ live' s', heap_step1 ide (HFree k) live s = Ok (live', s') ∧ heap_ok a live' s' ∧ same_env (sl_vm s) (sl_vm s').
Proof.
  intros (own & fr & smalls & bigs & Hh & Hl & Hck). cbn [heap_step1]. destruct (live !! k) as [p|] eqn:Hk.
  2:{ exists live, s. split; [done|]. split; [|done]. by exists own, fr, smalls, bigs. }
  assert (addrs smalls bigs ≡ₚ p :: delete k live) as Hd by (etrans; [symmetry; exact Hl|by apply delete_Permutation]).
  assert (p ∈ addrs smalls bigs) as [Hp|Hp]%elem_of_app by (rewrite Hd; by left).
  - apply list_elem_of_fmap in Hp as ([b n] & -> & Hb). destruct (list_elem_of_split _ _ Hb) as (l1 & l2 & ->).
    destruct (kfree_small a s own fr _ (l1 ++ l2) bigs b n Hh) as (s' & E & Hh' & _ & He); [by rewrite Permutation_middle|].
    cbn [fst] in *. rewrite E. cbn [bind]. eexists _, s'. split; [done|]. split; [|done]. exists own, fr, (l1 ++ l2), bigs.
    split_and!; [done| |by rewrite (proj1 (same_env_check _ _ He))].
    unfold addrs in *. rewrite !fmap_app in *. cbn in Hd. rewrite <- !app_assoc in *. cbn in Hd. rewrite <- Permutation_middle in Hd.
    by apply Permutation_cons_inv in Hd.
  - apply list_elem_of_fmap in Hp as (g & -> & Hg). destruct (list_elem_of_split _ _ Hg) as (l1 & l2 & ->).
    destruct (kfree_big a s own fr smalls l1 g l2 Hh) as (s' & own' & fr' & E & _ & Hh' & _ & He).
    rewrite E. cbn [bind]. eexists _, s'. split; [done|]. split; [|done]. exists own', fr', smalls, (l1 ++ l2).
    split_and!; [done| |by rewrite (proj1 (same_env_check _ _ He))].
    unfold addrs in *. rewrite !fmap_app in *. cbn in Hd. rewrite !app_assoc in *. rewrite <- Permutation_middle in Hd.
    by apply Permutation_cons_inv in Hd.
Qed.

(** [arena], [slobfree] and [bigblocks] as the kernel image initialises them. *)
Definition slob_init (a : Z) (vm : vmem S) : slob := put (2 * a + 1) (8 * a) (put (2 * a) 1 (mkSlob vm (8 * a) 0)).

Lemma slob_init_inv a vm own fr :
  mgr_inv (mgr vm) own fr → (∀ p, p ∈ pages_of own ++ fr → a + 2 ≤ unit_of p ∧ p < npage vm) →
  npage vm ≤ KMEMSIZE / PGSIZE → KERNBASE / 8 ≤ a < unit_of (npage vm) → heap_inv a (slob_init a vm) own fr [] [] [].
Proof.
  intros Hm Hr Hn Ha. assert (u32 (8 * a) = 8 * a) as Hu by (by apply (unit_small (mkSlob vm 0 0))).
  split; try done; [|by intros ?? []%elem_of_nil|by intros ? []%elem_of_nil].
  exists [], []. split; [|constructor]. split; try done.
  - cbn. unfold slob_init. mw_simp. unfold uok. cbn. replace (a + 1 - 1) with a by lia. done.
  - exists a, 1. split; [done|by left].
  - split; [constructor|]. by intros ? []%elem_of_nil.
  - by intros ?? []%elem_of_nil.
Qed.

(** ** Properties *)

(** Every outcome of [kmalloc] on a consistent heap: a request that leaves no room for
    the slob header in a page panics; otherwise the result is NULL with the heap as
    before, or a new block apart from all live blocks, large enough for requests below
    a page and of [find_order]'s number of pages above; live blocks keep their contents.
    When swapping is on and memory is exhausted, the call faults in the page allocator. *)
Theorem kmalloc_outcomes ide a s own fr smalls bigs size :
  heap_inv a s own fr [] smalls bigs → check_mm_struct (sl_vm s) = None → 0 < size < 2 ^ 32 →
  (kmalloc ide size s = Panicked ∧ 4080 ≤ size < 4088) ∨
  (kmalloc ide size s = Faulted ∧ swap_init_ok (sl_vm s) = true) ∨
  ∃ p s' own' fr' smalls' bigs',
    kmalloc ide size s = Ok (p, s') ∧ heap_inv a s' own' fr' [] smalls' bigs' ∧ kept smalls bigs s s' ∧
    ((p = 0 ∧ smalls' = smalls ∧ bigs' = bigs) ∨
     (∃ c n, p = 8 * (c + 1) ∧ size ≤ 8 * (n - 1) ∧ smalls' = (c, n) :: smalls ∧ bigs' = bigs) ∨
     (∃ g, p = 8 * unit_of (bg_page g) ∧ find_order (i32 size) = Ok (bg_order g) ∧ smalls' = smalls ∧ bigs' = g :: bigs)).
Proof.
  intros Hh Hck Hs. destruct (decide (size < 4080)); [|destruct (decide (size < 4088))].
  - right. destruct (kmalloc_small ide _ _ _ _ _ _ size Hh Hck) as [(c & n & s' & own' & fr' & E & Hn & Hh' & Hk & _)|[E|[E Hsw]]]; [lia|right|right|by left].
    + exists (8 * (c + 1)), s', own', fr', ((c, n) :: smalls), bigs. split_and!; try done. right. left. by exists c, n.
    + exists 0, s, own, fr, smalls, bigs. split_and!; try done. by left.
  - left. split; [apply kmalloc_panics|]; lia.
  - right. destruct (kmalloc_big ide _ _ _ _ _ _ size Hh Hck) as [(g & s' & own' & fr' & E & Ho & Hh' & Hk & _)|[(s' & own' & fr' & E & Hh' & Hk & _)|[E Hsw]]]; [lia|right|right|by left].
    + exists (8 * unit_of (bg_page g)), s', own', fr', smalls, (g :: bigs). split_and!; try done. right. right. by exists g.
    + exists 0, s', own', fr', smalls, bigs. split_and!; try done. by left.
Qed.


End heap.

(** [find_order] halves the size down to 4096, and drops the low bits: a block of
    whole pages is smaller than the request exactly when the halvings lose bits and end at
    4096.  For 8193 bytes the kernel allocates 8192. *)
Theorem kmalloc_short :
  (∀ size o, 0 ≤ size < 2 ^ 31 → find_order size = Ok o → (PGSIZE * 2 ^ o < size ↔ Z.shiftr size o = 4096 ∧ size mod 2 ^ o ≠ 0)) ∧
  find_order 8193 = Ok 1.
Proof. split; [by intros; apply find_order_short|by vm_compute]. Qed.

(** ** A heap of eight pages *)

Definition demo_arena : Z := KERNBASE / 8 + 10.
Definition demo_heap : slob free_area := slob_init demo_arena (zero_vm (demo_ready 8) 9 0).

Lemma demo_heap_inv : heap_inv demo_arena demo_heap [] (seqZ 1 8) [] [] [].
Proof.
  apply slob_init_inv; [apply demo_ready_mgr| |done|done]. intros p Hp. cbn [pages_of app] in Hp. apply elem_of_seqZ in Hp.
  unfold demo_arena, unit_of. cbn. lia.
Qed.

Definition demo_calls : list heap_call := [HAlloc 100; HAlloc 8193; HAlloc 4000; HFree 1; HAlloc 24; HFree 0; HFree 1; HFree 0].

(** The calls run, and nothing stays allocated. *)
Example demo_heap_runs : ∃ s, heap_run (λ _, false) demo_calls [] demo_heap = Ok ([], s).
Proof. eexists. by vm_compute. Qed.

Lemma kmalloc_outcomes_witness :
  ∃ p s' own' fr' smalls' bigs', kmalloc (λ _, false) 100 demo_heap = Ok (p, s') ∧
    heap_inv demo_arena s' own' fr' [] smalls' bigs' ∧ kept [] [] demo_heap s'.
Proof.
  destruct (kmalloc_outcomes (λ _, false) demo_arena demo_heap [] (seqZ 1 8) [] [] 100 demo_heap_inv eq_refl ltac:(lia))
    as [[_ [H _]]|[[_ H]|(p & s' & own & fr & sm & bg & E & Hh & Hk & _)]]; [lia|done|].
  exists p, s', own, fr, sm, bg. split; [exact E|]. split; [exact Hh|exact Hk].
Defined.

