(* ===== verification/Vfs.v ===== *)
(** * kern/fs/vfs: inodes, devices, path lookup

    The state holds the [struct inode] objects, the list of devices, the boot file
    system's root and the [files_struct] objects of the processes.  The tables of
    functions of inodes and file systems are the class [vfs_impl]; calls go through
    [vop_op], which makes the checks of the [vop_*] macros.  A path is the sequence of
    its characters; [get_device] cuts a path at the colon in place, so the functions
    that take a path also return what is left of it.  The locks of the device list
    and of the boot file system protect sections without a switch of the process and
    are not kept. *)

From S2P Require Import Prelude CString Iobuf.

Abbreviation ptr := Z.

(** ** Data *)

Record inode := mkInode { in_type : Z; ref_count : Z; open_count : Z; in_fs : option ptr; in_ops : ptr }.

Definition inode_type_device_info : Z := 0x1234.
Definition inode_type_sfs_inode_info : Z := 0x1235.

Definition set_ref_count (v : Z) (n : inode) : inode := mkInode (in_type n) v (open_count n) (in_fs n) (in_ops n).
Definition set_open_count (v : Z) (n : inode) : inode := mkInode (in_type n) (ref_count n) v (in_fs n) (in_ops n).

Record vfs_dev_t := mkVdev { devname : list Z; devnode : option ptr; vdev_fs : option ptr; mountable : bool }.

Inductive fd_status := FD_NONE | FD_INIT | FD_OPENED | FD_CLOSED.

#[export] Instance fd_status_eq_dec : EqDecision fd_status.
Proof. solve_decision. Defined.

Record file := mkFile {
  status : fd_status;
  readable : bool;
  writable : bool;
  fd : Z;
  pos : Z;
  node : option ptr;
  fopen_count : Z
}.

Record files_struct := mkFiles { pwd : option ptr; fd_array : list file; files_count : Z }.

Definition set_pwd (p : option ptr) (f : files_struct) : files_struct := mkFiles p (fd_array f) (files_count f).
Definition set_fd_array (l : list file) (f : files_struct) : files_struct := mkFiles (pwd f) l (files_count f).
Definition set_files_count (n : Z) (f : files_struct) : files_struct := mkFiles (pwd f) (fd_array f) n.

(** [struct stat] *)
Record stat := mkStat { st_mode : Z; st_nlinks : Z; st_blocks : Z; st_size : Z }.

Record vstate (F : Type) := mkV {
  inodes : gmap ptr inode;
  vdev_list : list vfs_dev_t;
  bootfs_node : option ptr;
  fss : gmap ptr files_struct;
  filesp : ptr;                (* current->filesp *)
  bytes : mem;                 (* memory that buffers point to *)
  priv : F                     (* the data of devices and file systems *)
}.
Arguments mkV {F}.
Arguments inodes {F}.
Arguments vdev_list {F}.
Arguments bootfs_node {F}.
Arguments fss {F}.
Arguments filesp {F}.
Arguments bytes {F}.
Arguments priv {F}.

Section setters.
Context {F : Type}.
Implicit Types s : vstate F.

Definition set_inodes i s : vstate F := mkV i (vdev_list s) (bootfs_node s) (fss s) (filesp s) (bytes s) (priv s).
Definition set_vdev_list l s : vstate F := mkV (inodes s) l (bootfs_node s) (fss s) (filesp s) (bytes s) (priv s).
Definition set_bootfs_node n s : vstate F := mkV (inodes s) (vdev_list s) n (fss s) (filesp s) (bytes s) (priv s).
Definition set_fss f s : vstate F := mkV (inodes s) (vdev_list s) (bootfs_node s) f (filesp s) (bytes s) (priv s).
Definition set_bytes m s : vstate F := mkV (inodes s) (vdev_list s) (bootfs_node s) (fss s) (filesp s) m (priv s).
Definition set_priv x s : vstate F := mkV (inodes s) (vdev_list s) (bootfs_node s) (fss s) (filesp s) (bytes s) x.

Definition put_inode p n s : vstate F := set_inodes (<[p := n]> (inodes s)) s.
Definition get_inode s p : res inode := deref (inodes s !! p).
Definition put_files q f s : vstate F := set_fss (<[q := f]> (fss s)) s.
Definition get_files s q : res files_struct := deref (fss s !! q).
End setters.

(** ** The tables of functions *)

Definition VOP_MAGIC : Z := 0x8c4ba476.
Definition MAX_INODE_COUNT : Z := 0x10000.

(** [struct inode_ops]; [None] is a null pointer.  [vop_ioctl] is called by nobody. *)
Record inode_ops (W : Type) := mkOps {
  vop_magic : Z;
  vop_open : option (ptr → Z → W → res (Z * W));
  vop_close : option (ptr → W → res (Z * W));
  vop_read : option (ptr → iobuf → W → res (Z * iobuf * W));
  vop_write : option (ptr → iobuf → W → res (Z * iobuf * W));
  vop_fstat : option (ptr → W → res (Z * stat * W));
  vop_fsync : option (ptr → W → res (Z * W));
  vop_namefile : option (ptr → iobuf → W → res (Z * iobuf * W));
  vop_getdirentry : option (ptr → iobuf → W → res (Z * iobuf * W));
  vop_reclaim : option (ptr → W → res (Z * W));
  vop_gettype : option (ptr → W → res (Z * Z * W));
  vop_tryseek : option (ptr → Z → W → res (Z * W));
  vop_truncate : option (ptr → Z → W → res (Z * W));
  vop_create : option (ptr → list Z → bool → W → res (Z * option ptr * W));
  vop_lookup : option (ptr → list Z → W → res (Z * option ptr * W))
}.
Arguments mkOps {W}.
Arguments vop_magic {W}.
Arguments vop_open {W}.
Arguments vop_close {W}.
Arguments vop_read {W}.
Arguments vop_write {W}.
Arguments vop_fstat {W}.
Arguments vop_fsync {W}.
Arguments vop_namefile {W}.
Arguments vop_getdirentry {W}.
Arguments vop_reclaim {W}.
Arguments vop_gettype {W}.
Arguments vop_tryseek {W}.
Arguments vop_truncate {W}.
Arguments vop_create {W}.
Arguments vop_lookup {W}.

(** The function tables behind the pointers [in_ops] and [struct fs *]. *)
Class vfs_impl (F : Type) := {
  ops_at : ptr → option (inode_ops (vstate F));
  fsop_get_root : ptr → vstate F → res (option ptr * vstate F);
  fsop_sync : ptr → vstate F → res (Z * vstate F);
  fsop_unmount : ptr → vstate F → res (Z * vstate F);
  fsop_cleanup : ptr → vstate F → res (vstate F)
}.

Section vfs.
Context {F : Type} `{vfs_impl F}.
Implicit Types s : vstate F.

(** ** inode.c *)

Definition inode_check (n : inode) (o : inode_ops (vstate F)) : bool :=
  (vop_magic o =? VOP_MAGIC) && (open_count n <=? ref_count n) && (0 <=? open_count n) &&
  (ref_count n <? MAX_INODE_COUNT) && (open_count n <? MAX_INODE_COUNT).

(** The macro [__vop_op]. *)
Definition vop_op {T} (f : inode_ops (vstate F) → option T) (p : option ptr) s : res (ptr * T) :=
  match p with
  | None => Panicked
  | Some p =>
      let! n := get_inode s p in
      match ops_at (in_ops n) with
      | None => Panicked
      | Some o => match f o with
                  | None => Panicked
                  | Some g => assert! inode_check n o ;; Ok (p, g)
                  end
      end
  end.

Definition __alloc_inode (new : option ptr) (type : Z) s : option ptr * vstate F :=
  match new with
  | Some p => (Some p, put_inode p (mkInode type 0 0 None 0) s)
  | None => (None, s)
  end.

Definition inode_ref_inc (p : ptr) s : res (Z * vstate F) :=
  let! n := get_inode s p in
  let v := i32 (ref_count n + 1) in Ok (v, put_inode p (set_ref_count v n) s).

Definition inode_init (p : ptr) (ops : ptr) (fs : option ptr) s : res (vstate F) :=
  let! n := get_inode s p in
  let! (_, s) := inode_ref_inc p (put_inode p (mkInode (in_type n) 0 0 fs ops) s) in Ok s.

Definition inode_kill (p : ptr) s : res (vstate F) :=
  let! n := get_inode s p in
  assert! ref_count n =? 0 ;; assert! open_count n =? 0 ;;
  Ok (set_inodes (delete p (inodes s)) s).

Definition inode_ref_dec (p : ptr) s : res (Z * vstate F) :=
  let! n := get_inode s p in
  assert! 0 <? ref_count n ;;
  let v := i32 (ref_count n - 1) in
  let s := put_inode p (set_ref_count v n) s in
  if v =? 0 then
    let! (q, f) := vop_op vop_reclaim (Some p) s in
    let! (_, s) := f q s in Ok (v, s)
  else Ok (v, s).

Definition inode_open_inc (p : ptr) s : res (Z * vstate F) :=
  let! n := get_inode s p in
  let v := i32 (open_count n + 1) in Ok (v, put_inode p (set_open_count v n) s).

Definition inode_open_dec (p : ptr) s : res (Z * vstate F) :=
  let! n := get_inode s p in
  assert! 0 <? open_count n ;;
  let v := i32 (open_count n - 1) in
  let s := put_inode p (set_open_count v n) s in
  if v =? 0 then
    let! (q, f) := vop_op vop_close (Some p) s in
    let! (_, s) := f q s in Ok (v, s)
  else Ok (v, s).

(** A call through a pointer that may be null. *)
Definition on_node {A} (p : option ptr) (f : ptr → res A) : res A := let! p := deref p in f p.

(** ** vfspath.c, first part *)

Definition get_cwd_nolock s : res (option ptr) := let! f := get_files s (filesp s) in Ok (pwd f).

Definition set_cwd_nolock (p : option ptr) s : res (vstate F) :=
  let! f := get_files s (filesp s) in Ok (put_files (filesp s) (set_pwd p f) s).

Definition vfs_get_curdir s : res (Z * option ptr * vstate F) :=
  let! o := get_cwd_nolock s in
  match o with
  | Some p => let! (_, s) := inode_ref_inc p s in Ok (0, Some p, s)
  | None => Ok (- E_NOENT, None, s)
  end.

Definition S_IFMT : Z := 0x7000.
Definition S_IFDIR : Z := 0x2000.
Definition S_ISDIR (mode : Z) : bool := Z.land mode S_IFMT =? S_IFDIR.

Definition vfs_set_curdir (dir : option ptr) s : res (Z * vstate F) :=
  let! old := get_cwd_nolock s in
  if decide (old = dir) then Ok (0, s) else
  let! (ret, s) :=
    match dir with
    | None => Ok (0, s)
    | Some d =>
        let! (q, f) := vop_op vop_gettype dir s in
        let! (ret, type, s) := f q s in
        if decide (ret ≠ 0) then Ok (ret, s)
        else if negb (S_ISDIR type) then Ok (- E_NOTDIR, s)
        else let! (_, s) := inode_ref_inc d s in Ok (0, s)
    end in
  if decide (ret ≠ 0) then Ok (ret, s) else
  let! s := set_cwd_nolock dir s in
  match old with Some o => let! (_, s) := inode_ref_dec o s in Ok (0, s) | None => Ok (0, s) end.

(** ** vfs.c *)

Definition change_bootfs (p : option ptr) s : res (vstate F) :=
  let old := bootfs_node s in
  let s := set_bootfs_node p s in
  match old with Some o => let! (_, s) := inode_ref_dec o s in Ok s | None => Ok s end.

Definition vfs_get_bootfs s : res (Z * option ptr * vstate F) :=
  match bootfs_node s with
  | Some p => let! (_, s) := inode_ref_inc p s in Ok (0, Some p, s)
  | None => Ok (- E_NOENT, None, s)
  end.

(** ** vfsdev.c *)

Definition vfs_devlist_init s : vstate F := set_vdev_list [] s.

Fixpoint cleanup_loop (l : list vfs_dev_t) s : res (vstate F) :=
  match l with
  | [] => Ok s
  | v :: l => let! s := match vdev_fs v with Some fs => fsop_cleanup fs s | None => Ok s end in cleanup_loop l s
  end.

Definition vfs_cleanup s : res (vstate F) := cleanup_loop (vdev_list s) s.

(** The loops over the device list; [strcmp] of two names is 0 if they are equal. *)
Definition find_dev (P : vfs_dev_t → bool) s : option vfs_dev_t := List.find P (vdev_list s).

Definition vfs_get_root (name : list Z) s : res (Z * option ptr * vstate F) :=
  match find_dev (λ v, bool_decide (devname v = name)) s with
  | None => Ok (- E_NO_DEV, None, s)
  | Some v =>
      let! (found, s) :=
        match vdev_fs v with
        | Some fs => fsop_get_root fs s
        | None =>
            if negb (mountable v) then
              on_node (devnode v) (λ p, let! (_, s) := inode_ref_inc p s in Ok (Some p, s))
            else Ok (None, s)
        end in
      Ok (if found then 0 else - E_NA_DEV, found, s)
  end.

Definition vfs_get_devname (fs : ptr) s : option (list Z) :=
  devname <$> find_dev (λ v, bool_decide (vdev_fs v = Some fs)) s.

Definition check_devname_conflict (name : list Z) s : bool :=
  match find_dev (λ v, bool_decide (devname v = name)) s with Some _ => false | None => true end.

Definition FS_MAX_DNAME_LEN : Z := 31.

(** [mem_ok] tells whether [strdup] and [kmalloc] get their memory. *)
Definition vfs_do_add (mem_ok : bool) (name : list Z) (dnode fs : option ptr) (mnt : bool) s : res (Z * vstate F) :=
  let! is_dev := match dnode with
                 | Some p => let! n := get_inode s p in Ok (in_type n =? inode_type_device_info)
                 | None => Ok (negb mnt)
                 end in
  assert! is_dev ;;
  if FS_MAX_DNAME_LEN <? Z.of_nat (length name) then Ok (- E_TOO_BIG, s)
  else if negb mem_ok then Ok (- E_NO_MEM, s)
  else if negb (check_devname_conflict name s) then Ok (- E_EXISTS, s)
  else Ok (0, set_vdev_list (mkVdev name dnode fs mnt :: vdev_list s) s).

Definition vfs_add_fs (mem_ok : bool) (name : list Z) (fs : option ptr) s : res (Z * vstate F) :=
  vfs_do_add mem_ok name None fs false s.
Definition vfs_add_dev (mem_ok : bool) (name : list Z) (p : option ptr) (mnt : bool) s : res (Z * vstate F) :=
  vfs_do_add mem_ok name p None mnt s.

Definition find_mount (name : list Z) s : option vfs_dev_t :=
  find_dev (λ v, mountable v && bool_decide (devname v = name)) s.

(** Assignment to [vdev->fs] of the (only) entry with the name. *)
Fixpoint set_vdev_fs (name : list Z) (fs : option ptr) (l : list vfs_dev_t) : list vfs_dev_t :=
  match l with
  | [] => []
  | v :: l => if bool_decide (devname v = name) then mkVdev name (devnode v) fs (mountable v) :: l
              else v :: set_vdev_fs name fs l
  end.

Definition vfs_mount (name : list Z) (mountfunc : ptr → vstate F → res (Z * option ptr * vstate F)) s : res (Z * vstate F) :=
  match find_mount name s with
  | None => Ok (- E_NO_DEV, s)
  | Some v =>
      match vdev_fs v with
      | Some _ => Ok (- E_BUSY, s)
      | None =>
          match devnode v with
          | None => Panicked
          | Some d =>
              let! n := get_inode s d in
              assert! in_type n =? inode_type_device_info ;;
              let! (ret, fs, s) := mountfunc d s in
              if decide (ret ≠ 0) then Ok (ret, s)
              else assert! bool_decide (fs ≠ None) ;; Ok (0, set_vdev_list (set_vdev_fs name fs (vdev_list s)) s)
          end
      end
  end.

Definition vfs_unmount (name : list Z) s : res (Z * vstate F) :=
  match find_mount name s with
  | None => Ok (- E_NO_DEV, s)
  | Some v =>
      match vdev_fs v with
      | None => Ok (- E_INVAL, s)
      | Some fs =>
          let! (ret, s) := fsop_sync fs s in
          if decide (ret ≠ 0) then Ok (ret, s) else
          let! (ret, s) := fsop_unmount fs s in
          if decide (ret ≠ 0) then Ok (ret, s) else Ok (0, set_vdev_list (set_vdev_fs name None (vdev_list s)) s)
      end
  end.

Fixpoint unmount_loop (l : list vfs_dev_t) s : res (vstate F) :=
  match l with
  | [] => Ok s
  | v :: l =>
      match mountable v, vdev_fs v with
      | true, Some fs =>
          let! (ret, s) := fsop_sync fs s in
          if decide (ret ≠ 0) then unmount_loop l s else
          let! (ret, s) := fsop_unmount fs s in
          if decide (ret ≠ 0) then unmount_loop l s
          else unmount_loop l (set_vdev_list (set_vdev_fs (devname v) None (vdev_list s)) s)
      | _, _ => unmount_loop l s
      end
  end.

Definition vfs_unmount_all s : res (Z * vstate F) := let! s := unmount_loop (vdev_list s) s in Ok (0, s).

(** ** vfslookup.c *)

Definition COLON : Z := 58.
Definition SLASH : Z := 47.

(** The loop of [get_device]: the positions [colon] and [slash]. *)
Fixpoint scan_device (i : Z) (path : list Z) : Z * Z :=
  match path with
  | [] => (-1, -1)
  | c :: path => if c =? COLON then (i, -1) else if c =? SLASH then (-1, i) else scan_device (i + 1) path
  end.

Fixpoint skip_slashes (path : list Z) : list Z :=
  match path with
  | c :: l => if c =? SLASH then skip_slashes l else path
  | [] => []
  end.

(** Return value, the path as it is left, [*subpath], [*node_store]. *)
Definition get_device (path : list Z) s : res (Z * list Z * list Z * option ptr * vstate F) :=
  let '(colon, slash) := scan_device 0 path in
  if (colon <? 0) && negb (slash =? 0) then
    let! (ret, n, s) := vfs_get_curdir s in Ok (ret, path, path, n, s)
  else if 0 <? colon then
    let dev := take (Z.to_nat colon) path in
    let sub := skip_slashes (drop (Z.to_nat colon + 1) path) in
    let! (ret, n, s) := vfs_get_root dev s in Ok (ret, dev, sub, n, s)
  else
    let sub := skip_slashes (tail path) in
    if bool_decide (head path = Some SLASH) then
      let! (ret, n, s) := vfs_get_bootfs s in Ok (ret, path, sub, n, s)
    else
      assert! bool_decide (head path = Some COLON) ;;
      let! (ret, n, s) := vfs_get_curdir s in
      if decide (ret ≠ 0) then Ok (ret, path, sub, None, s) else
      let! p := deref n in
      let! nd := get_inode s p in
      match in_fs nd with
      | None => Panicked
      | Some fs =>
          let! (root, s) := fsop_get_root fs s in
          let! (_, s) := inode_ref_dec p s in Ok (0, path, sub, root, s)
      end.

Definition vfs_lookup (path : list Z) s : res (Z * list Z * option ptr * vstate F) :=
  let! (ret, path, sub, n, s) := get_device path s in
  if decide (ret ≠ 0) then Ok (ret, path, None, s)
  else if bool_decide (sub = []) then Ok (0, path, n, s)
  else
    let! (q, f) := vop_op vop_lookup n s in
    let! (ret, m, s) := f q sub s in
    let! (_, s) := inode_ref_dec q s in Ok (ret, path, m, s).

Definition vfs_lookup_parent (path : list Z) s : res (Z * option ptr * list Z * vstate F) :=
  let! (ret, _, sub, n, s) := get_device path s in
  if decide (ret ≠ 0) then Ok (ret, None, [], s) else Ok (0, n, sub, s).

(** ** vfspath.c, second part *)

Definition vfs_chdir (path : list Z) s : res (Z * vstate F) :=
  let! (ret, _, n, s) := vfs_lookup path s in
  if decide (ret ≠ 0) then Ok (ret, s) else
  let! (ret, s) := vfs_set_curdir n s in
  on_node n (λ p, let! (_, s) := inode_ref_dec p s in Ok (ret, s)).

(** [fsname] is [None] or a name that must end with its only colon. *)
Definition vfs_set_bootfs (fsname : option (list Z)) s : res (Z * vstate F) :=
  match fsname with
  | None => let! s := change_bootfs None s in Ok (0, s)
  | Some name =>
      match List.find (λ i, bool_decide (name !! i = Some COLON)) (seq 0 (length name)) with
      | None => Ok (- E_INVAL, s)
      | Some i =>
          if decide (S i ≠ length name) then Ok (- E_INVAL, s) else
          let! (ret, s) := vfs_chdir name s in
          if decide (ret ≠ 0) then Ok (ret, s) else
          let! (ret, n, s) := vfs_get_curdir s in
          if decide (ret ≠ 0) then Ok (ret, s) else
          let! s := change_bootfs n s in Ok (0, s)
      end
  end.

(** ** vfsfile.c *)

Definition O_RDONLY : Z := 0.
Definition O_WRONLY : Z := 1.
Definition O_RDWR : Z := 2.
Definition O_CREAT : Z := 0x4.
Definition O_EXCL : Z := 0x8.
Definition O_TRUNC : Z := 0x10.
Definition O_APPEND : Z := 0x20.
Definition O_ACCMODE : Z := 3.

Definition has_bit (flags f : Z) : bool := negb (Z.land flags f =? 0).

(** [vfs_open] from the point where the node is known. *)
Definition open_node (n : option ptr) (flags : Z) s : res (Z * option ptr * vstate F) :=
  assert! bool_decide (n ≠ None) ;;
  let! (q, f) := vop_op vop_open n s in
  let! (ret, s) := f q flags s in
  if decide (ret ≠ 0) then let! (_, s) := inode_ref_dec q s in Ok (ret, None, s) else
  let! (_, s) := inode_open_inc q s in
  if has_bit flags O_TRUNC || has_bit flags O_CREAT then
    let! (q, f) := vop_op vop_truncate n s in
    let! (ret, s) := f q 0 s in
    if decide (ret ≠ 0) then
      let! (_, s) := inode_open_dec q s in
      let! (_, s) := inode_ref_dec q s in Ok (ret, None, s)
    else Ok (0, n, s)
  else Ok (0, n, s).

(** The result of [vop_create] is overwritten without a test; when it fails, [node]
    keeps the indeterminate value [junk] that it had before. *)
Definition vfs_open (junk : option ptr) (path : list Z) (flags : Z) s : res (Z * option ptr * vstate F) :=
  let acc := Z.land flags O_ACCMODE in
  if O_RDWR <? acc then Ok (- E_INVAL, None, s)
  else if has_bit flags O_TRUNC && (acc =? O_RDONLY) then Ok (- E_INVAL, None, s)
  else
    let excl := has_bit flags O_EXCL in
    let create := has_bit flags O_CREAT in
    let! (ret, path, n, s) := vfs_lookup path s in
    if decide (ret ≠ 0) then
      if (ret =? -16) && create then
        let! (ret, dir, name, s) := vfs_lookup_parent path s in
        if decide (ret ≠ 0) then Ok (ret, None, s) else
        let! (q, f) := vop_op vop_create dir s in
        let! (ret, n, s) := f q name excl s in
        open_node (if ret =? 0 then n else junk) flags s
      else Ok (ret, None, s)
    else if excl && create then Ok (- E_EXISTS, None, s)
    else open_node n flags s.

Definition vfs_close (p : ptr) s : res (Z * vstate F) :=
  let! (_, s) := inode_open_dec p s in
  let! (_, s) := inode_ref_dec p s in Ok (0, s).

(** [vfs_getcwd]: the device name, a colon, and what the file system prints; [str] is
    the address of the device name with the colon behind it in [bytes]. *)
Definition vfs_getcwd (str : ptr) (iob : iobuf) s : res (Z * iobuf * vstate F) :=
  let! (ret, n, s) := vfs_get_curdir s in
  if decide (ret ≠ 0) then Ok (ret, iob, s) else
  let! p := deref n in
  let! nd := get_inode s p in
  match in_fs nd with
  | None => Panicked
  | Some fs =>
      let! name := deref (vfs_get_devname fs s) in
      let len := Z.of_nat (length name) in
      let! (ret, _, iob, m) := iobuf_move (bytes s) iob str len true in
      let s := set_bytes m s in
      let! (ret, iob, s) :=
        if decide (ret ≠ 0) then Ok (ret, iob, s) else
        let! (ret, _, iob, m) := iobuf_move (bytes s) iob (str + len) 1 true in
        let s := set_bytes m s in
        if decide (ret ≠ 0) then Ok (ret, iob, s) else
        let! (q, f) := vop_op vop_namefile n s in f q iob s in
      let! (_, s) := inode_ref_dec p s in Ok (ret, iob, s)
  end.
End vfs.
