(* ===== verification/FileInv.v ===== *)
(** * Reference counts and file tables

    [moved d e s s']: the run from [s] to [s'] leaves the file tables alone and
    changes the reference counts by [d] and the open counts by [e].  The counts are
    32-bit numbers that wrap, so they are compared modulo [2 ^ 32].  [vfs_laws] is
    what the operations of a file system or a device promise: they come to an end,
    they do not touch the tables of open files, and they leave behind the references
    that they return and no other. *)

From S2P Require Import Prelude CString Iobuf Vfs File.

(** ** Counting modulo [2 ^ 32] *)

Definition eq32 (a b : Z) : Prop := ∃ k, a = b + k * 2 ^ 32.

Lemma eq32_eq a b : a = b → eq32 a b.
Proof. intros ->. exists 0. lia. Qed.

Lemma eq32_i32 a : eq32 (i32 a) a.
Proof.
  exists (- ((a + 2 ^ 31) / 2 ^ 32)). unfold i32. pose proof (Z.div_mod (a + 2 ^ 31) (2 ^ 32) ltac:(lia)). lia.
Qed.

Lemma eq32_trans a b c x y : eq32 a (b + x) → eq32 b (c + y) → eq32 a (c + (y + x)).
Proof. intros [k ->] [l ->]. exists (k + l). lia. Qed.

Lemma eq32_bounded a b : eq32 a b → is_i32 a → is_i32 b → a = b.
Proof. unfold is_i32. intros [k ->]. lia. Qed.

(** 1 if the pointer designates [p]. *)
Definition one (o : option ptr) (p : ptr) : Z := b2z (bool_decide (o = Some p)).

Lemma one_none p : one None p = 0.
Proof. done. Qed.

Definition nil (p : ptr) : Z := 0.

Section accounting.
Context {F : Type} `{vfs_impl F}.
Implicit Types s : vstate F.

Definition rc s (p : ptr) : Z := from_option ref_count 0 (inodes s !! p).
Definition oc s (p : ptr) : Z := from_option open_count 0 (inodes s !! p).

Definition same s s' : Prop := fss s' = fss s ∧ filesp s' = filesp s.

Definition counted (d e : ptr → Z) s s' : Prop :=
  ∀ p, eq32 (rc s' p) (rc s p + d p) ∧ eq32 (oc s' p) (oc s p + e p).

Definition moved (d e : ptr → Z) s s' : Prop := same s s' ∧ counted d e s s'.

Lemma same_trans s1 s2 s3 : same s1 s2 → same s2 s3 → same s1 s3.
Proof. unfold same. intros [-> ->] [-> ->]. done. Qed.

Lemma counted_trans d1 e1 d2 e2 d e s1 s2 s3 :
  counted d1 e1 s1 s2 → counted d2 e2 s2 s3 →
  (∀ p, d p = d1 p + d2 p ∧ e p = e1 p + e2 p) → counted d e s1 s3.
Proof.
  intros C1 C2 He p. destruct (C1 p), (C2 p), (He p) as [-> ->].
  split; eapply eq32_trans; eassumption.
Qed.

Lemma moved_trans d1 e1 d2 e2 d e s1 s2 s3 :
  moved d1 e1 s1 s2 → moved d2 e2 s2 s3 →
  (∀ p, d p = d1 p + d2 p ∧ e p = e1 p + e2 p) → moved d e s1 s3.
Proof. intros [] [] ?. split; [by eapply same_trans|by eapply counted_trans]. Qed.

Lemma counted_refl s s' : inodes s' = inodes s → counted nil nil s s'.
Proof. intros Hi p. unfold rc, oc. rewrite Hi. split; apply eq32_eq; unfold nil; lia. Qed.

Lemma moved_refl s : moved nil nil s s.
Proof. split; [done|by apply counted_refl]. Qed.

Lemma moved_ext d e d' e' s s' :
  moved d e s s' → (∀ p, d' p = d p ∧ e' p = e p) → moved d' e' s s'.
Proof.
  intros [? C] He. split; [done|]. intros p. destruct (He p) as [-> ->]. apply C.
Qed.

(** Steps that leave inodes and file tables alone. *)
Definition quiet s s' : Prop := inodes s' = inodes s ∧ fss s' = fss s ∧ filesp s' = filesp s.

Lemma quiet_refl s : quiet s s.
Proof. done. Qed.

Lemma quiet_moved s s' : quiet s s' → moved nil nil s s'.
Proof. intros (? & ? & ?). split; [done|by apply counted_refl]. Qed.

Lemma quiet_law {A} s (m : res (A * vstate F)) : yields (λ r, quiet s r.2) m → yields (λ r, moved nil nil s r.2) m.
Proof. intros Hm. eapply yields_weaken; [exact Hm|]. intros r. apply quiet_moved. Qed.

Lemma quiet_trans s1 s2 s3 : quiet s1 s2 → quiet s2 s3 → quiet s1 s3.
Proof. unfold quiet. intros (-> & -> & ->). done. Qed.

(** [vop_op] finds a function or panics, whatever the table. *)
Lemma vop_op_found {T} (sel : inode_ops (vstate F) → option T) p s :
  yields (λ '(q, f), p = Some q ∧ ∃ a o, ops_at a = Some o ∧ sel o = Some f) (vop_op sel p s).
Proof.
  unfold vop_op. destruct p as [p|]; [|done]. apply yields_any; [unfold get_inode; apply deref_fuel|]. intros n.
  destruct (ops_at _) as [o|] eqn:Ho; [|done]. destruct (sel o) as [g|] eqn:Hg; [|done].
  destruct (inode_check n o); [|done]. cbn. eauto.
Qed.

(** ** The promise of the function tables *)

Record ops_laws (o : inode_ops (vstate F)) : Prop := {
  law_open f p fl s : vop_open o = Some f → yields (λ r, moved nil nil s r.2) (f p fl s);
  law_close f p s : vop_close o = Some f → yields (λ r, moved nil nil s r.2) (f p s);
  law_read f p iob s : vop_read o = Some f → is_u32 (io_resid iob) → yields (λ r, moved nil nil s r.2) (f p iob s);
  law_write f p iob s : vop_write o = Some f → is_u32 (io_resid iob) → yields (λ r, moved nil nil s r.2) (f p iob s);
  law_fstat f p s : vop_fstat o = Some f → yields (λ r, moved nil nil s r.2) (f p s);
  law_fsync f p s : vop_fsync o = Some f → yields (λ r, moved nil nil s r.2) (f p s);
  law_namefile f p iob s : vop_namefile o = Some f → is_u32 (io_resid iob) → yields (λ r, moved nil nil s r.2) (f p iob s);
  law_getdirentry f p iob s : vop_getdirentry o = Some f → is_u32 (io_resid iob) → yields (λ r, moved nil nil s r.2) (f p iob s);
  law_reclaim f p s : vop_reclaim o = Some f → yields (λ r, moved nil nil s r.2) (f p s);
  law_gettype f p s : vop_gettype o = Some f → yields (λ r, moved nil nil s r.2) (f p s);
  law_tryseek f p i s : vop_tryseek o = Some f → yields (λ r, moved nil nil s r.2) (f p i s);
  law_truncate f p i s : vop_truncate o = Some f → yields (λ r, moved nil nil s r.2) (f p i s);
  law_create f p name ex s : vop_create o = Some f → yields (λ r, same s r.2) (f p name ex s);
  law_lookup f p path s : vop_lookup o = Some f →
    yields (λ '(ret, n, s'), moved (if decide (ret = 0) then one n else nil) nil s s') (f p path s)
}.

Class vfs_laws : Prop := {
  ops_at_laws a o : ops_at a = Some o → ops_laws o;
  get_root_law a s : yields (λ '(n, s'), moved (one n) nil s s') (fsop_get_root a s)
}.

Context `{!vfs_laws}.

Lemma vop_op_spec {T} (sel : inode_ops (vstate F) → option T) p s :
  yields (λ '(q, f), p = Some q ∧ ∃ o, ops_laws o ∧ sel o = Some f) (vop_op sel p s).
Proof.
  unfold vop_op. destruct p as [p|]; [|done]. apply (yields_bind (λ _, True)); [by destruct (get_inode s p) eqn:?; unfold get_inode in *; destruct (inodes s !! p)|].
  intros n _. destruct (ops_at (in_ops n)) as [o|] eqn:Ho; [|done]. destruct (sel o) as [g|] eqn:Hg; [|done].
  destruct (inode_check n o); [|done]. cbn. split; [done|]. exists o. split; [by eapply ops_at_laws|done].
Qed.

Lemma get_inode_spec p s : yields (λ n, inodes s !! p = Some n) (get_inode s p).
Proof. apply yields_deref. auto. Qed.

(** ** Primitive steps *)

Lemma put_inode_moved s p n n' d e :
  inodes s !! p = Some n → eq32 (ref_count n') (ref_count n + d) → eq32 (open_count n') (open_count n + e) →
  moved (λ q, d * one (Some p) q) (λ q, e * one (Some p) q) s (put_inode p n' s).
Proof.
  intros Hp Hd He. split; [done|]. intros q. unfold rc, oc, put_inode, set_inodes, one. cbn.
  destruct (decide (p = q)) as [<-|Hne].
  - rewrite lookup_insert_eq, Hp, bool_decide_eq_true_2 by done. cbn. by rewrite !Z.mul_1_r.
  - rewrite lookup_insert_ne, bool_decide_eq_false_2 by congruence. cbn. split; apply eq32_eq; lia.
Qed.

Ltac nil_tac := intros ?; unfold nil; split; lia.

Lemma inode_ref_inc_spec p s : yields (λ r, moved (one (Some p)) nil s r.2) (inode_ref_inc p s).
Proof.
  unfold inode_ref_inc. eapply yields_bind; [apply get_inode_spec|]. intros n Hn. cbn.
  eapply moved_ext; [apply (put_inode_moved _ _ n _ 1 0); [done|apply eq32_i32|apply eq32_eq; cbn; lia]|].
  intros q. unfold nil. lia.
Qed.

Lemma inode_open_inc_spec p s : yields (λ r, moved nil (one (Some p)) s r.2) (inode_open_inc p s).
Proof.
  unfold inode_open_inc. eapply yields_bind; [apply get_inode_spec|]. intros n Hn. cbn.
  eapply moved_ext; [apply (put_inode_moved _ _ n _ 0 1); [done|apply eq32_eq; cbn; lia|apply eq32_i32]|].
  intros q. unfold nil. lia.
Qed.

Lemma inode_ref_dec_spec p s : yields (λ r, moved (λ q, - one (Some p) q) nil s r.2) (inode_ref_dec p s).
Proof.
  unfold inode_ref_dec. eapply yields_bind; [apply get_inode_spec|]. intros n Hn. cbn beta.
  destruct (0 <? ref_count n); [|done]. cbv zeta.
  assert (moved (λ q, - one (Some p) q) nil s (put_inode p (set_ref_count (i32 (ref_count n - 1)) n) s)) as Hm.
  { eapply moved_ext; [apply (put_inode_moved _ _ n _ (-1) 0); [done|apply eq32_i32|apply eq32_eq; cbn; lia]|].
    intros q. unfold nil. lia. }
  destruct (_ =? 0); [|done]. eapply yields_bind; [apply vop_op_spec|].
  intros [q f] (_ & o & Ho & Hf). eapply yields_bind; [by apply (law_reclaim o Ho)|].
  intros [ret s'] Hs'. cbn in *. eapply moved_trans; [exact Hm|exact Hs'|nil_tac].
Qed.

Lemma inode_open_dec_spec p s : yields (λ r, moved nil (λ q, - one (Some p) q) s r.2) (inode_open_dec p s).
Proof.
  unfold inode_open_dec. eapply yields_bind; [apply get_inode_spec|]. intros n Hn. cbn beta.
  destruct (0 <? open_count n); [|done]. cbv zeta.
  assert (moved nil (λ q, - one (Some p) q) s (put_inode p (set_open_count (i32 (open_count n - 1)) n) s)) as Hm.
  { eapply moved_ext; [apply (put_inode_moved _ _ n _ 0 (-1)); [done|apply eq32_eq; cbn; lia|apply eq32_i32]|].
    intros q. unfold nil. lia. }
  destruct (_ =? 0); [|done]. eapply yields_bind; [apply vop_op_spec|].
  intros [q f] (_ & o & Ho & Hf). eapply yields_bind; [by apply (law_close o Ho)|].
  intros [ret s'] Hs'. cbn in *. eapply moved_trans; [exact Hm|exact Hs'|nil_tac].
Qed.

Lemma vfs_close_spec p s :
  yields (λ r, moved (λ q, - one (Some p) q) (λ q, - one (Some p) q) s r.2) (vfs_close p s).
Proof.
  unfold vfs_close. eapply yields_bind; [apply inode_open_dec_spec|]. intros [r s1] M1.
  eapply yields_bind; [apply inode_ref_dec_spec|]. intros [r2 s2] M2. cbn in *.
  eapply moved_trans; [exact M1|exact M2|nil_tac].
Qed.

(** ** Path lookup *)

Lemma vfs_get_curdir_spec s : yields (λ '(ret, n, s'), moved (one n) nil s s' ∧ (ret = 0 ∨ n = None)) (vfs_get_curdir s).
Proof.
  unfold vfs_get_curdir, get_cwd_nolock. eapply (yields_bind (λ _, True)).
  { eapply yields_bind; [by apply (yields_deref (λ _, True))|]. by intros. }
  intros [p|] _; [|cbn; split; [apply moved_refl|by right]].
  eapply yields_bind; [apply inode_ref_inc_spec|]. intros [r s1] M1. cbn in *. auto.
Qed.

Lemma vfs_get_bootfs_spec s : yields (λ '(ret, n, s'), moved (one n) nil s s' ∧ (ret = 0 ∨ n = None)) (vfs_get_bootfs s).
Proof.
  unfold vfs_get_bootfs. destruct (bootfs_node s) as [p|]; [|cbn; split; [apply moved_refl|by right]].
  eapply yields_bind; [apply inode_ref_inc_spec|]. intros [r s1] M1. cbn in *. auto.
Qed.

Lemma vfs_get_root_spec name s : yields (λ '(ret, n, s'), moved (one n) nil s s' ∧ (ret = 0 ∨ n = None)) (vfs_get_root name s).
Proof.
  unfold vfs_get_root. destruct (find_dev _ s) as [v|]; [|cbn; split; [apply moved_refl|by right]].
  apply (yields_bind (λ '(n, s'), moved (one n) nil s s')); [|intros [[n|] s'] ?; cbn; auto].
  destruct (vdev_fs v) as [fs|]; [apply get_root_law|].
  destruct (mountable v); cbn [negb]; [apply moved_refl|].
  unfold on_node. destruct (devnode v) as [p|]; [cbn [deref bind]|done].
  eapply yields_bind; [apply inode_ref_inc_spec|]. intros [r s1] M1. done.
Qed.

Lemma get_device_spec path s :
  yields (λ '(ret, _, _, n, s'), moved (one n) nil s s' ∧ (ret = 0 ∨ n = None)) (get_device path s).
Proof.
  unfold get_device. destruct (scan_device 0 path) as [colon slash].
  destruct ((colon <? 0) && negb (slash =? 0)).
  { eapply yields_bind; [apply vfs_get_curdir_spec|]. by intros [[ret n] s'] ?. }
  destruct (0 <? colon).
  { eapply yields_bind; [apply vfs_get_root_spec|]. by intros [[ret n] s'] ?. }
  cbv zeta. destruct (bool_decide (head path = Some SLASH)).
  { eapply yields_bind; [apply vfs_get_bootfs_spec|]. by intros [[ret n] s'] ?. }
  destruct (bool_decide (head path = Some COLON)); [|done].
  eapply yields_bind; [apply vfs_get_curdir_spec|]. intros [[ret n] s1] [M1 Hr].
  destruct (decide (ret ≠ 0)) as [Hne|_].
  { destruct Hr as [Hz| ->]; [by destruct Hne|]. cbn. auto. }
  eapply yields_bind; [apply (yields_deref (λ p, n = Some p)); auto|]. intros p ->.
  eapply (yields_bind (λ _, True)); [by apply (yields_deref (λ _, True))|]. intros nd _.
  destruct (in_fs nd) as [fs|]; [|done].
  eapply yields_bind; [apply get_root_law|]. intros [root s2] M2.
  eapply yields_bind; [apply inode_ref_dec_spec|]. intros [r s3] M3. cbn in *. split; [|by left].
  eapply moved_trans; [exact M1| |].
  - eapply moved_trans; [exact M2|exact M3|]. intros q. split; reflexivity.
  - cbn. intros q. unfold nil. lia.
Qed.

Lemma vfs_lookup_spec path s :
  yields (λ '(ret, _, n, s'), moved (if decide (ret = 0) then one n else nil) nil s s') (vfs_lookup path s).
Proof.
  unfold vfs_lookup. eapply yields_bind; [apply get_device_spec|]. intros [[[[ret p'] sub] n] s1] [M1 Hr].
  destruct (decide (ret ≠ 0)) as [Hne|Hz].
  { cbn. rewrite decide_False by done. destruct Hr as [Hz| ->]; [by destruct Hne|]. exact M1. }
  destruct (bool_decide (sub = [])); [exact M1|].
  eapply yields_bind; [apply vop_op_spec|]. intros [q f] (-> & o & Ho & Hf).
  eapply yields_bind; [by apply (law_lookup o Ho)|]. intros [[ret2 n2] s2] M2.
  eapply yields_bind; [apply inode_ref_dec_spec|]. intros [r s3] M3. cbn in *.
  eapply moved_trans; [exact M1|eapply moved_trans; [exact M2|exact M3|by intros]|].
  cbn. intros x. unfold nil. lia.
Qed.

(** ** The working directory *)

(** A transfer between the memory and the buffer of a request. *)
Lemma iobuf_move_ends m iob data len m2b :
  is_u32 (io_resid iob) → yields (λ '(_, _, iob', _), is_u32 (io_resid iob')) (iobuf_move m iob data len m2b).
Proof.
  intros Hu. unfold iobuf_move. cbv zeta. apply (yields_bind (λ '(iob', _, _), is_u32 (io_resid iob'))); [|by intros [[iob' m'] l]].
  destruct (0 <? _); [|done]. destruct m2b; (apply yields_any; [apply memmove_fuel|]; intros [x m']; unfold iobuf_skip;
    destruct (_ <=? _); [cbn; apply u32_range|done]).
Qed.

Lemma vfs_getcwd_spec str iob s : is_u32 (io_resid iob) → yields (λ r, moved nil nil s r.2) (vfs_getcwd str iob s).
Proof.
  intros Hu. unfold vfs_getcwd. eapply yields_bind; [apply vfs_get_curdir_spec|]. intros [[ret n] s1] [M1 Hn].
  destruct (decide (ret ≠ 0)) as [Hr|Hr].
  { destruct Hn as [|Hn]; [done|]. rewrite Hn in M1. cbn. eapply moved_ext; [exact M1|]. intros p. by rewrite one_none. }
  eapply yields_bind; [apply (yields_deref (λ p, n = Some p)); auto|]. intros p ->.
  eapply yields_bind; [apply get_inode_spec|]. intros nd _. destruct (in_fs nd) as [fs|]; [|done].
  apply yields_any; [apply deref_fuel|]. intros name. cbv zeta.
  eapply yields_bind; [by apply iobuf_move_ends|]. intros [[[ret2 c] iob2] m2] Hu2. set (s2 := set_bytes m2 s1).
  assert (moved (one (Some p)) nil s s2) as M2 by (eapply moved_ext; [exact M1|done]).
  apply (yields_bind (λ r, moved (one (Some p)) nil s r.2)).
  - destruct (decide (ret2 ≠ 0)); [exact M2|]. eapply yields_bind; [by apply iobuf_move_ends|]. intros [[[ret3 c3] iob3] m3] Hu3.
    set (s3 := set_bytes m3 s2). assert (moved (one (Some p)) nil s s3) as M3 by (eapply moved_ext; [exact M2|done]).
    destruct (decide (ret3 ≠ 0)); [exact M3|]. eapply yields_bind; [apply vop_op_spec|]. intros [q f] (Hq & o & Ho & Hf). injection Hq as <-.
    eapply yields_weaken; [by apply (law_namefile o Ho)|]. intros r M. eapply moved_trans; [exact M3|exact M|]. intros x. unfold nil. lia.
  - intros [[ret4 iob4] s4] M4. eapply yields_bind; [apply inode_ref_dec_spec|]. intros [r s5] M5. cbn in *.
    eapply moved_trans; [exact M4|exact M5|]. intros x. unfold nil. lia.
Qed.

(** ** Opening a node *)

Lemma open_node_spec n fl s :
  yields (λ '(ret, m, s'), (ret = 0 → m = n ∧ n ≠ None) ∧
    moved (if decide (ret = 0) then nil else λ q, - one n q) (if decide (ret = 0) then one n else nil) s s')
    (open_node n fl s).
Proof.
  unfold open_node. destruct n as [p|]; [cbn [bool_decide]|done].
  rewrite bool_decide_eq_true_2 by done.
  eapply yields_bind; [apply vop_op_spec|]. intros [q f] (Hq & o & Ho & Hf). injection Hq as <-.
  eapply yields_bind; [by apply (law_open o Ho)|]. intros [ret s1] M1.
  destruct (decide (ret ≠ 0)) as [Hne|_].
  { eapply yields_bind; [apply inode_ref_dec_spec|]. intros [r s2] M2. cbn. rewrite !decide_False by done.
    split; [done|]. eapply moved_trans; [exact M1|exact M2|nil_tac]. }
  eapply yields_bind; [apply inode_open_inc_spec|]. intros [r s2] M2. cbn in M1, M2.
  assert (moved nil (one (Some p)) s s2) as M12 by (eapply moved_trans; [exact M1|exact M2|nil_tac]).
  destruct (has_bit fl O_TRUNC || has_bit fl O_CREAT); [|cbn; split; [done|exact M12]].
  eapply yields_bind; [apply vop_op_spec|]. intros [q f'] (Hq & o' & Ho' & Hf'). injection Hq as <-.
  eapply yields_bind; [by apply (law_truncate o' Ho')|]. intros [ret3 s3] M3. cbn in M3.
  destruct (decide (ret3 ≠ 0)) as [Hne|_].
  - eapply yields_bind; [apply inode_open_dec_spec|]. intros [? s4] M4.
    eapply yields_bind; [apply inode_ref_dec_spec|]. intros [? s5] M5. cbn. rewrite !decide_False by done.
    split; [done|]. cbn in *.
    eapply moved_trans; [exact M12|eapply moved_trans; [exact M3|eapply moved_trans; [exact M4|exact M5|by intros]|by intros]|].
    nil_tac.
  - cbn [yields]. rewrite !decide_True by done. split; [done|]. eapply moved_trans; [exact M12|exact M3|nil_tac].
Qed.

(** The part of the promise that holds for every set of flags, and the account that
    holds without [O_CREAT]. *)
Lemma vfs_open_spec junk path fl s :
  yields (λ '(ret, n, s'), same s s' ∧ (ret = 0 → n ≠ None) ∧
    (has_bit fl O_CREAT = false →
     counted (if decide (ret = 0) then one n else nil) (if decide (ret = 0) then one n else nil) s s'))
    (vfs_open junk path fl s).
Proof.
  unfold vfs_open. cbv zeta.
  destruct (O_RDWR <? _); [cbn; split_and!; [done|done|intros; by apply counted_refl]|].
  destruct (has_bit fl O_TRUNC && _); [cbn; split_and!; [done|done|intros; by apply counted_refl]|].
  eapply yields_bind; [apply vfs_lookup_spec|]. intros [[[ret path'] n] s1] M1.
  destruct (decide (ret ≠ 0)) as [Hne|Hz].
  - rewrite decide_False in M1 by done.
    destruct (ret =? -16); [destruct (has_bit fl O_CREAT) eqn:Hc|]; cbn [andb];
      [|cbn; rewrite decide_False by done; by destruct M1..].
    unfold vfs_lookup_parent. eapply (yields_bind (λ '(ret, _, _, s'), same s1 s')).
    { eapply yields_bind; [apply get_device_spec|]. intros [[[[ret' ?] sub] d] s2] [[? ?] _].
      by destruct (decide (ret' ≠ 0)). }
    intros [[[ret2 dir] name] s2] Q2. destruct M1 as [Q1 _].
    destruct (decide (ret2 ≠ 0)); [cbn; split_and!; [by eapply same_trans|done|done]|].
    eapply yields_bind; [apply vop_op_spec|]. intros [q f] (_ & o & Ho & Hf).
    eapply yields_bind; [by apply (law_create o Ho)|]. intros [[ret3 n3] s3] Q3. cbn in Q3.
    eapply yields_weaken; [apply open_node_spec|]. intros [[ret4 n4] s4] [E4 [Q4 _]].
    split_and!; [|intros Hz; by destruct (E4 Hz) as [-> ?]|done].
    eapply same_trans; [|exact Q4]. eapply same_trans; [|exact Q3]. by eapply same_trans.
  - apply dec_stable in Hz. rewrite decide_True in M1 by done.
    destruct (has_bit fl O_EXCL && has_bit fl O_CREAT) eqn:Hx.
    { destruct M1. cbn. split_and!; [done|done|]. intros Hc. by rewrite Hc, andb_false_r in Hx. }
    eapply yields_weaken; [apply open_node_spec|]. intros [[ret4 n4] s4] [E4 M4].
    assert (moved (if decide (ret4 = 0) then one n4 else nil) (if decide (ret4 = 0) then one n4 else nil) s s4) as [? ?].
    { eapply moved_trans; [exact M1|exact M4|]. intros q. destruct (decide (ret4 = 0)) as [Hz4|_]; unfold nil; [|lia].
      destruct (E4 Hz4) as [-> _]. lia. }
    split_and!; [done| |done]. intros Hz4. by destruct (E4 Hz4) as [-> ?].
Qed.
End accounting.
