(* ===== verification/FileTable.v ===== *)
(** * What the calls of a process do to its table of open files

    [reached b q s0 t d e s]: the run that began in [s0] is in [s], the table [q] is
    now [t], the other tables are as in [s0], and, if [b], the reference counts have
    changed by [d] and the open counts by [e]. *)

From S2P Require Import Prelude CString Iobuf Vfs File FileInv.

(** ** Tables *)

(** The references that an entry and a table hold. *)
Definition opened (f : file) (p : ptr) : Z := if decide (status f = FD_OPENED) then one (node f) p else 0.
Definition opens (t : files_struct) (p : ptr) : Z := zsum (λ f, opened f p) (fd_array t).
Definition holds (t : files_struct) (p : ptr) : Z := one (pwd t) p + opens t p.

(** An entry between two calls: free, or open once on some inode. *)
Definition entry_ok (i : nat) (f : file) : Prop :=
  fd f = Z.of_nat i ∧
  (status f = FD_NONE ∧ fopen_count f = 0 ∨
   status f = FD_OPENED ∧ fopen_count f = 1 ∧ ∃ p, node f = Some p).

Record table_ok (t : files_struct) : Prop := {
  table_length : length (fd_array t) = Z.to_nat FILES_STRUCT_NENTRY;
  table_entry i f : fd_array t !! i = Some f → entry_ok i f
}.

(** [t] with another entry [i]. *)
Definition entry (t : files_struct) (i : nat) (f : file) : files_struct :=
  set_fd_array (<[i := f]> (fd_array t)) t.

Lemma zsum_insert {A} (g : A → Z) l i x y : l !! i = Some x → zsum g (<[i := y]> l) = zsum g l - g x + g y.
Proof.
  assert (∀ a k, zsum g (a :: k) = g a + zsum g k) as Hc by done.
  revert i. induction l as [|a l IH]; intros [|i] Hi; [done|done| |].
  - injection Hi as ->. change (<[0%nat := y]> (x :: l)) with (y :: l). rewrite !Hc. lia.
  - change (<[S i := y]> (a :: l)) with (a :: <[i := y]> l). rewrite !Hc, (IH _ Hi). lia.
Qed.

Lemma opens_entry t i f f' p : fd_array t !! i = Some f → opens (entry t i f') p = opens t p - opened f p + opened f' p.
Proof. apply (zsum_insert (λ f, opened f p)). Qed.

Lemma holds_entry t i f f' p : fd_array t !! i = Some f → holds (entry t i f') p = holds t p - opened f p + opened f' p.
Proof. intros Hf. unfold holds. rewrite (opens_entry _ _ f) by done. cbn. lia. Qed.

Lemma entry_entry t i f f' : entry (entry t i f) i f' = entry t i f'.
Proof. unfold entry, set_fd_array. cbn. by rewrite list_insert_insert_eq. Qed.

Lemma entry_lookup t i f f' : fd_array t !! i = Some f → fd_array (entry t i f') !! i = Some f'.
Proof. intros Hf. cbn. apply list_lookup_insert_eq. by apply lookup_lt_Some in Hf. Qed.

Lemma entry_lookup_ne t i j f' : i ≠ j → fd_array (entry t i f') !! j = fd_array t !! j.
Proof. intros. cbn. by apply list_lookup_insert_ne. Qed.

Lemma table_ok_entry t i f : table_ok t → entry_ok i f → table_ok (entry t i f).
Proof.
  intros [Hl He] Hf. split; [cbn; by rewrite length_insert|]. intros j g Hj.
  destruct (decide (i = j)) as [<-|Hne].
  - cbn in Hj. apply list_lookup_insert_Some in Hj as [(_ & <- & _)|(? & _)]; done.
  - rewrite entry_lookup_ne in Hj by done. auto.
Qed.

Lemma holds_set_pwd t p q : holds (set_pwd p t) q = one p q + opens t q.
Proof. done. Qed.

Lemma set_pwd_ok t p : table_ok t → table_ok (set_pwd p t).
Proof. intros []. by split. Qed.

(** ** Runs *)

Section runs.
Context {F : Type} `{vfs_impl F} `{!vfs_laws}.
Implicit Types s : vstate F.

Record reached (b : Prop) (q : ptr) (s0 : vstate F) (t : files_struct) (d e : ptr → Z) s : Prop := {
  reached_filesp : filesp s = filesp s0;
  reached_fss : fss s = <[q := t]> (fss s0);
  reached_counts : b → counted d e s0 s
}.

Lemma reached_start b {q} s t : fss s !! q = Some t → reached b q s t nil nil s.
Proof. intros Ht. split; [done|by rewrite insert_id|intros _; by apply counted_refl]. Qed.

Lemma reached_moved b {q} s0 t d e d' e' d'' e'' s s' :
  reached b q s0 t d e s → moved d' e' s s' →
  (∀ p, d'' p = d p + d' p ∧ e'' p = e p + e' p) → reached b q s0 t d'' e'' s'.
Proof.
  intros [Hp Hf Hc] [[Qf Qp] C] He. split; [congruence|congruence|]. intros Hb.
  by eapply counted_trans; [apply Hc|exact C|].
Qed.

Lemma reached_still b {q} s0 t d e s s' :
  reached b q s0 t d e s → moved nil nil s s' → reached b q s0 t d e s'.
Proof. intros R M. eapply reached_moved; [exact R|exact M|]. intros p. unfold nil. lia. Qed.

(** Two tables of the current process: the second accounts for the change. *)
Record kept (b : Prop) (s s' : vstate F) (t : files_struct) : Prop := {
  kept_filesp : filesp s' = filesp s;
  kept_other q : q ≠ filesp s → fss s' !! q = fss s !! q;
  kept_table : ∃ t', fss s' !! filesp s = Some t' ∧ table_ok t' ∧
    (b → ∀ p, eq32 (rc s' p - holds t' p) (rc s p - holds t p) ∧ eq32 (oc s' p - opens t' p) (oc s p - opens t p))
}.

Lemma reached_kept b s t t' d e s' :
  reached b (filesp s) s t' d e s' → table_ok t' →
  (b → ∀ p, d p = holds t' p - holds t p ∧ e p = opens t' p - opens t p) → kept b s s' t.
Proof.
  intros [Hp Hf Hc] Hok He. split; [done|intros q Hq; by rewrite Hf, lookup_insert_ne|].
  exists t'. rewrite Hf, lookup_insert_eq. split_and!; [done..|]. intros Hb p.
  destruct (Hc Hb p) as [[k ->] [l ->]], (He Hb p) as [-> ->]. split; [exists k|exists l]; lia.
Qed.

(** An entry that was open on [p] or free is now open on [p'] or free. *)
Lemma reached_entry_kept b s t i f f' d e s' :
  table_ok t → fd_array t !! i = Some f → reached b (filesp s) s (entry t i f') d e s' → entry_ok i f' →
  (b → ∀ p, d p = opened f' p - opened f p ∧ e p = opened f' p - opened f p) → kept b s s' t.
Proof.
  intros Hok Hf R Hf' He. eapply reached_kept; [exact R|by apply table_ok_entry|]. intros Hb p.
  rewrite (holds_entry t i f), (opens_entry t i f) by done. destruct (He Hb p) as [-> ->]. lia.
Qed.

Lemma kept_refl b s t : fss s !! filesp s = Some t → table_ok t → kept b s s t.
Proof. intros Ht Hok. eapply reached_kept; [by apply reached_start|done|]. intros _ p. unfold nil. lia. Qed.

Context (b : Prop) {q : ptr} (s0 : vstate F).

Lemma get_files_at t d e s : reached b q s0 t d e s → get_files s q = Ok t.
Proof. intros R. unfold get_files. by rewrite (reached_fss _ _ _ _ _ _ _ R), lookup_insert_eq. Qed.

Lemma get_file_at t i f d e s : reached b q s0 t d e s → fd_array t !! i = Some f → get_file s (q, i) = Ok f.
Proof. intros R Hf. unfold get_file. cbn. rewrite (get_files_at _ _ _ _ R). cbn. by rewrite Hf. Qed.

Lemma upd_file_at t i f d e s g :
  reached b q s0 t d e s → fd_array t !! i = Some f →
  ∃ s', upd_file (q, i) g s = Ok s' ∧ reached b q s0 (entry t i (g f)) d e s'.
Proof.
  intros R Hf. unfold upd_file. cbn [fst snd]. rewrite (get_files_at _ _ _ _ R). cbn. rewrite Hf. cbn. eexists. split; [done|].
  destruct R as [Hp Hs Hc]. split; [done|cbn; by rewrite Hs, insert_insert_eq|]. intros Hb p. exact (Hc Hb p).
Qed.

(** Replaces an entry that was already replaced. *)
Lemma upd_entry_at t i f0 f d e s g :
  fd_array t !! i = Some f0 → reached b q s0 (entry t i f) d e s →
  ∃ s', upd_file (q, i) g s = Ok s' ∧ reached b q s0 (entry t i (g f)) d e s'.
Proof.
  intros Hf R. destruct (upd_file_at _ i f _ _ _ g R) as (s' & Hu & R'); [by eapply entry_lookup|].
  exists s'. by rewrite entry_entry in R'.
Qed.

Lemma count_inc_at t i f0 f d e s :
  fd_array t !! i = Some f0 → reached b q s0 (entry t i f) d e s →
  ∃ s', fopen_count_inc (q, i) s = Ok (i32 (fopen_count f + 1), s') ∧
    reached b q s0 (entry t i (set_fopen_count (i32 (fopen_count f + 1)) f)) d e s'.
Proof.
  intros Hf R. unfold fopen_count_inc. rewrite (get_file_at _ i f _ _ _ R) by (by eapply entry_lookup). cbn [bind].
  destruct (upd_entry_at _ _ _ _ _ _ _ (set_fopen_count (i32 (fopen_count f + 1))) Hf R) as (s' & -> & R'). eauto.
Qed.

Lemma count_dec_at t i f0 f d e s :
  fd_array t !! i = Some f0 → reached b q s0 (entry t i f) d e s →
  ∃ s', fopen_count_dec (q, i) s = Ok (i32 (fopen_count f - 1), s') ∧
    reached b q s0 (entry t i (set_fopen_count (i32 (fopen_count f - 1)) f)) d e s'.
Proof.
  intros Hf R. unfold fopen_count_dec. rewrite (get_file_at _ i f _ _ _ R) by (by eapply entry_lookup). cbn [bind].
  destruct (upd_entry_at _ _ _ _ _ _ _ (set_fopen_count (i32 (fopen_count f - 1))) Hf R) as (s' & -> & R'). eauto.
Qed.

Lemma acquire_at t i f d e s :
  fd_array t !! i = Some f → reached b q s0 t d e s → status f = FD_OPENED → fopen_count f = 1 →
  ∃ s', fd_array_acquire (q, i) s = Ok s' ∧ reached b q s0 (entry t i (set_fopen_count 2 f)) d e s'.
Proof.
  intros Hf R Hst Hc. unfold fd_array_acquire. rewrite (get_file_at _ i f _ _ _ R) by done. cbn [bind].
  rewrite bool_decide_eq_true_2 by done.
  assert (t = entry t i f) as Ht. { destruct t. unfold entry, set_fd_array. cbn in *. by rewrite list_insert_id. }
  rewrite Ht in R. destruct (count_inc_at t i f f _ _ _ Hf R) as (s' & -> & R'). cbn. rewrite Hc in R'. eauto.
Qed.

Lemma release_at t i f0 f d e s :
  fd_array t !! i = Some f0 → reached b q s0 (entry t i f) d e s → status f = FD_OPENED → fopen_count f = 2 →
  ∃ s', fd_array_release (q, i) s = Ok s' ∧ reached b q s0 (entry t i (set_fopen_count 1 f)) d e s'.
Proof.
  intros Hf R Hst Hc. unfold fd_array_release. rewrite (get_file_at _ i f _ _ _ R) by (by eapply entry_lookup). cbn [bind].
  rewrite bool_decide_eq_true_2 by auto. rewrite Hc. change (0 <? 2) with true. cbv iota.
  destruct (count_dec_at _ _ _ _ _ _ _ Hf R) as (s' & -> & R'). rewrite Hc in *. cbn. eauto.
Qed.

Lemma free_init_at t' i f0 f d e s :
  fd_array t' !! i = Some f0 → reached b q s0 (entry t' i f) d e s → status f = FD_INIT → fopen_count f = 0 →
  ∃ s', fd_array_free (q, i) s = Ok s' ∧ reached b q s0 (entry t' i (set_status FD_NONE f)) d e s'.
Proof.
  intros Hf R Hst Hc. unfold fd_array_free. rewrite (get_file_at _ i f _ _ _ R) by (by eapply entry_lookup). cbn [bind].
  rewrite bool_decide_eq_true_2, Hc by auto. change (0 =? 0) with true. cbv iota.
  rewrite decide_False by congruence. cbn [bind]. by eapply upd_entry_at.
Qed.

Lemma open_at t' i f0 f d e s p :
  fd_array t' !! i = Some f0 → reached b q s0 (entry t' i f) d e s → status f = FD_INIT → node f = Some p → fopen_count f = 0 →
  ∃ s', fd_array_open (q, i) s = Ok s' ∧
        reached b q s0 (entry t' i (set_fopen_count 1 (set_status FD_OPENED f))) d e s'.
Proof.
  intros Hf R Hst Hn Hc. unfold fd_array_open. rewrite (get_file_at _ i f _ _ _ R) by (by eapply entry_lookup). cbn [bind].
  rewrite bool_decide_eq_true_2 by (by rewrite Hn).
  destruct (upd_entry_at _ _ _ _ _ _ _ (set_status FD_OPENED) Hf R) as (s1 & -> & R1). cbn [bind].
  destruct (count_inc_at _ _ _ _ _ _ _ Hf R1) as (s2 & -> & R2). cbn in *. rewrite Hc in R2. eauto.
Qed.

Lemma close_at t' i f d e s p :
  fd_array t' !! i = Some f → reached b q s0 t' d e s → status f = FD_OPENED → fopen_count f = 1 → node f = Some p →
  yields (reached b q s0 (entry t' i (set_status FD_NONE (set_fopen_count 0 (set_status FD_CLOSED f))))
            (λ x, d x - one (Some p) x) (λ x, e x - one (Some p) x))
    (fd_array_close (q, i) s).
Proof.
  intros Hf R Hst Hc Hn. unfold fd_array_close. rewrite (get_file_at _ i f _ _ _ R) by done. cbn [bind].
  rewrite bool_decide_eq_true_2, Hc by done. change (0 <? 1) with true. cbv iota.
  destruct (upd_file_at _ _ _ _ _ _ (set_status FD_CLOSED) R Hf) as (s1 & -> & R1). cbn [bind].
  destruct (count_dec_at _ _ _ _ _ _ _ Hf R1) as (s2 & -> & R2). cbn [bind]. cbn [set_status fopen_count] in *.
  rewrite Hc in *. change (i32 (1 - 1)) with 0 in *. change (0 =? 0) with true. cbv iota.
  unfold fd_array_free. rewrite (get_file_at _ i _ _ _ _ R2) by (by eapply entry_lookup). cbn [bind].
  rewrite bool_decide_eq_true_2 by auto. change (0 =? 0) with true. cbn [fopen_count set_fopen_count]. change (0 =? 0) with true. cbv iota.
  rewrite decide_True by done. cbn [node set_fopen_count set_status]. rewrite Hn. cbn [on_node deref bind].
  eapply yields_bind; [eapply yields_bind; [apply vfs_close_spec|]|].
  { intros [r s3] M. cbn in M. exact (reached_moved _ _ _ _ _ _ _ _ _ _ _ R2 M (λ x, conj eq_refl eq_refl)). }
  intros s3 R3. destruct (upd_entry_at _ _ _ _ _ _ _ (set_status FD_NONE) Hf R3) as (s4 & -> & R4). exact R4.
Qed.

(** [fd_array_dup] onto an entry that was just allocated. *)
Lemma dup_at t' j g0 g from f d e s p :
  fd_array t' !! j = Some g0 → reached b q s0 (entry t' j g) d e s → status g = FD_INIT → fopen_count g = 0 →
  get_file s from = Ok f → status f = FD_OPENED → node f = Some p →
  yields (reached b q s0 (entry t' j (mkFile FD_OPENED (readable f) (writable f) (fd g) (pos f) (Some p) 1))
            (λ x, d x + one (Some p) x) (λ x, e x + one (Some p) x))
    (fd_array_dup (q, j) from s).
Proof.
  intros Hg R Hgst Hgc Hf Hst Hn. unfold fd_array_dup. rewrite (get_file_at _ j _ _ _ _ R) by (by eapply entry_lookup).
  cbn [bind]. rewrite Hf. cbn [bind]. rewrite bool_decide_eq_true_2 by done.
  match goal with |- context [upd_file _ ?h s] => destruct (upd_entry_at _ _ _ _ _ _ _ h Hg R) as (s2 & -> & R2) end. cbn [bind].
  rewrite Hn. cbn [on_node deref bind]. eapply yields_bind.
  { eapply yields_bind; [apply inode_ref_inc_spec|]. intros [r s3] M3. eapply yields_bind; [apply inode_open_inc_spec|].
    intros [r' s4] M4. cbn in *.
    exact (reached_moved _ _ _ _ _ _ _ _ _ _ _ (reached_moved _ _ _ _ _ _ _ _ _ _ _ R2 M3 (λ q, conj eq_refl eq_refl))
             M4 (λ q, conj eq_refl eq_refl)). }
  intros s4 R4. cbv beta in R4.
  destruct (upd_entry_at _ _ _ _ _ _ _ (set_node (Some p)) Hg R4) as (s5 & -> & R5). cbn [bind].
  destruct (open_at _ _ _ _ _ _ _ p Hg R5) as (s6 & -> & R6); [done..|]. cbn.
  eapply reached_moved; [exact R6|apply moved_refl|]. intros x. unfold nil. lia.
Qed.
End runs.

(** The end of a call that holds a descriptor. *)
Lemma release_kept `{vfs_impl F} `{!vfs_laws} b (s0 : vstate F) t i f0 f s p :
  fss s0 !! filesp s0 = Some t → table_ok t →
  fd_array t !! i = Some f0 → status f0 = FD_OPENED → node f0 = Some p →
  reached b (filesp s0) s0 (entry t i f) nil nil s → status f = FD_OPENED → fopen_count f = 2 → node f = node f0 → fd f = fd f0 →
  yields (λ s', kept b s0 s' t) (fd_array_release (filesp s0, i) s).
Proof.
  intros Ht Hok Hf Hst Hn R Hst' Hc Hnode Hfd. destruct (release_at _ _ _ _ _ _ _ _ _ Hf R) as (s' & -> & R'); [done..|].
  cbn. eapply reached_entry_kept; [done|exact Hf|exact R'| |].
  - destruct (table_entry _ Hok _ _ Hf) as [? _]. split; [cbn; congruence|]. right. cbn. split_and!; [done..|]. exists p. congruence.
  - intros _ q. unfold opened, nil. cbn. rewrite Hst', Hst, !decide_True by done. rewrite Hnode. lia.
Qed.

(** ** The calls *)

Section calls.
Context {F : Type} `{vfs_impl F} `{!vfs_laws}.
Implicit Types s : vstate F.
Context (b : Prop) (s0 : vstate F) (t : files_struct).
Hypothesis (Ht : fss s0 !! filesp s0 = Some t) (Hok : table_ok t).

Let R0 : reached b (filesp s0) s0 t nil nil s0 := reached_start b s0 t Ht.

Lemma get_fd_array_at t' d e s :
  reached b (filesp s0) s0 t' d e s → get_fd_array s = Ok (filesp s0) ∨ get_fd_array s = Panicked.
Proof.
  intros R. unfold get_fd_array. rewrite (reached_filesp _ _ _ _ _ _ _ R), (get_files_at b s0 t' d e s R).
  destruct (filesp s0 =? 0); [by right|]. cbn. destruct (0 <? _); auto.
Qed.

(** A bad descriptor ends the call with the error; the other way, the entry is open. *)
Lemma with_fd_at {A} (Q : A → Prop) fdn err k :
  Q (err (- E_INVAL)) →
  (∀ i f p, fd_array t !! i = Some f → status f = FD_OPENED → fopen_count f = 1 → node f = Some p →
            yields Q (k (filesp s0, i))) →
  yields Q (with_fd fdn err k s0).
Proof.
  intros Herr Hk. unfold with_fd, fd2file. destruct (testfd fdn); [|exact Herr].
  destruct (get_fd_array_at _ _ _ _ R0) as [-> | ->]; [|done]. cbn [bind].
  destruct (fd_array t !! Z.to_nat fdn) as [f|] eqn:Hf.
  - rewrite (get_file_at b s0 t _ _ _ _ _ R0 Hf). cbn [bind]. destruct (decide (_ ∧ _)) as [[Hst _]|]; [|exact Herr].
    cbn [bind]. rewrite decide_False by (intros Hn; by apply Hn). cbn [deref bind].
    destruct (table_entry _ Hok _ _ Hf) as [_ [[Hst' _]|(_ & Hc & p & Hp)]]; [congruence|eauto].
  - unfold get_file. cbn [fst snd]. rewrite (get_files_at b s0 t _ _ _ R0). cbn [bind]. by rewrite Hf.
Qed.

(** The time between [fd_array_acquire] and [fd_array_release]. *)
Section held.
Context (i : nat) (f0 : file) (p0 : ptr).
Hypothesis (Hf0 : fd_array t !! i = Some f0) (Hst0 : status f0 = FD_OPENED) (Hc0 : fopen_count f0 = 1)
  (Hn0 : node f0 = Some p0).

Definition held (f : file) s : Prop :=
  reached b (filesp s0) s0 (entry t i f) nil nil s ∧ status f = FD_OPENED ∧ fopen_count f = 2 ∧ node f = node f0 ∧ fd f = fd f0.

Lemma held_acquire : ∃ s, fd_array_acquire (filesp s0, i) s0 = Ok s ∧ held (set_fopen_count 2 f0) s.
Proof. destruct (acquire_at _ _ _ _ _ _ _ _ Hf0 R0 Hst0 Hc0) as (s1 & -> & R1). exists s1. split; [done|]. split; [exact R1|by split_and!]. Qed.

Lemma held_get f s : held f s → get_file s (filesp s0, i) = Ok f.
Proof. intros (R & _). eapply get_file_at; [exact R|by eapply entry_lookup]. Qed.

Lemma held_still f s s' : held f s → moved nil nil s s' → held f s'.
Proof. intros (R & Hh) M. split; [by eapply reached_still|done]. Qed.

Lemma held_pos f s x : held f s → ∃ s', upd_file (filesp s0, i) (set_pos x) s = Ok s' ∧ held (set_pos x f) s'.
Proof.
  intros (R & Hh). destruct (upd_entry_at b s0 t i f0 _ _ _ _ (set_pos x) Hf0 R) as (s' & -> & R').
  exists s'. split; [done|]. split; [exact R'|exact Hh].
Qed.

Lemma held_release f s : held f s → yields (λ s', kept b s0 s' t) (fd_array_release (filesp s0, i) s).
Proof. intros (R & ? & ? & ? & ?). eapply release_kept; eassumption. Qed.

Lemma held_end {A} f s (a : A) : held f s →
  yields (λ r, kept b s0 r.2 t) (let! s := fd_array_release (filesp s0, i) s in Ok (a, s)).
Proof. intros Hh. eapply yields_bind; [by apply (held_release f)|]. by intros. Qed.

End held.

(** Up to the operation of the inode. *)
Ltac hold :=
  apply with_fd_at; [by apply kept_refl|];
  let i := fresh "i" in let f := fresh "f" in let Hf := fresh "Hf" in let Hst := fresh "Hst" in
  let Hc := fresh "Hc" in let Hn := fresh "Hn" in let p := fresh "p" in
  intros i f p Hf Hst Hc Hn;
  let s1 := fresh "s1" in let Hh := fresh "Hh" in let E := fresh "E" in
  destruct (held_acquire i f Hf Hst Hc) as (s1 & E & Hh);
  rewrite ?E; cbn [bind]; rewrite ?(held_get i f Hf _ _ Hh); cbn [bind].

Ltac vop :=
  eapply yields_bind; [apply vop_op_spec|];
  let q := fresh "q" in let g := fresh "g" in let o := fresh "o" in let Ho := fresh "Ho" in let Hg := fresh "Hg" in
  intros [q g] (_ & o & Ho & Hg).

Lemma file_fstat_kept fdn : yields (λ r, kept b s0 r.2 t) (file_fstat fdn s0).
Proof.
  unfold file_fstat. hold. vop. eapply yields_bind; [by eapply (law_fstat o Ho)|]. intros [[ret st] s2] M.
  eapply held_end; [done..|]. by eapply held_still.
Qed.

Lemma file_fsync_kept fdn : yields (λ r, kept b s0 r.2 t) (file_fsync fdn s0).
Proof.
  unfold file_fsync. hold. vop. eapply yields_bind; [by eapply (law_fsync o Ho)|]. intros [ret s2] M.
  eapply held_end; [done..|]. by eapply held_still.
Qed.

Lemma file_getdirentry_kept fdn name off : yields (λ r, kept b s0 r.2 t) (file_getdirentry fdn name off s0).
Proof.
  unfold file_getdirentry. hold. vop. eapply yields_bind; [by eapply (law_getdirentry o Ho)|]. intros [[ret iob] s2] M.
  eapply held_end; [done..|]. by eapply held_still.
Qed.

Lemma seek_target_spec f x w s :
  yields (λ r, moved nil nil s r.2) (seek_target f x w s).
Proof.
  unfold seek_target. destruct (w =? LSEEK_SET); [apply moved_refl|]. destruct (w =? LSEEK_CUR); [apply moved_refl|].
  destruct (w =? LSEEK_END); [|apply moved_refl]. vop. eapply yields_bind; [by eapply (law_fstat o Ho)|].
  by intros [[ret st] s2] M.
Qed.

Lemma file_seek_kept fdn x w : yields (λ r, kept b s0 r.2 t) (file_seek fdn x w s0).
Proof.
  unfold file_seek. hold. eapply yields_bind; [apply seek_target_spec|]. intros [[ret x'] s2] M.
  apply (held_still i f) with (s' := s2) in Hh; [|exact M].
  eapply (yields_bind (λ r, ∃ f', held i f f' r.2)).
  - destruct (decide (ret = 0)); [|cbn; eauto]. vop.
    eapply yields_bind; [by eapply (law_tryseek o Ho)|]. intros [ret2 s3] M3.
    apply (held_still i f) with (s' := s3) in Hh; [|exact M3]. destruct (decide (ret2 = 0)); [|cbn; eauto].
    destruct (held_pos i f Hf _ _ x' Hh) as (s4 & -> & Hh4). cbn. eauto.
  - intros [ret2 s3] [f' Hh']. by eapply held_end.
Qed.

Lemma transfer_kept rd op fdn base len :
  (∀ o g q iob s, ops_laws o → op o = Some g → is_u32 (io_resid iob) → yields (λ r, moved nil nil s r.2) (g q iob s)) →
  yields (λ r, kept b s0 r.2 t) (transfer rd op fdn base len s0).
Proof.
  intros Hop. unfold transfer. apply with_fd_at; [by apply kept_refl|]. intros i f p Hf Hst Hc Hn.
  rewrite (get_file_at b s0 t _ _ _ _ _ R0 Hf). cbn [bind].
  destruct (negb _); [by apply kept_refl|].
  destruct (held_acquire i f Hf Hst Hc) as (s1 & -> & Hh). cbn [bind]. vop.
  eapply yields_bind; [by eapply Hop; [..|apply u32_range]|]. intros [[ret iob] s2] M. cbv zeta.
  apply (held_still i f) with (s' := s2) in Hh; [|exact M].
  rewrite (held_get i f Hf _ _ Hh). cbn [bind]. rewrite decide_True by done.
  destruct (held_pos i f Hf _ _ (i32 (pos (set_fopen_count 2 f) + iobuf_used iob)) Hh) as (s4 & -> & Hh4). cbn [bind]. by eapply held_end.
Qed.

(** ** Opening, closing and duplicating *)

Lemma alloc_at fdn :
  yields (λ '(ret, fp, s), (ret ≠ 0 ∧ s = s0) ∨
    (ret = 0 ∧ ∃ i f, fp = Some (filesp s0, i) ∧ fd_array t !! i = Some f ∧ status f = FD_NONE ∧
      fd f = Z.of_nat i ∧ fopen_count f = 0 ∧
      reached b (filesp s0) s0 (entry t i (set_node None (set_status FD_INIT f))) nil nil s))
    (fd_array_alloc fdn s0).
Proof.
  unfold fd_array_alloc. destruct (get_fd_array_at _ _ _ _ R0) as [-> | ->]; [|done]. cbn [bind].
  rewrite (get_files_at _ _ _ _ _ _ R0). cbn [bind]. cbv zeta.
  assert (∀ i f, fd_array t !! i = Some f → status f = FD_NONE → fd f = Z.of_nat i ∧ fopen_count f = 0) as Hfree.
  { intros i f Hf Hst. destruct (table_entry _ Hok _ _ Hf) as [? [[_ ?]|(? & _)]]; [done|congruence]. }
  assert (∀ i f, fd_array t !! i = Some f → status f = FD_NONE →
    ∃ s', upd_file (filesp s0, i) (λ f, set_node None (set_status FD_INIT f)) s0 = Ok s' ∧
          reached b (filesp s0) s0 (entry t i (set_node None (set_status FD_INIT f))) nil nil s') as Hupd.
  { intros i f Hf Hst. exact (upd_file_at _ _ _ _ _ _ _ _ (λ f, set_node None (set_status FD_INIT f)) R0 Hf). }
  destruct (fdn =? NO_FD).
  - unfold first_free. destruct (list_find _ _) as [[i f]|] eqn:Hfind; [|cbn; by left].
    apply list_find_Some in Hfind as (Hf & Hst & _). apply lookup_take_Some in Hf as [Hf _].
    rewrite (get_file_at _ _ _ _ _ _ _ _ R0 Hf). cbn [bind]. destruct (Hfree _ _ Hf Hst) as [Hfd Hc0]. rewrite Hc0.
    destruct (Hupd _ _ Hf Hst) as (s' & -> & R'). cbn. right. split; [done|]. by exists i, f.
  - destruct (testfd fdn); [|cbn; by left].
    destruct (fd_array t !! Z.to_nat fdn) as [f|] eqn:Hf.
    + rewrite (get_file_at _ _ _ _ _ _ _ _ R0 Hf). cbn [bind]. destruct (decide _) as [Hst|]; [|cbn; by left].
      destruct (Hfree _ _ Hf Hst) as [Hfd Hc0]. rewrite Hc0.
      destruct (Hupd _ _ Hf Hst) as (s' & -> & R'). cbn. right. split; [done|]. by exists (Z.to_nat fdn), f.
    + unfold get_file. cbn [fst snd]. rewrite (get_files_at b s0 t _ _ _ R0). cbn [bind]. by rewrite Hf.
Qed.

(** The entry [i], which was free, is free again and nothing was counted. *)
Lemma free_kept i f f' s :
  fd_array t !! i = Some f → status f = FD_NONE → fd f = Z.of_nat i →
  reached b (filesp s0) s0 (entry t i f') nil nil s → status f' = FD_NONE → fd f' = fd f → fopen_count f' = 0 → kept b s0 s t.
Proof.
  intros Hf Hst Hfd R Hst' Hfd' Hc'. eapply reached_entry_kept; [done|exact Hf|exact R| |].
  - split; [congruence|by left].
  - intros _ q. unfold opened, nil. by rewrite Hst, Hst', !decide_False.
Qed.

(** The entry [i], which was free, is open on [p], with a reference counted. *)
Lemma open_kept i f f' s p :
  fd_array t !! i = Some f → status f = FD_NONE → fd f = Z.of_nat i →
  reached b (filesp s0) s0 (entry t i f') (one (Some p)) (one (Some p)) s →
  status f' = FD_OPENED → fd f' = fd f → fopen_count f' = 1 → node f' = Some p → kept b s0 s t.
Proof.
  intros Hf Hst Hfd R Hst' Hfd' Hc' Hn'. eapply reached_entry_kept; [done|exact Hf|exact R| |].
  - split; [congruence|right; eauto].
  - intros _ q. unfold opened. rewrite Hst, Hst', decide_True, decide_False, Hn' by done. lia.
Qed.

Lemma file_close_kept fdn : yields (λ r, kept b s0 r.2 t) (file_close fdn s0).
Proof.
  unfold file_close. apply with_fd_at; [by apply kept_refl|]. intros i f p Hf Hst Hc Hn.
  eapply yields_bind; [by eapply (close_at _ _ t i f _ _ _ p Hf R0)|]. intros s R. cbn.
  eapply reached_entry_kept; [done|exact Hf|exact R| |].
  - destruct (table_entry _ Hok _ _ Hf) as [? _]. split; [done|by left].
  - intros _ q. unfold opened, nil. cbn. rewrite decide_False, Hst, decide_True, Hn by done. lia.
Qed.

Lemma file_open_kept junk path fl :
  (b → has_bit fl O_CREAT = false) → yields (λ r, kept b s0 r.2 t) (file_open junk path fl s0).
Proof.
  intros Hb. unfold file_open. cbv zeta. destruct (O_RDWR <? _); [by apply kept_refl|].
  eapply yields_bind; [apply alloc_at|]. intros [[ret fp] s1] [[Hne ->]|(-> & i & f & -> & Hf & Hst & Hfd & Hc & R1)].
  { rewrite decide_True by done. by apply kept_refl. }
  rewrite decide_False by (intros Hn; by apply Hn). cbn [deref bind].
  eapply yields_bind; [apply vfs_open_spec|]. intros [[ret n] s2] ([Qf Qp] & Hn & C).
  assert (reached b (filesp s0) s0 (entry t i (set_node None (set_status FD_INIT f)))
            (if decide (ret = 0) then one n else nil) (if decide (ret = 0) then one n else nil) s2) as R2.
  { destruct R1 as [Rp Rf Rc]. split; [congruence|congruence|]. intros Hb'.
    eapply counted_trans; [by apply Rc|by apply C, Hb|]. intros q. unfold nil. lia. }
  destruct (decide (ret ≠ 0)) as [Hne|Hz].
  { rewrite decide_False in R2 by done. destruct (free_init_at _ _ _ _ _ _ _ _ _ Hf R2) as (s3 & -> & R3); [done..|].
    by eapply free_kept. }
  apply dec_stable in Hz. subst ret. rewrite decide_True in R2 by done. specialize (Hn eq_refl).
  destruct n as [p|]; [|done].
  destruct (upd_entry_at _ _ _ _ _ _ _ _ _ (set_pos 0) Hf R2) as (s3 & -> & R3). cbn [bind].
  eapply (yields_bind (λ '(ret, s), (ret ≠ 0 ∧ kept b s0 s t) ∨ (ret = 0 ∧ ∃ x,
      reached b (filesp s0) s0 (entry t i (set_pos x (set_node None (set_status FD_INIT f)))) (one (Some p)) (one (Some p)) s))).
  - destruct (has_bit fl O_APPEND); [|cbn; right; split; [done|by exists 0]].
    eapply yields_bind; [apply vop_op_spec|]. intros [q g] (Hq & o & Ho & Hg). injection Hq as <-.
    eapply yields_bind; [by eapply (law_fstat o Ho)|]. intros [[ret st] s4] M4. cbn [snd] in M4.
    assert (R4 := reached_still _ _ _ _ _ _ _ R3 M4). destruct (decide (ret ≠ 0)) as [Hne|_].
    + eapply yields_bind; [apply vfs_close_spec|]. intros [r s5] M5. cbn [snd] in M5.
      assert (reached b (filesp s0) s0 (entry t i (set_pos 0 (set_node None (set_status FD_INIT f)))) nil nil s5) as R5.
      { eapply reached_moved; [exact R4|exact M5|]. intros x. unfold nil. lia. }
      destruct (free_init_at _ _ _ _ _ _ _ _ _ Hf R5) as (s6 & -> & R6); [done..|]. cbn. left. split; [done|].
      by eapply free_kept.
    + destruct (upd_entry_at _ _ _ _ _ _ _ _ _ (set_pos (i32 (st_size st))) Hf R4) as (s5 & -> & R5). cbn. right.
      split; [done|]. exists (i32 (st_size st)). exact R5.
  - intros [ret s4] [[Hne Hk]|(-> & x & R4)]; [by rewrite decide_True|].
    rewrite decide_False by (intros Hn'; by apply Hn').
    match goal with |- context [upd_file _ ?g s4] => destruct (upd_entry_at _ _ _ _ _ _ _ _ _ g Hf R4) as (s5 & -> & R5) end. cbn [bind].
    destruct (open_at _ _ _ _ _ _ _ _ _ p Hf R5) as (s6 & -> & R6); [done..|]. cbn [bind].
    rewrite (get_file_at _ _ _ i _ _ _ _ R6) by (by eapply entry_lookup). by eapply open_kept.
Qed.

Lemma file_dup_kept fd1 fd2 : yields (λ r, kept b s0 r.2 t) (file_dup fd1 fd2 s0).
Proof.
  unfold file_dup. apply with_fd_at; [by apply kept_refl|]. intros i f p Hf Hst Hc Hn.
  eapply yields_bind; [apply alloc_at|]. intros [[ret fp] s1] [[Hne ->]|(-> & j & g & -> & Hg & Hgst & Hgfd & Hgc & R1)].
  { rewrite decide_True by done. by apply kept_refl. }
  rewrite decide_False by (intros Hx; by apply Hx). cbn [deref bind].
  assert (j ≠ i) as Hji by (intros ->; congruence).
  eapply yields_bind.
  { eapply (dup_at _ _ t j g _ _ f); [exact Hg|exact R1|done|done| |exact Hst|exact Hn].
    apply (get_file_at _ _ _ i f _ _ _ R1). by rewrite entry_lookup_ne. }
  intros s2 R2. rewrite (get_file_at _ _ _ j _ _ _ _ R2) by (by eapply entry_lookup). cbn.
  eapply (reached_entry_kept _ _ _ j g); [done|done|exact R2| |].
  - split; [done|]. right. eauto.
  - intros _ x. unfold opened, nil. cbn. rewrite decide_True, Hgst, decide_False by done. lia.
Qed.

Lemma vfs_set_curdir_spec d e s dir :
  reached b (filesp s0) s0 t d e s →
  yields (λ '(_, s'), ∃ t', reached b (filesp s0) s0 t' (λ q, d q + holds t' q - holds t q) e s' ∧ table_ok t' ∧ fd_array t' = fd_array t)
    (vfs_set_curdir dir s).
Proof.
  intros R. unfold vfs_set_curdir, get_cwd_nolock. rewrite (reached_filesp _ _ _ _ _ _ _ R), (get_files_at _ _ _ _ _ _ R). cbn [bind].
  assert (∀ s1, reached b (filesp s0) s0 t d e s1 → ∃ t', reached b (filesp s0) s0 t' (λ q, d q + holds t' q - holds t q) e s1 ∧ table_ok t' ∧ fd_array t' = fd_array t) as Hsame.
  { intros s1 R1. exists t. split; [|done]. destruct R1 as [Rp Rf Rc]. split; [done..|]. intros Hb q. destruct (Rc Hb q) as [[k ->] ?].
    split; [exists k; lia|done]. }
  destruct (decide (pwd t = dir)) as [|Hne]; [by apply Hsame|].
  apply (yields_bind (λ '(ret, s1), if decide (ret = 0) then reached b (filesp s0) s0 t (λ q, d q + one dir q) e s1 else reached b (filesp s0) s0 t d e s1)).
  - destruct dir as [p|].
    2:{ cbn. eapply reached_moved; [exact R|apply moved_refl|]. intros q. unfold nil. rewrite one_none. lia. }
    eapply yields_bind; [apply vop_op_spec|]. intros [q g] (Hq & o & Ho & Hg). injection Hq as <-.
    eapply yields_bind; [by eapply (law_gettype o Ho)|]. intros [[ret ty] s1] M1. cbn [snd] in M1.
    assert (R1 := reached_still _ _ _ _ _ _ _ R M1).
    destruct (decide (ret ≠ 0)); [cbn; by rewrite decide_False|]. destruct (S_ISDIR ty); cbn [negb]; [|exact R1].
    eapply yields_bind; [apply inode_ref_inc_spec|]. intros [r s2] M2. cbn. eapply reached_moved; [exact R1|exact M2|].
    intros q. unfold nil. lia.
  - intros [ret s1] R1. destruct (decide (ret ≠ 0)); [rewrite decide_False in R1 by done; by apply Hsame|].
    rewrite decide_True in R1 by (by apply dec_stable).
    unfold set_cwd_nolock. rewrite (reached_filesp _ _ _ _ _ _ _ R1), (get_files_at _ _ _ _ _ _ R1). cbn [bind].
    set (s2 := put_files (filesp s0) (set_pwd dir t) s1).
    assert (reached b (filesp s0) s0 (set_pwd dir t) (λ q, d q + one dir q) e s2) as R2.
    { destruct R1 as [Rp Rf Rc]. split; [done|cbn; by rewrite Rf, insert_insert_eq|exact Rc]. }
    destruct (pwd t) as [po|] eqn:Hpo.
    + eapply yields_bind; [apply inode_ref_dec_spec|]. intros [r s3] M3. cbn in M3 |- *. exists (set_pwd dir t).
      split; [|split; [by apply set_pwd_ok|done]]. eapply reached_moved; [exact R2|exact M3|].
      intros q. rewrite holds_set_pwd. unfold holds, nil. rewrite Hpo. lia.
    + cbn. exists (set_pwd dir t). split; [|split; [by apply set_pwd_ok|done]].
      eapply reached_moved; [exact R2|apply moved_refl|]. intros q. rewrite holds_set_pwd. unfold holds, nil. rewrite Hpo, one_none. lia.
Qed.

Lemma vfs_chdir_kept path : yields (λ r, kept b s0 r.2 t) (vfs_chdir path s0).
Proof.
  unfold vfs_chdir. eapply yields_bind; [apply vfs_lookup_spec|]. intros [[[ret path'] n] s1] M1.
  assert (R1 := reached_moved _ _ _ _ _ _ _ _ _ _ _ R0 M1 (λ q, conj eq_refl eq_refl)). cbv beta in R1.
  destruct (decide (ret ≠ 0)) as [Hne|Hz].
  { cbn. eapply reached_kept; [exact R1|done|]. intros _ q. rewrite decide_False by done. unfold nil. lia. }
  apply dec_stable in Hz. subst ret.
  eapply yields_bind; [by eapply (vfs_set_curdir_spec _ _ _ _ R1)|]. intros [ret s2] (t' & R2 & Hok' & Hfd).
  unfold on_node. destruct n as [p|]; [|done]. cbn [deref bind].
  eapply yields_bind; [apply inode_ref_dec_spec|]. intros [r s3] M3. cbn.
  eapply reached_kept; [exact (reached_moved _ _ _ _ _ _ _ _ _ _ _ R2 M3 (λ q, conj eq_refl eq_refl))|done|].
  intros _ q. cbv beta. rewrite decide_True by done. unfold holds, opens, nil. rewrite Hfd. lia.
Qed.
End calls.
