(* ===== verification/Dev.v ===== *)
(** * kern/fs/devs: devices as inodes

    The operations of device inodes, the standard input with its ring buffer, the
    standard output and the disk.  [dev_impl] is the table of a kernel whose only
    inodes are devices; the laws of [vfs_laws] hold for it.  A reader of the standard
    input that finds the buffer empty sleeps; [wakes] lists what happens during its
    sleeps: characters are typed, and then the reader is woken by the keyboard
    interrupt or by a signal to die.  An exhausted list is a reader that is killed. *)

From S2P Require Import Prelude CString Iobuf Vfs File FileInv.

Inductive dev_kind := Dstdin | Dstdout | Ddisk0.

(** [struct device]; the kind stands for the four pointers to functions. *)
Record device := mkDevice { d_blocks : Z; d_blocksize : Z; d_kind : dev_kind }.

Inductive wake := Kbd (typed : list Z) | Interrupted (typed : list Z).

Record dev_state := mkDev {
  devs : gmap ptr device;       (* the device of an inode *)
  stdin_buffer : list Z;
  p_rpos : Z;
  p_wpos : Z;
  wakes : list wake;
  console : list Z;             (* what was written by cputchar *)
  disk : gmap Z Z;              (* the bytes of disk0, 0 where absent *)
  disk_secs : option Z;         (* its size in sectors; none: no such drive *)
  disk_ok : bool;               (* the controller reports no error *)
  disk0_buffer : ptr
}.

Definition set_devs d x := mkDev d (stdin_buffer x) (p_rpos x) (p_wpos x) (wakes x) (console x) (disk x) (disk_secs x) (disk_ok x) (disk0_buffer x).
Definition set_stdin b r w x := mkDev (devs x) b r w (wakes x) (console x) (disk x) (disk_secs x) (disk_ok x) (disk0_buffer x).
Definition set_wakes ws x := mkDev (devs x) (stdin_buffer x) (p_rpos x) (p_wpos x) ws (console x) (disk x) (disk_secs x) (disk_ok x) (disk0_buffer x).
Definition set_console c x := mkDev (devs x) (stdin_buffer x) (p_rpos x) (p_wpos x) (wakes x) c (disk x) (disk_secs x) (disk_ok x) (disk0_buffer x).
Definition set_disk d x := mkDev (devs x) (stdin_buffer x) (p_rpos x) (p_wpos x) (wakes x) (console x) d (disk_secs x) (disk_ok x) (disk0_buffer x).
Definition set_disk0_buffer b x := mkDev (devs x) (stdin_buffer x) (p_rpos x) (p_wpos x) (wakes x) (console x) (disk x) (disk_secs x) (disk_ok x) b.

Notation dstate := (vstate dev_state).

(** ** dev_stdin.c *)

Definition STDIN_BUFSIZE : Z := 4096.

Definition dev_stdin_write (c : Z) (x : dev_state) : dev_state :=
  if c =? 0 then x else
  let b := <[Z.to_nat (Z.rem (p_wpos x) STDIN_BUFSIZE) := c]> (stdin_buffer x) in
  set_stdin b (p_rpos x) (if i32 (p_wpos x - p_rpos x) <? STDIN_BUFSIZE then i32 (p_wpos x + 1) else p_wpos x) x.

Definition type_all (cs : list Z) (x : dev_state) : dev_state := fold_left (λ x c, dev_stdin_write c x) cs x.

(** [n] bounds the rounds of the loop: one for each character and one for each sleep. *)
Fixpoint dev_stdin_read_loop (n : nat) (ret buf len : Z) (m : mem) (x : dev_state) : res (Z * mem * dev_state) :=
  match n with
  | O => NoFuel
  | S n =>
      if negb (u32 ret <? len) then Ok (ret, m, x)
      else if p_rpos x <? p_wpos x then
        let! c := deref (stdin_buffer x !! Z.to_nat (Z.rem (p_rpos x) STDIN_BUFSIZE)) in
        let! m := st m buf c in
        dev_stdin_read_loop n (ret + 1) (buf + 1) len m (set_stdin (stdin_buffer x) (i32 (p_rpos x + 1)) (p_wpos x) x)
      else
        match wakes x with
        | Kbd cs :: ws => dev_stdin_read_loop n ret buf len m (type_all cs (set_wakes ws x))
        | Interrupted cs :: ws => Ok (ret, m, type_all cs (set_wakes ws x))
        | [] => Ok (ret, m, x)
        end
  end.

Definition dev_stdin_read (buf len : Z) (s : dstate) : res (Z * dstate) :=
  let! (ret, m, x) := dev_stdin_read_loop (S (Z.to_nat len + length (wakes (priv s)))) 0 buf len (bytes s) (priv s) in
  Ok (ret, set_priv x (set_bytes m s)).

Definition stdin_open (flags : Z) : Z := if flags =? O_RDONLY then 0 else - E_INVAL.
Definition stdin_close : Z := 0.

(** The iobuf keeps its base and offset. *)
Definition stdin_io (iob : iobuf) (write : bool) (s : dstate) : res (Z * iobuf * dstate) :=
  if write then Ok (- E_INVAL, iob, s) else
  let! (ret, s) := dev_stdin_read (io_base iob) (io_resid iob) s in
  Ok (ret, if 0 <? ret then mkIobuf (io_base iob) (io_offset iob) (io_len iob) (u32 (io_resid iob - ret)) else iob, s).

Definition stdin_device_init (p : ptr) (s : dstate) : dstate :=
  set_priv (set_stdin (stdin_buffer (priv s)) 0 0 (set_devs (<[p := mkDevice 0 1 Dstdin]> (devs (priv s))) (priv s))) s.

(** ** dev_stdout.c *)

Definition stdout_open (flags : Z) : Z := if flags =? O_WRONLY then 0 else - E_INVAL.
Definition stdout_close : Z := 0.

Fixpoint out_chars (n : nat) (data : Z) (m : mem) (out : list Z) : res (list Z) :=
  match n with
  | O => Ok out
  | S n => let! c := ld m data in out_chars n (data + 1) m (out ++ [c])
  end.

Definition stdout_io (iob : iobuf) (write : bool) (s : dstate) : res (Z * iobuf * dstate) :=
  if write then
    let! out := out_chars (Z.to_nat (io_resid iob)) (io_base iob) (bytes s) (console (priv s)) in
    Ok (0, mkIobuf (io_base iob) (io_offset iob) (io_len iob) 0, set_priv (set_console out (priv s)) s)
  else Ok (- E_INVAL, iob, s).

Definition stdout_device_init (p : ptr) (s : dstate) : dstate :=
  set_priv (set_devs (<[p := mkDevice 0 1 Dstdout]> (devs (priv s))) (priv s)) s.

(** ** dev_disk0.c; the transfers of driver/ide.c *)

Definition SECTSIZE : Z := 512.
Definition MAX_NSECS : Z := 128.
Definition MAX_DISK_NSECS : Z := 0x10000000.
Definition DISK0_BLKSIZE : Z := 4096.
Definition DISK0_BUFSIZE : Z := 4 * DISK0_BLKSIZE.
Definition DISK0_BLK_NSECT : Z := DISK0_BLKSIZE / SECTSIZE.

Definition disk_byte (x : dev_state) (a : Z) : Z := default 0 (disk x !! a).

Fixpoint insl (n : nat) (a dst : Z) (x : dev_state) (m : mem) : res mem :=
  match n with
  | O => Ok m
  | S n => let! m := st m dst (disk_byte x a) in insl n (a + 1) (dst + 1) x m
  end.

Fixpoint outsl (n : nat) (a src : Z) (m : mem) (d : gmap Z Z) : res (gmap Z Z) :=
  match n with
  | O => Ok d
  | S n => let! v := ld m src in outsl n (a + 1) (src + 1) m (<[a := v]> d)
  end.

Definition secs_ok (secno nsecs : Z) : bool :=
  (nsecs <=? MAX_NSECS) && (secno <? MAX_DISK_NSECS) && (u32 (secno + nsecs) <=? MAX_DISK_NSECS).

Definition ide_read_secs (secno dst nsecs : Z) (s : dstate) : res (Z * dstate) :=
  assert! secs_ok secno nsecs ;;
  if negb (disk_ok (priv s)) && (0 <? nsecs) then Ok (-1, s) else
  let! m := insl (Z.to_nat (nsecs * SECTSIZE)) (secno * SECTSIZE) dst (priv s) (bytes s) in
  Ok (0, set_bytes m s).

Definition ide_write_secs (secno src nsecs : Z) (s : dstate) : res (Z * dstate) :=
  assert! secs_ok secno nsecs ;;
  if negb (disk_ok (priv s)) && (0 <? nsecs) then Ok (-1, s) else
  let! d := outsl (Z.to_nat (nsecs * SECTSIZE)) (secno * SECTSIZE) src (bytes s) (disk (priv s)) in
  Ok (0, set_priv (set_disk d (priv s)) s).

Definition disk0_open : Z := 0.
Definition disk0_close : Z := 0.

Definition disk0_read_blks_nolock (blkno nblks : Z) (s : dstate) : res dstate :=
  let! (ret, s) := ide_read_secs (u32 (blkno * DISK0_BLK_NSECT)) (disk0_buffer (priv s)) (u32 (nblks * DISK0_BLK_NSECT)) s in
  assert! ret =? 0 ;; Ok s.

Definition disk0_write_blks_nolock (blkno nblks : Z) (s : dstate) : res dstate :=
  let! (ret, s) := ide_write_secs (u32 (blkno * DISK0_BLK_NSECT)) (disk0_buffer (priv s)) (u32 (nblks * DISK0_BLK_NSECT)) s in
  assert! ret =? 0 ;; Ok s.

(** Each round moves at least one block, so [resid / DISK0_BLKSIZE] rounds are enough. *)
Fixpoint disk0_loop (n : nat) (resid blkno : Z) (iob : iobuf) (write : bool) (s : dstate) : res (iobuf * dstate) :=
  if resid =? 0 then Ok (iob, s) else
  match n with
  | O => NoFuel
  | S n =>
      let! (copied, nblks, iob, s) :=
        if write then
          let! (_, copied, iob, m) := iobuf_move (bytes s) iob (disk0_buffer (priv s)) DISK0_BUFSIZE false in
          let s := set_bytes m s in
          assert! negb (copied =? 0) && (copied <=? resid) && (copied mod DISK0_BLKSIZE =? 0) ;;
          let nblks := copied / DISK0_BLKSIZE in
          let! s := disk0_write_blks_nolock blkno nblks s in Ok (copied, nblks, iob, s)
        else
          let alen := if resid <? DISK0_BUFSIZE then resid else DISK0_BUFSIZE in
          let nblks := alen / DISK0_BLKSIZE in
          let! s := disk0_read_blks_nolock blkno nblks s in
          let! (_, copied, iob, m) := iobuf_move (bytes s) iob (disk0_buffer (priv s)) alen true in
          let s := set_bytes m s in
          assert! (copied =? alen) && (copied mod DISK0_BLKSIZE =? 0) ;; Ok (copied, nblks, iob, s) in
      disk0_loop n (u32 (resid - copied)) (u32 (blkno + nblks)) iob write s
  end.

Definition disk0_io (d : device) (iob : iobuf) (write : bool) (s : dstate) : res (Z * iobuf * dstate) :=
  let offset := io_offset iob in
  let resid := io_resid iob in
  let blkno := u32 (Z.quot offset DISK0_BLKSIZE) in
  let nblks := resid / DISK0_BLKSIZE in
  if negb (Z.rem offset DISK0_BLKSIZE =? 0) || negb (resid mod DISK0_BLKSIZE =? 0) then Ok (- E_INVAL, iob, s)
  else if d_blocks d <? u32 (blkno + nblks) then Ok (- E_INVAL, iob, s)
  else if nblks =? 0 then Ok (0, iob, s)
  else let! (iob, s) := disk0_loop (Z.to_nat nblks) resid blkno iob write s in Ok (0, iob, s).

(** [buf] is what [kmalloc] returns for the transfer buffer. *)
Definition disk0_device_init (buf : option ptr) (p : ptr) (s : dstate) : res dstate :=
  match disk_secs (priv s), buf with
  | Some secs, Some b =>
      let d := mkDevice (secs / DISK0_BLK_NSECT) DISK0_BLKSIZE Ddisk0 in
      Ok (set_priv (set_disk0_buffer b (set_devs (<[p := d]> (devs (priv s))) (priv s))) s)
  | _, _ => Panicked
  end.

(** ** dev.c *)

Definition dop_open (d : device) (flags : Z) : Z :=
  match d_kind d with Dstdin => stdin_open flags | Dstdout => stdout_open flags | Ddisk0 => disk0_open end.
Definition dop_close (d : device) : Z :=
  match d_kind d with Dstdin => stdin_close | Dstdout => stdout_close | Ddisk0 => disk0_close end.
Definition dop_io (d : device) (iob : iobuf) (write : bool) (s : dstate) : res (Z * iobuf * dstate) :=
  match d_kind d with Dstdin => stdin_io iob write s | Dstdout => stdout_io iob write s | Ddisk0 => disk0_io d iob write s end.

(** [vop_info(node, device)] *)
Definition vop_info (p : ptr) (s : dstate) : res device :=
  let! n := get_inode s p in
  assert! in_type n =? inode_type_device_info ;; deref (devs (priv s) !! p).

Definition dev_open (p : ptr) (flags : Z) (s : dstate) : res (Z * dstate) :=
  if has_bit flags (Z.lor O_CREAT (Z.lor O_TRUNC (Z.lor O_EXCL O_APPEND))) then Ok (- E_INVAL, s) else
  let! d := vop_info p s in Ok (dop_open d flags, s).

Definition dev_close (p : ptr) (s : dstate) : res (Z * dstate) :=
  let! d := vop_info p s in Ok (dop_close d, s).

Definition dev_read (p : ptr) (iob : iobuf) (s : dstate) : res (Z * iobuf * dstate) :=
  let! d := vop_info p s in dop_io d iob false s.

Definition dev_write (p : ptr) (iob : iobuf) (s : dstate) : res (Z * iobuf * dstate) :=
  let! d := vop_info p s in dop_io d iob true s.

Definition S_IFCHR : Z := 0x4000.
Definition S_IFBLK : Z := 0x5000.

Definition dev_gettype (p : ptr) (s : dstate) : res (Z * Z * dstate) :=
  let! d := vop_info p s in Ok (0, if 0 <? d_blocks d then S_IFBLK else S_IFCHR, s).

Definition dev_tryseek (p : ptr) (pos : Z) (s : dstate) : res (Z * dstate) :=
  let! d := vop_info p s in
  Ok (if (0 <? d_blocks d) && (u32 pos mod d_blocksize d =? 0) && (0 <=? pos) && (u32 pos <? u32 (d_blocks d * d_blocksize d))
      then 0 else - E_INVAL, s).

Definition dev_lookup (p : ptr) (path : list Z) (s : dstate) : res (Z * option ptr * dstate) :=
  if decide (path ≠ []) then Ok (- E_NOENT, None, s) else
  let! (_, s) := inode_ref_inc p s in Ok (0, Some p, s).

(** The table without [vop_fstat], through which [dev_fstat] finds [dev_gettype]. *)
Definition dev_node_ops_base (fstat : option (ptr → dstate → res (Z * stat * dstate))) : inode_ops dstate :=
  {| vop_magic := VOP_MAGIC; vop_open := Some dev_open; vop_close := Some dev_close; vop_read := Some dev_read;
     vop_write := Some dev_write; vop_fstat := fstat; vop_fsync := None; vop_namefile := None;
     vop_getdirentry := None; vop_reclaim := None; vop_gettype := Some dev_gettype;
     vop_tryseek := Some dev_tryseek; vop_truncate := None; vop_create := None; vop_lookup := Some dev_lookup |}.

Definition DEV_OPS : ptr := 0xDE0.

(** A kernel with device inodes only: there is no [struct fs]. *)
Definition impl_of (o : inode_ops dstate) : vfs_impl dev_state :=
  {| ops_at := λ a, if a =? DEV_OPS then Some o else None; fsop_get_root := λ _ _, Faulted;
     fsop_sync := λ _ _, Faulted; fsop_unmount := λ _ _, Faulted; fsop_cleanup := λ _ _, Faulted |}.

Definition dev_fstat (p : ptr) (s : dstate) : res (Z * stat * dstate) :=
  let! (q, f) := @vop_op _ (impl_of (dev_node_ops_base None)) _ vop_gettype (Some p) s in
  let! (ret, mode, s) := f q s in
  if decide (ret ≠ 0) then Ok (ret, mkStat mode 0 0 0, s) else
  let! d := vop_info p s in
  Ok (0, mkStat mode 1 (d_blocks d) (u32 (d_blocks d * d_blocksize d)), s).

Definition dev_node_ops : inode_ops dstate := dev_node_ops_base (Some dev_fstat).
#[export] Instance dev_impl : vfs_impl dev_state := impl_of dev_node_ops.

Definition dev_create_inode (new : option ptr) (s : dstate) : res (option ptr * dstate) :=
  let '(n, s) := __alloc_inode new inode_type_device_info s in
  match n with
  | None => Ok (None, s)
  | Some p => let! s := inode_init p DEV_OPS None s in Ok (Some p, s)
  end.

Definition name_stdin : list Z := [115; 116; 100; 105; 110].
Definition name_stdout : list Z := [115; 116; 100; 111; 117; 116].
Definition name_disk0 : list Z := [100; 105; 115; 107; 48].

(** [dev_init_##x]: an inode, the device behind it, an entry of the list of devices. *)
Definition init_device (name : list Z) (mnt mem_ok : bool) (init : ptr → dstate → res dstate) (new : option ptr) (s : dstate) : res dstate :=
  let! (n, s) := dev_create_inode new s in
  match n with
  | None => Panicked
  | Some p =>
      let! s := init p s in
      let! (ret, s) := vfs_add_dev mem_ok name (Some p) mnt s in
      assert! ret =? 0 ;; Ok s
  end.

Definition dev_init_stdin (mem_ok : bool) (new : option ptr) (s : dstate) : res dstate :=
  init_device name_stdin false mem_ok (λ p s, Ok (stdin_device_init p s)) new s.
Definition dev_init_stdout (mem_ok : bool) (new : option ptr) (s : dstate) : res dstate :=
  init_device name_stdout false mem_ok (λ p s, Ok (stdout_device_init p s)) new s.
Definition dev_init_disk0 (mem_ok : bool) (buf new : option ptr) (s : dstate) : res dstate :=
  init_device name_disk0 true mem_ok (disk0_device_init buf) new s.

Definition dev_init (mem_ok : bool) (n1 n2 n3 buf : option ptr) (s : dstate) : res dstate :=
  let! s := dev_init_stdin mem_ok n1 s in
  let! s := dev_init_stdout mem_ok n2 s in
  dev_init_disk0 mem_ok buf n3 s.
