(* ===== verification/DevInv.v ===== *)
(** * Devices: the keyboard buffer is a queue, and the laws of the table *)

From S2P Require Import Prelude CString Iobuf Vfs File FileInv Dev.

(** ** The ring buffer *)

(** The characters between the two positions, oldest first. *)
Definition queue (x : dev_state) : list Z :=
  (λ p, default 0 (stdin_buffer x !! Z.to_nat (p mod STDIN_BUFSIZE))) <$> seqZ (p_rpos x) (p_wpos x - p_rpos x).

Record stdin_ok (x : dev_state) : Prop := {
  stdin_length : length (stdin_buffer x) = Z.to_nat STDIN_BUFSIZE;
  stdin_pos : 0 ≤ p_rpos x ≤ p_wpos x;
  stdin_fits : p_wpos x - p_rpos x ≤ STDIN_BUFSIZE
}.

Lemma queue_length x : stdin_ok x → Z.of_nat (length (queue x)) = p_wpos x - p_rpos x.
Proof. intros [? ? ?]. unfold queue. rewrite length_fmap, length_seqZ. lia. Qed.

Lemma mod_inj p q : 0 ≤ p < q → q < p + STDIN_BUFSIZE → p mod STDIN_BUFSIZE ≠ q mod STDIN_BUFSIZE.
Proof. unfold STDIN_BUFSIZE. intros. intros E. rewrite !Z.mod_eq in E by lia. lia. Qed.

Lemma slot_insert x c p q :
  stdin_ok x → 0 ≤ p → 0 ≤ q →
  default 0 (<[Z.to_nat (q mod STDIN_BUFSIZE) := c]> (stdin_buffer x) !! Z.to_nat (p mod STDIN_BUFSIZE)) =
  if decide (p mod STDIN_BUFSIZE = q mod STDIN_BUFSIZE) then c else default 0 (stdin_buffer x !! Z.to_nat (p mod STDIN_BUFSIZE)).
Proof.
  intros [Hl _ _] Hp Hq. pose proof (Z.mod_pos_bound p STDIN_BUFSIZE ltac:(done)). pose proof (Z.mod_pos_bound q STDIN_BUFSIZE ltac:(done)).
  case_decide as Hd; [rewrite Hd, list_lookup_insert_eq by lia|rewrite list_lookup_insert_ne by lia]; done.
Qed.

(** A character goes to the end of the queue; when the buffer is full it replaces the
    oldest one. *)
Lemma dev_stdin_write_queue x c :
  stdin_ok x → c ≠ 0 → p_wpos x < 2 ^ 31 - 1 →
  stdin_ok (dev_stdin_write c x) ∧
  queue (dev_stdin_write c x) =
    (if p_wpos x - p_rpos x <? STDIN_BUFSIZE then queue x ++ [c] else c :: tail (queue x)) ∧
  p_wpos (dev_stdin_write c x) = p_wpos x + b2z (p_wpos x - p_rpos x <? STDIN_BUFSIZE) ∧
  p_rpos (dev_stdin_write c x) = p_rpos x ∧ wakes (dev_stdin_write c x) = wakes x.
Proof.
  intros Hok Hc Hw. pose proof Hok as [Hl Hp Hf]. unfold dev_stdin_write. apply Z.eqb_neq in Hc as ->.
  rewrite Z.rem_mod_nonneg by (done || lia). rewrite (i32_small (p_wpos x - p_rpos x)) by (unfold STDIN_BUFSIZE in *; lia).
  destruct (Z.ltb_spec (p_wpos x - p_rpos x) STDIN_BUFSIZE) as [Hlt|Hge].
  - rewrite i32_small by lia. split_and!; [split; cbn; [by rewrite length_insert|lia|lia]| |cbn; lia|done|done].
    unfold queue. cbn [set_stdin p_rpos p_wpos stdin_buffer].
    replace (p_wpos x + 1 - p_rpos x) with ((p_wpos x - p_rpos x) + 1) by lia.
    rewrite seqZ_app by lia. rewrite fmap_app. f_equal.
    + apply list_fmap_ext. intros i p Hi%list_elem_of_lookup_2%elem_of_seqZ. cbv beta. rewrite slot_insert by (done || lia).
      rewrite decide_False; [done|]. apply mod_inj; lia.
    + replace (p_rpos x + (p_wpos x - p_rpos x)) with (p_wpos x) by lia. change (seqZ (p_wpos x) 1) with [p_wpos x]. cbn [fmap list_fmap]. f_equal.
      rewrite slot_insert by (done || lia). by rewrite decide_True.
  - assert (p_wpos x = p_rpos x + STDIN_BUFSIZE) as Hw' by lia.
    split_and!; [split; cbn; [by rewrite length_insert|lia|lia]| |cbn; lia|done|done].
    unfold queue. cbn [set_stdin p_rpos p_wpos stdin_buffer].
    rewrite seqZ_cons by (unfold STDIN_BUFSIZE in *; lia). cbn [fmap list_fmap tail]. f_equal.
    + rewrite slot_insert by (done || lia). rewrite decide_True; [done|]. rewrite Hw'.
      unfold STDIN_BUFSIZE. replace (p_rpos x + 4096) with (p_rpos x + 1 * 4096) by lia. by rewrite Z_mod_plus_full.
    + apply list_fmap_ext. intros i p Hi%list_elem_of_lookup_2%elem_of_seqZ. cbv beta. rewrite slot_insert by (done || lia).
      rewrite decide_False; [done|]. apply mod_inj; lia.
Qed.

(** The characters that reach the buffer. *)
Definition typed (cs : list Z) : list Z := filter (λ c, c ≠ 0) cs.

Lemma type_all_queue cs x :
  stdin_ok x → Z.of_nat (length cs) + (p_wpos x - p_rpos x) ≤ STDIN_BUFSIZE → p_wpos x + Z.of_nat (length cs) < 2 ^ 31 →
  stdin_ok (type_all cs x) ∧ queue (type_all cs x) = queue x ++ typed cs ∧
  p_wpos (type_all cs x) ≤ p_wpos x + Z.of_nat (length cs) ∧ p_rpos (type_all cs x) = p_rpos x ∧
  wakes (type_all cs x) = wakes x.
Proof.
  revert x. induction cs as [|c cs IH]; intros x Hok Hn Hw; cbn [type_all fold_left length] in *.
  { unfold typed. rewrite filter_nil, app_nil_r. split_and!; [done|done|lia|done|done]. }
  fold (type_all cs (dev_stdin_write c x)). destruct (decide (c = 0)) as [->|Hc].
  - change (dev_stdin_write 0 x) with x. destruct (IH x) as (? & Hq & ? & ? & ?); [done|lia|lia|].
    unfold typed. rewrite filter_cons_False by auto. split_and!; [done|done|lia|done|done].
  - destruct (dev_stdin_write_queue x c) as (Hok' & Hq & Hp & Hr & Hws); [done|done|lia|].
    rewrite (proj2 (Z.ltb_lt _ _)) in Hq, Hp by lia. cbn [b2z] in Hp.
    destruct (IH (dev_stdin_write c x)) as (? & Hq' & ? & ? & ?); [done|rewrite Hp, Hr; lia|lia|].
    unfold typed. rewrite filter_cons_True by done. split_and!; [done| |lia|congruence|congruence].
    by rewrite Hq', Hq, <- app_assoc.
Qed.

Definition chars (w : wake) : list Z := match w with Kbd cs | Interrupted cs => cs end.
Definition typed_in (ws : list wake) : list Z := mjoin (chars <$> ws).

(** Nobody types more than a buffer while the reader sleeps, and the positions do not
    overflow. *)
Definition typing_ok (x : dev_state) : Prop :=
  Forall (λ w, Z.of_nat (length (chars w)) ≤ STDIN_BUFSIZE) (wakes x) ∧
  p_wpos x + Z.of_nat (length (typed_in (wakes x))) < 2 ^ 31.

Lemma typed_in_cons w ws : typed_in (w :: ws) = chars w ++ typed_in ws.
Proof. done. Qed.

Lemma typed_app cs cs' : typed (cs ++ cs') = typed cs ++ typed cs'.
Proof. apply filter_app. Qed.

Lemma queue_nil x : stdin_ok x → p_wpos x ≤ p_rpos x → queue x = [].
Proof. intros [? ? ?] Hp. unfold queue. by rewrite seqZ_nil by lia. Qed.

(** Taking the oldest character. *)
Lemma queue_pop x c :
  stdin_ok x → p_rpos x < p_wpos x → p_wpos x < 2 ^ 31 → stdin_buffer x !! Z.to_nat (Z.rem (p_rpos x) STDIN_BUFSIZE) = Some c →
  let x' := set_stdin (stdin_buffer x) (i32 (p_rpos x + 1)) (p_wpos x) x in
  stdin_ok x' ∧ queue x = c :: queue x'.
Proof.
  intros [Hl Hp Hf] Hlt Hw Hc. cbv zeta. rewrite i32_small by lia. split; [split; cbn; [done|lia|lia]|].
  unfold queue. cbn [set_stdin p_rpos p_wpos stdin_buffer]. rewrite seqZ_cons by lia. cbn [fmap list_fmap].
  rewrite Z.rem_mod_nonneg in Hc by (done || lia). rewrite Hc. cbn [default]. f_equal.
  by replace (Z.pred (p_wpos x - p_rpos x)) with (p_wpos x - (p_rpos x + 1)) by lia.
Qed.

(** What the loop does from any of its rounds on. *)
Lemma read_loop_spec n ret buf len m x :
  stdin_ok x → typing_ok x → mapped m buf (len - ret) → 0 ≤ ret ≤ len → len < 2 ^ 31 →
  (Z.to_nat (len - ret) + length (wakes x) < n)%nat →
  ∃ l k m' x', dev_stdin_read_loop n ret buf len m x = Ok (ret + Z.of_nat (length l), m', x') ∧
    ret + Z.of_nat (length l) ≤ len ∧ updated m m' buf l ∧ stdin_ok x' ∧ wakes x' = drop k (wakes x) ∧
    l ++ queue x' = queue x ++ typed (typed_in (take k (wakes x))) ∧
    (ret + Z.of_nat (length l) < len → wakes x' = [] ∨ ∃ cs, last (take k (wakes x)) = Some (Interrupted cs)).
Proof.
  revert ret buf m x. induction n as [|n IH]; intros ret buf m x Hok Hty Hm Hret Hlen Hn; [lia|]. cbn [dev_stdin_read_loop].
  rewrite u32_small by lia. destruct (Z.ltb_spec ret len) as [Hlt|]; cbn [negb].
  2:{ exists [], 0%nat, m, x. cbn. rewrite Z.add_0_r. split_and!; [done|lia|apply updated_nil|done|by rewrite drop_0| |lia].
      unfold typed, typed_in. cbn. by rewrite app_nil_r. }
  destruct Hty as [Hty Hsum]. pose proof Hok as [Hl Hp Hf].
  destruct (Z.ltb_spec (p_rpos x) (p_wpos x)) as [Hav|Hemp].
  - destruct (lookup_lt_is_Some_2 (stdin_buffer x) (Z.to_nat (Z.rem (p_rpos x) STDIN_BUFSIZE))) as [c Hc].
    { rewrite Hl. rewrite Z.rem_mod_nonneg by (done || lia). pose proof (Z.mod_pos_bound (p_rpos x) STDIN_BUFSIZE ltac:(done)). lia. }
    rewrite Hc. cbn [deref bind]. rewrite st_ok by (apply Hm; lia). cbn [bind].
    destruct (queue_pop x c) as [Hok' Hq]; [done|lia|lia|done|].
    destruct (IH (ret + 1) (buf + 1) (<[buf := c]> m) (set_stdin (stdin_buffer x) (i32 (p_rpos x + 1)) (p_wpos x) x))
      as (l & k & m' & x' & Hrun & Hle & Hu & Hok2 & Hws & Hcat & Hshort); [done|by split| |lia|lia|cbn; lia|].
    { apply mapped_insert. intros a Ha. apply Hm. lia. }
    exists (c :: l), k, m', x'. cbn [length] in *. cbn [set_stdin wakes] in *.
    replace (ret + Z.of_nat (S (length l))) with (ret + 1 + Z.of_nat (length l)) by lia.
    split_and!; [done|done|by apply updated_insert_head|done|done| |done].
    cbn [app]. by rewrite Hcat, Hq.
  - assert (queue x = []) as Hq0 by (apply queue_nil; [done|lia]).
    destruct (wakes x) as [|w ws] eqn:Ews.
    + exists [], 0%nat, m, x. cbn. rewrite Z.add_0_r. split_and!; [done|lia|apply updated_nil|done|done| |auto].
      unfold typed, typed_in. cbn. by rewrite app_nil_r.
    + apply Forall_cons in Hty as [Hw Hty].
      assert (Z.of_nat (length (typed_in (w :: ws))) = Z.of_nat (length (chars w)) + Z.of_nat (length (typed_in ws))) as Hlen2.
      { rewrite typed_in_cons, length_app. lia. }
      destruct (type_all_queue (chars w) (set_wakes ws x)) as (Hok' & Hq & Hpw & Hpr & Hws'); [by split|cbn; lia|cbn; lia|].
      cbn [set_wakes p_wpos p_rpos wakes] in *.
      assert (queue (type_all (chars w) (set_wakes ws x)) = typed (chars w)) as Hq'.
      { rewrite Hq. by change (queue (set_wakes ws x)) with (queue x); rewrite Hq0. }
      destruct w as [cs|cs]; cbn [chars] in *.
      * destruct (IH ret buf m (type_all cs (set_wakes ws x)))
          as (l & k & m' & x' & Hrun & Hle & Hu & Hok2 & Hws & Hcat & Hshort); [done| |done|done|done| |].
        { split; [by rewrite Hws'|]. rewrite Hws'. lia. }
        { rewrite Hws'. cbn [length] in Hn. lia. }
        exists l, (S k), m', x'. rewrite Hws' in *. split_and!; [done|done|done|done|done| |].
        -- rewrite Hcat, Hq', Hq0. cbn [take app]. by rewrite typed_in_cons, typed_app.
        -- intros Hs. destruct (Hshort Hs) as [|[cs' Hcs']]; [by left|right]. exists cs'. cbn [take]. rewrite last_cons. by rewrite Hcs'.
      * exists [], 1%nat, m, (type_all cs (set_wakes ws x)). rewrite Hws'. cbn [length]. rewrite Z.add_0_r.
        split_and!; [done|lia|apply updated_nil|done|done| |].
        -- cbn [app take]. rewrite Hq', Hq0. rewrite typed_in_cons. cbn. by rewrite app_nil_r.
        -- intros _. right. by exists cs.
Qed.


(** ** The laws *)

Lemma read_loop_ends n ret buf len m x :
  0 ≤ ret ≤ len → is_u32 len → (Z.to_nat (len - ret) + length (wakes x) < n)%nat →
  yields (λ _, True) (dev_stdin_read_loop n ret buf len m x).
Proof.
  intros Hret [_ Hlen]. revert ret buf m x Hret. induction n as [|n IH]; intros ret buf m x Hret Hn; [lia|]. cbn [dev_stdin_read_loop].
  rewrite u32_small by lia. destruct (Z.ltb_spec ret len) as [Hlt|]; cbn [negb]; [|done].
  destruct (p_rpos x <? p_wpos x).
  - apply yields_any; [apply deref_fuel|]. intros c. apply yields_any; [apply st_fuel|]. intros m'. apply IH; [lia|]. cbn. lia.
  - destruct (wakes x) as [|[cs|cs] ws] eqn:Ews; [done| |done]. apply IH; [lia|].
    assert (∀ y, wakes (type_all cs y) = wakes y) as ->.
    { clear. unfold type_all. induction cs as [|c cs IH]; intros y; [done|]. cbn [fold_left]. rewrite IH. unfold dev_stdin_write.
      by destruct (c =? 0). }
    cbn [set_wakes wakes length] in *. lia.
Qed.

Lemma out_chars_fuel n data m out : out_chars n data m out ≠ NoFuel.
Proof.
  revert data out. induction n as [|n IH]; intros data out; [done|]. cbn. unfold ld. by destruct (m !! data); cbn.
Qed.

Lemma insl_fuel n a dst x m : insl n a dst x m ≠ NoFuel.
Proof.
  revert a dst m. induction n as [|n IH]; intros a dst m; [done|]. cbn. destruct (st m dst _) eqn:Hs; cbn; [apply IH|done..|].
  by apply st_fuel in Hs.
Qed.

Lemma outsl_fuel n a src m d : outsl n a src m d ≠ NoFuel.
Proof.
  revert a src d. induction n as [|n IH]; intros a src d; [done|]. cbn. unfold ld. by destruct (m !! src); cbn.
Qed.

(** A transfer ends; it copies the smaller of the two sizes. *)
Lemma iobuf_move_yields m iob data len m2b :
  yields (λ '(_, copied, iob', _), copied = Z.min len (io_resid iob) ∧
            (0 ≤ len → is_u32 (io_resid iob) → io_resid iob' = io_resid iob - copied)) (iobuf_move m iob data len m2b).
Proof.
  unfold iobuf_move. cbv zeta.
  assert ((if len <? io_resid iob then len else io_resid iob) = Z.min len (io_resid iob)) as -> by (destruct (Z.ltb_spec len (io_resid iob)); lia).
  eapply (yields_bind (λ '(iob', _, _), 0 ≤ len → is_u32 (io_resid iob) → io_resid iob' = io_resid iob - Z.min len (io_resid iob))).
  - destruct (Z.ltb_spec 0 (Z.min len (io_resid iob))) as [Hpos|Hz]; [|unfold is_u32; cbn; lia].
    destruct m2b; (apply yields_any; [apply memmove_fuel|]; intros [x m']; unfold iobuf_skip;
      destruct (_ <=? _); [|done]; cbn; unfold is_u32; intros; rewrite u32_small; lia).
  - intros [[iob' m'] l] Hi. cbn. auto.
Qed.

Lemma disk_blocks_quiet (op : Z → Z → Z → dstate → res (Z * dstate)) blkno nblks s f :
  (∀ a b n s, yields (λ r, quiet s r.2) (op a b n s)) →
  yields (quiet s) (let! (ret, s) := op (u32 (blkno * f)) (disk0_buffer (priv s)) (u32 (nblks * f)) s in assert! ret =? 0 ;; Ok s).
Proof. intros Hop. eapply yields_bind; [apply Hop|]. intros [r s1] Q. by destruct (r =? 0). Qed.

Lemma ide_read_quiet a b n s : yields (λ r, quiet s r.2) (ide_read_secs a b n s).
Proof.
  unfold ide_read_secs. destruct (secs_ok a n); [|done]. destruct (negb _ && _); [done|].
  apply yields_any; [apply insl_fuel|]. intros m. done.
Qed.

Lemma ide_write_quiet a b n s : yields (λ r, quiet s r.2) (ide_write_secs a b n s).
Proof.
  unfold ide_write_secs. destruct (secs_ok a n); [|done]. destruct (negb _ && _); [done|].
  apply yields_any; [apply outsl_fuel|]. intros m. done.
Qed.

Lemma disk0_loop_quiet n resid blkno iob wr s :
  is_u32 resid → io_resid iob = resid → resid mod DISK0_BLKSIZE = 0 → resid ≤ Z.of_nat n * DISK0_BLKSIZE →
  yields (λ r, quiet s r.2) (disk0_loop n resid blkno iob wr s).
Proof.
  revert resid blkno iob s. induction n as [|n IH]; intros resid blkno iob s Hres Hio Hmod Hn; cbn [disk0_loop].
  all: destruct (Z.eqb_spec resid 0) as [->|Hz]; [done|]. { unfold is_u32 in *. lia. }
  pose proof (Z.div_mod resid DISK0_BLKSIZE ltac:(done)) as Hdm.
  eapply (yields_bind (λ '(copied, _, iob', s'), quiet s s' ∧ 0 < copied ≤ resid ∧ copied mod DISK0_BLKSIZE = 0 ∧ io_resid iob' = resid - copied)).
  - assert (0 < resid) by (unfold is_u32 in *; lia). destruct wr.
    + eapply yields_bind; [apply iobuf_move_yields|]. intros [[[r copied] iob'] m] [Hc Hi]. cbv zeta.
      rewrite Hio in *. specialize (Hi ltac:(done) Hres).
      destruct (negb (copied =? 0) && _ && _) eqn:Ha; [|done].
      apply andb_true_iff in Ha as [Ha Hm%Z.eqb_eq]. apply andb_true_iff in Ha as [Ha Hle%Z.leb_le].
      eapply yields_bind; [apply (disk_blocks_quiet _ _ _ _ _ ide_write_quiet)|]. intros s2 Q2.
      split; [exact Q2|]. unfold DISK0_BUFSIZE in *. split_and!; [lia|lia|done|done].
    + eapply yields_bind; [apply (disk_blocks_quiet _ _ _ _ _ ide_read_quiet)|]. intros s2 Q2.
      eapply yields_bind; [apply iobuf_move_yields|]. intros [[[r copied] iob'] m] [Hc Hi]. cbv zeta.
      destruct ((copied =? _) && _) eqn:Ha; [|done]. apply andb_true_iff in Ha as [_ Hm%Z.eqb_eq].
      rewrite Hio in *. split; [exact Q2|]. unfold DISK0_BUFSIZE, DISK0_BLKSIZE in *.
      destruct (Z.ltb_spec resid (4 * 4096)); (split; [lia|]; split; [done|]; apply Hi; [lia|done]).
  - intros [[[copied nb] iob'] s'] (Q & Hc & Hm & Hi).
    pose proof (Z.div_mod copied DISK0_BLKSIZE ltac:(done)) as Hdm2. unfold is_u32 in Hres.
    assert (DISK0_BLKSIZE ≤ copied) by (unfold DISK0_BLKSIZE in *; lia).
    rewrite u32_small by lia.
    eapply yields_weaken; [apply IH|intros r Qr; by eapply quiet_trans].
    + unfold is_u32. lia.
    + done.
    + rewrite Zminus_mod, Hmod, Hm by done. done.
    + lia.
Qed.

Lemma disk0_io_quiet d iob wr s : is_u32 (io_resid iob) → yields (λ r, quiet s r.2) (disk0_io d iob wr s).
Proof.
  intros Hu. unfold disk0_io. cbv zeta. destruct (negb _ || _) eqn:Hal; [done|]. destruct (d_blocks d <? _); [done|].
  destruct (_ `div` _ =? 0); [done|]. apply orb_false_iff in Hal as [_ Hm%negb_false_iff%Z.eqb_eq].
  eapply yields_bind; [apply disk0_loop_quiet; [done|done|done|]|by intros [iob' s'] Q].
  pose proof (Z.div_mod (io_resid iob) DISK0_BLKSIZE ltac:(done)). unfold is_u32 in Hu.
  rewrite Z2Nat.id by (apply Z.div_pos; [lia|done]). lia.
Qed.

Lemma dop_io_quiet d iob wr s : is_u32 (io_resid iob) → yields (λ r, quiet s r.2) (dop_io d iob wr s).
Proof.
  intros Hu. unfold dop_io. destruct (d_kind d); [| |by apply disk0_io_quiet].
  - unfold stdin_io. destruct wr; [done|]. unfold dev_stdin_read.
    eapply yields_bind; [eapply yields_bind; [apply read_loop_ends; [split; [lia|]|done|]|]|].
    + by destruct Hu.
    + lia.
    + intros [[r m] x] _. instantiate (1 := λ r, quiet s r.2). done.
    + by intros [r s'] Q.
  - unfold stdout_io. destruct wr; [|done]. apply yields_any; [apply out_chars_fuel|]. intros out. done.
Qed.

Lemma vop_info_fuel p s : vop_info p s ≠ NoFuel.
Proof.
  unfold vop_info, get_inode. destruct (inodes s !! p) as [n|]; [|done]. cbn. destruct (_ =? _); [|done].
  apply deref_fuel.
Qed.

Lemma dev_gettype_quiet p s : yields (λ r, quiet s r.2) (dev_gettype p s).
Proof. unfold dev_gettype. apply yields_any; [apply vop_info_fuel|]. intros d. done. Qed.

Lemma dev_fstat_quiet p s : yields (λ r, quiet s r.2) (dev_fstat p s).
Proof.
  unfold dev_fstat. eapply yields_bind; [apply vop_op_found|]. intros [q f] (_ & a & o & Ho & Hf).
  cbn in Ho. destruct (a =? DEV_OPS); [|done]. injection Ho as <-. injection Hf as <-.
  eapply yields_bind; [apply dev_gettype_quiet|]. intros [[ret mode] s1] Q1.
  destruct (decide (ret ≠ 0)); [done|]. apply yields_any; [apply vop_info_fuel|]. intros d. done.
Qed.

Lemma dev_ops_laws : ops_laws dev_node_ops.
Proof.
  split; intros *; cbn; intros Hf; try discriminate Hf; injection Hf as <-.
  - apply quiet_law. unfold dev_open. destruct (has_bit _ _); [done|].
    apply yields_any; [apply vop_info_fuel|]. intros d. done.
  - apply quiet_law. unfold dev_close.
    apply yields_any; [apply vop_info_fuel|]. intros d. done.
  - intros Hu. apply quiet_law. unfold dev_read.
    apply yields_any; [apply vop_info_fuel|]. intros d. by apply dop_io_quiet.
  - intros Hu. apply quiet_law. unfold dev_write.
    apply yields_any; [apply vop_info_fuel|]. intros d. by apply dop_io_quiet.
  - apply quiet_law. apply dev_fstat_quiet.
  - apply quiet_law. apply dev_gettype_quiet.
  - apply quiet_law. unfold dev_tryseek.
    apply yields_any; [apply vop_info_fuel|]. intros d. done.
  - unfold dev_lookup. destruct (decide (path ≠ [])) as [Hne|]; [rewrite ?decide_False by done; apply moved_refl|].
    unfold inode_ref_inc. apply (yields_bind (λ r, moved (one (Some p)) nil s r.2)).
    + eapply yields_bind; [apply get_inode_spec|]. intros nd Hn. cbn.
      eapply moved_ext; [apply (put_inode_moved s p nd _ 1 0); [done|apply eq32_i32|apply eq32_eq; cbn; lia]|].
      intros q. unfold nil. lia.
    + intros [r s'] M. cbn [yields bind]. by rewrite decide_True.
Qed.

#[export] Instance dev_laws : vfs_laws (F := dev_state).
Proof.
  split.
  - intros a o Ho. cbn in Ho. destruct (a =? DEV_OPS); [|done]. injection Ho as <-. apply dev_ops_laws.
  - intros a s. done.
Qed.

(** A reader that finds one character, sleeps once and is woken with two more. *)
Definition reading : dstate :=
  mkV ∅ [] None ∅ 0 (list_to_map ((λ a, (a, 0)) <$> seqZ 1000 16))
    (mkDev ∅ (97 :: replicate 4095 0) 0 1 [Kbd [98; 99]; Interrupted []] [] ∅ None true 0).

