(* ===== verification/SfsDisk.v ===== *)
(** * kern/fs/sfs, first part: the format of the disk and sfs_io.c

    The structures of sfs.h as they lie on the disk, with the functions that read and
    write them as bytes (the machine is little-endian), the class [block_dev] of the
    devices that a file system is mounted on, and the block operations of sfs_io.c.
    A buffer is the list of its bytes, so a function that fills a buffer returns its
    new content.  The transfers poll the controller and never switch to another
    process, so the semaphores of sfs_lock.c are free whenever they are taken, and they
    are not kept. *)

From S2P Require Import Prelude Bitmap.

Abbreviation ptr := Z.

(** ** sfs.h *)

Definition SFS_MAGIC : Z := 0x2f8dbe2a.
Definition SFS_BLKSIZE : Z := 4096.
Definition SFS_NDIRECT : Z := 12.
Definition SFS_MAX_INFO_LEN : Z := 31.
Definition SFS_MAX_FNAME_LEN : Z := 255.
Definition SFS_MAX_FILE_SIZE : Z := 1024 * 1024 * 128.
Definition SFS_BLKN_SUPER : Z := 0.
Definition SFS_BLKN_ROOT : Z := 1.
Definition SFS_BLKN_FREEMAP : Z := 2.
Definition SFS_BLKBITS : Z := SFS_BLKSIZE * 8.
Definition SFS_BLK_NENTRY : Z := SFS_BLKSIZE / 4.

Definition SFS_TYPE_FILE : Z := 1.
Definition SFS_TYPE_DIR : Z := 2.
Definition SFS_TYPE_LINK : Z := 3.

Record sfs_super := mkSuper { sb_magic : Z; sb_blocks : Z; sb_unused_blocks : Z; sb_info : list Z }.

Record sfs_disk_inode := mkDinode {
  di_size : Z;
  di_type : Z;
  di_nlinks : Z;
  di_blocks : Z;
  di_direct : list Z;
  di_indirect : Z
}.

Record sfs_disk_entry := mkEntry { de_ino : Z; de_name : list Z }.

Definition sfs_dentry_size : Z := SFS_MAX_FNAME_LEN + 1.

(** The inode in memory; [din] is an object of its own that nobody else points to. *)
Record sfs_inode := mkSin { din : sfs_disk_inode; si_ino : Z; si_dirty : bool; reclaim_count : Z }.

Definition set_size v d := mkDinode v (di_type d) (di_nlinks d) (di_blocks d) (di_direct d) (di_indirect d).
Definition set_blocks v d := mkDinode (di_size d) (di_type d) (di_nlinks d) v (di_direct d) (di_indirect d).
Definition set_direct v d := mkDinode (di_size d) (di_type d) (di_nlinks d) (di_blocks d) v (di_indirect d).
Definition set_indirect v d := mkDinode (di_size d) (di_type d) (di_nlinks d) (di_blocks d) (di_direct d) v.

Definition set_din d sin := mkSin d (si_ino sin) (si_dirty sin) (reclaim_count sin).
Definition set_dirty b sin := mkSin (din sin) (si_ino sin) b (reclaim_count sin).
Definition set_reclaim_count n sin := mkSin (din sin) (si_ino sin) (si_dirty sin) n.

Definition sfs_freemap_bits (sb : sfs_super) : Z := ROUNDUP_DIV (sb_blocks sb) SFS_BLKBITS * SFS_BLKBITS.
Definition sfs_freemap_blocks (sb : sfs_super) : Z := ROUNDUP_DIV (sb_blocks sb) SFS_BLKBITS.

(** ** The structures as bytes *)

Fixpoint le_bytes (n : nat) (z : Z) : list Z :=
  match n with O => [] | S n => z mod 256 :: le_bytes n (z / 256) end.

Fixpoint le_val (l : list Z) : Z := match l with [] => 0 | b :: l => b + 256 * le_val l end.

(** The number in the [n] bytes at [o]. *)
Definition field (o n : nat) (l : list Z) : Z := le_val (take n (drop o l)).

Definition encode_words (ws : list Z) : list Z := mjoin (le_bytes 4 <$> ws).
Definition decode_words (n : nat) (l : list Z) : list Z := (λ i, field (4 * i) 4 l) <$> seq 0 n.

Definition encode_super (sb : sfs_super) : list Z :=
  le_bytes 4 (sb_magic sb) ++ le_bytes 4 (sb_blocks sb) ++ le_bytes 4 (sb_unused_blocks sb) ++ sb_info sb.
Definition decode_super (l : list Z) : sfs_super := mkSuper (field 0 4 l) (field 4 4 l) (field 8 4 l) (take 32 (drop 12 l)).

Definition DINODE_SIZE : Z := 64.
Definition encode_dinode (d : sfs_disk_inode) : list Z :=
  le_bytes 4 (di_size d) ++ le_bytes 2 (di_type d) ++ le_bytes 2 (di_nlinks d) ++ le_bytes 4 (di_blocks d) ++
  encode_words (di_direct d) ++ le_bytes 4 (di_indirect d).
Definition decode_dinode (l : list Z) : sfs_disk_inode :=
  mkDinode (field 0 4 l) (field 4 2 l) (field 6 2 l) (field 8 4 l) (decode_words 12 (drop 12 l)) (field 60 4 l).

Definition DENTRY_SIZE : Z := 260.
Definition encode_entry (e : sfs_disk_entry) : list Z := le_bytes 4 (de_ino e) ++ de_name e.
Definition decode_entry (l : list Z) : sfs_disk_entry := mkEntry (field 0 4 l) (take 256 (drop 4 l)).

(** The string in an array of characters. *)
Fixpoint c_string (l : list Z) : list Z :=
  match l with [] => [] | c :: l => if c =? 0 then [] else c :: c_string l end.

(** [memcpy] of [data] to offset [o] of an array. *)
Definition patch (o : nat) (data l : list Z) : list Z := take o l ++ data ++ drop (o + length data) l.

Definition zero_block : list Z := replicate 4096 0.
#[global] Arguments zero_block : simpl never.

(** ** Devices *)

(** [dev_blocks] and [dev_blocksize] are the fields of [struct device]; [dev_io d offset buf write] is [dop_io] of an [iobuf] of one block at [offset]: the
    result, the content of the buffer and the device afterwards. *)
Class block_dev (D : Type) := {
  dev_blocks : D → Z;
  dev_blocksize : D → Z;
  dev_io : D → Z → list Z → bool → res (Z * list Z * D)
}.

(** [struct sfs_fs]; the lists link the inodes at the pointers. *)
Record sfs_fs (D : Type) := mkSfs {
  super : sfs_super;
  dev : D;
  freemap : bitmap;
  super_dirty : bool;
  sfs_buffer : list Z;
  inode_list : list ptr;
  hash_list : list (list ptr)
}.
Arguments mkSfs {D}.
Arguments super {D}.
Arguments dev {D}.
Arguments freemap {D}.
Arguments super_dirty {D}.
Arguments sfs_buffer {D}.
Arguments inode_list {D}.
Arguments hash_list {D}.

Section sfs_io.
Context {D : Type} `{block_dev D}.
Implicit Types s : sfs_fs D.

Definition set_super sb s := mkSfs sb (dev s) (freemap s) (super_dirty s) (sfs_buffer s) (inode_list s) (hash_list s).
Definition set_dev (d : D) s := mkSfs (super s) d (freemap s) (super_dirty s) (sfs_buffer s) (inode_list s) (hash_list s).
Definition set_freemap b s := mkSfs (super s) (dev s) b (super_dirty s) (sfs_buffer s) (inode_list s) (hash_list s).
Definition set_super_dirty b s := mkSfs (super s) (dev s) (freemap s) b (sfs_buffer s) (inode_list s) (hash_list s).
Definition set_sfs_buffer l s := mkSfs (super s) (dev s) (freemap s) (super_dirty s) l (inode_list s) (hash_list s).
Definition set_inode_list l s := mkSfs (super s) (dev s) (freemap s) (super_dirty s) (sfs_buffer s) l (hash_list s).
Definition set_hash_list l s := mkSfs (super s) (dev s) (freemap s) (super_dirty s) (sfs_buffer s) (inode_list s) l.

(** ** sfs_io.c *)

(** The offset is computed as a [uint32_t] and passed as a signed [off_t]. *)
Definition sfs_rwblock_nolock s (buf : list Z) (blkno : Z) (write check : bool) : res (Z * list Z * sfs_fs D) :=
  assert! (negb (blkno =? 0) || negb check) && (blkno <? sb_blocks (super s)) ;;
  let! (ret, buf, d) := dev_io (dev s) (i32 (u32 (blkno * SFS_BLKSIZE))) buf write in
  Ok (ret, buf, set_dev d s).

Fixpoint sfs_rwblock (nblks : nat) s (buf : list Z) (blkno : Z) (write : bool) : res (Z * list Z * sfs_fs D) :=
  match nblks with
  | O => Ok (0, buf, s)
  | S nblks =>
      let! (ret, b, s) := sfs_rwblock_nolock s (take 4096 buf) blkno write true in
      if decide (ret ≠ 0) then Ok (ret, b ++ drop 4096 buf, s) else
      let! (ret, r, s) := sfs_rwblock nblks s (drop 4096 buf) (u32 (blkno + 1)) write in
      Ok (ret, b ++ r, s)
  end.

Definition sfs_rblock s buf blkno (nblks : nat) : res (Z * list Z * sfs_fs D) := sfs_rwblock nblks s buf blkno false.
Definition sfs_wblock s buf blkno (nblks : nat) : res (Z * list Z * sfs_fs D) := sfs_rwblock nblks s buf blkno true.

Definition buf_ok (len offset : Z) : bool := (0 <=? offset) && (offset <? SFS_BLKSIZE) && (u32 (offset + len) <=? SFS_BLKSIZE).

Definition sfs_rbuf s (buf : list Z) (len blkno offset : Z) : res (Z * list Z * sfs_fs D) :=
  assert! buf_ok len offset ;;
  let! (ret, b, s) := sfs_rwblock_nolock s (sfs_buffer s) blkno false true in
  let s := set_sfs_buffer b s in
  if decide (ret = 0) then Ok (ret, patch 0 (take (Z.to_nat len) (drop (Z.to_nat offset) b)) buf, s)
  else Ok (ret, buf, s).

Definition sfs_wbuf s (buf : list Z) (len blkno offset : Z) : res (Z * sfs_fs D) :=
  assert! buf_ok len offset ;;
  let! (ret, b, s) := sfs_rwblock_nolock s (sfs_buffer s) blkno false true in
  let s := set_sfs_buffer b s in
  if decide (ret = 0) then
    let! (ret, b, s) := sfs_rwblock_nolock s (patch (Z.to_nat offset) (take (Z.to_nat len) buf) b) blkno true true in
    Ok (ret, set_sfs_buffer b s)
  else Ok (ret, s).

Definition sfs_sync_super s : res (Z * sfs_fs D) :=
  let! (ret, b, s) := sfs_rwblock_nolock s (patch 0 (encode_super (super s)) zero_block) SFS_BLKN_SUPER true false in
  Ok (ret, set_sfs_buffer b s).

(** [bitmap_getdata] gives the words of the map as bytes. *)
Definition sfs_sync_freemap s : res (Z * sfs_fs D) :=
  let nblks := sfs_freemap_blocks (super s) in
  let! (ret, _, s) := sfs_wblock s (encode_words (fst (bitmap_getdata (freemap s)))) SFS_BLKN_FREEMAP (Z.to_nat nblks) in
  Ok (ret, s).

Fixpoint clear_loop (nblks : nat) s (blkno : Z) : res (Z * sfs_fs D) :=
  match nblks with
  | O => Ok (0, s)
  | S nblks =>
      let! (ret, b, s) := sfs_rwblock_nolock s (sfs_buffer s) blkno true true in
      let s := set_sfs_buffer b s in
      if decide (ret ≠ 0) then Ok (ret, s) else clear_loop nblks s (u32 (blkno + 1))
  end.

(** All callers clear one block, so [ret] is set. *)
Definition sfs_clear_block s (blkno : Z) (nblks : nat) : res (Z * sfs_fs D) :=
  clear_loop nblks (set_sfs_buffer zero_block s) blkno.
End sfs_io.

(** ** Numbers and structures as bytes *)

Lemma length_le_bytes n z : length (le_bytes n z) = n.
Proof. revert z. induction n; intros; cbn; auto. Qed.

Lemma le_val_bytes n z : 0 ≤ z < 256 ^ Z.of_nat n → le_val (le_bytes n z) = z.
Proof.
  revert z. induction n as [|n IH]; intros z Hz; cbn [le_bytes le_val].
  { change (256 ^ Z.of_nat 0) with 1 in Hz. lia. }
  rewrite Nat2Z.inj_succ, Z.pow_succ_r in Hz by lia. rewrite IH.
  - pose proof (Z.div_mod z 256). lia.
  - split; [apply Z.div_pos; lia|]. apply Z.div_lt_upper_bound; lia.
Qed.

Definition is_byte (b : Z) : Prop := 0 ≤ b < 256.

Lemma le_bytes_range n z : Forall is_byte (le_bytes n z).
Proof. revert z. induction n; intros z; cbn; constructor; [apply Z.mod_pos_bound; lia|done]. Qed.

Lemma le_bytes_val l : Forall is_byte l → le_bytes (length l) (le_val l) = l.
Proof.
  induction 1 as [|b l Hb Hl IH]; cbn [length le_bytes le_val]; [done|]. unfold is_byte in Hb.
  rewrite (Z.mul_comm 256), Z.mod_add, Z.div_add, (Z.div_small b), Z.mod_small by lia. by rewrite Z.add_0_l, IH.
Qed.

Lemma le_val_range l : Forall is_byte l → 0 ≤ le_val l < 256 ^ Z.of_nat (length l).
Proof.
  induction 1 as [|b l Hb Hl IH]; cbn [length le_val]; [done|]. unfold is_byte in Hb.
  rewrite Nat2Z.inj_succ, Z.pow_succ_r by lia. lia.
Qed.

Lemma field_skip o n l1 l2 : (length l1 ≤ o)%nat → field o n (l1 ++ l2) = field (o - length l1) n l2.
Proof. intros Ho. unfold field. by rewrite drop_app_ge. Qed.

Lemma field_le n z l : 0 ≤ z < 256 ^ Z.of_nat n → field 0 n (le_bytes n z ++ l) = z.
Proof. intros Hz. unfold field. rewrite drop_0, take_app_length', le_val_bytes by (done || by rewrite length_le_bytes). done. Qed.

Lemma field_drop o p n l : field o n (drop p l) = field (p + o) n l.
Proof. unfold field. by rewrite drop_drop. Qed.

Lemma encode_words_cons w ws : encode_words (w :: ws) = le_bytes 4 w ++ encode_words ws.
Proof. done. Qed.

Lemma length_encode_words ws : length (encode_words ws) = (4 * length ws)%nat.
Proof. induction ws as [|w ws IH]; [done|]. rewrite encode_words_cons, length_app, length_le_bytes, IH. cbn. lia. Qed.

Lemma encode_words_app ws1 ws2 : encode_words (ws1 ++ ws2) = encode_words ws1 ++ encode_words ws2.
Proof. unfold encode_words. by rewrite fmap_app, join_app. Qed.

Lemma field_words ws i w l : ws !! i = Some w → is_u32 w → field (4 * i) 4 (encode_words ws ++ l) = w.
Proof.
  intros Hi Hw. rewrite <- (take_drop_middle ws i w Hi), encode_words_app, <- app_assoc.
  assert (length (encode_words (take i ws)) = (4 * i)%nat) as Hlen.
  { rewrite length_encode_words, length_take_le; [done|]. apply lookup_lt_Some in Hi. lia. }
  rewrite field_skip, Hlen, Nat.sub_diag, encode_words_cons by lia. rewrite <- app_assoc. apply field_le. exact Hw.
Qed.

Lemma decode_encode_words ws l : Forall is_u32 ws → decode_words (length ws) (encode_words ws ++ l) = ws.
Proof.
  intros Hws. apply list_eq. intros i. unfold decode_words. rewrite list_lookup_fmap.
  destruct (ws !! i) as [w|] eqn:Hi.
  - pose proof (lookup_lt_Some _ _ _ Hi). rewrite lookup_seq_lt by lia. cbn. f_equal.
    apply (field_words _ i); [done|]. by eapply Forall_lookup_1.
  - apply lookup_ge_None in Hi. by rewrite lookup_seq_ge by lia.
Qed.

#[global] Arguments le_bytes : simpl never.
#[global] Arguments field : simpl never.
#[global] Arguments encode_words : simpl never.

(** What a [struct sfs_disk_inode] can hold. *)
Record dinode_ok (d : sfs_disk_inode) : Prop := {
  dk_size : is_u32 (di_size d);
  dk_type : 0 ≤ di_type d < 2 ^ 16;
  dk_nlinks : 0 ≤ di_nlinks d < 2 ^ 16;
  dk_blocks : is_u32 (di_blocks d);
  dk_direct : Forall is_u32 (di_direct d);
  dk_ndirect : length (di_direct d) = 12%nat;
  dk_indirect : is_u32 (di_indirect d)
}.

Lemma length_encode_dinode d : length (di_direct d) = 12%nat → length (encode_dinode d) = 64%nat.
Proof. intros Hd. unfold encode_dinode. rewrite !length_app, !length_le_bytes, length_encode_words, Hd. done. Qed.

Lemma decode_encode_dinode d l : dinode_ok d → decode_dinode (encode_dinode d ++ l) = d.
Proof.
  intros [Hs Ht Hn Hb Hd Hnd Hi]. destruct d as [sz t n b dir ind]. cbn in *.
  unfold decode_dinode, encode_dinode. cbn [di_size di_type di_nlinks di_blocks di_direct di_indirect].
  rewrite <- !app_assoc.
  assert (∀ k z o m l', (k ≤ o)%nat → field o m (le_bytes k z ++ l') = field (o - k) m l') as Hskip.
  { intros k z o m l' Hk. rewrite field_skip; rewrite length_le_bytes; done. }
  f_equal; rewrite ?Hskip by lia; cbn [Nat.sub].
  - by apply field_le.
  - by apply field_le.
  - by apply field_le.
  - by apply field_le.
  - rewrite drop_app_ge, length_le_bytes by (rewrite length_le_bytes; lia).
    rewrite drop_app_ge, length_le_bytes by (rewrite length_le_bytes; lia).
    rewrite drop_app_ge, length_le_bytes by (rewrite length_le_bytes; lia).
    rewrite drop_app_ge, length_le_bytes by (rewrite length_le_bytes; lia). cbn [Nat.sub]. rewrite drop_0, <- Hnd.
    by apply decode_encode_words.
  - rewrite field_skip, length_encode_words, Hnd by (rewrite length_encode_words, Hnd; lia). by apply field_le.
Qed.

Record super_ok (sb : sfs_super) : Prop := {
  sk_magic : is_u32 (sb_magic sb);
  sk_blocks : is_u32 (sb_blocks sb);
  sk_unused : is_u32 (sb_unused_blocks sb);
  sk_info : length (sb_info sb) = 32%nat
}.

Lemma decode_encode_super sb l : super_ok sb → decode_super (encode_super sb ++ l) = sb.
Proof.
  intros [Hm Hb Hu Hi]. destruct sb as [m b u inf]. cbn in *.
  unfold decode_super, encode_super. cbn [sb_magic sb_blocks sb_unused_blocks sb_info]. rewrite <- !app_assoc.
  assert (∀ k z o n l', (k ≤ o)%nat → field o n (le_bytes k z ++ l') = field (o - k) n l') as Hskip.
  { intros k z o n l' Hk. rewrite field_skip; rewrite length_le_bytes; done. }
  f_equal; rewrite ?Hskip by lia; cbn [Nat.sub]; try by apply field_le.
  do 3 rewrite drop_app_ge, length_le_bytes by (rewrite length_le_bytes; lia). cbn [Nat.sub].
  by rewrite drop_0, take_app_length'.
Qed.

(** ** Patches *)

Lemma length_patch o data l : (o + length data ≤ length l)%nat → length (patch o data l) = length l.
Proof. intros Ho. unfold patch. rewrite !length_app, length_take, length_drop. lia. Qed.

Lemma lookup_patch o data l i : (o + length data ≤ length l)%nat →
  patch o data l !! i = if decide (o ≤ i < o + length data)%nat then data !! (i - o)%nat else l !! i.
Proof.
  intros Ho. unfold patch. assert (length (take o l) = o) as Ht by (rewrite length_take_le; lia).
  destruct (decide (i < o)%nat).
  - rewrite lookup_app_l, lookup_take_lt, decide_False by lia. done.
  - rewrite lookup_app_r, Ht by lia. destruct (decide (i < o + length data)%nat).
    + rewrite lookup_app_l, decide_True by lia. done.
    + rewrite lookup_app_r, lookup_drop, decide_False by lia. f_equal. lia.
Qed.

Lemma patch_whole data l : length data = length l → patch 0 data l = data.
Proof. intros Hl. unfold patch. rewrite take_0, drop_ge, app_nil_r by (cbn; lia). done. Qed.

(** A field of a patched block, where the patch covers it or misses it. *)
Lemma field_patch_same o n data l : (o + length data ≤ length l)%nat → length data = n →
  field o n (patch o data l) = le_val data.
Proof.
  intros Ho Hn. unfold field, patch. rewrite drop_app_length' by (rewrite length_take_le; lia).
  by rewrite take_app_length'.
Qed.

Lemma field_patch_other o n p data l : (p + length data ≤ length l)%nat → (o + n ≤ p ∨ p + length data ≤ o)%nat →
  field o n (patch p data l) = field o n l.
Proof.
  intros Hp Ho. unfold field. f_equal. apply list_eq. intros i. destruct (decide (i < n)%nat).
  - rewrite !lookup_take_lt, !lookup_drop, lookup_patch, decide_False by lia. done.
  - rewrite !lookup_take_ge by lia. done.
Qed.

(** ** What a device promises

    [blk d b] is the content of block [b].  A transfer comes back with a result; one that
    is reported to have failed did not change the disk, and none fails on a device that
    is [dev_sound].  [off_t] has 32 bits with a sign, so only the first 2 GB of a device
    can be addressed. *)
Class block_dev_laws (D : Type) `{block_dev D} := {
  dev_ok : D → Prop;
  dev_sound : D → Prop;
  blk : D → Z → list Z;
  blk_length d b : dev_ok d → length (blk d b) = 4096%nat;
  blocksize_law d : dev_ok d → dev_blocksize d = SFS_BLKSIZE;
  dev_read_law d b buf :
    dev_ok d → 0 ≤ b < dev_blocks d → b < 2 ^ 19 → length buf = 4096%nat →
    ∃ ret buf' d', dev_io d (b * SFS_BLKSIZE) buf false = Ok (ret, buf', d') ∧ dev_ok d' ∧
      dev_blocks d' = dev_blocks d ∧ length buf' = 4096%nat ∧ (∀ x, blk d' x = blk d x) ∧ (ret = 0 → buf' = blk d b) ∧
      (dev_sound d → ret = 0 ∧ dev_sound d');
  dev_write_law d b buf :
    dev_ok d → 0 ≤ b < dev_blocks d → b < 2 ^ 19 → length buf = 4096%nat →
    ∃ ret d', dev_io d (b * SFS_BLKSIZE) buf true = Ok (ret, buf, d') ∧ dev_ok d' ∧
      dev_blocks d' = dev_blocks d ∧ (∀ x, blk d' x = if decide (ret = 0 ∧ x = b) then buf else blk d x) ∧
      (dev_sound d → ret = 0 ∧ dev_sound d')
}.

Lemma length_zero_block : length zero_block = 4096%nat.
Proof. apply length_replicate. Qed.

Section sfs_io_laws.
Context {D : Type} `{block_dev_laws D}.
Implicit Types s : sfs_fs D.

Definition sblk s (b : Z) : list Z := blk (dev s) b.
Definition sound s : Prop := dev_sound (dev s).

(** The device can hold the volume, all of which is addressable. *)
Record io_inv s : Prop := {
  ii_dev : dev_ok (dev s);
  ii_blocks : sb_blocks (super s) ≤ dev_blocks (dev s);
  ii_addr : sb_blocks (super s) ≤ 2 ^ 19;
  ii_buffer : length (sfs_buffer s) = 4096%nat
}.

Lemma sblk_length s b : io_inv s → length (sblk s b) = 4096%nat.
Proof. intros Hs. apply blk_length, Hs. Qed.

(** The content of the disk with block [b] replaced. *)
Definition put_blk (b : Z) (v : list Z) (f : Z → list Z) (x : Z) : list Z := if decide (x = b) then v else f x.

(** A transfer: only the device and the buffer of the file system change, and the disk is
    then [f]. *)
Record io_step (f : Z → list Z) s s' : Prop := {
  st_super : super s' = super s;
  st_freemap : freemap s' = freemap s;
  st_dirty : super_dirty s' = super_dirty s;
  st_ilist : inode_list s' = inode_list s;
  st_hlist : hash_list s' = hash_list s;
  st_inv : io_inv s';
  st_blk : ∀ x, sblk s' x = f x;
  st_sound : sound s → sound s'
}.

Lemma io_step_refl s : io_inv s → io_step (sblk s) s s.
Proof. done. Qed.

Lemma io_step_trans f g s1 s2 s3 : io_step f s1 s2 → io_step g s2 s3 → io_step g s1 s3.
Proof. intros [] []. split; try congruence. auto. Qed.

Lemma io_step_buffer f s s' b : io_step f s s' → length b = 4096%nat → io_step f s (set_sfs_buffer b s').
Proof. intros [H1 H2 H3 H4 H5 [] H6 H7] Hb. split; try done. Qed.

Lemma io_step_ext f g s s' : io_step f s s' → (∀ x, f x = g x) → io_step g s s'.
Proof. intros [] He. split; try done. intros x. by rewrite <- He. Qed.

Definition in_volume s (b : Z) : Prop := 0 ≤ b < sb_blocks (super s).

Lemma block_offset s b : io_inv s → in_volume s b → i32 (u32 (b * SFS_BLKSIZE)) = b * SFS_BLKSIZE.
Proof. intros [] []. unfold SFS_BLKSIZE. rewrite i32_u32, i32_small; lia. Qed.

Lemma rwblock_guard s b ck :
  in_volume s b → (b ≠ 0 ∨ ck = false) → (negb (b =? 0) || negb ck) && (b <? sb_blocks (super s)) = true.
Proof.
  intros [_ Hlt] Hb. rewrite (proj2 (Z.ltb_lt _ _)), andb_true_r by done.
  destruct Hb as [Hb| ->]; [by rewrite (proj2 (Z.eqb_neq _ _) Hb)|by rewrite orb_true_r].
Qed.

Lemma rwblock_read s buf b ck :
  io_inv s → in_volume s b → (b ≠ 0 ∨ ck = false) → length buf = 4096%nat →
  ∃ ret buf' s', sfs_rwblock_nolock s buf b false ck = Ok (ret, buf', s') ∧ io_step (sblk s) s s' ∧
    length buf' = 4096%nat ∧ (ret = 0 → buf' = sblk s b) ∧ (sound s → ret = 0).
Proof.
  intros Hs Hb Hck Hbuf. unfold sfs_rwblock_nolock. rewrite rwblock_guard, (block_offset s) by done.
  destruct (dev_read_law (dev s) b buf) as (ret & buf' & d' & -> & Hok & Hn & Hl & Hx & Hr & Hso);
    [apply Hs|destruct Hs, Hb; lia|destruct Hs, Hb; lia|done|].
  cbn [bind]. eexists _, _, _. split; [done|]. split_and!; [|done|done|by intros [? _]%Hso].
  split; try done; [|by intros [_ ?]%Hso]. destruct Hs. by split; cbn; [|rewrite Hn| |].
Qed.

Lemma rwblock_write s buf b ck :
  io_inv s → in_volume s b → (b ≠ 0 ∨ ck = false) → length buf = 4096%nat →
  ∃ ret s', sfs_rwblock_nolock s buf b true ck = Ok (ret, buf, s') ∧
    io_step (if decide (ret = 0) then put_blk b buf (sblk s) else sblk s) s s' ∧ (sound s → ret = 0).
Proof.
  intros Hs Hb Hck Hbuf. unfold sfs_rwblock_nolock. rewrite rwblock_guard, (block_offset s) by done.
  destruct (dev_write_law (dev s) b buf) as (ret & d' & -> & Hok & Hn & Hx & Hso);
    [apply Hs|destruct Hs, Hb; lia|destruct Hs, Hb; lia|done|].
  cbn [bind]. eexists _, _. split; [done|]. split; [|by intros [? _]%Hso]. split; try done; [| |by intros [_ ?]%Hso].
  - destruct Hs. by split; cbn; [|rewrite Hn| |].
  - intros x. unfold sblk at 1. cbn [dev set_dev]. rewrite Hx. unfold put_blk.
    destruct (decide (ret = 0)); repeat case_decide; naive_solver.
Qed.

Lemma buf_ok_true len off : 0 ≤ off < 4096 → 0 ≤ len → off + len ≤ 4096 → buf_ok len off = true.
Proof.
  intros. unfold buf_ok, SFS_BLKSIZE. rewrite u32_small by lia.
  rewrite !(proj2 (Z.leb_le _ _)), (proj2 (Z.ltb_lt _ _)) by lia. done.
Qed.

Lemma sfs_rbuf_spec s buf len b off :
  io_inv s → in_volume s b → b ≠ 0 → 0 ≤ off < 4096 → 0 ≤ len → off + len ≤ 4096 →
  ∃ ret buf' s', sfs_rbuf s buf len b off = Ok (ret, buf', s') ∧ io_step (sblk s) s s' ∧
    buf' = (if decide (ret = 0) then patch 0 (take (Z.to_nat len) (drop (Z.to_nat off) (sblk s b))) buf else buf) ∧ (sound s → ret = 0).
Proof.
  intros Hs Hb Hb0 Hoff Hlen Hend. unfold sfs_rbuf. rewrite buf_ok_true by done.
  destruct (rwblock_read s (sfs_buffer s) b true) as (ret & b' & s' & -> & Hst & Hl & Hr & Hso); [done|done|by left|apply Hs|].
  cbn [bind]. destruct (decide (ret = 0)) as [E|]; eexists _, _, _; (split; [done|]);
    (split; [by apply io_step_buffer|]; split; [|done]); [by rewrite (Hr E), decide_True|by rewrite decide_False].
Qed.

Lemma sfs_wbuf_spec s buf len b off :
  io_inv s → in_volume s b → b ≠ 0 → 0 ≤ off < 4096 → 0 ≤ len → off + len ≤ 4096 → len ≤ Z.of_nat (length buf) →
  ∃ ret s', sfs_wbuf s buf len b off = Ok (ret, s') ∧
    io_step (if decide (ret = 0) then put_blk b (patch (Z.to_nat off) (take (Z.to_nat len) buf) (sblk s b)) (sblk s)
             else sblk s) s s' ∧ (sound s → ret = 0).
Proof.
  intros Hs Hb Hb0 Hoff Hlen Hend Hbl. unfold sfs_wbuf. rewrite buf_ok_true by done.
  destruct (rwblock_read s (sfs_buffer s) b true) as (ret & b' & s' & -> & Hst & Hl & Hr & Hso); [done|done|by left|apply Hs|].
  cbn [bind]. apply io_step_buffer with (b := b') in Hst; [|done].
  destruct (decide (ret = 0)) as [E|]; [|eexists _, _; split; [done|split; [by rewrite decide_False|done]]].
  pose proof (Hr E). subst b'. clear Hr.
  assert (length (patch (Z.to_nat off) (take (Z.to_nat len) buf) (sblk s b)) = 4096%nat) as Hp.
  { rewrite length_patch; rewrite ?length_take, sblk_length by done; lia. }
  destruct (rwblock_write (set_sfs_buffer (sblk s b) s') (patch (Z.to_nat off) (take (Z.to_nat len) buf) (sblk s b)) b true)
    as (ret' & s'' & -> & Hst' & Hso'); [apply Hst|unfold in_volume; by rewrite (st_super _ _ _ Hst)|by left|done|].
  cbn [bind]. eexists _, _. split; [done|]. split; [|by intros ?%(st_sound _ _ _ Hst)%Hso']. apply io_step_buffer; [|done].
  eapply io_step_trans; [done|]. eapply io_step_ext; [done|]. intros x. unfold put_blk.
  destruct (decide (ret' = 0)); [|by rewrite (st_blk _ _ _ Hst)]. case_decide; [done|]. by rewrite (st_blk _ _ _ Hst).
Qed.

Lemma sfs_clear_spec s b :
  io_inv s → in_volume s b → b ≠ 0 →
  ∃ ret s', sfs_clear_block s b 1 = Ok (ret, s') ∧
    io_step (if decide (ret = 0) then put_blk b zero_block (sblk s) else sblk s) s s' ∧ (sound s → ret = 0).
Proof.
  intros Hs Hb Hb0. unfold sfs_clear_block. cbn [clear_loop]. set (s0 := set_sfs_buffer zero_block s).
  assert (io_step (sblk s) s s0) as Hst0 by (apply io_step_buffer; [by apply io_step_refl|apply length_zero_block]).
  destruct (rwblock_write s0 zero_block b true) as (ret & s' & E & Hst & Hso); [apply Hst0|done|by left|apply length_zero_block|].
  change (sfs_buffer s0) with zero_block. rewrite E. cbn [bind]. eapply io_step_buffer in Hst; [|apply length_zero_block].
  destruct (decide (ret ≠ 0)) as [Hr|Hr].
  - eexists _, _. split; [done|]. rewrite decide_False in * by done. split; [by eapply io_step_trans|done].
  - apply dec_stable in Hr as ->. eexists _, _. split; [done|]. split; [by eapply io_step_trans|done].
Qed.

(** One whole block to or from a buffer of the caller. *)
Lemma sfs_rblock_spec s buf b :
  io_inv s → in_volume s b → b ≠ 0 → length buf = 4096%nat →
  ∃ ret buf' s', sfs_rblock s buf b 1 = Ok (ret, buf', s') ∧ io_step (sblk s) s s' ∧
    length buf' = 4096%nat ∧ (ret = 0 → buf' = sblk s b) ∧ (sound s → ret = 0).
Proof.
  intros Hs Hb Hb0 Hl. unfold sfs_rblock. cbn [sfs_rwblock]. rewrite take_ge, drop_ge by lia.
  destruct (rwblock_read s buf b true) as (ret & buf' & s' & -> & Hst & Hl' & Hr & Hso); [done|done|by left|done|].
  cbn [bind]. rewrite app_nil_r. destruct (decide (ret ≠ 0)) as [|E].
  - by eexists _, _, _.
  - apply dec_stable in E as ->. by eexists _, _, _.
Qed.

Lemma sfs_wblock_spec s buf b :
  io_inv s → in_volume s b → b ≠ 0 → length buf = 4096%nat →
  ∃ ret s', sfs_wblock s buf b 1 = Ok (ret, buf, s') ∧
    io_step (if decide (ret = 0) then put_blk b buf (sblk s) else sblk s) s s' ∧ (sound s → ret = 0).
Proof.
  intros Hs Hb Hb0 Hl. unfold sfs_wblock. cbn [sfs_rwblock]. rewrite take_ge, drop_ge by lia.
  destruct (rwblock_write s buf b true) as (ret & s' & -> & Hst & Hso); [done|done|by left|done|].
  cbn [bind]. rewrite app_nil_r. destruct (decide (ret ≠ 0)) as [Hr|Hr].
  - eexists _, _. split; [done|]. done.
  - apply dec_stable in Hr as ->. by eexists _, _.
Qed.
End sfs_io_laws.
