(* ===== verification/Sfs.v ===== *)
(** * kern/fs/sfs, second part: blocks, files and directories of sfs_inode.c

    The functions work on the file system [s] and on one inode [sin], the object that
    the pointer of the C code designates, and return both; [SfsVfs] keeps all the
    inodes.  Where the C code returns a number through a pointer, the definitions
    return it behind the result.  [lock_sin] protects sections that do not switch to
    another process. *)

From S2P Require Import Prelude Bitmap SfsDisk.

(** ** Blocks *)

Section sfs.
Context {D : Type} `{block_dev D}.
Implicit Types (s : sfs_fs D) (sin : sfs_inode).

Definition sfs_block_inuse s (ino : Z) : res bool :=
  if negb (ino =? 0) && (ino <? sb_blocks (super s))
  then let! b := bitmap_test (freemap s) ino in Ok (negb b) else Panicked.

Definition set_unused (v : Z) s : sfs_fs D :=
  set_super_dirty true (set_super (mkSuper (sb_magic (super s)) (sb_blocks (super s)) v (sb_info (super s))) s).

(** The result, the block and the file system. *)
Definition sfs_block_alloc s : res (Z * Z * sfs_fs D) :=
  let! (ret, r, b) := bitmap_alloc (freemap s) in
  let s := set_freemap b s in
  if decide (ret ≠ 0) then Ok (ret, 0, s) else
  let! ino := deref r in
  assert! 0 <? sb_unused_blocks (super s) ;;
  let s := set_unused (u32 (sb_unused_blocks (super s) - 1)) s in
  let! used := sfs_block_inuse s ino in
  assert! used ;;
  let! (ret, s) := sfs_clear_block s ino 1 in Ok (ret, ino, s).

Definition sfs_block_free s (ino : Z) : res (sfs_fs D) :=
  let! used := sfs_block_inuse s ino in
  assert! used ;;
  let! b := bitmap_free (freemap s) ino in
  Ok (set_unused (u32 (sb_unused_blocks (super s) + 1)) (set_freemap b s)).

(** ** The block map of an inode *)

(** [failed_cleanup] of [sfs_bmap_get_sub_nolock]; [entp] is the old value of [*entp]. *)
Definition sub_cleanup s (ret entp ent : Z) : res (Z * Z * Z * sfs_fs D) :=
  let! s := if decide (ent ≠ entp) then sfs_block_free s ent else Ok s in
  Ok (ret, entp, 0, s).

(** From the second [sfs_block_alloc] on. *)
Definition sub_new s (entp ent offset : Z) : res (Z * Z * Z * sfs_fs D) :=
  let! (ret, ino, s) := sfs_block_alloc s in
  if decide (ret ≠ 0) then sub_cleanup s ret entp ent else
  let! (ret, s) := sfs_wbuf s (le_bytes 4 ino) 4 ent offset in
  if decide (ret ≠ 0) then let! s := sfs_block_free s ino in sub_cleanup s ret entp ent
  else Ok (0, ent, ino, s).

(** The result, [*entp], [*ino_store] and the file system. *)
Definition sfs_bmap_get_sub_nolock s (entp index : Z) (create : bool) : res (Z * Z * Z * sfs_fs D) :=
  assert! index <? SFS_BLK_NENTRY ;;
  let offset := index * 4 in
  if decide (entp ≠ 0) then
    let! (ret, b, s) := sfs_rbuf s (le_bytes 4 0) 4 entp offset in
    if decide (ret ≠ 0) then Ok (ret, entp, 0, s) else
    let ino := le_val b in
    if negb (ino =? 0) || negb create then Ok (0, entp, ino, s) else sub_new s entp entp offset
  else if negb create then Ok (0, entp, 0, s)
  else
    let! (ret, ent, s) := sfs_block_alloc s in
    if decide (ret ≠ 0) then Ok (ret, entp, 0, s) else sub_new s entp ent offset.

(** The end of [sfs_bmap_get_nolock]. *)
Definition bmap_out s sin (ino : Z) : res (Z * Z * sfs_fs D * sfs_inode) :=
  let! ok := if ino =? 0 then Ok true else sfs_block_inuse s ino in
  assert! ok ;; Ok (0, ino, s, sin).

Definition sfs_bmap_get_nolock s sin (index : Z) (create : bool) : res (Z * Z * sfs_fs D * sfs_inode) :=
  let d := din sin in
  if index <? SFS_NDIRECT then
    let! ino := deref (di_direct d !! Z.to_nat index) in
    if (ino =? 0) && create then
      let! (ret, ino, s) := sfs_block_alloc s in
      if decide (ret ≠ 0) then Ok (ret, 0, s, sin) else
      bmap_out s (set_dirty true (set_din (set_direct (<[Z.to_nat index := ino]> (di_direct d)) d) sin)) ino
    else bmap_out s sin ino
  else
    let index := index - SFS_NDIRECT in
    if index <? SFS_BLK_NENTRY then
      let! (ret, ent, ino, s) := sfs_bmap_get_sub_nolock s (di_indirect d) index create in
      if decide (ret ≠ 0) then Ok (ret, 0, s, sin) else
      if decide (ent ≠ di_indirect d) then
        assert! di_indirect d =? 0 ;; bmap_out s (set_dirty true (set_din (set_indirect ent d) sin)) ino
      else bmap_out s sin ino
    else Panicked.

Definition sfs_bmap_free_sub_nolock s (ent index : Z) : res (Z * sfs_fs D) :=
  let! used := sfs_block_inuse s ent in
  assert! used && (index <? SFS_BLK_NENTRY) ;;
  let offset := index * 4 in
  let! (ret, b, s) := sfs_rbuf s (le_bytes 4 0) 4 ent offset in
  if decide (ret ≠ 0) then Ok (ret, s) else
  let ino := le_val b in
  if negb (ino =? 0) then
    let! (ret, s) := sfs_wbuf s (le_bytes 4 0) 4 ent offset in
    if decide (ret ≠ 0) then Ok (ret, s) else
    let! s := sfs_block_free s ino in Ok (0, s)
  else Ok (0, s).

Definition sfs_bmap_free_nolock s sin (index : Z) : res (Z * sfs_fs D * sfs_inode) :=
  let d := din sin in
  if index <? SFS_NDIRECT then
    let! ino := deref (di_direct d !! Z.to_nat index) in
    if negb (ino =? 0) then
      let! s := sfs_block_free s ino in
      Ok (0, s, set_dirty true (set_din (set_direct (<[Z.to_nat index := 0]> (di_direct d)) d) sin))
    else Ok (0, s, sin)
  else
    let index := index - SFS_NDIRECT in
    if index <? SFS_BLK_NENTRY then
      if negb (di_indirect d =? 0) then
        let! (ret, s) := sfs_bmap_free_sub_nolock s (di_indirect d) index in Ok (ret, s, sin)
      else Ok (0, s, sin)
    else Ok (0, s, sin).

Definition sfs_bmap_load_nolock s sin (index : Z) : res (Z * Z * sfs_fs D * sfs_inode) :=
  assert! index <=? di_blocks (din sin) ;;
  let create := index =? di_blocks (din sin) in
  let! (ret, ino, s, sin) := sfs_bmap_get_nolock s sin index create in
  if decide (ret ≠ 0) then Ok (ret, 0, s, sin) else
  let! used := sfs_block_inuse s ino in
  assert! used ;;
  Ok (0, ino, s, if create then set_din (set_blocks (u32 (di_blocks (din sin) + 1)) (din sin)) sin else sin).

Definition sfs_bmap_truncate_nolock s sin : res (Z * sfs_fs D * sfs_inode) :=
  assert! negb (di_blocks (din sin) =? 0) ;;
  let! (ret, s, sin) := sfs_bmap_free_nolock s sin (u32 (di_blocks (din sin) - 1)) in
  if decide (ret ≠ 0) then Ok (ret, s, sin) else
  Ok (0, s, set_dirty true (set_din (set_blocks (u32 (di_blocks (din sin) - 1)) (din sin)) sin)).

(** ** Directories: one entry for each block *)

(** [entry] is what the caller's buffer holds. *)
Definition sfs_dirent_read_nolock s sin (slot : Z) (entry : sfs_disk_entry) : res (Z * sfs_disk_entry * sfs_fs D * sfs_inode) :=
  assert! (di_type (din sin) =? SFS_TYPE_DIR) && ((0 <=? slot) && (slot <? di_blocks (din sin))) ;;
  let! (ret, ino, s, sin) := sfs_bmap_load_nolock s sin slot in
  if decide (ret ≠ 0) then Ok (ret, entry, s, sin) else
  let! used := sfs_block_inuse s ino in
  assert! used ;;
  let! (ret, b, s) := sfs_rbuf s (encode_entry entry) DENTRY_SIZE ino 0 in
  if decide (ret ≠ 0) then Ok (ret, entry, s, sin) else
  let e := decode_entry b in
  Ok (0, mkEntry (de_ino e) (<[Z.to_nat SFS_MAX_FNAME_LEN := 0]> (de_name e)), s, sin).

Definition entry_name (e : sfs_disk_entry) : list Z := c_string (de_name e).

(** The loops of the three searches from slot [i] on; [n] is the number of slots left. *)
Fixpoint search_loop (n : nat) (i : Z) s sin (name : list Z) (entry : sfs_disk_entry) (empty : Z)
    : res (Z * option (Z * Z) * Z * sfs_fs D * sfs_inode) :=
  match n with
  | O => Ok (- E_NOENT, None, empty, s, sin)
  | S n =>
      let! (ret, entry, s, sin) := sfs_dirent_read_nolock s sin i entry in
      if decide (ret ≠ 0) then Ok (ret, None, empty, s, sin)
      else if de_ino entry =? 0 then search_loop n (i + 1) s sin name entry i
      else if decide (name = entry_name entry) then Ok (0, Some (i, de_ino entry), empty, s, sin)
      else search_loop n (i + 1) s sin name entry empty
  end.

(** [buf] is the entry that [kmalloc] returns, if any.  The result, [*slot] with
    [*ino_store] where they are set, and [*empty_slot]. *)
Definition sfs_dirent_search_nolock s sin (name : list Z) (buf : option sfs_disk_entry)
    : res (Z * option (Z * Z) * Z * sfs_fs D * sfs_inode) :=
  assert! Z.of_nat (length name) <=? SFS_MAX_FNAME_LEN ;;
  match buf with
  | None => Ok (- E_NO_MEM, None, 0, s, sin)
  | Some entry =>
      let nslots := i32 (di_blocks (din sin)) in
      search_loop (Z.to_nat nslots) 0 s sin name entry nslots
  end.

Fixpoint findino_loop (n : nat) (i : Z) s sin (ino : Z) (entry : sfs_disk_entry)
    : res (Z * sfs_disk_entry * sfs_fs D * sfs_inode) :=
  match n with
  | O => Ok (- E_NOENT, entry, s, sin)
  | S n =>
      let! (ret, entry, s, sin) := sfs_dirent_read_nolock s sin i entry in
      if decide (ret ≠ 0) then Ok (ret, entry, s, sin)
      else if de_ino entry =? ino then Ok (0, entry, s, sin)
      else findino_loop n (i + 1) s sin ino entry
  end.

Definition sfs_dirent_findino_nolock s sin (ino : Z) (entry : sfs_disk_entry) : res (Z * sfs_disk_entry * sfs_fs D * sfs_inode) :=
  findino_loop (Z.to_nat (i32 (di_blocks (din sin)))) 0 s sin ino entry.

Fixpoint getdirentry_loop (n : nat) (i : Z) s sin (slot : Z) (entry : sfs_disk_entry)
    : res (Z * sfs_disk_entry * sfs_fs D * sfs_inode) :=
  match n with
  | O => Ok (- E_NOENT, entry, s, sin)
  | S n =>
      let! (ret, entry, s, sin) := sfs_dirent_read_nolock s sin i entry in
      if decide (ret ≠ 0) then Ok (ret, entry, s, sin)
      else if negb (de_ino entry =? 0) then
        if slot =? 0 then Ok (0, entry, s, sin) else getdirentry_loop n (i + 1) s sin (slot - 1) entry
      else getdirentry_loop n (i + 1) s sin slot entry
  end.

Definition sfs_getdirentry_sub_nolock s sin (slot : Z) (entry : sfs_disk_entry) : res (Z * sfs_disk_entry * sfs_fs D * sfs_inode) :=
  getdirentry_loop (Z.to_nat (i32 (di_blocks (din sin)))) 0 s sin slot entry.

(** ** Reading and writing *)

(** [sfs_buf_op] and [sfs_block_op] on the buffer from position [pos] on. *)
Definition sfs_buf_op (write : bool) s (buf : list Z) (pos : nat) (size ino off : Z) : res (Z * list Z * sfs_fs D) :=
  if write then let! (ret, s) := sfs_wbuf s (drop pos buf) size ino off in Ok (ret, buf, s)
  else let! (ret, b, s) := sfs_rbuf s (drop pos buf) size ino off in Ok (ret, take pos buf ++ b, s).

Definition sfs_block_op (write : bool) s (buf : list Z) (pos : nat) (ino : Z) : res (Z * list Z * sfs_fs D) :=
  let b := take 4096 (drop pos buf) in
  let! (ret, b, s) := if write then sfs_wblock s b ino 1 else sfs_rblock s b ino 1 in
  Ok (ret, patch pos b buf, s).

(** What each of the three steps does with a block: steps (1) and (3) with [sfs_buf_op],
    step (2) with [sfs_block_op]. *)
Definition io_chunk (write whole : bool) s sin (buf : list Z) (alen size blkno off : Z) : res (Z * Z * list Z * sfs_fs D * sfs_inode) :=
  let! (ret, ino, s, sin) := sfs_bmap_load_nolock s sin blkno in
  if decide (ret ≠ 0) then Ok (ret, alen, buf, s, sin) else
  let! (ret, buf, s) := if whole then sfs_block_op write s buf (Z.to_nat alen) ino
                        else sfs_buf_op write s buf (Z.to_nat alen) size ino off in
  if decide (ret ≠ 0) then Ok (ret, alen, buf, s, sin) else Ok (0, alen + size, buf, s, sin).

(** Step (2), and then step (3). *)
Fixpoint io_blocks (nblks : nat) (write : bool) s sin (buf : list Z) (alen blkno last : Z) : res (Z * Z * list Z * sfs_fs D * sfs_inode) :=
  match nblks with
  | O => if negb (last =? 0) then io_chunk write false s sin buf alen last blkno 0 else Ok (0, alen, buf, s, sin)
  | S nblks =>
      let! (ret, alen, buf, s, sin) := io_chunk write true s sin buf alen SFS_BLKSIZE blkno 0 in
      if decide (ret ≠ 0) then Ok (ret, alen, buf, s, sin) else io_blocks nblks write s sin buf alen (blkno + 1) last
  end.

(** The three steps, with the jumps to [out]. *)
Definition io_steps (write : bool) s sin (buf : list Z) (offset endpos : Z) : res (Z * Z * list Z * sfs_fs D * sfs_inode) :=
  let blkno := offset / SFS_BLKSIZE in
  let nblks := endpos / SFS_BLKSIZE - blkno in
  let blkoff := offset mod SFS_BLKSIZE in
  let last := endpos mod SFS_BLKSIZE in
  if negb (blkoff =? 0) then
    let size := if negb (nblks =? 0) then SFS_BLKSIZE - blkoff else endpos - offset in
    let! (ret, alen, buf, s, sin) := io_chunk write false s sin buf 0 size blkno blkoff in
    if negb (ret =? 0) || (nblks =? 0) then Ok (ret, alen, buf, s, sin)
    else io_blocks (Z.to_nat (nblks - 1)) write s sin buf alen (blkno + 1) last
  else io_blocks (Z.to_nat nblks) write s sin buf 0 blkno last.

(** The result, [*alenp], the buffer, the file system and the inode. *)
Definition sfs_io_nolock s sin (buf : list Z) (offset alen : Z) (write : bool) : res (Z * Z * list Z * sfs_fs D * sfs_inode) :=
  assert! negb (di_type (din sin) =? SFS_TYPE_DIR) ;;
  let endpos := i32 (u32 (offset + alen)) in
  if (offset <? 0) || (SFS_MAX_FILE_SIZE <=? offset) || (endpos <? offset) then Ok (- E_INVAL, 0, buf, s, sin)
  else if offset =? endpos then Ok (0, 0, buf, s, sin)
  else
    let endpos := if SFS_MAX_FILE_SIZE <? endpos then SFS_MAX_FILE_SIZE else endpos in
    if negb write && (di_size (din sin) <=? offset) then Ok (0, 0, buf, s, sin) else
    let endpos := if negb write && (di_size (din sin) <? endpos) then di_size (din sin) else endpos in
    let! (ret, alen, buf, s, sin) := io_steps write s sin buf offset endpos in
    let newsize := u32 (offset + alen) in
    let sin := if di_size (din sin) <? newsize then set_dirty true (set_din (set_size newsize (din sin)) sin) else sin in
    Ok (ret, alen, buf, s, sin).

(** ** The size of a file *)

Fixpoint grow_loop (n : nat) s sin (nblks : Z) : res (Z * sfs_fs D * sfs_inode) :=
  match n with
  | O => Ok (0, s, sin)
  | S n =>
      let! (ret, _, s, sin) := sfs_bmap_load_nolock s sin nblks in
      if decide (ret ≠ 0) then Ok (ret, s, sin) else grow_loop n s sin (nblks + 1)
  end.

Fixpoint shrink_loop (n : nat) s sin : res (Z * sfs_fs D * sfs_inode) :=
  match n with
  | O => Ok (0, s, sin)
  | S n =>
      let! (ret, s, sin) := sfs_bmap_truncate_nolock s sin in
      if decide (ret ≠ 0) then Ok (ret, s, sin) else shrink_loop n s sin
  end.

Definition truncfile s sin (len : Z) : res (Z * sfs_fs D * sfs_inode) :=
  if (len <? 0) || (SFS_MAX_FILE_SIZE <? len) then Ok (- E_INVAL, s, sin) else
  let tblks := ROUNDUP_DIV len SFS_BLKSIZE in
  if di_size (din sin) =? len then assert! tblks =? di_blocks (din sin) ;; Ok (0, s, sin) else
  let nblks := di_blocks (din sin) in
  let! (ret, s, sin) :=
    if nblks <? tblks then grow_loop (Z.to_nat (tblks - nblks)) s sin nblks
    else shrink_loop (Z.to_nat (nblks - tblks)) s sin in
  if decide (ret ≠ 0) then Ok (ret, s, sin) else
  assert! di_blocks (din sin) =? tblks ;;
  Ok (0, s, set_dirty true (set_din (set_size len (din sin)) sin)).

(** ** The inode on the disk *)

Definition fsync s sin : res (Z * sfs_fs D * sfs_inode) :=
  if si_dirty sin then
    let sin := set_dirty false sin in
    let! (ret, s) := sfs_wbuf s (encode_dinode (din sin)) DINODE_SIZE (si_ino sin) 0 in
    Ok (ret, s, if decide (ret ≠ 0) then set_dirty true sin else sin)
  else Ok (0, s, sin).

End sfs.
