(* ===== verification/SfsInv.v ===== *)
(** * The blocks of a volume

    [sfs_inv]: the free map and the number of unused blocks agree, and the free blocks
    lie in the volume.  [sfs_block_alloc] hands out a block that was free, filled with
    zeros, and touches no block in use; [sfs_block_free] is its inverse. *)

From S2P Require Import Prelude Bitmap SfsDisk Sfs.

(** The number of free blocks. *)
Definition free_count (b : bitmap) : Z := zsum (λ i, b2z (is_free b i)) (seqZ 0 (nbits b)).

Lemma free_count_change b b' i v :
  nbits b' = nbits b → 0 ≤ i < nbits b → is_free b i = negb v →
  (∀ j, 0 ≤ j → is_free b' j = if decide (j = i) then v else is_free b j) →
  free_count b' = free_count b + (if v then 1 else -1).
Proof.
  intros Hn Hi Hf Hj. unfold free_count. rewrite Hn.
  rewrite (zsum_change (λ i, b2z (is_free b' i)) (λ i, b2z (is_free b i)) _ i).
  - rewrite Hf, Hj, decide_True by lia. destruct v; cbn; lia.
  - apply NoDup_seqZ.
  - apply elem_of_seqZ. lia.
  - intros u Hu%elem_of_seqZ Hne. rewrite Hj, decide_False by (done || lia). done.
Qed.

Lemma zsum_app {A} (f : A → Z) l1 l2 : zsum f (l1 ++ l2) = zsum f l1 + zsum f l2.
Proof. induction l1 as [|x l1 IH]; [done|]. cbn [app zsum foldr]. fold (zsum f (l1 ++ l2)) (zsum f l1). lia. Qed.

Lemma zsum_b2z_le {A} (f : A → bool) l : 0 ≤ zsum (λ x, b2z (f x)) l ≤ Z.of_nat (length l).
Proof. induction l as [|x l IH]; cbn; [done|]. unfold zsum in IH. destruct (f x); cbn; lia. Qed.

Lemma free_count_range b : bitmap_inv b → 0 ≤ free_count b ≤ nbits b.
Proof.
  intros Hb. pose proof (zsum_b2z_le (is_free b) (seqZ 0 (nbits b))) as Hr. rewrite length_seqZ in Hr.
  destruct (bi_nbits _ Hb). unfold free_count. lia.
Qed.

Lemma free_count_pos b i : 0 ≤ i < nbits b → is_free b i = true → 0 < free_count b.
Proof.
  intros Hi Hf. unfold free_count. rewrite (zsum_change _ (λ j, if decide (j = i) then 0 else b2z (is_free b j)) _ i).
  - rewrite decide_True, Hf by done. cbn.
    assert (0 ≤ zsum (λ j, if decide (j = i) then 0 else b2z (is_free b j)) (seqZ 0 (nbits b))); [|lia].
    apply zsum_nonneg. intros j _. case_decide; [lia|]. by destruct (is_free b j).
  - apply NoDup_seqZ.
  - apply elem_of_seqZ. lia.
  - intros u _ Hne. by rewrite decide_False.
Qed.

Lemma free_count_none b : (∀ i, 0 ≤ i → is_free b i = false) → free_count b = 0.
Proof.
  intros Hf. unfold free_count. rewrite (zsum_ext _ (λ _, 0)); [by apply zsum_const0|].
  intros i Hi%elem_of_seqZ. by rewrite Hf by lia.
Qed.

Section sfs_inv.
Context {D : Type} `{block_dev_laws D}.
Implicit Types (s : sfs_fs D) (sin : sfs_inode).

Record sfs_inv s : Prop := {
  iv_io : io_inv s;
  iv_map : bitmap_inv (freemap s);
  iv_bits : sb_blocks (super s) ≤ nbits (freemap s);
  iv_free : ∀ b, 0 ≤ b → is_free (freemap s) b = true → 0 < b < sb_blocks (super s);
  iv_unused : sb_unused_blocks (super s) = free_count (freemap s)
}.

(** A block of the volume that is in use; block 0 is the superblock. *)
Definition used s (b : Z) : Prop := 0 < b < sb_blocks (super s) ∧ is_free (freemap s) b = false.

Record same_vol s s' : Prop := {
  sv_blocks : sb_blocks (super s') = sb_blocks (super s);
  sv_magic : sb_magic (super s') = sb_magic (super s);
  sv_info : sb_info (super s') = sb_info (super s);
  sv_nbits : nbits (freemap s') = nbits (freemap s);
  sv_ilist : inode_list s' = inode_list s;
  sv_hlist : hash_list s' = hash_list s
}.

(** From [s] to [s'] the blocks of [K] that are in use stay so with their content. *)
Record evolve (K : Z → Prop) s s' : Prop := {
  ev_inv : sfs_inv s';
  ev_vol : same_vol s s';
  ev_sound : sound s → sound s';
  ev_used b : K b → used s b → used s' b;
  ev_blk b : K b → used s b → sblk s' b = sblk s b
}.

Lemma evolve_refl K s : sfs_inv s → evolve K s s.
Proof. done. Qed.

Lemma evolve_trans K s1 s2 s3 : evolve K s1 s2 → evolve K s2 s3 → evolve K s1 s3.
Proof.
  intros [I1 [] S1 U1 B1] [I2 [] S2 U2 B2]. split; [done|split; congruence|auto|auto|].
  intros b Hb Hu. rewrite B2, B1 by auto. done.
Qed.

Lemma evolve_weaken (K K' : Z → Prop) s s' : evolve K s s' → (∀ b, used s b → K' b → K b) → evolve K' s s'.
Proof. intros [] HK. split; auto. Qed.

Lemma used_inuse s b : sfs_inv s → used s b → sfs_block_inuse s b = Ok true.
Proof.
  intros Hs [Hb Hf]. unfold sfs_block_inuse. rewrite (proj2 (Z.eqb_neq _ _)), (proj2 (Z.ltb_lt _ _)) by lia.
  cbn [negb andb]. rewrite bitmap_test_ok by (apply Hs || (destruct Hs; lia)). cbn [bind]. by rewrite Hf.
Qed.

Lemma used_in_volume s b : used s b → in_volume s b ∧ b ≠ 0.
Proof. intros [Hb _]. unfold in_volume. lia. Qed.

(** A transfer to block [b]. *)
Lemma evolve_io f b v s s' :
  sfs_inv s → io_step f s s' → (∀ x, f x = sblk s x ∨ f x = put_blk b v (sblk s) x) → evolve (λ x, x ≠ b) s s'.
Proof.
  intros [Hio Hm Hn Hf Hu] [Es Em Ed Ei El I B S] Hx. split; [|split; congruence|done| |].
  - split; rewrite ?Es, ?Em; done.
  - intros x _ [Hr Hfr]. split; [by rewrite Es|by rewrite Em].
  - intros x Hne _. rewrite B. destruct (Hx x) as [->| ->]; [done|]. unfold put_blk. by rewrite decide_False.
Qed.

Lemma evolve_quiet s s' : sfs_inv s → io_step (sblk s) s s' → evolve (λ _, True) s s'.
Proof.
  intros Hs Hst. destruct (evolve_io _ (-1) [] s s' Hs Hst) as [I V S U B]; [by left|].
  split; [done..| |]; intros b _ Hu; [apply U|apply B]; try done; destruct Hu; lia.
Qed.

(** The changes of [sfs_block_alloc] and [sfs_block_free] before the disk is touched. *)
Lemma change_map_inv s b' i v :
  sfs_inv s → 0 < i < sb_blocks (super s) → bitmap_inv b' → nbits b' = nbits (freemap s) →
  is_free (freemap s) i = negb v →
  (∀ j, 0 ≤ j → is_free b' j = if decide (j = i) then v else is_free (freemap s) j) →
  let s' := set_unused (u32 (sb_unused_blocks (super s) + (if v then 1 else -1))) (set_freemap b' s) in
  sfs_inv s' ∧ same_vol s s' ∧ sb_unused_blocks (super s') = sb_unused_blocks (super s) + (if v then 1 else -1) ∧
  (∀ j, used s' j ↔ if v then used s j ∧ j ≠ i else used s j ∨ j = i).
Proof.
  intros [Hio Hm Hn Hf Hu] Hi Hb' Hnb Hv Hj s'.
  assert (free_count b' = free_count (freemap s) + (if v then 1 else -1)) as Hc
    by (apply (free_count_change _ _ i); [done|lia|done|done]).
  pose proof (free_count_range b' Hb') as Hr. pose proof (bi_nbits _ Hb').
  assert (sb_unused_blocks (super s') = free_count b') as Hun by (cbn; rewrite Hu, u32_small by lia; lia).
  split_and!; [|done|lia|].
  - split; [by destruct Hio|done|cbn; lia| |done]. intros j Hj0. cbn. rewrite Hj by done.
    case_decide; [subst; destruct v; [lia|done]|by apply Hf].
  - intros j. unfold used. cbn. destruct (decide (0 ≤ j)); [|destruct v; naive_solver lia].
    rewrite Hj by done. case_decide; destruct v; naive_solver.
Qed.

Definition unused s : Z := sb_unused_blocks (super s).

Lemma unused_range s : sfs_inv s → 0 ≤ unused s < 2 ^ 32.
Proof.
  intros [_ Hm _ _ Hu]. pose proof (free_count_range _ Hm). pose proof (bi_nbits _ Hm). unfold unused. lia.
Qed.

Lemma sfs_block_alloc_spec s :
  sfs_inv s →
  ∃ ret b s', sfs_block_alloc s = Ok (ret, b, s') ∧ evolve (λ _, True) s s' ∧
    (ret = 0 → ¬ used s b ∧ used s' b ∧ sblk s' b = zero_block ∧ unused s' = unused s - 1) ∧
    (sound s → 0 < unused s → ret = 0) ∧ (ret ≠ 0 → unused s - 1 ≤ unused s').
Proof.
  intros Hs. pose proof Hs as [Hio Hm Hn Hf Hu]. unfold sfs_block_alloc.
  destruct (bitmap_alloc_first (freemap s) Hm) as (ret & r & b' & Ha & Hb' & Hr). rewrite Ha. cbn [bind].
  pose proof (bitmap_alloc_nbits _ _ _ _ Ha) as Hnb. destruct r as [i|].
  2: { destruct Hr as (-> & -> & Hnone). rewrite decide_True by done. eexists _, _, _. split; [done|].
    assert (set_freemap (freemap s) s = s) as -> by by destruct s. split_and!; [by apply evolve_refl|done| |lia].
    intros _ Hp. exfalso. pose proof (free_count_none _ Hnone). unfold unused in Hp. lia. }
  destruct Hr as (-> & Hi & Hfree & _ & Hj & _). rewrite decide_False by auto. cbn [deref bind].
  pose proof (Hf i ltac:(lia) Hfree) as Hin. pose proof (free_count_pos _ i Hi Hfree) as Hpos.
  change (super (set_freemap b' s)) with (super s).
  rewrite (proj2 (Z.ltb_lt 0 (sb_unused_blocks (super s)))) by lia.
  destruct (change_map_inv s b' i false Hs Hin Hb' Hnb Hfree Hj) as (Hs' & Hv & Hun & Hused).
  set (s' := set_unused _ _) in *. change (set_unused _ _) with s'.
  assert (used s' i) as Hui by (apply Hused; by right).
  rewrite used_inuse by done. cbn [bind]. destruct (used_in_volume s' i Hui).
  destruct (sfs_clear_spec s' i) as (ret & s'' & -> & Hst & Hso); [apply Hs'|done..|]. cbn [bind].
  assert (evolve (λ x, x ≠ i) s' s'') as He.
  { eapply evolve_io; [done..|]. intros x. destruct (decide (ret = 0)); [by right|by left]. }
  eexists _, _, _. split; [done|].
  assert (used s i → False) as Hni by (intros [_ Hfu]; by rewrite Hfree in Hfu).
  assert (unused s'' = unused s - 1) as Hun''.
  { unfold unused. rewrite (st_super _ _ _ Hst). fold s'. lia. }
  split_and!; [| |by intros ?%Hso|lia].
  - destruct He as [I V S U B]. split; [done| |done| |].
    + destruct Hv, V. split; congruence.
    + intros b _ Hub. apply U; [by intros ->|]. apply Hused. by left.
    + intros b _ Hub. rewrite B; [done|by intros ->|]. apply Hused. by left.
  - intros ->. split_and!; [done| | |done].
    + split; [rewrite (st_super _ _ _ Hst); apply Hui|rewrite (st_freemap _ _ _ Hst); apply Hui].
    + rewrite (st_blk _ _ _ Hst). cbn. unfold put_blk. by rewrite decide_True.
Qed.

Lemma sfs_block_free_spec s b :
  sfs_inv s → used s b →
  ∃ s', sfs_block_free s b = Ok s' ∧ evolve (λ x, x ≠ b) s s' ∧ unused s' = unused s + 1 ∧
    (∀ x, used s' x ↔ used s x ∧ x ≠ b) ∧ ∀ x, sblk s' x = sblk s x.
Proof.
  intros Hs Hb. pose proof Hb as [Hin Hf]. unfold sfs_block_free. rewrite used_inuse by done. cbn [bind].
  destruct (bitmap_free_ok (freemap s) b) as (b' & -> & Hb' & Hnb & Hj); [apply Hs|destruct Hs; lia|done|].
  cbn [bind]. destruct (change_map_inv s b' b true Hs Hin Hb' Hnb Hf Hj) as (Hs' & Hv & Hun & Hused).
  eexists. split; [done|]. split_and!; [|done|done|done]. split; [done..| |done].
  intros x Hx Hux. by apply Hused.
Qed.
End sfs_inv.
