(* ===== verification/SfsMap.v ===== *)
(** * The block map of a file

    [fblock s d i] is the disk block of logical block [i] of the inode [d], 0 if there is
    none, and [fdata s d] the list of the contents of its blocks.  [file_inv s d own]: the
    blocks of the file are in use, distinct from each other and from those that [own]
    says belong to others.  [sfs_bmap_load_nolock] looks up a block or appends a block of
    zeros, [sfs_bmap_truncate_nolock] removes the last one; neither touches the other
    blocks of the file or those of others, whatever the device reports. *)

From S2P Require Import Prelude Bitmap SfsDisk Sfs SfsInv.

(** Direct blocks and the entries of the indirect block. *)
Definition MAX_BLOCKS : Z := 12 + 1024.

Section sfs_map.
Context {D : Type} `{block_dev_laws D}.
Implicit Types (s : sfs_fs D) (sin : sfs_inode) (d : sfs_disk_inode) (own : Z → Prop).

Definition ind_entry s (ent k : Z) : Z := field (Z.to_nat (4 * k)) 4 (sblk s ent).

Definition fblock s d (i : Z) : Z :=
  if i <? 12 then default 0 (di_direct d !! Z.to_nat i)
  else if di_indirect d =? 0 then 0 else ind_entry s (di_indirect d) (i - 12).

Definition fdata s d : list (list Z) := (λ i, sblk s (fblock s d i)) <$> seqZ 0 (di_blocks d).

Record file_inv s d own : Prop := {
  fi_ok : dinode_ok d;
  fi_blocks : di_blocks d ≤ MAX_BLOCKS;
  fi_used i : 0 ≤ i < di_blocks d → used s (fblock s d i) ∧ ¬ own (fblock s d i) ∧ fblock s d i ≠ di_indirect d;
  fi_hole i : di_blocks d ≤ i < MAX_BLOCKS → fblock s d i = 0;
  fi_inj i j : 0 ≤ i < di_blocks d → 0 ≤ j < di_blocks d → fblock s d i = fblock s d j → i = j;
  fi_ind : di_indirect d ≠ 0 → used s (di_indirect d) ∧ ¬ own (di_indirect d)
}.

Lemma fi_pos s d own : file_inv s d own → 0 ≤ di_blocks d ∧ 0 ≤ di_size d.
Proof. intros Hf. pose proof (dk_blocks _ (fi_ok _ _ _ Hf)). pose proof (dk_size _ (fi_ok _ _ _ Hf)). unfold is_u32 in *. lia. Qed.

Lemma fblock_ext s s' d i : (di_indirect d ≠ 0 → sblk s' (di_indirect d) = sblk s (di_indirect d)) → fblock s' d i = fblock s d i.
Proof.
  intros He. unfold fblock, ind_entry. destruct (i <? 12); [done|].
  destruct (Z.eqb_spec (di_indirect d) 0); [done|]. by rewrite He.
Qed.

(** Steps that leave the blocks of the file alone. *)
Lemma file_evolve K s s' d own :
  file_inv s d own → evolve K s s' → (∀ i, 0 ≤ i < di_blocks d → K (fblock s d i)) → (di_indirect d ≠ 0 → K (di_indirect d)) →
  file_inv s' d own ∧ fdata s' d = fdata s d ∧ ∀ i, fblock s' d i = fblock s d i.
Proof.
  intros Hf He HK Hi.
  assert (∀ i, fblock s' d i = fblock s d i) as Hb.
  { intros i. apply fblock_ext. intros Hne. eapply ev_blk; [done|by apply Hi|by apply Hf]. }
  split_and!; [|apply list_fmap_ext; intros k i Hk|done].
  - split; try apply Hf.
    + intros i Hr. rewrite Hb. pose proof (fi_used _ _ _ Hf i Hr) as (Hu & ? & ?). split_and!; try done.
      eapply ev_used; eauto.
    + intros i Hr. rewrite Hb. by apply Hf.
    + intros i j Hr1 Hr2. rewrite !Hb. by apply Hf.
    + intros Hne. destruct (fi_ind _ _ _ Hf Hne). split; [|done]. eapply ev_used; eauto.
  - rewrite lookup_seqZ in Hk. destruct Hk as [-> Hk]. rewrite Hb. eapply ev_blk; [done|apply HK; lia|apply Hf; lia].
Qed.

Lemma file_evolve_all s s' d own :
  file_inv s d own → evolve (λ _, True) s s' → file_inv s' d own ∧ fdata s' d = fdata s d ∧ ∀ i, fblock s' d i = fblock s d i.
Proof. intros Hf He. by apply (file_evolve (λ _, True)). Qed.

(** ** Entries of the indirect block *)

Lemma rbuf_word s b k :
  io_inv s → used s b → 0 ≤ k < 1024 →
  ∃ ret w s', sfs_rbuf s (le_bytes 4 0) 4 b (k * 4) = Ok (ret, w, s') ∧ io_step (sblk s) s s' ∧
    (ret = 0 → le_val w = ind_entry s b k) ∧ (sound s → ret = 0).
Proof.
  intros Hs Hb Hk. destruct (used_in_volume s b Hb).
  destruct (sfs_rbuf_spec s (le_bytes 4 0) 4 b (k * 4)) as (ret & w & s' & -> & Hst & Hw & Hso); try done; [lia..|].
  eexists _, _, _. split; [done|]. split_and!; [done| |done]. intros ->. rewrite decide_True in Hw by done. rewrite Hw.
  unfold ind_entry, field. replace (4 * k) with (k * 4) by lia. rewrite patch_whole; [done|].
  rewrite length_le_bytes, length_take, length_drop, sblk_length by done. lia.
Qed.

Lemma wbuf_word s b k v :
  sfs_inv s → used s b → 0 ≤ k < 1024 → is_u32 v →
  ∃ ret s', sfs_wbuf s (le_bytes 4 v) 4 b (k * 4) = Ok (ret, s') ∧ evolve (λ x, x ≠ b ∨ ret ≠ 0) s s' ∧
    super s' = super s ∧ freemap s' = freemap s ∧
    (ret = 0 → ∀ j, 0 ≤ j < 1024 → ind_entry s' b j = if decide (j = k) then v else ind_entry s b j) ∧ (sound s → ret = 0).
Proof.
  intros Hs Hb Hk Hv. destruct (used_in_volume s b Hb).
  destruct (sfs_wbuf_spec s (le_bytes 4 v) 4 b (k * 4)) as (ret & s' & -> & Hst & Hso); try done; [apply Hs|lia..|].
  eexists _, _. split; [done|]. split_and!; [|by apply Hst|by apply Hst| |done].
  - destruct (decide (ret = 0)) as [->|Hr].
    + rewrite ?decide_True in Hst by done. eapply evolve_weaken; [eapply evolve_io; [done..|]; intros x; by right|].
      intros x _ [?|?]; done.
    + eapply evolve_weaken; [by apply evolve_quiet|]. done.
  - intros -> j Hj. rewrite decide_True in Hst by done. unfold ind_entry. rewrite (st_blk _ _ _ Hst). unfold put_blk. rewrite decide_True by done.
    rewrite take_ge by (rewrite length_le_bytes; lia).
    assert (length (sblk s b) = 4096%nat) as Hl by (apply sblk_length, Hs).
    destruct (decide (j = k)) as [Hjk|Hjk].
    + rewrite Hjk, (Z.mul_comm 4 k).
      rewrite field_patch_same; rewrite ?length_le_bytes; [by apply le_val_bytes|lia|done].
    + apply field_patch_other; rewrite length_le_bytes; lia.
Qed.

Lemma used_u32 s b : sfs_inv s → used s b → is_u32 b.
Proof. intros [[_ _ Ha _]] [Hb _]. unfold is_u32. lia. Qed.

(** ** Looking up a block *)

Lemma bmap_out_ok s sin b : sfs_inv s → (b ≠ 0 → used s b) → bmap_out s sin b = Ok (0, b, s, sin).
Proof.
  intros Hs Hb. unfold bmap_out. destruct (Z.eqb_spec b 0); [done|]. by rewrite used_inuse by auto.
Qed.

Lemma fblock_zero_or_used s d own i :
  file_inv s d own → 0 ≤ i < MAX_BLOCKS → fblock s d i ≠ 0 → i < di_blocks d ∧ used s (fblock s d i).
Proof.
  intros Hf Hi Hne. destruct (decide (i < di_blocks d)); [split; [done|apply Hf; lia]|].
  by rewrite (fi_hole _ _ _ Hf) in Hne by lia.
Qed.

Lemma bmap_get_old s sin own i create :
  sfs_inv s → file_inv s (din sin) own → 0 ≤ i < MAX_BLOCKS → create = false ∨ fblock s (din sin) i ≠ 0 →
  ∃ ret b s', sfs_bmap_get_nolock s sin i create = Ok (ret, b, s', sin) ∧ evolve (λ _, True) s s' ∧ unused s' = unused s ∧
    (ret = 0 → b = fblock s (din sin) i) ∧ (sound s → ret = 0).
Proof.
  intros Hs Hf Hi Hc. pose proof (fblock_zero_or_used _ _ _ i Hf Hi) as Hzu.
  unfold sfs_bmap_get_nolock, SFS_NDIRECT, fblock, MAX_BLOCKS in *. change SFS_BLK_NENTRY with 1024.
  destruct (Z.ltb_spec i 12) as [Hd|Hd].
  - destruct (di_direct (din sin) !! Z.to_nat i) as [b|] eqn:Hb.
    2: { apply lookup_ge_None in Hb. rewrite (dk_ndirect _ (fi_ok _ _ _ Hf)) in Hb. lia. }
    cbn [deref bind default] in *. change (id b) with b in *.
    assert ((b =? 0) && create = false) as -> by (destruct (Z.eqb_spec b 0), create; naive_solver).
    rewrite bmap_out_ok by (done || (intros; by apply Hzu)). eexists _, _, _. split; [done|]. by split_and!.
  - assert (i - 12 <? 1024 = true) as Hlt by lia. rewrite Hlt.
    unfold sfs_bmap_get_sub_nolock. change SFS_BLK_NENTRY with 1024. rewrite Hlt.
    destruct (Z.eqb_spec (di_indirect (din sin)) 0) as [E|E].
    + rewrite decide_False by auto. assert (create = false) as -> by naive_solver. cbn [negb bind].
      rewrite decide_False, E, decide_False by auto. rewrite bmap_out_ok by done.
      eexists _, _, _. split; [done|]. by split_and!.
    + rewrite decide_True by done.
      destruct (rbuf_word s (di_indirect (din sin)) (i - 12)) as (ret & w & s' & -> & Hst & Hw & Hso);
        [apply Hs|by apply Hf|lia|]. cbn [bind].
      pose proof (evolve_quiet _ _ Hs Hst) as He.
      assert (unused s' = unused s) as Hun by (unfold unused; by rewrite (st_super _ _ _ Hst)).
      destruct (decide (ret ≠ 0)) as [Hr|Hr].
      * cbn [bind]. rewrite decide_True by done. eexists _, _, _. split; [done|]. by split_and!.
      * apply dec_stable in Hr as ->. rewrite Hw by done.
        set (b := ind_entry s (di_indirect (din sin)) (i - 12)) in *.
        assert (negb (b =? 0) || negb create = true) as -> by (destruct (Z.eqb_spec b 0), create; naive_solver).
        cbn [bind]. rewrite !decide_False by auto. rewrite bmap_out_ok; [|apply He|].
        -- eexists _, _, _. split; [done|]. by split_and!.
        -- intros Hb. eapply ev_used; [done|done|]. by apply Hzu.
Qed.

(** ** Appending a block *)

(** What [sub_new] does with a free entry [k] of the indirect block [ent], which was just
    allocated if it is not [entp]. *)
Lemma sub_new_ok s entp ent k :
  sfs_inv s → used s ent → 0 ≤ k < 1024 →
  ∃ ret e b s', sub_new s entp ent (k * 4) = Ok (ret, e, b, s') ∧ evolve (λ x, x ≠ ent) s s' ∧
    (sound s → 0 < unused s → ret = 0) ∧
    (ret = 0 → e = ent ∧ ¬ used s b ∧ used s' b ∧ used s' ent ∧ sblk s' b = zero_block ∧ unused s' = unused s - 1 ∧
       ∀ j, 0 ≤ j < 1024 → ind_entry s' ent j = if decide (j = k) then b else ind_entry s ent j) ∧
    (ret ≠ 0 → e = entp ∧ (ent = entp → evolve (λ _, True) s s')).
Proof.
  intros Hs Hent Hk. unfold sub_new.
  destruct (sfs_block_alloc_spec s Hs) as (ret & b & s1 & -> & He1 & Hok & Hso & _). cbn [bind].
  assert (∀ s3 r, evolve (λ _, True) s s3 → r ≠ 0 →
    ∃ s', sub_cleanup s3 r entp ent = Ok (r, entp, 0, s') ∧ evolve (λ x, x ≠ ent) s s' ∧
      (ent = entp → evolve (λ _, True) s s')) as Hclean.
  { intros s3 r He3 Hr. unfold sub_cleanup. destruct (decide (ent ≠ entp)) as [Hne|Hne].
    - destruct (sfs_block_free_spec s3 ent) as (s' & -> & He' & _); [apply He3|by eapply ev_used|].
      cbn [bind]. eexists. split; [done|]. split; [|done]. eapply evolve_trans; [by eapply evolve_weaken|done].
    - apply dec_stable in Hne. cbn [bind]. eexists. split; [done|]. split; [by eapply evolve_weaken|done]. }
  destruct (decide (ret ≠ 0)) as [Hr|Hr].
  { destruct (Hclean s1 ret He1 Hr) as (s' & -> & He' & He''). eexists _, _, _, _. by split_and!. }
  apply dec_stable in Hr as ->. destruct (Hok eq_refl) as (Hnb & Hub & Hzb & Hun).
  assert (b ≠ ent) as Hbe by (by intros ->). assert (used s1 ent) as Hent1 by (by eapply ev_used).
  destruct (wbuf_word s1 ent k b) as (ret & s2 & -> & He2 & Esup & Efm & Hw & Hso2);
    [apply He1|done|done|eapply used_u32; [apply He1|done]|]. cbn [bind].
  assert (∀ x, used s2 x ↔ used s1 x) as Hu2 by (intros x; unfold used; by rewrite Esup, Efm).
  destruct (decide (ret ≠ 0)) as [Hr|Hr].
  - assert (evolve (λ _, True) s1 s2) as He2' by (eapply evolve_weaken; [done|by right]).
    destruct (sfs_block_free_spec s2 b) as (s3 & -> & He3 & _); [apply He2|by apply Hu2|]. cbn [bind].
    assert (evolve (λ _, True) s s3) as He.
    { eapply (evolve_weaken (used s)); [|done]. eapply evolve_trans; [by eapply evolve_weaken|].
      eapply evolve_trans; [by eapply evolve_weaken|]. eapply evolve_weaken; [done|]. by intros x _ Hx ->. }
    destruct (Hclean s3 ret He Hr) as (s' & -> & He' & He''). eexists _, _, _, _. split_and!; try done.
    intros Hsn Hp. destruct Hr. by apply Hso2, He1.
  - apply dec_stable in Hr as ->. eexists _, _, _, _. split; [done|]. split_and!; [|done| |done].
    + eapply evolve_trans; [by eapply evolve_weaken|]. eapply evolve_weaken; [done|]. by left.
    + intros _. split_and!; [done..|by apply Hu2|by apply Hu2| | |].
      * rewrite <- Hzb. eapply ev_blk; [done|by left|done].
      * unfold unused in *. by rewrite Esup.
      * intros j Hj. rewrite Hw by done. case_decide; [done|]. unfold ind_entry. by rewrite (ev_blk _ _ _ He1).
Qed.

(** The room for new blocks: one may be needed for the indirect block. *)
Definition room s d : Z := unused s - (if di_indirect d =? 0 then 1 else 0).

(** Block [b] becomes the last one of the file. *)
Lemma file_append s s' d d' own b :
  file_inv s d own → sfs_inv s' → (∀ x, own x → used s x) →
  di_blocks d < MAX_BLOCKS → dinode_ok d' → di_size d' = di_size d → di_blocks d' = di_blocks d + 1 →
  (∀ x, used s x → used s' x) → ¬ used s b → used s' b → b ≠ di_indirect d' → sblk s' b = zero_block →
  (∀ x, used s x → x ≠ di_indirect d → sblk s' x = sblk s x) →
  di_indirect d' = di_indirect d ∨ (di_indirect d = 0 ∧ ¬ used s (di_indirect d') ∧ used s' (di_indirect d')) →
  (∀ j, 0 ≤ j < MAX_BLOCKS → fblock s' d' j = if decide (j = di_blocks d) then b else fblock s d j) →
  file_inv s' d' own ∧ fdata s' d' = fdata s d ++ [zero_block].
Proof.
  intros Hf Hs' Hown Hlt Hok Hsz Hbl Hmono Hnb Hub Hbi Hzb Hkeep Hind Hfb. pose proof (fi_pos _ _ _ Hf).
  set (n := di_blocks d) in *.
  assert (∀ j, 0 ≤ j < n → fblock s' d' j = fblock s d j) as Hold.
  { intros j Hj. rewrite Hfb, decide_False by (unfold MAX_BLOCKS in *; lia). done. }
  assert (fblock s' d' n = b) as Hnew by (rewrite Hfb, decide_True by (done || lia); done).
  split.
  - split; [done|lia| | | |].
    + intros j Hj. destruct (decide (j = n)) as [->|].
      * rewrite Hnew. split_and!; [done| |done]. intros Ho. by apply Hnb, Hown.
      * rewrite Hold by lia. pose proof (fi_used _ _ _ Hf j ltac:(lia)) as (Hu & Ho & Hne). split_and!; [by apply Hmono|done|].
        destruct Hind as [->|(_ & Hni & _)]; [done|]. by intros E; rewrite <- E in Hni.
    + intros j Hj. rewrite Hfb, decide_False by lia. apply Hf. lia.
    + assert (∀ j, 0 ≤ j < n → fblock s d j ≠ b) as Hnj.
      { intros j Hj E. pose proof (fi_used _ _ _ Hf j Hj) as (Hu & _). by rewrite E in Hu. }
      intros i j Hi Hj. destruct (decide (i = n)) as [->|], (decide (j = n)) as [->|]; [done| | |].
      * rewrite Hnew, Hold by lia. intros E. by destruct (Hnj j); [lia|].
      * rewrite Hnew, Hold by lia. intros E. by destruct (Hnj i); [lia|].
      * rewrite !Hold by lia. apply Hf; lia.
    + intros Hne. destruct Hind as [E|(_ & Hni & Hui)].
      * rewrite E in *. destruct (fi_ind _ _ _ Hf Hne). split; [by apply Hmono|done].
      * split; [done|]. intros Ho. by apply Hni, Hown.
  - unfold fdata. rewrite Hbl, seqZ_app, fmap_app by lia. f_equal.
    + apply list_fmap_ext. intros k j [-> Hk]%lookup_seqZ. rewrite Hold by lia.
      apply Hkeep; apply Hf; lia.
    + rewrite Z.add_0_l, seqZ_cons by lia. change (Z.pred 1) with 0. rewrite seqZ_nil by done. cbn [fmap list_fmap].
      by rewrite Hnew, Hzb.
Qed.

Lemma dinode_direct d i b : dinode_ok d → is_u32 b → dinode_ok (set_direct (<[i := b]> (di_direct d)) d).
Proof. intros [] Hb. split; cbn; try done; [by apply Forall_insert|by rewrite length_insert]. Qed.

Lemma dinode_indirect d b : dinode_ok d → is_u32 b → dinode_ok (set_indirect b d).
Proof. intros [] Hb. by split. Qed.

Lemma dinode_blocks d n : dinode_ok d → is_u32 n → dinode_ok (set_blocks n d).
Proof. intros [] Hb. by split. Qed.

Lemma dinode_size d n : dinode_ok d → is_u32 n → dinode_ok (set_size n d).
Proof. intros [] Hb. by split. Qed.

(** What the operations on blocks leave alone in an inode. *)
Record same_inode sin sin' : Prop := {
  sd_type : di_type (din sin') = di_type (din sin);
  sd_nlinks : di_nlinks (din sin') = di_nlinks (din sin);
  sd_ino : si_ino sin' = si_ino sin;
  sd_reclaim : reclaim_count sin' = reclaim_count sin
}.

Lemma same_inode_trans sin1 sin2 sin3 : same_inode sin1 sin2 → same_inode sin2 sin3 → same_inode sin1 sin3.
Proof. intros [] []. split; congruence. Qed.

(** The outcome of [sfs_bmap_get_nolock] for the block after the last one. *)
Definition appended own s sin (ret b : Z) s' sin' : Prop :=
  let d := din sin in
  let d' := set_blocks (di_blocks d + 1) (din sin') in
  evolve (λ x, x ≠ di_indirect d) s s' ∧ same_inode sin sin' ∧ di_size (din sin') = di_size d ∧
  di_blocks (din sin') = di_blocks d ∧
  (sound s → 0 < room s d → ret = 0) ∧
  (ret ≠ 0 → sin' = sin ∧ evolve (λ _, True) s s') ∧
  (ret = 0 → file_inv s' d' own ∧ fdata s' d' = fdata s d ++ [zero_block] ∧ fblock s' d' (di_blocks d) = b ∧
     used s' b ∧ room s' d' = room s d - 1).

Lemma get_new_direct s sin own :
  sfs_inv s → file_inv s (din sin) own → (∀ x, own x → used s x) → di_blocks (din sin) < 12 →
  ∃ ret b s' sin', sfs_bmap_get_nolock s sin (di_blocks (din sin)) true = Ok (ret, b, s', sin') ∧
    appended own s sin ret b s' sin'.
Proof.
  intros Hs Hf Hown Hlt. pose proof (fi_pos _ _ _ Hf) as [Hn _]. set (d := din sin) in *.
  pose proof (fi_hole _ _ _ Hf (di_blocks d) ltac:(unfold MAX_BLOCKS; lia)) as Hz.
  unfold fblock in Hz. rewrite (proj2 (Z.ltb_lt _ _)) in Hz by done.
  unfold sfs_bmap_get_nolock. change SFS_NDIRECT with 12. rewrite (proj2 (Z.ltb_lt _ _)) by done. fold d.
  destruct (di_direct d !! Z.to_nat (di_blocks d)) as [z|] eqn:Hb.
  2: { apply lookup_ge_None in Hb. rewrite (dk_ndirect _ (fi_ok _ _ _ Hf)) in Hb. lia. }
  cbn in Hz. subst z. cbn [deref bind Z.eqb andb].
  destruct (sfs_block_alloc_spec s Hs) as (ret & b & s' & -> & He & Hok & Hso & _). cbn [bind].
  assert (evolve (λ x, x ≠ di_indirect d) s s') as He' by by eapply evolve_weaken.
  destruct (decide (ret ≠ 0)) as [Hr|Hr].
  { eexists _, _, _, _. split; [done|]. unfold appended. fold d. split_and!; try done.
    intros Hsn Hp. apply Hso; [done|]. unfold room in Hp. destruct (di_indirect d =? 0); lia. }
  apply dec_stable in Hr as ->. destruct (Hok eq_refl) as (Hnb & Hub & Hzb & Hun).
  rewrite bmap_out_ok by (done || apply He). eexists _, _, _, _. split; [done|]. unfold appended. fold d. cbn [din set_dirty set_din].
  split_and!; try done. intros _.
  set (d' := set_blocks _ _). assert (is_u32 b) as Hb32 by (eapply used_u32; [apply He|done]).
  assert (di_indirect d' = di_indirect d) as Ei by done.
  assert (b ≠ di_indirect d) as Hbi.
  { intros ->. destruct (decide (di_indirect d = 0)) as [E|E]; [destruct Hub; lia|]. by apply Hnb, (fi_ind _ _ _ Hf). }
  assert (∀ j, 0 ≤ j < MAX_BLOCKS → fblock s' d' j = if decide (j = di_blocks d) then b else fblock s d j) as Hfb.
  { intros j Hj. destruct (Z.ltb_spec j 12) as [Hj12|Hj12]; unfold fblock.
    - rewrite (proj2 (Z.ltb_lt _ _)) by done. cbn [d' di_direct set_blocks set_direct]. case_decide as E.
      + subst. rewrite list_lookup_insert_eq; [done|]. by eapply lookup_lt_Some.
      + by rewrite list_lookup_insert_ne by lia.
    - rewrite (proj2 (Z.ltb_ge _ _)), decide_False by lia. rewrite Ei.
      destruct (Z.eqb_spec (di_indirect d) 0) as [|Hi0]; [done|]. unfold ind_entry.
      rewrite (ev_blk _ _ _ He) by (done || by apply Hf). done. }
  destruct (file_append s s' d d' own b) as [Hf' Hdata]; try done.
  - apply He.
  - unfold MAX_BLOCKS. lia.
  - apply dinode_blocks; [by apply dinode_direct; [apply Hf|]|unfold is_u32; lia].
  - intros x. by apply He.
  - intros x Hx _. by apply He.
  - by left.
  - split_and!; [done|done| |done|].
    + rewrite Hfb by (unfold MAX_BLOCKS; lia). by rewrite decide_True.
    + unfold room. rewrite Ei, Hun. lia.
Qed.

Lemma le_val_zeros n : le_val (replicate n 0) = 0.
Proof. induction n as [|n IH]; cbn; [done|]. by rewrite IH. Qed.

Lemma field_zero_block o n : field o n zero_block = 0.
Proof. unfold field, zero_block. rewrite drop_replicate, take_replicate. apply le_val_zeros. Qed.

(** The entry of the last block in the indirect block [ent]. *)
Lemma append_indirect s s' d own ent b :
  file_inv s d own → sfs_inv s' → (∀ x, own x → used s x) → 12 ≤ di_blocks d < MAX_BLOCKS →
  evolve (λ x, x ≠ di_indirect d) s s' →
  ent = di_indirect d ∨ (di_indirect d = 0 ∧ ¬ used s ent) →
  used s' ent → ¬ used s b → used s' b → b ≠ ent → sblk s' b = zero_block →
  (∀ j, 0 ≤ j < 1024 → ind_entry s' ent j =
     if decide (j = di_blocks d - 12) then b else if di_indirect d =? 0 then 0 else ind_entry s (di_indirect d) j) →
  let d' := set_blocks (di_blocks d + 1) (set_indirect ent d) in
  file_inv s' d' own ∧ fdata s' d' = fdata s d ++ [zero_block] ∧ fblock s' d' (di_blocks d) = b.
Proof.
  intros Hf Hs' Hown Hn He Hent Hue Hnb Hub Hbe Hzb Hent_j d'.
  assert (di_indirect d' = ent) as Ei by done.
  assert (ent ≠ 0) as Hent0 by (destruct Hue; lia).
  assert (∀ j, 0 ≤ j < MAX_BLOCKS → fblock s' d' j = if decide (j = di_blocks d) then b else fblock s d j) as Hfb.
  { intros j Hj. unfold fblock, MAX_BLOCKS in *. destruct (Z.ltb_spec j 12); [by rewrite decide_False by lia|].
    rewrite Ei, (proj2 (Z.eqb_neq _ _)), Hent_j by (done || lia). repeat case_decide; (done || lia). }
  destruct (file_append s s' d d' own b) as [Hf' Hdata]; try done; [lia| | | | |].
  - apply dinode_blocks; [|unfold is_u32, MAX_BLOCKS in *; lia].
    apply dinode_indirect; [apply Hf|]. by eapply used_u32.
  - intros x Hx. destruct (decide (x = di_indirect d)) as [->|Hne]; [|by apply He].
    destruct Hent as [<-|[E _]]; [done|]. rewrite E in Hx. destruct Hx. lia.
  - intros x Hx Hne. by apply He.
  - rewrite Ei. destruct Hent as [?|[? ?]]; [by left|by right].
  - split_and!; [done..|]. rewrite Hfb by lia. by rewrite decide_True.
Qed.

Lemma set_indirect_id d : set_indirect (di_indirect d) d = d.
Proof. by destruct d. Qed.

(** The outcome of [sfs_bmap_get_sub_nolock] that fills entry [k], which is empty. *)
Definition sub_filled s entp k (ret e b : Z) s' : Prop :=
  let cost := if entp =? 0 then 2 else 1 in
  evolve (λ x, x ≠ entp) s s' ∧
  (sound s → cost ≤ unused s → ret = 0) ∧
  (ret ≠ 0 → evolve (λ _, True) s s') ∧
  (ret = 0 → (e = entp ∨ (entp = 0 ∧ ¬ used s e)) ∧ used s' e ∧ ¬ used s b ∧ used s' b ∧ b ≠ e ∧ sblk s' b = zero_block ∧
     unused s' = unused s - cost ∧
     ∀ j, 0 ≤ j < 1024 → ind_entry s' e j = if decide (j = k) then b else if entp =? 0 then 0 else ind_entry s entp j).

Lemma get_sub_first s k :
  sfs_inv s → 0 ≤ k < 1024 →
  ∃ ret e b s', sfs_bmap_get_sub_nolock s 0 k true = Ok (ret, e, b, s') ∧ sub_filled s 0 k ret e b s'.
Proof.
  intros Hs Hk. unfold sfs_bmap_get_sub_nolock. change SFS_BLK_NENTRY with 1024.
  rewrite (proj2 (Z.ltb_lt k _)), decide_False by (lia || auto). cbn [negb].
  destruct (sfs_block_alloc_spec s Hs) as (ret & ent & s1 & -> & He1 & Hok1 & Hso1 & _). cbn [bind].
  destruct (decide (ret ≠ 0)) as [Hr|Hr].
  { eexists _, _, _, _. split; [done|]. split_and!; [by eapply evolve_weaken| |done|done].
    cbn. intros Hsn Hp. apply Hso1; [done|lia]. }
  apply dec_stable in Hr as ->. destruct (Hok1 eq_refl) as (Hne & Hue & Hze & Hun1).
  destruct (sub_new_ok s1 0 ent k) as (ret & e & b & s2 & -> & He2 & Hso2 & Hok2 & _); [apply He1|done|done|].
  assert (evolve (λ _, True) s s2) as He.
  { eapply (evolve_weaken (used s)); [|done]. eapply evolve_trans; [by eapply evolve_weaken|].
    eapply evolve_weaken; [done|]. by intros x _ Hx ->. }
  eexists _, _, _, _. split; [done|]. split_and!; [by eapply evolve_weaken| |done|].
  { cbn. intros Hsn Hp. apply Hso2; [by apply He1|lia]. }
  intros ->. destruct (Hok2 eq_refl) as (-> & Hnb & Hub & Hue2 & Hzb & Hun2 & Hj).
  split_and!; [by right|done| |done| |done|cbn; lia|].
  - intros Hu. by apply Hnb, He1.
  - by intros ->.
  - intros j Hj0. rewrite Hj by done. case_decide; [done|]. cbn. unfold ind_entry. rewrite Hze. apply field_zero_block.
Qed.

Lemma get_sub_next s ent k :
  sfs_inv s → used s ent → 0 ≤ k < 1024 → ind_entry s ent k = 0 →
  ∃ ret e b s', sfs_bmap_get_sub_nolock s ent k true = Ok (ret, e, b, s') ∧ sub_filled s ent k ret e b s'.
Proof.
  intros Hs Hue Hk Hz. unfold sfs_bmap_get_sub_nolock. change SFS_BLK_NENTRY with 1024.
  assert (ent ≠ 0) as Hent0 by (destruct Hue; lia). pose proof (proj2 (Z.eqb_neq _ _) Hent0) as Hb0.
  rewrite (proj2 (Z.ltb_lt k _)), decide_True by (done || lia).
  destruct (rbuf_word s ent k) as (ret & w & s1 & -> & Hst & Hw & Hso1); [apply Hs|done|done|]. cbn [bind].
  pose proof (evolve_quiet _ _ Hs Hst) as He1.
  destruct (decide (ret ≠ 0)) as [Hr|Hr].
  { eexists _, _, _, _. split; [done|]. split_and!; [by eapply evolve_weaken| |done|done]. intros Hsn _. by apply Hso1. }
  apply dec_stable in Hr as ->. rewrite Hw, Hz by done. cbn [Z.eqb negb orb].
  destruct (sub_new_ok s1 ent ent k) as (ret & e & b & s2 & -> & He2 & Hso2 & Hok2 & Hbad2); [apply He1|by apply He1|done|].
  assert (unused s1 = unused s) as Hun1 by (unfold unused; by rewrite (st_super _ _ _ Hst)).
  eexists _, _, _, _. split; [done|]. unfold sub_filled. rewrite Hb0. split_and!.
  - eapply evolve_trans; [by eapply evolve_weaken|done].
  - intros Hsn Hp. apply Hso2; [by apply He1|lia].
  - intros Hr. eapply evolve_trans; [done|]. by apply Hbad2.
  - intros ->. destruct (Hok2 eq_refl) as (-> & Hnb & Hub & Hue2 & Hzb & Hun2 & Hj).
    split_and!; [by left|done| |done| |done|lia|].
    + intros Hu. by apply Hnb, He1.
    + intros ->. apply Hnb. by apply He1.
    + intros j Hj0. rewrite Hj by done. case_decide; [done|]. unfold ind_entry. by rewrite (ev_blk _ _ _ He1).
Qed.

Lemma get_new_indirect s sin own :
  sfs_inv s → file_inv s (din sin) own → (∀ x, own x → used s x) → 12 ≤ di_blocks (din sin) < MAX_BLOCKS →
  ∃ ret b s' sin', sfs_bmap_get_nolock s sin (di_blocks (din sin)) true = Ok (ret, b, s', sin') ∧
    appended own s sin ret b s' sin'.
Proof.
  intros Hs Hf Hown Hn. set (d := din sin) in *. set (k := di_blocks d - 12).
  assert (0 ≤ k < 1024) as Hk by (unfold MAX_BLOCKS in *; lia).
  pose proof (fi_hole _ _ _ Hf (di_blocks d) ltac:(lia)) as Hz. unfold fblock in Hz.
  rewrite (proj2 (Z.ltb_ge _ _)) in Hz by lia. fold k in Hz.
  unfold sfs_bmap_get_nolock. change SFS_NDIRECT with 12. rewrite (proj2 (Z.ltb_ge _ _)) by lia. fold d. fold k.
  change SFS_BLK_NENTRY with 1024. rewrite (proj2 (Z.ltb_lt k _)) by lia.
  assert (∃ ret e b s', sfs_bmap_get_sub_nolock s (di_indirect d) k true = Ok (ret, e, b, s') ∧
    sub_filled s (di_indirect d) k ret e b s') as (ret & e & b & s' & -> & He & Hso & Hbad & Hok).
  { destruct (Z.eqb_spec (di_indirect d) 0) as [->|E]; [by apply get_sub_first|].
    apply get_sub_next; try done. by apply Hf. }
  assert (sound s → 0 < room s d → ret = 0) as Hso'.
  { intros Hsn Hp. apply Hso; [done|]. unfold room in Hp. destruct (di_indirect d =? 0); lia. }
  cbn [bind]. destruct (decide (ret ≠ 0)) as [Hr|Hr].
  { eexists _, _, _, _. split; [done|]. unfold appended. fold d. split_and!; try done. intros _. by split; [|apply Hbad]. }
  apply dec_stable in Hr as ->. destruct (Hok eq_refl) as (Hent & Hue & Hnb & Hub & Hbe & Hzb & Hun & Hj).
  destruct (append_indirect s s' d own e b) as (Hf' & Hd' & Hb'); try done; [apply He|].
  set (sin' := if decide (e ≠ di_indirect d) then set_dirty true (set_din (set_indirect e d) sin) else sin).
  assert (din sin' = set_indirect e d) as Ed.
  { unfold sin'. destruct (decide (e ≠ di_indirect d)) as [|Hne]; [done|]. apply dec_stable in Hne as ->. by rewrite set_indirect_id. }
  exists 0, b, s', sin'. split.
  - unfold sin'. destruct (decide (e ≠ di_indirect d)) as [Hne|Hne]; [|by rewrite bmap_out_ok by (done || apply He)].
    destruct Hent as [?|[-> _]]; [done|]. by rewrite bmap_out_ok by (done || apply He).
  - unfold appended. fold d. rewrite Ed.
    split_and!; [done| |done|done|done|done|].
    { split; rewrite ?Ed; try done; unfold sin'; by destruct (decide (e ≠ di_indirect d)). }
    intros _. split_and!; try done. unfold room. cbn [di_indirect set_blocks set_indirect]. rewrite Hun.
    rewrite (proj2 (Z.eqb_neq e 0)) by (destruct Hue; lia). destruct (di_indirect d =? 0); lia.
Qed.

(** ** sfs_bmap_load_nolock *)

(** The file after [sfs_bmap_load_nolock] of block [i]. *)
Definition loaded own s sin (i ret b : Z) s' sin' : Prop :=
  let d := din sin in
  let d' := din sin' in
  let n := di_blocks d in
  evolve (λ x, x ≠ di_indirect d) s s' ∧ same_inode sin sin' ∧ di_size d' = di_size d ∧ file_inv s' d' own ∧
  di_blocks d' = (if decide (ret = 0 ∧ i = n) then n + 1 else n) ∧
  fdata s' d' = (if decide (ret = 0 ∧ i = n) then fdata s d ++ [zero_block] else fdata s d) ∧
  (ret = 0 → b = fblock s' d' i ∧ used s' b ∧ room s' d' = room s d - (if decide (i = n) then 1 else 0)) ∧
  (sound s → i = n → 0 < room s d → ret = 0) ∧ (sound s → i < n → ret = 0).

Lemma load_old s sin own i :
  sfs_inv s → file_inv s (din sin) own → 0 ≤ i < di_blocks (din sin) →
  ∃ ret b s', sfs_bmap_load_nolock s sin i = Ok (ret, b, s', sin) ∧ evolve (λ _, True) s s' ∧ unused s' = unused s ∧
    (ret = 0 → b = fblock s (din sin) i ∧ used s' b) ∧ (sound s → ret = 0).
Proof.
  intros Hs Hf Hi. pose proof (fi_blocks _ _ _ Hf). pose proof (fi_used _ _ _ Hf i Hi) as (Hu & _).
  unfold sfs_bmap_load_nolock. rewrite (proj2 (Z.leb_le _ _)), (proj2 (Z.eqb_neq _ _)) by lia.
  destruct (bmap_get_old s sin own i false) as (ret & b & s' & -> & He & Hun & Hb & Hso); [done|done|lia|by left|].
  cbn [bind]. destruct (decide (ret ≠ 0)) as [Hr|Hr]; [by eexists _, _, _|]. apply dec_stable in Hr as ->.
  rewrite (Hb eq_refl). assert (used s' (fblock s (din sin) i)) by (by apply He).
  rewrite used_inuse by (done || apply He). cbn [bind]. by eexists _, _, _.
Qed.

Lemma load_new s sin own :
  sfs_inv s → file_inv s (din sin) own → (∀ x, own x → used s x) → di_blocks (din sin) < MAX_BLOCKS →
  ∃ ret b s' sin', sfs_bmap_load_nolock s sin (di_blocks (din sin)) = Ok (ret, b, s', sin') ∧
    loaded own s sin (di_blocks (din sin)) ret b s' sin'.
Proof.
  intros Hs Hf Hown Hn. pose proof (fi_pos _ _ _ Hf) as [Hn0 _].
  unfold sfs_bmap_load_nolock. rewrite (proj2 (Z.leb_le _ _)), Z.eqb_refl by lia.
  assert (∃ ret b s' sin', sfs_bmap_get_nolock s sin (di_blocks (din sin)) true = Ok (ret, b, s', sin') ∧
    appended own s sin ret b s' sin') as (ret & b & s' & sin' & -> & He & Hsame & Hsz & Hbl & Hso & Hbad & Hok).
  { destruct (decide (di_blocks (din sin) < 12)); [by apply get_new_direct|apply get_new_indirect; try done; lia]. }
  cbn [bind]. unfold loaded. destruct (decide (ret ≠ 0)) as [Hr|Hr].
  - destruct (Hbad Hr) as [-> He']. destruct (file_evolve_all _ _ _ _ Hf He') as (Hf' & Hd' & _).
    eexists _, _, _, _. split; [done|]. rewrite !(decide_False (P := ret = 0 ∧ _)) by naive_solver.
    split_and!; try done; try lia. intros Hsn _ Hp. by apply Hso.
  - apply dec_stable in Hr as ->. destruct (Hok eq_refl) as (Hf' & Hd' & Hb & Hu & Hrm).
    rewrite used_inuse by (done || apply He). cbn [bind]. eexists _, _, _, _. split; [done|].
    rewrite u32_small by (unfold MAX_BLOCKS in *; lia). rewrite Hbl in *.
    rewrite !decide_True by done. split_and!; try done; try (by destruct Hsame).
Qed.

Lemma load_spec s sin own i :
  sfs_inv s → file_inv s (din sin) own → (∀ x, own x → used s x) → 0 ≤ i ≤ di_blocks (din sin) → i < MAX_BLOCKS →
  ∃ ret b s' sin', sfs_bmap_load_nolock s sin i = Ok (ret, b, s', sin') ∧ loaded own s sin i ret b s' sin'.
Proof.
  intros Hs Hf Hown Hi Hmax. destruct (decide (i = di_blocks (din sin))) as [->|Hne]; [by apply load_new|].
  destruct (load_old s sin own i Hs Hf) as (ret & b & s' & -> & He & Hun & Hb & Hso); [lia|].
  destruct (file_evolve_all _ _ _ _ Hf He) as (Hf' & Hd' & Hfb).
  eexists _, _, _, _. split; [done|]. unfold loaded. rewrite !(decide_False (P := ret = 0 ∧ _)) by naive_solver.
  assert (∀ x y : Z, (if decide (i = di_blocks (din sin)) then x else y) = y) as Hni by (intros; by rewrite decide_False).
  cbv zeta. split_and!; try done; [by eapply evolve_weaken| |by auto].
  intros Hr. rewrite Hfb. destruct (Hb Hr) as [? Hu]. split_and!; [done|by subst|]. rewrite Hni. unfold room. lia.
Qed.

(** ** Removing the last block *)

Lemma file_drop_last s s' d d' own :
  file_inv s d own → 0 < di_blocks d → dinode_ok d' → di_blocks d' = di_blocks d - 1 → di_indirect d' = di_indirect d →
  (∀ j, 0 ≤ j < MAX_BLOCKS → fblock s' d' j = if decide (j = di_blocks d - 1) then 0 else fblock s d j) →
  (∀ x, used s x → x ≠ fblock s d (di_blocks d - 1) → used s' x) →
  (∀ x, used s x → x ≠ fblock s d (di_blocks d - 1) → x ≠ di_indirect d → sblk s' x = sblk s x) →
  file_inv s' d' own ∧ fdata s' d' = take (Z.to_nat (di_blocks d - 1)) (fdata s d).
Proof.
  intros Hf Hpos Hok Hbl Hind Hfb Hu Hk. pose proof (fi_blocks _ _ _ Hf) as Hmax. set (n := di_blocks d) in *.
  assert (∀ j, 0 ≤ j < n - 1 → fblock s' d' j = fblock s d j ∧ fblock s d j ≠ fblock s d (n - 1)) as Hold.
  { intros j Hj. split; [by rewrite Hfb, decide_False by lia|]. intros E%(fi_inj _ _ _ Hf); lia. }
  split.
  - split; [done|lia| | | |].
    + intros j Hj. destruct (Hold j) as [-> Hne]; [lia|]. destruct (fi_used _ _ _ Hf j) as (? & ? & ?); [lia|].
      rewrite Hind. split_and!; [by apply Hu|done|done].
    + intros j Hj. rewrite Hfb by lia. case_decide; [done|]. apply Hf. lia.
    + intros i j Hi Hj. rewrite (proj1 (Hold i ltac:(lia))), (proj1 (Hold j ltac:(lia))). apply Hf; lia.
    + rewrite Hind. intros Hne. destruct (fi_ind _ _ _ Hf Hne). split; [|done]. apply Hu; [done|].
      intros E. destruct (fi_used _ _ _ Hf (n - 1)) as (_ & _ & Hx); [lia|]. by rewrite <- E in Hx.
  - unfold fdata. rewrite Hbl, <- fmap_take. fold n.
    assert (take (Z.to_nat (n - 1)) (seqZ 0 n) = seqZ 0 (n - 1)) as ->.
    { replace n with (n - 1 + 1) at 2 by lia. rewrite seqZ_app by lia. apply take_app_length'. by rewrite length_seqZ. }
    apply list_fmap_ext. intros k j [-> Hj]%lookup_seqZ. destruct (Hold (0 + Z.of_nat k)) as [-> Hne]; [lia|].
    apply Hk; try done; apply Hf; lia.
Qed.

(** The file after an attempt to remove its last block. *)
Definition dropped own s sin (ret : Z) s' sin' : Prop :=
  let d := din sin in
  let d' := din sin' in
  let n := di_blocks d in
  evolve (λ x, x ≠ di_indirect d ∧ x ≠ fblock s d (n - 1)) s s' ∧ same_inode sin sin' ∧ di_size d' = di_size d ∧
  di_indirect d' = di_indirect d ∧ file_inv s' d' own ∧
  di_blocks d' = (if decide (ret = 0) then n - 1 else n) ∧
  fdata s' d' = (if decide (ret = 0) then take (Z.to_nat (n - 1)) (fdata s d) else fdata s d) ∧
  unused s' = (if decide (ret = 0) then unused s + 1 else unused s) ∧ (sound s → ret = 0).

(** [sfs_bmap_free_nolock] of the last block, which leaves [di_blocks] to its caller. *)
Definition freed own s sin (ret : Z) s' sin' : Prop :=
  di_blocks (din sin') = di_blocks (din sin) ∧
  dropped own s sin ret s' (if decide (ret = 0) then set_din (set_blocks (di_blocks (din sin) - 1) (din sin')) sin' else sin').

Lemma free_direct s sin own :
  sfs_inv s → file_inv s (din sin) own → 0 < di_blocks (din sin) ≤ 12 →
  ∃ s' sin', sfs_bmap_free_nolock s sin (di_blocks (din sin) - 1) = Ok (0, s', sin') ∧ freed own s sin 0 s' sin'.
Proof.
  intros Hs Hf Hn. set (d := din sin) in *. set (i := di_blocks d - 1).
  destruct (fi_used _ _ _ Hf i) as (Hu & Ho & Hi); [lia|]. assert (fblock s d i ≠ 0) as Hnz by (destruct Hu; lia).
  assert (fblock s d i = default 0 (di_direct d !! Z.to_nat i)) as Efb by (unfold fblock; by rewrite (proj2 (Z.ltb_lt _ _)) by lia).
  unfold sfs_bmap_free_nolock. change SFS_NDIRECT with 12. rewrite (proj2 (Z.ltb_lt _ _)) by lia. fold d.
  destruct (di_direct d !! Z.to_nat i) as [b|] eqn:Hb; [|by rewrite Efb in Hnz]. cbn in Efb. subst b. cbn [deref bind].
  rewrite (proj2 (Z.eqb_neq _ _) Hnz). cbn [negb].
  destruct (sfs_block_free_spec s (fblock s d i)) as (s' & -> & He & Hun & Hu' & Hblk); [done|done|]. cbn [bind].
  eexists _, _. split; [done|]. split; [done|]. rewrite decide_True by done. cbn [din set_dirty set_din]. fold d.
  set (d' := set_blocks _ _).
  destruct (file_drop_last s s' d d' own) as [Hf' Hd']; try done; [lia| | | |].
  - apply dinode_blocks; [by apply dinode_direct; [apply Hf|]|unfold is_u32; lia].
  - intros j Hj. unfold fblock at 1. destruct (Z.ltb_spec j 12).
    + cbn [d' di_direct set_blocks set_direct]. fold i. case_decide as E.
      * subst j. by rewrite list_lookup_insert_eq by (by eapply lookup_lt_Some).
      * rewrite list_lookup_insert_ne by lia. unfold fblock. by rewrite (proj2 (Z.ltb_lt _ _)) by lia.
    + rewrite decide_False by lia. unfold fblock. rewrite (proj2 (Z.ltb_ge _ _)) by lia. unfold ind_entry. by rewrite Hblk.
  - intros x Hx Hne. by apply Hu'.
  - unfold dropped. fold d. fold i. split_and!; try done. eapply evolve_weaken; [done|]. by intros x _ [].
Qed.

Lemma free_sub_spec s ent k :
  sfs_inv s → used s ent → 0 ≤ k < 1024 → used s (ind_entry s ent k) → ind_entry s ent k ≠ ent →
  ∃ ret s', sfs_bmap_free_sub_nolock s ent k = Ok (ret, s') ∧ evolve (λ x, x ≠ ent ∧ x ≠ ind_entry s ent k) s s' ∧
    (sound s → ret = 0) ∧
    (ret ≠ 0 → evolve (λ _, True) s s' ∧ unused s' = unused s) ∧
    (ret = 0 → unused s' = unused s + 1 ∧ (∀ x, used s x → x ≠ ind_entry s ent k → used s' x) ∧
       ∀ j, 0 ≤ j < 1024 → ind_entry s' ent j = if decide (j = k) then 0 else ind_entry s ent j).
Proof.
  intros Hs Hent Hk Hb Hbe. set (b := ind_entry s ent k) in *. assert (b ≠ 0) as Hnz by (destruct Hb; lia).
  unfold sfs_bmap_free_sub_nolock. rewrite used_inuse by done. cbn [bind andb]. change SFS_BLK_NENTRY with 1024.
  rewrite (proj2 (Z.ltb_lt k _)) by lia.
  destruct (rbuf_word s ent k) as (ret & w & s1 & -> & Hst1 & Hw & Hso1); [apply Hs|done|done|]. cbn [bind].
  pose proof (evolve_quiet _ _ Hs Hst1) as He1.
  assert (unused s1 = unused s) as Hun1 by (unfold unused; by rewrite (st_super _ _ _ Hst1)).
  destruct (decide (ret ≠ 0)) as [Hr|Hr].
  { eexists _, _. split; [done|]. split_and!; try done. by eapply evolve_weaken. }
  apply dec_stable in Hr as ->. rewrite Hw by done. fold b. rewrite (proj2 (Z.eqb_neq _ _) Hnz). cbn [negb].
  destruct (wbuf_word s1 ent k 0) as (ret & s2 & -> & He2 & Esup & Efm & Hw2 & Hso2); [apply He1|by apply He1|done|done|].
  cbn [bind]. assert (unused s2 = unused s) as Hun2 by (rewrite <- Hun1; unfold unused; by rewrite Esup).
  destruct (decide (ret ≠ 0)) as [Hr|Hr].
  { assert (evolve (λ _, True) s s2) as He by (eapply evolve_trans; [done|]; eapply evolve_weaken; [done|by right]).
    eexists _, _. split; [done|]. split_and!; [by eapply evolve_weaken| |done|done]. by intros ?%(ev_sound _ _ _ He1)%Hso2. }
  apply dec_stable in Hr as ->.
  assert (∀ x, used s2 x ↔ used s1 x) as Hu2 by (intros x; unfold used; by rewrite Esup, Efm).
  destruct (sfs_block_free_spec s2 b) as (s3 & -> & He3 & Hun3 & Hu3 & Hblk3); [apply He2|by apply Hu2, He1|]. cbn [bind].
  eexists _, _. split; [done|]. split_and!; [|done|done|].
  - eapply evolve_trans; [by eapply evolve_weaken|]. eapply evolve_trans; eapply evolve_weaken; [done| |done|].
    + intros x _ []. by left.
    + by intros x _ [].
  - intros _. split_and!; [lia| |].
    + intros x Hx Hne. apply Hu3. split; [|done]. by apply Hu2, He1.
    + intros j Hj. unfold ind_entry at 1. rewrite Hblk3. fold (ind_entry s2 ent j). rewrite Hw2 by done.
      case_decide; [done|]. unfold ind_entry. by rewrite (ev_blk _ _ _ He1).
Qed.

Lemma free_indirect s sin own :
  sfs_inv s → file_inv s (din sin) own → 12 < di_blocks (din sin) →
  ∃ ret s' sin', sfs_bmap_free_nolock s sin (di_blocks (din sin) - 1) = Ok (ret, s', sin') ∧ freed own s sin ret s' sin'.
Proof.
  intros Hs Hf Hn. pose proof (fi_blocks _ _ _ Hf) as Hmax. set (d := din sin) in *. set (i := di_blocks d - 1).
  unfold MAX_BLOCKS in Hmax. assert (i <? 12 = false) as Hi12 by lia.
  destruct (fi_used _ _ _ Hf i) as (Hu & Ho & Hne); [lia|]. assert (fblock s d i ≠ 0) as Hnz by (destruct Hu; lia).
  assert (di_indirect d ≠ 0) as Hi0.
  { intros E. unfold fblock in Hnz. by rewrite Hi12, E in Hnz. }
  assert (fblock s d i = ind_entry s (di_indirect d) (i - 12)) as Efb.
  { unfold fblock. by rewrite Hi12, (proj2 (Z.eqb_neq _ _) Hi0). }
  unfold sfs_bmap_free_nolock. change SFS_NDIRECT with 12. change SFS_BLK_NENTRY with 1024. rewrite Hi12. fold d.
  rewrite (proj2 (Z.ltb_lt (i - 12) _)), (proj2 (Z.eqb_neq _ _) Hi0) by lia. cbn [negb].
  rewrite Efb in *.
  destruct (free_sub_spec s (di_indirect d) (i - 12)) as (ret & s' & -> & He & Hso & Hbad & Hok);
    [done|by apply Hf|lia|done|done|]. cbn [bind].
  eexists _, _, _. split; [done|]. split; [done|]. destruct (decide (ret = 0)) as [->|Hr].
  - destruct (Hok eq_refl) as (Hun & Hu' & Hj). unfold dropped. cbn [din set_din]. fold d. set (d' := set_blocks _ _).
    destruct (file_drop_last s s' d d' own) as [Hf' Hd']; try done; [lia| | | | |].
    + apply dinode_blocks; [apply Hf|unfold is_u32; lia].
    + intros j Hj'. unfold fblock. change (di_direct d') with (di_direct d). change (di_indirect d') with (di_indirect d).
      destruct (Z.ltb_spec j 12); [by rewrite decide_False by lia|]. rewrite (proj2 (Z.eqb_neq _ _) Hi0).
      rewrite Hj by (unfold MAX_BLOCKS in *; lia). fold i. repeat case_decide; (done || lia).
    + fold i. by rewrite Efb.
    + fold i. rewrite Efb. intros x Hx Hx1 Hx2. by apply He.
    + fold i. rewrite Efb. split_and!; try done.
  - destruct (Hbad Hr) as [He' Hun]. destruct (file_evolve_all _ _ _ _ Hf He') as (Hf' & Hd' & _).
    unfold dropped. fold d. fold i. rewrite Efb, !decide_False by done. by split_and!.
Qed.

Lemma truncate_spec s sin own :
  sfs_inv s → file_inv s (din sin) own → 0 < di_blocks (din sin) →
  ∃ ret s' sin', sfs_bmap_truncate_nolock s sin = Ok (ret, s', sin') ∧ dropped own s sin ret s' sin'.
Proof.
  intros Hs Hf Hn. pose proof (fi_blocks _ _ _ Hf) as Hmax. unfold MAX_BLOCKS in Hmax.
  unfold sfs_bmap_truncate_nolock. rewrite (proj2 (Z.eqb_neq _ _)), u32_small by lia. cbn [negb].
  assert (∃ ret s' sin', sfs_bmap_free_nolock s sin (di_blocks (din sin) - 1) = Ok (ret, s', sin') ∧
    freed own s sin ret s' sin') as (ret & s' & sin' & -> & Hbl & Hd).
  { destruct (decide (di_blocks (din sin) ≤ 12)).
    - destruct (free_direct s sin own) as (s' & sin' & ? & ?); [done|done|lia|]. by eexists _, _, _.
    - apply free_indirect; try done; lia. }
  cbn [bind]. destruct (decide (ret ≠ 0)) as [Hr|Hr].
  - rewrite decide_False in Hd by done. by eexists _, _, _.
  - apply dec_stable in Hr as ->. rewrite decide_True in Hd by done. rewrite Hbl, u32_small by lia.
    eexists _, _, _. split; [done|]. destruct Hd as (He & [] & Hd). split; [done|]. split; [by split|exact Hd].
Qed.
End sfs_map.
