(* ===== verification/SfsFile.v ===== *)
(** * The content of a file

    [fbytes s d] is what the blocks of a file hold.  [sfs_io_nolock] writes a buffer into
    it at an offset, or reads from it, block by block; [truncfile] shortens it or
    lengthens it with blocks of zeros.  Whatever the device reports, the blocks of others
    keep their content and the bytes that are said to be written are written. *)

From S2P Require Import Prelude Bitmap SfsDisk Sfs SfsInv SfsMap.

(** ** Blocks as one sequence of bytes *)

Lemma patch_app_l o c (l1 l2 : list Z) : (o + length c ≤ length l1)%nat → patch o c (l1 ++ l2) = patch o c l1 ++ l2.
Proof. intros Ho. unfold patch. rewrite take_app_le, drop_app_le by lia. by rewrite <- !app_assoc. Qed.

Lemma patch_app_r o c (l1 l2 : list Z) : (length l1 ≤ o)%nat → patch o c (l1 ++ l2) = l1 ++ patch (o - length l1) c l2.
Proof.
  intros Ho. unfold patch. rewrite take_app_ge, drop_app_ge by lia. rewrite <- !app_assoc. do 4 f_equal. lia.
Qed.

Lemma patch_nil o (l : list Z) : patch o [] l = l.
Proof. unfold patch. cbn. by rewrite Nat.add_0_r, take_drop. Qed.

Lemma patch_self o n (l : list Z) : patch o (take n (drop o l)) l = l.
Proof.
  unfold patch. rewrite <- drop_drop. set (r := drop o l).
  assert (take n r ++ drop (length (take n r)) r = r) as ->; [|apply take_drop].
  rewrite length_take. destruct (decide (n ≤ length r)%nat).
  - rewrite Nat.min_l by done. apply take_drop.
  - rewrite Nat.min_r, take_ge, drop_all, app_nil_r by lia. done.
Qed.

Definition all_blocks (L : list (list Z)) : Prop := Forall (λ l, length l = 4096%nat) L.

Lemma length_blocks L : all_blocks L → length (mjoin L) = (4096 * length L)%nat.
Proof. induction 1 as [|l L Hl HL IH]; [done|]. change (mjoin (l :: L)) with (l ++ mjoin L). rewrite length_app, IH, Hl. cbn [length]. lia. Qed.

Lemma join_insert L i o c b :
  all_blocks L → L !! i = Some b → (o + length c ≤ 4096)%nat →
  mjoin (<[i := patch o c b]> L) = patch (4096 * i + o) c (mjoin L).
Proof.
  intros HL. revert i. induction HL as [|l L Hl HL IH]; intros i Hi Ho; [done|].
  destruct i as [|i]; cbn [lookup list_lookup] in Hi.
  - simplify_eq. change (mjoin (<[0%nat:=patch o c b]> (b :: L))) with (patch o c b ++ mjoin L).
    change (mjoin (b :: L)) with (b ++ mjoin L). rewrite Nat.mul_0_r, Nat.add_0_l. rewrite patch_app_l by lia. done.
  - change (mjoin (<[S i:=patch o c b]> (l :: L))) with (l ++ mjoin (<[i:=patch o c b]> L)).
    change (mjoin (l :: L)) with (l ++ mjoin L). rewrite patch_app_r by lia. rewrite IH by done. do 2 f_equal. lia.
Qed.

Lemma join_slice L i o n b :
  all_blocks L → L !! i = Some b → (o + n ≤ 4096)%nat →
  take n (drop o b) = take n (drop (4096 * i + o) (mjoin L)).
Proof.
  intros HL. revert i. induction HL as [|l L Hl HL IH]; intros i Hi Ho; [done|].
  change (mjoin (l :: L)) with (l ++ mjoin L).
  destruct i as [|i]; cbn [lookup list_lookup] in Hi.
  - simplify_eq. rewrite Nat.mul_0_r, Nat.add_0_l, drop_app_le, take_app_le by (rewrite ?length_drop; lia). done.
  - rewrite drop_app_ge, (IH i) by (done || lia). do 2 f_equal. lia.
Qed.

(** [B'] is [B] with [c] written at [o], after zeros were appended where [B] was too short. *)
Record wrote (B B' : list Z) (o : nat) (c : list Z) : Prop := {
  wr_grow : (length B ≤ length B')%nat;
  wr_fits : c ≠ [] → (o + length c ≤ length B')%nat;
  wr_byte k : (k < length B')%nat →
    B' !! k = if decide (o ≤ k < o + length c)%nat then c !! (k - o)%nat else if decide (k < length B)%nat then B !! k else Some 0
}.

Lemma wrote_grow B n o : wrote B (B ++ replicate n 0) o [].
Proof.
  split; [rewrite length_app; lia|done|]. intros k Hk. rewrite decide_False by (cbn; lia). case_decide.
  - by rewrite lookup_app_l.
  - rewrite length_app, length_replicate in Hk. rewrite lookup_app_r, lookup_replicate_2 by lia. done.
Qed.

Lemma wrote_refl B o : wrote B B o [].
Proof. pose proof (wrote_grow B 0 o) as Hw. by rewrite app_nil_r in Hw. Qed.

Lemma wrote_patch B o c : (o + length c ≤ length B)%nat → wrote B (patch o c B) o c.
Proof.
  intros Ho. split; rewrite ?length_patch by done; try done. intros k Hk. rewrite lookup_patch by done.
  case_decide; [done|]. by rewrite decide_True.
Qed.

Lemma wrote_trans B1 B2 B3 o c1 c2 :
  wrote B1 B2 o c1 → wrote B2 B3 (o + length c1) c2 → wrote B1 B3 o (c1 ++ c2).
Proof.
  intros [G1 F1 K1] [G2 F2 K2].
  assert (0 < length c1 → o + length c1 ≤ length B2)%nat as F1' by (destruct c1; [cbn; lia|auto]).
  split; [lia| |].
  - intros Hne. rewrite length_app. destruct c2; [|specialize (F2 ltac:(done)); lia].
    rewrite app_nil_r in Hne. specialize (F1 Hne). cbn. lia.
  - intros k Hk. rewrite K2, length_app by done. destruct (decide (o + length c1 ≤ k < o + length c1 + length c2)%nat).
    + rewrite decide_True, lookup_app_r by lia. f_equal. lia.
    + destruct (decide (k < length B2)%nat).
      * rewrite K1 by done. destruct (decide (o ≤ k < o + length c1)%nat).
        -- rewrite decide_True, lookup_app_l by lia. done.
        -- by rewrite (decide_False (P := (o ≤ k < _)%nat)) by lia.
      * by rewrite !decide_False by lia.
Qed.

Section sfs_file.
Context {D : Type} `{block_dev_laws D}.
Implicit Types (s : sfs_fs D) (sin : sfs_inode) (d : sfs_disk_inode) (own : Z → Prop).

Definition fbytes s d : list Z := mjoin (fdata s d).

Lemma fdata_blocks s d : io_inv s → all_blocks (fdata s d).
Proof. intros Hs. apply Forall_fmap, Forall_true. intros i. by apply sblk_length. Qed.

Lemma length_fdata s d : length (fdata s d) = Z.to_nat (di_blocks d).
Proof. unfold fdata. by rewrite length_fmap, length_seqZ. Qed.

Lemma length_fbytes s d : io_inv s → length (fbytes s d) = (4096 * Z.to_nat (di_blocks d))%nat.
Proof. intros Hs. unfold fbytes. by rewrite length_blocks, length_fdata by by apply fdata_blocks. Qed.

Lemma fdata_lookup s d i : 0 ≤ i < di_blocks d → fdata s d !! Z.to_nat i = Some (sblk s (fblock s d i)).
Proof.
  intros Hi. unfold fdata. rewrite list_lookup_fmap.
  assert (seqZ 0 (di_blocks d) !! Z.to_nat i = Some i) as ->; [|done]. apply lookup_seqZ. lia.
Qed.

(** A write to a data block changes that block of the file and nothing else. *)
Lemma data_write s s' d own i v :
  file_inv s d own → 0 ≤ i < di_blocks d → evolve (λ x, x ≠ fblock s d i) s s' → sblk s' (fblock s d i) = v →
  (used s (fblock s d i) → used s' (fblock s d i)) →
  file_inv s' d own ∧ fdata s' d = <[Z.to_nat i := v]> (fdata s d) ∧ ∀ j, fblock s' d j = fblock s d j.
Proof.
  intros Hf Hi He Hv Hu'. pose proof (fi_used _ _ _ Hf i Hi) as (Hu & Ho & Hne).
  assert (∀ j, fblock s' d j = fblock s d j) as Hfb.
  { intros j. apply fblock_ext. intros Hind. apply He; [done|by apply Hf]. }
  assert (∀ x, used s x → used s' x) as Hmono.
  { intros x Hx. destruct (decide (x = fblock s d i)) as [->|]; [by apply Hu'|by apply He]. }
  split_and!; [| |done].
  - split; try apply Hf.
    + intros j Hj. rewrite Hfb. destruct (fi_used _ _ _ Hf j Hj) as (? & ? & ?). split_and!; [by apply Hmono|done|done].
    + intros j Hj. rewrite Hfb. by apply Hf.
    + intros j k Hj Hk. rewrite !Hfb. by apply Hf.
    + intros Hind. destruct (fi_ind _ _ _ Hf Hind). split; [by apply Hmono|done].
  - apply list_eq. intros k. destruct (decide (k < Z.to_nat (di_blocks d))%nat) as [Hk|Hk].
    2: { rewrite !lookup_ge_None_2; [done|rewrite length_insert, length_fdata; lia|rewrite length_fdata; lia]. }
    rewrite <- (Nat2Z.id k), fdata_lookup, Hfb by lia. destruct (decide (Z.of_nat k = i)) as [<-|Hki].
    + rewrite list_lookup_insert_eq by (rewrite length_fdata; lia). by rewrite Hv.
    + rewrite list_lookup_insert_ne, fdata_lookup by lia. f_equal. apply He; [|apply Hf; lia].
      intros E%(fi_inj _ _ _ Hf); lia.
Qed.

(** ** Writing *)

(** From [s] and [sin] to [s'] and [sin'] the bytes [c] were written at [o]. *)
Record writes own s sin (o : nat) (c : list Z) s' sin' : Prop := {
  ws_evolve : evolve own s s';
  ws_same : same_inode sin sin';
  ws_size : di_size (din sin') = di_size (din sin);
  ws_file : file_inv s' (din sin') own;
  ws_blocks : di_blocks (din sin) ≤ di_blocks (din sin');
  ws_bytes : wrote (fbytes s (din sin)) (fbytes s' (din sin')) o c
}.

Lemma writes_trans own s1 sin1 s2 sin2 s3 sin3 o c1 c2 :
  writes own s1 sin1 o c1 s2 sin2 → writes own s2 sin2 (o + length c1) c2 s3 sin3 →
  writes own s1 sin1 o (c1 ++ c2) s3 sin3.
Proof.
  intros [E1 S1 Z1 F1 B1 W1] [E2 S2 Z2 F2 B2 W2].
  split; [by eapply evolve_trans|by eapply same_inode_trans|congruence|done|lia|by eapply wrote_trans].
Qed.

Lemma own_not_ind s d own b : file_inv s d own → used s b → own b → b ≠ di_indirect d.
Proof. intros Hf Hu Ho ->. assert (di_indirect d ≠ 0) as Hne by (destruct Hu; lia). by apply (fi_ind _ _ _ Hf Hne). Qed.

(** A load writes nothing. *)
Lemma loaded_writes own s sin i ret b s' sin' o :
  sfs_inv s → file_inv s (din sin) own → loaded own s sin i ret b s' sin' → writes own s sin o [] s' sin'.
Proof.
  intros Hs Hf (He & Hsame & Hsz & Hf' & Hbl & Hd & _). split; try done.
  - eapply evolve_weaken; [done|]. intros x Hx Ho. by eapply own_not_ind.
  - rewrite Hbl. case_decide; lia.
  - unfold fbytes. rewrite Hd. case_decide; [|apply wrote_refl].
    rewrite join_app. change (mjoin [zero_block]) with (zero_block ++ []). rewrite app_nil_r. apply wrote_grow.
Qed.

Definition io_op (write whole : bool) s buf pos size b off : res (Z * list Z * sfs_fs D) :=
  if whole then sfs_block_op write s buf pos b else sfs_buf_op write s buf pos size b off.

(** The part of a block that a step may touch. *)
Record part_ok (whole : bool) (off size : Z) : Prop := {
  pk_off : 0 ≤ off < 4096;
  pk_size : 0 ≤ size;
  pk_end : off + size ≤ 4096;
  pk_whole : whole = true → off = 0 ∧ size = 4096
}.

Lemma op_write whole s buf pos size b off :
  sfs_inv s → used s b → part_ok whole off size → (pos + Z.to_nat size ≤ length buf)%nat →
  ∃ ret s', io_op true whole s buf pos size b off = Ok (ret, buf, s') ∧ evolve (λ x, x ≠ b ∨ ret ≠ 0) s s' ∧
    super s' = super s ∧ freemap s' = freemap s ∧ (sound s → ret = 0) ∧
    (ret = 0 → sblk s' b = patch (Z.to_nat off) (take (Z.to_nat size) (drop pos buf)) (sblk s b)).
Proof.
  intros Hs Hb [Hoff Hsize Hend Hwh] Hlen. destruct (used_in_volume s b Hb).
  assert (length (sblk s b) = 4096%nat) as Hl by (apply sblk_length, Hs).
  set (v := patch (Z.to_nat off) (take (Z.to_nat size) (drop pos buf)) (sblk s b)).
  assert (∃ ret s', io_op true whole s buf pos size b off = Ok (ret, buf, s') ∧
    io_step (if decide (ret = 0) then put_blk b v (sblk s) else sblk s) s s' ∧ (sound s → ret = 0))
    as (ret & s' & E & Hst & Hso).
  { unfold io_op. destruct whole.
    - destruct (Hwh eq_refl) as [-> ->]. unfold sfs_block_op.
      destruct (sfs_wblock_spec s (take 4096 (drop pos buf)) b) as (ret & s' & -> & Hst & Hso);
        [apply Hs|done|done|rewrite length_take, length_drop; lia|].
      cbn [bind]. eexists _, _. rewrite patch_self. split; [done|]. split; [|done]. unfold v.
      rewrite patch_whole by (rewrite length_take, length_drop; lia). done.
    - unfold sfs_buf_op. destruct (sfs_wbuf_spec s (drop pos buf) size b off) as (ret & s' & -> & Hst & Hso);
        try done; [apply Hs|rewrite length_drop; lia|]. cbn [bind]. by eexists _, _. }
  eexists _, _. split; [done|]. split_and!; [|by apply Hst|by apply Hst|done|].
  - destruct (decide (ret = 0)) as [->|Hr].
    + rewrite ?decide_True in Hst by done. eapply evolve_weaken; [eapply evolve_io; [done..|]; intros x; by right|].
      intros x _ [?|?]; done.
    + eapply evolve_weaken; [by apply evolve_quiet|]. done.
  - intros ->. rewrite decide_True in Hst by done. rewrite (st_blk _ _ _ Hst). unfold put_blk. by rewrite decide_True.
Qed.

(** The room that a write uses is the growth of the file. *)
Definition uses_room s sin s' sin' : Prop :=
  room s' (din sin') = room s (din sin) - (di_blocks (din sin') - di_blocks (din sin)).

Lemma chunk_write own whole s sin buf alen size i off :
  sfs_inv s → file_inv s (din sin) own → (∀ x, own x → used s x) → 0 ≤ i ≤ di_blocks (din sin) → i < MAX_BLOCKS →
  part_ok whole off size → 0 ≤ alen → (Z.to_nat alen + Z.to_nat size ≤ length buf)%nat →
  ∃ ret s' sin', io_chunk true whole s sin buf alen size i off =
      Ok (ret, if decide (ret = 0) then alen + size else alen, buf, s', sin') ∧
    writes own s sin (4096 * Z.to_nat i + Z.to_nat off)
      (if decide (ret = 0) then take (Z.to_nat size) (drop (Z.to_nat alen) buf) else []) s' sin' ∧
    (ret = 0 → di_blocks (din sin') = Z.max (di_blocks (din sin)) (i + 1) ∧ uses_room s sin s' sin') ∧
    (sound s → i < di_blocks (din sin) ∨ 0 < room s (din sin) → ret = 0).
Proof.
  intros Hs Hf Hown Hi Hmax Hp Ha Hlen. unfold io_chunk.
  destruct (load_spec s sin own i) as (ret & b & s1 & sin1 & -> & Hld); [done..|].
  pose proof (loaded_writes own s sin i ret b s1 sin1 (4096 * Z.to_nat i + Z.to_nat off) Hs Hf Hld) as Hw1.
  destruct Hld as (He1 & Hsame & Hsz & Hf1 & Hbl & Hd1 & Hrm & Hso1 & Hso1'). cbn [bind].
  assert (sound s → i < di_blocks (din sin) ∨ 0 < room s (din sin) → ret = 0) as Hso.
  { intros Hsn [Hlt|Hp0]; [by apply Hso1'|]. destruct (decide (i < di_blocks (din sin))); [by apply Hso1'|].
    apply Hso1; [done|lia|done]. }
  destruct (decide (ret ≠ 0)) as [Hr|Hr].
  { exists ret, s1, sin1. rewrite !decide_False by done. by split_and!. }
  apply dec_stable in Hr as ->. destruct (Hrm eq_refl) as (-> & Hub & Hroom). cbv zeta in Hbl.
  assert (di_blocks (din sin1) = Z.max (di_blocks (din sin)) (i + 1)) as Hbl1.
  { rewrite Hbl. destruct (decide (0 = 0 ∧ _)) as [Hc|Hc]; [lia|]. assert (i ≠ di_blocks (din sin)) by auto. lia. }
  destruct (op_write whole s1 buf (Z.to_nat alen) size (fblock s1 (din sin1) i) off)
    as (ret & s2 & Eop & He2 & Esup & Efm & Hso2 & Hv); [apply He1|done|done|done|].
  unfold io_op in Eop. rewrite Eop. cbn [bind].
  assert (uses_room s sin s2 sin1) as Hroom2.
  { unfold uses_room. unfold room, unused in *. rewrite Esup, Hroom, Hbl1.
    destruct (decide (i = di_blocks (din sin))); lia. }
  assert (sound s → i < di_blocks (din sin) ∨ 0 < room s (din sin) → ret = 0) as Hso'.
  { intros Hsn _. apply Hso2. by apply He1. }
  destruct (decide (ret ≠ 0)) as [Hr|Hr].
  - exists ret, s2, sin1. rewrite !decide_False by done. split_and!; try done.
    assert (evolve (λ _, True) s1 s2) as He2' by (eapply evolve_weaken; [done|by right]).
    destruct (file_evolve_all _ _ _ _ Hf1 He2') as (Hf2 & Hd2 & _). destruct Hw1. split; try done.
    + eapply evolve_trans; [done|]. by eapply evolve_weaken.
    + unfold fbytes. by rewrite Hd2.
  - apply dec_stable in Hr as ->. exists 0, s2, sin1. rewrite !decide_True by done. split_and!; try done.
    rewrite <- (app_nil_l (take _ _)). eapply writes_trans; [exact Hw1|]. rewrite Nat.add_0_r.
    assert (evolve (λ x, x ≠ fblock s1 (din sin1) i) s1 s2) as He2' by (eapply evolve_weaken; [done|by left]).
    destruct (data_write s1 s2 (din sin1) own i _ Hf1 ltac:(lia) He2' (Hv eq_refl)) as (Hf2 & Hd2 & _).
    { intros [? ?]. split; [by rewrite Esup|by rewrite Efm]. }
    split; [|done|done|done|done|].
    + eapply evolve_weaken; [done|]. intros x _ Ho ->. by destruct (fi_used _ _ _ Hf1 i ltac:(lia)) as (_ & Hno & _).
    + unfold fbytes. rewrite Hd2.
      assert (io_inv s1) as Hio1 by apply He1.
      assert (length (take (Z.to_nat size) (drop (Z.to_nat alen) buf)) = Z.to_nat size) as Hc
        by (rewrite length_take, length_drop; lia). destruct Hp.
      rewrite (join_insert _ (Z.to_nat i) (Z.to_nat off) _ (sblk s1 (fblock s1 (din sin1) i)));
        [|by apply fdata_blocks|apply fdata_lookup; lia|lia].
      apply wrote_patch. rewrite Hc. fold (fbytes s1 (din sin1)). rewrite length_fbytes by done. lia.
Qed.

Lemma writes_own own s sin o c s' sin' :
  (∀ x, own x → used s x) → writes own s sin o c s' sin' → ∀ x, own x → used s' x.
Proof. intros Hown Hw x Hx. eapply ev_used; [apply Hw|done|by apply Hown]. Qed.

Lemma take_drop_add n m a (l : list Z) : take (n + m) (drop a l) = take n (drop a l) ++ take m (drop (a + n) l).
Proof. by rewrite <- drop_drop, take_take_drop. Qed.

(** 1 if a part of a block is left. *)
Definition tail_block (last : Z) : Z := if last =? 0 then 0 else 1.

Lemma blocks_write own nblks s sin buf alen i last :
  sfs_inv s → file_inv s (din sin) own → (∀ x, own x → used s x) → 0 ≤ i ≤ di_blocks (din sin) →
  0 ≤ last < 4096 → i + Z.of_nat nblks + tail_block last ≤ MAX_BLOCKS →
  0 ≤ alen → alen + 4096 * Z.of_nat nblks + last ≤ Z.of_nat (length buf) →
  ∃ ret n s' sin', io_blocks nblks true s sin buf alen i last = Ok (ret, alen + n, buf, s', sin') ∧
    0 ≤ n ≤ 4096 * Z.of_nat nblks + last ∧
    writes own s sin (4096 * Z.to_nat i) (take (Z.to_nat n) (drop (Z.to_nat alen) buf)) s' sin' ∧
    (ret = 0 → n = 4096 * Z.of_nat nblks + last ∧
       di_blocks (din sin') = Z.max (di_blocks (din sin)) (i + Z.of_nat nblks + tail_block last) ∧ uses_room s sin s' sin') ∧
    (sound s → i + Z.of_nat nblks + tail_block last - di_blocks (din sin) ≤ room s (din sin) → ret = 0).
Proof.
  revert s sin alen i. induction nblks as [|nblks IH]; intros s sin alen i Hs Hf Hown Hi Hlast Hmax Ha Hlen; cbn [io_blocks].
  - unfold tail_block in *. destruct (Z.eqb_spec last 0) as [->|Hne]; cbn [negb].
    + exists 0, 0, s, sin. rewrite Z.add_0_r. split_and!; [done|lia|lia| |intros _; split_and!; [lia|lia|unfold uses_room; lia]|done].
      split; [by apply evolve_refl|done|done|done|lia|apply wrote_refl].
    + destruct (chunk_write own false s sin buf alen last i 0) as (ret & s' & sin' & -> & Hw & Hok & Hso);
        [done|done|done|lia|lia|split; (done || lia)|done|lia|].
      exists ret, (if decide (ret = 0) then last else 0), s', sin'. rewrite Nat.add_0_r in Hw.
      destruct (decide (ret = 0)) as [->|Hr]; [|rewrite Z.add_0_r]; (split_and!; [done|lia|lia|done| |]).
      * intros _. destruct (Hok eq_refl). split_and!; [lia|lia|done].
      * intros Hsn Hp. apply Hso; [done|lia].
      * done.
      * intros Hsn Hp. apply Hso; [done|lia].
  - destruct (chunk_write own true s sin buf alen SFS_BLKSIZE i 0) as (ret & s1 & sin1 & -> & Hw & Hok & Hso);
      [done|done|done|lia|unfold tail_block in *; destruct (last =? 0); lia|by split|done|unfold SFS_BLKSIZE; lia|].
    cbn [bind]. rewrite Nat.add_0_r in Hw. unfold SFS_BLKSIZE in *.
    assert (0 ≤ tail_block last ≤ 1) as Htl by (unfold tail_block; destruct (last =? 0); lia).
    destruct (decide (ret ≠ 0)) as [Hr|Hr].
    { rewrite decide_False in Hw by done. rewrite decide_False by done. exists ret, 0, s1, sin1. rewrite Z.add_0_r. split_and!; try done; [lia|].
      intros Hsn Hp. apply Hso; [done|lia]. }
    apply dec_stable in Hr as ->. rewrite decide_True in Hw by done. rewrite decide_True by done. destruct (Hok eq_refl) as [Hbl Hroom].
    destruct (IH s1 sin1 (alen + 4096) (i + 1)) as (ret & n & s2 & sin2 & -> & Hn & Hw2 & Hok2 & Hso2);
      [apply Hw|apply Hw|by eapply writes_own|lia|done|lia|lia|lia|].
    exists ret, (4096 + n), s2, sin2. split_and!; [by rewrite Z.add_assoc|lia|lia| | |].
    + rewrite Z2Nat.inj_add, take_drop_add by lia. eapply writes_trans; [exact Hw|].
      rewrite length_take, length_drop, Nat.min_l by lia.
      replace (4096 * Z.to_nat (i + 1))%nat with (4096 * Z.to_nat i + Z.to_nat 4096)%nat in Hw2 by lia.
      by replace (Z.to_nat (alen + 4096)) with (Z.to_nat alen + Z.to_nat 4096)%nat in Hw2 by lia.
    + intros E. destruct (Hok2 E) as (-> & Hbl2 & Hroom2). split_and!; [lia|lia|]. unfold uses_room in *. lia.
    + intros Hsn Hp. apply Hso2; [by apply Hw|]. unfold uses_room in Hroom. lia.
Qed.

(** The blocks that [n] bytes take. *)
Definition nblocks (n : Z) : Z := n / 4096 + tail_block (n mod 4096).

#[local] Ltac Zify.zify_post_hook ::= Z.to_euclidean_division_equations.

Lemma nblocks_bounds n : 0 ≤ n → n ≤ 4096 * nblocks n < n + 4096.
Proof. intros Hn. unfold nblocks, tail_block. destruct (Z.eqb_spec (n mod 4096) 0); lia. Qed.

Lemma steps_write own s sin buf offset endpos :
  sfs_inv s → file_inv s (din sin) own → (∀ x, own x → used s x) →
  0 ≤ offset < endpos → endpos ≤ 4096 * MAX_BLOCKS → offset / 4096 ≤ di_blocks (din sin) →
  endpos - offset ≤ Z.of_nat (length buf) →
  ∃ ret n s' sin', io_steps true s sin buf offset endpos = Ok (ret, n, buf, s', sin') ∧ 0 ≤ n ≤ endpos - offset ∧
    writes own s sin (Z.to_nat offset) (take (Z.to_nat n) buf) s' sin' ∧
    (ret = 0 → n = endpos - offset ∧ di_blocks (din sin') = Z.max (di_blocks (din sin)) (nblocks endpos) ∧ uses_room s sin s' sin') ∧
    (sound s → nblocks endpos - di_blocks (din sin) ≤ room s (din sin) → ret = 0).
Proof.
  intros Hs Hf Hown Hoff Hmax Hblk Hlen. pose proof (nblocks_bounds endpos ltac:(lia)) as Hnb.
  unfold MAX_BLOCKS in Hmax. unfold io_steps. cbv zeta. change SFS_BLKSIZE with 4096.
  set (i := offset / 4096) in *. set (off := offset mod 4096). set (last := endpos mod 4096).
  assert (offset = 4096 * i + off ∧ 0 ≤ off < 4096 ∧ 0 ≤ i) as (Eoff & Hoff4 & Hi) by (unfold i, off; lia).
  assert (endpos = 4096 * (endpos / 4096) + last ∧ 0 ≤ last < 4096 ∧ i ≤ endpos / 4096) as (Eend & Hlast & He) by (unfold last, i; lia).
  set (e := endpos / 4096) in *. assert (nblocks endpos = e + tail_block last) as Enb by done.
  clearbody i off last e. assert (0 ≤ tail_block last) by (unfold tail_block; destruct (last =? 0); lia).
  destruct (Z.eqb_spec off 0) as [->|Hne]; cbn [negb].
  - destruct (blocks_write own (Z.to_nat (e - i)) s sin buf 0 i last) as (ret & n & s' & sin' & -> & Hn & Hw & Hok & Hso);
      [done|done|done|lia|done|unfold MAX_BLOCKS; lia|done|lia|].
    exists ret, n, s', sin'. rewrite Z2Nat.id in * by lia. split_and!; [done|lia|lia| | |].
    + rewrite drop_0 in Hw. by replace (Z.to_nat offset) with (4096 * Z.to_nat i)%nat by lia.
    + intros E. destruct (Hok E) as (? & ? & ?). split_and!; [lia|lia|done].
    + intros Hsn Hp. apply Hso; [done|lia].
  - set (size := if negb (e - i =? 0) then 4096 - off else endpos - offset).
    assert (0 < size ∧ off + size ≤ 4096 ∧ offset + size ≤ endpos ∧ (e ≠ i → off + size = 4096) ∧ (e = i → offset + size = endpos))
      as (Hs1 & Hs2 & Hs3 & Hs4 & Hs5) by (unfold size; destruct (Z.eqb_spec (e - i) 0); cbn [negb]; lia).
    clearbody size.
    assert (e = i → tail_block last = 1) as Htail.
    { intros ->. unfold tail_block. rewrite (proj2 (Z.eqb_neq _ _)) by lia. done. }
    destruct (chunk_write own false s sin buf 0 size i off) as (ret & s1 & sin1 & -> & Hw & Hok & Hso);
      [done|done|done|lia|unfold MAX_BLOCKS; destruct (decide (e = i)); lia|split; (done || lia)|done|lia|]. cbn [bind].
    rewrite drop_0 in Hw. replace (4096 * Z.to_nat i + Z.to_nat off)%nat with (Z.to_nat offset) in Hw by lia.
    destruct (Z.eqb_spec ret 0) as [->|Hr]; cbn [negb orb].
    2: { rewrite decide_False in Hw by done. rewrite decide_False by done. exists ret, 0, s1, sin1.
      split_and!; try done; [lia|]. intros Hsn Hp. apply Hso; [done|]. destruct (decide (e = i)); lia. }
    rewrite decide_True in Hw by done. rewrite decide_True by done. destruct (Hok eq_refl) as [Hbl Hroom]. rewrite Z.add_0_l.
    destruct (Z.eqb_spec (e - i) 0) as [Eei|Hei].
    + exists 0, size, s1, sin1. split_and!; [done|lia|lia|done| |done]. intros _. split_and!; [lia|lia|done].
    + destruct (blocks_write own (Z.to_nat (e - i - 1)) s1 sin1 buf size (i + 1) last)
        as (ret & n & s2 & sin2 & -> & Hn & Hw2 & Hok2 & Hso2);
        [apply Hw|apply Hw|by eapply writes_own|lia|done|unfold MAX_BLOCKS; lia|lia|lia|].
      exists ret, (size + n), s2, sin2. rewrite Z2Nat.id in * by lia. split_and!; [done|lia|lia| | |].
      * replace (take (Z.to_nat (size + n)) buf) with (take (Z.to_nat size) buf ++ take (Z.to_nat n) (drop (Z.to_nat size) buf)).
        -- eapply writes_trans; [exact Hw|]. rewrite length_take, Nat.min_l by lia.
           by replace (Z.to_nat offset + Z.to_nat size)%nat with (4096 * Z.to_nat (i + 1))%nat by lia.
        -- rewrite Z2Nat.inj_add by lia. by rewrite <- (drop_0 buf), take_drop_add.
      * intros E. destruct (Hok2 E) as (-> & Hbl2 & Hroom2). split_and!; [lia|lia|]. unfold uses_room in *. lia.
      * intros Hsn Hp. apply Hso2; [by apply Hw|]. unfold uses_room in Hroom. lia.
Qed.

#[local] Ltac Zify.zify_post_hook ::= idtac.

(** What the file holds: the bytes of its blocks up to its size. *)
Definition content s d : list Z := take (Z.to_nat (di_size d)) (fbytes s d).

Definition size_ok d : Prop := di_size d ≤ 4096 * di_blocks d.

(** A regular file whose blocks hold all of it. *)
Record file_ok s sin own : Prop := {
  fo_file : file_inv s (din sin) own;
  fo_type : di_type (din sin) ≠ SFS_TYPE_DIR;
  fo_size : size_ok (din sin)
}.

Lemma ws_ok own s sin o c s' sin' :
  sfs_inv s → file_ok s sin own → writes own s sin o c s' sin' → c ≠ [] ∨ Z.of_nat o ≤ di_size (din sin) →
  Z.of_nat o + Z.of_nat (length c) ≤ 4096 * di_blocks (din sin') ∧ file_ok s' sin' own.
Proof.
  intros Hs [Hf Ht Hsz] Hw Hc. pose proof (wr_fits _ _ _ _ (ws_bytes _ _ _ _ _ _ _ Hw)) as Hfits.
  pose proof (fi_pos _ _ _ (ws_file _ _ _ _ _ _ _ Hw)).
  rewrite length_fbytes in Hfits by apply Hw. pose proof (ws_blocks _ _ _ _ _ _ _ Hw). unfold size_ok in Hsz.
  split.
  - destruct (decide (c = [])) as [->|Hne]; [|specialize (Hfits Hne); lia].
    change (length []) with 0%nat. destruct Hc; [done|lia].
  - split; [apply Hw|by rewrite (sd_type _ _ (ws_same _ _ _ _ _ _ _ Hw))|].
    unfold size_ok. rewrite (ws_size _ _ _ _ _ _ _ Hw). lia.
Qed.

Lemma lookup_patch_at o c (l : list Z) k : (o ≤ length l)%nat →
  patch o c l !! k = if decide (o ≤ k < o + length c)%nat then c !! (k - o)%nat else l !! k.
Proof.
  intros Ho. unfold patch. assert (length (take o l) = o) as Ht by (rewrite length_take_le; lia).
  destruct (decide (k < o)%nat).
  - rewrite lookup_app_l, lookup_take_lt, decide_False by lia. done.
  - rewrite lookup_app_r, Ht by lia. destruct (decide (k < o + length c)%nat).
    + rewrite lookup_app_l, decide_True by lia. done.
    + rewrite lookup_app_r, lookup_drop, decide_False by lia. f_equal. lia.
Qed.

(** The content after a write at an offset inside the file. *)
Lemma wrote_content B B' o c size size' :
  wrote B B' o c → (o ≤ size ≤ length B)%nat → size' = Nat.max size (o + length c) → (size' ≤ length B')%nat →
  take size' B' = patch o c (take size B).
Proof.
  intros [G F K] Hs -> Hs'. apply list_eq. intros k. rewrite lookup_patch_at by (rewrite length_take; lia).
  destruct (decide (k < size `max` (o + length c))%nat) as [Hk|Hk].
  - rewrite lookup_take_lt, K by lia. case_decide; [done|]. rewrite lookup_take_lt, decide_True by lia. done.
  - rewrite lookup_take_ge, decide_False, lookup_take_ge by lia. done.
Qed.

Lemma wrote_nil_zeros B B' o : wrote B B' o [] → B' = B ++ replicate (length B' - length B) 0.
Proof.
  intros [G _ K]. apply list_eq. intros k. destruct (decide (k < length B')%nat) as [Hk|Hk].
  - rewrite K, decide_False by (done || cbn; lia). case_decide; [by rewrite lookup_app_l|].
    rewrite lookup_app_r, lookup_replicate_2 by lia. done.
  - rewrite !lookup_ge_None_2; [done|rewrite length_app, length_replicate; lia|lia].
Qed.

Lemma io_nolock_write own s sin buf offset :
  let alen := Z.of_nat (length buf) in
  sfs_inv s → file_ok s sin own → (∀ x, own x → used s x) →
  0 ≤ offset ≤ di_size (din sin) → offset + alen ≤ 4096 * MAX_BLOCKS →
  ∃ ret n s' sin', sfs_io_nolock s sin buf offset alen true = Ok (ret, n, buf, s', sin') ∧ 0 ≤ n ≤ alen ∧
    evolve own s s' ∧ file_ok s' sin' own ∧ same_inode sin sin' ∧
    di_size (din sin') = Z.max (di_size (din sin)) (offset + n) ∧
    content s' (din sin') = patch (Z.to_nat offset) (take (Z.to_nat n) buf) (content s (din sin)) ∧
    (ret = 0 → n = alen) ∧
    (sound s → nblocks (offset + alen) - di_blocks (din sin) ≤ room s (din sin) → ret = 0).
Proof.
  intros alen Hs Hfo Hown Hoff Hmax. pose proof Hfo as [Hf Ht Hsz]. unfold size_ok in *.
  pose proof (fi_pos _ _ _ Hf). unfold MAX_BLOCKS in Hmax. unfold sfs_io_nolock. cbv zeta.
  rewrite (proj2 (Z.eqb_neq _ _) Ht). cbn [negb andb]. change SFS_MAX_FILE_SIZE with 134217728.
  rewrite i32_u32, i32_small by lia.
  rewrite (proj2 (Z.ltb_ge offset 0)), (proj2 (Z.leb_gt _ offset)), (proj2 (Z.ltb_ge _ offset)) by lia. cbn [orb].
  rewrite (proj2 (Z.ltb_ge 134217728 _)) by lia.
  destruct (Z.eqb_spec offset (offset + alen)) as [E|Hne].
  - assert (alen = 0) as Ea by lia. exists 0, 0, s, sin. split_and!; try done; try lia. cbn. by rewrite patch_nil.
  - destruct (steps_write own s sin buf offset (offset + alen)) as (ret & n & s' & sin' & -> & Hn & Hw & Hok & Hso);
      [done|done|done|lia|unfold MAX_BLOCKS; lia|apply Z.div_le_upper_bound; lia|lia|]. cbn [bind].
    set (c := take (Z.to_nat n) buf) in *. assert (Z.of_nat (length c) = n) as Hc by (unfold c; rewrite length_take; lia).
    destruct (ws_ok own s sin (Z.to_nat offset) c s' sin') as [Hfit Hfo']; [done|done|done|right; lia|].
    pose proof (fi_blocks _ _ _ (fo_file _ _ _ Hfo')) as Hb'. unfold MAX_BLOCKS in Hb'.
    rewrite (ws_size _ _ _ _ _ _ _ Hw), u32_small by lia.
    assert (length (fbytes s (din sin)) = 4096 * Z.to_nat (di_blocks (din sin)))%nat as Hlb by apply length_fbytes, Hs.
    assert (length (fbytes s' (din sin')) = 4096 * Z.to_nat (di_blocks (din sin')))%nat as Hlb' by apply length_fbytes, Hw.
    assert (∀ d', di_size d' = Z.max (di_size (din sin)) (offset + n) → fbytes s' d' = fbytes s' (din sin') →
      content s' d' = patch (Z.to_nat offset) c (content s (din sin))) as Hcont.
    { intros d' Hd' Hb. unfold content. rewrite Hb, Hd'. pose proof (ws_blocks _ _ _ _ _ _ _ Hw).
      apply (wrote_content (fbytes s (din sin))); [apply Hw|lia|lia|lia]. }
    eexists ret, n, s', _. split; [done|]. destruct Hw as [He Hsame Hsz' Hf' Hbl' Hwr].
    destruct (Z.ltb_spec (di_size (din sin)) (offset + n)).
    + cbn [din set_dirty set_din]. split_and!; try done; [lia|lia| | |cbn [di_size set_size]; lia| |].
      * destruct Hfo'. split; [|done|unfold size_ok; cbn; lia].
        destruct Hf'. split; try done. apply dinode_size; [done|unfold is_u32; lia].
      * by destruct Hsame.
      * apply Hcont; [cbn [di_size set_size]; lia|done].
      * intros E. destruct (Hok E). lia.
    + split_and!; try done; [lia|lia|lia|apply Hcont; [lia|done]|]. intros E. destruct (Hok E). lia.
Qed.

(** C6: What [sfs_io_nolock] writes.  For a regular file whose size its blocks cover, and
    an offset inside it, the call returns, whatever the device reports, with the number
    [n] of bytes written: its content is then the old one with these bytes put at
    [offset], the blocks that belong to others keep their content, and every invariant
    holds again.  All bytes are written
    if the result is 0, and it is 0 if the device reports no error and the volume has
    enough room. *)
Theorem sfs_write_ok own s sin buf offset :
  let alen := Z.of_nat (length buf) in
  sfs_inv s → file_ok s sin own → (∀ x, own x → used s x) →
  0 ≤ offset ≤ di_size (din sin) → offset + alen ≤ 4096 * MAX_BLOCKS →
  ∃ ret n s' sin', sfs_io_nolock s sin buf offset alen true = Ok (ret, n, buf, s', sin') ∧ 0 ≤ n ≤ alen ∧
    evolve own s s' ∧ file_ok s' sin' own ∧ same_inode sin sin' ∧
    di_size (din sin') = Z.max (di_size (din sin)) (offset + n) ∧
    content s' (din sin') = patch (Z.to_nat offset) (take (Z.to_nat n) buf) (content s (din sin)) ∧
    (ret = 0 → n = alen) ∧
    (sound s → nblocks (offset + alen) - di_blocks (din sin) ≤ room s (din sin) → ret = 0).
Proof. apply io_nolock_write. Qed.

(** ** Reading *)

(** [n] bytes of the file from [o] on are now in the buffer at [pos]. *)
Definition reads s d (pos o n : nat) (buf buf' : list Z) : Prop :=
  length buf' = length buf ∧ take (pos + n) buf' = take pos buf ++ take n (drop o (fbytes s d)).

Lemma reads_trans s d pos o n m buf1 buf2 buf3 :
  reads s d pos o n buf1 buf2 → reads s d (pos + n) (o + n) m buf2 buf3 → reads s d pos o (n + m) buf1 buf3.
Proof.
  intros [L1 R1] [L2 R2]. split; [congruence|]. by rewrite Nat.add_assoc, R2, R1, take_drop_add, app_assoc.
Qed.

Lemma reads_zero s d pos o buf : reads s d pos o 0 buf buf.
Proof. split; [done|]. by rewrite Nat.add_0_r, app_nil_r. Qed.

Lemma take_patch pos c (buf : list Z) n :
  (pos + length c ≤ length buf)%nat → (n ≤ length c)%nat → take (pos + n) (patch pos c buf) = take pos buf ++ take n c.
Proof.
  intros Hl Hn. unfold patch. rewrite take_app_ge by (rewrite length_take; lia). rewrite length_take, Nat.min_l by lia.
  rewrite take_app_le by lia. do 2 f_equal. lia.
Qed.

Lemma op_read whole s buf pos size b off :
  sfs_inv s → used s b → part_ok whole off size → (pos + Z.to_nat size ≤ length buf)%nat →
  ∃ ret c s', io_op false whole s buf pos size b off = Ok (ret, patch pos c buf, s') ∧ length c = Z.to_nat size ∧
    evolve (λ _, True) s s' ∧ (sound s → ret = 0) ∧
    (ret = 0 → c = take (Z.to_nat size) (drop (Z.to_nat off) (sblk s b))).
Proof.
  intros Hs Hb [Hoff Hsize Hend Hwh] Hlen. destruct (used_in_volume s b Hb).
  assert (length (sblk s b) = 4096%nat) as Hl by (apply sblk_length, Hs). unfold io_op. destruct whole.
  - destruct (Hwh eq_refl) as [-> ->]. unfold sfs_block_op.
    destruct (sfs_rblock_spec s (take 4096 (drop pos buf)) b) as (ret & c & s' & -> & Hst & Hc & Hr & Hso);
      [apply Hs|done|done|rewrite length_take, length_drop; lia|].
    cbn [bind]. eexists _, c, _. split; [done|]. split_and!; [done|by apply evolve_quiet|done|].
    intros E. rewrite (Hr E), drop_0, take_ge; [done|lia].
  - unfold sfs_buf_op. destruct (sfs_rbuf_spec s (drop pos buf) size b off) as (ret & r & s' & -> & Hst & -> & Hso);
      try done; [apply Hs|]. cbn [bind].
    assert (∀ c, length c = Z.to_nat size → take pos buf ++ patch 0 c (drop pos buf) = patch pos c buf) as Hpatch.
    { intros c Hc. rewrite <- (take_drop pos buf) at 3. rewrite patch_app_r by (rewrite length_take; lia).
      rewrite length_take, Nat.min_l, Nat.sub_diag by lia. done. }
    assert (length (take (Z.to_nat size) (drop (Z.to_nat off) (sblk s b))) = Z.to_nat size) as Hls
      by (rewrite length_take, length_drop; lia).
    destruct (decide (ret = 0)) as [->|Hr].
    + eexists _, _, _. split; [by rewrite (Hpatch _ Hls)|]. split_and!; [done|by apply evolve_quiet|done|done].
    + exists ret, (take (Z.to_nat size) (drop pos buf)), s'. split; [by rewrite patch_self, take_drop|].
      split_and!; [rewrite length_take, length_drop; lia|by apply evolve_quiet|done|done].
Qed.

Lemma chunk_read own whole s sin buf alen size i off :
  sfs_inv s → file_inv s (din sin) own → 0 ≤ i < di_blocks (din sin) →
  part_ok whole off size → 0 ≤ alen → (Z.to_nat alen + Z.to_nat size ≤ length buf)%nat →
  ∃ ret buf' s', io_chunk false whole s sin buf alen size i off =
      Ok (ret, if decide (ret = 0) then alen + size else alen, buf', s', sin) ∧
    evolve (λ _, True) s s' ∧ (sound s → ret = 0) ∧
    reads s (din sin) (Z.to_nat alen) (4096 * Z.to_nat i + Z.to_nat off) (if decide (ret = 0) then Z.to_nat size else 0) buf buf'.
Proof.
  intros Hs Hf Hi Hp Ha Hlen. unfold io_chunk.
  destruct (load_old s sin own i) as (ret & b & s1 & -> & He1 & _ & Hb & Hso1); [done..|]. cbn [bind].
  destruct (decide (ret ≠ 0)) as [Hr|Hr].
  { exists ret, buf, s1. rewrite !decide_False by done. split_and!; try done. apply reads_zero. }
  apply dec_stable in Hr as ->. destruct (Hb eq_refl) as [-> Hub].
  destruct (op_read whole s1 buf (Z.to_nat alen) size (fblock s (din sin) i) off)
    as (ret & c & s2 & Eop & Hc & He2 & Hso2 & Hv); [apply He1|done|done|done|].
  unfold io_op in Eop. rewrite Eop. cbn [bind].
  assert (evolve (λ _, True) s s2) as He by by eapply evolve_trans.
  assert (sound s → ret = 0) as Hso by by intros ?%(ev_sound _ _ _ He1)%Hso2.
  exists ret, (patch (Z.to_nat alen) c buf), s2. destruct (decide (ret ≠ 0)) as [Hr|Hr].
  - rewrite !decide_False by done. split_and!; try done. split; [apply length_patch; lia|].
    rewrite take_patch by lia. done.
  - apply dec_stable in Hr as ->. rewrite !decide_True by done. split_and!; try done. split; [apply length_patch; lia|].
    rewrite take_patch, (take_ge c) by lia. f_equal. rewrite (Hv eq_refl).
    rewrite (ev_blk _ _ _ He1) by (done || by apply Hf). destruct Hp.
    apply join_slice; [apply fdata_blocks, Hs|by apply fdata_lookup|lia].
Qed.

Lemma reads_evolve s s' d own pos o n buf buf' :
  file_inv s d own → evolve (λ _, True) s s' → reads s' d pos o n buf buf' → reads s d pos o n buf buf'.
Proof. intros Hf He. unfold reads, fbytes. by rewrite (proj1 (proj2 (file_evolve_all _ _ _ _ Hf He))). Qed.

Lemma blocks_read own nblks s sin buf alen i last :
  sfs_inv s → file_inv s (din sin) own → 0 ≤ i → 0 ≤ last < 4096 → i + Z.of_nat nblks + tail_block last ≤ di_blocks (din sin) →
  0 ≤ alen → alen + 4096 * Z.of_nat nblks + last ≤ Z.of_nat (length buf) →
  ∃ ret n buf' s', io_blocks nblks false s sin buf alen i last = Ok (ret, alen + n, buf', s', sin) ∧
    0 ≤ n ≤ 4096 * Z.of_nat nblks + last ∧ (ret = 0 → n = 4096 * Z.of_nat nblks + last) ∧
    evolve (λ _, True) s s' ∧ (sound s → ret = 0) ∧
    reads s (din sin) (Z.to_nat alen) (4096 * Z.to_nat i) (Z.to_nat n) buf buf'.
Proof.
  revert s buf alen i. induction nblks as [|nblks IH]; intros s buf alen i Hs Hf Hi Hlast Hmax Ha Hlen; cbn [io_blocks].
  - unfold tail_block in *. destruct (Z.eqb_spec last 0) as [->|Hne]; cbn [negb].
    + exists 0, 0, buf, s. rewrite Z.add_0_r. split_and!; try done. apply reads_zero.
    + destruct (chunk_read own false s sin buf alen last i 0) as (ret & buf' & s' & -> & He & Hso & Hrd);
        [done|done|lia|split; (done || lia)|done|lia|]. rewrite Nat.add_0_r in Hrd.
      exists ret, (if decide (ret = 0) then last else 0), buf', s'.
      destruct (decide (ret = 0)) as [->|Hr]; [|rewrite Z.add_0_r]; by split_and!; try lia.
  - assert (0 ≤ tail_block last) as Htl by (unfold tail_block; destruct (last =? 0); lia).
    destruct (chunk_read own true s sin buf alen SFS_BLKSIZE i 0) as (ret & buf1 & s1 & -> & He & Hso & Hrd);
      [done|done|lia|by split|done|unfold SFS_BLKSIZE; lia|]. cbn [bind]. rewrite Nat.add_0_r in Hrd.
    destruct (decide (ret ≠ 0)) as [Hr|Hr].
    { rewrite decide_False in Hrd by done. rewrite decide_False by done. exists ret, 0, buf1, s1.
      rewrite Z.add_0_r. by split_and!; try lia. }
    apply dec_stable in Hr as ->. rewrite decide_True in Hrd by done. rewrite decide_True by done. unfold SFS_BLKSIZE in *.
    destruct (IH s1 buf1 (alen + 4096) (i + 1)) as (ret & n & buf2 & s2 & -> & Hn & Hok & He2 & Hso2 & Hrd2);
      [apply He|by eapply file_evolve_all|lia|done|lia|lia|destruct Hrd as [-> _]; lia|].
    exists ret, (4096 + n), buf2, s2. split_and!; [by rewrite Z.add_assoc|lia|lia|intros E; specialize (Hok E); lia| | |].
    + by eapply evolve_trans.
    + intros Hsn. by apply Hso2, He.
    + rewrite Z2Nat.inj_add by lia. eapply reads_trans; [exact Hrd|]. eapply reads_evolve; [done|done|].
      replace (4096 * Z.to_nat (i + 1))%nat with (4096 * Z.to_nat i + Z.to_nat 4096)%nat in Hrd2 by lia.
      by replace (Z.to_nat (alen + 4096)) with (Z.to_nat alen + Z.to_nat 4096)%nat in Hrd2 by lia.
Qed.

#[local] Ltac Zify.zify_post_hook ::= Z.to_euclidean_division_equations.

Lemma steps_read own s sin buf offset endpos :
  sfs_inv s → file_inv s (din sin) own → 0 ≤ offset < endpos → endpos ≤ 4096 * di_blocks (din sin) →
  endpos - offset ≤ Z.of_nat (length buf) →
  ∃ ret n buf' s', io_steps false s sin buf offset endpos = Ok (ret, n, buf', s', sin) ∧ 0 ≤ n ≤ endpos - offset ∧
    (ret = 0 → n = endpos - offset) ∧ evolve (λ _, True) s s' ∧ (sound s → ret = 0) ∧
    reads s (din sin) 0 (Z.to_nat offset) (Z.to_nat n) buf buf'.
Proof.
  intros Hs Hf Hoff Hmax Hlen. pose proof (nblocks_bounds endpos ltac:(lia)) as Hnb.
  unfold io_steps. cbv zeta. change SFS_BLKSIZE with 4096.
  set (i := offset / 4096) in *. set (off := offset mod 4096). set (last := endpos mod 4096).
  assert (offset = 4096 * i + off ∧ 0 ≤ off < 4096 ∧ 0 ≤ i) as (Eoff & Hoff4 & Hi) by (unfold i, off; lia).
  assert (endpos = 4096 * (endpos / 4096) + last ∧ 0 ≤ last < 4096 ∧ i ≤ endpos / 4096) as (Eend & Hlast & He) by (unfold last, i; lia).
  set (e := endpos / 4096) in *. assert (nblocks endpos = e + tail_block last) as Enb by done.
  clearbody i off last e. assert (0 ≤ tail_block last) by (unfold tail_block; destruct (last =? 0); lia).
  destruct (Z.eqb_spec off 0) as [->|Hne]; cbn [negb].
  - destruct (blocks_read own (Z.to_nat (e - i)) s sin buf 0 i last) as (ret & n & buf' & s' & -> & Hn & Hok & Hev & Hso & Hrd);
      [done|done|lia|done|lia|done|lia|].
    exists ret, n, buf', s'. rewrite Z2Nat.id in * by lia. split_and!; [done|lia|lia|intros E; specialize (Hok E); lia|done|done|].
    by replace (Z.to_nat offset) with (4096 * Z.to_nat i)%nat by lia.
  - set (size := if negb (e - i =? 0) then 4096 - off else endpos - offset).
    assert (0 < size ∧ off + size ≤ 4096 ∧ offset + size ≤ endpos ∧ (e ≠ i → off + size = 4096) ∧ (e = i → offset + size = endpos))
      as (Hs1 & Hs2 & Hs3 & Hs4 & Hs5) by (unfold size; destruct (Z.eqb_spec (e - i) 0); cbn [negb]; lia).
    clearbody size.
    destruct (chunk_read own false s sin buf 0 size i off) as (ret & buf1 & s1 & -> & Hev & Hso & Hrd);
      [done|done|lia|split; (done || lia)|done|lia|]. cbn [bind].
    replace (4096 * Z.to_nat i + Z.to_nat off)%nat with (Z.to_nat offset) in Hrd by lia.
    destruct (Z.eqb_spec ret 0) as [->|Hr]; cbn [negb orb].
    2: { rewrite decide_False in Hrd by done. rewrite decide_False by done. exists ret, 0, buf1, s1. by split_and!; try lia. }
    rewrite decide_True in Hrd by done. rewrite decide_True by done. rewrite Z.add_0_l.
    destruct (Z.eqb_spec (e - i) 0) as [Eei|Hei].
    + exists 0, size, buf1, s1. split_and!; try done; lia.
    + destruct (blocks_read own (Z.to_nat (e - i - 1)) s1 sin buf1 size (i + 1) last)
        as (ret & n & buf2 & s2 & -> & Hn & Hok2 & Hev2 & Hso2 & Hrd2);
        [apply Hev|by eapply file_evolve_all|lia|done|lia|lia|destruct Hrd as [-> _]; lia|].
      exists ret, (size + n), buf2, s2. rewrite Z2Nat.id in * by lia.
      split_and!; [done|lia|lia|intros E; specialize (Hok2 E); lia|by eapply evolve_trans|intros ?%(ev_sound _ _ _ Hev); auto|].
      rewrite Z2Nat.inj_add by lia. eapply reads_trans; [exact Hrd|]. eapply reads_evolve; [done|done|].
      by replace (4096 * Z.to_nat (i + 1))%nat with (Z.to_nat offset + Z.to_nat size)%nat in Hrd2 by lia.
Qed.

#[local] Ltac Zify.zify_post_hook ::= idtac.

Lemma io_nolock_read own s sin buf offset :
  let alen := Z.of_nat (length buf) in
  sfs_inv s → file_ok s sin own → 0 ≤ offset < SFS_MAX_FILE_SIZE → offset + alen < 2 ^ 31 →
  di_size (din sin) ≤ SFS_MAX_FILE_SIZE →
  ∃ ret n buf' s', sfs_io_nolock s sin buf offset alen false = Ok (ret, n, buf', s', sin) ∧
    evolve (λ _, True) s s' ∧ length buf' = length buf ∧ 0 ≤ n ≤ alen ∧
    take (Z.to_nat n) buf' = take (Z.to_nat n) (drop (Z.to_nat offset) (content s (din sin))) ∧
    (ret = 0 → n = Z.max 0 (Z.min alen (di_size (din sin) - offset))) ∧ (sound s → ret = 0).
Proof.
  intros alen Hs [Hf Ht Hsz] Hoff Hlen Hmax. assert (0 ≤ alen ∧ alen = Z.of_nat (length buf)) as [Ha Ea] by (unfold alen; lia).
  clearbody alen. unfold size_ok in *. pose proof (fi_pos _ _ _ Hf).
  unfold sfs_io_nolock. cbv zeta. rewrite (proj2 (Z.eqb_neq _ _) Ht). cbn [negb andb].
  change SFS_MAX_FILE_SIZE with 134217728 in *. rewrite i32_u32, i32_small by lia.
  rewrite (proj2 (Z.ltb_ge offset 0)), (proj2 (Z.leb_gt _ offset)), (proj2 (Z.ltb_ge _ offset)) by lia. cbn [orb].
  destruct (Z.eqb_spec offset (offset + alen)) as [E|Hne].
  { exists 0, 0, buf, s. split_and!; try done; lia. }
  destruct (Z.leb_spec (di_size (din sin)) offset) as [Hle|Hlt].
  { exists 0, 0, buf, s. split_and!; try done; lia. }
  set (e0 := if 134217728 <? offset + alen then 134217728 else offset + alen).
  set (e := if di_size (din sin) <? e0 then di_size (din sin) else e0).
  assert (e = offset + Z.min alen (di_size (din sin) - offset)) as Ee.
  { assert (e0 = Z.min 134217728 (offset + alen)) as E0 by (unfold e0; destruct (Z.ltb_spec 134217728 (offset + alen)); lia).
    unfold e. destruct (Z.ltb_spec (di_size (din sin)) e0); lia. }
  clearbody e.
  destruct (steps_read own s sin buf offset e) as (ret & n & buf' & s' & -> & Hn & Hok & He & Hso & [Hl Hrd]); [done|done|lia..|].
  cbn [bind]. rewrite u32_small by lia. rewrite (proj2 (Z.ltb_ge _ _)) by lia.
  exists ret, n, buf', s'. split_and!; try done; [lia|lia| |].
  - rewrite Nat.add_0_l in Hrd. rewrite Hrd, take_0. unfold content. rewrite skipn_firstn_comm, take_take, app_nil_l. f_equal. lia.
  - intros E. rewrite (Hok E). lia.
Qed.


(** ** The size of a file *)

Lemma grow_spec own n s sin :
  sfs_inv s → file_inv s (din sin) own → (∀ x, own x → used s x) → di_blocks (din sin) + Z.of_nat n ≤ MAX_BLOCKS →
  ∃ ret s' sin', grow_loop n s sin (di_blocks (din sin)) = Ok (ret, s', sin') ∧ writes own s sin 0 [] s' sin' ∧
    (ret = 0 → di_blocks (din sin') = di_blocks (din sin) + Z.of_nat n ∧ uses_room s sin s' sin') ∧
    (sound s → Z.of_nat n ≤ room s (din sin) → ret = 0).
Proof.
  revert s sin. induction n as [|n IH]; intros s sin Hs Hf Hown Hmax; cbn [grow_loop].
  { exists 0, s, sin. split_and!; [done| |intros _; unfold uses_room; lia|done].
    split; [by apply evolve_refl|done|done|done|lia|apply wrote_refl]. }
  pose proof (fi_pos _ _ _ Hf).
  destruct (load_spec s sin own (di_blocks (din sin))) as (ret & b & s1 & sin1 & -> & Hld); [done|done|done|lia|lia|].
  pose proof (loaded_writes own s sin _ ret b s1 sin1 0 Hs Hf Hld) as Hw.
  destruct Hld as (_ & _ & _ & _ & Hbl & _ & Hrm & Hso & _). cbn [bind]. cbv zeta in Hbl.
  destruct (decide (ret ≠ 0)) as [Hr|Hr].
  { exists ret, s1, sin1. split_and!; try done. intros Hsn Hp. apply Hso; [done|done|lia]. }
  apply dec_stable in Hr as ->. rewrite decide_True in Hbl by done.
  destruct (Hrm eq_refl) as (_ & _ & Hroom). rewrite decide_True in Hroom by done. rewrite <- Hbl.
  destruct (IH s1 sin1) as (ret & s2 & sin2 & -> & Hw2 & Hok & Hso2); [apply Hw|apply Hw|by eapply writes_own|lia|].
  exists ret, s2, sin2. split_and!; [done|by apply (writes_trans own s sin s1 sin1 s2 sin2 0 [] [])| |].
  - intros E. destruct (Hok E). unfold uses_room in *. lia.
  - intros Hsn Hp. apply Hso2; [by apply Hw|lia].
Qed.

Lemma shrink_spec own n s sin :
  sfs_inv s → file_inv s (din sin) own → Z.of_nat n ≤ di_blocks (din sin) →
  ∃ ret s' sin', shrink_loop n s sin = Ok (ret, s', sin') ∧ evolve own s s' ∧ same_inode sin sin' ∧
    di_size (din sin') = di_size (din sin) ∧ file_inv s' (din sin') own ∧ di_blocks (din sin') ≤ di_blocks (din sin) ∧
    fdata s' (din sin') = take (Z.to_nat (di_blocks (din sin'))) (fdata s (din sin)) ∧
    (ret = 0 → di_blocks (din sin') = di_blocks (din sin) - Z.of_nat n) ∧ (sound s → ret = 0).
Proof.
  revert s sin. induction n as [|n IH]; intros s sin Hs Hf Hn; cbn [shrink_loop].
  { exists 0, s, sin. split_and!; try done; [|lia]. rewrite take_ge; [done|]. by rewrite length_fdata. }
  destruct (truncate_spec s sin own) as (ret & s1 & sin1 & -> & He & Hsame & Hsz & Hind & Hf1 & Hbl & Hd & _ & Hso);
    [done|done|lia|]. cbn [bind]. cbv zeta in *.
  assert (evolve own s s1) as He'.
  { eapply evolve_weaken; [done|]. intros x Hx Ho. split; [by eapply own_not_ind|].
    intros ->. by destruct (fi_used _ _ _ Hf (di_blocks (din sin) - 1) ltac:(lia)) as (_ & Hno & _). }
  destruct (decide (ret ≠ 0)) as [Hr|Hr].
  { exists ret, s1, sin1. rewrite !decide_False in * by done. split_and!; try done; [lia|].
    rewrite Hd, take_ge; [done|]. rewrite length_fdata. lia. }
  apply dec_stable in Hr as ->. rewrite decide_True in Hbl by done. rewrite decide_True in Hd by done.
  destruct (IH s1 sin1) as (ret & s2 & sin2 & -> & He2 & Hsame2 & Hsz2 & Hf2 & Hbl2 & Hd2 & Hok & Hso2); [apply He'|done|lia|].
  exists ret, s2, sin2. split_and!; [done|by eapply evolve_trans|by eapply same_inode_trans|congruence|done|lia| | |].
  - rewrite Hd2, Hd, take_take. f_equal. lia.
  - intros E. rewrite (Hok E). lia.
  - intros Hsn. by apply Hso2, He'.
Qed.

Lemma take_zeros k a b (l : list Z) :
  (k ≤ length l + a)%nat → (k ≤ length l + b)%nat → take k (l ++ replicate a 0) = take k (l ++ replicate b 0).
Proof. intros Ha Hb. rewrite !take_app, !take_replicate. do 2 f_equal. lia. Qed.

Lemma join_take k L : all_blocks L → (k ≤ length L)%nat → mjoin (take k L) = take (4096 * k) (mjoin L).
Proof.
  intros HL Hk. rewrite <- (take_drop k L) at 2. rewrite join_app, take_app_length'; [done|].
  rewrite length_blocks by by apply Forall_take. rewrite length_take. f_equal. lia.
Qed.

(** Where [truncfile] has something to do. *)
Definition truncated own s sin len ret s' sin' : Prop :=
  evolve own s s' ∧ same_inode sin sin' ∧ file_inv s' (din sin') own ∧
  (ret = 0 → size_ok (din sin') ∧ di_size (din sin') = len ∧ di_blocks (din sin') = nblocks len ∧ si_dirty sin' = true ∧
     content s' (din sin') = take (Z.to_nat len) (fbytes s (din sin) ++ replicate (Z.to_nat len) 0)) ∧
  (ret ≠ 0 → di_size (din sin') = di_size (din sin) ∧
     (di_blocks (din sin) < nblocks len → content s' (din sin') = content s (din sin))) ∧
  (sound s → nblocks len - di_blocks (din sin) ≤ room s (din sin) → ret = 0).

(** The end of [truncfile], after the loops. *)
Definition trunc_end len (r : Z * sfs_fs D * sfs_inode) : res (Z * sfs_fs D * sfs_inode) :=
  let '(ret, s, sin) := r in
  if decide (ret ≠ 0) then Ok (ret, s, sin) else
  assert! di_blocks (din sin) =? nblocks len ;; Ok (0, s, set_dirty true (set_din (set_size len (din sin)) sin)).

Lemma trunc_end_ok own s sin len s' sin' :
  evolve own s s' → same_inode sin sin' → file_inv s' (din sin') own →
  di_blocks (din sin') = nblocks len → 0 ≤ len < 2 ^ 32 →
  take (Z.to_nat len) (fbytes s' (din sin')) = take (Z.to_nat len) (fbytes s (din sin) ++ replicate (Z.to_nat len) 0) →
  ∃ sin2, trunc_end len (0, s', sin') = Ok (0, s', sin2) ∧ truncated own s sin len 0 s' sin2.
Proof.
  intros He [] Hf Hbl Hlen Hc. unfold trunc_end. rewrite decide_False by auto. rewrite Hbl, Z.eqb_refl.
  eexists. split; [done|]. pose proof (nblocks_bounds len ltac:(lia)).
  split_and!; [done|by split| |intros _; split_and!; cbn [din set_dirty set_din]|done|done].
  - cbn [din set_dirty set_din]. destruct Hf. split; try done. apply dinode_size; [done|unfold is_u32; lia].
  - unfold size_ok. cbn [di_size di_blocks set_size]. lia.
  - done.
  - done.
  - done.
  - exact Hc.
Qed.

Lemma trunc_grow own s sin len :
  sfs_inv s → file_ok s sin own → (∀ x, own x → used s x) → 0 ≤ len → nblocks len ≤ MAX_BLOCKS → di_blocks (din sin) < nblocks len →
  ∃ ret s' sin', bind (grow_loop (Z.to_nat (nblocks len - di_blocks (din sin))) s sin (di_blocks (din sin))) (trunc_end len) =
    Ok (ret, s', sin') ∧ truncated own s sin len ret s' sin'.
Proof.
  intros Hs [Hf Ht Hsz] Hown Hlen Hmax Hlt. pose proof (fi_pos _ _ _ Hf). pose proof (nblocks_bounds len ltac:(lia)) as Hnb.
  unfold size_ok, MAX_BLOCKS in *. set (n := nblocks len) in *.
  destruct (grow_spec own (Z.to_nat (n - di_blocks (din sin))) s sin) as (ret & s' & sin' & -> & Hw & Hok & Hso);
    [done|done|done|unfold MAX_BLOCKS; lia|]. cbn [bind].
  pose proof (wrote_nil_zeros _ _ _ (ws_bytes _ _ _ _ _ _ _ Hw)) as Hz.
  assert (length (fbytes s (din sin)) = 4096 * Z.to_nat (di_blocks (din sin)))%nat as Hlb by apply length_fbytes, Hs.
  assert (length (fbytes s' (din sin')) = 4096 * Z.to_nat (di_blocks (din sin')))%nat as Hlb' by apply length_fbytes, Hw.
  destruct Hw as [He Hsame Hsz' Hf' Hbl' _]. destruct (decide (ret = 0)) as [->|Hr].
  - destruct (Hok eq_refl) as [Hbl _].
    destruct (trunc_end_ok own s sin len s' sin') as (sin2 & -> & Ht2); [done|done|done|lia|lia| |by eexists _, _, _].
    rewrite Hz. apply take_zeros; lia.
  - unfold trunc_end. rewrite decide_True by done. eexists _, _, _. split; [done|]. split_and!; [done|done|done|done| |].
    + intros _. split; [done|]. intros _. unfold content. rewrite Hsz', Hz, take_app_le by lia. done.
    + intros Hsn Hp. apply Hso; [done|]. fold n in Hp. lia.
Qed.

Lemma trunc_shrink own s sin len :
  sfs_inv s → file_ok s sin own → 0 ≤ len → nblocks len ≤ di_blocks (din sin) →
  ∃ ret s' sin', bind (shrink_loop (Z.to_nat (di_blocks (din sin) - nblocks len)) s sin) (trunc_end len) =
    Ok (ret, s', sin') ∧ truncated own s sin len ret s' sin'.
Proof.
  intros Hs [Hf Ht Hsz] Hlen Hle. pose proof (fi_pos _ _ _ Hf). pose proof (nblocks_bounds len ltac:(lia)) as Hnb.
  pose proof (fi_blocks _ _ _ Hf) as Hmb. unfold size_ok, MAX_BLOCKS in *. set (n := nblocks len) in *.
  destruct (shrink_spec own (Z.to_nat (di_blocks (din sin) - n)) s sin)
    as (ret & s' & sin' & -> & He & Hsame & Hsz' & Hf' & Hbl' & Hd & Hok & Hso); [done|done|lia|]. cbn [bind].
  assert (length (fbytes s (din sin)) = 4096 * Z.to_nat (di_blocks (din sin)))%nat as Hlb by apply length_fbytes, Hs.
  destruct (decide (ret = 0)) as [->|Hr].
  - specialize (Hok eq_refl). destruct (trunc_end_ok own s sin len s' sin') as (sin2 & -> & Ht2);
      [done|done|done|lia|lia| |by eexists _, _, _].
    unfold fbytes at 1. rewrite Hd, join_take by (apply fdata_blocks, Hs || (rewrite length_fdata; lia)).
    rewrite take_take, take_app_le by lia. f_equal. lia.
  - unfold trunc_end. rewrite decide_True by done. eexists _, _, _. split; [done|]. split_and!; [done|done|done|done| |].
    + intros _. split; [done|]. fold n. lia.
    + intros Hsn _. by apply Hso.
Qed.

End sfs_file.
