(* ===== verification/SfsDir.v ===== *)
(** * Directories

    A directory has one entry for each of its blocks; [entries s d] is what the calls see
    of them.  The searches of sfs_inode.c are the first match by name, the first match by
    inode number, and the enumeration of the entries that are in use. *)

From S2P Require Import Prelude Bitmap SfsDisk Sfs SfsInv SfsMap SfsFile.

(** The entry in a block, as [sfs_dirent_read_nolock] gives it out. *)
Definition block_entry (b : list Z) : sfs_disk_entry :=
  let e := decode_entry b in mkEntry (de_ino e) (<[255%nat := 0]> (de_name e)).

#[global] Arguments block_entry : simpl never.

Section sfs_dir.
Context {D : Type} `{block_dev_laws D}.
Implicit Types (s : sfs_fs D) (sin : sfs_inode) (d : sfs_disk_inode) (own : Z → Prop).

Definition entries s d : list sfs_disk_entry := block_entry <$> fdata s d.

Record dir_ok s sin own : Prop := {
  do_file : file_inv s (din sin) own;
  do_type : di_type (din sin) = SFS_TYPE_DIR
}.

Lemma length_entries s d : length (entries s d) = Z.to_nat (di_blocks d).
Proof. unfold entries. by rewrite length_fmap, length_fdata. Qed.

Lemma dir_evolve s s' sin own :
  dir_ok s sin own → evolve (λ _, True) s s' → dir_ok s' sin own ∧ entries s' (din sin) = entries s (din sin).
Proof.
  intros [Hf Ht] He. destruct (file_evolve_all _ _ _ _ Hf He) as (Hf' & Hd & _).
  split; [by split|]. unfold entries. by rewrite Hd.
Qed.

Lemma decode_entry_take b : decode_entry (take 260 b) = decode_entry b.
Proof.
  unfold decode_entry, field. rewrite !skipn_firstn_comm, !take_take. f_equal.
Qed.

Lemma length_encode_entry e : length (de_name e) = 256%nat → length (encode_entry e) = 260%nat.
Proof. intros Hn. unfold encode_entry. by rewrite length_app, length_le_bytes, Hn. Qed.

Lemma length_block_entry b : length b = 4096%nat → length (de_name (block_entry b)) = 256%nat.
Proof. intros Hb. unfold block_entry, decode_entry. cbn [de_name]. rewrite length_insert, length_take, length_drop, Hb. done. Qed.

(** Reading an entry; [e] is what the buffer held. *)
Lemma dirent_read_spec own s sin slot e :
  sfs_inv s → dir_ok s sin own → 0 ≤ slot < di_blocks (din sin) → length (de_name e) = 256%nat →
  ∃ ret e' s', sfs_dirent_read_nolock s sin slot e = Ok (ret, e', s', sin) ∧ evolve (λ _, True) s s' ∧
    (sound s → ret = 0) ∧ length (de_name e') = 256%nat ∧ (ret = 0 → entries s (din sin) !! Z.to_nat slot = Some e').
Proof.
  intros Hs [Hf Ht] Hi He. unfold sfs_dirent_read_nolock.
  rewrite Ht, Z.eqb_refl, (proj2 (Z.leb_le _ _)), (proj2 (Z.ltb_lt _ _)) by lia. cbn [andb].
  destruct (load_old s sin own slot) as (ret & b & s1 & -> & He1 & _ & Hb & Hso1); [done..|]. cbn [bind].
  destruct (decide (ret ≠ 0)) as [Hr|Hr]; [by eexists _, _, _|]. apply dec_stable in Hr as ->.
  destruct (Hb eq_refl) as [-> Hub]. rewrite used_inuse by (done || apply He1). cbn [bind].
  destruct (used_in_volume s1 _ Hub). change DENTRY_SIZE with 260.
  destruct (sfs_rbuf_spec s1 (encode_entry e) 260 (fblock s (din sin) slot) 0) as (ret & r & s2 & -> & Hst & Hv & Hso2);
    [apply He1|done|done|lia..|]. cbn [bind].
  assert (evolve (λ _, True) s s2) as He2 by (eapply evolve_trans; [done|apply evolve_quiet; [apply He1|done]]).
  assert (sound s → ret = 0) as Hso by by intros ?%(ev_sound _ _ _ He1)%Hso2.
  destruct (decide (ret ≠ 0)) as [Hr|Hr]; [by eexists _, _, _|]. apply dec_stable in Hr as ->.
  rewrite decide_True, drop_0 in Hv by done. rewrite (ev_blk _ _ _ He1) in Hv by (done || by apply Hf).
  assert (length (sblk s (fblock s (din sin) slot)) = 4096%nat) as Hl by (apply sblk_length, Hs).
  change (Z.to_nat 260) with 260%nat in Hv. rewrite patch_whole in Hv by (rewrite length_take, length_encode_entry; lia).
  eexists _, _, _. split; [done|]. split_and!; [done|done| |].
  - subst r. rewrite decode_entry_take. by apply length_block_entry.
  - intros _. subst r. rewrite decode_entry_take. unfold entries. rewrite list_lookup_fmap, fdata_lookup by done. done.
Qed.

(** The entry is in use and has the name. *)
Definition names (name : list Z) (e : sfs_disk_entry) : Prop := de_ino e ≠ 0 ∧ entry_name e = name.

(** The result of a search of the entries from [i] on: the first that has the name. *)
Definition search_result s d (i : Z) (name : list Z) (ret : Z) (r : option (Z * Z)) : Prop :=
  match r with
  | Some (slot, ino) => ret = 0 ∧ i ≤ slot ∧
      (∃ e, entries s d !! Z.to_nat slot = Some e ∧ names name e ∧ de_ino e = ino) ∧
      ∀ j e, (Z.to_nat i ≤ j < Z.to_nat slot)%nat → entries s d !! j = Some e → ¬ names name e
  | None => ret ≠ 0 ∧
      (sound s → ret = - E_NOENT ∧ ∀ j e, (Z.to_nat i ≤ j)%nat → entries s d !! j = Some e → ¬ names name e)
  end.

Lemma search_result_step s s' d i name ret r e :
  0 ≤ i → entries s' d = entries s d → (sound s → sound s') → entries s d !! Z.to_nat i = Some e → ¬ names name e →
  search_result s' d (i + 1) name ret r → search_result s d i name ret r.
Proof.
  intros Hi He Hso Hie Hno. unfold search_result. rewrite He.
  assert (∀ j e', (Z.to_nat i ≤ j)%nat → entries s d !! j = Some e' → (Z.to_nat (i + 1) ≤ j)%nat ∨ e' = e) as Hcase.
  { intros j e' Hj Hje. destruct (decide (j = Z.to_nat i)) as [->|]; [right; congruence|left; lia]. }
  destruct r as [[slot ino]|].
  - intros (-> & Hle & Hm & Hfirst). split_and!; [done|lia|done|]. intros j e' Hj Hje.
    destruct (Hcase j e') as [Hj'| ->]; [lia|done| |done]. apply (Hfirst j); [lia|done].
  - intros (Hr & Hnone). split; [done|]. intros Hsn. destruct (Hnone (Hso Hsn)) as [-> Hn]. split; [done|].
    intros j e' Hj Hje. destruct (Hcase j e') as [Hj'| ->]; [done|done| |done]. by apply (Hn j).
Qed.

Lemma search_loop_ok own n i s sin name e empty :
  sfs_inv s → dir_ok s sin own → 0 ≤ i → i + Z.of_nat n = di_blocks (din sin) → length (de_name e) = 256%nat →
  ∃ ret r empty' s', search_loop n i s sin name e empty = Ok (ret, r, empty', s', sin) ∧ evolve (λ _, True) s s' ∧
    search_result s (din sin) i name ret r.
Proof.
  revert i s e empty. induction n as [|n IH]; intros i s e empty Hs Hd Hi Hn He; cbn [search_loop].
  { eexists _, None, _, _. split; [done|]. split; [done|]. split; [done|]. intros _. split; [done|].
    intros j e' Hj Hl%lookup_lt_Some. rewrite length_entries in Hl. lia. }
  destruct (dirent_read_spec own s sin i e) as (ret & e1 & s1 & -> & He1 & Hso & Hl1 & Hent); [done|done|lia|done|].
  cbn [bind]. destruct (decide (ret ≠ 0)) as [Hr|Hr].
  { eexists _, None, _, _. split; [done|]. split; [done|]. split; [done|]. by intros ?%Hso. }
  apply dec_stable in Hr as ->. specialize (Hent eq_refl). destruct (dir_evolve _ _ _ _ Hd He1) as [Hd1 Hents].
  assert (∀ empty1, ¬ names name e1 → ∃ ret r empty' s', search_loop n (i + 1) s1 sin name e1 empty1 = Ok (ret, r, empty', s', sin) ∧
    evolve (λ _, True) s s' ∧ search_result s (din sin) i name ret r) as Hnext.
  { intros empty1 Hno. destruct (IH (i + 1) s1 e1 empty1) as (ret & r & em & s' & -> & He' & Hres); [apply He1|done|lia|lia|done|].
    eexists _, _, _, _. split; [done|]. split; [by eapply evolve_trans|].
    eapply search_result_step; [done|done|apply He1|done|done|done]. }
  destruct (Z.eqb_spec (de_ino e1) 0) as [Ez|Ez]; [apply Hnext; by intros [? _]|].
  destruct (decide (name = entry_name e1)) as [En|En]; [|apply Hnext; by intros [_ ?]].
  eexists _, (Some _), _, _. split; [done|]. split; [done|]. split_and!; [done|lia| |].
  - exists e1. split_and!; [done|by split|done].
  - intros j e' Hj. lia.
Qed.

(** C33: [sfs_dirent_search_nolock] finds the first entry in use that has the name, with its
    slot and inode number; where it finds none, and the device reports no error, it
    returns [-E_NOENT] and there is no such entry.  It changes neither the directory nor
    any other block.  A name of more than 255 characters is a panic. *)
Theorem sfs_dirent_search_ok own s sin name e :
  sfs_inv s → dir_ok s sin own → length (de_name e) = 256%nat →
  if decide (length name ≤ 255)%nat then
    ∃ ret r empty s', sfs_dirent_search_nolock s sin name (Some e) = Ok (ret, r, empty, s', sin) ∧
      evolve (λ _, True) s s' ∧ search_result s (din sin) 0 name ret r
  else sfs_dirent_search_nolock s sin name (Some e) = Panicked.
Proof.
  intros Hs Hd He. pose proof (fi_pos _ _ _ (do_file _ _ _ Hd)). pose proof (fi_blocks _ _ _ (do_file _ _ _ Hd)) as Hmax.
  unfold MAX_BLOCKS in Hmax. unfold sfs_dirent_search_nolock, SFS_MAX_FNAME_LEN. case_decide.
  - rewrite (proj2 (Z.leb_le _ _)), i32_small by lia. by apply search_loop_ok with (own := own); [..|lia|lia|].
  - by rewrite (proj2 (Z.leb_gt _ _)) by lia.
Qed.

(** ** Enumerating a directory *)

Definition in_use (e : sfs_disk_entry) : Prop := de_ino e ≠ 0.
#[global] Instance in_use_dec e : Decision (in_use e).
Proof. unfold in_use. apply _. Defined.

Lemma getdirentry_loop_ok own n i s sin slot e :
  sfs_inv s → dir_ok s sin own → 0 ≤ i → i + Z.of_nat n = di_blocks (din sin) → 0 ≤ slot → length (de_name e) = 256%nat →
  ∃ ret e' s', getdirentry_loop n i s sin slot e = Ok (ret, e', s', sin) ∧ evolve (λ _, True) s s' ∧
    (ret = 0 → filter in_use (drop (Z.to_nat i) (entries s (din sin))) !! Z.to_nat slot = Some e') ∧
    (sound s → ret ≠ 0 → ret = - E_NOENT ∧
       filter in_use (drop (Z.to_nat i) (entries s (din sin))) !! Z.to_nat slot = None).
Proof.
  revert i s slot e. induction n as [|n IH]; intros i s slot e Hs Hd Hi Hn Hsl He; cbn [getdirentry_loop].
  { eexists _, _, _. split; [done|]. split; [done|]. split; [done|]. intros _ _. split; [done|].
    rewrite drop_ge by (rewrite length_entries; lia). done. }
  destruct (dirent_read_spec own s sin i e) as (ret & e1 & s1 & -> & He1 & Hso & Hl1 & Hent); [done|done|lia|done|].
  cbn [bind]. destruct (decide (ret ≠ 0)) as [Hr|Hr].
  { eexists _, _, _. split; [done|]. split; [done|]. split; [done|]. by intros ?%Hso. }
  apply dec_stable in Hr as ->. specialize (Hent eq_refl). destruct (dir_evolve _ _ _ _ Hd He1) as [Hd1 Hents].
  rewrite (drop_S _ _ _ Hent). replace (S (Z.to_nat i)) with (Z.to_nat (i + 1)) by lia. rewrite <- Hents.
  destruct (Z.eqb_spec (de_ino e1) 0) as [Ez|Ez]; cbn [negb].
  - rewrite filter_cons_False by (by intros ?).
    destruct (IH (i + 1) s1 slot e1) as (ret & e2 & s2 & -> & He2 & Hok & Hno); [apply He1|done|lia|lia|done|done|].
    eexists _, _, _. split; [done|]. split_and!; [by eapply evolve_trans|done|]. intros Hsn. by apply Hno, He1.
  - rewrite filter_cons_True by done. destruct (Z.eqb_spec slot 0) as [->|Hsl0].
    + eexists _, _, _. by split_and!.
    + destruct (IH (i + 1) s1 (slot - 1) e1) as (ret & e2 & s2 & -> & He2 & Hok & Hno); [apply He1|done|lia|lia|lia|done|].
      replace (Z.to_nat slot) with (S (Z.to_nat (slot - 1))) by lia. cbn [lookup list_lookup].
      eexists _, _, _. split; [done|]. split_and!; [by eapply evolve_trans|done|]. intros Hsn. by apply Hno, He1.
Qed.

(** [sfs_getdirentry_sub_nolock] enumerates a directory: for a slot it returns that
    entry of the sequence of entries in use, and [-E_NOENT] behind its end. *)
Theorem sfs_getdirentry_ok own s sin slot e :
  sfs_inv s → dir_ok s sin own → 0 ≤ slot → length (de_name e) = 256%nat →
  ∃ ret e' s', sfs_getdirentry_sub_nolock s sin slot e = Ok (ret, e', s', sin) ∧ evolve (λ _, True) s s' ∧
    (ret = 0 → filter in_use (entries s (din sin)) !! Z.to_nat slot = Some e') ∧
    (sound s → ret ≠ 0 → ret = - E_NOENT ∧ filter in_use (entries s (din sin)) !! Z.to_nat slot = None).
Proof.
  intros Hs Hd Hsl He. pose proof (fi_pos _ _ _ (do_file _ _ _ Hd)). pose proof (fi_blocks _ _ _ (do_file _ _ _ Hd)) as Hmax.
  unfold MAX_BLOCKS in Hmax. unfold sfs_getdirentry_sub_nolock. rewrite i32_small by lia.
  by apply (getdirentry_loop_ok own _ 0); [..|lia| |].
Qed.
End sfs_dir.
