(* ===== verification/SfsVfs.v ===== *)
(** * kern/fs/sfs, third part: inodes in memory, mounting, and the tables of functions

    The state [sfs_world] holds the block devices that can be mounted, the mounted file
    systems at the addresses of their [struct fs], and the [struct sfs_inode] part of the
    inodes.  While a file system is mounted it keeps its device; no one else uses it.
    [kmem] says which of the next calls of [kmalloc] succeed; an exhausted list is a
    kernel with enough memory.  A request transfers whole buffers: the memory of a
    buffer is mapped. *)

From S2P Require Import Prelude Hash CString Iobuf Bitmap Vfs SfsDisk Sfs.

Record sfs_world (D : Type) := mkWorld {
  blkdevs : gmap ptr D;
  mounted : gmap ptr (ptr * sfs_fs D);      (* with the inode of the device *)
  sins : gmap ptr sfs_inode;
  kmem : list bool
}.
Arguments mkWorld {D}.
Arguments blkdevs {D}.
Arguments mounted {D}.
Arguments sins {D}.
Arguments kmem {D}.

Definition SFS_HLIST_SHIFT : Z := 10.
Definition SFS_HLIST_SIZE : Z := Z.shiftl 1 SFS_HLIST_SHIFT.
Definition sin_hashfn (x : Z) : Z := hash32 x SFS_HLIST_SHIFT.

Definition SFS_DIROPS : ptr := 0x5F5D.
Definition SFS_FILEOPS : ptr := 0x5F5F.

Section sfs_world.
Context {D : Type} `{block_dev D}.

Notation W := (vstate (sfs_world D)).
Implicit Types s : W.

Definition set_blkdevs v (w : sfs_world D) := mkWorld v (mounted w) (sins w) (kmem w).
Definition set_mounted v (w : sfs_world D) := mkWorld (blkdevs w) v (sins w) (kmem w).
Definition set_sins v (w : sfs_world D) := mkWorld (blkdevs w) (mounted w) v (kmem w).
Definition set_kmem v (w : sfs_world D) := mkWorld (blkdevs w) (mounted w) (sins w) v.

Definition on_priv (f : sfs_world D → sfs_world D) s : W := set_priv (f (priv s)) s.

(** Whether the next [kmalloc] succeeds. *)
Definition kmalloc_next s : bool * W :=
  match kmem (priv s) with [] => (true, s) | b :: l => (b, on_priv (set_kmem l) s) end.

(** [fsop_info(fs, sfs)] *)
Definition get_sfs (fs : ptr) s : res (sfs_fs D) := let! m := deref (mounted (priv s) !! fs) in Ok (snd m).
Definition put_sfs (fs : ptr) (x : sfs_fs D) s : res W :=
  let! m := deref (mounted (priv s) !! fs) in Ok (on_priv (set_mounted (<[fs := (fst m, x)]> (mounted (priv s)))) s).

(** [vop_info(node, sfs_inode)] *)
Definition get_sin (p : ptr) s : res sfs_inode :=
  let! n := get_inode s p in
  assert! in_type n =? inode_type_sfs_inode_info ;; deref (sins (priv s) !! p).
Definition put_sin (p : ptr) (sin : sfs_inode) s : W := on_priv (set_sins (<[p := sin]> (sins (priv s)))) s.

(** [vop_fs(node)], which [fsop_info] checks. *)
Definition vop_fs (p : ptr) s : res ptr :=
  let! n := get_inode s p in match in_fs n with Some fs => Ok fs | None => Panicked end.

(** A function of [Sfs] on the inode [p] and its file system. *)
Definition on_sin {A} (p : ptr) (f : sfs_fs D → sfs_inode → res (A * sfs_fs D * sfs_inode)) s : res (A * W) :=
  let! fs := vop_fs p s in
  let! x := get_sfs fs s in
  let! sin := get_sin p s in
  let! (a, x, sin) := f x sin in
  let! s := put_sfs fs x s in
  Ok (a, put_sin p sin s).

(** ** The inodes of a file system *)

Definition sfs_get_ops (type : Z) : res ptr :=
  if type =? SFS_TYPE_DIR then Ok SFS_DIROPS else if type =? SFS_TYPE_FILE then Ok SFS_FILEOPS else Panicked.

Definition sfs_hash_list (x : sfs_fs D) (ino : Z) : list ptr := default [] (hash_list x !! Z.to_nat (sin_hashfn ino)).

Definition sfs_set_links (p : ptr) (ino : Z) (x : sfs_fs D) : sfs_fs D :=
  set_hash_list (<[Z.to_nat (sin_hashfn ino) := p :: sfs_hash_list x ino]> (hash_list x))
    (set_inode_list (p :: inode_list x) x).

Definition sfs_remove_links (p : ptr) (ino : Z) (x : sfs_fs D) : sfs_fs D :=
  set_hash_list (<[Z.to_nat (sin_hashfn ino) := filter (λ q, q ≠ p) (sfs_hash_list x ino)]> (hash_list x))
    (set_inode_list (filter (λ q, q ≠ p) (inode_list x)) x).

(** The new inode is at an address that is not in use. *)
Definition sfs_create_inode (fs : ptr) (d : sfs_disk_inode) (ino : Z) s : res (Z * option ptr * W) :=
  let '(ok, s) := kmalloc_next s in
  if negb ok then Ok (- E_NO_MEM, None, s) else
  let p := fresh (elements (dom (inodes s))) in
  let '(_, s) := __alloc_inode (Some p) inode_type_sfs_inode_info s in
  let! ops := sfs_get_ops (di_type d) in
  let! s := inode_init p ops (Some fs) s in
  Ok (0, Some p, put_sin p (mkSin d ino false 1) s).

(** The walk of [lookup_sfs_nolock] along a hash list. *)
Fixpoint find_ino (l : list ptr) (ino : Z) s : res (option ptr) :=
  match l with
  | [] => Ok None
  | p :: l => let! sin := deref (sins (priv s) !! p) in if si_ino sin =? ino then Ok (Some p) else find_ino l ino s
  end.

Definition lookup_sfs_nolock (fs : ptr) (ino : Z) s : res (option ptr * W) :=
  let! x := get_sfs fs s in
  let! o := find_ino (sfs_hash_list x ino) ino s in
  match o with
  | None => Ok (None, s)
  | Some p =>
      let! (v, s) := inode_ref_inc p s in
      let! sin := deref (sins (priv s) !! p) in
      Ok (Some p, if v =? 1 then put_sin p (set_reclaim_count (reclaim_count sin + 1) sin) s else s)
  end.

(** [din] has room for a [struct sfs_disk_inode]. *)
Definition sfs_load_inode (fs : ptr) (ino : Z) s : res (Z * option ptr * W) :=
  let! (o, s) := lookup_sfs_nolock fs ino s in
  match o with
  | Some p => Ok (0, Some p, s)
  | None =>
      let '(ok, s) := kmalloc_next s in
      if negb ok then Ok (- E_NO_MEM, None, s) else
      let! x := get_sfs fs s in
      let! used := sfs_block_inuse x ino in
      assert! used ;;
      let! (ret, b, x) := sfs_rbuf x (replicate 64 0) DINODE_SIZE ino 0 in
      let! s := put_sfs fs x s in
      if decide (ret ≠ 0) then Ok (ret, None, s) else
      let d := decode_dinode b in
      assert! negb (di_nlinks d =? 0) ;;
      let! (ret, n, s) := sfs_create_inode fs d ino s in
      if decide (ret ≠ 0) then Ok (ret, None, s) else
      let! p := deref n in
      let! x := get_sfs fs s in
      let! s := put_sfs fs (sfs_set_links p ino x) s in
      Ok (0, Some p, s)
  end.

(** The content of a new entry does not matter. *)
Definition new_entry : sfs_disk_entry := mkEntry 0 (replicate 256 0).

Definition sfs_lookup_once (p : ptr) (name : list Z) s : res (Z * option ptr * W) :=
  assert! Z.of_nat (length name) <=? SFS_MAX_FNAME_LEN ;;
  let '(ok, s) := kmalloc_next s in
  let! (ret, r, s) := on_sin p (λ x sin,
    let! (ret, r, _, x, sin) := sfs_dirent_search_nolock x sin name (if ok then Some new_entry else None) in
    Ok (ret, r, x, sin)) s in
  if decide (ret ≠ 0) then Ok (ret, None, s) else
  let! (_, ino) := deref r in
  let! fs := vop_fs p s in
  sfs_load_inode fs ino s.

(** ** Operations of inodes *)

Definition sfs_opendir (p : ptr) (flags : Z) s : res (Z * W) :=
  Ok (if negb (Z.land flags O_ACCMODE =? O_RDONLY) || has_bit flags O_APPEND then - E_ISDIR else 0, s).

Definition sfs_openfile (p : ptr) (flags : Z) s : res (Z * W) := Ok (0, s).

Definition sfs_io (write : bool) (p : ptr) (iob : iobuf) s : res (Z * iobuf * W) :=
  let! buf := load_bytes (Z.to_nat (io_resid iob)) (bytes s) (io_base iob) in
  let! (ret, alen, buf, s) := on_sin p (λ x sin, sfs_io_nolock x sin buf (io_offset iob) (io_resid iob) write) s in
  let! m := if write then Ok (bytes s) else store_bytes (bytes s) (io_base iob) buf in
  let! iob := if negb (alen =? 0) then iobuf_skip iob alen else Ok iob in
  Ok (ret, iob, set_bytes m s).

Definition sfs_read (p : ptr) (iob : iobuf) s : res (Z * iobuf * W) := sfs_io false p iob s.
Definition sfs_write (p : ptr) (iob : iobuf) s : res (Z * iobuf * W) := sfs_io true p iob s.

Definition S_IFREG : Z := 0x1000.
Definition S_IFLNK : Z := 0x3000.

Definition sfs_gettype (p : ptr) s : res (Z * Z * W) :=
  let! sin := get_sin p s in
  let t := di_type (din sin) in
  if t =? SFS_TYPE_DIR then Ok (0, S_IFDIR, s)
  else if t =? SFS_TYPE_FILE then Ok (0, S_IFREG, s)
  else if t =? SFS_TYPE_LINK then Ok (0, S_IFLNK, s)
  else Panicked.

Definition sfs_fsync (p : ptr) s : res (Z * W) := on_sin p (λ x sin, fsync x sin) s.

Definition sfs_truncfile (p : ptr) (len : Z) s : res (Z * W) := on_sin p (λ x sin, truncfile x sin len) s.

(** [iobuf_move] from an object of the kernel that is not part of [bytes]. *)
Definition iobuf_put (iob : iobuf) (data : list Z) s : res (Z * iobuf * W) :=
  let len := Z.of_nat (length data) in
  let alen := if len <? io_resid iob then len else io_resid iob in
  let! (iob, s) :=
    if 0 <? alen then
      let! m := store_bytes (bytes s) (io_base iob) (take (Z.to_nat alen) data) in
      let! iob := iobuf_skip iob alen in Ok (iob, set_bytes m s)
    else Ok (iob, s) in
  Ok (if len - alen =? 0 then 0 else - E_NO_MEM, iob, s).

Definition sfs_getdirentry (p : ptr) (iob : iobuf) s : res (Z * iobuf * W) :=
  let '(ok, s) := kmalloc_next s in
  if negb ok then Ok (- E_NO_MEM, iob, s) else
  let! _ := vop_fs p s in
  let! sin := get_sin p s in
  let offset := io_offset iob in
  if (offset <? 0) || negb (u32 offset mod sfs_dentry_size =? 0) then Ok (- E_INVAL, iob, s) else
  let slot := offset / sfs_dentry_size in
  if di_blocks (din sin) <? slot then Ok (- E_NOENT, iob, s) else
  let! (ret, entry, s) := on_sin p (λ x sin, sfs_getdirentry_sub_nolock x sin slot new_entry) s in
  if decide (ret ≠ 0) then Ok (ret, iob, s) else iobuf_put iob (de_name entry) s.
End sfs_world.

(** ** Operations that call others through the table *)

Section sfs_ops.
Context {D : Type} `{block_dev D}.

Notation W := (vstate (sfs_world D)).
Implicit Types s : W.

(** The functions behind [sfs_node_dirops] and [sfs_node_fileops], of which the first
    layers leave some out. *)
Record sfs_table := mkTable {
  t_close : option (ptr → W → res (Z * W));
  t_fstat : option (ptr → W → res (Z * stat * W));
  t_reclaim : option (ptr → W → res (Z * W));
  t_tryseek : option (ptr → Z → W → res (Z * W));
  t_namefile : option (ptr → iobuf → W → res (Z * iobuf * W));
  t_lookup : option (ptr → list Z → W → res (Z * option ptr * W))
}.

Definition sfs_node_dirops_of (t : sfs_table) : inode_ops W :=
  {| vop_magic := VOP_MAGIC; vop_open := Some sfs_opendir; vop_close := t_close t; vop_read := None;
     vop_write := None; vop_fstat := t_fstat t; vop_fsync := Some sfs_fsync; vop_namefile := t_namefile t;
     vop_getdirentry := Some sfs_getdirentry; vop_reclaim := t_reclaim t; vop_gettype := Some sfs_gettype;
     vop_tryseek := None; vop_truncate := None; vop_create := None; vop_lookup := t_lookup t |}.

Definition sfs_node_fileops_of (t : sfs_table) : inode_ops W :=
  {| vop_magic := VOP_MAGIC; vop_open := Some sfs_openfile; vop_close := t_close t; vop_read := Some sfs_read;
     vop_write := Some sfs_write; vop_fstat := t_fstat t; vop_fsync := Some sfs_fsync; vop_namefile := None;
     vop_getdirentry := None; vop_reclaim := t_reclaim t; vop_gettype := Some sfs_gettype;
     vop_tryseek := t_tryseek t; vop_truncate := Some sfs_truncfile; vop_create := None; vop_lookup := None |}.

Definition sfs_ops_at (t : sfs_table) (a : ptr) : option (inode_ops W) :=
  if a =? SFS_DIROPS then Some (sfs_node_dirops_of t)
  else if a =? SFS_FILEOPS then Some (sfs_node_fileops_of t) else None.

(** A kernel with these inodes, in which no one calls the file system. *)
Definition table_impl (t : sfs_table) : vfs_impl (sfs_world D) :=
  {| ops_at := sfs_ops_at t; fsop_get_root := λ _ _, Faulted; fsop_sync := λ _ _, Faulted;
     fsop_unmount := λ _ _, Faulted; fsop_cleanup := λ _ _, Faulted |}.

Definition vop {T} (t : sfs_table) (sel : inode_ops W → option T) (p : ptr) s : res (ptr * T) :=
  @vop_op _ (table_impl t) _ sel (Some p) s.

(** *** What calls [vop_fsync], [vop_truncate] and [vop_gettype] *)

Definition base_table : sfs_table := mkTable None None None None None None.

Definition sfs_close (p : ptr) s : res (Z * W) := let! (q, f) := vop base_table vop_fsync p s in f q s.

Definition sfs_fstat (p : ptr) s : res (Z * stat * W) :=
  let! (q, f) := vop base_table vop_gettype p s in
  let! (ret, mode, s) := f q s in
  if decide (ret ≠ 0) then Ok (ret, mkStat mode 0 0 0, s) else
  let! sin := get_sin p s in
  let d := din sin in
  Ok (0, mkStat mode (di_nlinks d) (di_blocks d) (di_size d), s).

Definition sfs_tryseek (p : ptr) (pos : Z) s : res (Z * W) :=
  if (pos <? 0) || (SFS_MAX_FILE_SIZE <=? pos) then Ok (- E_INVAL, s) else
  let! sin := get_sin p s in
  if di_size (din sin) <? pos then let! (q, f) := vop base_table vop_truncate p s in f q pos s else Ok (0, s).

(** The blocks of an inode without links are freed, its data by [vop_truncate]. *)
Definition free_inode_blocks (sin : sfs_inode) (x : sfs_fs D) : res (sfs_fs D) :=
  if di_nlinks (din sin) =? 0 then
    let! x := sfs_block_free x (si_ino sin) in
    if negb (di_indirect (din sin) =? 0) then sfs_block_free x (di_indirect (din sin)) else Ok x
  else Ok x.

Definition sfs_reclaim (p : ptr) s : res (Z * W) :=
  let! fs := vop_fs p s in
  let! sin := get_sin p s in
  assert! 0 <? reclaim_count sin ;;
  let s := put_sin p (set_reclaim_count (reclaim_count sin - 1) sin) s in
  let! n := get_inode s p in
  if negb (reclaim_count sin - 1 =? 0) || negb (ref_count n =? 0) then Ok (- E_BUSY, s) else
  let! (ret, s) := if di_nlinks (din sin) =? 0 then let! (q, f) := vop base_table vop_truncate p s in f q 0 s else Ok (0, s) in
  if decide (ret ≠ 0) then Ok (ret, s) else
  let! sin := get_sin p s in
  let! (ret, s) := if si_dirty sin then let! (q, f) := vop base_table vop_fsync p s in f q s else Ok (0, s) in
  if decide (ret ≠ 0) then Ok (ret, s) else
  let! x := get_sfs fs s in
  let! sin := get_sin p s in
  let! x := free_inode_blocks sin (sfs_remove_links p (si_ino sin) x) in
  let! s := put_sfs fs x s in
  let! s := inode_kill p s in
  Ok (0, on_priv (set_sins (delete p (sins (priv s)))) s).

(** *** What gives up references *)

Definition ref_table : sfs_table := mkTable (Some sfs_close) (Some sfs_fstat) (Some sfs_reclaim) (Some sfs_tryseek) None None.

Definition ref_dec (p : ptr) s : res W := let! (_, s) := @inode_ref_dec _ (table_impl ref_table) p s in Ok s.

Definition sfs_lookup (p : ptr) (path : list Z) s : res (Z * option ptr * W) :=
  let! _ := vop_fs p s in
  assert! bool_decide (path ≠ []) && negb (bool_decide (head path = Some SLASH)) ;;
  let! (_, s) := inode_ref_inc p s in
  let! sin := get_sin p s in
  if negb (di_type (din sin) =? SFS_TYPE_DIR) then let! s := ref_dec p s in Ok (- E_NOTDIR, None, s) else
  let! (ret, sub, s) := sfs_lookup_once p path s in
  let! s := ref_dec p s in
  if decide (ret ≠ 0) then Ok (ret, None, s) else Ok (0, sub, s).

Definition DOTDOT : list Z := [46; 46].

(** The loop of [sfs_namefile]; [pt] is [ptr].  The result, the room left and [ptr]; each
    round uses at least one byte of the room, which bounds the rounds. *)
Fixpoint namefile_loop (n : nat) (p : ptr) (resid pt : Z) s : res (Z * Z * Z * W) :=
  match n with
  | O => NoFuel
  | S n =>
      let! sin := get_sin p s in
      let! (ret, parent, s) := sfs_lookup_once p DOTDOT s in
      if decide (ret ≠ 0) then let! s := ref_dec p s in Ok (ret, resid, pt, s) else
      let ino := si_ino sin in
      let! s := ref_dec p s in
      let! q := deref parent in
      if decide (p = q) then let! s := ref_dec p s in Ok (0, resid, pt, s) else
      let! sin := get_sin q s in
      assert! negb (ino =? si_ino sin) && (di_type (din sin) =? SFS_TYPE_DIR) ;;
      let! (ret, entry, s) := on_sin q (λ x sin, sfs_dirent_findino_nolock x sin ino new_entry) s in
      if decide (ret ≠ 0) then let! s := ref_dec q s in Ok (ret, resid, pt, s) else
      let alen := Z.of_nat (length (entry_name entry)) + 1 in
      if resid <? alen then let! s := ref_dec q s in Ok (- E_NO_MEM, resid, pt, s) else
      let! m := store_bytes (bytes s) (pt - alen) (entry_name entry ++ [SLASH]) in
      namefile_loop n q (resid - alen) (pt - alen) (set_bytes m s)
  end.

Definition sfs_namefile (p : ptr) (iob : iobuf) s : res (Z * iobuf * W) :=
  if io_resid iob <=? 2 then Ok (- E_NO_MEM, iob, s) else
  let '(ok, s) := kmalloc_next s in
  if negb ok then Ok (- E_NO_MEM, iob, s) else
  let! _ := vop_fs p s in
  let! (_, s) := inode_ref_inc p s in
  let! (ret, resid, pt, s) := namefile_loop (Z.to_nat (io_resid iob)) p (io_resid iob - 2) (io_base iob + io_resid iob) s in
  if decide (ret ≠ 0) then Ok (ret, iob, s) else
  let alen := io_resid iob - resid - 2 in
  let! (pt, m) := memmove (bytes s) (io_base iob + 1) pt alen in
  let! m := st m (pt - 1) SLASH in
  let! m := st m (pt + alen) 0 in
  let! iob := iobuf_skip iob alen in
  Ok (0, iob, set_bytes m s).

Definition full_table : sfs_table :=
  mkTable (Some sfs_close) (Some sfs_fstat) (Some sfs_reclaim) (Some sfs_tryseek) (Some sfs_namefile) (Some sfs_lookup).

Definition sfs_node_dirops : inode_ops W := sfs_node_dirops_of full_table.
Definition sfs_node_fileops : inode_ops W := sfs_node_fileops_of full_table.

(** ** sfs_fs.c *)

Fixpoint fsync_all (l : list ptr) s : res W :=
  match l with
  | [] => Ok s
  | p :: l => let! (q, f) := vop full_table vop_fsync p s in let! (_, s) := f q s in fsync_all l s
  end.

Definition sfs_sync (fs : ptr) s : res (Z * W) :=
  let! x := get_sfs fs s in
  let! s := fsync_all (inode_list x) s in
  let! x := get_sfs fs s in
  if super_dirty x then
    let! (ret, x) := sfs_sync_super (set_super_dirty false x) in
    if decide (ret ≠ 0) then let! s := put_sfs fs (set_super_dirty true x) s in Ok (ret, s) else
    let! (ret, x) := sfs_sync_freemap x in
    if decide (ret ≠ 0) then let! s := put_sfs fs (set_super_dirty true x) s in Ok (ret, s) else
    let! s := put_sfs fs x s in Ok (0, s)
  else Ok (0, s).

Definition sfs_get_root (fs : ptr) s : res (option ptr * W) :=
  let! (ret, n, s) := sfs_load_inode fs SFS_BLKN_ROOT s in
  if decide (ret ≠ 0) then Panicked else Ok (n, s).

Definition sfs_unmount (fs : ptr) s : res (Z * W) :=
  let! m := deref (mounted (priv s) !! fs) in
  let x := snd m in
  if bool_decide (inode_list x ≠ []) then Ok (- E_BUSY, s) else
  assert! negb (super_dirty x) ;;
  Ok (0, on_priv (λ w, set_blkdevs (<[fst m := dev x]> (blkdevs w)) (set_mounted (delete fs (mounted w)) w)) s).

Fixpoint cleanup_rounds (n : nat) (fs : ptr) s : res W :=
  match n with
  | O => Ok s
  | S n => let! (ret, s) := sfs_sync fs s in if ret =? 0 then Ok s else cleanup_rounds n fs s
  end.

Definition sfs_cleanup (fs : ptr) s : res W := cleanup_rounds 32 fs s.

Definition sfs_init_read (d : D) (blkno : Z) (buf : list Z) : res (Z * list Z * D) :=
  dev_io d (i32 (u32 (blkno * SFS_BLKSIZE))) buf false.

(** The bytes of the map are [data]. *)
Fixpoint sfs_init_freemap (nblks : nat) (d : D) (data : list Z) (blkno : Z) : res (Z * list Z * D) :=
  match nblks with
  | O => Ok (0, data, d)
  | S nblks =>
      let! (ret, b, d) := sfs_init_read d blkno (take 4096 data) in
      if decide (ret ≠ 0) then Ok (ret, b ++ drop 4096 data, d) else
      let! (ret, r, d) := sfs_init_freemap nblks d (drop 4096 data) (u32 (blkno + 1)) in
      Ok (ret, b ++ r, d)
  end.

Fixpoint count_free (n : nat) (b : bitmap) (i : Z) : res Z :=
  match n with
  | O => Ok 0
  | S n =>
      let! t := bitmap_test b i in
      let! c := count_free n b (i + 1) in Ok (if t : bool then c + 1 else c)
  end.

(** The file system, if the device holds one.  The outcomes of the five calls of [kmalloc]
    are [m]: the [struct fs], the buffer, the hash lists, and two for the map.  The
    buffer is filled from the disk before it is read. *)
Definition read_volume (m : list bool) (d : D) : res (Z * option (sfs_fs D) * D) :=
  let ok i := default true (m !! i) in
  if negb (dev_blocksize d =? SFS_BLKSIZE) then Ok (- E_NA_DEV, None, d)
  else if negb (ok 0%nat) then Ok (- E_NO_MEM, None, d)
  else if negb (ok 1%nat) then Ok (- E_NO_MEM, None, d)
  else
    let! (ret, buf, d) := sfs_init_read d SFS_BLKN_SUPER zero_block in
    if decide (ret ≠ 0) then Ok (ret, None, d) else
    let sb := decode_super buf in
    if negb (sb_magic sb =? SFS_MAGIC) then Ok (- E_INVAL, None, d)
    else if dev_blocks d <? sb_blocks sb then Ok (- E_INVAL, None, d)
    else
      let sb := mkSuper (sb_magic sb) (sb_blocks sb) (sb_unused_blocks sb) (<[Z.to_nat SFS_MAX_INFO_LEN := 0]> (sb_info sb)) in
      if negb (ok 2%nat) then Ok (- E_NO_MEM, None, d) else
      let nbits := sfs_freemap_bits sb in
      let! o := bitmap_create (ok 3%nat) (ok 4%nat) nbits in
      match o with
      | None => Ok (- E_NO_MEM, None, d)
      | Some b =>
          let nblks := sfs_freemap_blocks sb in
          let '(ws, len) := bitmap_getdata b in
          assert! len =? u32 (nblks * SFS_BLKSIZE) ;;
          let! (ret, data, d) := sfs_init_freemap (Z.to_nat nblks) d (encode_words ws) SFS_BLKN_FREEMAP in
          if decide (ret ≠ 0) then Ok (ret, None, d) else
          let b := set_map b (decode_words (length ws) data) in
          let! unused := count_free (Z.to_nat nbits) b 0 in
          assert! unused =? sb_unused_blocks sb ;;
          Ok (0, Some (mkSfs sb d b false buf [] (replicate (Z.to_nat SFS_HLIST_SIZE) [])), d)
      end.

(** [dv] is the inode of the device. *)
Definition sfs_do_mount (dv : ptr) s : res (Z * option ptr * W) :=
  let! d := deref (blkdevs (priv s) !! dv) in
  let! (ret, o, d) := read_volume (kmem (priv s)) d in
  let s := on_priv (set_kmem (drop 5 (kmem (priv s)))) s in
  match o with
  | None => Ok (ret, None, on_priv (set_blkdevs (<[dv := d]> (blkdevs (priv s)))) s)
  | Some x =>
      let fs := fresh (elements (dom (mounted (priv s)))) in
      Ok (ret, Some fs, on_priv (λ w, set_blkdevs (delete dv (blkdevs w)) (set_mounted (<[fs := (dv, x)]> (mounted w)) w)) s)
  end.

#[export] Instance sfs_impl : vfs_impl (sfs_world D) :=
  {| ops_at := sfs_ops_at full_table; fsop_get_root := sfs_get_root; fsop_sync := sfs_sync;
     fsop_unmount := sfs_unmount; fsop_cleanup := sfs_cleanup |}.

Definition sfs_mount (devname : list Z) s : res (Z * W) := vfs_mount devname sfs_do_mount s.

Definition sfs_init (disk0 : list Z) s : res W :=
  let! (ret, s) := sfs_mount disk0 s in assert! ret =? 0 ;; Ok s.
End sfs_ops.
