(* ===== verification/SfsSync.v ===== *)
(** * What is written back survives a mount

    [fsync] puts an inode on the disk from where [sfs_load_inode] reads it, and
    [sfs_sync] writes the superblock and the free map from where [sfs_do_mount] reads
    them. *)

From S2P Require Import Prelude Bitmap Vfs SfsDisk Sfs SfsInv SfsMap SfsVfs.

Lemma patch_0 c l : patch 0 c l = c ++ drop (length c) l.
Proof. unfold patch. by rewrite take_0. Qed.

Section sfs_sync.
Context {D : Type} `{block_dev_laws D}.
Implicit Types (s : sfs_fs D) (sin : sfs_inode) (d : D).

(** C34: [sfs_fsync] makes an inode clean only by writing it: where it returns 0 for a dirty
    inode, whoever then reads the block of the inode as [sfs_load_inode] does gets the
    inode back; an inode whose transfer failed stays dirty.  No other block changes. *)
Theorem sfs_fsync_ok s sin :
  sfs_inv s → dinode_ok (din sin) → used s (si_ino sin) →
  ∃ ret s' sin', fsync s sin = Ok (ret, s', sin') ∧ evolve (λ x, x ≠ si_ino sin) s s' ∧
    din sin' = din sin ∧ si_ino sin' = si_ino sin ∧ (sound s → ret = 0) ∧
    si_dirty sin' = (if decide (ret = 0) then false else si_dirty sin) ∧
    (si_dirty sin = true → ret = 0 → ∀ b s'',
       sfs_rbuf s' (replicate 64 0) DINODE_SIZE (si_ino sin) 0 = Ok (0, b, s'') → decode_dinode b = din sin).
Proof.
  intros Hs Hok Hu. destruct (used_in_volume s _ Hu) as [Hv Hnz]. unfold fsync. destruct (si_dirty sin) eqn:Hd.
  2: { eexists _, _, _. by split_and!. }
  pose proof (length_encode_dinode (din sin) (dk_ndirect _ Hok)) as Hl. change DINODE_SIZE with 64.
  cbn [din si_ino set_dirty].
  destruct (sfs_wbuf_spec s (encode_dinode (din sin)) 64 (si_ino sin) 0) as (ret & s' & -> & Hst & Hso);
    [apply Hs|done|done|lia..|]. cbn [bind].
  assert (length (sblk s (si_ino sin)) = 4096%nat) as Hlb by (apply sblk_length, Hs).
  eexists _, _, _. split; [done|]. split_and!; [|by destruct (decide (ret ≠ 0))|by destruct (decide (ret ≠ 0))|done| |].
  - eapply evolve_io; [done..|]. intros x. destruct (decide (ret = 0)); [by right|by left].
  - destruct (decide (ret = 0)) as [->|]; [done|]. by rewrite decide_True.
  - intros _ -> b s'' Hr. rewrite decide_True in Hst by done.
    destruct (sfs_rbuf_spec s' (replicate 64 0) 64 (si_ino sin) 0) as (ret & b' & s3 & Er & _ & Hb' & _);
      [apply Hst|unfold in_volume; by rewrite (st_super _ _ _ Hst)|done|lia..|].
    rewrite Hr in Er. simplify_eq. rewrite decide_True by done. change (Z.to_nat 64) with 64%nat.
    rewrite (st_blk _ _ _ Hst). unfold put_blk. rewrite decide_True by done.
    rewrite (take_ge (encode_dinode _)) by lia. change (Z.to_nat 0) with 0%nat. rewrite drop_0, !patch_0.
    rewrite take_app_length', length_encode_dinode by (done || apply Hok).
    rewrite <- (app_nil_r (encode_dinode _ ++ _)), <- app_assoc. by apply decode_encode_dinode.
Qed.

(** ** Many blocks at once *)

Lemma wblock_many nblks s buf b :
  io_inv s → 0 < b → b + Z.of_nat nblks ≤ sb_blocks (super s) → length buf = (4096 * nblks)%nat →
  ∃ ret buf' s' f, sfs_wblock s buf b nblks = Ok (ret, buf', s') ∧ io_step f s s' ∧ (sound s → ret = 0) ∧
    (∀ x, ¬ (b ≤ x < b + Z.of_nat nblks) → f x = sblk s x) ∧
    (ret = 0 → ∀ i, (i < nblks)%nat → f (b + Z.of_nat i) = take 4096 (drop (4096 * i) buf)).
Proof.
  unfold sfs_wblock. revert s buf b. induction nblks as [|nblks IH]; intros s buf b Hs Hb Hend Hl; cbn [sfs_rwblock].
  { eexists _, _, _, (sblk s). split_and!; [done|done|done|done|lia]. }
  pose proof (ii_addr _ Hs).
  destruct (rwblock_write s (take 4096 buf) b true) as (ret & s1 & -> & Hst & Hso);
    [done|unfold in_volume; lia|left; lia|rewrite length_take; lia|]. cbn [bind].
  destruct (decide (ret ≠ 0)) as [Hr|Hr].
  { rewrite decide_False in Hst by done. eexists _, _, _, (sblk s). by split_and!. }
  apply dec_stable in Hr as ->. rewrite decide_True in Hst by done. rewrite u32_small by lia.
  destruct (IH s1 (drop 4096 buf) (b + 1)) as (ret & buf' & s2 & f & -> & Hst2 & Hso2 & Hout & Hin);
    [apply Hst|lia|rewrite (st_super _ _ _ Hst); lia|rewrite length_drop; lia|]. cbn [bind].
  eexists _, _, _, f. split; [done|]. split_and!; [by eapply io_step_trans|by intros ?%(st_sound _ _ _ Hst)%Hso2| |].
  - intros x Hx. rewrite Hout, (st_blk _ _ _ Hst) by lia. unfold put_blk. by rewrite decide_False by lia.
  - intros E [|i] Hi.
    + rewrite Z.add_0_r, Nat.mul_0_r, drop_0, Hout, (st_blk _ _ _ Hst) by lia. unfold put_blk. by rewrite decide_True.
    + replace (b + Z.of_nat (S i)) with (b + 1 + Z.of_nat i) by lia. rewrite Hin, drop_drop by (done || lia).
      do 2 f_equal. lia.
Qed.

Lemma init_read_ok d b buf :
  dev_ok d → 0 ≤ b < dev_blocks d → b < 2 ^ 19 → length buf = 4096%nat → dev_sound d →
  ∃ d', sfs_init_read d b buf = Ok (0, blk d b, d') ∧ dev_ok d' ∧ dev_sound d' ∧ dev_blocks d' = dev_blocks d ∧
    ∀ x, blk d' x = blk d x.
Proof.
  intros Hd Hb Hb' Hl Hsn. unfold sfs_init_read.
  rewrite i32_u32, i32_small by (unfold SFS_BLKSIZE; lia).
  destruct (dev_read_law d b buf) as (ret & buf' & d' & -> & Hok & Hn & _ & Hx & Hr & Hso); [done..|].
  destruct (Hso Hsn) as [-> Hsn']. rewrite (Hr eq_refl). eexists. by split_and!.
Qed.

(** [sfs_init_freemap] reads the bytes of consecutive blocks. *)
Lemma init_freemap_ok nblks d data b l :
  dev_ok d → dev_sound d → 0 ≤ b → b + Z.of_nat nblks ≤ dev_blocks d → b + Z.of_nat nblks ≤ 2 ^ 19 →
  length data = (4096 * nblks)%nat → length l = (4096 * nblks)%nat →
  (∀ i, (i < nblks)%nat → blk d (b + Z.of_nat i) = take 4096 (drop (4096 * i) l)) →
  ∃ d', sfs_init_freemap nblks d data b = Ok (0, l, d') ∧ dev_ok d' ∧ dev_sound d' ∧ dev_blocks d' = dev_blocks d ∧ ∀ x, blk d' x = blk d x.
Proof.
  revert d data b l. induction nblks as [|nblks IH]; intros d data b l Hd Hsn Hb Hend Hend' Hl Hl' Hin; cbn [sfs_init_freemap].
  { destruct data, l; try done. eexists. by split_and!. }
  destruct (init_read_ok d b (take 4096 data)) as (d1 & -> & Hd1 & Hsn1 & Hn1 & Hx1); [done|lia|lia|rewrite length_take; lia|done|].
  cbn [bind]. rewrite decide_False by auto. rewrite u32_small by lia.
  destruct (IH d1 (drop 4096 data) (b + 1) (drop 4096 l)) as (d2 & -> & Hd2 & Hsn2 & Hn2 & Hx2);
    [done|done|lia|lia|lia|rewrite length_drop; lia|rewrite length_drop; lia| |].
  - intros i Hi. replace (b + 1 + Z.of_nat i) with (b + Z.of_nat (S i)) by lia. rewrite Hx1, Hin, drop_drop by lia.
    do 2 f_equal. lia.
  - cbn [bind]. eexists. split; [|split_and!; [done|done|by rewrite Hn2|intros x; by rewrite Hx2]].
    pose proof (Hin 0%nat ltac:(lia)) as H0'. rewrite Z.add_0_r, Nat.mul_0_r, drop_0 in H0'.
    by rewrite H0', take_drop.
Qed.

(** [sfs_do_mount] counts the free blocks. *)
Lemma count_free_ok n b i :
  bitmap_inv b → 0 ≤ i → i + Z.of_nat n ≤ nbits b →
  count_free n b i = Ok (zsum (λ j, b2z (is_free b j)) (seqZ i (Z.of_nat n))).
Proof.
  intros Hb. revert i. induction n as [|n IH]; intros i Hi Hn; cbn [count_free]; [done|].
  rewrite bitmap_test_ok by (done || lia). cbn [bind]. rewrite IH by lia. cbn [bind].
  rewrite (seqZ_cons i) by lia. cbn [zsum foldr]. fold (zsum (λ j, b2z (is_free b j)) (seqZ (i + 1) (Z.of_nat n))).
  replace (Z.succ i) with (i + 1) by lia. replace (Z.pred (Z.of_nat (S n))) with (Z.of_nat n) by lia.
  fold (zsum (λ j, b2z (is_free b j)) (seqZ (i + 1) (Z.of_nat n))). destruct (is_free b i); cbn [b2z]; f_equal; lia.
Qed.

(** ** Unmount and mount *)

(** What mksfs writes and [sfs_do_mount] checks. *)
Record volume_ok s : Prop := {
  vo_inv : sfs_inv s;
  vo_super : super_ok (super s);
  vo_magic : sb_magic (super s) = SFS_MAGIC;
  vo_info : sb_info (super s) !! 31%nat = Some 0;
  vo_pos : 0 < sb_blocks (super s);
  vo_nbits : nbits (freemap s) = sfs_freemap_bits (super s);
  vo_map : SFS_BLKN_FREEMAP + sfs_freemap_blocks (super s) ≤ sb_blocks (super s)
}.

(** The number of blocks of the map, and its size in bits, words and bytes. *)
Lemma volume_sizes s : volume_ok s →
  ∃ k, sfs_freemap_blocks (super s) = k ∧ 0 < k ≤ 16 ∧ sfs_freemap_bits (super s) = k * 32768 ∧
    nwords (freemap s) = k * 1024 ∧ length (map (freemap s)) = Z.to_nat (k * 1024) ∧ sb_blocks (super s) ≤ k * 32768.
Proof.
  intros [[Hio Hm Hn _ _] Hsu _ _ Hp Hnb _]. exists (sfs_freemap_blocks (super s)).
  unfold sfs_freemap_blocks, sfs_freemap_bits in *. change SFS_BLKBITS with 32768 in *. unfold ROUNDUP_DIV in *.
  pose proof (ii_addr _ Hio). rewrite u32_small in * by lia.
  set (k := (sb_blocks (super s) + 32768 - 1) / 32768) in *.
  assert (32768 * k ≤ sb_blocks (super s) + 32768 - 1 < 32768 * k + 32768) as Hk.
  { pose proof (Z.div_mod (sb_blocks (super s) + 32768 - 1) 32768). pose proof (Z.mod_pos_bound (sb_blocks (super s) + 32768 - 1) 32768). lia. }
  assert (nwords (freemap s) = k * 1024) as Hw.
  { rewrite (bi_nwords _ Hm), Hnb. symmetry. apply (Z.div_unique_pos _ _ _ 31); lia. }
  split_and!; try done; try lia. pose proof (bi_words _ Hm). lia.
Qed.

Lemma sync_super_ok s :
  volume_ok s → sound s →
  ∃ s1, sfs_sync_super s = Ok (0, s1) ∧
    io_step (put_blk 0 (encode_super (super s) ++ drop 44 zero_block) (sblk s)) s s1.
Proof.
  intros Hv Hsn. pose proof Hv as [[Hio _ _ _ _] Hsu _ _ Hp _ _]. unfold sfs_sync_super.
  assert (length (encode_super (super s)) = 44%nat) as Hl.
  { unfold encode_super. by rewrite !length_app, !length_le_bytes, (sk_info _ Hsu). }
  rewrite patch_0, Hl. change SFS_BLKN_SUPER with 0. set (b := encode_super _ ++ _).
  assert (length b = 4096%nat) as Hlb by (unfold b; rewrite length_app, Hl, length_drop, length_zero_block; done).
  destruct (rwblock_write s b 0 false) as (ret & s1 & -> & Hst & Hso); [done|unfold in_volume; lia|by right|done|].
  rewrite (Hso Hsn) in *. cbn [bind]. eexists. split; [done|]. by apply io_step_buffer.
Qed.

Lemma sync_freemap_ok s :
  volume_ok s → sound s →
  ∃ s1 f, sfs_sync_freemap s = Ok (0, s1) ∧ io_step f s s1 ∧
    (∀ x, ¬ (2 ≤ x < 2 + sfs_freemap_blocks (super s)) → f x = sblk s x) ∧
    (∀ i, (i < Z.to_nat (sfs_freemap_blocks (super s)))%nat →
       f (2 + Z.of_nat i) = take 4096 (drop (4096 * i) (encode_words (map (freemap s))))).
Proof.
  intros Hv Hsn. destruct (volume_sizes s Hv) as (k & Ek & Hk & _ & _ & Hlen & _). pose proof (vo_map _ Hv) as Hmap.
  rewrite Ek in *. change SFS_BLKN_FREEMAP with 2 in *. unfold sfs_sync_freemap. rewrite Ek. cbn [bitmap_getdata fst].
  change SFS_BLKN_FREEMAP with 2.
  destruct (wblock_many (Z.to_nat k) s (encode_words (map (freemap s))) 2)
    as (ret & buf & s1 & f & -> & Hst & Hso & Hout & Hin); [apply Hv|lia|lia|rewrite length_encode_words, Hlen; lia|].
  rewrite (Hso Hsn) in *. cbn [bind]. exists s1, f. rewrite Z2Nat.id in Hout by lia.
  split_and!; [done|done|done|]. intros i Hi. by apply Hin.
Qed.

(** What [sfs_do_mount] reads from a device that holds the superblock and the map of [s]. *)
Lemma read_volume_ok s d sb :
  volume_ok s → dev_ok d → dev_sound d → sb_blocks (super s) ≤ dev_blocks d →
  decode_super (blk d 0) = sb →
  mkSuper (sb_magic sb) (sb_blocks sb) (sb_unused_blocks sb) (<[Z.to_nat SFS_MAX_INFO_LEN:=0]> (sb_info sb)) = super s →
  (∀ i, (i < Z.to_nat (sfs_freemap_blocks (super s)))%nat →
     blk d (2 + Z.of_nat i) = take 4096 (drop (4096 * i) (encode_words (map (freemap s))))) →
  ∃ d', read_volume [] d = Ok (0, Some (mkSfs (super s) d' (freemap s) false (blk d 0) []
                                          (replicate (Z.to_nat SFS_HLIST_SIZE) [])), d') ∧
    dev_ok d' ∧ dev_sound d' ∧ dev_blocks d' = dev_blocks d ∧ ∀ x, blk d' x = blk d x.
Proof.
  intros Hv Hd Hsd Hdb Hb0 Hsb Hi. destruct (volume_sizes s Hv) as (k & Ek & Hk & Ebits & Enw & Hlen & Hbk).
  pose proof Hv as [[Hio Hm Hnb Hfree Hun] Hsup Hmag Hinfo Hpos Hbits Hmap]. rewrite Ek in Hmap, Hi.
  change SFS_BLKN_FREEMAP with 2 in Hmap. pose proof (ii_addr _ Hio) as Haddr.
  unfold read_volume. rewrite (blocksize_law d Hd), Z.eqb_refl. cbn [negb lookup list_lookup default].
  change (default true ([] !! 0%nat)) with true. cbn [negb].
  change SFS_BLKN_SUPER with 0. destruct (init_read_ok d 0 zero_block) as (d1 & -> & Hd1 & Hsd1 & Hn1 & Hx1);
    [done|lia|done|apply length_zero_block|done|].
  cbn [bind]. rewrite decide_False by auto.
  rewrite Hb0, Hn1. pose proof (f_equal sb_magic Hsb) as Em. pose proof (f_equal sb_blocks Hsb) as Eb. cbn in Em, Eb.
  rewrite Em, Eb, Hmag, Z.eqb_refl, (proj2 (Z.ltb_ge _ _)) by done. cbn [negb].
  rewrite Em, Hmag, Eb in Hsb. rewrite Hsb.
  change (default true ([] !! 2%nat)) with true. change (default true ([] !! 3%nat)) with true.
  change (default true ([] !! 4%nat)) with true. cbn [negb].
  pose proof (bitmap_create_all_free true true (sfs_freemap_bits (super s)) ltac:(lia)) as Hc. cbn [andb] in Hc.
  destruct Hc as (b & -> & Hbi & Hbn & _). cbn [bind bitmap_getdata]. rewrite Ek.
  assert (nwords b = k * 1024) as Hbw by (rewrite (bi_nwords _ Hbi), Hbn; symmetry; apply (Z.div_unique_pos _ _ _ 31); lia).
  pose proof (bi_words _ Hbi) as Hbl. unfold SFS_BLKSIZE. replace (k * 4096) with (4 * nwords b) by lia. rewrite Z.eqb_refl.
  change SFS_BLKN_FREEMAP with 2.
  destruct (init_freemap_ok (Z.to_nat k) d1 (encode_words (map b)) 2 (encode_words (map (freemap s))))
    as (d2 & -> & Hd2 & Hsd2 & Hn2 & Hx2); [done|done|lia|lia|lia|rewrite length_encode_words; lia|rewrite length_encode_words; lia| |].
  { intros i Hik. rewrite Hx1. by apply Hi. }
  cbn [bind]. rewrite decide_False by auto.
  assert (set_map b (decode_words (length (map b)) (encode_words (map (freemap s)))) = freemap s) as ->.
  { replace (length (map b)) with (length (map (freemap s))) by lia.
    rewrite <- (app_nil_r (encode_words _)), decode_encode_words by apply Hm. unfold set_map. rewrite Hbn, Hbw, <- Hbits, <- Enw.
    by destruct (freemap s). }
  rewrite count_free_ok by (done || lia). cbn [bind]. rewrite Z2Nat.id, <- Hbits by lia.
  fold (free_count (freemap s)). rewrite <- Hun, Z.eqb_refl. eexists. split; [done|].
  split_and!; [done|done|congruence|]. intros x. by rewrite Hx2.
Qed.

End sfs_sync.
