(* ===== verification/SfsDemo.v ===== *)
(** * A small volume

    A disk in memory as an instance of [block_dev], and on it a volume of 16 blocks with a
    file and a directory, at which the theorems of the other files are applied. *)

From S2P Require Import Prelude CString Iobuf Bitmap Vfs SfsDisk Sfs SfsInv SfsMap SfsFile SfsDir SfsVfs SfsSync.

(** ** A disk in memory *)

Record ramdisk := mkRam { ram_blocks : Z; ram_data : gmap Z (list Z) }.

Definition ram_get (d : ramdisk) (b : Z) : list Z := default zero_block (ram_data d !! b).

#[export] Instance ram_dev : block_dev ramdisk := {|
  dev_blocks := ram_blocks;
  dev_blocksize := λ _, SFS_BLKSIZE;
  dev_io d off buf write :=
    let b := off / SFS_BLKSIZE in
    if (off <? 0) || (ram_blocks d <=? b) then Ok (- E_INVAL, buf, d)
    else if write then Ok (0, buf, mkRam (ram_blocks d) (<[b := buf]> (ram_data d)))
    else Ok (0, ram_get d b, d) |}.

Definition ram_ok (d : ramdisk) : Prop := ∀ b, length (ram_get d b) = 4096%nat.

Lemma ram_io d b buf (write : bool) : 0 ≤ b < ram_blocks d →
  dev_io d (b * SFS_BLKSIZE) buf write =
    if write then Ok (0, buf, mkRam (ram_blocks d) (<[b := buf]> (ram_data d))) else Ok (0, ram_get d b, d).
Proof.
  intros Hb. cbn. unfold SFS_BLKSIZE. rewrite Z.div_mul by lia.
  rewrite (proj2 (Z.ltb_ge _ _)), (proj2 (Z.leb_gt _ _)) by lia. done.
Qed.

Lemma ram_get_insert d b v x :
  ram_get (mkRam (ram_blocks d) (<[b := v]> (ram_data d))) x = if decide (x = b) then v else ram_get d x.
Proof. unfold ram_get. cbn. case_decide; [subst; by rewrite lookup_insert_eq|by rewrite lookup_insert_ne]. Qed.

#[export] Program Instance ram_laws : block_dev_laws ramdisk := {|
  dev_ok := ram_ok; dev_sound := λ _, True; blk := ram_get |}.
Next Obligation. intros d b Hd. apply Hd. Qed.
Next Obligation. done. Qed.
Next Obligation.
  intros d b buf Hd Hb _ Hl. rewrite ram_io by done. eexists _, _, _. split; [done|]. split_and!; try done.
Qed.
Next Obligation.
  intros d b buf Hd Hb _ Hl. rewrite ram_io by done. eexists _, _. split; [done|]. split_and!; try done.
  - intros x. rewrite ram_get_insert. case_decide; [done|apply Hd].
  - intros x. cbn [blk]. rewrite ram_get_insert. repeat case_decide; naive_solver.
Qed.

(** ** The volume

    Blocks 0 to 5 are in use: the superblock, the root directory, the free map, the inode of
    the file, its data, and the first entry of the directory. *)

Definition demo_super : sfs_super := mkSuper SFS_MAGIC 16 10 (replicate 32 0).
Definition demo_map : bitmap := mkBitmap 32768 1024 (0xFFC0 :: replicate 1023 0).

Definition demo_name : list Z := [104; 105].
Definition demo_entry : sfs_disk_entry := mkEntry 3 (demo_name ++ replicate 254 0).

Definition demo_file : sfs_disk_inode := mkDinode 100 SFS_TYPE_FILE 1 1 (4 :: replicate 11 0) 0.
Definition demo_dir : sfs_disk_inode := mkDinode 0 SFS_TYPE_DIR 2 1 (5 :: replicate 11 0) 0.

Definition demo_disk : ramdisk :=
  mkRam 16 {[ 1 := patch 0 (encode_dinode demo_dir) zero_block;
              3 := patch 0 (encode_dinode demo_file) zero_block;
              4 := replicate 100 7 ++ replicate 3996 0;
              5 := patch 0 (encode_entry demo_entry) zero_block ]}.

Definition demo : sfs_fs ramdisk :=
  mkSfs demo_super demo_disk demo_map true zero_block [] (replicate 1024 []).

Definition file_sin : sfs_inode := mkSin demo_file 3 true 1.
Definition dir_sin : sfs_inode := mkSin demo_dir 1 true 1.

Definition file_own (b : Z) : Prop := b = 1 ∨ b = 2 ∨ b = 3 ∨ b = 5.
Definition dir_own (b : Z) : Prop := b = 1 ∨ b = 2 ∨ b = 3 ∨ b = 4.

Lemma demo_free i : 0 ≤ i → is_free demo_map i = bool_decide (6 ≤ i < 16).
Proof.
  intros Hi. destruct (index_split i Hi) as (k & o & Ho & ->). rewrite is_free_word by done. cbn [map demo_map].
  destruct k as [|k]; cbn [lookup list_lookup].
  - assert (Forall (λ o, Z.testbit 0xFFC0 o = bool_decide (6 ≤ o < 16)) (seqZ 0 32)) as Hall.
    { apply Forall_forall. intros x Hx. assert (x ∈ seqZ 0 32) as Hx' by done. vm_compute in Hx'.
      repeat (apply elem_of_cons in Hx' as [->|Hx']; [done|]). by apply elem_of_nil in Hx'. }
    rewrite Forall_forall in Hall. rewrite Hall by (apply elem_of_seqZ; lia). apply bool_decide_ext. lia.
  - rewrite bool_decide_eq_false_2 by lia. destruct (replicate 1023 0 !! k) as [w|] eqn:E; [|done].
    apply lookup_replicate in E as [-> _]. apply Z.bits_0.
Qed.

Lemma demo_map_inv : bitmap_inv demo_map.
Proof.
  split; [cbn; lia|by vm_compute|done| |].
  - apply Forall_cons. split; [done|]. by apply Forall_replicate.
  - intros i Hi. cbn in Hi. rewrite demo_free by lia. apply bool_decide_eq_false_2. lia.
Qed.

Lemma demo_ram_ok : ram_ok demo_disk.
Proof.
  intros b. unfold ram_get, demo_disk. cbn [ram_data].
  destruct (decide (b = 1)) as [->|]; [by vm_compute|]. rewrite lookup_insert_ne by done.
  destruct (decide (b = 3)) as [->|]; [by vm_compute|]. rewrite lookup_insert_ne by done.
  destruct (decide (b = 4)) as [->|]; [by vm_compute|]. rewrite lookup_insert_ne by done.
  destruct (decide (b = 5)) as [->|]; [by vm_compute|]. by rewrite lookup_singleton_ne.
Qed.

Lemma demo_count : free_count demo_map = 10.
Proof.
  unfold free_count. cbn [nbits demo_map]. rewrite (zsum_ext _ (λ i, b2z (bool_decide (6 ≤ i < 16)))).
  2: { intros i Hi%elem_of_seqZ. by rewrite demo_free by lia. }
  assert (∀ n, 0 ≤ n → zsum (λ i, b2z (bool_decide (6 ≤ i < 16))) (seqZ 16 n) = 0) as Hz.
  { intros n Hn. rewrite (zsum_ext _ (λ _, 0)); [by apply zsum_const0|]. intros i Hi%elem_of_seqZ.
    by rewrite bool_decide_eq_false_2 by lia. }
  replace 32768 with (16 + 32752) by lia. rewrite seqZ_app, zsum_app, Hz by lia. done.
Qed.

Lemma demo_inv : sfs_inv demo.
Proof.
  split.
  - split; [apply demo_ram_ok|cbn; lia|cbn; lia|done].
  - apply demo_map_inv.
  - cbn. lia.
  - intros b Hb. cbn [freemap demo]. rewrite demo_free, bool_decide_eq_true by done. cbn. lia.
  - symmetry. apply demo_count.
Qed.

Lemma demo_used b : used demo b ↔ 1 ≤ b ≤ 5.
Proof.
  unfold used. cbn [demo super freemap demo_super sb_blocks]. split.
  - intros [Hb Hf]. rewrite demo_free, bool_decide_eq_false in Hf by lia. lia.
  - intros Hb. rewrite demo_free, bool_decide_eq_false by lia. lia.
Qed.

(** A file of one block. *)
Lemma one_block s d own b :
  dinode_ok d → di_blocks d = 1 → di_direct d = b :: replicate 11 0 → di_indirect d = 0 → used s b → ¬ own b →
  file_inv s d own.
Proof.
  intros Hok Hb Hd Hi Hu Ho.
  assert (fblock s d 0 = b) as Hf0 by (unfold fblock; cbn; by rewrite Hd).
  split; [done|by rewrite Hb| | | |done]; rewrite ?Hb.
  - intros i Hi'. assert (i = 0) as -> by lia. rewrite Hf0, Hi. split_and!; [done|done|]. destruct Hu. lia.
  - intros i Hi'. unfold fblock. rewrite Hd, Hi. destruct (Z.ltb_spec i 12); [|done].
    replace (Z.to_nat i) with (S (Z.to_nat (i - 1))) by lia.
    change ((b :: replicate 11 0) !! S (Z.to_nat (i - 1))) with (replicate 11 0 !! Z.to_nat (i - 1)).
    by rewrite lookup_replicate_2 by lia.
  - intros i j ? ? _. lia.
Qed.

Lemma demo_dinode_ok sz ty nl b :
  0 ≤ sz < 4096 → 0 ≤ ty < 16 → 0 ≤ nl < 16 → 0 ≤ b < 16 → dinode_ok (mkDinode sz ty nl 1 (b :: replicate 11 0) 0).
Proof.
  intros. split; cbn; unfold is_u32; try lia. repeat constructor; lia.
Qed.

Lemma demo_file_ok : file_ok demo file_sin file_own.
Proof.
  split; [|done|by vm_compute].
  apply (one_block _ _ _ 4); [apply demo_dinode_ok; done|done|done|done|by apply demo_used|unfold file_own; lia].
Qed.

Lemma demo_dir_ok : dir_ok demo dir_sin dir_own.
Proof.
  split; [|done].
  apply (one_block _ _ _ 5); [apply demo_dinode_ok; done|done|done|done|by apply demo_used|unfold dir_own; lia].
Qed.

Lemma file_own_used x : file_own x → used demo x.
Proof. intros Hx. apply demo_used. unfold file_own in Hx. lia. Qed.

Lemma demo_volume_ok : volume_ok demo.
Proof.
  split; [apply demo_inv| |done|done|done|done|].
  - by split.
  - discriminate.
Qed.

(** ** The theorems at the volume *)

Lemma sfs_write_ok_witness :
  ∃ ret n s' sin', sfs_io_nolock demo file_sin [1; 2; 3] 99 3 true = Ok (ret, n, [1; 2; 3], s', sin') ∧ 0 ≤ n ≤ 3 ∧
    evolve file_own demo s' ∧ file_ok s' sin' file_own ∧ same_inode file_sin sin' ∧
    di_size (din sin') = Z.max 100 (99 + n) ∧
    content s' (din sin') = patch 99 (take (Z.to_nat n) [1; 2; 3]) (content demo demo_file) ∧
    (ret = 0 → n = 3) ∧ (sound demo → nblocks (99 + 3) - 1 <= room demo demo_file → ret = 0).
Proof.
  apply (sfs_write_ok file_own demo file_sin [1; 2; 3] 99);
    [apply demo_inv|apply demo_file_ok|apply file_own_used|cbn; lia|cbn; unfold MAX_BLOCKS; lia].
Defined.



Lemma sfs_dirent_search_ok_witness :
  ∃ ret r empty s', sfs_dirent_search_nolock demo dir_sin demo_name (Some demo_entry) = Ok (ret, r, empty, s', dir_sin) ∧
    evolve (λ _, True) demo s' ∧ search_result demo demo_dir 0 demo_name ret r.
Proof.
  apply (sfs_dirent_search_ok dir_own demo dir_sin demo_name demo_entry); [apply demo_inv|apply demo_dir_ok|done].
Defined.

Lemma sfs_getdirentry_ok_witness :
  ∃ ret e' s', sfs_getdirentry_sub_nolock demo dir_sin 0 demo_entry = Ok (ret, e', s', dir_sin) ∧
    evolve (λ _, True) demo s' ∧ (ret = 0 → filter in_use (entries demo demo_dir) !! 0%nat = Some e') ∧
    (sound demo → ret ≠ 0 → ret = - E_NOENT ∧ filter in_use (entries demo demo_dir) !! 0%nat = None).
Proof.
  apply (sfs_getdirentry_ok dir_own demo dir_sin 0 demo_entry); [apply demo_inv|apply demo_dir_ok|lia|done].
Defined.

Lemma sfs_fsync_ok_witness :
  ∃ ret s' sin', fsync demo file_sin = Ok (ret, s', sin') ∧ evolve (λ x, x ≠ 3) demo s' ∧
    din sin' = demo_file ∧ si_ino sin' = 3 ∧ (sound demo → ret = 0) ∧
    si_dirty sin' = (if decide (ret = 0) then false else true) ∧
    (true = true → ret = 0 → ∀ b s'',
       sfs_rbuf s' (replicate 64 0) DINODE_SIZE 3 0 = Ok (0, b, s'') → decode_dinode b = demo_file).
Proof.
  apply (sfs_fsync_ok demo file_sin); [apply demo_inv|apply (demo_dinode_ok 100 1 1 4); lia|apply demo_used; cbn; lia].
Defined.


(** What the operations return there: the write ends with the file two bytes longer, the
    read stops at the end of the file, and the search finds the entry in slot 0. *)
Example demo_io :
  match sfs_io_nolock demo file_sin [1; 2; 3] 99 3 true with
  | Ok (ret, n, _, _, sin') => ret = 0 ∧ n = 3 ∧ di_size (din sin') = 102
  | _ => False
  end ∧
  match sfs_io_nolock demo file_sin [0; 0; 0] 98 3 false with
  | Ok (ret, n, buf, _, _) => ret = 0 ∧ n = 2 ∧ buf = [7; 7; 0]
  | _ => False
  end ∧
  match sfs_dirent_search_nolock demo dir_sin demo_name (Some demo_entry) with
  | Ok (ret, r, _, _, _) => ret = 0 ∧ r = Some (0, 3)
  | _ => False
  end.
Proof. by vm_compute. Qed.
