(* ===== verification/SfsLaws.v ===== *)
(** * kern/fs/sfs as a file system of the VFS

    [vfs_laws] of [FileInv] for the tables of functions of sfs: every operation of a file
    or directory comes to an end, leaves the tables of open files alone, and leaves
    behind exactly the references that it returns, on every volume and every device
    whose transfers come to an end ([block_dev_ends]).  The theorems of [OpenFiles] on
    sequences of file calls therefore hold for files of sfs. *)

From S2P Require Import Prelude Hash CString Iobuf Bitmap Vfs File FileInv SfsDisk Sfs SfsVfs SfsDemo.

Class block_dev_ends (D : Type) `{block_dev D} : Prop :=
  dev_io_ends d off buf write : dev_io d off buf write ≠ NoFuel.

Create HintDb ends discriminated.
#[export] Hint Resolve dev_io_ends deref_fuel st_fuel ld_not_nofuel load_bytes_fuel store_bytes_fuel : ends.

(** Goes through the branches of a definition and the calls it makes. *)
Ltac ends_step :=
  match goal with
  | |- bind _ _ ≠ NoFuel => apply bind_not_nofuel
  | |- context [match ?e with _ => _ end] => destruct e
  | |- ∀ _, _ => intros ?
  end.
Ltac ends := repeat first [done | solve [auto with ends nocore] | ends_step].

Section sfs_ends.
Context {D : Type} `{block_dev_ends D}.
Implicit Types (s : sfs_fs D) (sin : sfs_inode).

(** ** Blocks and files *)

Lemma bitmap_test_ends b i : bitmap_test b i ≠ NoFuel.
Proof. unfold bitmap_test, bitmap_translate. ends. Qed.
#[local] Hint Resolve bitmap_test_ends : ends.

Lemma bitmap_free_ends b i : bitmap_free b i ≠ NoFuel.
Proof. unfold bitmap_free, bitmap_translate. ends. Qed.
#[local] Hint Resolve bitmap_free_ends : ends.

Lemma alloc_words_ends ix ws : alloc_words ix ws ≠ NoFuel.
Proof. revert ix. induction ws; intros ix; cbn; ends. Qed.
#[local] Hint Resolve alloc_words_ends : ends.

Lemma bitmap_alloc_ends b : bitmap_alloc b ≠ NoFuel.
Proof. unfold bitmap_alloc. ends. Qed.
#[local] Hint Resolve bitmap_alloc_ends : ends.

Lemma sfs_rwblock_nolock_ends s buf b w ck : sfs_rwblock_nolock s buf b w ck ≠ NoFuel.
Proof. unfold sfs_rwblock_nolock. ends. Qed.
#[local] Hint Resolve sfs_rwblock_nolock_ends : ends.

Lemma sfs_rwblock_ends n s buf b w : sfs_rwblock n s buf b w ≠ NoFuel.
Proof. revert s buf b. induction n; intros s buf b; cbn; ends. Qed.
#[local] Hint Resolve sfs_rwblock_ends : ends.

Lemma sfs_rblock_ends s buf b n : sfs_rblock s buf b n ≠ NoFuel.
Proof. unfold sfs_rblock. ends. Qed.
#[local] Hint Resolve sfs_rblock_ends : ends.

Lemma sfs_wblock_ends s buf b n : sfs_wblock s buf b n ≠ NoFuel.
Proof. unfold sfs_wblock. ends. Qed.
#[local] Hint Resolve sfs_wblock_ends : ends.

Lemma sfs_rbuf_ends s buf len b o : sfs_rbuf s buf len b o ≠ NoFuel.
Proof. unfold sfs_rbuf. ends. Qed.
#[local] Hint Resolve sfs_rbuf_ends : ends.

Lemma sfs_wbuf_ends s buf len b o : sfs_wbuf s buf len b o ≠ NoFuel.
Proof. unfold sfs_wbuf. ends. Qed.
#[local] Hint Resolve sfs_wbuf_ends : ends.

Lemma sfs_sync_super_ends s : sfs_sync_super s ≠ NoFuel.
Proof. unfold sfs_sync_super. ends. Qed.
#[local] Hint Resolve sfs_sync_super_ends : ends.

Lemma sfs_sync_freemap_ends s : sfs_sync_freemap s ≠ NoFuel.
Proof. unfold sfs_sync_freemap. ends. Qed.
#[local] Hint Resolve sfs_sync_freemap_ends : ends.

Lemma clear_loop_ends n s b : clear_loop n s b ≠ NoFuel.
Proof. revert s b. induction n; intros s b; cbn; ends. Qed.
#[local] Hint Resolve clear_loop_ends : ends.

Lemma sfs_clear_block_ends s b n : sfs_clear_block s b n ≠ NoFuel.
Proof. unfold sfs_clear_block. ends. Qed.
#[local] Hint Resolve sfs_clear_block_ends : ends.

Lemma sfs_block_inuse_ends s b : sfs_block_inuse s b ≠ NoFuel.
Proof. unfold sfs_block_inuse. ends. Qed.
#[local] Hint Resolve sfs_block_inuse_ends : ends.

Lemma sfs_block_alloc_ends s : sfs_block_alloc s ≠ NoFuel.
Proof. unfold sfs_block_alloc. ends. Qed.
#[local] Hint Resolve sfs_block_alloc_ends : ends.

Lemma sfs_block_free_ends s b : sfs_block_free s b ≠ NoFuel.
Proof. unfold sfs_block_free. ends. Qed.
#[local] Hint Resolve sfs_block_free_ends : ends.

Lemma sub_cleanup_ends s r e b : sub_cleanup s r e b ≠ NoFuel.
Proof. unfold sub_cleanup. ends. Qed.
#[local] Hint Resolve sub_cleanup_ends : ends.

Lemma sub_new_ends s e b o : sub_new s e b o ≠ NoFuel.
Proof. unfold sub_new. ends. Qed.
#[local] Hint Resolve sub_new_ends : ends.

Lemma sfs_bmap_get_sub_nolock_ends s e i c : sfs_bmap_get_sub_nolock s e i c ≠ NoFuel.
Proof. unfold sfs_bmap_get_sub_nolock. ends. Qed.
#[local] Hint Resolve sfs_bmap_get_sub_nolock_ends : ends.

Lemma bmap_out_ends s sin i : bmap_out s sin i ≠ NoFuel.
Proof. unfold bmap_out. ends. Qed.
#[local] Hint Resolve bmap_out_ends : ends.

Lemma sfs_bmap_get_nolock_ends s sin i c : sfs_bmap_get_nolock s sin i c ≠ NoFuel.
Proof. unfold sfs_bmap_get_nolock. ends. Qed.
#[local] Hint Resolve sfs_bmap_get_nolock_ends : ends.

Lemma sfs_bmap_free_sub_nolock_ends s e i : sfs_bmap_free_sub_nolock s e i ≠ NoFuel.
Proof. unfold sfs_bmap_free_sub_nolock. ends. Qed.
#[local] Hint Resolve sfs_bmap_free_sub_nolock_ends : ends.

Lemma sfs_bmap_free_nolock_ends s sin i : sfs_bmap_free_nolock s sin i ≠ NoFuel.
Proof. unfold sfs_bmap_free_nolock. ends. Qed.
#[local] Hint Resolve sfs_bmap_free_nolock_ends : ends.

Lemma sfs_bmap_load_nolock_ends s sin i : sfs_bmap_load_nolock s sin i ≠ NoFuel.
Proof. unfold sfs_bmap_load_nolock. ends. Qed.
#[local] Hint Resolve sfs_bmap_load_nolock_ends : ends.

Lemma sfs_bmap_truncate_nolock_ends s sin : sfs_bmap_truncate_nolock s sin ≠ NoFuel.
Proof. unfold sfs_bmap_truncate_nolock. ends. Qed.
#[local] Hint Resolve sfs_bmap_truncate_nolock_ends : ends.

Lemma sfs_dirent_read_nolock_ends s sin i e : sfs_dirent_read_nolock s sin i e ≠ NoFuel.
Proof. unfold sfs_dirent_read_nolock. ends. Qed.
#[local] Hint Resolve sfs_dirent_read_nolock_ends : ends.

Lemma search_loop_ends n i s sin name e m : search_loop n i s sin name e m ≠ NoFuel.
Proof. revert i s sin e m. induction n; intros; cbn; ends. Qed.
#[local] Hint Resolve search_loop_ends : ends.

Lemma sfs_dirent_search_nolock_ends s sin name o : sfs_dirent_search_nolock s sin name o ≠ NoFuel.
Proof. unfold sfs_dirent_search_nolock. ends. Qed.
#[local] Hint Resolve sfs_dirent_search_nolock_ends : ends.

Lemma findino_loop_ends n i s sin k e : findino_loop n i s sin k e ≠ NoFuel.
Proof. revert i s sin e. induction n; intros; cbn; ends. Qed.
#[local] Hint Resolve findino_loop_ends : ends.

Lemma sfs_dirent_findino_nolock_ends s sin k e : sfs_dirent_findino_nolock s sin k e ≠ NoFuel.
Proof. unfold sfs_dirent_findino_nolock. ends. Qed.
#[local] Hint Resolve sfs_dirent_findino_nolock_ends : ends.

Lemma getdirentry_loop_ends n i s sin k e : getdirentry_loop n i s sin k e ≠ NoFuel.
Proof. revert i s sin k e. induction n; intros; cbn; ends. Qed.
#[local] Hint Resolve getdirentry_loop_ends : ends.

Lemma sfs_getdirentry_sub_nolock_ends s sin k e : sfs_getdirentry_sub_nolock s sin k e ≠ NoFuel.
Proof. unfold sfs_getdirentry_sub_nolock. ends. Qed.
#[local] Hint Resolve sfs_getdirentry_sub_nolock_ends : ends.

Lemma sfs_buf_op_ends w s buf p n b o : sfs_buf_op w s buf p n b o ≠ NoFuel.
Proof. unfold sfs_buf_op. ends. Qed.
#[local] Hint Resolve sfs_buf_op_ends : ends.

Lemma sfs_block_op_ends w s buf p b : sfs_block_op w s buf p b ≠ NoFuel.
Proof. unfold sfs_block_op. ends. Qed.
#[local] Hint Resolve sfs_block_op_ends : ends.

Lemma io_chunk_ends w h s sin buf a n b o : io_chunk w h s sin buf a n b o ≠ NoFuel.
Proof. unfold io_chunk. ends. Qed.
#[local] Hint Resolve io_chunk_ends : ends.

Lemma io_blocks_ends n w s sin buf a b l : io_blocks n w s sin buf a b l ≠ NoFuel.
Proof. revert s sin buf a b. induction n; intros; cbn; ends. Qed.
#[local] Hint Resolve io_blocks_ends : ends.

Lemma io_steps_ends w s sin buf o e : io_steps w s sin buf o e ≠ NoFuel.
Proof. unfold io_steps. ends. Qed.
#[local] Hint Resolve io_steps_ends : ends.

Lemma sfs_io_nolock_ends s sin buf o a w : sfs_io_nolock s sin buf o a w ≠ NoFuel.
Proof. unfold sfs_io_nolock. ends. Qed.
#[local] Hint Resolve sfs_io_nolock_ends : ends.

Lemma grow_loop_ends n s sin b : grow_loop n s sin b ≠ NoFuel.
Proof. revert s sin b. induction n; intros; cbn; ends. Qed.
#[local] Hint Resolve grow_loop_ends : ends.

Lemma shrink_loop_ends n s sin : shrink_loop n s sin ≠ NoFuel.
Proof. revert s sin. induction n; intros; cbn; ends. Qed.
#[local] Hint Resolve shrink_loop_ends : ends.

Lemma truncfile_ends s sin n : truncfile s sin n ≠ NoFuel.
Proof. unfold truncfile. ends. Qed.
#[local] Hint Resolve truncfile_ends : ends.

Lemma fsync_ends s sin : fsync s sin ≠ NoFuel.
Proof. unfold fsync. ends. Qed.
#[local] Hint Resolve fsync_ends : ends.
(** ** Inodes in memory *)

Notation W := (vstate (sfs_world D)).
Implicit Types (v : W) (p fs : ptr).

Lemma get_inode_ends v p : get_inode v p ≠ NoFuel.
Proof. apply deref_fuel. Qed.
#[local] Hint Resolve get_inode_ends : ends.

Lemma get_sin_ends v p : get_sin p v ≠ NoFuel.
Proof. unfold get_sin. ends. Qed.
Lemma get_sfs_ends v fs : get_sfs fs v ≠ NoFuel.
Proof. unfold get_sfs. ends. Qed.
Lemma vop_fs_ends v p : vop_fs p v ≠ NoFuel.
Proof. unfold vop_fs. ends. Qed.
Lemma find_ino_ends l ino v : find_ino l ino v ≠ NoFuel.
Proof. induction l; cbn; ends. Qed.
Lemma sfs_get_ops_ends t : sfs_get_ops t ≠ NoFuel.
Proof. unfold sfs_get_ops. ends. Qed.
#[local] Hint Resolve get_sin_ends get_sfs_ends vop_fs_ends find_ino_ends sfs_get_ops_ends : ends.

(** Steps over a call that only reads, or that changes the private data. *)
Ltac calls := apply yields_any; [solve [ends]|].

Lemma put_sfs_quiet fs x v : yields (quiet v) (put_sfs fs x v).
Proof. unfold put_sfs. by calls. Qed.

Lemma kmalloc_next_quiet v : quiet v (snd (kmalloc_next v)).
Proof. unfold kmalloc_next. by destruct (kmem (priv v)). Qed.

Lemma on_sin_quiet {A} p (f : sfs_fs D → sfs_inode → res (A * sfs_fs D * sfs_inode)) v :
  (∀ x sin, f x sin ≠ NoFuel) → yields (λ r, quiet v r.2) (on_sin p f v).
Proof.
  intros Hf. unfold on_sin. calls. intros fs. calls. intros x. calls. intros sin. calls. intros [[a x'] sin'].
  eapply yields_bind; [apply put_sfs_quiet|]. intros v' Q. exact Q.
Qed.

Lemma fresh_inode v : inodes v !! fresh (elements (dom (inodes v))) = None.
Proof.
  apply not_elem_of_dom. rewrite <- elem_of_elements. apply infinite_is_fresh.
Qed.

Lemma sfs_create_inode_spec fs d ino v :
  yields (λ '(ret, n, v'), moved (if decide (ret = 0) then one n else nil) nil v v') (sfs_create_inode fs d ino v).
Proof.
  unfold sfs_create_inode. pose proof (kmalloc_next_quiet v) as Q. destruct (kmalloc_next v) as [ok v1]. cbn in Q.
  destruct ok; cbn [negb]; [|cbn [yields]; rewrite decide_False by done; by apply quiet_moved]. pose proof (fresh_inode v1) as Hp.
  set (p := fresh _) in *. clearbody p. cbn [__alloc_inode]. calls. intros ops. unfold inode_init, inode_ref_inc, get_inode, put_inode.
  cbn [inodes set_inodes]. rewrite lookup_insert_eq. cbn [deref bind inodes set_inodes]. rewrite lookup_insert_eq. cbn [deref bind].
  destruct Q as (Qi & Qf & Qp). cbn. split; [by split|]. intros q. unfold rc, oc, nil. cbn [inodes put_sin on_priv set_priv set_inodes].
  rewrite !insert_insert_eq, <- Qi, decide_True by done. unfold one.
  destruct (decide (q = p)) as [->|Hne].
  - rewrite lookup_insert_eq, Hp, bool_decide_eq_true_2 by done. split; by apply eq32_eq.
  - rewrite lookup_insert_ne, bool_decide_eq_false_2 by congruence. cbn. split; apply eq32_eq; lia.
Qed.

Lemma lookup_sfs_nolock_spec fs ino v : yields (λ '(o, v'), moved (one o) nil v v') (lookup_sfs_nolock fs ino v).
Proof.
  unfold lookup_sfs_nolock. calls. intros x. calls. intros [p|]; [|apply moved_refl].
  eapply yields_bind; [apply inode_ref_inc_spec|]. intros [r v1] M. calls. intros sin. cbn in *.
  destruct (r =? 1); [|done]. exact M.
Qed.

Lemma sfs_load_inode_spec fs ino v :
  yields (λ '(ret, n, v'), moved (if decide (ret = 0) then one n else nil) nil v v') (sfs_load_inode fs ino v).
Proof.
  unfold sfs_load_inode. eapply yields_bind; [apply lookup_sfs_nolock_spec|]. intros [[p|] v1] M1; [done|].
  assert (∀ v', quiet v1 v' → moved nil nil v v') as Hq.
  { intros v' Q. eapply moved_trans; [exact M1|by apply quiet_moved|]. intros q. unfold nil. rewrite !one_none. lia. }
  pose proof (kmalloc_next_quiet v1) as Q. destruct (kmalloc_next v1) as [ok v2]. cbn in Q.
  destruct ok; cbn [negb]; [|cbn [yields]; rewrite decide_False by done; by apply Hq]. calls. intros x. calls. intros [|]; [|done].
  calls. intros [[ret b] x']. eapply yields_bind; [apply put_sfs_quiet|]. intros v3 Q3.
  destruct (decide (ret ≠ 0)); [cbn; rewrite decide_False by done; apply Hq; by eapply quiet_trans|].
  destruct (negb _); [|done]. eapply yields_bind; [apply sfs_create_inode_spec|]. intros [[ret2 o] v4] M4.
  assert (moved (if decide (ret2 = 0) then one o else nil) nil v v4) as M.
  { eapply moved_trans; [apply Hq; by eapply quiet_trans|exact M4|]. intros q. by unfold nil. }
  destruct (decide (ret2 ≠ 0)); [cbn; by rewrite decide_False in * by done|].
  rewrite decide_True in M by (by apply dec_stable). eapply yields_bind; [apply (yields_deref (λ p, o = Some p)); auto|].
  intros p ->. calls. intros x2. eapply yields_bind; [apply put_sfs_quiet|]. intros v5 Q5. cbn. rewrite decide_True by done.
  eapply moved_trans; [exact M|by apply quiet_moved|]. intros q. unfold nil. lia.
Qed.

Lemma sfs_lookup_once_spec p name v :
  yields (λ '(ret, n, v'), moved (if decide (ret = 0) then one n else nil) nil v v') (sfs_lookup_once p name v).
Proof.
  unfold sfs_lookup_once. destruct (_ <=? _); [|done].
  pose proof (kmalloc_next_quiet v) as Q. destruct (kmalloc_next v) as [ok v1]. cbn in Q.
  eapply yields_bind; [apply (on_sin_quiet p _ v1); intros; ends|]. intros [[ret r] v2] Q2. cbn in Q2.
  pose proof (quiet_trans _ _ _ Q Q2) as Q12. destruct (decide (ret ≠ 0)).
  { cbn. rewrite decide_False by done. by apply quiet_moved. }
  calls. intros [k ino]. calls. intros fs. eapply yields_weaken; [apply sfs_load_inode_spec|]. intros [[ret2 o] v3] M.
  eapply moved_trans; [by apply quiet_moved|exact M|]. intros q. by unfold nil.
Qed.

(** ** The operations that change no inode *)

Lemma iobuf_skip_ends iob n : iobuf_skip iob n ≠ NoFuel.
Proof. unfold iobuf_skip. ends. Qed.
#[local] Hint Resolve iobuf_skip_ends : ends.

Lemma sfs_io_quiet w p iob v : yields (λ r, quiet v r.2) (sfs_io w p iob v).
Proof.
  unfold sfs_io. calls. intros buf. eapply yields_bind; [apply on_sin_quiet; intros; ends|]. intros [[[ret n] b] v1] Q.
  calls. intros m. calls. intros iob'. exact Q.
Qed.

Lemma iobuf_put_quiet iob data v : yields (λ r, quiet v r.2) (iobuf_put iob data v).
Proof.
  unfold iobuf_put. apply (yields_bind (λ '(_, v'), quiet v v')); [|by intros [iob' v'] Q].
  destruct (0 <? _); [|done]. calls. intros m. by calls.
Qed.

Lemma sfs_getdirentry_quiet p iob v : yields (λ r, quiet v r.2) (sfs_getdirentry p iob v).
Proof.
  unfold sfs_getdirentry. pose proof (kmalloc_next_quiet v) as Q. destruct (kmalloc_next v) as [ok v1]. cbn in Q.
  destruct ok; cbn [negb]; [|done]. calls. intros fs. calls. intros sin. cbv zeta. destruct (_ || _); [done|]. destruct (_ <? _); [done|].
  eapply yields_bind; [apply on_sin_quiet; intros; ends|]. intros [[ret e] v2] Q2. cbn in Q2.
  assert (quiet v v2) by (by eapply quiet_trans). destruct (decide (ret ≠ 0)); [done|].
  eapply yields_weaken; [apply iobuf_put_quiet|]. intros r Q3. by eapply quiet_trans.
Qed.

Lemma sfs_fsync_quiet p v : yields (λ r, quiet v r.2) (sfs_fsync p v).
Proof. apply on_sin_quiet. intros. ends. Qed.

Lemma sfs_truncfile_quiet p len v : yields (λ r, quiet v r.2) (sfs_truncfile p len v).
Proof. apply on_sin_quiet. intros. ends. Qed.

Lemma sfs_gettype_quiet p v : yields (λ r, quiet v r.2) (sfs_gettype p v).
Proof. unfold sfs_gettype. calls. intros sin. cbv zeta. repeat (destruct (_ =? _); [done|]). done. Qed.

(** A call through the table reaches one of its two rows. *)
Lemma vop_found {T} t (sel : inode_ops W → option T) p v :
  yields (λ '(q, f), q = p ∧ (sel (sfs_node_dirops_of t) = Some f ∨ sel (sfs_node_fileops_of t) = Some f)) (vop t sel p v).
Proof.
  unfold vop. eapply yields_weaken; [apply (vop_op_found (H := table_impl t))|].
  intros [q f] ([= ->] & a & o & Ho & Hf). split; [done|]. cbn in Ho. unfold sfs_ops_at in Ho.
  destruct (a =? SFS_DIROPS); [injection Ho as <-; by left|]. destruct (a =? SFS_FILEOPS); [injection Ho as <-; by right|done].
Qed.

(** The calls that [base_table] serves. *)
Lemma vop_fsync_quiet p v : yields (λ r, quiet v r.2) (let! (q, f) := vop base_table vop_fsync p v in f q v).
Proof.
  eapply yields_bind; [apply vop_found|]. intros [q f] (-> & [[= <-]|[= <-]]); apply sfs_fsync_quiet.
Qed.

Lemma vop_truncate_quiet p len v : yields (λ r, quiet v r.2) (let! (q, f) := vop base_table vop_truncate p v in f q len v).
Proof.
  eapply yields_bind; [apply vop_found|]. intros [q f] (-> & [Hf|[= <-]]); [discriminate Hf|apply sfs_truncfile_quiet].
Qed.

Lemma sfs_fstat_quiet p v : yields (λ r, quiet v r.2) (sfs_fstat p v).
Proof.
  unfold sfs_fstat. eapply yields_bind; [apply vop_found|]. intros [q f] (-> & Hf).
  assert (f = sfs_gettype) as -> by (by destruct Hf as [[= <-]|[= <-]]).
  eapply yields_bind; [apply sfs_gettype_quiet|]. intros [[ret mode] v1] Q.
  destruct (decide (ret ≠ 0)); [done|]. by calls.
Qed.

Lemma sfs_tryseek_quiet p i v : yields (λ r, quiet v r.2) (sfs_tryseek p i v).
Proof.
  unfold sfs_tryseek. destruct (_ || _); [done|]. calls. intros sin. destruct (_ <? _); [apply vop_truncate_quiet|done].
Qed.

(** ** Giving up an inode *)

Lemma free_inode_blocks_ends sin (x : sfs_fs D) : free_inode_blocks sin x ≠ NoFuel.
Proof. unfold free_inode_blocks. ends. Qed.
#[local] Hint Resolve free_inode_blocks_ends : ends.

(** An inode that is removed has no references and is not open. *)
Lemma inode_kill_spec p v : yields (moved nil nil v) (inode_kill p v).
Proof.
  unfold inode_kill. eapply yields_bind; [apply get_inode_spec|]. intros n Hn.
  destruct (Z.eqb_spec (ref_count n) 0) as [Hr|]; [|done]. destruct (Z.eqb_spec (open_count n) 0) as [Ho|]; [|done].
  cbn. split; [done|]. intros q. unfold rc, oc, nil. cbn. destruct (decide (q = p)) as [->|Hne].
  - rewrite lookup_delete_eq, Hn. cbn. rewrite Hr, Ho. split; by apply eq32_eq.
  - rewrite lookup_delete_ne by done. split; apply eq32_eq; lia.
Qed.

Lemma sfs_reclaim_moved p v : yields (λ r, moved nil nil v r.2) (sfs_reclaim p v).
Proof.
  unfold sfs_reclaim. calls. intros fs. calls. intros sin. destruct (0 <? _); [|done]. cbv zeta.
  set (v1 := put_sin p _ v). assert (quiet v v1) as Q1 by done. clearbody v1. calls. intros n.
  destruct (_ || _); [by apply quiet_moved|].
  apply (yields_bind (λ r, quiet v r.2)).
  { destruct (_ =? 0); [|done]. eapply yields_weaken; [apply vop_truncate_quiet|]. intros r Q. by eapply quiet_trans. }
  intros [ret v2] Q2. destruct (decide (ret ≠ 0)); [by apply quiet_moved|]. calls. intros sin2.
  apply (yields_bind (λ r, quiet v r.2)).
  { destruct (si_dirty sin2); [|done]. eapply yields_weaken; [apply vop_fsync_quiet|]. intros r Q. by eapply quiet_trans. }
  intros [ret2 v3] Q3. destruct (decide (ret2 ≠ 0)); [by apply quiet_moved|]. calls. intros x. calls. intros sin3. calls. intros x2.
  eapply yields_bind; [apply put_sfs_quiet|]. intros v4 Q4. eapply yields_bind; [apply inode_kill_spec|]. intros v5 M5. cbn.
  assert (quiet v v4) as Q by (by eapply quiet_trans).
  eapply moved_trans; [by apply quiet_moved|exact M5|]. intros q. unfold nil. lia.
Qed.

(** ** The tables *)

(** What [ref_table] and [full_table] share. *)
Lemma table_laws cl t :
  t_close t = Some sfs_close → t_fstat t = Some sfs_fstat → t_reclaim t = Some sfs_reclaim → t_tryseek t = Some sfs_tryseek →
  (∀ f p iob v, t_namefile t = Some f → is_u32 (io_resid iob) → yields (λ r, moved nil nil v r.2) (f p iob v)) →
  t_lookup t = cl → (∀ f p path v, cl = Some f →
    yields (λ '(ret, n, v'), moved (if decide (ret = 0) then one n else nil) nil v v') (f p path v)) →
  ∀ a o, sfs_ops_at t a = Some o → ops_laws o.
Proof.
  intros Ecl Efs Ere Ets Hna Elo Hlo a o Ho. unfold sfs_ops_at in Ho.
  assert (∀ f p v, Some sfs_close = Some f → yields (λ r, moved nil nil v r.2) (f p v)) as Hclose.
  { intros f p v [= <-]. apply quiet_law, vop_fsync_quiet. }
  assert (∀ f p v, Some sfs_fstat = Some f → yields (λ r, moved nil nil v r.2) (f p v)) as Hfstat.
  { intros f p v [= <-]. apply quiet_law, sfs_fstat_quiet. }
  assert (∀ f p v, Some sfs_reclaim = Some f → yields (λ r, moved nil nil v r.2) (f p v)) as Hreclaim.
  { intros f p v [= <-]. apply sfs_reclaim_moved. }
  destruct (a =? SFS_DIROPS); [|destruct (a =? SFS_FILEOPS); [|done]]; injection Ho as <-.
  - split; cbn; rewrite ?Ecl, ?Efs, ?Ere, ?Elo; try done; try apply Hna; intros f p; intros *; intros [= <-].
    + by apply quiet_law.
    + by apply quiet_law, sfs_fsync_quiet.
    + intros _. by apply quiet_law, sfs_getdirentry_quiet.
    + by apply quiet_law, sfs_gettype_quiet.
  - split; cbn; rewrite ?Ecl, ?Efs, ?Ere, ?Ets; try done; intros f p; intros *; intros [= <-].
    + by apply quiet_law.
    + intros _. by apply quiet_law, sfs_io_quiet.
    + intros _. by apply quiet_law, sfs_io_quiet.
    + by apply quiet_law, sfs_fsync_quiet.
    + by apply quiet_law, sfs_gettype_quiet.
    + by apply quiet_law, sfs_tryseek_quiet.
    + by apply quiet_law, sfs_truncfile_quiet.
Qed.

Lemma ref_laws : @vfs_laws _ (table_impl ref_table).
Proof. split; [|done]. apply (table_laws None); done. Qed.

Lemma ref_dec_spec p v : yields (moved (λ q, - one (Some p) q) nil v) (ref_dec p v).
Proof.
  unfold ref_dec. eapply yields_bind; [apply (inode_ref_dec_spec (H0 := ref_laws))|]. by intros [r v1] M.
Qed.

Lemma sfs_lookup_spec p path v :
  yields (λ '(ret, n, v'), moved (if decide (ret = 0) then one n else nil) nil v v') (sfs_lookup p path v).
Proof.
  unfold sfs_lookup. calls. intros fs. destruct (_ && _); [|done].
  eapply yields_bind; [apply inode_ref_inc_spec|]. intros [r v1] M1. cbn in M1. calls. intros sin.
  destruct (negb _).
  { eapply yields_bind; [apply ref_dec_spec|]. intros v2 M2. cbn [yields]. rewrite decide_False by done.
    eapply moved_trans; [exact M1|exact M2|]. intros q. unfold nil. lia. }
  eapply yields_bind; [apply sfs_lookup_once_spec|]. intros [[ret sub] v2] M2.
  eapply yields_bind; [apply ref_dec_spec|]. intros v3 M3.
  assert (moved (if decide (ret = 0) then one sub else nil) nil v v3) as M.
  { eapply moved_trans; [exact M1|eapply moved_trans; [exact M2|exact M3|by intros]|]. intros q. unfold nil. lia. }
  destruct (decide (ret = 0)) as [->|Hne]; [done|].
  rewrite (decide_True (P := ret ≠ 0)) by done. cbn [yields]. by rewrite decide_False by done.
Qed.

(** Each round of [sfs_namefile] but the last takes at least one byte of the room, and gives
    up the reference of the node for one to its parent. *)
Lemma namefile_loop_spec n p resid pt v :
  0 ≤ resid < Z.of_nat n → yields (λ r, moved (λ q, - one (Some p) q) nil v r.2) (namefile_loop n p resid pt v).
Proof.
  revert p resid pt v. induction n as [|n IH]; intros p resid pt v Hn; [lia|]. cbn [namefile_loop]. calls. intros sin.
  eapply yields_bind; [apply sfs_lookup_once_spec|]. intros [[ret par] v1] M1.
  destruct (decide (ret = 0)) as [->|Hret].
  2:{ rewrite (decide_True (P := ret ≠ 0)) by done. eapply yields_bind; [apply ref_dec_spec|]. intros v2 M2. cbn.
      eapply moved_trans; [exact M1|exact M2|]. intros q. unfold nil. lia. }
  rewrite (decide_False (P := 0 ≠ 0)) by auto. eapply yields_bind; [apply ref_dec_spec|]. intros v2 M2.
  eapply yields_bind; [apply (yields_deref (λ q, par = Some q)); auto|]. intros x ->.
  assert (moved (λ q, one (Some x) q - one (Some p) q) nil v v2) as M.
  { eapply moved_trans; [exact M1|exact M2|]. intros q. unfold nil. lia. }
  destruct (decide (p = x)) as [<-|Hpx].
  { eapply yields_bind; [apply ref_dec_spec|]. intros v3 M3. cbn. eapply moved_trans; [exact M|exact M3|]. intros q. unfold nil. lia. }
  calls. intros sin2. destruct (_ && _); [|done].
  eapply yields_bind; [apply (on_sin_quiet (A := Z * sfs_disk_entry) x); intros; ends|]. intros [[ret2 e] v3] Q3.
  assert (moved (λ q, one (Some x) q - one (Some p) q) nil v v3) as M'.
  { eapply moved_trans; [exact M|apply quiet_moved, Q3|]. intros q. unfold nil. lia. }
  assert (∀ r k : Z, yields (λ r, moved (λ q, - one (Some p) q) nil v r.2) (let! y := ref_dec x v3 in Ok (r, resid, k, y))) as Hgive.
  { intros r k. eapply yields_bind; [apply ref_dec_spec|]. intros v4 M4. cbn. eapply moved_trans; [exact M'|exact M4|]. intros q. unfold nil. lia. }
  destruct (decide (ret2 ≠ 0)); [apply Hgive|]. cbv zeta. destruct (Z.ltb_spec resid (Z.of_nat (length (entry_name e)) + 1)); [apply Hgive|].
  calls. intros m. eapply yields_weaken; [apply IH; lia|]. intros r M4.
  eapply moved_trans; [exact M'|exact M4|]. intros q. unfold nil. lia.
Qed.

Lemma sfs_namefile_spec p iob v : is_u32 (io_resid iob) → yields (λ r, moved nil nil v r.2) (sfs_namefile p iob v).
Proof.
  intros Hu. unfold sfs_namefile. destruct (Z.leb_spec (io_resid iob) 2); [apply moved_refl|].
  pose proof (kmalloc_next_quiet v) as Q. destruct (kmalloc_next v) as [ok v1]. cbn in Q.
  destruct ok; cbn [negb]; [|by apply quiet_moved]. calls. intros fs.
  eapply yields_bind; [apply inode_ref_inc_spec|]. intros [r v2] M2. cbn in M2.
  eapply yields_bind; [apply namefile_loop_spec; lia|]. intros [[[ret resid] pt] v3] M3. cbn in M3.
  assert (moved nil nil v v3) as M.
  { eapply moved_trans; [by apply quiet_moved|eapply moved_trans; [exact M2|exact M3|by intros]|]. intros q. unfold nil. lia. }
  destruct (decide (ret ≠ 0)); [exact M|]. cbv zeta. apply yields_any; [apply memmove_fuel|]. intros [pt2 m].
  calls. intros m2. calls. intros m3. calls. intros iob'. exact M.
Qed.

(** C7: sfs keeps the contract of the VFS: each of its operations on a file or directory
    comes to an end or panics, leaves the tables of open files alone and every reference
    and open count as it was, except that a lookup and [sfs_get_root] take one reference
    to the inode that they return, and only when they succeed; on every state, volume
    and device whose transfers come to an end. *)
Theorem sfs_keeps_laws :
  (∀ a o, ops_at (F := sfs_world D) a = Some o → ops_laws o) ∧
  (∀ fs v, yields (λ '(n, v'), moved (one n) nil v v') (fsop_get_root (F := sfs_world D) fs v)).
Proof.
  split.
  - apply (table_laws (Some sfs_lookup)); [done..| |done|].
    + intros f p iob v [= <-]. apply sfs_namefile_spec.
    + intros f p path v [= <-]. apply sfs_lookup_spec.
  - intros fs v. cbn. unfold sfs_get_root. eapply yields_bind; [apply sfs_load_inode_spec|]. intros [[ret n] v1] M.
    destruct (decide (ret ≠ 0)); [done|]. by rewrite decide_True in M by (by apply dec_stable).
Qed.

End sfs_ends.

#[export] Instance ram_ends : block_dev_ends ramdisk.
Proof. intros d off buf write. cbn. by destruct (_ || _), write. Qed.

Lemma sfs_keeps_laws_witness :
  (∀ a o, ops_at (F := sfs_world ramdisk) a = Some o → ops_laws o) ∧
  (∀ fs v, yields (λ '(n, v'), moved (one n) nil v v') (fsop_get_root (F := sfs_world ramdisk) fs v)).
Proof. exact (sfs_keeps_laws (D := ramdisk)). Defined.
