(* ===== verification/Disk0.v ===== *)
(** * disk0 as the device of a file system

    [disk0_io] of kern/fs/devs/dev_disk0.c with the transfers of kern/driver/ide.c, as an
    instance of the interface [block_dev] of [SfsDisk]: one block goes through the
    driver's transfer buffer between the memory of the caller and the sectors of the
    disk.  The laws [block_dev_laws] hold for a disk whose controller reports no error
    (with such an error the driver panics), so the theorems on kern/fs/sfs hold for a
    volume on disk0. *)

From S2P Require Import Prelude CString Iobuf Vfs File FileInv Dev DevInv SfsDisk SfsLaws.

Local Ltac Zify.zify_post_hook ::= Z.to_euclidean_division_equations.

(** The device and the state of its driver.  The caller's block is in memory behind the
    transfer buffer. *)
Record disk0 := mkDisk0 { d0_dev : device; d0_state : dstate }.

Definition buffer_of (s : dstate) : Z := disk0_buffer (priv s) + DISK0_BUFSIZE.

#[export] Instance disk0_block_dev : block_dev disk0 := {|
  dev_blocks := λ d, d_blocks (d0_dev d);
  dev_blocksize := λ d, d_blocksize (d0_dev d);
  dev_io d off buf write :=
    let s := d0_state d in
    let a := buffer_of s in
    let! m := store_bytes (bytes s) a buf in
    let! (ret, _, s) := disk0_io (d0_dev d) (iobuf_init a SFS_BLKSIZE off) write (set_bytes m s) in
    let! buf := load_bytes (length buf) (bytes s) a in
    Ok (ret, buf, mkDisk0 (d0_dev d) s) |}.

#[export] Instance disk0_ends : block_dev_ends disk0.
Proof.
  intros d off buf write. cbn. apply bind_not_nofuel; [apply store_bytes_fuel|]. intros m.
  apply bind_not_nofuel; [|intros [[ret iob] s]; apply bind_not_nofuel; [apply load_bytes_fuel|done]].
  eapply proj1, yields_ok, disk0_io_quiet. cbn. unfold is_u32, SFS_BLKSIZE. lia.
Qed.

(** ** The transfers *)

(** [n] bytes of the disk from [a] on. *)
Definition disk_bytes (x : dev_state) (a n : Z) : list Z := disk_byte x <$> seqZ a n.

Lemma length_disk_bytes x a n : length (disk_bytes x a n) = Z.to_nat n.
Proof. unfold disk_bytes. by rewrite length_fmap, length_seqZ. Qed.

Lemma insl_ok n a dst x m :
  mapped m dst (Z.of_nat n) → ∃ m', insl n a dst x m = Ok m' ∧ updated m m' dst (disk_bytes x a (Z.of_nat n)).
Proof.
  revert a dst m. induction n as [|n IH]; intros a dst m Hm; cbn [insl].
  { exists m. split; [done|apply updated_nil]. }
  rewrite st_ok by (apply Hm; lia). cbn [bind].
  destruct (IH (a + 1) (dst + 1) (<[dst := disk_byte x a]> m)) as (m' & -> & Hu).
  { apply mapped_insert. intros b Hb. apply Hm. lia. }
  exists m'. split; [done|]. unfold disk_bytes. rewrite seqZ_cons by lia. cbn [fmap list_fmap].
  apply updated_insert_head. by replace (Z.pred (Z.of_nat (S n))) with (Z.of_nat n) by lia.
Qed.

Lemma outsl_ok a src m d l :
  bytes_at m src l → ∃ d', outsl (length l) a src m d = Ok d' ∧
    ∀ x, d' !! x = if decide (a ≤ x < a + Z.of_nat (length l)) then l !! Z.to_nat (x - a) else d !! x.
Proof.
  revert a src d. induction l as [|c l IH]; intros a src d Hl; cbn [length outsl].
  { exists d. split; [done|]. intros x. by rewrite decide_False by lia. }
  destruct Hl as [Hc Hl]. rewrite (ld_ok _ _ _ Hc). cbn [bind].
  destruct (IH (a + 1) (src + 1) (<[a := c]> d) Hl) as (d' & -> & Hd'). exists d'. split; [done|]. intros x. rewrite Hd'.
  destruct (decide (x = a)) as [->|Hne].
  - rewrite decide_False by lia. rewrite decide_True by lia. rewrite lookup_insert_eq. by rewrite Z.sub_diag.
  - rewrite lookup_insert_ne by done. destruct (decide (a + 1 ≤ x < a + 1 + Z.of_nat (length l))).
    + rewrite decide_True by lia. by replace (Z.to_nat (x - a)) with (S (Z.to_nat (x - (a + 1)))) by lia.
    + by rewrite decide_False by lia.
Qed.

(** One block between the transfer buffer [data] and the caller, in either direction. *)
Lemma iobuf_move_block m base off data len (m2b : bool) l :
  4096 ≤ len < 2 ^ 32 → length l = 4096%nat → bytes_at m (if m2b then data else base) l → mapped m (if m2b then base else data) 4096 →
  ∃ m', iobuf_move m (mkIobuf base off 4096 4096) data len m2b =
          Ok (if len =? 4096 then 0 else - E_NO_MEM, 4096, mkIobuf (base + 4096) (i32 (off + 4096)) 4096 0, m') ∧
    updated m m' (if m2b then base else data) l.
Proof.
  intros Hlen Hl Hsrc Hdst. unfold iobuf_move. cbn [io_resid].
  assert ((if len <? 4096 then len else 4096) = 4096) as -> by (destruct (Z.ltb_spec len 4096); lia).
  destruct (memmove_ok m (if m2b then base else data) (if m2b then data else base) l) as (m' & Hm & Hu); [done|by rewrite Hl|].
  rewrite Hl in Hm. exists m'. split; [|done]. change (Z.of_nat 4096) with 4096 in Hm. cbv zeta. cbn [io_base].
  change (0 <? 4096) with true. cbv iota.
  assert (u32 (len - 4096) =? 0 = (len =? 4096)) as E.
  { rewrite u32_small by lia. destruct (Z.eqb_spec (len - 4096) 0), (Z.eqb_spec len 4096); lia. }
  destruct m2b; rewrite Hm; cbn [bind]; unfold iobuf_skip; cbn [io_resid io_base io_offset io_len];
    rewrite Z.leb_refl; cbn [bind]; by rewrite E.
Qed.

(** ** One block of the disk *)

Definition block_of (x : dev_state) (b : Z) : list Z := disk_bytes x (b * 4096) 4096.

Record driver_ok (s : dstate) : Prop := {
  dr_ok : disk_ok (priv s) = true;
  dr_mem : mapped (bytes s) (disk0_buffer (priv s)) (DISK0_BUFSIZE + 4096)
}.

Lemma driver_buffer s : driver_ok s → mapped (bytes s) (disk0_buffer (priv s)) 4096 ∧ mapped (bytes s) (buffer_of s) 4096.
Proof.
  intros [_ Hm]. unfold buffer_of, DISK0_BUFSIZE, DISK0_BLKSIZE in *. split; intros a Ha; apply Hm; lia.
Qed.

(** The guards of [disk0_io] and of the first round of its loop. *)
Lemma disk0_io_block d b base (write : bool) s :
  0 ≤ b < d_blocks d → b < 2 ^ 19 →
  disk0_io d (iobuf_init base SFS_BLKSIZE (b * SFS_BLKSIZE)) write s =
    let! (iob, s) := disk0_loop 1 4096 b (mkIobuf base (b * 4096) 4096 4096) write s in Ok (0, iob, s).
Proof.
  intros Hb Hb2. unfold disk0_io, iobuf_init, SFS_BLKSIZE, DISK0_BLKSIZE. cbn [io_offset io_resid].
  rewrite Z.rem_mul, Z.quot_mul, (u32_small b) by lia. change (4096 mod 4096 =? 0) with true. change (4096 / 4096) with 1. cbn [Z.eqb negb orb].
  rewrite u32_small by lia. rewrite (proj2 (Z.ltb_ge _ _)) by lia. done.
Qed.

Lemma block_secs b : 0 ≤ b < 2 ^ 19 →
  u32 (b * DISK0_BLK_NSECT) = b * 8 ∧ u32 (1 * DISK0_BLK_NSECT) = 8 ∧ secs_ok (b * 8) 8 = true.
Proof.
  intros Hb. unfold DISK0_BLK_NSECT, DISK0_BLKSIZE, SECTSIZE. change (4096 / 512) with 8. rewrite !u32_small by lia.
  split_and!; [done|done|]. unfold secs_ok, MAX_NSECS, MAX_DISK_NSECS. rewrite u32_small by lia.
  rewrite !(proj2 (Z.leb_le _ _)), (proj2 (Z.ltb_lt _ _)) by lia. done.
Qed.

Lemma disk0_read_block b s :
  driver_ok s → 0 ≤ b < 2 ^ 19 →
  ∃ m', disk0_read_blks_nolock b 1 s = Ok (set_bytes m' s) ∧
    updated (bytes s) m' (disk0_buffer (priv s)) (block_of (priv s) b).
Proof.
  intros Hs Hb. destruct (block_secs b Hb) as (E1 & E2 & E3). unfold disk0_read_blks_nolock. rewrite E1, E2.
  unfold ide_read_secs. rewrite E3, (dr_ok _ Hs). cbn [negb andb]. change (8 * SECTSIZE) with 4096.
  destruct (insl_ok (Z.to_nat 4096) (b * 8 * SECTSIZE) (disk0_buffer (priv s)) (priv s) (bytes s)) as (m' & -> & Hu).
  { rewrite Z2Nat.id by lia. by apply driver_buffer. }
  exists m'. split; [done|]. rewrite Z2Nat.id in Hu by lia. unfold block_of. unfold SECTSIZE in Hu. by replace (b * 4096) with (b * 8 * 512) by lia.
Qed.

Lemma disk0_write_block b s l :
  driver_ok s → 0 ≤ b < 2 ^ 19 → length l = 4096%nat → bytes_at (bytes s) (disk0_buffer (priv s)) l →
  ∃ d', disk0_write_blks_nolock b 1 s = Ok (set_priv (set_disk d' (priv s)) s) ∧
    ∀ x, block_of (set_disk d' (priv s)) x = if decide (x = b) then l else block_of (priv s) x.
Proof.
  intros Hs Hb Hl Hbuf. destruct (block_secs b Hb) as (E1 & E2 & E3). unfold disk0_write_blks_nolock. rewrite E1, E2.
  unfold ide_write_secs. rewrite E3, (dr_ok _ Hs). cbn [negb andb]. change (8 * SECTSIZE) with 4096.
  destruct (outsl_ok (b * 8 * SECTSIZE) _ _ (disk (priv s)) l Hbuf) as (d' & Ed & Hd'). rewrite Hl in *.
  change (Z.to_nat 4096) with 4096%nat. rewrite Ed. cbn [bind]. exists d'. split; [done|]. intros x.
  unfold SECTSIZE in Hd'. assert (∀ j, 0 ≤ j < 4096 → disk_byte (set_disk d' (priv s)) (x * 4096 + j) =
    if decide (x = b) then default 0 (l !! Z.to_nat j) else disk_byte (priv s) (x * 4096 + j)) as Hj.
  { intros j Hj. unfold disk_byte. cbn [disk set_disk]. rewrite Hd'. destruct (decide (x = b)) as [->|Hne].
    - rewrite decide_True by lia. do 2 f_equal. lia.
    - by rewrite decide_False by lia. }
  apply list_eq. intros i. unfold block_of, disk_bytes. rewrite list_lookup_fmap. destruct (decide (i < 4096)%nat) as [Hi|Hi].
  - rewrite lookup_seqZ_lt by lia. cbn [fmap option_fmap option_map]. rewrite Hj by lia. destruct (decide (x = b)) as [->|Hne].
    + rewrite Nat2Z.id. destruct (lookup_lt_is_Some_2 l i) as [c ->]; [lia|done].
    + by rewrite list_lookup_fmap, lookup_seqZ_lt by lia.
  - rewrite lookup_seqZ_ge by lia. destruct (decide (x = b)) as [->|Hne].
    + symmetry. apply lookup_ge_None. lia.
    + by rewrite list_lookup_fmap, lookup_seqZ_ge by lia.
Qed.

(** ** The laws *)

Definition loop_ok (l : list Z) (s s' : dstate) : Prop := bytes_at (bytes s') (buffer_of s) l ∧ disk0_buffer (priv s') = disk0_buffer (priv s) ∧ driver_ok s'.

Lemma driver_set_bytes s m a l : driver_ok s → updated (bytes s) m a l → driver_ok (set_bytes m s).
Proof. intros [Hok Hm] Hu. split; [done|]. by eapply updated_mapped. Qed.

Lemma disk0_loop_read b s :
  driver_ok s → 0 ≤ b < 2 ^ 19 →
  ∃ iob s', disk0_loop 1 4096 b (mkIobuf (buffer_of s) (b * 4096) 4096 4096) false s = Ok (iob, s') ∧
    loop_ok (block_of (priv s) b) s s' ∧ priv s' = priv s.
Proof.
  intros Hs Hb. cbn [disk0_loop]. change (4096 =? 0) with false. change (4096 <? DISK0_BUFSIZE) with true. cbv iota zeta.
  change (4096 / DISK0_BLKSIZE) with 1. destruct (disk0_read_block b s Hs Hb) as (m & -> & Hu). cbn [bind].
  assert (driver_ok (set_bytes m s)) as Hs1 by (by eapply driver_set_bytes).
  assert (length (block_of (priv s) b) = 4096%nat) as Hl by apply length_disk_bytes.
  destruct (iobuf_move_block m (buffer_of s) (b * 4096) (disk0_buffer (priv s)) 4096 true (block_of (priv s) b)) as (m2 & E & Hu2).
  { lia. } { done. } { by eapply updated_bytes. } { by apply (driver_buffer _ Hs1). }
  cbn [bytes set_bytes priv]. rewrite E. cbn [bind]. change (4096 =? 4096) with true. cbn [andb].
  change (4096 mod DISK0_BLKSIZE =? 0) with true. cbv iota. cbn [bind]. change (u32 (4096 - 4096) =? 0) with true. cbv iota.
  eexists _, _. split; [done|]. split; [|done]. split_and!; [by eapply updated_bytes|done|].
  by eapply (driver_set_bytes (set_bytes m s)).
Qed.

Lemma disk0_loop_write b s l :
  driver_ok s → 0 ≤ b < 2 ^ 19 → length l = 4096%nat → bytes_at (bytes s) (buffer_of s) l →
  ∃ iob s', disk0_loop 1 4096 b (mkIobuf (buffer_of s) (b * 4096) 4096 4096) true s = Ok (iob, s') ∧
    loop_ok l s s' ∧ ∀ x, block_of (priv s') x = if decide (x = b) then l else block_of (priv s) x.
Proof.
  intros Hs Hb Hl Hbuf. cbn [disk0_loop]. change (4096 =? 0) with false. cbv iota zeta.
  destruct (iobuf_move_block (bytes s) (buffer_of s) (b * 4096) (disk0_buffer (priv s)) DISK0_BUFSIZE false l) as (m & -> & Hu).
  { unfold DISK0_BUFSIZE, DISK0_BLKSIZE. lia. } { done. } { done. } { by apply driver_buffer. }
  cbn [bind]. change (4096 =? 0) with false. change (4096 <=? 4096) with true. change (4096 mod DISK0_BLKSIZE =? 0) with true.
  cbn [negb andb]. change (4096 / DISK0_BLKSIZE) with 1. assert (driver_ok (set_bytes m s)) as Hs1 by (by eapply driver_set_bytes).
  destruct (disk0_write_block b (set_bytes m s) l) as (d' & -> & Hd'); [done|done|done|by eapply updated_bytes|].
  cbn [bind]. change (u32 (4096 - 4096) =? 0) with true. cbv iota.
  eexists _, _. split; [done|]. split; [|done]. split_and!; [|done|].
  - cbn [bytes set_bytes set_priv]. eapply bytes_at_frame; [|exact Hbuf]. intros a Ha. apply (updated_frame _ _ _ _ _ Hu).
    rewrite Hl in *. unfold buffer_of, DISK0_BUFSIZE, DISK0_BLKSIZE in Ha. lia.
  - split; [apply Hs|apply Hs1].
Qed.

#[export] Program Instance disk0_laws : block_dev_laws disk0 := {|
  dev_ok d := d_blocksize (d0_dev d) = SFS_BLKSIZE ∧ driver_ok (d0_state d);
  dev_sound _ := True;
  blk d b := block_of (priv (d0_state d)) b |}.
Next Obligation. intros d b _. apply length_disk_bytes. Qed.
Next Obligation. intros d [H _]. exact H. Qed.
Next Obligation.
  intros [d s] b buf [Hbs Hs] Hb Hb2 Hl. cbn [d0_dev d0_state dev_blocks disk0_block_dev dev_io] in *.
  destruct (store_bytes_ok (bytes s) (buffer_of s) buf) as (m & -> & Hu); [rewrite Hl; by apply driver_buffer|]. cbn [bind].
  rewrite disk0_io_block by done. assert (driver_ok (set_bytes m s)) as Hs1 by (by eapply driver_set_bytes).
  destruct (disk0_loop_read b (set_bytes m s) Hs1) as (iob & s' & E & (Hbuf & Hb0 & Hs') & Hp); [lia|].
  change (buffer_of (set_bytes m s)) with (buffer_of s) in *. rewrite E. cbn [bind].
  assert (length (block_of (priv s) b) = 4096%nat) as Hlb by apply length_disk_bytes.
  cbn [priv set_bytes] in *. rewrite Hl, <- Hlb, (load_bytes_ok _ _ _ Hbuf). cbn [bind].
  eexists _, _, _. split; [done|]. cbn [d0_dev d0_state]. rewrite Hp. by split_and!.
Qed.
Next Obligation.
  intros [d s] b buf [Hbs Hs] Hb Hb2 Hl. cbn [d0_dev d0_state dev_blocks disk0_block_dev dev_io] in *.
  destruct (store_bytes_ok (bytes s) (buffer_of s) buf) as (m & -> & Hu); [rewrite Hl; by apply driver_buffer|]. cbn [bind].
  rewrite disk0_io_block by done. assert (driver_ok (set_bytes m s)) as Hs1 by (by eapply driver_set_bytes).
  destruct (disk0_loop_write b (set_bytes m s) buf Hs1) as (iob & s' & E & (Hbuf & Hb0 & Hs') & Hp); [lia|done|by eapply updated_bytes|].
  change (buffer_of (set_bytes m s)) with (buffer_of s) in *. rewrite E. cbn [bind].
  rewrite (load_bytes_ok _ _ _ Hbuf). cbn [bind].
  eexists _, _. split; [done|]. cbn [d0_dev d0_state priv set_bytes] in *. split_and!; [done|done|done| |done].
  intros x. rewrite Hp. destruct (decide (x = b)); [by rewrite decide_True|rewrite decide_False; [done|naive_solver]].
Qed.

(** C13: What [disk0_io] writes to a block of the disk it reads back, and all other blocks
    are unchanged: on a working controller and for every block of the device below 2 GB,
    a transfer through the driver's buffer returns 0 and leaves the driver ready for the
    next one. *)
Theorem disk0_write_read d b buf old :
  dev_ok d → 0 ≤ b < d_blocks (d0_dev d) → b < 2 ^ 19 → length buf = 4096%nat → length old = 4096%nat →
  ∃ d1 d2, dev_io d (b * SFS_BLKSIZE) buf true = Ok (0, buf, d1) ∧ dev_ok d1 ∧
    (∀ x, blk d1 x = if decide (x = b) then buf else blk d x) ∧
    dev_io d1 (b * SFS_BLKSIZE) old false = Ok (0, buf, d2) ∧ dev_ok d2 ∧ ∀ x, blk d2 x = blk d1 x.
Proof.
  intros Hd Hb Hb2 Hl Ho. destruct (dev_write_law d b buf) as (ret & d1 & E1 & Hd1 & Hn1 & Hx1 & Hs1); [done..|].
  destruct (Hs1 I) as [-> _]. destruct (dev_read_law d1 b old) as (ret & buf' & d2 & E2 & Hd2 & Hn2 & _ & Hx2 & Hr & Hs2);
    [done|by rewrite Hn1|done|done|]. destruct (Hs2 I) as [-> _]. rewrite Hr in E2 by done. rewrite Hx1, decide_True in E2 by done.
  exists d1, d2. split_and!; try done. intros x. rewrite Hx1. destruct (decide (x = b)); [by rewrite decide_True|rewrite decide_False; [done|naive_solver]].
Qed.

(** A disk of 16 blocks, with the buffer at 4096. *)
Definition demo_disk0 : disk0 :=
  mkDisk0 (mkDevice 16 4096 Ddisk0)
    (mkV ∅ [] None ∅ 0 (list_to_map ((λ a, (a, 0)) <$> seqZ 4096 (DISK0_BUFSIZE + 4096)))
       (mkDev ∅ [] 0 0 [] [] ∅ (Some 128) true 4096)).

Lemma zeros_mapped a n : mapped (list_to_map ((λ a, (a, 0)) <$> seqZ a n)) a n.
Proof.
  intros x Hx. exists 0. apply elem_of_list_to_map_1.
  - rewrite <- list_fmap_compose. rewrite list_fmap_id. apply NoDup_seqZ.
  - apply list_elem_of_fmap. exists x. split; [done|]. apply elem_of_seqZ. lia.
Qed.

Lemma disk0_write_read_witness :
  ∃ d1 d2, dev_io demo_disk0 (3 * SFS_BLKSIZE) (replicate 4096 7) true = Ok (0, replicate 4096 7, d1) ∧ dev_ok d1 ∧
    (∀ x, blk d1 x = if decide (x = 3) then replicate 4096 7 else blk demo_disk0 x) ∧
    dev_io d1 (3 * SFS_BLKSIZE) zero_block false = Ok (0, replicate 4096 7, d2) ∧ dev_ok d2 ∧ ∀ x, blk d2 x = blk d1 x.
Proof.
  apply (disk0_write_read demo_disk0 3 (replicate 4096 7) zero_block); [|done|done|apply length_replicate|apply length_replicate].
  split; [done|]. split; [done|apply zeros_mapped].
Defined.
