(* ===== verification/Mksfs.v ===== *)
(** * tools/mksfs.c: the program that writes the image of a file system

    mksfs copies a directory of the host into an image that the kernel mounts.  It runs on
    the host: the directory is a value of [dirents], the image a function from block
    numbers to blocks, and a failed [assert] or a call of [bug], which end the program,
    are [Panicked].  [malloc] always succeeds and returns a fresh address.  What the kernel
    finds on the image is shown in [MksfsInv] (the caches), [MksfsTree] (directories),
    [MksfsMount] (what is flushed, and the volume) and [MksfsImage] (the whole run). *)

From S2P Require Import Prelude Hash SfsDisk.

(** ** The directory of the host *)

(** What [lstat] and [readdir] say, in the order of [readdir]; [real] is [st_ino].  The
    entries [.] and [..] may be left out, as the program skips them. *)
Inductive node :=
  | Reg (real : Z) (content : list Z)
  | Lnk (real : Z) (target : list Z)
  | Dir (real : Z) (entries : dirents)
  | Other (real : Z)
with dirents :=
  | Dnil
  | Dcons (name : list Z) (n : node) (rest : dirents).

(** ** Data *)

Definition HASH_SHIFT : Z := 10.
Definition HASH_LIST_SIZE : Z := Z.shiftl 1 HASH_SHIFT.
Definition hash64 (val : Z) : Z := hash32 (u32 val) HASH_SHIFT.

Definition SFS_MAX_NBLKS : Z := 1024 * 512.
Definition SFS_L0_NBLKS : Z := SFS_NDIRECT.
Definition SFS_L1_NBLKS : Z := SFS_BLK_NENTRY + SFS_L0_NBLKS.
Definition SFS_L2_NBLKS : Z := SFS_BLK_NENTRY * SFS_BLK_NENTRY + SFS_L1_NBLKS.
Definition SFS_LN_NBLKS : Z := SFS_MAX_FILE_SIZE / SFS_BLKSIZE.

(** A block of block numbers, as its words. *)
Record cache_block := mkCb { cb_ino : Z; cache : list Z }.

(** [struct inode] is that of the kernel with a further word, [db_indirect]. *)
Record cache_inode := mkCi {
  inode : sfs_disk_inode;
  db_indirect : Z;
  real : Z;
  ci_ino : Z;
  nblks : Z;
  l1 : option ptr;
  l2 : option ptr
}.

Definition set_inode v c := mkCi v (db_indirect c) (real c) (ci_ino c) (nblks c) (l1 c) (l2 c).
Definition set_nblks v c := mkCi (inode c) (db_indirect c) (real c) (ci_ino c) v (l1 c) (l2 c).
Definition set_l1 v c := mkCi (inode c) (db_indirect c) (real c) (ci_ino c) (nblks c) v (l2 c).
Definition set_l2 v b c := mkCi (inode c) b (real c) (ci_ino c) (nblks c) (l1 c) v.
Definition set_nlinks v d := mkDinode (di_size d) (di_type d) v (di_blocks d) (di_direct d) (di_indirect d).

(** [struct sfs_fs], the image, the two kinds of blocks of memory and the static entry of
    [add_entry]. *)
Record mk_fs := mkMk {
  img : Z → list Z;
  sup : sfs_super;
  ninos : Z;
  next_ino : Z;
  inodes : gmap ptr cache_inode;
  inode_hash : gmap Z (list ptr);
  blocks : gmap ptr cache_block;
  block_hash : gmap Z (list ptr);
  entry_name_buf : list Z
}.

Definition set_img v s := mkMk v (sup s) (ninos s) (next_ino s) (inodes s) (inode_hash s) (blocks s) (block_hash s) (entry_name_buf s).
Definition set_inodes v s := mkMk (img s) (sup s) (ninos s) (next_ino s) v (inode_hash s) (blocks s) (block_hash s) (entry_name_buf s).
Definition set_cblocks v s := mkMk (img s) (sup s) (ninos s) (next_ino s) (inodes s) (inode_hash s) v (block_hash s) (entry_name_buf s).
Definition set_name_buf v s := mkMk (img s) (sup s) (ninos s) (next_ino s) (inodes s) (inode_hash s) (blocks s) (block_hash s) v.

Definition get_ci (p : ptr) s : res cache_inode := deref (inodes s !! p).
Definition put_ci (p : ptr) (c : cache_inode) s : mk_fs := set_inodes (<[p := c]> (inodes s)) s.

(** ** Allocation and the caches *)

Definition sfs_alloc_ino s : res (Z * mk_fs) :=
  if next_ino s <? ninos s then
    let sb := sup s in
    Ok (next_ino s, mkMk (img s) (mkSuper (sb_magic sb) (sb_blocks sb) (u32 (sb_unused_blocks sb - 1)) (sb_info sb)) (ninos s) (next_ino s + 1)
                      (inodes s) (inode_hash s) (blocks s) (block_hash s) (entry_name_buf s))
  else Panicked.

(** The list is that of the hash of the argument, also where that is 0. *)
Definition alloc_cache_block (ino : Z) s : res (ptr * mk_fs) :=
  let! (i, s) := if negb (ino =? 0) then Ok (ino, s) else sfs_alloc_ino s in
  let cb := fresh (dom (blocks s)) in
  let h := hash32 ino HASH_SHIFT in
  Ok (cb, mkMk (img s) (sup s) (ninos s) (next_ino s) (inodes s) (inode_hash s)
            (<[cb := mkCb i (replicate (Z.to_nat SFS_BLK_NENTRY) 0)]> (blocks s))
            (<[h := cb :: default [] (block_hash s !! h)]> (block_hash s)) (entry_name_buf s)).

Fixpoint find_block (l : list ptr) (ino : Z) s : res (option ptr) :=
  match l with
  | [] => Ok None
  | cb :: l => let! b := deref (blocks s !! cb) in if cb_ino b =? ino then Ok (Some cb) else find_block l ino s
  end.

Definition search_cache_block (ino : Z) s : res (option ptr) :=
  find_block (default [] (block_hash s !! hash32 ino HASH_SHIFT)) ino s.

Definition alloc_cache_inode (rl ino type : Z) s : res (ptr * mk_fs) :=
  let! (i, s) := if negb (ino =? 0) then Ok (ino, s) else sfs_alloc_ino s in
  let ci := fresh (dom (inodes s)) in
  let h := hash64 rl in
  Ok (ci, mkMk (img s) (sup s) (ninos s) (next_ino s)
            (<[ci := mkCi (mkDinode 0 type 0 0 (replicate 12 0) 0) 0 rl i 0 None None]> (inodes s))
            (<[h := ci :: default [] (inode_hash s !! h)]> (inode_hash s)) (blocks s) (block_hash s) (entry_name_buf s)).

Fixpoint find_inode (l : list ptr) (rl : Z) s : res (option ptr) :=
  match l with
  | [] => Ok None
  | ci :: l => let! c := get_ci ci s in if real c =? rl then Ok (Some ci) else find_inode l rl s
  end.

Definition search_cache_inode (rl : Z) s : res (option ptr) := find_inode (default [] (inode_hash s !! hash64 rl)) rl s.

(** [size] is that of the image file, [junk] what [malloc] returns for [super.info]. *)
Definition create_sfs (size : Z) (junk : list Z) (image : Z → list Z) : res (ptr * mk_fs) :=
  let n := u32 (size / SFS_BLKSIZE) in
  let n := if SFS_MAX_NBLKS <? n then SFS_MAX_NBLKS else n in
  let next := u32 (SFS_BLKN_FREEMAP + u32 (n + SFS_BLKBITS - 1) / SFS_BLKBITS) in
  if n <=? next then Panicked else
  let info := [115; 105; 109; 112; 108; 101; 32; 102; 105; 108; 101; 32; 115; 121; 115; 116; 101; 109; 0] ++ drop 19 junk in
  alloc_cache_inode 0 SFS_BLKN_ROOT SFS_TYPE_DIR
    (mkMk image (mkSuper SFS_MAGIC n (n - next) info) n next ∅ ∅ ∅ ∅ (replicate 256 0)).

(** ** Blocks of the image *)

(** [pwrite] writes the whole block, which lies in the image. *)
Definition write_block (data : list Z) (ino : Z) s : res mk_fs :=
  if (Z.of_nat (length data) <=? SFS_BLKSIZE) && (ino <? ninos s) then
    Ok (set_img (put_blk ino (data ++ replicate (Z.to_nat SFS_BLKSIZE - length data) 0) (img s)) s)
  else Panicked.

Definition flush_cache_block (cb : ptr) s : res mk_fs :=
  let! b := deref (blocks s !! cb) in write_block (encode_words (cache b)) (cb_ino b) s.

Definition flush_cache_inode (ci : ptr) s : res mk_fs :=
  let! c := get_ci ci s in write_block (encode_dinode (inode c) ++ le_bytes 4 (db_indirect c)) (ci_ino c) s.

(** Word [w] of the map from bit [start] to [end]. *)
Definition map_word (start stop : Z) (w : nat) : Z :=
  foldr (λ j v, if (start <=? 32 * Z.of_nat w + j) && (32 * Z.of_nat w + j <? stop) then Z.lor v (Z.shiftl 1 j) else v) 0 (seqZ 0 32).

(** Block of the map for the bits from [i] on: set bits are free blocks. *)
Definition map_block (i : Z) s : list Z :=
  if next_ino s <? u32 (i + SFS_BLKBITS) then
    let start := if i <? next_ino s then next_ino s - i else 0 in
    let stop := if ninos s <? u32 (i + SFS_BLKBITS) then ninos s - i else SFS_BLKBITS in
    encode_words (map_word start stop <$> seq 0 1024)
  else zero_block.

Fixpoint write_maps (n : nat) (i ino : Z) s : res mk_fs :=
  if i <? ninos s then
    match n with
    | O => NoFuel
    | S n => let! s := write_block (map_block i s) ino s in write_maps n (u32 (i + SFS_BLKBITS)) (u32 (ino + 1)) s
    end
  else Ok s.

Fixpoint flush_list (f : ptr → mk_fs → res mk_fs) (l : list ptr) s : res mk_fs :=
  match l with [] => Ok s | p :: l => let! s := f p s in flush_list f l s end.

Fixpoint flush_lists (hs : list Z) s : res mk_fs :=
  match hs with
  | [] => Ok s
  | i :: hs =>
      let! s := flush_list flush_cache_block (default [] (block_hash s !! i)) s in
      let! s := flush_list flush_cache_inode (default [] (inode_hash s !! i)) s in
      flush_lists hs s
  end.

Definition close_sfs s : res mk_fs :=
  let! s := write_maps (Z.to_nat (ninos s)) 0 SFS_BLKN_FREEMAP s in
  let! s := write_block (encode_super (sup s)) SFS_BLKN_SUPER s in
  flush_lists (seqZ 0 HASH_LIST_SIZE) s.

(** ** Files and directories *)

(** The new values of the pointer to the cache and of the block number. *)
Definition update_cache (cbp : option ptr) (ino : Z) s : res (ptr * Z * mk_fs) :=
  if ino =? 0 then
    let! (cb, s) := alloc_cache_block 0 s in
    let! b := deref (blocks s !! cb) in Ok (cb, cb_ino b, s)
  else
    let! here := match cbp with
                 | None => Ok false
                 | Some cb => let! b := deref (blocks s !! cb) in Ok (cb_ino b =? ino)
                 end in
    let! o := if here : bool then Ok cbp else search_cache_block ino s in
    match o with
    | Some cb => let! b := deref (blocks s !! cb) in if cb_ino b =? ino then Ok (cb, ino, s) else Panicked
    | None => Panicked
    end.

Definition put_word (cb : ptr) (i v : Z) s : res mk_fs :=
  let! b := deref (blocks s !! cb) in Ok (set_cblocks (<[cb := mkCb (cb_ino b) (<[Z.to_nat i := v]> (cache b))]> (blocks s)) s).

Definition append_block (file : ptr) (size ino : Z) s : res mk_fs :=
  if SFS_BLKSIZE <? size then Panicked else
  let! f := get_ci file s in
  let n := nblks f in
  if SFS_LN_NBLKS <=? n then Panicked else
  let! s :=
    if n <? SFS_L0_NBLKS then Ok (put_ci file (set_inode (set_direct (<[Z.to_nat n := ino]> (di_direct (inode f))) (inode f)) f) s)
    else if n <? SFS_L1_NBLKS then
      let! (cb, b, s) := update_cache (l1 f) (di_indirect (inode f)) s in
      put_word cb (n - SFS_L0_NBLKS) ino (put_ci file (set_l1 (Some cb) (set_inode (set_indirect b (inode f)) f)) s)
    else if n <? SFS_L2_NBLKS then
      let k := n - SFS_L1_NBLKS in
      let! (cb2, b2, s) := update_cache (l2 f) (db_indirect f) s in
      let! d := deref (blocks s !! cb2) in
      let! w := deref (cache d !! Z.to_nat (k / SFS_BLK_NENTRY)) in
      let! (cb1, b1, s) := update_cache (l1 f) w s in
      let! s := put_word cb2 (k / SFS_BLK_NENTRY) b1 s in
      put_word cb1 (k mod SFS_BLK_NENTRY) ino (put_ci file (set_l1 (Some cb1) (set_l2 (Some cb2) b2 f)) s)
    else Ok s in
  let! f := get_ci file s in
  let d := inode f in
  Ok (put_ci file (set_nblks (u32 (nblks f + 1)) (set_inode (set_blocks (u32 (di_blocks d + 1)) (set_size (u32 (di_size d + size)) d)) f)) s).

(** [strcpy] into the static entry leaves the rest of the name before; of the 260 bytes of
    an entry the size of the name, 256, is written. *)
Definition add_entry (current file : ptr) (name : list Z) s : res mk_fs :=
  let! c := get_ci current s in
  if (di_type (inode c) =? SFS_TYPE_DIR) && (Z.of_nat (length name) <=? SFS_MAX_FNAME_LEN) then
    let! f := get_ci file s in
    let buf := name ++ 0 :: drop (length name + 1) (entry_name_buf s) in
    let s := set_name_buf buf s in
    let! (ino, s) := sfs_alloc_ino s in
    let! s := write_block (take 256 (encode_entry (mkEntry (ci_ino f) buf))) ino s in
    let! s := append_block current 256 ino s in
    let! f := get_ci file s in
    Ok (put_ci file (set_inode (set_nlinks ((di_nlinks (inode f) + 1) mod 2 ^ 16) (inode f)) f) s)
  else Panicked.

(** [read] returns 4096 bytes as long as there are as many, and what is left then; each
    round takes a block. *)
Fixpoint open_file (n : nat) (file : ptr) (data : list Z) (last : nat) s : res mk_fs :=
  match take 4096 data with
  | [] => Ok s
  | buffer =>
      match n with
      | O => NoFuel
      | S n =>
          if negb (Z.of_nat last =? SFS_BLKSIZE) then Panicked else
          let! (ino, s) := sfs_alloc_ino s in
          let! s := write_block buffer ino s in
          let! s := append_block file (Z.of_nat (length buffer)) ino s in
          open_file n file (drop 4096 data) (length buffer) s
      end
  end.

Definition open_link (file : ptr) (target : list Z) s : res mk_fs :=
  let! (ino, s) := sfs_alloc_ino s in
  let buffer := take 4096 target in
  if Z.of_nat (length buffer) =? SFS_BLKSIZE then Panicked else
  let! s := write_block buffer ino s in
  append_block file (Z.of_nat (length buffer)) ino s.

Definition add_file (current : ptr) (name : list Z) (content : list Z) (rl : Z) s : res mk_fs :=
  let! o := search_cache_inode rl s in
  let! (file, s) :=
    match o with
    | Some file => Ok (file, s)
    | None =>
        let! (file, s) := alloc_cache_inode rl 0 SFS_TYPE_FILE s in
        let! s := open_file (length content) file content 4096 s in Ok (file, s)
    end in
  add_entry current file name s.

Definition add_link (current : ptr) (name : list Z) (target : list Z) (rl : Z) s : res mk_fs :=
  let! (file, s) := alloc_cache_inode rl 0 SFS_TYPE_LINK s in
  let! s := open_link file target s in
  add_entry current file name s.

Definition DOT : list Z := [46].
Definition DOTDOT : list Z := [46; 46].

(** [loop] is the loop over the entries of the directory. *)
Definition open_dir (loop : mk_fs → res mk_fs) (current parent : ptr) s : res mk_fs :=
  let! s := add_entry current current DOT s in
  let! s := add_entry current parent DOTDOT s in
  loop s.

Definition add_dir (loop : ptr → mk_fs → res mk_fs) (parent : ptr) (name : list Z) (rl : Z) s : res mk_fs :=
  let! o := search_cache_inode rl s in
  if o then Panicked else
  let! (current, s) := alloc_cache_inode rl 0 SFS_TYPE_DIR s in
  let! s := open_dir (loop current) current parent s in
  add_entry parent current name s.

(** A name that the loop leaves out. *)
Definition skipped (name : list Z) : bool := bool_decide (name = DOT) || bool_decide (name = DOTDOT) || bool_decide (head name = Some 46).

Fixpoint read_entries (es : dirents) (current : ptr) s : res mk_fs :=
  match es with
  | Dnil => Ok s
  | Dcons name n rest =>
      let! s :=
        if skipped name then Ok s
        else if SFS_MAX_FNAME_LEN <? Z.of_nat (length name) then Panicked
        else add_node n current name s in
      read_entries rest current s
  end
with add_node (n : node) (current : ptr) (name : list Z) s : res mk_fs :=
  match n with
  | Lnk rl target => add_link current name target rl s
  | Dir rl es => add_dir (read_entries es) current name rl s
  | Reg rl content => add_file current name content rl s
  | Other _ => Ok s
  end.

(** [create_img (open_img ...)]. *)
Definition create_img (size : Z) (junk : list Z) (image : Z → list Z) (home : dirents) : res (Z → list Z) :=
  let! (root, s) := create_sfs size junk image in
  let! s := open_dir (read_entries home root) root root s in
  let! s := close_sfs s in Ok (img s).
