(* ===== verification/MksfsInv.v ===== *)
(** * The state of mksfs

    [fview] is what an inode in the caches stands for, a list of blocks; [mk_inv s V]: the
    caches of [s] stand for the files [V], which own disjoint sets of blocks, and the
    inodes are found through the hash lists.  Each step of mksfs keeps this and changes
    the views as it should. *)

From S2P Require Import Prelude Hash SfsDisk SfsMap Mksfs.

Record fview := mkFv { fv_ino : Z; fv_real : Z; fv_type : Z; fv_links : Z; fv_size : Z; fv_blocks : list Z; fv_ind : Z }.

Definition own_blocks (v : fview) : list Z := fv_ino v :: (if fv_ind v =? 0 then [] else [fv_ind v]) ++ fv_blocks v.
Definition nblk (v : fview) : Z := Z.of_nat (length (fv_blocks v)).

(** The first block behind the map of free blocks. *)
Definition data_start (n : Z) : Z := SFS_BLKN_FREEMAP + (n + SFS_BLKBITS - 1) / SFS_BLKBITS.

(** The inode [c] stands for [v]; [B] are the cached blocks. *)
Record stands (B : gmap ptr cache_block) (c : cache_inode) (v : fview) : Prop := {
  sd_ino : ci_ino c = fv_ino v;
  sd_real : real c = fv_real v;
  sd_type : di_type (inode c) = fv_type v;
  sd_links : di_nlinks (inode c) = fv_links v;
  sd_links_range : 0 ≤ fv_links v < 2 ^ 16;
  sd_size : di_size (inode c) = fv_size v;
  sd_size_range : is_u32 (fv_size v);
  sd_nblks : nblks c = nblk v;
  sd_blocks : di_blocks (inode c) = nblk v;
  sd_max : nblk v ≤ MAX_BLOCKS;
  sd_ndirect : length (di_direct (inode c)) = 12%nat;
  sd_direct (i : nat) : (i < 12)%nat → di_direct (inode c) !! i = Some (default 0 (fv_blocks v !! i));
  sd_ind : di_indirect (inode c) = fv_ind v;
  sd_small : nblk v ≤ 12 → fv_ind v = 0 ∧ l1 c = None;
  sd_large : 12 < nblk v → fv_ind v ≠ 0 ∧ ∃ cb ws, l1 c = Some cb ∧ B !! cb = Some (mkCb (fv_ind v) ws) ∧ length ws = 1024%nat ∧
    ∀ k : nat, (k < 1024)%nat → ws !! k = Some (default 0 (fv_blocks v !! (12 + k)%nat))
}.

Record mk_inv (s : mk_fs) (V : gmap ptr fview) : Prop := {
  mi_start : 3 ≤ data_start (ninos s) ≤ next_ino s;
  mi_next : next_ino s ≤ ninos s;
  mi_max : ninos s ≤ 2 ^ 19;
  mi_unused : sb_unused_blocks (sup s) = ninos s - next_ino s;
  mi_blocks : sb_blocks (sup s) = ninos s;
  mi_inode p v : V !! p = Some v → ∃ c, inodes s !! p = Some c ∧ stands (blocks s) c v;
  mi_dom p : is_Some (inodes s !! p) → is_Some (V !! p);
  mi_range p v b : V !! p = Some v → b ∈ own_blocks v → b = 1 ∨ data_start (ninos s) ≤ b < next_ino s;
  mi_nodup p v : V !! p = Some v → NoDup (own_blocks v);
  mi_disj p q v w b : V !! p = Some v → V !! q = Some w → b ∈ own_blocks v → b ∈ own_blocks w → p = q;
  mi_cache cb b : blocks s !! cb = Some b → ∃ p c, inodes s !! p = Some c ∧ l1 c = Some cb ∧ di_indirect (inode c) = cb_ino b;
  mi_ihash p v : V !! p = Some v → p ∈ default [] (inode_hash s !! hash64 (fv_real v));
  mi_ihash_dom h p : p ∈ default [] (inode_hash s !! h) → is_Some (V !! p);
  mi_bhash cb : is_Some (blocks s !! cb) → cb ∈ default [] (block_hash s !! 0);
  mi_bhash_dom h cb : cb ∈ default [] (block_hash s !! h) → is_Some (blocks s !! cb);
  mi_name : length (entry_name_buf s) = 256%nat
}.

(** No file owns the block. *)
Definition fresh_block (V : gmap ptr fview) (b : Z) : Prop := ∀ p v, V !! p = Some v → b ∉ own_blocks v.

Lemma ind_own v : fv_ind v ≠ 0 → fv_ind v ∈ own_blocks v.
Proof. intros Hi. unfold own_blocks. rewrite (proj2 (Z.eqb_neq _ _) Hi). right. left. Qed.

Lemma block_own v b : b ∈ fv_blocks v → b ∈ own_blocks v.
Proof. intros Hb. unfold own_blocks. right. apply elem_of_app. by right. Qed.

(** A cached block belongs to one inode. *)
Lemma cache_owner s V p q c d cb : mk_inv s V → inodes s !! p = Some c → inodes s !! q = Some d →
  l1 c = Some cb → l1 d = Some cb → p = q.
Proof.
  intros Hi Hp Hq Hc Hd.
  destruct (mi_dom _ _ Hi p) as [v Hv]; [by eexists|]. destruct (mi_dom _ _ Hi q) as [w Hw]; [by eexists|].
  destruct (mi_inode _ _ Hi _ _ Hv) as (c' & Ec & Sc). destruct (mi_inode _ _ Hi _ _ Hw) as (d' & Ed & Sd). simplify_eq.
  destruct (decide (nblk v ≤ 12)) as [Hn|Hn]; [by destruct (sd_small _ _ _ Sc Hn); congruence|].
  destruct (decide (nblk w ≤ 12)) as [Hn'|Hn']; [by destruct (sd_small _ _ _ Sd Hn'); congruence|].
  destruct (sd_large _ _ _ Sc) as (Hne & cb1 & ws1 & E1 & B1 & _); [lia|].
  destruct (sd_large _ _ _ Sd) as (Hne' & cb2 & ws2 & E2 & B2 & _); [lia|]. simplify_eq.
  apply (mi_disj _ _ Hi p q v w (fv_ind v)); [done|done|by apply ind_own|]. replace (fv_ind v) with (fv_ind w) by congruence. by apply ind_own.
Qed.

(** A step that changes one inode. *)
Lemma inv_update s V s' p v v' c c' :
  mk_inv s V → V !! p = Some v → inodes s !! p = Some c → inodes s' = <[p := c']> (inodes s) → stands (blocks s') c' v' →
  fv_real v' = fv_real v →
  (∀ cb, l1 c ≠ Some cb → is_Some (blocks s !! cb) → blocks s' !! cb = blocks s !! cb) →
  (∀ cb b, blocks s' !! cb = Some b → (l1 c' = Some cb ∧ di_indirect (inode c') = cb_ino b) ∨ (blocks s !! cb = Some b ∧ l1 c ≠ Some cb)) →
  (∀ b, b ∈ own_blocks v' → b ∈ own_blocks v ∨ (data_start (ninos s) ≤ b < next_ino s' ∧ fresh_block V b)) → NoDup (own_blocks v') →
  ninos s' = ninos s → next_ino s ≤ next_ino s' ≤ ninos s → sb_unused_blocks (sup s') = ninos s - next_ino s' → sb_blocks (sup s') = ninos s →
  inode_hash s' = inode_hash s → length (entry_name_buf s') = 256%nat →
  (∀ cb, is_Some (blocks s' !! cb) → cb ∈ default [] (block_hash s' !! 0)) →
  (∀ h cb, cb ∈ default [] (block_hash s' !! h) → is_Some (blocks s' !! cb)) →
  mk_inv s' (<[p := v']> V).
Proof.
  intros Hi Hv Hc Ei Hst Er Hold Hnew Hown Hnd En Hnx Hun Hsb Eh Hnm Hb1 Hb2.
  assert (Hsplit : ∀ q w, <[p := v']> V !! q = Some w → (q = p ∧ w = v') ∨ (q ≠ p ∧ V !! q = Some w)).
  { intros q w. rewrite lookup_insert. case_decide; naive_solver. }
  split; rewrite ?En; try done; try lia.
  - pose proof (mi_start _ _ Hi). lia.
  - apply Hi.
  - intros q w [[-> ->]|[Hne Hw]]%Hsplit; [exists c'; by rewrite Ei, lookup_insert_eq|].
    destruct (mi_inode _ _ Hi _ _ Hw) as (d & Ed & Sd). exists d. rewrite Ei, lookup_insert_ne by done. split; [done|].
    destruct Sd as [? ? ? ? ? ? ? ? ? ? ? ? ? ? Hl]. split; try done. intros Hn. destruct (Hl Hn) as (Hne' & cb & ws & E1 & EB & El).
    split; [done|]. exists cb, ws. split_and!; try done; [|apply El|apply El]. rewrite Hold; [done| |by eexists].
    intros Ecb. apply Hne. by apply (cache_owner s V q p d c cb).
  - intros q. rewrite Ei. rewrite !lookup_insert. case_decide; [by eexists|]. apply (mi_dom _ _ Hi).
  - intros q w b [[-> ->]|[Hne Hw]]%Hsplit Hb.
    + destruct (Hown b Hb) as [Hb'|[Hr _]]; [|by right]. destruct (mi_range _ _ Hi p v b Hv Hb'); [by left|right; lia].
    + destruct (mi_range _ _ Hi q w b Hw Hb); [by left|right; lia].
  - intros q w [[-> ->]|[Hne Hw]]%Hsplit; [done|]. by apply (mi_nodup _ _ Hi q).
  - intros q r w x b [[-> ->]|[Hne Hw]]%Hsplit [[-> ->]|[Hne' Hx]]%Hsplit Hbw Hbx; [done|..].
    + destruct (Hown b Hbw) as [Hb|[_ Hf]]; [by apply (mi_disj _ _ Hi p r v x b)|by destruct (Hf r x Hx)].
    + destruct (Hown b Hbx) as [Hb|[_ Hf]]; [by apply (mi_disj _ _ Hi q p w v b)|by destruct (Hf q w Hw)].
    + by apply (mi_disj _ _ Hi q r w x b).
  - intros cb b Hb. destruct (Hnew cb b Hb) as [[E1 E2]|[Hb' Hl]].
    + exists p, c'. by rewrite Ei, lookup_insert_eq.
    + destruct (mi_cache _ _ Hi cb b Hb') as (q & d & Eq & El & Ed). exists q, d. rewrite Ei, lookup_insert_ne; [done|]. intros <-. congruence.
  - intros q w [[-> ->]|[Hne Hw]]%Hsplit; rewrite Eh; [rewrite Er|]; by apply Hi.
  - intros h q. rewrite Eh. intros Hq. rewrite lookup_insert. case_decide; [by eexists|]. by eapply (mi_ihash_dom _ _ Hi).
Qed.

(** What appending a block leaves alone. *)
Record same_disk (s s' : mk_fs) : Prop := {
  dk_img : img s' = img s;
  dk_ninos : ninos s' = ninos s;
  dk_magic : sb_magic (sup s') = sb_magic (sup s);
  dk_info : sb_info (sup s') = sb_info (sup s)
}.

Definition grown (v : fview) (size b ind : Z) : fview :=
  mkFv (fv_ino v) (fv_real v) (fv_type v) (fv_links v) (fv_size v + size) (fv_blocks v ++ [b]) ind.

Lemma nblk_grown v size b ind : nblk (grown v size b ind) = nblk v + 1.
Proof. unfold nblk. cbn. rewrite length_app. cbn. lia. Qed.

Lemma default_snoc (l : list Z) (b : Z) (i : nat) : default 0 ((l ++ [b]) !! i) = if decide (i = length l) then b else default 0 (l !! i).
Proof.
  case_decide as E; [subst i; by rewrite lookup_app_r, Nat.sub_diag by done|].
  destruct (decide (i < length l)%nat); [by rewrite lookup_app_l|].
  rewrite !lookup_ge_None_2; [done|lia|rewrite length_app; cbn; lia].
Qed.

(** An array that holds a list and zeros behind it, after the list has grown. *)
Lemma array_snoc (l a : list Z) (o n : nat) (b : Z) :
  length a = n → (∀ i : nat, (i < n)%nat → a !! i = Some (default 0 (l !! (o + i)%nat))) → (o ≤ length l < o + n)%nat →
  ∀ i : nat, (i < n)%nat → <[(length l - o)%nat := b]> a !! i = Some (default 0 ((l ++ [b]) !! (o + i)%nat)).
Proof.
  intros El Ha Hl i Hi. rewrite default_snoc. case_decide as E.
  - replace i with (length l - o)%nat by lia. rewrite list_lookup_insert_eq by lia. done.
  - rewrite list_lookup_insert_ne by lia. by apply Ha.
Qed.

(** What an array holds does not change as long as the list ends before it or behind it. *)
Lemma array_keep (l a : list Z) (o n : nat) (b : Z) :
  (∀ i : nat, (i < n)%nat → a !! i = Some (default 0 (l !! (o + i)%nat))) → (length l < o ∨ o + n ≤ length l)%nat →
  ∀ i : nat, (i < n)%nat → a !! i = Some (default 0 ((l ++ [b]) !! (o + i)%nat)).
Proof. intros Ha Hl i Hi. rewrite default_snoc, decide_False by lia. by apply Ha. Qed.

(** The count and the size after the block number is in its place. *)
Definition counted (size : Z) (c : cache_inode) : cache_inode :=
  set_nblks (u32 (nblks c + 1)) (set_inode (set_blocks (u32 (di_blocks (inode c) + 1)) (set_size (u32 (di_size (inode c) + size)) (inode c))) c).

(** The new inode stands for the longer file, if its arrays do. *)
Lemma stands_grown B B' c c1 v size b ind :
  stands B c v → nblk v < MAX_BLOCKS → 0 ≤ size → fv_size v + size < 2 ^ 32 →
  ci_ino c1 = ci_ino c → real c1 = real c → di_type (inode c1) = di_type (inode c) → di_nlinks (inode c1) = di_nlinks (inode c) →
  di_size (inode c1) = di_size (inode c) → nblks c1 = nblks c → di_blocks (inode c1) = di_blocks (inode c) →
  length (di_direct (inode c1)) = 12%nat →
  (∀ i : nat, (i < 12)%nat → di_direct (inode c1) !! i = Some (default 0 ((fv_blocks v ++ [b]) !! i))) →
  di_indirect (inode c1) = ind → (nblk v + 1 ≤ 12 → ind = 0 ∧ l1 c1 = None) →
  (12 < nblk v + 1 → ind ≠ 0 ∧ ∃ cb ws, l1 c1 = Some cb ∧ B' !! cb = Some (mkCb ind ws) ∧ length ws = 1024%nat ∧
    ∀ k : nat, (k < 1024)%nat → ws !! k = Some (default 0 ((fv_blocks v ++ [b]) !! (12 + k)%nat))) →
  stands B' (counted size c1) (grown v size b ind).
Proof.
  intros S Hm Hs Hsz E1 E2 E3 E4 E5 E6 E7 E8 Hd Ei Hsm Hla.
  pose proof (sd_size_range _ _ _ S) as Hr. unfold is_u32 in Hr. unfold MAX_BLOCKS in Hm.
  assert (0 ≤ nblk v) as H0' by (unfold nblk; lia).
  split; rewrite ?nblk_grown; cbn [counted set_nblks set_inode set_blocks set_size inode ci_ino real nblks l1 di_type di_nlinks di_size di_blocks di_direct di_indirect
    grown fv_ino fv_real fv_type fv_links fv_size fv_blocks fv_ind].
  - rewrite E1. apply S.
  - rewrite E2. apply S.
  - rewrite E3. apply S.
  - rewrite E4. apply S.
  - apply S.
  - rewrite E5, (sd_size _ _ _ S). apply u32_small. lia.
  - unfold is_u32. lia.
  - rewrite E6, (sd_nblks _ _ _ S). apply u32_small. lia.
  - rewrite E7, (sd_blocks _ _ _ S). apply u32_small. lia.
  - unfold MAX_BLOCKS. lia.
  - done.
  - done.
  - done.
  - done.
  - done.
Qed.

Lemma own_grown v size b ind x : x ∈ own_blocks (grown v size b ind) → x ∈ own_blocks v ∨ x = b ∨ (x = ind ∧ fv_ind v ≠ ind).
Proof.
  intros Hx. unfold own_blocks in *. cbn [grown fv_ino fv_ind fv_blocks] in *.
  rewrite elem_of_cons, elem_of_app, elem_of_app, list_elem_of_singleton in Hx. rewrite elem_of_cons, elem_of_app.
  destruct Hx as [->|[Hx|[Hx| ->]]]; [tauto| |tauto|tauto].
  destruct (Z.eqb_spec ind 0) as [->|Hne]; [by apply not_elem_of_nil in Hx|]. apply list_elem_of_singleton in Hx as ->.
  destruct (decide (fv_ind v = ind)) as [E|E]; [|tauto]. rewrite E, (proj2 (Z.eqb_neq _ _) Hne). left. right. left. by left.
Qed.

Lemma nodup_grown v size b ind : NoDup (own_blocks v) → b ∉ own_blocks v → b ≠ ind →
  ind = fv_ind v ∨ (fv_ind v = 0 ∧ ind ∉ own_blocks v) → NoDup (own_blocks (grown v size b ind)).
Proof.
  intros Hnd Hb Hbi Hi.
  assert (Permutation (own_blocks (grown v size b ind)) (b :: own_blocks v) ∨
    (ind ∉ own_blocks v ∧ Permutation (own_blocks (grown v size b ind)) (b :: ind :: own_blocks v))) as [E|[Hn E]].
  { unfold own_blocks. cbn [grown fv_ino fv_ind fv_blocks]. destruct Hi as [->|[E0 Hn]]; [left|].
    - rewrite app_assoc. rewrite (Permutation_app_comm _ [b]). cbn. apply perm_swap.
    - destruct (Z.eqb_spec ind 0) as [->|Hne].
      + left. rewrite E0. cbn. rewrite (Permutation_app_comm _ [b]). cbn. apply perm_swap.
      + right. split; [exact Hn|]. rewrite E0. cbn. rewrite (Permutation_app_comm _ [b]). cbn.
        etransitivity; [apply perm_skip, perm_swap|]. etransitivity; [apply perm_swap|]. apply perm_skip. apply perm_swap. }
  - rewrite E. by apply NoDup_cons.
  - rewrite E. apply NoDup_cons. split; [|by apply NoDup_cons]. rewrite elem_of_cons. intros [?|?]; [done|]. by apply Hb.
Qed.

Lemma append_end s1 p c1 size :
  inodes s1 !! p = Some c1 →
  (let! f := get_ci p s1 in
   let d := inode f in
   Ok (put_ci p (set_nblks (u32 (nblks f + 1)) (set_inode (set_blocks (u32 (di_blocks d + 1)) (set_size (u32 (di_size d + size)) d)) f)) s1))
  = Ok (put_ci p (counted size c1) s1).
Proof. unfold get_ci. by intros ->. Qed.

(** Appending a block [b] of [size] bytes; the block of numbers is allocated when the
    thirteenth block comes. *)
Definition next_ind (s : mk_fs) (v : fview) : Z := if nblk v =? 12 then next_ino s else fv_ind v.

(** What [update_cache] leaves alone, besides the cached blocks. *)
Record cache_step (s s1 : mk_fs) (v : fview) (cb : ptr) (ws : list Z) : Prop := {
  cs_inodes : inodes s1 = inodes s;
  cs_ihash : inode_hash s1 = inode_hash s;
  cs_name : entry_name_buf s1 = entry_name_buf s;
  cs_disk : same_disk s s1;
  cs_next : next_ino s1 = next_ino s + (if nblk v =? 12 then 1 else 0);
  cs_unused : sb_unused_blocks (sup s1) = ninos s - next_ino s1;
  cs_sb : sb_blocks (sup s1) = ninos s;
  cs_max : next_ino s1 ≤ ninos s;
  cs_cb : blocks s1 !! cb = Some (mkCb (next_ind s v) ws);
  cs_ne : next_ind s v ≠ 0;
  cs_words : length ws = 1024%nat;
  cs_at (k : nat) : (k < 1024)%nat → ws !! k = Some (default 0 (fv_blocks v !! (12 + k)%nat));
  cs_old cb' : cb' ≠ cb → blocks s1 !! cb' = blocks s !! cb';
  cs_h1 cb' : is_Some (blocks s1 !! cb') → cb' ∈ default [] (block_hash s1 !! 0);
  cs_h2 h cb' : cb' ∈ default [] (block_hash s1 !! h) → is_Some (blocks s1 !! cb')
}.

Lemma update_cache_ok s V p v c :
  mk_inv s V → V !! p = Some v → stands (blocks s) c v → 12 ≤ nblk v → (nblk v = 12 → next_ino s < ninos s) →
  ∃ cb ws s1, update_cache (l1 c) (di_indirect (inode c)) s = Ok (cb, next_ind s v, s1) ∧ cache_step s s1 v cb ws ∧
    (l1 c = Some cb ∨ (l1 c = None ∧ blocks s !! cb = None)).
Proof.
  intros Hi Hv S Hge Hn. pose proof (mi_unused _ _ Hi) as Hun. pose proof (mi_blocks _ _ Hi) as Hsb.
  pose proof (mi_start _ _ Hi) as Hst. pose proof (mi_next _ _ Hi) as Hnx. pose proof (mi_max _ _ Hi) as Hmx.
  unfold update_cache, next_ind. rewrite (sd_ind _ _ _ S). destruct (Z.eqb_spec (nblk v) 12) as [E|E].
  - destruct (sd_small _ _ _ S) as [-> El]; [lia|]. specialize (Hn E). cbn [Z.eqb].
    unfold alloc_cache_block, sfs_alloc_ino. cbn [Z.eqb negb]. rewrite (proj2 (Z.ltb_lt _ _) Hn). cbn [bind].
    change (hash32 0 HASH_SHIFT) with 0. cbv zeta. cbn [blocks block_hash img sup ninos next_ino inodes inode_hash entry_name_buf].
    set (cb := fresh (dom (blocks s))).
    assert (blocks s !! cb = None) as Ecb by (apply not_elem_of_dom, is_fresh).
    rewrite lookup_insert_eq. cbn [deref bind cb_ino]. eexists cb, _, _. split; [done|]. split; [|by right].
    split; cbn [blocks block_hash img sup ninos next_ino inodes inode_hash entry_name_buf sb_magic sb_info sb_unused_blocks sb_blocks]; try done; try lia.
    + rewrite E, Z.eqb_refl. done.
    + rewrite u32_small; lia.
    + unfold next_ind. rewrite E, Z.eqb_refl. apply lookup_insert_eq.
    + unfold next_ind. rewrite E, Z.eqb_refl. lia.
    + apply length_replicate.
    + intros k Hk. rewrite (lookup_ge_None_2 (fv_blocks v)) by (unfold nblk in E; lia). cbn [default]. apply lookup_replicate_2. change (Z.to_nat SFS_BLK_NENTRY) with 1024%nat. exact Hk.
    + intros cb' Hne. by rewrite lookup_insert_ne.
    + intros cb' Hs. rewrite lookup_insert_eq. cbn. destruct (decide (cb' = cb)) as [->|Hne]; [left|right].
      apply (mi_bhash _ _ Hi). by rewrite lookup_insert_ne in Hs.
    + intros h cb' Hs. rewrite lookup_insert. case_decide; [by eexists|]. destruct (decide (h = 0)) as [->|Hh].
      * rewrite lookup_insert_eq in Hs. cbn in Hs. apply elem_of_cons in Hs as [->|Hs]; [done|]. by eapply (mi_bhash_dom _ _ Hi).
      * rewrite lookup_insert_ne in Hs by done. by eapply (mi_bhash_dom _ _ Hi).
  - destruct (sd_large _ _ _ S) as (Hne & cb & ws & El & Eb & Hl & Hw); [lia|]. rewrite (proj2 (Z.eqb_neq _ _) Hne), El, Eb. cbn [deref bind cb_ino].
    rewrite Z.eqb_refl. cbn [bind]. rewrite Eb. cbn [deref bind cb_ino]. rewrite Z.eqb_refl.
    exists cb, ws, s. split; [done|]. split; [|by left].
    split; try done; unfold next_ind; rewrite ?(proj2 (Z.eqb_neq _ _) E); try done; try lia; [apply (mi_bhash _ _ Hi)|apply (mi_bhash_dom _ _ Hi)].
Qed.

(** The thirteenth block and the later ones. *)
Lemma append_numbered s V p v c size b :
  mk_inv s V → V !! p = Some v → inodes s !! p = Some c → stands (blocks s) c v → 12 ≤ nblk v < MAX_BLOCKS → 0 ≤ size ≤ 4096 →
  fv_size v + size < 2 ^ 32 → data_start (ninos s) ≤ b < next_ino s → fresh_block V b → (nblk v = 12 → next_ino s < ninos s) →
  ∃ s1 c1, (let! (cb, b', s) := update_cache (l1 c) (di_indirect (inode c)) s in
            put_word cb (nblk v - 12) b (put_ci p (set_l1 (Some cb) (set_inode (set_indirect b' (inode c)) c)) s)) = Ok s1 ∧
    inodes s1 !! p = Some c1 ∧ mk_inv (put_ci p (counted size c1) s1) (<[p := grown v size b (next_ind s v)]> V) ∧ same_disk s s1 ∧
    next_ino s1 = next_ino s + (if nblk v =? 12 then 1 else 0).
Proof.
  intros Hi Hv Hc S [Hge Hm] Hs Hsz Hb Hf Hn.
  assert (b ∉ own_blocks v) as Hbo by (by apply (Hf p)).
  assert (length (fv_blocks v) = Z.to_nat (nblk v)) as Elen by (unfold nblk; lia).
  destruct (update_cache_ok s V p v c) as (cb & ws & s1 & -> & [] & Hcb); [done..|]. cbn [bind].
  unfold put_word, put_ci. cbn [set_inodes blocks]. rewrite cs_cb0. cbn [deref bind cb_ino cache].
  eexists _, _. split; [done|]. cbn [set_cblocks set_inodes inodes]. split; [apply lookup_insert_eq|].
  split; [|split; [by destruct cs_disk0|done]].
  eapply inv_update; [exact Hi|exact Hv|exact Hc|cbn; rewrite insert_insert_eq, cs_inodes0; reflexivity| |done|..]; cbn; try done.
  - apply (stands_grown (blocks s) _ c); try done; try lia; cbn [set_inode inode set_indirect set_l1 di_direct di_indirect di_size di_type di_nlinks di_blocks l1 nblks ci_ino real].
    + apply S.
    + apply (array_keep _ _ 0 12); [apply S|unfold nblk in *; lia].
    + intros _. split; [done|]. exists cb, (<[Z.to_nat (nblk v - 12) := b]> ws). split_and!; [done|apply lookup_insert_eq|by rewrite length_insert|].
      replace (Z.to_nat (nblk v - 12)) with (length (fv_blocks v) - 12)%nat by lia.
      apply (array_snoc (fv_blocks v) ws 12 1024 b); [done|done|]. unfold MAX_BLOCKS in Hm. lia.
  - intros cb' Hl Hsm. assert (cb' ≠ cb) as Hne by (intros ->; destruct Hcb as [?|[_ E]]; [done|rewrite E in Hsm; by destruct Hsm]).
    rewrite lookup_insert_ne by done. by apply cs_old0.
  - intros cb' d Hd. destruct (decide (cb' = cb)) as [->|Hne].
    + rewrite lookup_insert_eq in Hd. injection Hd as <-. by left.
    + rewrite lookup_insert_ne in Hd by done. right. rewrite <- cs_old0 by done. split; [done|]. destruct Hcb as [E|[E _]]; congruence.
  - intros x Hx. apply own_grown in Hx as [Hx|[-> |[-> Hne]]]; [by left|right|right].
    + split; [|done]. rewrite cs_next0. destruct (nblk v =? 12); lia.
    + unfold next_ind in Hne |- *. rewrite cs_next0. destruct (nblk v =? 12); [|done]. split; [pose proof (mi_start _ _ Hi); lia|].
      intros q w Hw Hin. destruct (mi_range _ _ Hi q w _ Hw Hin); pose proof (mi_start _ _ Hi); lia.
  - apply nodup_grown; [by apply (mi_nodup _ _ Hi p)|done|..]; unfold next_ind; destruct (Z.eqb_spec (nblk v) 12) as [E|E].
    + lia.
    + intros ->. apply Hbo. apply ind_own. by destruct (sd_large _ _ _ S) as [? _]; [lia|].
    + right. split; [apply (sd_small _ _ _ S); lia|]. intros Hin. destruct (mi_range _ _ Hi p v _ Hv Hin); pose proof (mi_start _ _ Hi); lia.
    + by left.
  - apply cs_disk0.
  - rewrite cs_next0 in *. destruct (nblk v =? 12); lia.
  - rewrite cs_name0. apply Hi.
  - intros cb' Hsm. apply cs_h3. rewrite lookup_insert in Hsm. case_decide; [subst; by eexists|done].
  - intros h cb' Hin. rewrite lookup_insert. case_decide; [by eexists|]. by eapply cs_h4.
Qed.

Lemma append_block_ok s V p v size b :
  mk_inv s V → V !! p = Some v → nblk v < MAX_BLOCKS → 0 ≤ size ≤ 4096 → fv_size v + size < 2 ^ 32 →
  data_start (ninos s) ≤ b < next_ino s → fresh_block V b → (nblk v = 12 → next_ino s < ninos s) →
  ∃ s', append_block p size b s = Ok s' ∧ mk_inv s' (<[p := grown v size b (next_ind s v)]> V) ∧ same_disk s s' ∧
    next_ino s' = next_ino s + (if nblk v =? 12 then 1 else 0).
Proof.
  intros Hi Hv Hm Hs Hsz Hb Hf Hn.
  destruct (mi_inode _ _ Hi p v Hv) as (c & Hc & S).
  pose proof (mi_start _ _ Hi) as Hst. pose proof (mi_next _ _ Hi) as Hnx. pose proof (mi_max _ _ Hi) as Hmx.
  pose proof (mi_unused _ _ Hi) as Hun. pose proof (mi_blocks _ _ Hi) as Hsb.
  assert (0 ≤ nblk v) as Hn0 by (unfold nblk; lia).
  assert (NoDup (own_blocks v)) as Hnd by (by apply (mi_nodup _ _ Hi p)).
  assert (b ∉ own_blocks v) as Hbo by (by apply (Hf p)).
  assert (length (fv_blocks v) = Z.to_nat (nblk v)) as Elen by (unfold nblk; lia).
  unfold append_block, SFS_BLKSIZE. change SFS_L0_NBLKS with 12. change SFS_L1_NBLKS with MAX_BLOCKS.
  rewrite (proj2 (Z.ltb_ge 4096 size)) by lia. unfold get_ci at 1. rewrite Hc. cbn [deref bind]. rewrite (sd_nblks _ _ _ S).
  assert ((SFS_LN_NBLKS <=? nblk v) = false) as -> by (apply Z.leb_gt; change SFS_LN_NBLKS with 32768; unfold MAX_BLOCKS in Hm; lia).
  unfold next_ind. destruct (Z.ltb_spec (nblk v) 12) as [Hlt|Hge]; cbn [bind].
  - (* in the inode *)
    rewrite (proj2 (Z.eqb_neq (nblk v) 12)) by lia. destruct (sd_small _ _ _ S) as [E0 El]; [lia|].
    rewrite (append_end _ _ _ _ (lookup_insert_eq _ _ _)). eexists. split; [done|]. split; [|split; [by split|cbn; lia]].
    eapply inv_update; [exact Hi|exact Hv|exact Hc|cbn; apply insert_insert_eq| |done|done| |..]; try done; try (cbn; lia); try apply Hi.
    + apply (stands_grown (blocks s) _ c); try done; try lia; cbn [set_inode inode set_direct di_direct di_indirect di_size di_type di_nlinks di_blocks l1 nblks ci_ino real].
      * rewrite length_insert. apply S.
      * rewrite <- Elen. replace (length (fv_blocks v)) with (length (fv_blocks v) - 0)%nat by lia.
        apply (array_snoc (fv_blocks v) _ 0 12 b); [apply S|intros i Hi12; by apply S|unfold nblk in *; lia].
      * apply S.
    + intros cb d Hd. cbn in Hd. right. split; [done|]. congruence.
    + intros x Hx. apply own_grown in Hx as [Hx|[-> |[-> Hne]]]; [by left|right; split; [cbn; lia|done]|done].
    + apply nodup_grown; [done|done|rewrite E0; lia|by left].
  - rewrite (proj2 (Z.ltb_lt (nblk v) MAX_BLOCKS)) by done.
    destruct (append_numbered s V p v c size b) as (s1 & c1 & -> & E1 & Hi1 & Hd & Hnx1); [done..|]. cbn [bind].
    rewrite (append_end _ _ _ _ E1). eexists. split; [done|]. split; [exact Hi1|]. split; [by destruct Hd|exact Hnx1].
Qed.

(** ** The other steps *)

Definition bump (s : mk_fs) : mk_fs :=
  mkMk (img s) (mkSuper (sb_magic (sup s)) (sb_blocks (sup s)) (u32 (sb_unused_blocks (sup s) - 1)) (sb_info (sup s))) (ninos s) (next_ino s + 1)
    (inodes s) (inode_hash s) (blocks s) (block_hash s) (entry_name_buf s).

Lemma bump_inv s V : mk_inv s V → next_ino s < ninos s → mk_inv (bump s) V.
Proof.
  intros Hi Hn. pose proof (mi_start _ _ Hi). pose proof (mi_max _ _ Hi). pose proof (mi_unused _ _ Hi).
  destruct Hi. split; try done; cbn; try lia.
  - rewrite u32_small; lia.
  - intros p v b Hv Hb. destruct (mi_range0 p v b Hv Hb); [by left|right; lia].
Qed.

Lemma alloc_ino_ok s V : mk_inv s V → next_ino s < ninos s →
  sfs_alloc_ino s = Ok (next_ino s, bump s) ∧ mk_inv (bump s) V ∧ same_disk s (bump s) ∧ fresh_block V (next_ino s).
Proof.
  intros Hi Hn. unfold sfs_alloc_ino. rewrite (proj2 (Z.ltb_lt _ _) Hn). split; [done|]. split; [by apply bump_inv|]. split; [done|].
  intros p v Hv Hb. pose proof (mi_start _ _ Hi). destruct (mi_range _ _ Hi p v _ Hv Hb); lia.
Qed.

Lemma inv_img s V f : mk_inv s V → mk_inv (set_img f s) V.
Proof. by intros []. Qed.

Lemma inv_name s V l : mk_inv s V → length l = 256%nat → mk_inv (set_name_buf l s) V.
Proof. by intros [] Hl. Qed.

Definition pad (data : list Z) : list Z := data ++ replicate (4096 - length data) 0.

Lemma write_block_ok data b s : (length data ≤ 4096)%nat → b < ninos s → write_block data b s = Ok (set_img (put_blk b (pad data) (img s)) s).
Proof.
  intros Hl Hb. unfold write_block, SFS_BLKSIZE. rewrite (proj2 (Z.leb_le _ _)), (proj2 (Z.ltb_lt _ _)) by lia. done.
Qed.

Definition new_view (b rl ty : Z) : fview := mkFv b rl ty 0 0 [] 0.

Lemma stands_new B b rl ty : stands B (mkCi (mkDinode 0 ty 0 0 (replicate 12 0) 0) 0 rl b 0 None None) (new_view b rl ty).
Proof.
  split; cbn [inode ci_ino real nblks l1 di_type di_nlinks di_size di_blocks di_direct di_indirect new_view fv_ino fv_real fv_type fv_links fv_size fv_blocks fv_ind];
    try done; try lia; try (unfold nblk; cbn [new_view fv_blocks length]; unfold MAX_BLOCKS; lia).
  intros i Hi. by apply lookup_replicate_2.
Qed.

(** A new inode with its block, which may be that of the root. *)
Lemma inv_new s V p b rl ty h :
  mk_inv s V → inodes s !! p = None → fresh_block V b → b = 1 ∨ data_start (ninos s) ≤ b < next_ino s →
  h = hash64 rl →
  mk_inv (mkMk (img s) (sup s) (ninos s) (next_ino s)
    (<[p := mkCi (mkDinode 0 ty 0 0 (replicate 12 0) 0) 0 rl b 0 None None]> (inodes s))
    (<[h := p :: default [] (inode_hash s !! h)]> (inode_hash s)) (blocks s) (block_hash s) (entry_name_buf s)) (<[p := new_view b rl ty]> V).
Proof.
  intros Hi Hp Hf Hb ->.
  assert (V !! p = None) as HV.
  { destruct (V !! p) as [v|] eqn:E; [|done]. destruct (mi_inode _ _ Hi p v E) as (c & Ec & _). congruence. }
  assert (Hsplit : ∀ q w, <[p := new_view b rl ty]> V !! q = Some w → (q = p ∧ w = new_view b rl ty) ∨ (q ≠ p ∧ V !! q = Some w)).
  { intros q w. rewrite lookup_insert. case_decide; naive_solver. }
  assert (own_blocks (new_view b rl ty) = [b]) as Eo by done.
  pose proof Hi as [Hi1 Hi2 Hi3 Hi4 Hi5 Hi6 Hi7 Hi8 Hi9 Hi10 Hi11 Hi12 Hi13 Hi14 Hi15 Hi16].
  split; cbn [img sup ninos next_ino inodes inode_hash blocks block_hash entry_name_buf]; try done.
  - intros q w [[-> ->]|[Hne Hw]]%Hsplit; [rewrite lookup_insert_eq; eexists; split; [done|apply stands_new]|].
    rewrite lookup_insert_ne by done. by apply Hi6.
  - intros q. rewrite !lookup_insert. case_decide; [by eexists|]. apply Hi7.
  - intros q w x [[-> ->]|[Hne Hw]]%Hsplit Hx; [|by eapply Hi8]. rewrite Eo in Hx. apply list_elem_of_singleton in Hx as ->. done.
  - intros q w [[-> ->]|[Hne Hw]]%Hsplit; [rewrite Eo; apply NoDup_singleton|by apply (Hi9 q)].
  - intros q r w x y [[-> ->]|[Hne Hw]]%Hsplit [[-> ->]|[Hne' Hx]]%Hsplit Hbw Hbx; [done|..]; rewrite ?Eo in *.
    + apply list_elem_of_singleton in Hbw as ->. by destruct (Hf r x Hx).
    + apply list_elem_of_singleton in Hbx as ->. by destruct (Hf q w Hw).
    + by apply (Hi10 q r w x y).
  - intros cb d Hd. destruct (Hi11 cb d Hd) as (q & c & Eq & El & Ed). exists q, c. rewrite lookup_insert_ne; [done|]. intros <-. congruence.
  - intros q w [[-> ->]|[Hne Hw]]%Hsplit; cbn [fv_real new_view]; [rewrite lookup_insert_eq; left|].
    pose proof (Hi12 q w Hw) as Hin. rewrite lookup_insert. case_decide as E; [|done]. cbn. right. by rewrite E.
  - intros h q Hq. rewrite lookup_insert. case_decide; [by eexists|]. rewrite lookup_insert in Hq. case_decide; [|by eapply Hi13].
    cbn in Hq. apply elem_of_cons in Hq as [->|Hq]; [done|]. by eapply Hi13.
Qed.

Lemma alloc_inode_ok s V rl ty : mk_inv s V → next_ino s < ninos s →
  ∃ p s', alloc_cache_inode rl 0 ty s = Ok (p, s') ∧ mk_inv s' (<[p := new_view (next_ino s) rl ty]> V) ∧ V !! p = None ∧
    same_disk s s' ∧ next_ino s' = next_ino s + 1.
Proof.
  intros Hi Hn. destruct (alloc_ino_ok s V Hi Hn) as (E & Hi1 & Hd & Hf). unfold alloc_cache_inode. cbn [Z.eqb negb]. rewrite E. cbn [bind].
  cbv zeta. eexists _, _. split; [done|].
  assert (inodes (bump s) !! fresh (dom (inodes (bump s))) = None) as Hp by (apply not_elem_of_dom, is_fresh).
  split; [|split; [|done]].
  - apply inv_new; [done|done|done| |done]. right. pose proof (mi_start _ _ Hi). cbn. lia.
  - destruct (V !! fresh (dom (inodes (bump s)))) as [v|] eqn:EV; [|done].
    destruct (mi_inode _ _ Hi1 _ v EV) as (c & Ec & _). congruence.
Qed.

Definition linked (v : fview) : fview := mkFv (fv_ino v) (fv_real v) (fv_type v) ((fv_links v + 1) mod 2 ^ 16) (fv_size v) (fv_blocks v) (fv_ind v).

Lemma link_ok s V p v c : mk_inv s V → V !! p = Some v → inodes s !! p = Some c →
  mk_inv (put_ci p (set_inode (set_nlinks ((di_nlinks (inode c) + 1) mod 2 ^ 16) (inode c)) c) s) (<[p := linked v]> V).
Proof.
  intros Hi Hv Hc. destruct (mi_inode _ _ Hi p v Hv) as (c' & Ec & S). simplify_eq.
  pose proof (mi_unused _ _ Hi). pose proof (mi_next _ _ Hi).
  eapply inv_update; [exact Hi|exact Hv|exact Hc|reflexivity| |done|..]; cbn; try done; try lia; try apply Hi.
  - destruct S. split; try done; cbn; [by rewrite sd_links0|]. by apply Z.mod_pos_bound.
  - intros cb b Hb. destruct (mi_cache _ _ Hi cb b Hb) as (q & d & Eq & El & Ed).
    destruct (decide (q = p)) as [->|Hne]; [left; simplify_eq; done|right]. split; [done|]. intros Ec. apply Hne. by eapply cache_owner.
  - intros b Hb. by left.
  - exact (mi_nodup _ _ Hi p v Hv).
Qed.

Lemma find_inode_ok s V l rl : mk_inv s V → (∀ p, p ∈ l → is_Some (V !! p)) →
  ∃ o, find_inode l rl s = Ok o ∧ match o with
    | Some p => p ∈ l ∧ ∃ v, V !! p = Some v ∧ fv_real v = rl
    | None => ∀ p v, p ∈ l → V !! p = Some v → fv_real v ≠ rl
    end.
Proof.
  intros Hi. induction l as [|p l IH]; intros Hl; cbn [find_inode]; [exists None; split; [done|]; intros p v Hp; by apply not_elem_of_nil in Hp|].
  destruct (Hl p) as [v Hv]; [by left|]. destruct (mi_inode _ _ Hi p v Hv) as (c & Ec & S). unfold get_ci. rewrite Ec. cbn [deref bind].
  destruct (Z.eqb_spec (real c) rl) as [E|E].
  - exists (Some p). split; [done|]. split; [by left|]. exists v. split; [done|]. by rewrite <- (sd_real _ _ _ S).
  - destruct IH as (o & -> & Ho); [intros q Hq; apply Hl; by right|]. exists o. split; [done|]. destruct o as [q|].
    + destruct Ho as [Hq Hw]. split; [by right|done].
    + intros q w [->|Hq]%elem_of_cons Hw; [|by eapply Ho]. simplify_eq. by rewrite <- (sd_real _ _ _ S).
Qed.

Lemma search_inode_ok s V rl : mk_inv s V →
  ∃ o, search_cache_inode rl s = Ok o ∧ match o with
    | Some p => ∃ v, V !! p = Some v ∧ fv_real v = rl
    | None => ∀ p v, V !! p = Some v → fv_real v ≠ rl
    end.
Proof.
  intros Hi. unfold search_cache_inode.
  destruct (find_inode_ok s V (default [] (inode_hash s !! hash64 rl)) rl Hi) as (o & -> & Ho); [intros p; by apply (mi_ihash_dom _ _ Hi)|].
  exists o. split; [done|]. destruct o as [p|]; [by destruct Ho|]. intros p v Hv E. apply (Ho p v); [|done|done].
  rewrite <- E. by apply (mi_ihash _ _ Hi).
Qed.
