(* ===== verification/MksfsTree.v ===== *)
(** * What mksfs writes for a directory

    [shows n p]: the inode [p] and the blocks it owns hold the file, link or directory
    [n] of the host.  [read_entries] and [add_node] establish it for what they add and
    keep it for what is there. *)

From S2P Require Import Prelude Hash SfsDisk Sfs SfsMap SfsFile SfsDir Mksfs MksfsInv.

(** ** Steps *)

Definition full (s : mk_fs) : Prop := ∀ b, length (img s b) = 4096%nat.

(** Besides the files of [X], only the links of a file that was there change, and no block
    that was allocated; the new files have the inode numbers [R]. *)
Record ext (X : ptr → Prop) (R : Z → Prop) (s : mk_fs) (V : gmap ptr fview) (s' : mk_fs) (V' : gmap ptr fview) : Prop := {
  ex_inv : mk_inv s' V';
  ex_ninos : ninos s' = ninos s;
  ex_magic : sb_magic (sup s') = sb_magic (sup s);
  ex_info : sb_info (sup s') = sb_info (sup s);
  ex_next : next_ino s ≤ next_ino s';
  ex_full : full s → full s';
  ex_img b : b < next_ino s → img s' b = img s b;
  ex_view p v : V !! p = Some v → ∃ v', V' !! p = Some v' ∧ fv_ino v' = fv_ino v ∧ fv_real v' = fv_real v ∧ fv_type v' = fv_type v ∧
    (¬ X p → fv_blocks v' = fv_blocks v ∧ fv_size v' = fv_size v ∧ fv_ind v' = fv_ind v);
  ex_new p v : V' !! p = Some v → V !! p = None → R (fv_real v)
}.

Lemma ext_refl X R s V : mk_inv s V → ext X R s V s V.
Proof. intros Hi. split; try done; [intros p v Hv; by exists v|congruence]. Qed.

Lemma ext_trans X X1 X2 R s V s1 V1 s2 V2 :
  ext X1 R s V s1 V1 → ext X2 R s1 V1 s2 V2 → (∀ p, is_Some (V !! p) → X1 p ∨ X2 p → X p) → ext X R s V s2 V2.
Proof.
  intros [I1 N1 M1 F1 L1 U1 B1 V1' W1] [I2 N2 M2 F2 L2 U2 B2 V2' W2] HX. split; try congruence; try lia; try done.
  - auto.
  - intros b Hb. rewrite B2, B1 by lia. done.
  - intros p v Hv. destruct (V1' p v Hv) as (v1 & E1 & ? & ? & ? & K1). destruct (V2' p v1 E1) as (v2 & E2 & ? & ? & ? & K2).
    exists v2. split_and!; [done|congruence|congruence|congruence|]. intros Hn.
    destruct K1 as (? & ? & ?); [intros ?; apply Hn, HX; [by eexists|by left]|].
    destruct K2 as (? & ? & ?); [intros ?; apply Hn, HX; [by eexists|by right]|]. split_and!; congruence.
  - intros p v Hv Hn. destruct (V1 !! p) as [v1|] eqn:E1; [|by eapply W2].
    destruct (V2' p v1 E1) as (v2 & E2 & _ & Er & _). simplify_eq. rewrite Er. by eapply W1.
Qed.

Lemma ext_weaken X (R R' : Z → Prop) s V s' V' : ext X R s V s' V' → (∀ r, R r → R' r) → ext X R' s V s' V'.
Proof. intros [] HR. split; try done. eauto. Qed.

(** Room for the block of numbers that the file will need. *)
Definition pot (v : fview) : Z := if nblk v <=? 12 then 1 else 0.

Lemma pot_range v : 0 ≤ pot v ≤ 1.
Proof. unfold pot. destruct (_ <=? _); lia. Qed.

(** Allocating a block, writing it and appending it to a file. *)
Lemma add_block_ok s V p v data : mk_inv s V → V !! p = Some v → nblk v < MAX_BLOCKS → (length data ≤ 4096)%nat →
  fv_size v + Z.of_nat (length data) < 2 ^ 32 → next_ino s + pot v < ninos s →
  ∃ s1 s2 s3 ind, sfs_alloc_ino s = Ok (next_ino s, s1) ∧ write_block data (next_ino s) s1 = Ok s2 ∧
    append_block p (Z.of_nat (length data)) (next_ino s) s2 = Ok s3 ∧
    ext (λ q, q = p) (λ _, False) s V s3 (<[p := grown v (Z.of_nat (length data)) (next_ino s) ind]> V) ∧
    img s3 = put_blk (next_ino s) (pad data) (img s) ∧ next_ino s < next_ino s3 ∧
    next_ino s3 + pot (grown v (Z.of_nat (length data)) (next_ino s) ind) ≤ next_ino s + pot v + 1.
Proof.
  intros Hi Hv Hm Hd Hsz Hn. pose proof (pot_range v) as Hp. pose proof (mi_start _ _ Hi) as Hst.
  destruct (alloc_ino_ok s V Hi) as (E1 & Hi1 & Hd1 & Hf); [lia|].
  assert (next_ino s < ninos (bump s)) as Hlt by (cbn; lia).
  pose proof (write_block_ok data (next_ino s) (bump s) Hd Hlt) as E2.
  set (s2 := set_img (put_blk (next_ino s) (pad data) (img (bump s))) (bump s)) in *.
  assert (mk_inv s2 V) as Hi2 by (by apply inv_img).
  destruct (append_block_ok s2 V p v (Z.of_nat (length data)) (next_ino s)) as (s3 & E3 & Hi3 & [D1 D2 D3 D4] & Hn3); [done|done|done|lia|done|cbn; lia|done| |].
  { intros E. cbn. unfold pot in Hn. rewrite E in Hn. cbn in Hn. lia. }
  exists (bump s), s2, s3, (next_ind s2 v). split_and!; [done|done|done| |by rewrite D1| |].
  - split; [done|by rewrite D2|by rewrite D3|by rewrite D4|rewrite Hn3; cbn; destruct (_ =? _); lia| | | |].
    + intros Hfu b. rewrite D1. cbn. unfold put_blk. case_decide; [|done]. unfold pad. rewrite length_app, length_replicate. lia.
    + intros b Hb. rewrite D1. cbn. unfold put_blk. rewrite decide_False by lia. done.
    + intros q w Hq. rewrite lookup_insert. case_decide as E; [subst q; simplify_eq; eexists; split; [done|]|by exists w].
      split_and!; try done.
    + intros q w. rewrite lookup_insert. case_decide; [subst q|]; congruence.
  - rewrite Hn3. cbn. destruct (_ =? _); lia.
  - unfold pot. rewrite nblk_grown, Hn3. cbn. destruct (Z.eqb_spec (nblk v) 12), (Z.leb_spec (nblk v) 12), (Z.leb_spec (nblk v + 1) 12); lia.
Qed.

(** ** What a file holds *)

Definition vbytes (f : Z → list Z) (v : fview) : list Z := mjoin (f <$> fv_blocks v).
Definition vdata (f : Z → list Z) (v : fview) : list Z := take (Z.to_nat (fv_size v)) (vbytes f v).
Definition vnames (f : Z → list Z) (v : fview) : list (list Z * Z) :=
  (λ b, (entry_name (block_entry (f b)), de_ino (block_entry (f b)))) <$> fv_blocks v.

Lemma length_vbytes f v : (∀ b, length (f b) = 4096%nat) → length (vbytes f v) = (4096 * length (fv_blocks v))%nat.
Proof.
  intros Hf. unfold vbytes. induction (fv_blocks v) as [|b l IH]; [done|].
  change (mjoin (f <$> b :: l)) with (f b ++ mjoin (f <$> l)). rewrite length_app, Hf, IH. cbn [length]. lia.
Qed.

(** The blocks of a file were allocated before. *)
Lemma blocks_old s V p v b : mk_inv s V → V !! p = Some v → b ∈ fv_blocks v → b < next_ino s.
Proof.
  intros Hi Hv Hb. pose proof (mi_start _ _ Hi). destruct (mi_range _ _ Hi p v b Hv); [by apply block_own|lia|lia].
Qed.

Lemma fmap_old {A} (g : list Z → A) X R s V s' V' p v : mk_inv s V → ext X R s V s' V' → V !! p = Some v →
  (λ b, g (img s' b)) <$> fv_blocks v = (λ b, g (img s b)) <$> fv_blocks v.
Proof.
  intros Hi He Hv. apply list_fmap_ext. intros i b Hb. f_equal. apply (ex_img _ _ _ _ _ _ He). eapply blocks_old; [done|done|].
  by apply list_elem_of_lookup_2 in Hb.
Qed.

Lemma vdata_old X R s V s' V' p v v' : mk_inv s V → ext X R s V s' V' → V !! p = Some v →
  fv_blocks v' = fv_blocks v → fv_size v' = fv_size v → vdata (img s') v' = vdata (img s) v.
Proof. intros Hi He Hv Eb Es. unfold vdata, vbytes. rewrite Eb, Es. do 2 f_equal. by apply (fmap_old (λ l, l) X R s V s' V' p v). Qed.

Lemma vnames_old X R s V s' V' p v v' : mk_inv s V → ext X R s V s' V' → V !! p = Some v →
  fv_blocks v' = fv_blocks v → vnames (img s') v' = vnames (img s) v.
Proof.
  intros Hi He Hv Eb. unfold vnames. rewrite Eb. by apply (fmap_old (λ l, (entry_name (block_entry l), de_ino (block_entry l))) X R s V s' V' p v).
Qed.

(** ** Regular files and links *)

Definition nb (data : list Z) : Z := (Z.of_nat (length data) + 4095) / 4096.

Lemma nb_step (data : list Z) : data ≠ [] → nb data = 1 + nb (drop 4096 data).
Proof.
  intros Hne. unfold nb. rewrite length_drop. destruct (decide (length data < 4096)%nat) as [Hl|Hl].
  - assert (0 < length data)%nat by (destruct data; [done|cbn; lia]).
    replace (length data - 4096)%nat with 0%nat by lia. change ((Z.of_nat 0 + 4095) / 4096) with 0.
    symmetry. apply (Z.div_unique_pos _ _ _ (Z.of_nat (length data) - 1)); lia.
  - replace (Z.of_nat (length data) + 4095) with (Z.of_nat (length data - 4096) + 4095 + 1 * 4096) by lia. rewrite Z.div_add by lia. lia.
Qed.

Lemma nb_le data : nb data ≤ Z.of_nat (length data).
Proof. destruct data as [|x l]; [done|]. unfold nb. apply Z.div_le_upper_bound; cbn [length]; lia. Qed.

Lemma nb_nonneg data : 0 ≤ nb data.
Proof. apply Z.div_pos; lia. Qed.

(** The next block of a file whose blocks are full so far. *)
Lemma vdata_grown s s' v data ind : full s → img s' = put_blk (next_ino s) (pad data) (img s) →
  (∀ b, b ∈ fv_blocks v → b < next_ino s) → fv_size v = 4096 * nblk v → (length data ≤ 4096)%nat →
  vdata (img s') (grown v (Z.of_nat (length data)) (next_ino s) ind) = vdata (img s) v ++ data.
Proof.
  intros Hf Ei Hb Hs Hl. unfold vdata, vbytes. cbn [grown fv_size fv_blocks]. rewrite fmap_app, join_app.
  assert (img s' <$> fv_blocks v = img s <$> fv_blocks v) as ->.
  { apply list_fmap_ext. intros i b Hi. rewrite Ei. unfold put_blk. apply list_elem_of_lookup_2, Hb in Hi. rewrite decide_False by lia. done. }
  assert (mjoin (img s' <$> [next_ino s]) = pad data) as ->.
  { cbn. rewrite Ei, app_nil_r. unfold put_blk. by rewrite decide_True. }
  fold (vbytes (img s) v). pose proof (length_vbytes (img s) v Hf) as El. unfold nblk in Hs.
  rewrite take_app_ge by lia. rewrite (take_ge (vbytes (img s) v)) by lia.
  replace (Z.to_nat (fv_size v + Z.of_nat (length data)) - length (vbytes (img s) v))%nat with (length data) by lia.
  unfold pad. by rewrite take_app_length.
Qed.

Lemma open_file_ok n : ∀ data s V p v last, mk_inv s V → full s → V !! p = Some v → nb data ≤ Z.of_nat n →
  (data ≠ [] → last = 4096%nat ∧ fv_size v = 4096 * nblk v) → fv_size v ≤ 4096 * nblk v →
  nblk v + nb data ≤ MAX_BLOCKS → next_ino s + pot v + nb data ≤ ninos s →
  ∃ s' V' v', open_file n p data last s = Ok s' ∧ ext (λ q, q = p) (λ _, False) s V s' V' ∧ V' !! p = Some v' ∧
    vdata (img s') v' = vdata (img s) v ++ data ∧ fv_size v' ≤ 4096 * nblk v' ∧ next_ino s' + pot v' ≤ next_ino s + pot v + nb data.
Proof.
  induction n as [|n IH]; intros data s V p v last Hi Hfu Hv Hn Hlast Hsv Hm Hr; cbn [open_file].
  all: destruct data as [|x data]; [exists s, V, v; change (nb []) with 0; rewrite app_nil_r; split_and!; try done; [by apply ext_refl|lia]|].
  { pose proof (nb_step (x :: data) ltac:(done)). pose proof (nb_nonneg (drop 4096 (x :: data))). lia. }
  pose proof (nb_step (x :: data) ltac:(done)) as En. pose proof (nb_nonneg (drop 4096 (x :: data))) as Hnn.
  set (d := x :: data) in *. destruct (Hlast ltac:(done)) as [-> Es].
  assert (take 4096 d = x :: take 4095 data) as Et by done. rewrite Et, <- Et. cbv iota.
  assert (length (take 4096 d) ≤ 4096)%nat as Hl by (rewrite length_take; lia). unfold MAX_BLOCKS in *.
  destruct (add_block_ok s V p v (take 4096 d)) as (s1 & s2 & s3 & ind & -> & E2 & E3 & He & Eimg & Hlt & Hpot);
    [done|done|unfold MAX_BLOCKS; lia|done|unfold nblk in *; lia|lia|].
  change (Z.of_nat 4096 =? SFS_BLKSIZE) with true. cbn [negb bind]. rewrite E2. cbn [bind]. rewrite E3. cbn [bind].
  set (v1 := grown v (Z.of_nat (length (take 4096 d))) (next_ino s) ind) in *.
  assert (nblk v1 = nblk v + 1) as Ek by apply nblk_grown.
  destruct (IH (drop 4096 d) s3 (<[p := v1]> V) p v1 (length (take 4096 d))) as (s' & V' & v' & -> & He' & Hv' & Ed' & Hs' & Hp').
  - apply He.
  - by apply (ex_full _ _ _ _ _ _ He).
  - apply lookup_insert_eq.
  - lia.
  - intros Hne. assert (4096 < length d)%nat as Hlong by (apply dec_stable; intros Hnl; apply Hne, drop_ge; lia).
    rewrite length_take. split; [lia|]. rewrite Ek. cbn [v1 grown fv_size]. rewrite length_take. lia.
  - rewrite Ek. cbn [v1 grown fv_size]. lia.
  - lia.
  - rewrite (ex_ninos _ _ _ _ _ _ He). lia.
  - exists s', V', v'. split; [done|]. split; [eapply ext_trans; [exact He|exact He'|by intros q _ [?|?]]|]. split_and!; [done| |done|lia].
    rewrite Ed'. unfold v1. rewrite (vdata_grown s s3) by (done || (intros b; by eapply blocks_old)). by rewrite <- app_assoc, take_drop.
Qed.

Lemma open_link_ok s V p v data : mk_inv s V → full s → V !! p = Some v → fv_blocks v = [] → fv_size v = 0 → (length data < 4096)%nat →
  next_ino s + pot v < ninos s →
  ∃ s' V' v', open_link p data s = Ok s' ∧ ext (λ q, q = p) (λ _, False) s V s' V' ∧ V' !! p = Some v' ∧
    vdata (img s') v' = data ∧ fv_size v' ≤ 4096 * nblk v' ∧ next_ino s' + pot v' ≤ next_ino s + pot v + 1.
Proof.
  intros Hi Hfu Hv Eb Es Hl Hr. assert (nblk v = 0) as E0 by (unfold nblk; by rewrite Eb).
  destruct (add_block_ok s V p v data) as (s1 & s2 & s3 & ind & E1 & E2 & E3 & He & Eimg & Hlt & Hpot);
    [done|done|unfold MAX_BLOCKS; lia|lia|lia|lia|].
  unfold open_link. rewrite E1. cbn [bind]. rewrite take_ge by lia.
  rewrite (proj2 (Z.eqb_neq _ _)) by (unfold SFS_BLKSIZE; lia). rewrite E2. cbn [bind]. rewrite E3.
  eexists _, _, _. split; [done|]. split; [exact He|]. split; [apply lookup_insert_eq|]. split_and!; [| |exact Hpot].
  - rewrite (vdata_grown s s3) by (done || lia || (rewrite Eb; intros b Hb; by apply not_elem_of_nil in Hb)).
    unfold vdata, vbytes. rewrite Es. cbn [Z.to_nat take]. done.
  - rewrite nblk_grown. cbn [grown fv_size]. lia.
Qed.

(** ** Entries *)

Definition clean_name (name : list Z) : Prop := (length name ≤ 252)%nat ∧ Forall (λ c, c ≠ 0) name.

Lemma c_string_app name l : Forall (λ c, c ≠ 0) name → c_string (name ++ 0 :: l) = name.
Proof. induction 1 as [|c name Hc _ IH]; [done|]. cbn. rewrite (proj2 (Z.eqb_neq c 0) Hc). by rewrite IH. Qed.

Lemma c_string_at name l : take (length name) l = name → l !! length name = Some 0 → Forall (λ c, c ≠ 0) name → c_string l = name.
Proof.
  intros Et El Hn. rewrite <- (take_drop_middle l (length name) 0 El), Et. by apply c_string_app.
Qed.

(** Of the 260 bytes of an entry 256 are written, so four characters less fit. *)
Lemma written_entry ino name old : clean_name name → is_u32 ino → length old = 256%nat →
  let b := pad (take 256 (encode_entry (mkEntry ino (name ++ 0 :: drop (length name + 1) old)))) in
  entry_name (block_entry b) = name ∧ de_ino (block_entry b) = ino.
Proof.
  intros [Hl Hn] Hi Ho. cbv zeta. set (buf := name ++ 0 :: drop (length name + 1) old).
  assert (length buf = 256%nat) as Eb by (unfold buf; rewrite length_app; cbn [length]; rewrite length_drop; lia).
  assert (pad (take 256 (encode_entry (mkEntry ino buf))) = le_bytes 4 ino ++ take 252 buf ++ replicate 3840 0) as ->.
  { unfold encode_entry. cbn [de_ino de_name]. rewrite take_app_ge by (rewrite length_le_bytes; lia). rewrite length_le_bytes.
    change (256 - 4)%nat with 252%nat. unfold pad. rewrite length_app, length_take, length_le_bytes, Eb. by rewrite <- app_assoc. }
  unfold block_entry, decode_entry, entry_name. cbn [de_ino de_name]. split; [|by apply field_le].
  rewrite (drop_app_length' (le_bytes 4 ino)) by (by rewrite length_le_bytes).
  apply c_string_at; [| |done].
  - rewrite take_insert_ge by lia. rewrite take_take, take_app_le by (rewrite length_take; lia). rewrite take_take.
    replace (Nat.min (Nat.min (length name) 256) 252) with (length name) by lia. unfold buf. by rewrite take_app_length.
  - rewrite list_lookup_insert_ne by lia. rewrite lookup_take_lt by lia.
    destruct (decide (length name < 252)%nat) as [Hlt|Hge].
    + rewrite lookup_app_l by (rewrite length_take; lia). rewrite lookup_take_lt by lia. unfold buf. by rewrite lookup_app_r, Nat.sub_diag.
    + rewrite lookup_app_r by (rewrite length_take; lia). apply lookup_replicate_2. rewrite length_take. lia.
Qed.

Lemma vnames_grown s s' v data ind : img s' = put_blk (next_ino s) (pad data) (img s) → (∀ b, b ∈ fv_blocks v → b < next_ino s) →
  ∀ size, vnames (img s') (grown v size (next_ino s) ind) =
    vnames (img s) v ++ [(entry_name (block_entry (pad data)), de_ino (block_entry (pad data)))].
Proof.
  intros Ei Hb size. unfold vnames. cbn [grown fv_blocks]. rewrite fmap_app. f_equal.
  - apply list_fmap_ext. intros i b Hi. rewrite Ei. unfold put_blk. apply list_elem_of_lookup_2, Hb in Hi. rewrite decide_False by lia. done.
  - cbn. rewrite Ei. unfold put_blk. by rewrite decide_True.
Qed.

Lemma ext_name X R s V s' V' l : ext X R (set_name_buf l s) V s' V' → ext X R s V s' V'.
Proof. by intros []. Qed.

Lemma ext_link X R s V s' V' p v c : ext X R s V s' V' → V' !! p = Some v → inodes s' !! p = Some c →
  ext X R s V (put_ci p (set_inode (set_nlinks ((di_nlinks (inode c) + 1) mod 2 ^ 16) (inode c)) c) s') (<[p := linked v]> V').
Proof.
  intros [I N M F L U B W K] Hv Hc. split; try done; [by apply link_ok|..].
  - intros q w Hw. destruct (W q w Hw) as (w' & E & ? & ? & ? & ?). rewrite lookup_insert. case_decide; [subst q|by exists w'].
    simplify_eq. by exists (linked v).
  - intros q w. rewrite lookup_insert. case_decide as E; [subst q|by apply K]. intros [= <-] Hn. by apply (K p v).
Qed.

Lemma add_entry_ok s V cur p v w name : mk_inv s V → V !! cur = Some v → V !! p = Some w → fv_type v = SFS_TYPE_DIR → clean_name name →
  nblk v < MAX_BLOCKS → fv_size v = 256 * nblk v → next_ino s + pot v < ninos s →
  ∃ s' V' v', add_entry cur p name s = Ok s' ∧ ext (λ q, q = cur) (λ _, False) s V s' V' ∧ V' !! cur = Some v' ∧
    vnames (img s') v' = vnames (img s) v ++ [(name, fv_ino w)] ∧ nblk v' = nblk v + 1 ∧ fv_size v' = 256 * nblk v' ∧
    next_ino s' + pot v' ≤ next_ino s + pot v + 1 ∧ next_ino s < next_ino s'.
Proof.
  intros Hi Hv Hw Ht Hcl Hm Hs Hr. pose proof Hcl as [Hl _].
  destruct (mi_inode _ _ Hi cur v Hv) as (c & Ec & Sc). destruct (mi_inode _ _ Hi p w Hw) as (d & Ed & Sd).
  unfold add_entry, get_ci. rewrite Ec. cbn [deref bind]. rewrite (sd_type _ _ _ Sc), Ht, (proj2 (Z.leb_le _ _)) by (unfold SFS_MAX_FNAME_LEN; lia).
  change (SFS_TYPE_DIR =? SFS_TYPE_DIR) with true. cbn [andb]. rewrite Ed. cbn [deref bind]. cbv zeta. rewrite (sd_ino _ _ _ Sd).
  set (buf := name ++ 0 :: drop (length name + 1) (entry_name_buf s)). set (s0 := set_name_buf buf s).
  assert (length buf = 256%nat) as Eb.
  { unfold buf. rewrite length_app. cbn [length]. rewrite length_drop, (mi_name _ _ Hi). lia. }
  assert (mk_inv s0 V) as Hi0 by (by apply inv_name).
  set (data := take 256 (encode_entry (mkEntry (fv_ino w) buf))).
  assert (length data = 256%nat) as El by (unfold data; rewrite length_take, (length_encode_entry (mkEntry _ buf)) by done; done).
  unfold MAX_BLOCKS in Hm.
  destruct (add_block_ok s0 V cur v data) as (s1 & s2 & s3 & ind & E1 & E2 & E3 & He & Eimg & Hlt & Hpot);
    [done|done|unfold MAX_BLOCKS; lia|lia|lia|exact Hr|].
  rewrite El in *. change (Z.of_nat 256) with 256 in *. rewrite E1. cbn [bind]. rewrite E2. cbn [bind]. rewrite E3. cbn [bind].
  change (next_ino s0) with (next_ino s) in *.
  set (v1 := grown v 256 (next_ino s) ind) in *. set (V1 := <[cur := v1]> V) in *.
  assert (∃ w1, V1 !! p = Some w1 ∧ (p = cur → w1 = v1)) as (w1 & Ew1 & Hw1).
  { unfold V1. destruct (decide (p = cur)) as [->|Hne]; [exists v1; by rewrite lookup_insert_eq|exists w; by rewrite lookup_insert_ne]. }
  destruct (mi_inode _ _ (ex_inv _ _ _ _ _ _ He) p w1 Ew1) as (d1 & Ed1 & _). rewrite Ed1. cbn [deref bind].
  pose proof (ext_link _ _ _ _ _ _ p w1 d1 (ext_name _ _ _ _ _ _ _ He) Ew1 Ed1) as He'.
  assert (∃ v', <[p := linked w1]> V1 !! cur = Some v' ∧ fv_blocks v' = fv_blocks v1 ∧ fv_size v' = fv_size v1) as (v' & Ev' & Eb' & Es').
  { destruct (decide (p = cur)) as [->|Hne]; [exists (linked w1); rewrite lookup_insert_eq, Hw1 by done; done|].
    exists v1. rewrite lookup_insert_ne by done. unfold V1. by rewrite lookup_insert_eq. }
  assert (nblk v' = nblk v + 1) as En by (unfold nblk; rewrite Eb'; apply (nblk_grown v 256 (next_ino s) ind)).
  assert (is_u32 (fv_ino w)) as Hu.
  { pose proof (mi_start _ _ Hi). pose proof (mi_next _ _ Hi). pose proof (mi_max _ _ Hi). unfold is_u32.
    destruct (mi_range _ _ Hi p w (fv_ino w) Hw); [by left|lia|lia]. }
  eexists _, _, v'. split; [done|]. split; [exact He'|]. split; [exact Ev'|]. split_and!; [|done| | |].
  - unfold vnames at 1. rewrite Eb'. fold (vnames (img s3) v1). cbn [put_ci set_inodes img].
    etransitivity; [exact (vnames_grown s0 s3 v data ind Eimg (λ b, blocks_old s V cur v b Hi Hv) 256)|].
    pose proof (written_entry (fv_ino w) name (entry_name_buf s) Hcl Hu (mi_name _ _ Hi)) as Hwe. cbv zeta in Hwe. fold buf data in Hwe.
    destruct Hwe as [-> ->]. done.
  - rewrite Es', En. cbn [v1 grown fv_size]. lia.
  - unfold pot in Hpot |- *. rewrite En. unfold v1 in Hpot. rewrite nblk_grown in Hpot. exact Hpot.
  - exact Hlt.
Qed.

(** ** Directories of the host *)

Definition is_other (n : node) : bool := match n with Other _ => true | _ => false end.

(** The entries that get into the image. *)
Definition listed (name : list Z) (n : node) : bool := negb (skipped name) && negb (is_other n).

(** The inode numbers of directories, and all inode numbers. *)
Fixpoint dirs_of (n : node) : list Z := match n with Dir r es => r :: dirs es | _ => [] end
with dirs (es : dirents) : list Z :=
  match es with Dnil => [] | Dcons name n rest => (if listed name n then dirs_of n else []) ++ dirs rest end.

Fixpoint reals_of (n : node) : list Z :=
  match n with Reg r _ => [r] | Lnk r _ => [r] | Dir r es => r :: reals es | Other _ => [] end
with reals (es : dirents) : list Z :=
  match es with Dnil => [] | Dcons name n rest => (if listed name n then reals_of n else []) ++ reals rest end.

Fixpoint count (es : dirents) : Z :=
  match es with Dnil => 0 | Dcons name n rest => (if listed name n then 1 else 0) + count rest end.

(** Blocks that suffice: an inode, its data, a block of numbers, an entry. *)
Fixpoint cost_of (n : node) : Z :=
  match n with Reg _ c => 3 + nb c | Lnk _ _ => 4 | Dir _ es => 5 + cost es | Other _ => 0 end
with cost (es : dirents) : Z :=
  match es with Dnil => 0 | Dcons name n rest => (if listed name n then cost_of n else 0) + cost rest end.

(** What the kernel can hold, and what a file system of the host guarantees: [fc] is the
    content of the regular file of a number, and no directory comes twice. *)
Fixpoint node_ok (fc : Z → option (list Z)) (n : node) : Prop :=
  match n with
  | Reg r c => fc r = Some c ∧ nb c ≤ MAX_BLOCKS
  | Lnk r t => fc r = None ∧ (length t < 4096)%nat
  | Dir r es => fc r = None ∧ r ∉ dirs es ∧ count es + 2 ≤ MAX_BLOCKS ∧ dirents_ok fc es
  | Other _ => True
  end
with dirents_ok (fc : Z → option (list Z)) (es : dirents) : Prop :=
  match es with
  | Dnil => True
  | Dcons name n rest =>
      (if listed name n then clean_name name ∧ node_ok fc n ∧ (∀ r, r ∈ reals_of n → r ∉ dirs rest)
       else (length name ≤ 255)%nat) ∧ dirents_ok fc rest
  end.

Lemma cost_nonneg es : 0 ≤ cost es
with cost_of_nonneg n : 0 ≤ cost_of n.
Proof.
  - destruct es as [|name n rest]; cbn; [lia|]. pose proof (cost_nonneg rest). pose proof (cost_of_nonneg n). destruct (listed name n); lia.
  - destruct n as [r c|r t|r es|r]; cbn; [pose proof (nb_nonneg c); lia|lia|pose proof (cost_nonneg es); lia|lia].
Qed.

Lemma entry_count_nonneg es : 0 ≤ count es.
Proof. induction es as [|name n rest IH]; cbn; [lia|]. destruct (listed name n); lia. Qed.

(** ** What the caches and the image hold *)

Section shows.
Context (F : ptr → Prop) (V : gmap ptr fview) (f : Z → list Z).

(** [p] is a finished file that holds [n]; [up] is the inode number of the directory it
    is in. *)
Fixpoint shows (n : node) (p : ptr) (up : Z) : Prop :=
  F p ∧ ∃ v, V !! p = Some v ∧
    match n with
    | Reg _ c => fv_type v = SFS_TYPE_FILE ∧ fv_size v ≤ 4096 * nblk v ∧ vdata f v = c
    | Lnk _ t => fv_type v = SFS_TYPE_LINK ∧ fv_size v ≤ 4096 * nblk v ∧ vdata f v = t
    | Dir _ es => fv_type v = SFS_TYPE_DIR ∧
        ∃ l, vnames f v = (DOT, fv_ino v) :: (DOTDOT, up) :: l ∧ shows_all es l (fv_ino v)
    | Other _ => False
    end
with shows_all (es : dirents) (l : list (list Z * Z)) (ino : Z) : Prop :=
  match es with
  | Dnil => l = []
  | Dcons name n rest =>
      if listed name n then
        ∃ p v l', V !! p = Some v ∧ l = (name, fv_ino v) :: l' ∧ shows n p ino ∧ shows_all rest l' ino
      else shows_all rest l ino
  end.
End shows.

(** Finished files that do not change still hold what they held. *)
Lemma shows_mono F F' X R s V s' V' :
  mk_inv s V → ext X R s V s' V' → (∀ p, F p → ¬ X p) → (∀ p, F p → F' p) →
  ∀ n p up, shows F V (img s) n p up → shows F' V' (img s') n p up
with shows_all_mono F F' X R s V s' V' :
  mk_inv s V → ext X R s V s' V' → (∀ p, F p → ¬ X p) → (∀ p, F p → F' p) →
  ∀ es l ino, shows_all F V (img s) es l ino → shows_all F' V' (img s') es l ino.
Proof.
  - intros Hi He HX HF n p up Hs. 
    destruct n as [r c|r t|r es|r]; destruct Hs as (Hp & v & Hv & Hn); (split; [by apply HF|]).
    all: destruct (ex_view _ _ _ _ _ _ He p v Hv) as (v' & Hv' & Ei & _ & Et & Hsame); destruct (Hsame (HX p Hp)) as (Eb & Es & _); exists v'; (split; [done|]).
    + rewrite Et, (vdata_old _ _ _ _ _ _ p v v' Hi He Hv Eb Es), Es. unfold nblk. rewrite Eb. exact Hn.
    + rewrite Et, (vdata_old _ _ _ _ _ _ p v v' Hi He Hv Eb Es), Es. unfold nblk. rewrite Eb. exact Hn.
    + destruct Hn as (Ht & l & El & Hl). rewrite Et. split; [done|]. exists l. rewrite (vnames_old _ _ _ _ _ _ p v v' Hi He Hv Eb), Ei.
      split; [done|]. by eapply shows_all_mono.
    + done.
  - intros Hi He HX HF es. destruct es as [|name n rest]; intros l ino Hs; cbn in *; [done|].
    destruct (listed name n); [|by eapply shows_all_mono]. destruct Hs as (p & v & l' & Hv & -> & Hn & Hr).
    destruct (ex_view _ _ _ _ _ _ He p v Hv) as (v' & Hv' & Ei & _). exists p, v', l'. rewrite Ei. split_and!; [done|done|by eapply shows_mono|by eapply shows_all_mono].
Qed.

Lemma shows_all_app F V f name n rest l1 l2 ino :
  shows_all F V f (Dcons name n Dnil) l1 ino → shows_all F V f rest l2 ino → shows_all F V f (Dcons name n rest) (l1 ++ l2) ino.
Proof.
  cbn. destruct (listed name n); [|by intros -> ?]. intros (p & v & l' & Hv & -> & Hn & ->) Hr. exists p, v, l2. done.
Qed.

(** ** Adding entries *)

Section tree.
Context (fc : Z → option (list Z)).

(** [F] are the finished files; a regular file is known by its inode number as soon as it
    is finished. *)
Record ws (s : mk_fs) (V : gmap ptr fview) (F : ptr → Prop) : Prop := {
  ws_inv : mk_inv s V;
  ws_full : full s;
  ws_dom p : F p → is_Some (V !! p);
  ws_known p v c : V !! p = Some v → fc (fv_real v) = Some c →
    F p ∧ fv_type v = SFS_TYPE_FILE ∧ fv_size v ≤ 4096 * nblk v ∧ vdata (img s) v = c
}.

(** The directory [cur] is not finished, there are [k] blocks and it can have [m] more entries. *)
Record ready (cur : ptr) (s : mk_fs) (V : gmap ptr fview) (F : ptr → Prop) (v : fview) (k m : Z) : Prop := {
  rd_ws : ws s V F;
  rd_cur : V !! cur = Some v;
  rd_type : fv_type v = SFS_TYPE_DIR;
  rd_open : ¬ F cur;
  rd_size : fv_size v = 256 * nblk v;
  rd_max : nblk v + m ≤ MAX_BLOCKS;
  rd_room : next_ino s + pot v + k ≤ ninos s
}.

(** [l] was added to the directory [cur], with at most [k] blocks. *)
Record adds (R : Z → Prop) (cur : ptr) (s : mk_fs) (V : gmap ptr fview) (F : ptr → Prop) (v : fview) (l : list (list Z * Z)) (k : Z)
    (s' : mk_fs) (V' : gmap ptr fview) (F' : ptr → Prop) (v' : fview) : Prop := {
  ad_ext : ext (λ q, q = cur) R s V s' V';
  ad_ws : ws s' V' F';
  ad_cur : V' !! cur = Some v';
  ad_F p : F p → F' p;
  ad_new p : F' p → F p ∨ V !! p = None;
  ad_names : vnames (img s') v' = vnames (img s) v ++ l;
  ad_size : fv_size v' = 256 * nblk v';
  ad_room : next_ino s' + pot v' ≤ next_ino s + pot v + k
}.

Lemma ws_ext X s V F s' V' : ws s V F → ext X (λ _, False) s V s' V' → (∀ p, F p → ¬ X p) → ws s' V' F.
Proof.
  intros [Hi Hfu Hd Hk] He HX. split; [apply He|by apply (ex_full _ _ _ _ _ _ He)|..].
  - intros p Hp. destruct (Hd p Hp) as [v Hv]. destruct (ex_view _ _ _ _ _ _ He p v Hv) as (v' & ? & _). by exists v'.
  - intros p v' c Hv' Hc. destruct (V !! p) as [v|] eqn:Hv; [|by destruct (ex_new _ _ _ _ _ _ He p v' Hv' Hv)].
    destruct (ex_view _ _ _ _ _ _ He p v Hv) as (v2 & E & _ & Er & Et & Hs). simplify_eq. rewrite Er in Hc.
    destruct (Hk p v c Hv Hc) as (Hp & ? & ? & ?). destruct (Hs (HX p Hp)) as (Eb & Es & _).
    rewrite Et, (vdata_old _ _ _ _ _ _ p v v' Hi He Hv Eb Es), Es. unfold nblk. rewrite Eb. done.
Qed.

Lemma ws_more s V F p : ws s V F → is_Some (V !! p) → ws s V (λ q, F q ∨ q = p).
Proof. intros [Hi Hfu Hd Hk] Hp. split; [done|done|intros q [?| ->]; auto|]. intros q v c Hv Hc. destruct (Hk q v c Hv Hc). auto. Qed.

(** What is there when an inode has been allocated. *)
Lemma alloc_ext s V rl ty : mk_inv s V → next_ino s < ninos s →
  ∃ p s', alloc_cache_inode rl 0 ty s = Ok (p, s') ∧ V !! p = None ∧ ext (λ _, False) (λ r, r = rl) s V s' (<[p := new_view (next_ino s) rl ty]> V) ∧
    next_ino s' = next_ino s + 1.
Proof.
  intros Hi Hn. destruct (alloc_inode_ok s V rl ty Hi Hn) as (p & s' & E & Hi' & Hp & [D1 D2 D3 D4] & Hn'). exists p, s'.
  split_and!; [done|done| |done]. split; [done|done|done|done|lia|intros Hf b; by rewrite D1|intros b _; by rewrite D1|..].
  - intros q v Hv. exists v. rewrite lookup_insert_ne by congruence. done.
  - intros q v. rewrite lookup_insert. case_decide; [by intros [= <-]|congruence].
Qed.

Lemma ws_alloc s V F s1 p b rl ty R : ws s V F → V !! p = None → fc rl = None → ext (λ _, False) R s V s1 (<[p := new_view b rl ty]> V) →
  ws s1 (<[p := new_view b rl ty]> V) F.
Proof.
  intros [Hi Hfu Hd Hk] Hp Hfc He. split; [apply He|by apply (ex_full _ _ _ _ _ _ He)|..].
  - intros q Hq. rewrite lookup_insert. case_decide; [by eexists|by apply Hd].
  - intros q v c. rewrite lookup_insert. case_decide as E; [intros [= <-]; cbn; congruence|]. intros Hv Hc.
    destruct (Hk q v c Hv Hc) as (? & ? & ? & ?). by rewrite (vdata_old _ _ _ _ _ _ q v v Hi He Hv eq_refl eq_refl).
Qed.

(** The end of every addition: the file [p], finished and perhaps new, gets its entry. *)
Lemma link_entry R n p w name cur s V F v k s1 V1 F1 :
  ready cur s V F v k 1 → listed name n = true → clean_name name →
  ext (λ _, False) R s V s1 V1 → ws s1 V1 F1 → (∀ q, F q → F1 q) → (∀ q, F1 q → F q ∨ V !! q = None) →
  next_ino s1 < next_ino s + k → V1 !! p = Some w → shows F1 V1 (img s1) n p (fv_ino v) →
  ∃ s' V' v', add_entry cur p name s1 = Ok s' ∧ adds R cur s V F v [(name, fv_ino w)] k s' V' F1 v' ∧
    shows_all F1 V' (img s') (Dcons name n Dnil) [(name, fv_ino w)] (fv_ino v).
Proof.
  intros [[Hi Hfu Hd Hk] Hv Ht Ho Hs Hm Hr] Hli Hcl He Hw HF HnF Hnx Hp Hsh.
  destruct (ex_view _ _ _ _ _ _ He cur v Hv) as (v1 & Hv1 & Ei & _ & Et & Hsame). destruct Hsame as (Eb & Es & _); [by intros []|].
  assert (nblk v1 = nblk v) as En by (unfold nblk; by rewrite Eb).
  assert (pot v1 = pot v) as Ep by (unfold pot; by rewrite En).
  assert (¬ F1 cur) as Ho1 by (intros [?|?]%HnF; [done|congruence]).
  pose proof (ex_ninos _ _ _ _ _ _ He) as Eni.
  destruct (add_entry_ok s1 V1 cur p v1 w name) as (s' & V' & v' & E & He' & Hv' & Hnames & Hnb & Hsz & Hroom & _);
    [apply Hw|done|done|congruence|done|lia|congruence|lia|].
  exists s', V', v'. split; [done|].
  assert (ws s' V' F1) as Hw' by (eapply ws_ext; [done|done|intros q Hq ->; done]).
  split.
  - split; try done; [|rewrite Hnames; f_equal; by apply (vnames_old _ _ _ _ _ _ cur v v1 Hi He Hv Eb)|lia].
    eapply ext_trans; [exact He|eapply ext_weaken; [exact He'|by intros ? []]|]. intros q _ [[]|?]; done.
  - cbn. rewrite Hli. destruct (ex_view _ _ _ _ _ _ He' p w Hp) as (w' & Hw2 & Ei' & _). exists p, w', [].
    rewrite Ei'. split_and!; [done|done| |done]. eapply shows_mono; [apply Hw|exact He'|intros q Hq ->; done|done|exact Hsh].
Qed.

(** What the induction shows for a node, and for the entries of a directory. *)
Definition node_added (n : node) : Prop := ∀ s V F cur v name,
  ready cur s V F v (cost_of n) 1 → listed name n = true → clean_name name → node_ok fc n →
  (∀ p w, V !! p = Some w → fv_real w ∉ dirs_of n) →
  ∃ s' V' F' v' l, add_node n cur name s = Ok s' ∧ adds (λ r, r ∈ reals_of n) cur s V F v l (cost_of n) s' V' F' v' ∧
    shows_all F' V' (img s') (Dcons name n Dnil) l (fv_ino v).

Definition dirents_added (es : dirents) : Prop := ∀ s V F cur v,
  ready cur s V F v (cost es) (count es) → dirents_ok fc es → (∀ p w, V !! p = Some w → fv_real w ∉ dirs es) →
  ∃ s' V' F' v' l, read_entries es cur s = Ok s' ∧ adds (λ r, r ∈ reals es) cur s V F v l (cost es) s' V' F' v' ∧
    shows_all F' V' (img s') es l (fv_ino v).

Lemma file_added r c : node_added (Reg r c).
Proof.
  intros s V F cur v name Hrd Hli Hcl [Hfc Hnb] _. pose proof Hrd as [Hw Hv Ht Ho Hs Hm Hr]. pose proof Hw as [Hi Hfu Hd Hk].
  cbn [cost_of] in Hr. pose proof (nb_nonneg c). pose proof (pot_range v). cbn [add_node]. unfold add_file.
  destruct (search_inode_ok s V r Hi) as (o & -> & Hso). cbn [bind]. destruct o as [p|].
  - destruct Hso as (w & Hp & Er). cbn [bind]. destruct (Hk p w c Hp) as (HFp & Hty & Hsz & Hda); [by rewrite Er|].
    destruct (link_entry (λ q, q ∈ reals_of (Reg r c)) (Reg r c) p w name cur s V F v (cost_of (Reg r c)) s V F) as (s' & V' & v' & E & Ha & Hsh);
      [done|done|done|by apply ext_refl|done|done|by left|cbn; lia|done|cbn; by eauto 10|].
    eexists _, _, _, _, _. done.
  - destruct (alloc_ext s V r SFS_TYPE_FILE Hi) as (p & s1 & E1 & Hp & He1 & Hn1); [lia|]. rewrite E1. cbn [bind].
    assert (pot (new_view (next_ino s) r SFS_TYPE_FILE) = 1) as Epn by done.
    destruct (open_file_ok (length c) c s1 (<[p := new_view (next_ino s) r SFS_TYPE_FILE]> V) p (new_view (next_ino s) r SFS_TYPE_FILE) 4096%nat)
      as (s2 & V2 & v2 & E2 & He2 & Hv2 & Hda & Hsz & Hroom);
      [apply He1|by apply (ex_full _ _ _ _ _ _ He1)|apply lookup_insert_eq|apply nb_le|done|done|unfold nblk; cbn; lia
      |rewrite (ex_ninos _ _ _ _ _ _ He1); lia|].
    rewrite E2. cbn [bind].
    assert (ext (λ _, False) (λ q, q ∈ reals_of (Reg r c)) s V s2 V2) as He.
    { eapply ext_trans; [eapply ext_weaken; [exact He1|intros ? ->; left]|eapply ext_weaken; [exact He2|by intros ? []]|].
      intros q [w Hq] [[]|Eq]. congruence. }
    destruct (ex_view _ _ _ _ _ _ He2 p _ (lookup_insert_eq _ _ _)) as (v2' & Hv2' & _ & Er & Ety & _). assert (v2' = v2) as -> by congruence.
    assert (ws s2 V2 (λ q, F q ∨ q = p)) as Hw2.
    { split; [apply He|by apply (ex_full _ _ _ _ _ _ He)|..].
      - intros q [Hq| ->]; [|by eexists]. destruct (Hd q Hq) as [w Hwq]. destruct (ex_view _ _ _ _ _ _ He q w Hwq) as (w' & ? & _). by exists w'.
      - intros q w c' Hq Hc'. destruct (decide (q = p)) as [->|Hne].
        + simplify_eq. rewrite Er in Hc'. cbn in Hc'. simplify_eq. split_and!; [by right|done|done|done].
        + destruct (V !! q) as [w0|] eqn:Hq0.
          * destruct (ex_view _ _ _ _ _ _ He q w0 Hq0) as (w' & E & _ & Er' & Et' & Hsame). simplify_eq. rewrite Er' in Hc'.
            destruct (Hk q w0 c' Hq0 Hc') as (? & ? & ? & ?). destruct Hsame as (Eb & Es & _); [by intros []|].
            rewrite Et', (vdata_old _ _ _ _ _ _ q w0 w Hi He Hq0 Eb Es), Es. unfold nblk. rewrite Eb. auto.
          * destruct (ex_new _ _ _ _ _ _ He2 q w Hq). by rewrite lookup_insert_ne. }
    destruct (link_entry (λ q, q ∈ reals_of (Reg r c)) (Reg r c) p v2 name cur s V F v (cost_of (Reg r c)) s2 V2 (λ q, F q ∨ q = p))
      as (s' & V' & v' & E & Ha & Hsh); [done|done|done|exact He|exact Hw2|by left|intros q [?| ->]; auto| |done| |].
    + cbn [cost_of]. pose proof (pot_range v2). lia.
    + cbn. split; [by right|]. exists v2. done.
    + eexists _, _, _, _, _. done.
Qed.

Lemma link_added r t : node_added (Lnk r t).
Proof.
  intros s V F cur v name Hrd Hli Hcl [Hfc Hlt] _. pose proof Hrd as [Hw Hv Ht Ho Hs Hm Hr]. pose proof Hw as [Hi Hfu Hd Hk].
  cbn [cost_of] in Hr. pose proof (pot_range v). cbn [add_node]. unfold add_link.
  destruct (alloc_ext s V r SFS_TYPE_LINK Hi) as (p & s1 & E1 & Hp & He1 & Hn1); [lia|]. rewrite E1. cbn [bind].
  assert (pot (new_view (next_ino s) r SFS_TYPE_LINK) = 1) as Epn by done.
  destruct (open_link_ok s1 (<[p := new_view (next_ino s) r SFS_TYPE_LINK]> V) p (new_view (next_ino s) r SFS_TYPE_LINK) t)
    as (s2 & V2 & v2 & E2 & He2 & Hv2 & Hda & Hsz & Hroom);
    [apply He1|by apply (ex_full _ _ _ _ _ _ He1)|apply lookup_insert_eq|done|done|done|rewrite (ex_ninos _ _ _ _ _ _ He1); lia|].
  rewrite E2. cbn [bind].
  destruct (ex_view _ _ _ _ _ _ He2 p _ (lookup_insert_eq _ _ _)) as (v2' & Hv2' & _ & Er & Ety & _). assert (v2' = v2) as -> by congruence.
  destruct (link_entry (λ q, q ∈ reals_of (Lnk r t)) (Lnk r t) p v2 name cur s V F v (cost_of (Lnk r t)) s2 V2 (λ q, F q ∨ q = p))
    as (s' & V' & v' & E & Ha & Hsh); [done|done|done| | |by left|intros q [?| ->]; auto| |done| |].
  - eapply ext_trans; [eapply ext_weaken; [exact He1|intros ? ->; left]|eapply ext_weaken; [exact He2|by intros ? []]|].
    intros q [w Hq] [[]|Eq]. congruence.
  - apply ws_more; [|by eexists]. eapply ws_ext; [|exact He2|]; [|intros q Hq ->; destruct (Hd p Hq) as [? ?]; congruence].
    by eapply (ws_alloc s V F s1 p).
  - cbn [cost_of]. pose proof (pot_range v2). lia.
  - cbn. split; [by right|]. exists v2. done.
  - eexists _, _, _, _, _. done.
Qed.

(** A directory with its first two entries. *)
Lemma open_dir_start s V F p v up w :
  ready p s V F v 2 2 → V !! up = Some w →
  ∃ s1 s2 V' v', add_entry p p DOT s = Ok s1 ∧ add_entry p up DOTDOT s1 = Ok s2 ∧ ext (λ q, q = p) (λ _, False) s V s2 V' ∧
    V' !! p = Some v' ∧ vnames (img s2) v' = vnames (img s) v ++ [(DOT, fv_ino v); (DOTDOT, fv_ino w)] ∧ nblk v' = nblk v + 2 ∧
    fv_size v' = 256 * nblk v' ∧ next_ino s2 + pot v' ≤ next_ino s + pot v + 2 ∧ next_ino s < next_ino s2.
Proof.
  intros [Hw Hv Ht Ho Hs Hm Hr] Hup. pose proof (ws_inv _ _ _ Hw) as Hi.
  destruct (add_entry_ok s V p p v v DOT) as (s1 & V1 & v1 & E1 & He1 & Hv1 & Hn1 & Hb1 & Hs1 & Hr1 & Hx1);
    [done|done|done|done|by repeat constructor|lia|done|lia|].
  destruct (ex_view _ _ _ _ _ _ He1 up w Hup) as (w1 & Hw1 & Ei1 & _).
  destruct (ex_view _ _ _ _ _ _ He1 p v Hv) as (v1' & E & _ & _ & Et & _). assert (v1' = v1) as -> by congruence.
  destruct (add_entry_ok s1 V1 p up v1 w1 DOTDOT) as (s2 & V2 & v2 & E2 & He2 & Hv2 & Hn2 & Hb2 & Hs2 & Hr2 & Hx2);
    [apply He1|done|done|congruence|by repeat constructor|lia|done|rewrite (ex_ninos _ _ _ _ _ _ He1); lia|].
  exists s1, s2, V2, v2. split_and!; try done; try lia.
  - eapply ext_trans; [exact He1|exact He2|by intros q _ [?|?]].
  - rewrite Hn2, Hn1, Ei1, <- app_assoc. done.
Qed.

Lemma dir_added r es : dirents_added es → node_added (Dir r es).
Proof.
  intros IH s V F cur v name Hrd Hli Hcl (Hfc & Hrd' & Hcnt & Hok) Hreal. pose proof Hrd as [Hw Hv Ht Ho Hs Hm Hr]. pose proof Hw as [Hi Hfu Hd Hk].
  cbn [cost_of dirs_of] in *. pose proof (pot_range v). pose proof (cost_nonneg es). cbn [add_node]. unfold add_dir.
  destruct (search_inode_ok s V r Hi) as (o & -> & Hso). cbn [bind]. destruct o as [q|].
  { destruct Hso as (w & Hq & <-). destruct (Hreal q w Hq). left. }
  destruct (alloc_ext s V r SFS_TYPE_DIR Hi) as (p & s1 & E1 & Hp & He1 & Hn1); [lia|]. rewrite E1. cbn [bind].
  set (n0 := new_view (next_ino s) r SFS_TYPE_DIR) in *. assert (pot n0 = 1) as Ep0 by done. assert (nblk n0 = 0) as En0 by done.
  assert (¬ F p) as HFp by (intros Hf; destruct (Hd p Hf); congruence).
  assert (ws s1 (<[p := n0]> V) F) as Hw1 by (by eapply (ws_alloc s V F s1 p)).
  pose proof (ex_ninos _ _ _ _ _ _ He1) as Eni1. pose proof (entry_count_nonneg es).
  destruct (open_dir_start s1 (<[p := n0]> V) F p n0 cur v) as (s2 & s3 & V3 & v3 & E2 & E3 & He3 & Hv3 & Hna3 & Hb3 & Hs3 & Hr3 & _).
  { split; [done|apply lookup_insert_eq|done|done|done|lia|lia]. }
  { by rewrite lookup_insert_ne by congruence. }
  pose proof (ex_ninos _ _ _ _ _ _ He3) as Eni3.
  destruct (ex_view _ _ _ _ _ _ He3 p n0 (lookup_insert_eq _ _ _)) as (v3' & E & Ei3 & Er3 & Et3 & _). assert (v3' = v3) as -> by congruence. clear E.
  unfold open_dir. rewrite E2. cbn [bind]. rewrite E3. cbn [bind].
  destruct (IH s3 V3 F p v3) as (s4 & V4 & F4 & v4 & l & E4 & [He4 Hw4 Hv4 HF4 Hnew4 Hna4 Hs4 Hr4] & Hsh4).
  { split; [eapply ws_ext; [exact Hw1|exact He3|by intros q Hq ->]|done|by rewrite Et3|done|done|lia|lia]. }
  { done. }
  { intros q w Hq Hin. destruct (<[p := n0]> V !! q) as [w0|] eqn:Hq0; [|by destruct (ex_new _ _ _ _ _ _ He3 q w Hq Hq0)].
    destruct (ex_view _ _ _ _ _ _ He3 q w0 Hq0) as (w' & E & _ & Er & _). assert (w' = w) as -> by congruence. rewrite Er in Hin.
    rewrite lookup_insert in Hq0. case_decide; [injection Hq0 as <-; by apply Hrd'|]. apply (Hreal q w0 Hq0). by right. }
  rewrite E4. cbn [bind].
  destruct (ex_view _ _ _ _ _ _ He4 p v3 Hv3) as (v4' & E & Ei4 & Er4 & Et4 & _). assert (v4' = v4) as -> by congruence. clear E.
  assert (ext (λ _, False) (λ q, q ∈ reals_of (Dir r es)) s V s4 V4) as He.
  { eapply (ext_trans _ (λ _, False) (λ q, q = p)); [eapply ext_weaken; [exact He1|intros ? ->; left]| |intros q [w Hq] [[]|Eq]; congruence].
    eapply (ext_trans _ (λ q, q = p) (λ q, q = p)); [eapply ext_weaken; [exact He3|by intros ? []]|eapply ext_weaken; [exact He4|by right]|].
    by intros q _ [?|?]. }
  destruct (link_entry (λ q, q ∈ reals_of (Dir r es)) (Dir r es) p v4 name cur s V F v (5 + cost es) s4 V4 (λ q, F4 q ∨ q = p))
    as (s' & V' & v' & E & Ha & Hsh); [done|done|done|exact He|apply ws_more; [done|by eexists]|by auto| | |done| |].
  - intros q [Hq| ->]; [|by right]. destruct (Hnew4 q Hq) as [?|Hn]; [by left|right].
    destruct (V !! q) as [w|] eqn:Hq0; [|done]. destruct (decide (q = p)) as [->|Hne]; [congruence|].
    destruct (ex_view _ _ _ _ _ _ He3 q w) as (w' & E & _); [by rewrite lookup_insert_ne|congruence].
  - pose proof (pot_range v4). lia.
  - cbn. split; [by right|]. exists v4. split; [done|]. split; [by rewrite Et4, Et3|]. exists l.
    rewrite Hna4, Hna3. change (vnames (img s1) n0) with (@nil (list Z * Z)). cbn [app]. rewrite Ei4, Ei3. split; [done|].
    rewrite Ei3 in Hsh4.
    exact (shows_all_mono F4 _ (λ _, False) (λ _, False) s4 V4 s4 V4 (ws_inv _ _ _ Hw4) (ext_refl _ _ _ _ (ws_inv _ _ _ Hw4))
      (λ _ _ Hc, Hc) (λ q Hq, or_introl Hq) es l _ Hsh4).
  - rewrite E. eexists _, _, _, _, _. done.
Qed.

Lemma entry_added name n rest : node_added n → dirents_added rest → dirents_added (Dcons name n rest).
Proof.
  intros IHn IHr s V F cur v [Hw Hv Ht Ho Hs Hm Hr] Hok Hreal. cbn [dirents_ok cost count dirs reals read_entries] in *.
  destruct Hok as [Hok Hrest]. pose proof (cost_nonneg rest). pose proof (entry_count_nonneg rest).
  destruct (listed name n) eqn:Hli; cbn [app] in *.
  - destruct Hok as (Hcl & Hn & Hdis). pose proof Hcl as [Hlen _]. pose proof (cost_of_nonneg n).
    assert (skipped name = false) as -> by (unfold listed in Hli; by destruct (skipped name)).
    rewrite (proj2 (Z.ltb_ge _ _)) by (unfold SFS_MAX_FNAME_LEN; lia).
    destruct (IHn s V F cur v name) as (s1 & V1 & F1 & v1 & l1 & E1 & [He1 Hw1 Hv1 HF1 Hnew1 Hna1 Hs1 Hr1] & Hsh1);
      [by split; try lia|done|done|done|intros p w Hp Hin; apply (Hreal p w Hp); apply elem_of_app; by left|].
    rewrite E1. cbn [bind]. pose proof (ex_ninos _ _ _ _ _ _ He1) as Eni.
    destruct (ex_view _ _ _ _ _ _ He1 cur v Hv) as (v1' & E & Ei & _ & Et & _). assert (v1' = v1) as -> by congruence. clear E.
    assert (nblk v1 = nblk v + Z.of_nat (length l1)) as Enb.
    { pose proof (f_equal length Hna1) as El. unfold vnames in El. rewrite length_app, !length_fmap in El. unfold nblk. lia. }
    assert (length l1 = 1%nat) as El1.
    { cbn in Hsh1. rewrite Hli in Hsh1. by destruct Hsh1 as (? & ? & ? & _ & -> & _ & ->). }
    assert (¬ F1 cur) as Ho1 by (intros [?|?]%Hnew1; congruence).
    destruct (IHr s1 V1 F1 cur v1) as (s2 & V2 & F2 & v2 & l2 & -> & [He2 Hw2 Hv2 HF2 Hnew2 Hna2 Hs2 Hr2] & Hsh2).
    + split; try done; try congruence; lia.
    + done.
    + intros p w Hp Hin. destruct (V !! p) as [w0|] eqn:Hp0.
      * destruct (ex_view _ _ _ _ _ _ He1 p w0 Hp0) as (w' & E & _ & Er & _). assert (w' = w) as -> by congruence. rewrite Er in Hin.
        apply (Hreal p w0 Hp0). apply elem_of_app. by right.
      * apply (Hdis (fv_real w)); [|done]. exact (ex_new _ _ _ _ _ _ He1 p w Hp Hp0).
    + exists s2, V2, F2, v2, (l1 ++ l2). split; [done|]. rewrite Ei in Hsh2. split; [split; try done|].
      * eapply ext_trans; [eapply ext_weaken; [exact He1|]|eapply ext_weaken; [exact He2|]|by intros q _ [?|?]]; intros x Hx; apply elem_of_app; auto.
      * auto.
      * intros p [Hp|Hp]%Hnew2; [auto|right]. destruct (V !! p) as [w|] eqn:Hp0; [|done].
        destruct (ex_view _ _ _ _ _ _ He1 p w Hp0) as (w' & E & _). congruence.
      * rewrite Hna2, Hna1. by rewrite app_assoc.
      * lia.
      * apply shows_all_app; [|done].
        eapply (shows_all_mono F1 F2 (λ q, q = cur)); [apply Hw1|exact He2|intros q Hq ->; done|done|exact Hsh1].
  - assert ((if skipped name then Ok s else if SFS_MAX_FNAME_LEN <? Z.of_nat (length name) then Panicked else add_node n cur name s) = Ok s) as ->.
    { unfold listed in Hli. destruct (skipped name); [done|]. rewrite (proj2 (Z.ltb_ge _ _)) by (unfold SFS_MAX_FNAME_LEN; lia). by destruct n. }
    cbn [bind]. destruct (IHr s V F cur v) as (s' & V' & F' & v' & l & -> & Ha & Hsh); [by split|done|done|].
    exists s', V', F', v', l. split; [done|]. split; [exact Ha|]. cbn. by rewrite Hli.
Qed.

Lemma nil_added : dirents_added Dnil.
Proof.
  intros s V F cur v [Hw Hv Ht Ho Hs Hm Hr] _ _. exists s, V, F, v, []. split; [done|]. split; [|done].
  split; try done; [apply ext_refl, Hw|by auto|by rewrite app_nil_r|cbn; lia].
Qed.

Lemma other_added r : node_added (Other r).
Proof. intros s V F cur v name _ Hli. exfalso. revert Hli. unfold listed. cbn. by destruct (skipped name). Qed.

Scheme node_ind2 := Induction for node Sort Prop
  with dirents_ind2 := Induction for dirents Sort Prop.

(** The loop over a directory puts all that is listed into the image. *)
Lemma read_entries_ok es : dirents_added es.
Proof.
  apply (dirents_ind2 node_added dirents_added); [apply file_added|apply link_added|apply dir_added|apply other_added|apply nil_added|].
  intros name n Hn rest Hr. by apply entry_added.
Qed.
End tree.
