(* ===== verification/MksfsMount.v ===== *)
(** * The image of mksfs, and its mount

    What [create_sfs] begins with and what [close_sfs] writes: the superblock, the map of
    free blocks and the caches.  [kholds]: the mounted volume holds a directory of the
    host. *)

From S2P Require Import Prelude Hash Bitmap SfsDisk Sfs SfsInv SfsMap SfsFile SfsDir SfsVfs SfsSync Mksfs MksfsInv MksfsTree.

(** ** The map of free blocks *)

Lemma fold_bits (l : list Z) (P : Z → bool) i : Forall (λ j, 0 ≤ j) l → 0 ≤ i →
  Z.testbit (foldr (λ j v, if P j then Z.lor v (Z.shiftl 1 j) else v) 0 l) i = bool_decide (i ∈ l) && P i.
Proof.
  intros Hl Hi. induction Hl as [|j l Hj Hl IH]; cbn [foldr]; [by rewrite Z.bits_0|].
  assert (∀ b : bool, (bool_decide (i ∈ j :: l) && b) = (bool_decide (i = j) && b) || (bool_decide (i ∈ l) && b)) as Es.
  { intros b. rewrite (bool_decide_ext (i ∈ j :: l) (i = j ∨ i ∈ l)) by apply elem_of_cons. rewrite bool_decide_or. apply andb_orb_distrib_l. }
  rewrite Es. destruct (P j) eqn:Ep.
  - rewrite Z.lor_spec, IH, Z.shiftl_1_l, Z.pow2_bits_eqb, orb_comm by done. f_equal. destruct (decide (i = j)) as [->|Hne].
    + by rewrite Z.eqb_refl, (bool_decide_true (j = j)), Ep.
    + rewrite (proj2 (Z.eqb_neq j i)), (bool_decide_false (i = j)) by congruence. done.
  - rewrite IH. destruct (decide (i = j)) as [->|Hne]; [by rewrite Ep, !andb_false_r|by rewrite (bool_decide_false (i = j))].
Qed.

(** Bit [x] of the map is set where block [x] is free. *)
Lemma map_word_bit lo hi w j : 0 ≤ j < 32 →
  Z.testbit (map_word lo hi w) j = (lo <=? 32 * Z.of_nat w + j) && (32 * Z.of_nat w + j <? hi).
Proof.
  intros Hj. unfold map_word. rewrite (fold_bits _ (λ j, (lo <=? 32 * Z.of_nat w + j) && (32 * Z.of_nat w + j <? hi))).
  - by rewrite bool_decide_true by (apply elem_of_seqZ; lia).
  - apply Forall_forall. intros x Hx%elem_of_seqZ. lia.
  - lia.
Qed.

Lemma map_word_ext lo hi w lo' hi' w' :
  (∀ j, 0 ≤ j < 32 → (lo <=? 32 * Z.of_nat w + j) && (32 * Z.of_nat w + j <? hi) = (lo' <=? 32 * Z.of_nat w' + j) && (32 * Z.of_nat w' + j <? hi')) →
  map_word lo hi w = map_word lo' hi' w'.
Proof.
  intros Hb. unfold map_word.
  assert (∀ j, j ∈ seqZ 0 32 → 0 ≤ j < 32) as Hin by (intros j Hj%elem_of_seqZ; lia).
  induction (seqZ 0 32) as [|j l IH]; [done|]. cbn [foldr]. rewrite (Hb j) by (apply Hin; left). rewrite IH; [done|].
  intros i Hi. apply Hin. by right.
Qed.

Lemma map_word_range lo hi w : is_u32 (map_word lo hi w).
Proof.
  assert (0 ≤ map_word lo hi w) as H0.
  { unfold map_word. induction (seqZ 0 32) as [|j l IH]; [done|]. cbn [foldr]. destruct (_ && _); [|done].
    apply Z.lor_nonneg. split; [done|]. apply Z.shiftl_nonneg. lia. }
  split; [done|]. destruct (decide (map_word lo hi w = 0)) as [->|Hne]; [lia|].
  apply Z.log2_lt_pow2; [lia|]. apply dec_stable. intros Hge.
  pose proof (Z.bit_log2 (map_word lo hi w) ltac:(lia)) as Hb. revert Hb. unfold map_word at 1.
  rewrite (fold_bits _ (λ j, (lo <=? 32 * Z.of_nat w + j) && (32 * Z.of_nat w + j <? hi))).
  - rewrite bool_decide_false; [done|]. intros Hin%elem_of_seqZ. lia.
  - apply Forall_forall. intros x Hx%elem_of_seqZ. lia.
  - apply Z.log2_nonneg.
Qed.

(** The map of a volume of [k] blocks of map, free from [lo] to [hi]. *)
Definition free_words (lo hi k : Z) : list Z := map_word lo hi <$> seq 0 (Z.to_nat (k * 1024)).
Definition free_map (lo hi k : Z) : bitmap := mkBitmap (k * 32768) (k * 1024) (free_words lo hi k).

Lemma free_map_bit lo hi k i : 0 ≤ i → hi ≤ k * 32768 → is_free (free_map lo hi k) i = (lo <=? i) && (i <? hi).
Proof.
  intros Hi Hk. destruct (index_split i Hi) as (w & o & Ho & ->). rewrite is_free_word by done. cbn [map free_map]. unfold free_words.
  rewrite list_lookup_fmap. destruct (decide (Z.of_nat w < k * 1024)).
  - rewrite lookup_seq_lt by lia. cbn. rewrite map_word_bit by done. by rewrite (Z.mul_comm 32).
  - rewrite lookup_seq_ge by lia. cbn. symmetry. apply andb_false_intro2. apply Z.ltb_ge. lia.
Qed.

Lemma free_map_inv lo hi k : 0 < k ≤ 2 ^ 16 → hi ≤ k * 32768 → bitmap_inv (free_map lo hi k).
Proof.
  intros Hk Hh. split; cbn [nbits nwords map free_map].
  - lia.
  - unfold free_words. rewrite length_fmap, length_seq. lia.
  - apply (Z.div_unique_pos _ _ _ 31); lia.
  - unfold free_words. apply Forall_fmap. apply Forall_forall. intros w _. apply map_word_range.
  - intros i Hi. rewrite free_map_bit by lia. apply andb_false_intro2, Z.ltb_ge. lia.
Qed.

Lemma free_map_count lo hi k : 0 ≤ lo ≤ hi → hi ≤ k * 32768 → free_count (free_map lo hi k) = hi - lo.
Proof.
  intros Hlo Hh. unfold free_count. cbn [nbits free_map].
  replace (seqZ 0 (k * 32768)) with (seqZ 0 lo ++ seqZ lo (hi - lo) ++ seqZ hi (k * 32768 - hi)).
  2:{ replace (seqZ hi (k * 32768 - hi)) with (seqZ (lo + (hi - lo)) (k * 32768 - hi)) by (f_equal; lia).
      rewrite <- seqZ_app by lia. replace (hi - lo + (k * 32768 - hi)) with (k * 32768 - lo) by lia.
      replace (seqZ lo (k * 32768 - lo)) with (seqZ (0 + lo) (k * 32768 - lo)) by (f_equal; lia).
      rewrite <- seqZ_app by lia. f_equal. lia. }
  rewrite !zsum_app.
  rewrite (zsum_ext _ (λ _, 0) (seqZ 0 lo)), (zsum_ext _ (λ _, 1) (seqZ lo (hi - lo))), (zsum_ext _ (λ _, 0) (seqZ hi (k * 32768 - hi))).
  - unfold zsum. rewrite (zsum_const0 (λ _ : Z, 0)) by done.
    assert (∀ l : list Z, foldr (λ _ n, 1 + n) 0 l = Z.of_nat (length l)) as -> by (intros l; induction l; cbn [foldr length]; lia).
    rewrite length_seqZ, (zsum_const0 (λ _ : Z, 0)) by done. lia.
  - intros i Hi%elem_of_seqZ. rewrite free_map_bit by lia. rewrite (proj2 (Z.ltb_ge i hi)) by lia. by rewrite andb_false_r.
  - intros i Hi%elem_of_seqZ. rewrite free_map_bit by lia. rewrite (proj2 (Z.ltb_lt i hi)), (proj2 (Z.leb_le lo i)) by lia. done.
  - intros i Hi%elem_of_seqZ. rewrite free_map_bit by lia. by rewrite (proj2 (Z.leb_gt lo i)) by lia.
Qed.

Definition nmaps (n : Z) : Z := data_start n - 2.

Lemma data_start_bounds n : 0 < n ≤ 2 ^ 19 → 3 ≤ data_start n ≤ 18 ∧ n ≤ nmaps n * 32768 < n + 32768.
Proof.
  intros Hn. unfold nmaps, data_start. change SFS_BLKN_FREEMAP with 2. change SFS_BLKBITS with 32768.
  pose proof (Z.div_mod (n + 32768 - 1) 32768). pose proof (Z.mod_pos_bound (n + 32768 - 1) 32768).
  assert ((n + 32768 - 1) / 32768 < 17) by (apply Z.div_lt_upper_bound; lia).
  assert (1 ≤ (n + 32768 - 1) / 32768) by (apply Z.div_le_lower_bound; lia). lia.
Qed.

Lemma length_encode_map lo hi l : length (encode_words (map_word lo hi <$> l)) = (4 * length l)%nat.
Proof. by rewrite length_encode_words, length_fmap. Qed.

Lemma zero_words n : encode_words (replicate n 0) = replicate (4 * n) 0.
Proof.
  induction n as [|n IH]; [done|]. cbn [replicate]. rewrite encode_words_cons, IH.
  change (le_bytes 4 0) with (replicate 4 0). rewrite <- replicate_add. f_equal. lia.
Qed.

(** Block [j] of the map on the image is the part of the map for its bits. *)
Lemma map_block_words s V j : mk_inv s V → 0 ≤ j < nmaps (ninos s) →
  map_block (j * 32768) s = encode_words (map_word (next_ino s) (ninos s) <$> seq (Z.to_nat (j * 1024)) 1024).
Proof.
  intros Hi Hj. pose proof (mi_start _ _ Hi). pose proof (mi_next _ _ Hi). pose proof (mi_max _ _ Hi).
  destruct (data_start_bounds (ninos s)) as [Hd Hb]; [lia|]. unfold nmaps in *.
  unfold map_block. change SFS_BLKBITS with 32768. rewrite u32_small by lia.
  assert (∀ lo hi : Z, (∀ x, 0 ≤ x < 32768 → (lo <=? x) && (x <? hi) = (next_ino s <=? j * 32768 + x) && (j * 32768 + x <? ninos s)) →
    map_word lo hi <$> seq 0 1024 = map_word (next_ino s) (ninos s) <$> seq (Z.to_nat (j * 1024)) 1024) as Hext.
  { intros lo hi Hx. apply list_eq. intros i. rewrite !list_lookup_fmap. destruct (decide (i < 1024)%nat).
    - rewrite !lookup_seq_lt by done. cbn. f_equal. apply map_word_ext. intros b Hb'.
      replace (32 * Z.of_nat (Z.to_nat (j * 1024) + i) + b) with (j * 32768 + (32 * Z.of_nat i + b)) by lia. apply Hx. lia.
    - by rewrite !lookup_seq_ge by lia. }
  destruct (Z.ltb_spec (next_ino s) (j * 32768 + 32768)).
  - f_equal. apply Hext. intros x Hx. set (lo := if j * 32768 <? next_ino s then _ else _). set (hi := if ninos s <? _ then _ else _).
    assert ((lo <=? x) = (next_ino s <=? j * 32768 + x)) as ->.
    { unfold lo. destruct (Z.ltb_spec (j * 32768) (next_ino s)); destruct (Z.leb_spec (next_ino s) (j * 32768 + x)); [apply Z.leb_le|apply Z.leb_gt|apply Z.leb_le|lia]; lia. }
    f_equal. unfold hi. destruct (Z.ltb_spec (ninos s) (j * 32768 + 32768)); destruct (Z.ltb_spec (j * 32768 + x) (ninos s)); [apply Z.ltb_lt|apply Z.ltb_ge|apply Z.ltb_lt|lia]; lia.
  - rewrite <- (Hext 0 0).
    + unfold zero_block. change 4096%nat with (4 * 1024)%nat. rewrite <- zero_words. f_equal.
    + intros x Hx. rewrite (proj2 (Z.ltb_ge x 0)), (proj2 (Z.leb_gt (next_ino s) _)) by lia. by rewrite andb_false_r.
Qed.

(** The blocks of the map are written one after the other. *)
Lemma write_maps_ok n : ∀ s V j, mk_inv s V → 0 ≤ j ≤ nmaps (ninos s) → nmaps (ninos s) ≤ j + Z.of_nat n →
  ∃ g, write_maps n (j * 32768) (2 + j) s = Ok (set_img g s) ∧
    ∀ b, g b = if decide (2 + j ≤ b < data_start (ninos s)) then
                 encode_words (map_word (next_ino s) (ninos s) <$> seq (Z.to_nat ((b - 2) * 1024)) 1024) else img s b.
Proof.
  induction n as [|n IH]; intros s V j Hi Hj Hn; pose proof (mi_start _ _ Hi); pose proof (mi_next _ _ Hi); pose proof (mi_max _ _ Hi);
    (destruct (data_start_bounds (ninos s)) as [Hd Hb]; [lia|]); unfold nmaps in *; cbn [write_maps].
  - rewrite (proj2 (Z.ltb_ge _ _)) by lia. exists (img s). split; [by destruct s|]. intros b. by rewrite decide_False by lia.
  - destruct (Z.ltb_spec (j * 32768) (ninos s)) as [Hlt|Hge].
    + rewrite (map_block_words s V j Hi) by (unfold nmaps; lia). set (data := encode_words _).
      assert (length data = 4096%nat) as El by (unfold data; rewrite length_encode_map, length_seq; done).
      rewrite write_block_ok by lia. cbn [bind]. change SFS_BLKBITS with 32768. rewrite !u32_small by lia.
      replace (j * 32768 + 32768) with ((j + 1) * 32768) by lia. replace (2 + j + 1) with (2 + (j + 1)) by lia.
      destruct (IH (set_img (put_blk (2 + j) (pad data) (img s)) s) V (j + 1)) as (g & -> & Hg); [by apply inv_img|cbn; lia|cbn; lia|].
      exists g. split; [done|]. intros b. rewrite Hg. cbn [set_img ninos next_ino img]. unfold put_blk.
      destruct (decide (b = 2 + j)) as [->|Hne].
      * rewrite decide_False, decide_True by lia. unfold pad. rewrite El, Nat.sub_diag, app_nil_r. unfold data. do 3 f_equal. lia.
      * destruct (decide (2 + (j + 1) ≤ b < data_start (ninos s))); [by rewrite decide_True by lia|by rewrite decide_False by lia].
    + exists (img s). split; [by destruct s|]. intros b. by rewrite decide_False by lia.
Qed.

(** ** The caches *)

Definition inode_block (c : cache_inode) : list Z := pad (encode_dinode (inode c) ++ le_bytes 4 (db_indirect c)).
Definition numbers_block (d : cache_block) : list Z := pad (encode_words (cache d)).

(** What is written for each cached block. *)
Definition from_inode (s : mk_fs) (p : ptr) (b : Z) (x : list Z) : Prop := ∃ c, inodes s !! p = Some c ∧ b = ci_ino c ∧ x = inode_block c.
Definition from_cache (s : mk_fs) (cb : ptr) (b : Z) (x : list Z) : Prop := ∃ d, blocks s !! cb = Some d ∧ b = cb_ino d ∧ x = numbers_block d.
Definition cached (s : mk_fs) (b : Z) (x : list Z) : Prop := (∃ p, from_inode s p b x) ∨ (∃ cb, from_cache s cb b x).

Lemma cache_view s V cb d : mk_inv s V → blocks s !! cb = Some d →
  ∃ p v c, V !! p = Some v ∧ inodes s !! p = Some c ∧ stands (blocks s) c v ∧ l1 c = Some cb ∧ cb_ino d = fv_ind v ∧ fv_ind v ≠ 0 ∧ 12 < nblk v.
Proof.
  intros Hi Hd. destruct (mi_cache _ _ Hi cb d Hd) as (p & c & Ec & El & Ed). destruct (mi_dom _ _ Hi p) as [v Hv]; [by eexists|].
  destruct (mi_inode _ _ Hi p v Hv) as (c' & Ec' & S). assert (c' = c) as -> by congruence. exists p, v, c.
  destruct (decide (nblk v ≤ 12)) as [Hn|Hn]; [destruct (sd_small _ _ _ S Hn); congruence|].
  destruct (sd_large _ _ _ S ltac:(lia)) as [Hne _]. pose proof (sd_ind _ _ _ S). split_and!; try done; [congruence|lia].
Qed.

Lemma ino_own v : fv_ino v ∈ own_blocks v.
Proof. left. Qed.

(** Each block is written for one reason only, which is no block of data. *)
Lemma cached_unique s V b x y : mk_inv s V → cached s b x → cached s b y → x = y.
Proof.
  intros Hi [(p & c & Hc & -> & ->)|(cb & d & Hd & -> & ->)] [(q & c' & Hc' & E & ->)|(cb' & d' & Hd' & E & ->)].
  - destruct (mi_dom _ _ Hi p) as [v Hv]; [by eexists|]. destruct (mi_dom _ _ Hi q) as [w Hw]; [by eexists|].
    destruct (mi_inode _ _ Hi p v Hv) as (c1 & E1 & S). destruct (mi_inode _ _ Hi q w Hw) as (c2 & E2 & S').
    assert (c1 = c) as -> by congruence. assert (c2 = c') as -> by congruence.
    rewrite (sd_ino _ _ _ S), (sd_ino _ _ _ S') in E.
    assert (p = q) as -> by (eapply (mi_disj _ _ Hi p q v w (fv_ino v)); [done|done|apply ino_own|rewrite E; apply ino_own]). congruence.
  - exfalso. destruct (mi_dom _ _ Hi p) as [v Hv]; [by eexists|]. destruct (mi_inode _ _ Hi p v Hv) as (c1 & E1 & S). assert (c1 = c) as -> by congruence.
    destruct (cache_view s V cb' d' Hi Hd') as (q & w & c2 & Hw & _ & _ & _ & Ed & Hne & _). rewrite (sd_ino _ _ _ S), Ed in E.
    assert (p = q) as -> by (eapply (mi_disj _ _ Hi p q v w (fv_ino v)); [done|done|apply ino_own|rewrite E; by apply ind_own]). assert (v = w) as -> by congruence.
    pose proof (mi_nodup _ _ Hi q w Hw) as Hn. unfold own_blocks in Hn. rewrite (proj2 (Z.eqb_neq _ _) Hne) in Hn. apply NoDup_cons in Hn as [Hn _].
    apply Hn. rewrite E. left.
  - exfalso. destruct (mi_dom _ _ Hi q) as [w Hw]; [by eexists|]. destruct (mi_inode _ _ Hi q w Hw) as (c1 & E1 & S). assert (c1 = c') as -> by congruence.
    destruct (cache_view s V cb d Hi Hd) as (p & v & c2 & Hv & _ & _ & _ & Ed & Hne & _). rewrite (sd_ino _ _ _ S), Ed in E.
    assert (p = q) as -> by (eapply (mi_disj _ _ Hi p q v w (fv_ind v)); [done|done|by apply ind_own|rewrite E; apply ino_own]). assert (v = w) as -> by congruence.
    pose proof (mi_nodup _ _ Hi q w Hw) as Hn. unfold own_blocks in Hn. rewrite (proj2 (Z.eqb_neq _ _) Hne) in Hn. apply NoDup_cons in Hn as [Hn _].
    apply Hn. rewrite <- E. left.
  - destruct (cache_view s V cb d Hi Hd) as (p & v & c & Hv & Hc & _ & El & Ed & Hne & _).
    destruct (cache_view s V cb' d' Hi Hd') as (q & w & c' & Hw & Hc' & _ & El' & Ed' & Hne' & _). rewrite Ed, Ed' in E.
    assert (p = q) as -> by (eapply (mi_disj _ _ Hi p q v w (fv_ind v)); [done|done|by apply ind_own|rewrite E; by apply ind_own]). congruence.
Qed.

Lemma cached_no_data s V p v b x : mk_inv s V → V !! p = Some v → b ∈ fv_blocks v → ¬ cached s b x.
Proof.
  intros Hi Hv Hb [(q & c & Hc & -> & _)|(cb & d & Hd & -> & _)]; pose proof (mi_nodup _ _ Hi p v Hv) as Hn; unfold own_blocks in Hn.
  - destruct (mi_dom _ _ Hi q) as [w Hw]; [by eexists|]. destruct (mi_inode _ _ Hi q w Hw) as (c1 & E1 & S). assert (c1 = c) as -> by congruence.
    rewrite (sd_ino _ _ _ S) in Hb.
    assert (q = p) as -> by (eapply (mi_disj _ _ Hi q p w v (fv_ino w)); [done|done|apply ino_own|by apply block_own]). assert (w = v) as -> by congruence.
    apply NoDup_cons in Hn as [Hn _]. apply Hn, elem_of_app. by right.
  - destruct (cache_view s V cb d Hi Hd) as (q & w & c & Hw & _ & _ & _ & Ed & Hne & _). rewrite Ed in Hb.
    assert (q = p) as -> by (eapply (mi_disj _ _ Hi q p w v (fv_ind w)); [done|done|by apply ind_own|by apply block_own]). assert (w = v) as -> by congruence.
    rewrite (proj2 (Z.eqb_neq _ _) Hne) in Hn. apply NoDup_cons in Hn as [_ Hn]. cbn in Hn. apply NoDup_cons in Hn as [Hn _]. done.
Qed.

Lemma cached_range s V b x : mk_inv s V → cached s b x → b = 1 ∨ data_start (ninos s) ≤ b < next_ino s.
Proof.
  intros Hi [(q & c & Hc & -> & _)|(cb & d & Hd & -> & _)].
  - destruct (mi_dom _ _ Hi q) as [w Hw]; [by eexists|]. destruct (mi_inode _ _ Hi q w Hw) as (c1 & E1 & S). assert (c1 = c) as -> by congruence.
    rewrite (sd_ino _ _ _ S). apply (mi_range _ _ Hi q w _ Hw), ino_own.
  - destruct (cache_view s V cb d Hi Hd) as (q & w & c & Hw & _ & _ & _ & -> & Hne & _). by apply (mi_range _ _ Hi q w _ Hw), ind_own.
Qed.

(** From [f] to [g] only cached blocks are written. *)
Definition flushed (s : mk_fs) (f g : Z → list Z) : Prop := ∀ b, g b = f b ∨ cached s b (g b).

Lemma flushed_trans s f g h : flushed s f g → flushed s g h → flushed s f h.
Proof. intros H1 H2 b. destruct (H2 b) as [->|?]; [apply H1|by right]. Qed.

Lemma flushed_keeps s V f g b x : mk_inv s V → flushed s f g → cached s b x → f b = x → g b = x.
Proof. intros Hi Hf Hc <-. destruct (Hf b) as [->|Hg]; [done|]. by eapply cached_unique. Qed.

Lemma flush_list_ok s V (F : ptr → mk_fs → res mk_fs) (K : ptr → Z → list Z → Prop) l : mk_inv s V →
  (∀ p, p ∈ l → ∃ b x, K p b x ∧ cached s b x ∧ (∀ g, F p (set_img g s) = Ok (set_img (put_blk b x g) s)) ∧ (∀ b' x', K p b' x' → b' = b ∧ x' = x)) →
  ∀ f, ∃ g, flush_list F l (set_img f s) = Ok (set_img g s) ∧ flushed s f g ∧ ∀ p b x, p ∈ l → K p b x → g b = x.
Proof.
  intros Hi. induction l as [|p l IH]; intros Hl f; cbn [flush_list].
  { exists f. split; [done|]. split; [by left|]. intros p b x Hp. by apply not_elem_of_nil in Hp. }
  destruct (Hl p) as (b & x & HK & Hc & HF & Hu); [left|]. rewrite HF. cbn [bind].
  destruct (IH ltac:(intros q Hq; apply Hl; by right) (put_blk b x f)) as (g & -> & Hg & Hk). exists g. split; [done|].
  assert (flushed s f (put_blk b x f)) as Hf by (intros y; unfold put_blk; case_decide; [subst; by right|by left]).
  split; [by eapply flushed_trans|]. intros q b' x' [->|Hq]%elem_of_cons HK'; [|by eapply Hk].
  destruct (Hu _ _ HK') as [-> ->]. eapply (flushed_keeps s V); [done|exact Hg|done|]. unfold put_blk. by rewrite decide_True.
Qed.

Lemma length_inode_block s V p c : mk_inv s V → inodes s !! p = Some c → length (encode_dinode (inode c) ++ le_bytes 4 (db_indirect c)) = 68%nat.
Proof.
  intros Hi Hc. destruct (mi_dom _ _ Hi p) as [v Hv]; [by eexists|]. destruct (mi_inode _ _ Hi p v Hv) as (c1 & E1 & S). assert (c1 = c) as -> by congruence.
  by rewrite length_app, length_le_bytes, length_encode_dinode by apply S.
Qed.

Lemma flush_lists_ok s V hs : mk_inv s V →
  ∀ f, ∃ g, flush_lists hs (set_img f s) = Ok (set_img g s) ∧ flushed s f g ∧
    ∀ h, h ∈ hs → (∀ p b x, p ∈ default [] (inode_hash s !! h) → from_inode s p b x → g b = x) ∧
                  (∀ cb b x, cb ∈ default [] (block_hash s !! h) → from_cache s cb b x → g b = x).
Proof.
  intros Hi. pose proof (mi_next _ _ Hi) as Hn. pose proof (mi_start _ _ Hi) as Hst.
  induction hs as [|h hs IH]; intros f; cbn [flush_lists].
  { exists f. split; [done|]. split; [by left|]. intros h Hh. by apply not_elem_of_nil in Hh. }
  destruct (flush_list_ok s V flush_cache_block (from_cache s) (default [] (block_hash s !! h)) Hi) with (f := f) as (g1 & E1 & Hf1 & Hk1).
  { intros cb Hcb. destruct (mi_bhash_dom _ _ Hi h cb Hcb) as [d Hd]. exists (cb_ino d), (numbers_block d).
    assert (from_cache s cb (cb_ino d) (numbers_block d)) as HK by (by exists d).
    assert (cached s (cb_ino d) (numbers_block d)) as Hc by (right; by exists cb).
    split_and!; [done|done| |intros b' x' (d' & Hd' & -> & ->); by simplify_eq]. intros g. unfold flush_cache_block. cbn [set_img blocks]. rewrite Hd. cbn [deref bind].
    destruct (cache_view s V cb d Hi Hd) as (q & w & c & Hw & Hcw & S & El & Ed & Hne & Hlg).
    destruct (sd_large _ _ _ S Hlg) as (_ & cb' & ws' & El' & EB & Elen & _). assert (cb' = cb) as -> by congruence. rewrite Hd in EB. injection EB as ->.
    rewrite write_block_ok; [done|cbn; rewrite length_encode_words; lia|]. destruct (cached_range s V _ _ Hi Hc); cbn in *; lia. }
  destruct (flush_list_ok s V flush_cache_inode (from_inode s) (default [] (inode_hash s !! h)) Hi) with (f := g1) as (g2 & E2 & Hf2 & Hk2).
  { intros p Hp. destruct (mi_ihash_dom _ _ Hi h p Hp) as [v Hv]. destruct (mi_inode _ _ Hi p v Hv) as (c & Hc & S). exists (ci_ino c), (inode_block c).
    assert (from_inode s p (ci_ino c) (inode_block c)) as HK by (by exists c).
    assert (cached s (ci_ino c) (inode_block c)) as Hca by (left; by exists p).
    split_and!; [done|done| |intros b' x' (d' & Hd' & -> & ->); by simplify_eq]. intros g. unfold flush_cache_inode, get_ci. cbn [set_img inodes]. rewrite Hc. cbn [deref bind].
    pose proof (length_inode_block s V p c Hi Hc). rewrite write_block_ok; [done|lia|]. destruct (cached_range s V _ _ Hi Hca); cbn in *; lia. }
  change (block_hash (set_img f s)) with (block_hash s). rewrite E1. cbn [bind]. change (inode_hash (set_img g1 s)) with (inode_hash s). rewrite E2. cbn [bind].
  destruct (IH g2) as (g & -> & Hf & Hk). exists g. split; [done|]. split; [eapply flushed_trans; [exact Hf1|by eapply flushed_trans]|].
  intros h' [->|Hh']%elem_of_cons; [|by apply Hk]. split.
  - intros p b x Hp HK. eapply (flushed_keeps s V); [done|exact Hf|left; by exists p|by eapply Hk2].
  - intros cb b x Hcb HK. assert (cached s b x) by (right; by exists cb).
    eapply (flushed_keeps s V); [done|exact Hf|done|]. eapply (flushed_keeps s V); [done|exact Hf2|done|by eapply Hk1].
Qed.

Lemma length_pad data : (length data ≤ 4096)%nat → length (pad data) = 4096%nat.
Proof. intros Hl. unfold pad. rewrite length_app, length_replicate. lia. Qed.

Lemma cached_length s V b x : mk_inv s V → cached s b x → length x = 4096%nat.
Proof.
  intros Hi [(p & c & Hc & _ & ->)|(cb & d & Hd & _ & ->)]; apply length_pad.
  - rewrite (length_inode_block s V p c Hi Hc). lia.
  - destruct (cache_view s V cb d Hi Hd) as (q & w & c & Hw & _ & S & El & _ & _ & Hlg).
    destruct (sd_large _ _ _ S Hlg) as (_ & cb' & ws & El' & EB & Elen & _). assert (cb' = cb) as -> by congruence.
    rewrite Hd in EB. injection EB as ->. cbn [cache]. rewrite length_encode_words. lia.
Qed.

(** What [close_sfs] leaves on the image [g]. *)
Record closed (s : mk_fs) (V : gmap ptr fview) (g : Z → list Z) : Prop := {
  cl_super : g 0 = pad (encode_super (sup s));
  cl_map b : 2 ≤ b < data_start (ninos s) → g b = encode_words (map_word (next_ino s) (ninos s) <$> seq (Z.to_nat ((b - 2) * 1024)) 1024);
  cl_inode p c : inodes s !! p = Some c → g (ci_ino c) = inode_block c;
  cl_numbers cb d : blocks s !! cb = Some d → g (cb_ino d) = numbers_block d;
  cl_data p v b : V !! p = Some v → b ∈ fv_blocks v → g b = img s b;
  cl_full b : full s → length (g b) = 4096%nat
}.

Lemma close_ok s V : mk_inv s V → length (sb_info (sup s)) = 32%nat → ∃ g, close_sfs s = Ok (set_img g s) ∧ closed s V g.
Proof.
  intros Hi Hinf. pose proof (mi_start _ _ Hi). pose proof (mi_next _ _ Hi). pose proof (mi_max _ _ Hi).
  destruct (data_start_bounds (ninos s)) as [Hd Hb]; [lia|].
  unfold close_sfs. change SFS_BLKN_FREEMAP with 2.
  destruct (write_maps_ok (Z.to_nat (ninos s)) s V 0 Hi) as (g1 & E1 & Hg1); [unfold nmaps; lia|unfold nmaps in *; lia|].
  change (0 * 32768) with 0 in E1. change (2 + 0) with 2 in *. rewrite E1. cbn [bind].
  assert (length (encode_super (sup s)) = 44%nat) as El by (unfold encode_super; rewrite !length_app, !length_le_bytes, Hinf; done).
  change SFS_BLKN_SUPER with 0. cbn [set_img sup]. rewrite write_block_ok by (cbn; lia). cbn [bind].
  change (set_img (put_blk 0 (pad (encode_super (sup s))) (img (set_img g1 s))) (set_img g1 s)) with (set_img (put_blk 0 (pad (encode_super (sup s))) g1) s).
  destruct (flush_lists_ok s V (seqZ 0 HASH_LIST_SIZE) Hi (put_blk 0 (pad (encode_super (sup s))) g1)) as (g & -> & Hf & Hk).
  exists g. split; [done|].
  assert (∀ b, b = 0 ∨ 2 ≤ b < data_start (ninos s) → g b = put_blk 0 (pad (encode_super (sup s))) g1 b) as Hout.
  { intros b Hr. destruct (Hf b) as [E|Hc]; [done|]. destruct (cached_range s V b _ Hi Hc); lia. }
  split.
  - rewrite Hout by lia. unfold put_blk. by rewrite decide_True.
  - intros b Hr. rewrite Hout by lia. unfold put_blk. rewrite decide_False by lia. rewrite Hg1. by rewrite decide_True by lia.
  - intros p c Hc. destruct (mi_dom _ _ Hi p) as [v Hv]; [by eexists|]. destruct (mi_inode _ _ Hi p v Hv) as (c1 & E & S). assert (c1 = c) as -> by congruence.
    pose proof (hash32_range (u32 (fv_real v)) HASH_SHIFT ltac:(unfold HASH_SHIFT; lia)) as Hh.
    change (2 ^ HASH_SHIFT) with 1024 in Hh. fold (hash64 (fv_real v)) in Hh.
    destruct (Hk (hash64 (fv_real v))) as [Hki _]; [apply elem_of_seqZ; change HASH_LIST_SIZE with 1024; lia|].
    apply (Hki p); [by apply (mi_ihash _ _ Hi)|by exists c].
  - intros cb d Hd'. destruct (Hk 0) as [_ Hkb]; [apply elem_of_seqZ; change HASH_LIST_SIZE with 1024; lia|].
    apply (Hkb cb); [apply (mi_bhash _ _ Hi); by eexists|by exists d].
  - intros p v b Hv Hb'. destruct (Hf b) as [->|Hc]; [|by destruct (cached_no_data s V p v b _ Hi Hv Hb' Hc)].
    assert (b = 1 ∨ data_start (ninos s) ≤ b) as Hr by (destruct (mi_range _ _ Hi p v b Hv); [by apply block_own|by left|right; lia]).
    unfold put_blk. rewrite decide_False by lia. rewrite Hg1. by rewrite decide_False by lia.
  - intros b Hfu. destruct (Hf b) as [->|Hc]; [|by eapply cached_length]. unfold put_blk.
    case_decide; [apply length_pad; lia|]. rewrite Hg1. case_decide; [by rewrite length_encode_map, length_seq|apply Hfu].
Qed.

(** ** The volume that the kernel mounts *)

Section volume.
Context {D : Type} `{block_dev_laws D}.

(** A volume [t] that holds the image. *)
Record loaded (s : mk_fs) (g : Z → list Z) (t : sfs_fs D) : Prop := {
  ld_inv : sfs_inv t;
  ld_blocks : sb_blocks (super t) = ninos s;
  ld_map : freemap t = free_map (next_ino s) (ninos s) (nmaps (ninos s));
  ld_blk b : 0 ≤ b < ninos s → sblk t b = g b
}.

Section file.
Context (s : mk_fs) (V : gmap ptr fview) (g : Z → list Z) (t : sfs_fs D).
Context (Hi : mk_inv s V) (Hcl : closed s V g) (Hld : loaded s g t).

Lemma own_used p v b : V !! p = Some v → b ∈ own_blocks v → used t b ∧ sblk t b = g b.
Proof using Hi Hcl Hld.
  intros Hv Hb. pose proof (mi_start _ _ Hi). pose proof (mi_next _ _ Hi). pose proof (mi_max _ _ Hi).
  destruct (data_start_bounds (ninos s)) as [Hd Hbd]; [lia|]. pose proof (mi_range _ _ Hi p v b Hv Hb) as Hr.
  split; [|apply (ld_blk _ _ _ Hld); lia]. split; [rewrite (ld_blocks _ _ _ Hld); lia|].
  rewrite (ld_map _ _ _ Hld), free_map_bit by (unfold nmaps in *; lia). apply andb_false_intro1, Z.leb_gt. lia.
Qed.

Lemma own_u32 p v b : V !! p = Some v → b ∈ own_blocks v → is_u32 b.
Proof using Hi.
  intros Hv Hb. pose proof (mi_start _ _ Hi). pose proof (mi_next _ _ Hi). pose proof (mi_max _ _ Hi).
  pose proof (mi_range _ _ Hi p v b Hv Hb). unfold is_u32. lia.
Qed.

Lemma default_u32 p v i : V !! p = Some v → is_u32 (default 0 (fv_blocks v !! i)).
Proof using Hi.
  intros Hv. destruct (fv_blocks v !! i) as [b|] eqn:E; cbn; [|unfold is_u32; lia]. eapply own_u32; [done|].
  apply block_own. by apply list_elem_of_lookup_2 in E.
Qed.

Lemma inode_read p v : V !! p = Some v → fv_type v < 2 ^ 16 → 0 ≤ fv_type v →
  ∃ c, inodes s !! p = Some c ∧ stands (blocks s) c v ∧ dinode_ok (inode c) ∧ decode_dinode (sblk t (fv_ino v)) = inode c.
Proof using Hi Hcl Hld.
  intros Hv Ht1 Ht2. destruct (mi_inode _ _ Hi p v Hv) as (c & Hc & S). exists c. split; [done|]. split; [done|].
  assert (dinode_ok (inode c)) as Hok.
  { split.
    - rewrite (sd_size _ _ _ S). apply S.
    - rewrite (sd_type _ _ _ S). lia.
    - rewrite (sd_links _ _ _ S). apply S.
    - rewrite (sd_blocks _ _ _ S). pose proof (sd_max _ _ _ S). unfold MAX_BLOCKS in *. unfold is_u32, nblk in *. lia.
    - apply Forall_lookup. intros i x Hx. pose proof (lookup_lt_Some _ _ _ Hx) as Hlt. rewrite (sd_ndirect _ _ _ S) in Hlt.
      rewrite (sd_direct _ _ _ S i Hlt) in Hx. injection Hx as <-. by eapply default_u32.
    - apply S.
    - rewrite (sd_ind _ _ _ S). destruct (decide (fv_ind v = 0)) as [->|Hne]; [unfold is_u32; lia|]. eapply own_u32; [done|by apply ind_own]. }
  split; [done|]. destruct (own_used p v (fv_ino v) Hv (ino_own v)) as [_ ->].
  rewrite <- (sd_ino _ _ _ S), (cl_inode _ _ _ Hcl p c Hc). unfold inode_block, pad. rewrite <- !app_assoc. by apply decode_encode_dinode.
Qed.

Lemma fblock_view p v c i : V !! p = Some v → inodes s !! p = Some c → stands (blocks s) c v → 0 ≤ i < MAX_BLOCKS →
  fblock t (inode c) i = default 0 (fv_blocks v !! Z.to_nat i).
Proof using Hi Hcl Hld.
  intros Hv Hc S Hr. unfold MAX_BLOCKS in Hr. unfold fblock. destruct (Z.ltb_spec i 12) as [Hlt|Hge].
  - rewrite (sd_direct _ _ _ S) by lia. done.
  - rewrite (sd_ind _ _ _ S). destruct (decide (nblk v ≤ 12)) as [Hn|Hn].
    + destruct (sd_small _ _ _ S Hn) as [-> _]. cbn [Z.eqb]. rewrite lookup_ge_None_2; [done|]. unfold nblk in Hn. lia.
    + destruct (sd_large _ _ _ S ltac:(lia)) as (Hne & cb & ws & _ & EB & El & Hw). rewrite (proj2 (Z.eqb_neq _ _) Hne).
      unfold ind_entry. destruct (own_used p v (fv_ind v) Hv (ind_own v Hne)) as [_ ->].
      rewrite (cl_numbers _ _ _ Hcl cb _ EB : g (fv_ind v) = _). unfold numbers_block, pad. cbn [cache].
      replace (Z.to_nat (4 * (i - 12))) with (4 * Z.to_nat (i - 12))%nat by lia.
      apply field_words; [|by eapply default_u32]. rewrite Hw by lia. do 3 f_equal. lia.
Qed.

(** The inode of a file on the volume is sound, and its blocks are those of the view. *)
Lemma view_file p v c (own : Z → Prop) : V !! p = Some v → inodes s !! p = Some c → stands (blocks s) c v → dinode_ok (inode c) →
  (∀ b, b ∈ fv_blocks v ∨ (b = fv_ind v ∧ fv_ind v ≠ 0) → ¬ own b) →
  file_inv t (inode c) own ∧ fdata t (inode c) = img s <$> fv_blocks v.
Proof using Hi Hcl Hld.
  intros Hv Hc S Hok Hown. pose proof (sd_blocks _ _ _ S) as Eb. pose proof (sd_max _ _ _ S) as Hm.
  assert (∀ i, 0 ≤ i < nblk v → ∃ b, fv_blocks v !! Z.to_nat i = Some b ∧ b ∈ fv_blocks v ∧ fblock t (inode c) i = b) as Hblk.
  { intros i Hr. destruct (lookup_lt_is_Some_2 (fv_blocks v) (Z.to_nat i)) as [b Hb]; [unfold nblk in Hr; lia|]. exists b.
    split; [done|]. split; [by apply list_elem_of_lookup_2 in Hb|]. rewrite (fblock_view p v c) by (done || lia). by rewrite Hb. }
  pose proof (mi_nodup _ _ Hi p v Hv) as Hnd. unfold own_blocks in Hnd. apply NoDup_cons in Hnd as [_ Hnd]. apply NoDup_app in Hnd as (_ & Hdis & Hnd).
  split; [split; [done|by rewrite Eb|..]; rewrite ?Eb|].
  - intros i Hr. destruct (Hblk i Hr) as (b & _ & Hin & ->). split_and!.
    + by apply (own_used p v b Hv), block_own.
    + apply Hown. by left.
    + rewrite (sd_ind _ _ _ S). intros ->. destruct (decide (fv_ind v = 0)) as [E|E].
      * pose proof (mi_range _ _ Hi p v _ Hv (block_own _ _ Hin)). pose proof (mi_start _ _ Hi). lia.
      * rewrite (proj2 (Z.eqb_neq _ _) E) in Hdis. apply (Hdis (fv_ind v)); [left|done].
  - intros i Hr. rewrite (fblock_view p v c); [|done..|unfold nblk in *; lia]. rewrite lookup_ge_None_2; [done|]. unfold nblk in Hr. lia.
  - intros i j Hri Hrj. destruct (Hblk i Hri) as (b & E1 & _ & ->). destruct (Hblk j Hrj) as (b' & E2 & _ & ->). intros ->.
    pose proof (NoDup_lookup _ _ _ _ Hnd E1 E2). lia.
  - rewrite (sd_ind _ _ _ S). intros Hne. split; [by apply (own_used p v _ Hv), ind_own|]. apply Hown. by right.
  - unfold fdata. rewrite Eb. apply list_eq. intros i. rewrite !list_lookup_fmap.
    destruct (decide (Z.of_nat i < nblk v)) as [Hlt|Hge].
    + destruct (Hblk (Z.of_nat i)) as (b & E & Hin & Ef); [lia|]. rewrite Nat2Z.id in E.
      rewrite lookup_seqZ_lt by lia. cbn. rewrite E. cbn. rewrite Z.add_0_l, Ef. f_equal.
      destruct (own_used p v b Hv (block_own _ _ Hin)) as [_ ->]. by apply (cl_data _ _ _ Hcl p v).
    + rewrite lookup_seqZ_ge by lia. by rewrite lookup_ge_None_2 by (unfold nblk in Hge; lia).
Qed.
(** ** The directory on the volume *)

(** The inode [ino], which the kernel finds in the directory [up], and the blocks it leads
    to hold the file [n] of the host.  [owner] says which inode a block belongs to, so no
    two files share a block. *)
Fixpoint kholds (owner : Z → Z) (n : node) (ino up : Z) : Prop :=
  let d := decode_dinode (sblk t ino) in
  let sin := mkSin d ino false 1 in
  let own b := owner b ≠ ino ∨ b = ino in
  used t ino ∧
  match n with
  | Reg _ c => di_type d = SFS_TYPE_FILE ∧ file_ok t sin own ∧ content t d = c
  | Lnk _ c => di_type d = SFS_TYPE_LINK ∧ file_ok t sin own ∧ content t d = c
  | Dir _ es => dir_ok t sin own ∧
      ∃ l, (λ e, (entry_name e, de_ino e)) <$> entries t d = (DOT, ino) :: (DOTDOT, up) :: l ∧ kholds_all owner es l ino
  | Other _ => False
  end
with kholds_all (owner : Z → Z) (es : dirents) (l : list (list Z * Z)) (ino : Z) : Prop :=
  match es with
  | Dnil => l = []
  | Dcons name n rest =>
      if listed name n then ∃ i l', l = (name, i) :: l' ∧ kholds owner n i ino ∧ kholds_all owner rest l' ino
      else kholds_all owner rest l ino
  end.

Definition owner_of (b : Z) : Z :=
  match list_find (λ e : ptr * fview, b ∈ own_blocks e.2) (map_to_list V) with Some (_, e) => fv_ino e.2 | None => 0 end.

Lemma owner_of_own p v b : V !! p = Some v → b ∈ own_blocks v → owner_of b = fv_ino v.
Proof using Hi.
  intros Hv Hb. unfold owner_of. destruct (list_find _ _) as [[k [q w]]|] eqn:E.
  - apply list_find_Some in E as (El & Hbw & _). cbn in *. apply list_elem_of_lookup_2, elem_of_map_to_list in El.
    assert (q = p) as -> by (by eapply (mi_disj _ _ Hi q p w v b)). congruence.
  - apply list_find_None in E. exfalso. rewrite Forall_forall in E. apply (E (p, v)); [|done]. by apply elem_of_map_to_list.
Qed.

Lemma data_own p v b : V !! p = Some v → b ∈ fv_blocks v ∨ (b = fv_ind v ∧ fv_ind v ≠ 0) → ¬ (owner_of b ≠ fv_ino v ∨ b = fv_ino v).
Proof using Hi.
  intros Hv Hb. pose proof (mi_nodup _ _ Hi p v Hv) as Hn. unfold own_blocks in Hn. apply NoDup_cons in Hn as [Hn _].
  assert (b ∈ own_blocks v) as Ho by (destruct Hb as [?|[-> ?]]; [by apply block_own|by apply ind_own]).
  rewrite (owner_of_own p v b Hv Ho). intros [?| ->]; [done|]. apply Hn, elem_of_app. destruct Hb as [?|[E Hne]]; [by right|left].
  rewrite (proj2 (Z.eqb_neq _ _) Hne). rewrite E. by left.
Qed.

(** A regular file or a link. *)
Lemma view_content p v ty c : V !! p = Some v → fv_type v = ty → ty = SFS_TYPE_FILE ∨ ty = SFS_TYPE_LINK →
  fv_size v ≤ 4096 * nblk v → vdata (img s) v = c →
  let d := decode_dinode (sblk t (fv_ino v)) in
  used t (fv_ino v) ∧ di_type d = ty ∧ file_ok t (mkSin d (fv_ino v) false 1) (λ b, owner_of b ≠ fv_ino v ∨ b = fv_ino v) ∧ content t d = c.
Proof using Hi Hcl Hld.
  intros Hv Ht Hty Hs Hc. assert (0 ≤ ty < 2 ^ 16) as Hr by (destruct Hty as [-> | ->]; unfold SFS_TYPE_FILE, SFS_TYPE_LINK; lia).
  destruct (inode_read p v Hv) as (ci & Eci & S & Hok & ->); [lia..|].
  destruct (view_file p v ci (λ b, owner_of b ≠ fv_ino v ∨ b = fv_ino v) Hv Eci S Hok) as [Hf Hd]; [intros b; by apply (data_own p v b)|].
  cbv zeta. split; [by apply (own_used p v _ Hv), ino_own|]. pose proof (sd_type _ _ _ S) as Et. rewrite Ht in Et. split; [done|]. split.
  - split; cbn [din]; [done|rewrite Et; destruct Hty as [-> | ->]; done|]. unfold size_ok. by rewrite (sd_size _ _ _ S), (sd_blocks _ _ _ S).
  - unfold content, fbytes. by rewrite (sd_size _ _ _ S), Hd.
Qed.

Lemma shows_kholds F : ∀ n p v up, V !! p = Some v → shows F V (img s) n p up → kholds owner_of n (fv_ino v) up
with shows_kholds_all F : ∀ es l ino, shows_all F V (img s) es l ino → kholds_all owner_of es l ino.
Proof using Hi Hcl Hld.
  - intros n p v up Hv Hs. destruct n as [r c|r c|r es|r]; destruct Hs as (_ & v' & Hv' & Hn); [..|done]; assert (v' = v) as -> by congruence.
    + destruct Hn as (Ht & Hsz & Hc). destruct (view_content p v _ c Hv Ht) as (Hu & E & Hf & Hcc); [by left|done|done|]. done.
    + destruct Hn as (Ht & Hsz & Hc). destruct (view_content p v _ c Hv Ht) as (Hu & E & Hf & Hcc); [by right|done|done|]. done.
    + destruct Hn as (Ht & l & El & Hl). cbn [kholds]. split; [by apply (own_used p v _ Hv), ino_own|].
      destruct (inode_read p v Hv) as (ci & Eci & S & Hok & ->); [rewrite Ht; unfold SFS_TYPE_DIR; lia..|].
      destruct (view_file p v ci (λ b, owner_of b ≠ fv_ino v ∨ b = fv_ino v) Hv Eci S Hok) as [Hf Hd]; [intros b; by apply (data_own p v b)|].
      pose proof (sd_type _ _ _ S) as Et. rewrite Ht in Et. split; [done|]. exists l. split; [|by apply (shows_kholds_all F)].
      unfold entries. rewrite Hd, <- !list_fmap_compose. exact El.
  - intros es l ino Hs. destruct es as [|name n rest]; cbn in *; [done|]. destruct (listed name n); [|by apply (shows_kholds_all F)].
    destruct Hs as (p & v & l' & Hv & -> & Hn & Hr). exists (fv_ino v), l'. split; [done|]. split; [by apply (shows_kholds F n p)|by apply (shows_kholds_all F)].
Qed.
End file.
End volume.
