(* ===== verification/MksfsImage.v ===== *)
(** * From a directory of the host to a mounted volume

    The whole run of mksfs, and what the kernel finds when it mounts the image. *)

From S2P Require Import Prelude Hash Bitmap SfsDisk Sfs SfsInv SfsMap SfsFile SfsDir SfsVfs SfsSync SfsDemo Mksfs MksfsInv MksfsTree MksfsMount.

(** The blocks of the image that are used. *)
Definition image_blocks (size : Z) : Z := if SFS_MAX_NBLKS <? size / SFS_BLKSIZE then SFS_MAX_NBLKS else size / SFS_BLKSIZE.

Lemma create_ok size junk image : 0 ≤ size < 2 ^ 44 → length junk = 32%nat → 0 < image_blocks size → data_start (image_blocks size) < image_blocks size →
  ∃ root s, create_sfs size junk image = Ok (root, s) ∧ mk_inv s {[root := new_view 1 0 SFS_TYPE_DIR]} ∧ ninos s = image_blocks size ∧
    next_ino s = data_start (image_blocks size) ∧ img s = image ∧ sb_magic (sup s) = SFS_MAGIC ∧ length (sb_info (sup s)) = 32%nat.
Proof.
  intros Hs Hj Hn Hd. unfold create_sfs. change SFS_BLKSIZE with 4096.
  assert (0 ≤ size / 4096 < 2 ^ 32) as Hq by (split; [apply Z.div_pos; lia|apply Z.div_lt_upper_bound; lia]).
  rewrite (u32_small (size / 4096)) by done. change (if SFS_MAX_NBLKS <? size / 4096 then SFS_MAX_NBLKS else size / 4096) with (image_blocks size).
  set (n := image_blocks size) in *.
  assert (n ≤ 2 ^ 19) as Hmax by (unfold n, image_blocks; change SFS_MAX_NBLKS with (2 ^ 19); destruct (Z.ltb_spec (2 ^ 19) (size / SFS_BLKSIZE)); lia).
  destruct (data_start_bounds n) as [Hds _]; [lia|].
  assert (u32 (SFS_BLKN_FREEMAP + u32 (n + SFS_BLKBITS - 1) / SFS_BLKBITS) = data_start n) as ->.
  { rewrite (u32_small (n + SFS_BLKBITS - 1)) by (change SFS_BLKBITS with 32768; lia). apply u32_small. unfold data_start in Hds |- *. lia. }
  rewrite (proj2 (Z.leb_gt _ _)) by lia. cbv zeta. set (s0 := mkMk _ _ _ _ _ _ _ _ _).
  assert (mk_inv s0 ∅) as Hi0.
  { split; cbn; try done; try lia; try (intros; simplify_map_eq; done); try (intros; set_solver); by intros ? [? ?]; simplify_map_eq. }
  unfold alloc_cache_inode. change (SFS_BLKN_ROOT) with 1. cbn [Z.eqb negb bind]. eexists _, _. split; [done|].
  split; [|split_and!; try done].
  - rewrite <- insert_empty. apply inv_new; [done|done|by intros p v Hv|by left|done].
  - cbn. rewrite length_drop, Hj. done.
Qed.

(** ** The map as bytes *)

Lemma encode_words_drop n ws : (n ≤ length ws)%nat → drop (4 * n) (encode_words ws) = encode_words (drop n ws).
Proof.
  intros Hn. rewrite <- (take_drop n ws) at 1. rewrite encode_words_app, drop_app_length'; [done|].
  rewrite length_encode_words, length_take. lia.
Qed.

Lemma encode_words_take n ws : (n ≤ length ws)%nat → take (4 * n) (encode_words ws) = encode_words (take n ws).
Proof.
  intros Hn. rewrite <- (take_drop n ws) at 1. rewrite encode_words_app, take_app_length'; [done|].
  rewrite length_encode_words, length_take. lia.
Qed.

Lemma free_words_block lo hi k i : (i < Z.to_nat k)%nat → 0 ≤ k →
  take 4096 (drop (4096 * i) (encode_words (free_words lo hi k))) = encode_words (map_word lo hi <$> seq (i * 1024) 1024).
Proof.
  intros Hi Hk. unfold free_words.
  assert (length (map_word lo hi <$> seq 0 (Z.to_nat (k * 1024))) = Z.to_nat (k * 1024)) as El by (by rewrite length_fmap, length_seq).
  replace (4096 * i)%nat with (4 * (1024 * i))%nat by lia. rewrite encode_words_drop by lia.
  change 4096%nat with (4 * 1024)%nat. rewrite encode_words_take by (rewrite length_drop; lia). f_equal.
  apply list_eq. intros j. rewrite lookup_take. case_decide as Hj.
  - rewrite lookup_drop, !list_lookup_fmap, !lookup_seq_lt by lia. cbn. do 2 f_equal. lia.
  - by rewrite list_lookup_fmap, lookup_seq_ge by lia.
Qed.

(** ** The mount *)

Section mount.
Context {D : Type} `{block_dev_laws D}.

Lemma mount_image s V g (d : D) : mk_inv s V → closed s V g → sb_magic (sup s) = SFS_MAGIC → length (sb_info (sup s)) = 32%nat →
  dev_ok d → dev_sound d → ninos s ≤ dev_blocks d → (∀ b, 0 ≤ b < ninos s → blk d b = g b) →
  ∃ t d', read_volume [] d = Ok (0, Some t, d') ∧ volume_ok t ∧ loaded s g t.
Proof.
  intros Hi Hcl Hmag Hinf Hd Hsd Hdb Hblk.
  pose proof (mi_start _ _ Hi). pose proof (mi_next _ _ Hi). pose proof (mi_max _ _ Hi). pose proof (mi_unused _ _ Hi) as Hun. pose proof (mi_blocks _ _ Hi) as Hsb.
  destruct (data_start_bounds (ninos s)) as [Hds Hbd]; [lia|].
  set (sb := mkSuper (sb_magic (sup s)) (sb_blocks (sup s)) (sb_unused_blocks (sup s)) (<[31%nat := 0]> (sb_info (sup s)))).
  set (vol := λ d' : D, mkSfs sb d' (free_map (next_ino s) (ninos s) (nmaps (ninos s))) false (blk d 0) [] (replicate (Z.to_nat SFS_HLIST_SIZE) [])).
  assert (super_ok (sup s)) as Hso by (split; [rewrite Hmag; done|unfold is_u32; lia|unfold is_u32; lia|done]).
  assert (sfs_freemap_blocks sb = nmaps (ninos s)) as Ek.
  { unfold sfs_freemap_blocks, ROUNDUP_DIV. cbn [sb sb_blocks]. rewrite Hsb. change SFS_BLKBITS with 32768. rewrite ?u32_small by lia.
    unfold nmaps, data_start. change SFS_BLKBITS with 32768. change SFS_BLKN_FREEMAP with 2. lia. }
  assert (length (blk d 0) = 4096%nat) as El0 by (by apply blk_length).
  assert (∀ d', dev_ok d' → dev_blocks d' = dev_blocks d → volume_ok (vol d')) as Hvol.
  { intros d' Hd' En. split.
    - split; cbn.
      + split; cbn; [done|lia|lia|done].
      + apply free_map_inv; unfold nmaps in *; lia.
      + rewrite Hsb. unfold nmaps in *. lia.
      + intros b Hb. rewrite free_map_bit by (unfold nmaps in *; lia). intros [Hlo%Z.leb_le Hhi%Z.ltb_lt]%andb_prop. lia.
      + rewrite free_map_count by (unfold nmaps in *; lia). done.
    - destruct Hso. split; try done. cbn. by rewrite length_insert.
    - done.
    - cbn. apply list_lookup_insert_eq. rewrite Hinf. lia.
    - cbn. lia.
    - cbn. unfold sfs_freemap_bits. fold (sfs_freemap_blocks sb). by rewrite Ek.
    - cbn [super vol]. rewrite Ek. change SFS_BLKN_FREEMAP with 2. cbn [sb sb_blocks]. unfold nmaps. lia. }
  destruct (read_volume_ok (vol d) d (sup s)) as (d' & E & Hd' & Hsd' & En & Hx); [by apply Hvol|done|done|cbn; lia| | | |].
  - rewrite (Hblk 0), (cl_super _ _ _ Hcl) by lia. unfold pad. by apply decode_encode_super.
  - done.
  - intros i Hir. cbn [super vol freemap] in *. rewrite Ek in Hir. cbn [map free_map]. unfold nmaps in *.
    rewrite free_words_block by lia. rewrite (Hblk (2 + Z.of_nat i)), (cl_map _ _ _ Hcl) by lia. do 3 f_equal. lia.
  - exists (vol d'), d'. split; [exact E|]. assert (volume_ok (vol d')) as Hv by (by apply Hvol). split; [done|].
    split; [apply Hv|done|done|]. intros b Hb. unfold sblk. cbn [dev vol]. rewrite Hx. by apply Hblk.
Qed.

(** The directory of the host can be put into an image of [size] bytes: [fc] is the content
    of a regular file by its inode number, 0 is no inode number of the host, and there are
    enough blocks. *)
Record image_ok (fc : Z → option (list Z)) (size : Z) (junk : list Z) (image : Z → list Z) (home : dirents) : Prop := {
  io_size : 0 ≤ size < 2 ^ 44;
  io_junk : length junk = 32%nat;
  io_image b : length (image b) = 4096%nat;
  io_blocks : data_start (image_blocks size) + 3 + cost home ≤ image_blocks size;
  io_home : dirents_ok fc home;
  io_count : count home + 2 ≤ MAX_BLOCKS;
  io_zero : fc 0 = None ∧ 0 ∉ dirs home
}.

(** C2: The kernel finds on an image what mksfs was given.  For every directory of the host that
    fits, the program runs to its end, and every device that holds the image is mounted
    without an error, as a consistent volume whose root directory holds the listed
    entries of the directory, in their order, with the content of every regular file and
    link, all the way down; no two inodes share a block. *)
Theorem mksfs_mounts fc size junk image home : image_ok fc size junk image home →
  ∃ g, create_img size junk image home = Ok g ∧ (∀ b, length (g b) = 4096%nat) ∧
    ∀ d : D, dev_ok d → dev_sound d → image_blocks size ≤ dev_blocks d → (∀ b, 0 ≤ b < image_blocks size → blk d b = g b) →
      ∃ t d' owner, read_volume [] d = Ok (0, Some t, d') ∧ volume_ok t ∧ kholds t owner (Dir 0 home) SFS_BLKN_ROOT SFS_BLKN_ROOT.
Proof.
  intros [Hs Hj Him Hb Hok Hc [Hz Hz']]. pose proof (cost_nonneg home) as Hcn. pose proof (entry_count_nonneg home).
  assert (0 < image_blocks size) as Hpos.
  { unfold image_blocks in *. destruct (SFS_MAX_NBLKS <? _); [done|]. assert (0 ≤ size / SFS_BLKSIZE) by (apply Z.div_pos; [lia|done]).
    assert (0 ≤ data_start (size / SFS_BLKSIZE)) by (unfold data_start; change SFS_BLKN_FREEMAP with 2; change SFS_BLKBITS with 32768;
      assert (0 ≤ (size / SFS_BLKSIZE + 32768 - 1) / 32768) by (apply Z.div_pos; lia); lia). lia. }
  destruct (create_ok size junk image) as (root & s0 & E0 & Hi0 & En0 & Ex0 & Ei0 & Em0 & El0); [done|done|done|lia|].
  unfold create_img. rewrite E0. cbn [bind]. set (v0 := new_view 1 0 SFS_TYPE_DIR) in *. set (V0 := {[root := v0]}) in *.
  assert (V0 !! root = Some v0) as Hv0 by apply lookup_singleton_eq.
  assert (∀ q w, V0 !! q = Some w → q = root ∧ w = v0) as HV0 by (intros q w [<- <-]%lookup_singleton_Some; done).
  assert (ws fc s0 V0 (λ _, False)) as Hw0.
  { split; [done|intros b; rewrite Ei0; apply Him|by intros p []|]. intros p v c [-> ->]%HV0. cbn. congruence. }
  destruct (open_dir_start fc s0 V0 (λ _, False) root v0 root v0) as (s1 & s2 & V2 & v2 & E1 & E2 & He2 & Hv2 & Hn2 & Hb2 & Hs2 & Hr2 & _);
    [split; try done; [by intros []|change (pot v0) with 1; lia]|done|].
  unfold open_dir. rewrite E1. cbn [bind]. rewrite E2. cbn [bind].
  destruct (ex_view _ _ _ _ _ _ He2 root v0 Hv0) as (v2' & E & Ei2 & Er2 & Et2 & _). assert (v2' = v2) as -> by congruence. clear E.
  pose proof (ex_ninos _ _ _ _ _ _ He2) as En2. change (pot v0) with 1 in Hr2. change (nblk v0) with 0 in Hb2.
  destruct (read_entries_ok fc home s2 V2 (λ _, False) root v2) as (s3 & V3 & F3 & v3 & l & -> & [He3 Hw3 Hv3 _ _ Hna3 _ _] & Hsh3).
  { split; [eapply ws_ext; [exact Hw0|exact He2|by intros q []]|done|by rewrite Et2|by intros []|done|lia|lia]. }
  { done. }
  { intros q w Hq. destruct (V0 !! q) as [w0|] eqn:Hq0; [|by destruct (ex_new _ _ _ _ _ _ He2 q w Hq Hq0)]. destruct (HV0 q w0 Hq0) as [-> ->].
    assert (w = v2) as -> by congruence. by rewrite Er2. }
  cbn [bind]. destruct (ex_view _ _ _ _ _ _ He3 root v2 Hv2) as (v3' & E & Ei3 & _ & Et3 & _). assert (v3' = v3) as -> by congruence. clear E.
  pose proof (ex_ninos _ _ _ _ _ _ He3) as En3. pose proof (ws_inv _ _ _ _ Hw3) as Hi3.
  assert (sb_magic (sup s3) = SFS_MAGIC ∧ length (sb_info (sup s3)) = 32%nat) as [Em3 El3].
  { by rewrite (ex_magic _ _ _ _ _ _ He3), (ex_magic _ _ _ _ _ _ He2), (ex_info _ _ _ _ _ _ He3), (ex_info _ _ _ _ _ _ He2). }
  destruct (close_ok s3 V3 Hi3 El3) as (g & -> & Hcl). cbn [bind set_img img]. exists g. split; [done|].
  split; [intros b; apply (cl_full _ _ _ Hcl), (ws_full _ _ _ _ Hw3)|]. intros d Hd Hsd Hdb Hblk.
  assert (ninos s3 = image_blocks size) as En by congruence.
  destruct (mount_image s3 V3 g d) as (t & d' & E & Hvo & Hld); [done|done|done|done|done|done|by rewrite En|by rewrite En|].
  exists t, d', (owner_of V3). split; [done|]. split; [done|].
  assert (fv_ino v3 = 1) as E1' by (by rewrite Ei3, Ei2).
  change SFS_BLKN_ROOT with 1. rewrite <- E1' at 1.
  apply (shows_kholds s3 V3 g t Hi3 Hcl Hld (λ q, F3 q ∨ q = root) (Dir 0 home) root v3 1 Hv3).
  cbn [shows]. split; [by right|]. exists v3. split; [done|]. split; [by rewrite Et3, Et2|]. exists l.
  rewrite Hna3, Hn2, Ei3, Ei2. split; [done|]. rewrite Ei2 in Hsh3.
  exact (shows_all_mono F3 _ (λ _, False) (λ _, False) s3 V3 s3 V3 Hi3 (ext_refl _ _ _ _ Hi3) (λ _ _ Hc, Hc) (λ q Hq, or_introl Hq) home l _ Hsh3).
Qed.
End mount.

(** ** An image *)

(** A file with two names, one of them in a subdirectory, a link, a hidden file that is left
    out, and a file that needs a block of block numbers. *)
Definition home_with (file : list Z) : dirents :=
  Dcons [97] (Reg 5 [1; 2; 3]) (Dcons [46; 104] (Reg 6 [9]) (Dcons [100] (Dir 9 (Dcons [98] (Reg 5 [1; 2; 3]) (Dcons [99] (Reg 7 file) Dnil)))
    (Dcons [108] (Lnk 8 [47; 97]) Dnil))).
Definition contents_with (file : list Z) (r : Z) : option (list Z) := if r =? 5 then Some [1; 2; 3] else if r =? 7 then Some file else None.

Lemma home_with_ok file : nb file = 13 → image_ok (contents_with file) (64 * 4096) (replicate 32 77) (λ _, zero_block) (home_with file).
Proof.
  intros El.
  assert (∀ c, c ≠ 0 → clean_name [c]) as Hcl.
  { intros c Hc. split; [cbn; lia|by repeat constructor]. }
  assert (cost (home_with file) = 33) as Ec by (cbn; rewrite El; reflexivity).
  split; [lia|done|done|rewrite Ec; vm_compute; discriminate| |vm_compute; discriminate|split; [done|cbn; set_solver]].
  cbn. repeat match goal with |- context [listed ?n ?x] => let b := eval vm_compute in (listed n x) in change (listed n x) with b end.
  cbn. rewrite El. change (nb [1; 2; 3]) with 1. unfold MAX_BLOCKS.
  split_and!; try done; try lia; try (by apply Hcl); try (intros r Hr; set_solver); set_solver.
Qed.

Definition long_file : list Z := mjoin (replicate 53 (replicate 1000 7)).
Definition home0 : dirents := home_with long_file.

Lemma home0_ok : image_ok (contents_with long_file) (64 * 4096) (replicate 32 77) (λ _, zero_block) home0.
Proof. apply home_with_ok. vm_compute. reflexivity. Qed.

Definition ram_of (n : Z) (g : Z → list Z) : ramdisk := mkRam n (list_to_map ((λ b, (b, g b)) <$> seqZ 0 n)).

Lemma ram_of_get n g b : 0 ≤ b < n → ram_get (ram_of n g) b = g b.
Proof.
  intros Hb. unfold ram_get, ram_of. cbn [ram_data]. erewrite elem_of_list_to_map_1; [done| |].
  - rewrite <- list_fmap_compose. cbn. rewrite list_fmap_id. apply NoDup_seqZ.
  - apply list_elem_of_fmap. exists b. split; [done|]. apply elem_of_seqZ. lia.
Qed.

Lemma mksfs_mounts_witness :
  ∃ g, create_img (64 * 4096) (replicate 32 77) (λ _, zero_block) home0 = Ok g ∧
    ∃ t d' owner, read_volume [] (ram_of 64 g) = Ok (0, Some t, d') ∧ volume_ok t ∧ kholds t owner (Dir 0 home0) 1 1.
Proof.
  destruct (mksfs_mounts (D := ramdisk) (contents_with long_file) (64 * 4096) (replicate 32 77) (λ _, zero_block) home0 home0_ok) as (g & E & Hl & Hd).
  exists g. split; [exact E|]. apply (Hd (ram_of 64 g)).
  - intros b. unfold ram_get, ram_of. cbn [ram_data]. destruct (list_to_map _ !! b) as [x|] eqn:Ex; [|apply length_zero_block].
    apply elem_of_list_to_map_2, list_elem_of_fmap in Ex as (y & [= -> ->] & _). apply Hl.
  - exact I.
  - vm_compute. discriminate.
  - intros b Hb. by apply ram_of_get.
Defined.

(** Of the entry 256 bytes are written, so a longer name loses its end. *)
Lemma long_name_cut : entry_name (block_entry (pad (take 256 (encode_entry (mkEntry 3 (replicate 255 97 ++ [0])))))) = replicate 252 97.
Proof. vm_compute. reflexivity. Qed.
