(* ===== verification/Sysfile.v ===== *)
(** * kern/fs/sysfile.c: system calls on files

    The calls move paths, buffers and structures between the memory of the process and
    buffers of the kernel, in chunks of [IOBUF_SIZE] bytes, and call file.c.  The state is
    the address spaces and the state of the files; [bytes] is the memory that both user
    and kernel pointers designate.  A [kmalloc] is the address that it returns, or [None].
    The locks of the address space protect sections that do not switch processes. *)

From S2P Require Import Prelude CString Iobuf Vmm Vfs File SfsDisk.

Definition IOBUF_SIZE : Z := 4096.
Definition FS_MAX_FPATH_LEN : Z := 4095.

(** [umm] is [current->mm]. *)
Record ustate (F : Type) := mkU { umm : option Z; uva : vmm; uvs : vstate F }.
Arguments mkU {F}.
Arguments umm {F}.
Arguments uva {F}.
Arguments uvs {F}.

Section sysfile.
Context {F : Type} `{vfs_impl F}.
Notation US := (ustate F).
Implicit Types u : US.

Definition set_uvs v u : US := mkU (umm u) (uva u) v.
Definition set_umem (a : vmm) (m : mem) u : US := mkU (umm u) a (set_bytes m (uvs u)).
Definition umem u : mem := bytes (uvs u).

(** A call of file.c. *)
Definition on_files {A} (f : vstate F → res (A * vstate F)) u : res (A * US) :=
  let! (a, v) := f (uvs u) in Ok (a, set_uvs v u).

(** The three functions of vmm.c that cross the border. *)
Definition from_user (dst src len : Z) (writable : bool) u : res (bool * US) :=
  let! (ok, a, m) := copy_from_user (uva u) (umem u) (umm u) dst src len writable in Ok (ok, set_umem a m u).
Definition to_user (dst src len : Z) u : res (bool * US) :=
  let! (ok, a, m) := copy_to_user (uva u) (umem u) (umm u) dst src len in Ok (ok, set_umem a m u).
Definition string_from_user (dst src maxn : Z) u : res (bool * US) :=
  let! (ok, a, m) := copy_string (uva u) (umem u) (umm u) dst src maxn in Ok (ok, set_umem a m u).

(** The path is the string in the buffer. *)
Definition copy_path (buf : option ptr) (from : Z) u : res (Z * list Z * US) :=
  match buf with
  | None => Ok (- E_NO_MEM, [], u)
  | Some b =>
      let! (ok, u) := string_from_user b from (FS_MAX_FPATH_LEN + 1) u in
      if negb ok then Ok (- E_INVAL, [], u) else
      let! n := strlen (umem u) b in
      let! path := load_bytes (Z.to_nat n) (umem u) b in Ok (0, path, u)
  end.

(** [junk] is the indeterminate value described at [vfs_open]. *)
Definition sysfile_open (buf junk : option ptr) (path open_flags : Z) u : res (Z * US) :=
  let! (ret, path, u) := copy_path buf path u in
  if decide (ret ≠ 0) then Ok (ret, u) else on_files (file_open junk path open_flags) u.

Definition sysfile_close (fd : Z) u : res (Z * US) := on_files (file_close fd) u.

(** The value that the calls return from [out] on. *)
Definition copied_or (copied ret : Z) : Z := if negb (copied =? 0) then i32 copied else ret.

(** Every round but the last transfers at least one byte, so [len + 1] rounds are enough. *)
Fixpoint read_rounds (n : nat) (fd base len copied ret buffer : Z) u : res (Z * US) :=
  if len =? 0 then Ok (copied_or copied ret, u) else
  match n with
  | O => NoFuel
  | S n =>
      let alen := if len <? IOBUF_SIZE then len else IOBUF_SIZE in
      let! (ret, alen, u) := on_files (file_read fd buffer alen) u in
      let! (base, len, copied, ret, u) :=
        if negb (alen =? 0) then
          let! (ok, u) := to_user base buffer alen u in
          if ok : bool then assert! alen <=? len ;; Ok (u32 (base + alen), len - alen, u32 (copied + alen), ret, u)
          else Ok (base, len, copied, if ret =? 0 then - E_INVAL else ret, u)
        else Ok (base, len, copied, ret, u) in
      if negb (ret =? 0) || (alen =? 0) then Ok (copied_or copied ret, u)
      else read_rounds n fd base len copied ret buffer u
  end.

Definition sysfile_read (buf : option ptr) (fd base len : Z) u : res (Z * US) :=
  if len =? 0 then Ok (0, u) else
  let! ok := file_testfd fd true false (uvs u) in
  if negb ok then Ok (- E_INVAL, u) else
  match buf with
  | None => Ok (- E_NO_MEM, u)
  | Some buffer => read_rounds (S (Z.to_nat len)) fd base len 0 0 buffer u
  end.

Fixpoint write_rounds (n : nat) (fd base len copied ret buffer : Z) u : res (Z * US) :=
  if len =? 0 then Ok (copied_or copied ret, u) else
  match n with
  | O => NoFuel
  | S n =>
      let alen := if len <? IOBUF_SIZE then len else IOBUF_SIZE in
      let! (ok, u) := from_user buffer base alen false u in
      let ret := if ok : bool then ret else - E_INVAL in
      let! (base, len, copied, ret, alen, u) :=
        if ret =? 0 then
          let! (ret, alen, u) := on_files (file_write fd buffer alen) u in
          if negb (alen =? 0) then assert! alen <=? len ;; Ok (u32 (base + alen), len - alen, u32 (copied + alen), ret, alen, u)
          else Ok (base, len, copied, ret, alen, u)
        else Ok (base, len, copied, ret, alen, u) in
      if negb (ret =? 0) || (alen =? 0) then Ok (copied_or copied ret, u)
      else write_rounds n fd base len copied ret buffer u
  end.

Definition sysfile_write (buf : option ptr) (fd base len : Z) u : res (Z * US) :=
  if len =? 0 then Ok (0, u) else
  let! ok := file_testfd fd false true (uvs u) in
  if negb ok then Ok (- E_INVAL, u) else
  match buf with
  | None => Ok (- E_NO_MEM, u)
  | Some buffer => write_rounds (S (Z.to_nat len)) fd base len 0 0 buffer u
  end.

Definition sysfile_seek (fd pos whence : Z) u : res (Z * US) := on_files (file_seek fd pos whence) u.

(** [struct stat] in memory. *)
Definition encode_stat (st : stat) : list Z :=
  le_bytes 4 (st_mode st) ++ le_bytes 4 (st_nlinks st) ++ le_bytes 4 (st_blocks st) ++ le_bytes 4 (st_size st).

(** [loc] is the address of [__local_stat] on the kernel stack. *)
Definition sysfile_fstat (loc fd st : Z) u : res (Z * US) :=
  let! (ret, o, u) := on_files (file_fstat fd) u in
  if decide (ret ≠ 0) then Ok (ret, u) else
  let! x := deref o in
  let! m := store_bytes (umem u) loc (encode_stat x) in
  let! (ok, u) := to_user st loc 16 (set_umem (uva u) m u) in
  Ok (if ok : bool then 0 else - E_INVAL, u).

Definition sysfile_fsync (fd : Z) u : res (Z * US) := on_files (file_fsync fd) u.

Definition sysfile_chdir (buf : option ptr) (path : Z) u : res (Z * US) :=
  let! (ret, path, u) := copy_path buf path u in
  if decide (ret ≠ 0) then Ok (ret, u) else on_files (vfs_chdir path) u.

(** [vfs_link], [vfs_rename] and [vfs_unlink] return [-E_UNIMP]. *)
Definition sysfile_link (buf1 buf2 : option ptr) (path1 path2 : Z) u : res (Z * US) :=
  let! (ret, old, u) := copy_path buf1 path1 u in
  if decide (ret ≠ 0) then Ok (ret, u) else
  let! (ret, new, u) := copy_path buf2 path2 u in
  if decide (ret ≠ 0) then Ok (ret, u) else Ok (- E_UNIMP, u).

Definition sysfile_rename (buf1 buf2 : option ptr) (path1 path2 : Z) u : res (Z * US) := sysfile_link buf1 buf2 path1 path2 u.

Definition sysfile_unlink (buf : option ptr) (path : Z) u : res (Z * US) :=
  let! (ret, path, u) := copy_path buf path u in
  if decide (ret ≠ 0) then Ok (ret, u) else Ok (- E_UNIMP, u).

(** [str] is the address of the name of the device. *)
Definition sysfile_getcwd (str buf len : Z) u : res (Z * US) :=
  if len =? 0 then Ok (- E_INVAL, u) else
  let! (ok, a) := user_mem_check (uva u) (umm u) buf len true in
  let u := mkU (umm u) a (uvs u) in
  if ok : bool then
    let! (ret, _, v) := vfs_getcwd str (iobuf_init buf len 0) (uvs u) in Ok (ret, set_uvs v u)
  else Ok (- E_INVAL, u).

(** [struct dirent] has the offset in front of the name. *)
Definition sysfile_getdirentry (buf : option ptr) (fd direntp : Z) u : res (Z * US) :=
  match buf with
  | None => Ok (- E_NO_MEM, u)
  | Some b =>
      let! (ok, u) := from_user b direntp 4 true u in
      if negb ok then Ok (- E_INVAL, u) else
      let! off := load_bytes 4 (umem u) b in
      let! (ret, off, u) := on_files (file_getdirentry fd (b + 4) (i32 (le_val off))) u in
      let! m := store_bytes (umem u) b (le_bytes 4 (u32 off)) in
      let u := set_umem (uva u) m u in
      if decide (ret ≠ 0) then Ok (ret, u) else
      let! (ok, u) := to_user direntp b (4 + (FS_MAX_FNAME_LEN + 1)) u in
      Ok (if ok : bool then 0 else - E_INVAL, u)
  end.

Definition sysfile_dup (fd1 fd2 : Z) u : res (Z * US) := on_files (file_dup fd1 fd2) u.
Definition sysfile_pipe (fd_store : Z) u : res (Z * US) := Ok (- E_UNIMP, u).
Definition sysfile_mkfifo (name open_flags : Z) u : res (Z * US) := Ok (- E_UNIMP, u).

(** ** The calls of a process *)

(** The addresses are what [kmalloc] returns for buffers, or on the kernel stack. *)
Inductive sysfile_call :=
  | Sopen (buf junk : option ptr) (path open_flags : Z)
  | Sclose (fd : Z)
  | Sread (buf : option ptr) (fd base len : Z)
  | Swrite (buf : option ptr) (fd base len : Z)
  | Sseek (fd pos whence : Z)
  | Sfstat (loc fd st : Z)
  | Sfsync (fd : Z)
  | Schdir (buf : option ptr) (path : Z)
  | Slink (buf1 buf2 : option ptr) (path1 path2 : Z)
  | Srename (buf1 buf2 : option ptr) (path1 path2 : Z)
  | Sunlink (buf : option ptr) (path : Z)
  | Sgetcwd (str buf len : Z)
  | Sgetdirentry (buf : option ptr) (fd direntp : Z)
  | Sdup (fd1 fd2 : Z)
  | Spipe (fd_store : Z)
  | Smkfifo (name open_flags : Z).

Definition sysfile (c : sysfile_call) u : res (Z * US) :=
  match c with
  | Sopen buf junk path open_flags => sysfile_open buf junk path open_flags u
  | Sclose fd => sysfile_close fd u
  | Sread buf fd base len => sysfile_read buf fd base len u
  | Swrite buf fd base len => sysfile_write buf fd base len u
  | Sseek fd pos whence => sysfile_seek fd pos whence u
  | Sfstat loc fd st => sysfile_fstat loc fd st u
  | Sfsync fd => sysfile_fsync fd u
  | Schdir buf path => sysfile_chdir buf path u
  | Slink buf1 buf2 path1 path2 => sysfile_link buf1 buf2 path1 path2 u
  | Srename buf1 buf2 path1 path2 => sysfile_rename buf1 buf2 path1 path2 u
  | Sunlink buf path => sysfile_unlink buf path u
  | Sgetcwd str buf len => sysfile_getcwd str buf len u
  | Sgetdirentry buf fd direntp => sysfile_getdirentry buf fd direntp u
  | Sdup fd1 fd2 => sysfile_dup fd1 fd2 u
  | Spipe fd_store => sysfile_pipe fd_store u
  | Smkfifo name open_flags => sysfile_mkfifo name open_flags u
  end.

Fixpoint sysfiles (cs : list sysfile_call) u : res US :=
  match cs with
  | [] => Ok u
  | c :: cs => let! (_, u) := sysfile c u in sysfiles cs u
  end.
End sysfile.
