(* ===== verification/OpenFiles.v ===== *)
(** * Sequences of file calls, fork and exit

    The properties of the tables of open files, and their witnesses on a kernel that
    has only devices. *)

From S2P Require Import Prelude CString Iobuf Vfs File FileInv FileTable Dev DevInv.

Section open_files.
Context {F : Type} `{vfs_impl F} `{!vfs_laws}.
Implicit Types s : vstate F.

(** A call that cannot create a file. *)
Definition no_create (c : file_call) : Prop :=
  match c with Copen _ _ flags => has_bit flags O_CREAT = false | _ => True end.

Lemma run_call_kept (b : Prop) c s t :
  fss s !! filesp s = Some t → table_ok t → (b → no_create c) → yields (λ s', kept b s s' t) (run_call c s).
Proof.
  intros Ht Hok Hb. destruct c; cbn [run_call].
  - eapply yields_bind; [by apply (file_open_kept b s t Ht Hok)|]. by intros [r s'] K.
  - eapply yields_bind; [by apply (file_close_kept b s t Ht Hok)|]. by intros [r s'] K.
  - eapply yields_bind; [apply (transfer_kept b s t Ht Hok true vop_read); intros; by eapply law_read|]. by intros [[r k] s'] K.
  - eapply yields_bind; [apply (transfer_kept b s t Ht Hok false vop_write); intros; by eapply law_write|]. by intros [[r k] s'] K.
  - eapply yields_bind; [by apply (file_seek_kept b s t Ht Hok)|]. by intros [r s'] K.
  - eapply yields_bind; [by apply (file_fstat_kept b s t Ht Hok)|]. by intros [[r st] s'] K.
  - eapply yields_bind; [by apply (file_fsync_kept b s t Ht Hok)|]. by intros [r s'] K.
  - eapply yields_bind; [by apply (file_getdirentry_kept b s t Ht Hok)|]. by intros [[r off] s'] K.
  - eapply yields_bind; [by apply (file_dup_kept b s t Ht Hok)|]. by intros [r s'] K.
  - eapply yields_bind; [by apply (vfs_chdir_kept b s t Ht Hok)|]. by intros [r s'] K.
Qed.

Lemma kept_trans (b : Prop) s1 s2 s3 t :
  kept b s1 s2 t → (∀ t2, fss s2 !! filesp s1 = Some t2 → table_ok t2 → kept b s2 s3 t2) → kept b s1 s3 t.
Proof.
  intros [Hp Ho (t2 & Ht2 & Hok2 & Hc)] Hk. destruct (Hk t2 Ht2 Hok2) as [Hp' Ho' (t3 & Ht3 & Hok3 & Hc')].
  rewrite Hp in *. split; [done|intros q Hq; by rewrite Ho', Ho|]. exists t3. split_and!; [done..|].
  intros Hb p. destruct (Hc Hb p) as [[k Hk1] [l Hl1]], (Hc' Hb p) as [[k' Hk2] [l' Hl2]].
  split; [exists (k + k')|exists (l + l')]; lia.
Qed.

Lemma run_calls_kept (b : Prop) cs s t :
  fss s !! filesp s = Some t → table_ok t → (b → Forall no_create cs) → yields (λ s', kept b s s' t) (run_calls cs s).
Proof.
  revert s t. induction cs as [|c cs IH]; intros s t Ht Hok Hb; cbn [run_calls]; [by apply kept_refl|].
  eapply yields_bind; [apply (run_call_kept b c s t); [done..|]; intros Hb'; specialize (Hb Hb'); by inversion Hb|].
  intros s1 K. pose proof K as [Hp _ (t1 & Ht1 & Hok1 & _)].
  eapply yields_weaken; [apply (IH s1 t1); [by rewrite Hp|done|]; intros Hb'; specialize (Hb Hb'); by inversion Hb|].
  intros s2 K2. eapply kept_trans; [exact K|]. intros t2 Ht2 _. rewrite Ht1 in Ht2. by injection Ht2 as <-.
Qed.

(** C35: whatever a process does with its files, its table stays a table: 145
    entries, each under its own number, and either free or open exactly once on an inode.
    The tables of other processes are not touched, and no sequence of calls runs
    forever. *)
Theorem run_calls_table_ok cs s t :
  fss s !! filesp s = Some t → table_ok t →
  yields (λ s', filesp s' = filesp s ∧ (∀ q, q ≠ filesp s → fss s' !! q = fss s !! q) ∧
                ∃ t', fss s' !! filesp s = Some t' ∧ table_ok t') (run_calls cs s).
Proof.
  intros Ht Hok. eapply yields_weaken; [by apply (run_calls_kept False cs s t)|].
  intros s' [Hp Ho (t' & Ht' & Hok' & _)]. eauto 6.
Qed.

(** no file call loses or invents a reference: as long as no call has the
    flag [O_CREAT], the reference count of every inode, less the references of the
    process's working directory and open files, is the same before and after, and so is its
    open count less the open files. *)
Theorem run_calls_balanced cs s t :
  fss s !! filesp s = Some t → table_ok t → Forall no_create cs →
  yields (λ s', ∃ t', fss s' !! filesp s = Some t' ∧ ∀ p,
    eq32 (rc s' p - holds t' p) (rc s p - holds t p) ∧ eq32 (oc s' p - opens t' p) (oc s p - opens t p))
    (run_calls cs s).
Proof.
  intros Ht Hok Hcs. eapply yields_weaken; [by apply (run_calls_kept True cs s t)|].
  intros s' [_ _ (t' & Ht' & _ & Hc)]. exists t'. split; [done|]. intros p. by apply Hc.
Qed.

(** ** fork and exit *)

(** What [files_create] returns. *)
Record fresh (t : files_struct) : Prop := {
  fresh_ok : table_ok t;
  fresh_free j e : fd_array t !! j = Some e → status e = FD_NONE;
  fresh_pwd : pwd t = None;
  fresh_count : files_count t = 0
}.

Lemma files_create_fresh q raw s :
  length raw = Z.to_nat FILES_STRUCT_NENTRY →
  ∃ s' t, files_create (Some q) raw s = (Some q, s') ∧ fss s' = <[q := t]> (fss s) ∧ fresh t.
Proof.
  intros Hl. eexists _, _. split; [reflexivity|]. split; [reflexivity|]. split; [|intros j e|done..].
  - split; [cbn; unfold fd_array_init; by rewrite length_imap|]. intros j e Hj. cbn in Hj. unfold fd_array_init in Hj.
    rewrite list_lookup_imap in Hj. destruct (raw !! j); [|done]. injection Hj as <-. split; [done|by left].
  - cbn. unfold fd_array_init. rewrite list_lookup_imap. destruct (raw !! j); [|done]. by intros [= <-].
Qed.

(** The entry of the child for the entry [e] of the parent. *)
Definition dup_of (e e' : file) : Prop :=
  if decide (status e = FD_OPENED) then
    e' = mkFile FD_OPENED (readable e) (writable e) (fd e) (pos e) (node e) 1
  else status e' = FD_NONE.

Lemma opens_none t p : (∀ j e, fd_array t !! j = Some e → status e = FD_NONE) → opens t p = 0.
Proof.
  intros Hn. unfold opens. rewrite (zsum_ext _ (λ _, 0)); [by apply zsum_const0|].
  intros e [j He]%list_elem_of_lookup. unfold opened. by rewrite (Hn _ _ He).
Qed.

Lemma reached_ext b q s0 t d e d' e' s :
  reached b q s0 t d e s → (∀ p, d' p = d p ∧ e' p = e p) → reached b q s0 t d' e' s.
Proof. intros R He. eapply reached_moved; [exact R|apply moved_refl|]. intros p. unfold nil. destruct (He p). lia. Qed.

Lemma dup_loop_spec n i to from tf t s0 s :
  reached True to s0 t (holds t) (opens t) s → fss s0 !! from = Some tf → table_ok tf → to ≠ from →
  (i + n = length (fd_array tf))%nat → table_ok t →
  (∀ j e, (i ≤ j)%nat → fd_array t !! j = Some e → status e = FD_NONE) →
  yields (λ s', ∃ t', reached True to s0 t' (holds t') (opens t') s' ∧ pwd t' = pwd t ∧ files_count t' = files_count t ∧
    table_ok t' ∧ (∀ j, (j < i)%nat → fd_array t' !! j = fd_array t !! j) ∧
    (∀ j e, (i ≤ j)%nat → fd_array tf !! j = Some e → ∃ e', fd_array t' !! j = Some e' ∧ dup_of e e'))
    (dup_loop n i to from s).
Proof.
  intros R Hfrom Hokf Hne. revert i t s R. induction n as [|n IH]; intros i t s R Hi Hok Hfree; cbn [dup_loop].
  { exists t. split_and!; [done..|]. intros j e Hj He. apply lookup_lt_Some in He. lia. }
  destruct (lookup_lt_is_Some_2 (fd_array tf) i) as [ef Hef]; [lia|].
  destruct (lookup_lt_is_Some_2 (fd_array t) i) as [et Het].
  { rewrite (table_length _ Hok), <- (table_length _ Hokf). lia. }
  assert (status et = FD_NONE) as Hst by eauto.
  destruct (table_entry _ Hok _ _ Het) as [Hfd [[_ Hc]|(? & _)]]; [|congruence].
  assert (∀ s t' d e, reached True to s0 t' d e s → get_file s (from, i) = Ok ef) as Hget.
  { intros s1 t1 d1 e1 R1. unfold get_file, get_files. cbn [fst snd]. rewrite (reached_fss _ _ _ _ _ _ _ R1).
    rewrite lookup_insert_ne, Hfrom by done. cbn. by rewrite Hef. }
  rewrite (Hget _ _ _ _ R). cbn [bind]. destruct (decide (status ef = FD_OPENED)) as [Ho|Ho].
  - destruct (table_entry _ Hokf _ _ Hef) as [Hfdf [[? _]|(_ & Hcf & p & Hp)]]; [congruence|].
    destruct (upd_file_at _ _ _ _ _ _ _ _ (set_status FD_INIT) R Het) as (s1 & -> & R1). cbn [bind].
    eapply yields_bind; [eapply (dup_at _ _ t i et _ (from, i) ef _ _ _ p Het R1); [done|done|by eapply Hget|done|done]|].
    intros s2 R2. set (e' := mkFile FD_OPENED (readable ef) (writable ef) (fd (set_status FD_INIT et)) (pos ef) (Some p) 1) in *.
    assert (∀ x, opened e' x = one (Some p) x ∧ opened et x = 0) as Hop.
    { intros x. unfold opened. rewrite Hst. cbn. by rewrite decide_True. }
    eapply yields_weaken; [apply (IH (S i) (entry t i e'))|].
    + eapply reached_ext; [exact R2|]. intros x. cbv beta. destruct (Hop x).
      rewrite (holds_entry t i et), (opens_entry t i et) by done. lia.
    + lia.
    + apply table_ok_entry; [done|]. split; [done|]. right. eauto.
    + intros j e Hj. rewrite entry_lookup_ne by lia. apply Hfree. lia.
    + intros s3 (t' & R3 & Hpwd & Hcnt & Hok' & Hlow & Hhigh). exists t'. split_and!; [done..| |].
      * intros j Hj. rewrite Hlow by lia. apply entry_lookup_ne. lia.
      * intros j e Hj He. destruct (decide (j = i)) as [->|]; [|apply Hhigh; [lia|done]].
        rewrite Hlow by lia. exists e'. split; [by eapply entry_lookup|]. rewrite Hef in He. injection He as <-.
        unfold dup_of. rewrite decide_True by done. unfold e'. rewrite Hp. cbn. by rewrite Hfd, Hfdf.
  - cbn [bind]. eapply yields_weaken; [apply (IH (S i) t)|]; [done|lia|done| |].
    + intros j e Hj. apply Hfree. lia.
    + intros s3 (t' & R3 & Hpwd & Hcnt & Hok' & Hlow & Hhigh). exists t'. split_and!; [done..| |].
      * intros j Hj. apply Hlow. lia.
      * intros j e Hj He. destruct (decide (j = i)) as [->|]; [|apply Hhigh; [lia|done]].
        rewrite Hlow by lia. exists et. split; [done|]. rewrite Hef in He. injection He as <-.
        unfold dup_of. by rewrite decide_False.
Qed.

Lemma dup_fs_spec to from s tf t :
  fss s !! from = Some tf → table_ok tf → fss s !! to = Some t → fresh t → to ≠ from →
  yields (λ s', ∃ t', reached True to s t' (holds t') (opens t') s' ∧ pwd t' = pwd tf ∧ files_count t' = 0 ∧ table_ok t' ∧
    ∀ j e, fd_array tf !! j = Some e → ∃ e', fd_array t' !! j = Some e' ∧ dup_of e e') (dup_fs to from s).
Proof.
  intros Hfrom Hokf Hto Hfr Hne. unfold dup_fs, get_files. rewrite Hto, Hfrom. cbn [deref bind].
  destruct (_ && _); [|done]. cbv zeta.
  assert (reached True to s (set_pwd (pwd tf) t) nil nil (put_files to (set_pwd (pwd tf) t) s)) as R.
  { split; [done|done|]. intros _. by apply counted_refl. }
  eapply (yields_bind (reached True to s (set_pwd (pwd tf) t) (one (pwd tf)) nil)).
  { destruct (pwd tf) as [p|]; [|exact R]. eapply yields_bind; [apply inode_ref_inc_spec|]. intros [r s1] M.
    eapply reached_moved; [exact R|exact M|]. intros x. unfold nil. lia. }
  intros s1 R1. assert (∀ x, opens (set_pwd (pwd tf) t) x = 0) as Hz by (intros x; apply opens_none, Hfr).
  eapply yields_weaken; [apply (dup_loop_spec _ 0 to from tf (set_pwd (pwd tf) t) s)|].
  - eapply reached_ext; [exact R1|]. intros x. unfold holds, nil. rewrite Hz. cbn. lia.
  - done.
  - done.
  - done.
  - by rewrite (table_length _ Hokf).
  - apply set_pwd_ok, Hfr.
  - intros j e _. apply Hfr.
  - intros s2 (t' & R2 & Hpwd & Hcnt & Hok' & _ & Hhigh). exists t'. split_and!; [done|done| |done|].
    + rewrite Hcnt. apply Hfr.
    + intros j e. apply Hhigh. lia.
Qed.

Lemma destroy_loop_spec n i q t s0 s D E :
  reached True q s0 t (λ x, D x + opens t x) (λ x, E x + opens t x) s → table_ok t →
  (i + n = length (fd_array t))%nat → (∀ j e, (j < i)%nat → fd_array t !! j = Some e → status e = FD_NONE) →
  yields (λ s', ∃ t', reached True q s0 t' D E s') (destroy_loop n i q s).
Proof.
  revert i t s. induction n as [|n IH]; intros i t s R Hok Hi Hn; cbn [destroy_loop].
  { exists t. eapply reached_ext; [exact R|]. intros x. cbv beta. rewrite opens_none; [lia|].
    intros j e He. eapply Hn; [|done]. apply lookup_lt_Some in He. lia. }
  destruct (lookup_lt_is_Some_2 (fd_array t) i) as [f Hf]; [lia|].
  eapply (yields_bind (λ s', ∃ t' f', reached True q s0 t' (λ x, D x + opens t' x) (λ x, E x + opens t' x) s' ∧ table_ok t' ∧
    length (fd_array t') = length (fd_array t) ∧
    fd_array t' !! i = Some f' ∧ status f' = FD_NONE ∧ (∀ j, j ≠ i → fd_array t' !! j = fd_array t !! j))).
  - unfold close_if_open. rewrite (get_file_at _ _ _ _ _ _ _ _ R Hf). cbn [bind].
    destruct (table_entry _ Hok _ _ Hf) as [Hfd [[Hst Hc]|(Hst & Hc & p & Hp)]].
    { rewrite decide_False by congruence. exists t, f. split_and!; done. }
    rewrite decide_True by done. eapply yields_weaken; [by eapply (close_at _ _ t i f _ _ _ p Hf R)|].
    intros s1 R1. eexists _, _. split; [|split; [|split; [|split; [by eapply entry_lookup|]]]].
    + eapply reached_ext; [exact R1|]. intros x. cbv beta. rewrite (opens_entry t i f) by done.
      unfold opened. rewrite Hst, Hp. cbn. rewrite decide_True, decide_False by done. lia.
    + apply table_ok_entry; [done|]. split; [done|by left].
    + cbn. by rewrite length_insert.
    + split; [done|]. intros j Hj. by apply entry_lookup_ne.
  - intros s1 (t1 & f1 & R1 & Hok1 & Hl1 & Hf1 & Hst1 & Hrest). rewrite (get_file_at _ _ _ _ _ _ _ _ R1 Hf1). cbn [bind].
    rewrite bool_decide_eq_true_2 by done. apply (IH (S i) t1); [done|done|lia|].
    intros j e Hj He. destruct (decide (j = i)) as [->|Hji]; [congruence|].
    rewrite Hrest in He by done. eapply Hn; [|done]. lia.
Qed.

Lemma files_destroy_spec q s0 t d e s :
  reached True q s0 t d e s → table_ok t →
  yields (λ s', filesp s' = filesp s0 ∧ fss s' = delete q (fss s0) ∧
    counted (λ x, d x - holds t x) (λ x, e x - opens t x) s0 s') (files_destroy q s).
Proof.
  intros R Hok. unfold files_destroy. rewrite (get_files_at _ _ _ _ _ _ R). cbn [bind].
  destruct (_ =? 0); [|done].
  eapply (yields_bind (reached True q s0 t (λ x, d x - one (pwd t) x) e)).
  { destruct (pwd t) as [p|].
    - eapply yields_bind; [apply inode_ref_dec_spec|]. intros [r s1] M. eapply reached_moved; [exact R|exact M|].
      intros x. unfold nil. lia.
    - eapply reached_ext; [exact R|]. intros x. rewrite one_none. lia. }
  intros s1 R1. eapply yields_bind.
  { apply (destroy_loop_spec _ 0 q t s0 s1 (λ x, d x - holds t x) (λ x, e x - opens t x)); [|done|by rewrite (table_length _ Hok)|lia].
    eapply reached_ext; [exact R1|]. intros x. unfold holds. lia. }
  intros s2 (t' & [Hp Hf Hc]). cbn. split_and!; [done| |].
  - by rewrite Hf, delete_insert_eq.
  - by apply Hc.
Qed.

(** a child that gets a copy of its parent's table and exits gives everything
    back: after [dup_fs] the child has the parent's working directory and open files, at
    the same numbers with the same positions and rights, and each counts as one more
    reference; after [files_destroy] all reference and open counts are what they were and
    the table is gone. *)
Theorem fork_exit_returns to from s tf t :
  fss s !! from = Some tf → table_ok tf → fss s !! to = Some t → fresh t → to ≠ from →
  yields (λ s', ∃ t', fss s' = <[to := t']> (fss s) ∧ counted (holds t') (opens t') s s' ∧
      pwd t' = pwd tf ∧ table_ok t' ∧
      (∀ j e, fd_array tf !! j = Some e → ∃ e', fd_array t' !! j = Some e' ∧ dup_of e e') ∧
      yields (λ s'', fss s'' = delete to (fss s) ∧ counted nil nil s s'') (files_destroy to s'))
    (dup_fs to from s).
Proof.
  intros Hfrom Hokf Hto Hfr Hne. eapply yields_weaken; [by eapply dup_fs_spec|].
  intros s' (t' & R & Hpwd & _ & Hok' & Hcopy). exists t'. pose proof R as [_ Hf Hc].
  split_and!; [done|by apply Hc|done..|].
  eapply yields_weaken; [by eapply (files_destroy_spec to s t')|]. intros s'' (_ & Hf' & Hc'). split; [done|].
  intros p. destruct (Hc' p) as [[k ->] [l ->]]. split; [exists k|exists l]; unfold nil; lia.
Qed.
End open_files.

(** ** A kernel with devices only *)

Definition raw_files : list file := replicate 145 (mkFile FD_CLOSED true true 7 9 None 5).

(** Process tables at 100 (running) and 200 (of a child that is being made). *)
Definition demo_start : dstate :=
  mkV ∅ [] None
    {[100 := mkFiles None (fd_array_init raw_files) 1; 200 := mkFiles None (fd_array_init raw_files) 0]} 100
    (list_to_map ((λ a, (a, 0)) <$> seqZ 1000 16))
    (mkDev ∅ (replicate 4096 0) 0 0 [Kbd [104; 105]; Interrupted []] [] ∅ (Some 80) true 0).

Definition get_ok {A} (d : A) (m : res A) : A := match m with Ok a => a | _ => d end.

Definition demo : dstate := get_ok demo_start (dev_init true (Some 1) (Some 2) (Some 3) (Some 5000) demo_start).

Definition path_stdin : list Z := name_stdin ++ [COLON].
Definition path_stdout : list Z := name_stdout ++ [COLON].

Definition demo_calls : list file_call :=
  [Copen None path_stdin O_RDONLY; Copen None path_stdout O_WRONLY; Cdup 1 5; Cread 0 1000 2; Cwrite 5 1000 2;
   Cfstat 0; Cseek 0 3 LSEEK_SET; Copen None path_stdin O_WRONLY; Cclose 9; Cclose 1].


Definition is_ok {A} (m : res A) : bool := match m with Ok _ => true | _ => false end.

Lemma yields_run {A} (Q : A → Prop) m : yields Q m → is_ok m = true → ∃ a, m = Ok a ∧ Q a.
Proof. destruct m; cbn; [eauto|done..]. Qed.

Lemma demo_table : fss demo !! filesp demo = Some (mkFiles None (fd_array_init raw_files) 1).
Proof. by vm_compute. Qed.

Lemma raw_fresh : fresh (mkFiles None (fd_array_init raw_files) 0).
Proof.
  destruct (files_create_fresh 0 raw_files demo eq_refl) as (s' & t & Hc & Hf & Hfr).
  injection Hc as <-. cbn in Hf. apply (f_equal (λ f : gmap Z files_struct, f !! 0)) in Hf. rewrite !lookup_insert_eq in Hf.
  injection Hf as <-. exact Hfr.
Qed.

Lemma demo_table_ok n : table_ok (mkFiles None (fd_array_init raw_files) n).
Proof. destruct (fresh_ok _ raw_fresh) as [Hl He]. split; [exact Hl|exact He]. Qed.

Lemma run_calls_table_ok_witness :
  ∃ s', run_calls demo_calls demo = Ok s' ∧
    filesp s' = filesp demo ∧ (∀ q, q ≠ filesp demo → fss s' !! q = fss demo !! q) ∧
    ∃ t', fss s' !! filesp demo = Some t' ∧ table_ok t'.
Proof.
  apply yields_run; [|by vm_compute]. apply (run_calls_table_ok demo_calls demo _ demo_table (demo_table_ok 1)).
Defined.

Lemma run_calls_balanced_witness :
  ∃ s', run_calls demo_calls demo = Ok s' ∧ rc s' 1 = rc demo 1 + 1 ∧ rc s' 2 = rc demo 2 + 1 ∧
    ∃ t', fss s' !! filesp demo = Some t' ∧ ∀ p,
      eq32 (rc s' p - holds t' p) (rc demo p - holds (mkFiles None (fd_array_init raw_files) 1) p) ∧
      eq32 (oc s' p - opens t' p) (oc demo p - opens (mkFiles None (fd_array_init raw_files) 1) p).
Proof.
  destruct (yields_run _ (run_calls demo_calls demo)
    (run_calls_balanced demo_calls demo _ demo_table (demo_table_ok 1) ltac:(repeat constructor))) as (s' & Hs' & Hb); [by vm_compute|].
  exists s'. split; [done|]. assert (s' = get_ok demo (run_calls demo_calls demo)) as -> by (by rewrite Hs').
  split; [by vm_compute|]. split; [by vm_compute|]. exact Hb.
Defined.

Definition parent : dstate := get_ok demo (run_calls demo_calls demo).

Lemma parent_table : ∃ t, fss parent !! 100 = Some t ∧ table_ok t.
Proof.
  destruct (yields_run _ (run_calls demo_calls demo)
    (run_calls_kept False demo_calls demo _ demo_table (demo_table_ok 1) ltac:(done))) as (s' & Hs' & [_ _ (t & Ht & Hok & _)]); [by vm_compute|].
  exists t. split; [|done]. unfold parent. rewrite Hs'. exact Ht.
Qed.

Lemma fork_exit_returns_witness : ∃ tf s',
  fss parent !! 100 = Some tf ∧ dup_fs 200 100 parent = Ok s' ∧ rc s' 1 = rc parent 1 + 1 ∧
  is_ok (files_destroy 200 s') = true ∧
  ∃ t', fss s' = <[200 := t']> (fss parent) ∧ counted (holds t') (opens t') parent s' ∧
      pwd t' = pwd tf ∧ table_ok t' ∧
      (∀ j e, fd_array tf !! j = Some e → ∃ e', fd_array t' !! j = Some e' ∧ dup_of e e') ∧
      yields (λ s'', fss s'' = delete 200 (fss parent) ∧ counted nil nil parent s'') (files_destroy 200 s').
Proof.
  destruct parent_table as (tf & Htf & Hok).
  destruct (yields_run _ (dup_fs 200 100 parent)
    (fork_exit_returns 200 100 parent tf (mkFiles None (fd_array_init raw_files) 0) Htf Hok ltac:(by vm_compute) raw_fresh ltac:(done)))
    as (s' & Hs' & Hq); [by vm_compute|].
  exists tf, s'. split; [done|]. split; [done|].
  assert (s' = get_ok parent (dup_fs 200 100 parent)) as Es by (by rewrite Hs').
  split; [rewrite Es; by vm_compute|]. split; [rewrite Es; by vm_compute|]. exact Hq.
Defined.

(** [vfs_open] with [O_CREAT] and [O_EXCL] on a name that exists returns the error
    without giving back the reference that [vfs_lookup] took. *)
Lemma open_excl_leaks :
  match file_open None path_stdin (Z.lor O_CREAT O_EXCL) demo with
  | Ok (ret, s') => ret = - E_EXISTS ∧ rc s' 1 = rc demo 1 + 1 ∧ oc s' 1 = oc demo 1
  | _ => False
  end.
Proof. by vm_compute. Qed.

(** An operation that devices do not have stops the kernel: [fsync] of a device. *)
Lemma fsync_device_panics : file_fsync 0 parent = Panicked.
Proof. by vm_compute. Qed.
