(* ===== verification/SysfileInv.v ===== *)
(** * System calls on files: tables, termination, and what reaches the user

    Every call of [Sysfile] comes to an end and keeps the table of open files as [kept]
    of [FileTable] says, for every content of the memory and every file system with
    [vfs_laws].  [sysfile_read] and [sysfile_write] transfer exactly the bytes that the
    file takes or gives, chunk by chunk. *)

From S2P Require Import Prelude CString Iobuf Vmm Vfs File FileInv FileTable Dev DevInv OpenFiles SfsDisk Sysfile.

Local Ltac Zify.zify_post_hook ::= Z.to_euclidean_division_equations.

(** ** The memory of the process *)

Definition space_ok (a : vmm) (mm : option Z) : Prop :=
  ∀ q, mm = Some q → ∃ m, mms a !! q = Some m ∧ mm_inv (vmas a) m.

(** The address space after a check: only the cache of an area may differ. *)
Definition same_space (mm : option Z) (a a' : vmm) : Prop :=
  vmas a' = vmas a ∧ ∀ q m, mm = Some q → mms a !! q = Some m → ∃ c, mms a' !! q = Some (set_mmap_cache c m).

Definition area_ok (a : vmm) (mm : option Z) (addr len : Z) (write : bool) : Prop :=
  match mm with
  | Some q => USER_ACCESS addr (u32 (addr + len)) = true ∧
      ∃ m, mms a !! q = Some m ∧ ∀ x, addr ≤ x < u32 (addr + len) → access_ok (vmas a) (mmap_list m) write x
  | None => KERN_ACCESS addr (u32 (addr + len)) = true
  end.

Lemma same_space_trans mm a1 a2 a3 : same_space mm a1 a2 → same_space mm a2 a3 → same_space mm a1 a3.
Proof.
  intros [E1 H1] [E2 H2]. split; [congruence|]. intros q m Hq Hm. destruct (H1 q m Hq Hm) as [c Hc].
  destruct (H2 q _ Hq Hc) as [c' Hc']. by exists c'.
Qed.

Lemma area_ok_same mm a a' addr len write : space_ok a mm → same_space mm a a' → area_ok a mm addr len write → area_ok a' mm addr len write.
Proof.
  intros Hs [E Hm]. destruct mm as [q|]; [|done]. intros [Hu (m & Hq & Ha)]. split; [done|].
  destruct (Hm q m eq_refl Hq) as [c Hc]. exists (set_mmap_cache c m). rewrite E. done.
Qed.

Lemma user_mem_check_spec a mm addr len write :
  space_ok a mm → ∃ ok a', user_mem_check a mm addr len write = Ok (ok, a') ∧ space_ok a' mm ∧ same_space mm a a' ∧
    (ok = true ↔ area_ok a mm addr len write).
Proof.
  intros Hs. unfold user_mem_check. destruct mm as [q|].
  2:{ eexists _, _. split; [done|]. split; [done|]. split; [by split|done]. }
  destruct (Hs q eq_refl) as (m & Hq & Hm). unfold area_ok. destruct (USER_ACCESS addr (u32 (addr + len))); cbn [negb].
  2:{ exists false, a. split; [done|]. split; [done|]. split; [|naive_solver].
      split; [done|]. intros q' m' _ Hm'. exists (mmap_cache m'). by destruct m'. }
  unfold get_mm. rewrite Hq. cbn [deref bind].
  destruct (mem_check_loop_ok (S (S (length (mmap_list m)))) a q m addr (u32 (addr + len)) write Hq Hm) as (b & c & -> & Hm' & Hb).
  { unfold areas_behind. pose proof (length_filter (λ p, addr < from_option vm_end 0 (vmas a !! p)) (mmap_list m)). lia. }
  exists b, (put_mm a q (set_mmap_cache c m)). split; [done|]. split; [|split].
  - intros q' [= <-]. exists (set_mmap_cache c m). cbn. by rewrite lookup_insert_eq.
  - split; [done|]. intros q' m' [= <-] Hm2. simplify_eq. exists c. cbn. by rewrite lookup_insert_eq.
  - rewrite Hb. naive_solver.
Qed.

(** ** Crossing the border *)

Section sysfile_inv.
Context {F : Type} `{vfs_impl F} `{!vfs_laws}.
Notation US := (ustate F).
Implicit Types u : US.

(** Only the memory and the caches of the areas change. *)
Definition crossed u u' : Prop :=
  umm u' = umm u ∧ space_ok (uva u') (umm u) ∧ same_space (umm u) (uva u) (uva u') ∧ ∃ m, uvs u' = set_bytes m (uvs u).

Lemma memcpy_ends m d s n : memcpy m d s n ≠ NoFuel.
Proof. unfold memcpy. apply bind_not_nofuel; [apply copy_up_fuel|done]. Qed.

Lemma strnlen_ends m s n : strnlen m s n ≠ NoFuel.
Proof. by eapply strnlen_loop_total, scanned_start. Qed.

(** Both functions check the area of the user and then copy. *)
Lemma from_user_eq dst src len w u :
  space_ok (uva u) (umm u) → ∃ ok a, space_ok a (umm u) ∧ same_space (umm u) (uva u) a ∧
    (ok = true ↔ area_ok (uva u) (umm u) src len w) ∧
    from_user dst src len w u =
      if ok : bool then let! (_, m) := memcpy (umem u) dst src len in Ok (true, set_umem a m u)
      else Ok (false, set_umem a (umem u) u).
Proof.
  intros Hs. destruct (user_mem_check_spec _ _ src len w Hs) as (ok & a & E & Ha & Hsa & Hok).
  exists ok, a. split_and!; [done|done|done|]. unfold from_user, copy_from_user. rewrite E. cbn [bind].
  destruct ok; [|done]. by destruct (memcpy _ _ _ _) as [[]| | |].
Qed.

Lemma to_user_eq dst src len u :
  space_ok (uva u) (umm u) → ∃ ok a, space_ok a (umm u) ∧ same_space (umm u) (uva u) a ∧
    (ok = true ↔ area_ok (uva u) (umm u) dst len true) ∧
    to_user dst src len u =
      if ok : bool then let! (_, m) := memcpy (umem u) dst src len in Ok (true, set_umem a m u)
      else Ok (false, set_umem a (umem u) u).
Proof.
  intros Hs. destruct (user_mem_check_spec _ _ dst len true Hs) as (ok & a & E & Ha & Hsa & Hok).
  exists ok, a. split_and!; [done|done|done|]. unfold to_user, copy_to_user. rewrite E. cbn [bind].
  destruct ok; [|done]. by destruct (memcpy _ _ _ _) as [[]| | |].
Qed.

Lemma crossed_intro a m u : space_ok a (umm u) → same_space (umm u) (uva u) a → crossed u (set_umem a m u).
Proof. intros Ha Hs. split; [done|]. split; [done|]. split; [done|]. by exists m. Qed.

Lemma from_user_crossed dst src len w u : space_ok (uva u) (umm u) → yields (λ r, crossed u r.2) (from_user dst src len w u).
Proof.
  intros Hs. destruct (from_user_eq dst src len w u Hs) as ([] & a & Ha & Hsa & _ & ->); [|by apply crossed_intro].
  apply yields_any; [apply memcpy_ends|]. intros [p m]. by apply crossed_intro.
Qed.

Lemma to_user_crossed dst src len u : space_ok (uva u) (umm u) → yields (λ r, crossed u r.2) (to_user dst src len u).
Proof.
  intros Hs. destruct (to_user_eq dst src len u Hs) as ([] & a & Ha & Hsa & _ & ->); [|by apply crossed_intro].
  apply yields_any; [apply memcpy_ends|]. intros [p m]. by apply crossed_intro.
Qed.

(** The rounds of [copy_string]: what is left fits into the rounds that are left. *)
Lemma copy_string_loop_ends n a m mm dst src maxn part :
  space_ok a mm → 0 ≤ maxn < 2 ^ 32 → 0 < part → maxn ≤ part + PGSIZE * (Z.of_nat n - 1) → (0 < n)%nat →
  yields (λ '(_, a', _), space_ok a' mm ∧ same_space mm a a') (copy_string_loop n a m mm dst src maxn part).
Proof.
  revert a m dst src maxn part. induction n as [|n IH]; intros a m dst src maxn part Hs Hmax Hpart Hn Hn0; [lia|].
  cbn [copy_string_loop]. cbv zeta. set (pt := if maxn <? part then maxn else part).
  assert (pt = maxn ∨ pt = part ∧ part ≤ maxn) as Hpt by (unfold pt; destruct (Z.ltb_spec maxn part); lia). clearbody pt.
  destruct (user_mem_check_spec a mm src pt false Hs) as (ok & a' & -> & Ha & Hsa & _). cbn [bind].
  destruct ok; cbn [negb]; [|done]. apply yields_any; [apply strnlen_ends|]. intros alen. destruct (alen <? pt).
  { apply yields_any; [apply memcpy_ends|]. by intros [? ?]. }
  destruct (Z.eqb_spec pt maxn); [done|]. apply yields_any; [apply memcpy_ends|]. intros [? m'].
  destruct Hpt as [|[-> Hle]]; [lia|]. unfold PGSIZE in *. rewrite u32_small by lia.
  eapply yields_weaken; [apply IH; [done|lia|lia|lia|lia]|]. intros [[ok2 a2] m2] [? ?].
  split; [done|by eapply same_space_trans].
Qed.

Lemma string_from_user_crossed dst src maxn u :
  space_ok (uva u) (umm u) → 0 ≤ maxn < 2 ^ 32 → yields (λ r, crossed u r.2) (string_from_user dst src maxn u).
Proof.
  intros Hs Hmax. unfold string_from_user, copy_string. cbv zeta.
  assert (0 < u32 (ROUNDDOWN (u32 (src + PGSIZE)) PGSIZE - src)) as Hp by (unfold ROUNDDOWN, PGSIZE, u32; lia).
  set (part := u32 _) in *. clearbody part. eapply yields_bind.
  - apply copy_string_loop_ends; [done|done|done|unfold PGSIZE; lia|lia].
  - intros [[ok a] m] [Ha Hsa]. cbn. by apply crossed_intro.
Qed.

(** ** The tables of open files *)

(** [u] is reached from a state whose current table was [t], in the file state [v]. *)
Definition going (b : Prop) (v : vstate F) t u : Prop := space_ok (uva u) (umm u) ∧ kept b v (uvs u) t.

Lemma kept_bytes (b : Prop) (v w : vstate F) t m : kept b v w t → kept b v (set_bytes m w) t.
Proof. intros [Hp Ho Ht]. by split. Qed.

Lemma kept_moved (b : Prop) (v w w' : vstate F) t : kept b v w t → moved nil nil w w' → kept b v w' t.
Proof.
  intros [Hp Ho (t' & Ht & Hok & Hc)] [[Ef Ep] C]. split; [congruence|by rewrite Ef|]. exists t'. rewrite Ef. split_and!; [done|done|].
  intros Hb p. destruct (Hc Hb p) as [[k Hk] [l Hl]], (C p) as [[k' Hk'] [l' Hl']]. unfold nil in *.
  split; [exists (k + k')|exists (l + l')]; lia.
Qed.

Lemma crossed_going b v t u u' : going b v t u → crossed u u' → going b v t u'.
Proof.
  intros [_ Hk] (Hm & Ha & _ & m & Hv). split; [by rewrite Hm|]. rewrite Hv. by apply kept_bytes.
Qed.

Lemma on_files_going {A} b v t u (f : vstate F → res (A * vstate F)) :
  going b v t u →
  (∀ s t, fss s !! filesp s = Some t → table_ok t → yields (λ r, kept b s r.2 t) (f s)) →
  yields (λ r, going b v t r.2) (on_files f u).
Proof.
  intros [Hs Hk] Hf. unfold on_files. pose proof Hk as [Hp _ (t2 & Ht2 & Hok2 & _)].
  eapply yields_bind; [by apply (Hf (uvs u) t2); [rewrite Hp|]|]. intros [a w] K2. cbn. split; [done|]. cbn in K2.
  eapply kept_trans; [exact Hk|]. intros t3 Ht3 _. rewrite Ht3 in Ht2. by injection Ht2 as ->.
Qed.

Lemma file_read_kept b fd base len s t :
  fss s !! filesp s = Some t → table_ok t → yields (λ r, kept b s r.2 t) (file_read fd base len s).
Proof. intros Ht Hok. apply (transfer_kept b s t Ht Hok true vop_read). intros. by eapply law_read. Qed.

Lemma file_write_kept b fd base len s t :
  fss s !! filesp s = Some t → table_ok t → yields (λ r, kept b s r.2 t) (file_write fd base len s).
Proof. intros Ht Hok. apply (transfer_kept b s t Ht Hok false vop_write). intros. by eapply law_write. Qed.

(** A call that crosses the border, and what follows it. *)
Lemma crossed_bind {A B} b v t u (m : res (A * US)) (Q : B → Prop) k :
  going b v t u → (space_ok (uva u) (umm u) → yields (λ r, crossed u r.2) m) →
  (∀ a u', going b v t u' → yields Q (k (a, u'))) → yields Q (bind m k).
Proof.
  intros Hg Hm Hk. eapply yields_bind; [apply Hm, Hg|]. intros [a u'] Hc. apply Hk. by eapply crossed_going.
Qed.

Lemma store_going b v t u m : going b v t u → going b v t (set_umem (uva u) m u).
Proof. intros [Hs Hk]. split; [done|by apply kept_bytes]. Qed.

Lemma copy_path_going b v t u buf from : going b v t u → yields (λ r, going b v t r.2) (copy_path buf from u).
Proof.
  intros Hg. unfold copy_path. destruct buf as [p|]; [|done].
  eapply crossed_bind; [done|by intros; apply string_from_user_crossed|]. intros ok u' Hg'.
  destruct (negb ok); [done|]. apply yields_any; [by eapply strlen_loop_total, scanned_start|]. intros n.
  apply yields_any; [apply load_bytes_fuel|]. intros path. exact Hg'.
Qed.

(** The size that [file_read] and [file_write] report is unsigned. *)
Lemma transfer_copied rd op fd base len s ret c s' : transfer rd op fd base len s = Ok (ret, c, s') → 0 ≤ c.
Proof.
  unfold transfer, with_fd. intros Hr. apply bind_ok in Hr as ([r fp] & _ & Hr). cbn beta iota in Hr.
  destruct (decide (r ≠ 0)); [by injection Hr as <- <- <-|].
  apply bind_ok in Hr as (f & _ & Hr). apply bind_ok in Hr as (fl & _ & Hr). destruct (negb _); [by injection Hr as <- <- <-|].
  apply bind_ok in Hr as (s1 & _ & Hr). apply bind_ok in Hr as ([p g] & _ & Hr). apply bind_ok in Hr as ([[r2 iob] s2] & _ & Hr).
  cbv zeta in Hr. apply bind_ok in Hr as (f3 & _ & Hr). apply bind_ok in Hr as (s3 & _ & Hr). apply bind_ok in Hr as (s4 & _ & Hr).
  injection Hr as <- <- <-. apply u32_range.
Qed.

Lemma on_files_transfer b v t u rd op fd base len :
  going b v t u → (∀ o g q iob s, ops_laws o → op o = Some g → is_u32 (io_resid iob) → yields (λ r, moved nil nil s r.2) (g q iob s)) →
  yields (λ '(_, c, u'), going b v t u' ∧ 0 ≤ c) (on_files (transfer rd op fd base len) u).
Proof.
  intros Hg Hop. assert (yields (λ r, going b v t r.2) (on_files (transfer rd op fd base len) u)) as Hy.
  { apply on_files_going; [done|]. intros s t' Ht Hok. by apply (transfer_kept b s t' Ht Hok). }
  apply yields_ok in Hy as [Hn Hy]. apply yields_ok. split; [done|]. intros [[ret c] u'] E. split; [apply (Hy _ E)|].
  unfold on_files in E. apply bind_ok in E as ([[r c'] w] & Et & E). injection E as <- <- <-. by eapply transfer_copied.
Qed.

Lemma read_rounds_going b v t n fd base len copied ret buffer u :
  going b v t u → 0 ≤ len < Z.of_nat n → yields (λ r, going b v t r.2) (read_rounds n fd base len copied ret buffer u).
Proof.
  revert base len copied ret u. induction n as [|n IH]; intros base len copied ret u Hg Hn; [lia|]. cbn [read_rounds].
  destruct (len =? 0); [done|]. cbv zeta.
  eapply yields_bind; [apply (on_files_transfer b v t); [done|intros; by eapply law_read]|]. intros [[ret2 alen] u1] [Hg1 Ha].
  apply (yields_bind (λ '(_, len', _, ret', u'), going b v t u' ∧ (ret' = 0 → alen ≠ 0 → 0 ≤ len' < len))).
  - destruct (Z.eqb_spec alen 0) as [->|Hz]; cbn [negb]; [done|].
    eapply crossed_bind; [done|by intros; apply to_user_crossed|]. intros ok u2 Hg2. destruct ok.
    + destruct (Z.leb_spec alen len); [|done]. cbn. split; [done|]. lia.
    + cbn. split; [done|]. destruct (Z.eqb_spec ret2 0); [discriminate|done].
  - intros [[[[base' len'] copied'] ret'] u'] [Hg' Hl]. destruct (Z.eqb_spec ret' 0); cbn [negb orb]; [|done].
    destruct (Z.eqb_spec alen 0); [done|]. apply IH; [done|]. specialize (Hl ltac:(done) ltac:(done)). lia.
Qed.

Lemma write_rounds_going b v t n fd base len copied ret buffer u :
  going b v t u → 0 ≤ len < Z.of_nat n → yields (λ r, going b v t r.2) (write_rounds n fd base len copied ret buffer u).
Proof.
  revert base len copied ret u. induction n as [|n IH]; intros base len copied ret u Hg Hn; [lia|]. cbn [write_rounds].
  destruct (len =? 0); [done|]. cbv zeta.
  eapply crossed_bind; [done|by intros; apply from_user_crossed|]. intros ok u1 Hg1.
  apply (yields_bind (λ '(_, len', _, ret', alen', u'), going b v t u' ∧ (ret' = 0 → alen' ≠ 0 → 0 ≤ len' < len))).
  - destruct (Z.eqb_spec (if ok : bool then ret else - E_INVAL) 0); [|done].
    eapply yields_bind; [apply (on_files_transfer b v t); [done|intros; by eapply law_write]|]. intros [[ret2 alen2] u2] [Hg2 Ha].
    destruct (Z.eqb_spec alen2 0) as [->|Hz]; cbn [negb]; [done|]. destruct (Z.leb_spec alen2 len); [|done]. cbn. split; [done|]. lia.
  - intros [[[[[base' len'] copied'] ret'] alen'] u'] [Hg' Hl]. destruct (Z.eqb_spec ret' 0); cbn [negb orb]; [|done].
    destruct (Z.eqb_spec alen' 0); [done|]. apply IH; [done|]. specialize (Hl ltac:(done) ltac:(done)). lia.
Qed.

Lemma file_testfd_ends b v t u fd rd wr : going b v t u → file_testfd fd rd wr (uvs u) ≠ NoFuel.
Proof.
  intros [_ Hk]. pose proof Hk as [Hp _ (t2 & Ht2 & Hok2 & _)]. eapply proj1, (yields_ok (λ _, True)). unfold file_testfd.
  assert (fss (uvs u) !! filesp (uvs u) = Some t2) as Ht3 by (by rewrite Hp). pose proof (reached_start b (uvs u) t2 Ht3) as R.
  apply (with_fd_at b (uvs u) t2 Ht3 Hok2); [done|]. intros i f p Hf _ _ _.
  by rewrite (get_file_at b (uvs u) t2 _ _ _ _ _ R Hf).
Qed.

(** A call keeps the tables if [file_testfd] and the rounds do. *)
Lemma rounds_going b v t u fd rd wr len (buf : option ptr) (rounds : ptr → res (Z * US)) :
  going b v t u → (∀ p, yields (λ r, going b v t r.2) (rounds p)) →
  yields (λ r, going b v t r.2)
    (if len =? 0 then Ok (0, u) else
     let! ok := file_testfd fd rd wr (uvs u) in
     if negb ok then Ok (- E_INVAL, u) else match buf with None => Ok (- E_NO_MEM, u) | Some p => rounds p end).
Proof.
  intros Hg Hr. destruct (len =? 0); [done|]. apply yields_any; [by eapply file_testfd_ends|]. intros ok.
  destruct (negb ok); [done|]. by destruct buf.
Qed.

(** Sizes are [size_t], and no call creates a file if references are counted. *)
Definition call_ok (b : Prop) (c : sysfile_call) : Prop :=
  match c with
  | Sread _ _ _ len | Swrite _ _ _ len | Sgetcwd _ _ len => is_u32 len
  | Sopen _ _ _ flags => b → has_bit flags O_CREAT = false
  | _ => True
  end.

Lemma sysfile_fstat_going b v t u loc fd st : going b v t u → yields (λ r, going b v t r.2) (sysfile_fstat loc fd st u).
Proof.
  intros Hg. unfold sysfile_fstat.
  eapply yields_bind; [apply on_files_going; [done|intros s t' Ht Hok; by apply (file_fstat_kept b s t' Ht Hok)]|].
  intros [[ret o] u1] Hg1. cbn in Hg1. destruct (decide (ret ≠ 0)); [done|]. apply yields_any; [apply deref_fuel|]. intros x.
  apply yields_any; [apply store_bytes_fuel|]. intros m.
  eapply crossed_bind; [by apply store_going|intros; by apply to_user_crossed|]. intros ok u2 Hg2. exact Hg2.
Qed.

Lemma sysfile_getdirentry_going b v t u buf fd d : going b v t u → yields (λ r, going b v t r.2) (sysfile_getdirentry buf fd d u).
Proof.
  intros Hg. unfold sysfile_getdirentry. destruct buf as [p|]; [|done].
  eapply crossed_bind; [done|by intros; apply from_user_crossed|]. intros ok u1 Hg1. destruct (negb ok); [done|].
  apply yields_any; [apply load_bytes_fuel|]. intros off.
  eapply yields_bind; [apply on_files_going; [done|intros s t' Ht Hok; by apply (file_getdirentry_kept b s t' Ht Hok)]|].
  intros [[ret off'] u2] Hg2. cbn in Hg2. apply yields_any; [apply store_bytes_fuel|]. intros m. cbv zeta.
  destruct (decide (ret ≠ 0)); [by apply store_going|].
  eapply crossed_bind; [by apply store_going|intros; by apply to_user_crossed|]. intros ok2 u3 Hg3. exact Hg3.
Qed.

Lemma path_going {A} b v t u buf from (k : list Z → US → res (Z * US)) (err : A) :
  going b v t u → (∀ path u', going b v t u' → yields (λ r, going b v t r.2) (k path u')) →
  yields (λ r, going b v t r.2) (let! (ret, path, u) := copy_path buf from u in if decide (ret ≠ 0) then Ok (ret, u) else k path u).
Proof.
  intros Hg Hk. eapply yields_bind; [by apply copy_path_going|]. intros [[ret path] u'] Hg'. cbn in Hg'.
  destruct (decide (ret ≠ 0)); [done|]. by apply Hk.
Qed.

Lemma sysfile_going b v t c u : going b v t u → call_ok b c → yields (λ r, going b v t r.2) (sysfile c u).
Proof.
  intros Hg Hc. destruct c; cbn [sysfile call_ok] in *; try (unfold is_u32 in Hc).
  - apply (path_going b v t u _ _ _ tt Hg). intros p u' Hg'. apply on_files_going; [done|]. intros s t' Ht Hok.
    by apply (file_open_kept b s t' Ht Hok).
  - apply on_files_going; [done|]. intros s t' Ht Hok. by apply (file_close_kept b s t' Ht Hok).
  - apply rounds_going; [done|]. intros p. apply read_rounds_going; [done|lia].
  - apply rounds_going; [done|]. intros p. apply write_rounds_going; [done|lia].
  - apply on_files_going; [done|]. intros s t' Ht Hok. by apply (file_seek_kept b s t' Ht Hok).
  - by apply sysfile_fstat_going.
  - apply on_files_going; [done|]. intros s t' Ht Hok. by apply (file_fsync_kept b s t' Ht Hok).
  - apply (path_going b v t u _ _ _ tt Hg). intros p u' Hg'. apply on_files_going; [done|]. intros s t' Ht Hok.
    by apply (vfs_chdir_kept b s t' Ht Hok).
  - apply (path_going b v t u _ _ _ tt Hg). intros p u' Hg'. by apply (path_going b v t u' _ _ _ tt Hg').
  - apply (path_going b v t u _ _ _ tt Hg). intros p u' Hg'. by apply (path_going b v t u' _ _ _ tt Hg').
  - by apply (path_going b v t u _ _ _ tt Hg).
  - unfold sysfile_getcwd. destruct (len =? 0); [done|].
    destruct (user_mem_check_spec (uva u) (umm u) buf len true) as (ok & a & -> & Ha & _); [apply Hg|]. cbn [bind].
    destruct ok; [|split; [done|apply Hg]]. eapply yields_bind; [apply vfs_getcwd_spec; cbn; unfold is_u32; lia|].
    intros [[ret iob] w] M. cbn in *. split; [done|]. cbn. destruct Hg as [_ Hk]. by eapply kept_moved.
  - by apply sysfile_getdirentry_going.
  - apply on_files_going; [done|]. intros s t' Ht Hok. by apply (file_dup_kept b s t' Ht Hok).
  - done.
  - done.
Qed.

Lemma sysfiles_going b v t cs u : going b v t u → Forall (call_ok b) cs → yields (λ u', going b v t u') (sysfiles cs u).
Proof.
  revert u. induction cs as [|c cs IH]; intros u Hg Hc; cbn [sysfiles]; [done|]. apply Forall_cons in Hc as [Hc Hcs].
  eapply yields_bind; [by apply (sysfile_going b v t)|]. intros [r u1] Hg1. by apply IH.
Qed.

(** A call that cannot create a file, and a call whose size is a [size_t]. *)
Definition no_creat (c : sysfile_call) : Prop := match c with Sopen _ _ _ flags => has_bit flags O_CREAT = false | _ => True end.
Definition size_fits (c : sysfile_call) : Prop :=
  match c with Sread _ _ _ len | Swrite _ _ _ len | Sgetcwd _ _ len => is_u32 len | _ => True end.

(** C8: whatever a process asks of its files, with whatever pointers, no sequence of system
    calls runs forever, and afterwards its table of open files is well formed, no other
    process's table has changed, and if no call has the flag [O_CREAT], the reference count
    of every inode less the references of the process's working directory and open files is
    what it was, and so is its open count less the open files.  This holds on every file
    system that keeps [vfs_laws]. *)
Theorem sysfiles_balanced cs u t :
  space_ok (uva u) (umm u) → fss (uvs u) !! filesp (uvs u) = Some t → table_ok t → Forall size_fits cs →
  yields (λ u', let v := uvs u in let v' := uvs u' in
      space_ok (uva u') (umm u') ∧ filesp v' = filesp v ∧ (∀ q, q ≠ filesp v → fss v' !! q = fss v !! q) ∧
      ∃ t', fss v' !! filesp v = Some t' ∧ table_ok t' ∧
        (Forall no_creat cs → ∀ p, eq32 (rc v' p - holds t' p) (rc v p - holds t p) ∧ eq32 (oc v' p - opens t' p) (oc v p - opens t p)))
    (sysfiles cs u).
Proof.
  intros Hs Ht Hok Hcs. eapply yields_weaken; [apply (sysfiles_going (Forall no_creat cs) (uvs u) t)|].
  - split; [done|by apply kept_refl].
  - apply Forall_forall. intros c Hc. rewrite Forall_forall in Hcs. specialize (Hcs c Hc).
    destruct c; try done. cbn [call_ok]. rewrite Forall_forall. intros Hn. apply (Hn _ Hc).
  - intros u' [Hs' [Hp Ho Hk]]. by split_and!.
Qed.

(** ** What [sysfile_read] delivers *)

(** The open file [fd] is a stream of the bytes [data]: in the states [I k] its position is
    [k], and [file_read] delivers the next bytes into a buffer and moves the position behind
    them.  Other memory does not matter. *)
Record stream (fd : Z) (data : list Z) (I : nat → vstate F → Prop) : Prop := {
  sm_mem k s m : I k s → I k (set_bytes m s);
  sm_testfd k s : I k s → file_testfd fd true false s = Ok true;
  sm_read k s b n : I k s → 0 < n ≤ IOBUF_SIZE → mapped (bytes s) b n →
    let l := take (Z.to_nat n) (drop k data) in
    ∃ s', file_read fd b n s = Ok (0, Z.of_nat (length l), s') ∧ I (k + length l)%nat s' ∧ bytes_at (bytes s') b l ∧
      (∀ a, ¬ (b ≤ a < b + n) → bytes s' !! a = bytes s !! a) ∧ mapped (bytes s') b n
}.

Lemma memcpy_ok m d src l :
  bytes_at m src l → mapped m d (Z.of_nat (length l)) → (src + Z.of_nat (length l) ≤ d ∨ d + Z.of_nat (length l) ≤ src) →
  ∃ m', memcpy m d src (Z.of_nat (length l)) = Ok (d, m') ∧ updated m m' d l.
Proof.
  intros Hs Hd Ha. unfold memcpy. rewrite Nat2Z.id. destruct (copy_up_ok m d src l Hs Hd) as (m' & -> & Hu); [lia|]. by exists m'.
Qed.

(** A part of an area. *)
Lemma area_ok_part a mm addr len addr' len' w :
  area_ok a mm addr len w → 0 ≤ addr → addr + len < 2 ^ 32 → addr ≤ addr' → 0 < len' → addr' + len' ≤ addr + len → area_ok a mm addr' len' w.
Proof.
  intros Ha B0 B1 B2 B3 B4. unfold area_ok in *. rewrite u32_small in * by lia. destruct mm as [q|].
  - destruct Ha as [Hu (m & Hq & Ha)]. split; [|exists m; split; [done|]; intros x Hx; apply Ha; lia].
    unfold USER_ACCESS in *. rewrite !andb_true_iff, !Z.leb_le, !Z.ltb_lt in *. lia.
  - unfold KERN_ACCESS in *. rewrite !andb_true_iff, !Z.leb_le, !Z.ltb_lt in *. lia.
Qed.

(** What one call of [to_user] does with a permitted area. *)
Lemma to_user_ok dst src l u :
  space_ok (uva u) (umm u) → area_ok (uva u) (umm u) dst (Z.of_nat (length l)) true →
  bytes_at (umem u) src l → mapped (umem u) dst (Z.of_nat (length l)) →
  (src + Z.of_nat (length l) ≤ dst ∨ dst + Z.of_nat (length l) ≤ src) →
  ∃ a m, to_user dst src (Z.of_nat (length l)) u = Ok (true, set_umem a m u) ∧ space_ok a (umm u) ∧
    same_space (umm u) (uva u) a ∧ updated (umem u) m dst l.
Proof.
  intros Hs Ha Hb Hm Hd. destruct (to_user_eq dst src (Z.of_nat (length l)) u Hs) as (ok & a & Hs' & Hsa & Hok & ->).
  rewrite (proj2 Hok Ha). destruct (memcpy_ok _ _ _ _ Hb Hm Hd) as (m & -> & Hu). by exists a, m.
Qed.

Lemma mapped_part m a n a' n' : mapped m a n → a ≤ a' → a' + n' ≤ a + n → mapped m a' n'.
Proof. intros Hm B1 B2 x Hx. apply Hm. lia. Qed.

Lemma read_rounds_ok fd data I (buffer base0 len0 : Z) n k done u :
  stream fd data I → I k (uvs u) → space_ok (uva u) (umm u) →
  let left := len0 - Z.of_nat done in
  area_ok (uva u) (umm u) base0 len0 true → 0 ≤ base0 → base0 + len0 < 2 ^ 32 → len0 < 2 ^ 31 → 0 ≤ left < Z.of_nat n →
  (buffer + IOBUF_SIZE ≤ base0 ∨ base0 + len0 ≤ buffer) →
  mapped (umem u) buffer IOBUF_SIZE → mapped (umem u) base0 len0 →
  let l := take (Z.to_nat left) (drop k data) in
  ∃ u', read_rounds n fd (base0 + Z.of_nat done) left (Z.of_nat done) 0 buffer u = Ok (Z.of_nat (done + length l), u') ∧
    I (k + length l)%nat (uvs u') ∧ bytes_at (umem u') (base0 + Z.of_nat done) l ∧
    ∀ a, ¬ (buffer ≤ a < buffer + IOBUF_SIZE) → ¬ (base0 + Z.of_nat done ≤ a < base0 + len0) → umem u' !! a = umem u !! a.
Proof.
  intros Hst. revert k done u. induction n as [|n IH]; intros k done u HI Hs left Ha B0 B1 B2 Hl Hd Hb Hm l; [lia|].
  assert (∀ c, 0 ≤ c < 2 ^ 31 → copied_or c 0 = c) as Hcop.
  { intros c Hc. unfold copied_or. destruct (Z.eqb_spec c 0); [done|]. cbn. apply i32_small. lia. }
  cbn [read_rounds]. destruct (Z.eqb_spec left 0) as [Hz|Hz].
  { exists u. unfold l. rewrite Hz. change (Z.to_nat 0) with 0%nat. rewrite take_0. cbn [length]. rewrite !Nat.add_0_r, Hcop by lia. done. }
  cbv zeta. set (n1 := if left <? IOBUF_SIZE then left else IOBUF_SIZE).
  assert (n1 = Z.min left 4096) as Hn1 by (unfold n1, IOBUF_SIZE; destruct (Z.ltb_spec left 4096); lia). clearbody n1.
  destruct (sm_read _ _ _ Hst k (uvs u) buffer n1 HI) as (s1 & Er & HI1 & Hb1 & Hf1 & Hm1); [unfold IOBUF_SIZE; lia| |].
  { eapply mapped_part; [exact Hb|lia|unfold IOBUF_SIZE; lia]. }
  set (l1 := take (Z.to_nat n1) (drop k data)) in *. unfold on_files. rewrite Er. cbn [bind].
  assert (length l1 ≤ Z.to_nat n1)%nat as Hl1 by (unfold l1; rewrite length_take; lia).
  assert (∀ x n, mapped (umem u) x n → (∀ a, x ≤ a < x + n → ¬ (buffer ≤ a < buffer + n1)) → mapped (bytes s1) x n) as Hmap.
  { intros x n' Hx Ho a Hin. rewrite Hf1 by (by apply Ho). by apply Hx. }
  destruct (Z.eqb_spec (Z.of_nat (length l1)) 0) as [Hz1|Hz1]; cbn [negb].
  - (* the end of the stream *)
    cbn [bind]. change (0 =? 0) with true. cbn [negb orb]. rewrite Hcop by lia.
    assert (length (drop k data) = 0%nat) as Hend by (unfold l1 in Hz1; rewrite length_take in Hz1; lia).
    apply nil_length_inv in Hend. assert (l = []) as El by (unfold l; by rewrite Hend, take_nil). rewrite El. cbn [length].
    assert (l1 = []) as El1 by (apply nil_length_inv; lia). rewrite El1 in HI1. cbn [length] in HI1. rewrite !Nat.add_0_r in *.
    eexists. split; [done|]. split_and!; [done|done|]. intros a Hna _. apply Hf1. unfold IOBUF_SIZE in Hna. lia.
  - destruct (to_user_ok (base0 + Z.of_nat done) buffer l1 (set_uvs s1 u)) as (a2 & m2 & Et & Hs2 & Hsa2 & Hu2).
    { exact Hs. } { eapply area_ok_part; [exact Ha|..]; lia. } { exact Hb1. }
    { apply Hmap; [eapply mapped_part; [exact Hm|lia|lia]|]. unfold IOBUF_SIZE in *. intros a Hin. lia. }
    { unfold IOBUF_SIZE in *. lia. }
    rewrite Et. cbn [bind]. rewrite (proj2 (Z.leb_le _ _)) by lia. cbn [bind]. change (0 =? 0) with true. cbn [negb orb].
    destruct (Z.eqb_spec (Z.of_nat (length l1)) 0) as [|_]; [lia|]. rewrite !u32_small by lia.
    set (u2 := set_umem a2 m2 (set_uvs s1 u)).
    replace (base0 + Z.of_nat done + Z.of_nat (length l1)) with (base0 + Z.of_nat (done + length l1)) by lia.
    replace (left - Z.of_nat (length l1)) with (len0 - Z.of_nat (done + length l1)) by lia.
    replace (Z.of_nat done + Z.of_nat (length l1)) with (Z.of_nat (done + length l1)) by lia.
    assert (drop (length l1) (drop k data) = drop (k + length l1) data) as Ed by apply drop_drop.
    assert (l = l1 ++ take (Z.to_nat (len0 - Z.of_nat (done + length l1))) (drop (k + length l1) data)) as El.
    { rewrite <- Ed. unfold l. destruct (decide (length l1 = Z.to_nat n1)) as [E|E].
      - rewrite <- (take_drop (length l1) (drop k data)) at 1. unfold l1 at 3. rewrite <- E. rewrite take_app_ge; [|rewrite length_take; lia].
        f_equal. f_equal. rewrite length_take. unfold l1 in *. rewrite length_take in *. lia.
      - assert (l1 = drop k data) as E1 by (unfold l1 in *; rewrite length_take in E; rewrite take_ge by lia; done).
        rewrite E1, drop_all, take_nil, app_nil_r. apply take_ge. rewrite <- E1. lia. }
    destruct (IH (k + length l1)%nat (done + length l1)%nat u2) as (u' & Eu & HI' & Hb' & Hf').
    { unfold u2. cbn. by apply (sm_mem _ _ _ Hst). } { exact Hs2. } { eapply area_ok_same; [exact Hs|exact Hsa2|done]. }
    { done. } { done. } { done. } { lia. } { done. }
    { intros a Hin. unfold u2, umem. cbn. rewrite Hu2. case_decide; [apply lookup_lt_is_Some; lia|].
      destruct (decide (buffer ≤ a < buffer + n1)); [by apply Hm1|]. rewrite Hf1 by lia. by apply Hb. }
    { intros a Hin. unfold u2, umem. cbn. rewrite Hu2. case_decide; [apply lookup_lt_is_Some; lia|].
      unfold IOBUF_SIZE in *. rewrite Hf1 by lia. by apply Hm. }
    exists u'. rewrite Eu. set (l2 := take _ (drop (k + length l1) data)) in *. rewrite El, length_app. split_and!.
    + f_equal. f_equal. lia.
    + by rewrite Nat.add_assoc.
    + apply bytes_at_app. split.
      * eapply bytes_at_frame; [|eapply updated_bytes, Hu2]. intros a Hin. unfold IOBUF_SIZE in *. rewrite Hf'; [done|lia|lia].
      * replace (base0 + Z.of_nat done + Z.of_nat (length l1)) with (base0 + Z.of_nat (done + length l1)) by lia. done.
    + intros a Hna Hnb. unfold IOBUF_SIZE in *. rewrite Hf' by lia. unfold u2, umem. cbn. rewrite Hu2, decide_False by lia. apply Hf1. lia.
Qed.

(** Reading [len] bytes from a stream into a permitted area. *)
Lemma sysfile_read_stream fd data I (buffer base len : Z) k u :
  stream fd data I → I k (uvs u) → space_ok (uva u) (umm u) → area_ok (uva u) (umm u) base len true →
  0 ≤ base → base + len < 2 ^ 32 → 0 ≤ len < 2 ^ 31 → (buffer + IOBUF_SIZE ≤ base ∨ base + len ≤ buffer) →
  mapped (umem u) buffer IOBUF_SIZE → mapped (umem u) base len →
  let l := take (Z.to_nat len) (drop k data) in
  ∃ u', sysfile_read (Some buffer) fd base len u = Ok (Z.of_nat (length l), u') ∧ I (k + length l)%nat (uvs u') ∧
    bytes_at (umem u') base l ∧
    ∀ a, ¬ (buffer ≤ a < buffer + IOBUF_SIZE) → ¬ (base ≤ a < base + len) → umem u' !! a = umem u !! a.
Proof.
  intros Hst HI Hs Ha B0 B1 Hl Hd Hb Hm l. unfold sysfile_read. destruct (Z.eqb_spec len 0) as [Hz|Hz].
  { exists u. unfold l. rewrite Hz. change (Z.to_nat 0) with 0%nat. rewrite take_0. cbn [length]. rewrite Nat.add_0_r. done. }
  rewrite (sm_testfd _ _ _ Hst _ _ HI). cbn [bind negb].
  destruct (read_rounds_ok fd data I buffer base len (S (Z.to_nat len)) k 0 u) as (u' & E & HI' & Hb' & Hf);
    rewrite ?Z.sub_0_r, ?Z.add_0_r in *; try done; [lia|lia|].
  by exists u'.
Qed.
End sysfile_inv.

(** ** A process that reads from the keyboard device

    A name is in its program area, the kernel's buffers are at [0xC0001000]. *)

Definition demo_mem : mem :=
  list_to_map (((λ a, (a, 0)) <$> seqZ 0x00800100 16) ++ ((λ a, (a, 0)) <$> seqZ 0xC0001000 16)).
Definition demo_user : ustate dev_state :=
  mkU (Some 1) demo_vmm (set_bytes (list_to_map (imap (λ i c, (0x00800000 + Z.of_nat i, c)) (path_stdin ++ [0])) ∪ demo_mem) OpenFiles.demo).

Definition user_calls : list sysfile_call :=
  [Sopen (Some 0xC0001000) None 0x00800000 O_RDONLY; Sread (Some 0xC0001000) 0 0x00800100 2; Sread (Some 0xC0001000) 0 0x10 2;
   Sdup 0 7; Sclose 0; Sopen None None 0x00800000 O_RDONLY; Sclose 9].

Lemma demo_space_ok : space_ok demo_vmm (Some 1).
Proof. intros q [= <-]. exists demo_mm. split; [done|apply demo_mm_inv]. Qed.

Lemma demo_user_table : fss (uvs demo_user) !! filesp (uvs demo_user) = Some (mkFiles None (fd_array_init raw_files) 1).
Proof. by vm_compute. Qed.

Lemma sysfiles_balanced_witness :
  ∃ u', sysfiles user_calls demo_user = Ok u' ∧ rc (uvs u') 1 = rc (uvs demo_user) 1 + 1 ∧
    umem u' !! 0x00800101 = Some 105 ∧ (let v := uvs demo_user in let v' := uvs u' in
      space_ok (uva u') (umm u') ∧ filesp v' = filesp v ∧ (∀ q, q ≠ filesp v → fss v' !! q = fss v !! q) ∧
      ∃ t', fss v' !! filesp v = Some t' ∧ table_ok t' ∧
        (Forall no_creat user_calls → ∀ p,
          eq32 (rc v' p - holds t' p) (rc v p - holds (mkFiles None (fd_array_init raw_files) 1) p) ∧
          eq32 (oc v' p - opens t' p) (oc v p - opens (mkFiles None (fd_array_init raw_files) 1) p))).
Proof.
  destruct (yields_run _ (sysfiles user_calls demo_user)
    (sysfiles_balanced user_calls demo_user _ demo_space_ok demo_user_table (demo_table_ok 1) ltac:(repeat constructor; done))) as (u' & Hu' & Hb); [by vm_compute|].
  exists u'. split; [done|]. assert (u' = get_ok demo_user (sysfiles user_calls demo_user)) as -> by (by rewrite Hu').
  split; [by vm_compute|]. split; [by vm_compute|]. exact Hb.
Defined.
