(* ===== verification/SfsStream.v ===== *)
(** * Reading a file of the volume through all layers

    An open file of sfs is a [stream]: [file_read] goes through the table of open files,
    the table of functions of the inode, [sfs_io_nolock], the block map and the device, and
    delivers the next bytes of the content.  With [sysfile_read_stream] this gives the system
    call [read] from the disk to the memory of the process. *)

From S2P Require Import Prelude CString Iobuf Vmm Vfs File FileInv FileTable SfsDisk Sfs SfsInv SfsMap SfsFile SfsVfs SfsDemo Sysfile SysfileInv.

(** ** Entries of the table of open files *)

Section entries.
Context {F : Type} `{vfs_impl F}.
Implicit Types v : vstate F.

Definition at_file v (fp : filep) (f : file) : Prop :=
  ∃ t, fss v !! fp.1 = Some t ∧ 0 < files_count t ∧ fd_array t !! fp.2 = Some f.

Lemma get_at v fp f : at_file v fp f → get_file v fp = Ok f.
Proof. intros (t & Ht & _ & Hf). unfold get_file, get_files. rewrite Ht. cbn. by rewrite Hf. Qed.

(** What the functions of file.c change is the map of tables. *)
Lemma upd_at v fp f g : at_file v fp f → ∃ m, upd_file fp g v = Ok (set_fss m v) ∧ at_file (set_fss m v) fp (g f).
Proof.
  intros (t & Ht & Hc & Hf). unfold upd_file, get_files. rewrite Ht. cbn [deref bind]. rewrite Hf. cbn [deref bind].
  eexists. split; [done|]. eexists. cbn. rewrite lookup_insert_eq. split; [done|]. split; [done|]. cbn.
  rewrite list_lookup_insert_eq; [done|]. by eapply lookup_lt_Some.
Qed.

Lemma stream_acquire v fp f :
  at_file v fp f → status f = FD_OPENED → fopen_count f = 1 →
  ∃ m, fd_array_acquire fp v = Ok (set_fss m v) ∧ at_file (set_fss m v) fp (set_fopen_count 2 f).
Proof.
  intros Ha Ho Hc. unfold fd_array_acquire, fopen_count_inc. rewrite (get_at _ _ _ Ha). cbn [bind].
  rewrite bool_decide_eq_true_2, Hc by done. cbn [bind]. cbv zeta.
  destruct (upd_at v fp f (set_fopen_count (i32 (1 + 1))) Ha) as (m & -> & Hm). by exists m.
Qed.

Lemma stream_release v fp f :
  at_file v fp f → status f = FD_OPENED → fopen_count f = 2 →
  ∃ m, fd_array_release fp v = Ok (set_fss m v) ∧ at_file (set_fss m v) fp (set_fopen_count 1 f).
Proof.
  intros Ha Ho Hc. unfold fd_array_release, fopen_count_dec. rewrite (get_at _ _ _ Ha). cbn [bind].
  rewrite bool_decide_eq_true_2, Hc by auto. cbn [bind]. cbv zeta.
  destruct (upd_at v fp f (set_fopen_count (i32 (2 - 1))) Ha) as (m & -> & Hm). by exists m.
Qed.

(** The entry [f] at [fd] is open for reading on the inode [p], at position [k]. *)
Record open_at v (fd : Z) (p : ptr) (k : Z) : Prop := {
  oa_fd : testfd fd = true;
  oa_table : filesp v ≠ 0;
  oa_entry : ∃ f, at_file v (filesp v, Z.to_nat fd) f ∧ status f = FD_OPENED ∧ Vfs.fd f = fd ∧ readable f = true ∧
    node f = Some p ∧ pos f = k ∧ fopen_count f = 1
}.

Lemma with_fd_open {A} v fd p k (err : Z → A) (body : filep → res A) :
  open_at v fd p k → with_fd fd err body v = body (filesp v, Z.to_nat fd).
Proof.
  intros [Hfd Hq (f & Ha & Ho & Hn & _)]. unfold with_fd, fd2file, get_fd_array. rewrite Hfd, (proj2 (Z.eqb_neq _ _) Hq).
  pose proof Ha as (t & Ht & Hc & _). unfold get_files. cbn [fst] in Ht. rewrite Ht. cbn [deref bind].
  rewrite (proj2 (Z.ltb_lt _ _) Hc). cbn [bind]. rewrite (get_at _ _ _ Ha). cbn [bind].
  rewrite (decide_True (P := status f = FD_OPENED ∧ _)) by done. cbn [bind]. by rewrite decide_False by auto.
Qed.

Lemma testfd_open v fd p k : open_at v fd p k → file_testfd fd true false v = Ok true.
Proof.
  intros Hoa. unfold file_testfd. rewrite (with_fd_open _ _ _ _ _ _ Hoa). destruct Hoa as [_ _ (f & Ha & _ & _ & Hr & _)].
  rewrite (get_at _ _ _ Ha). cbn [bind]. by rewrite Hr.
Qed.

(** [file_read] on an open file does what the function of its inode does, and moves the
    position. *)
Lemma read_open v fd p k b n g iob v' :
  open_at v fd p k → is_u32 n → 0 ≤ k → k + iobuf_used iob < 2 ^ 31 →
  (∀ m, vop_op vop_read (Some p) (set_fss m v) = Ok (p, g)) →
  (∀ m, g p (iobuf_init b n k) (set_fss m v) = Ok (0, iob, set_fss m v')) → filesp v' = filesp v →
  ∃ m, file_read fd b n v = Ok (0, iobuf_used iob, set_fss m v') ∧ open_at (set_fss m v') fd p (k + iobuf_used iob).
Proof.
  intros Hoa Hn Hk Hu Hop Hg Hp. unfold file_read, transfer. rewrite (with_fd_open _ _ _ _ _ _ Hoa).
  destruct Hoa as [Hfd Hq (f & Ha & Ho & Hfdn & Hr & Hnode & Hpos & Hc)].
  rewrite (get_at _ _ _ Ha). cbn [bind]. rewrite Hr. cbn [negb].
  destruct (stream_acquire _ _ _ Ha Ho Hc) as (m1 & -> & Ha1). cbn [bind]. rewrite Hnode, Hop. cbn [bind].
  rewrite Hpos, u32_small by done. rewrite Hg. cbn [bind]. cbv zeta.
  change (at_file (set_fss m1 v') (filesp v, Z.to_nat fd) (set_fopen_count 2 f)) in Ha1.
  rewrite (get_at _ _ _ Ha1). cbn [bind]. rewrite (decide_True (P := status _ = _)) by done.
  destruct (upd_at _ _ _ (set_pos (i32 (pos (set_fopen_count 2 f) + iobuf_used iob))) Ha1) as (m2 & -> & Ha2). cbn [bind].
  change (set_fss m2 (set_fss m1 v')) with (set_fss m2 v') in *.
  destruct (stream_release _ _ _ Ha2 Ho eq_refl) as (m3 & -> & Ha3). cbn [bind].
  change (set_fss m3 (set_fss m2 v')) with (set_fss m3 v') in *.
  exists m3. split; [done|]. split; [done|by cbn; rewrite Hp|]. cbn [filesp set_fss]. rewrite Hp. eexists. split; [exact Ha3|].
  cbn. rewrite Hpos. split_and!; try done. apply i32_small. assert (0 ≤ iobuf_used iob) by apply u32_range. lia.
Qed.
End entries.

Lemma mapped_bytes m a n : mapped m a (Z.of_nat n) → ∃ l, bytes_at m a l ∧ length l = n.
Proof.
  revert a. induction n as [|n IH]; intros a Hm; [by exists []|].
  destruct (Hm a ltac:(lia)) as [c Hc]. destruct (IH (a + 1)) as (l & Hl & El); [intros b Hb; apply Hm; lia|].
  exists (c :: l). split; [done|cbn; lia].
Qed.

(** ** Files of a volume *)

Section sfs_stream.
Context {D : Type} `{block_dev_laws D}.
Notation W := (vstate (sfs_world D)).
Implicit Types v : W.

(** The inode [p] is a file of a mounted volume and its content is [data]. *)
Record file_node v (p : ptr) (n : inode) (fs dv : ptr) (x : sfs_fs D) (sin : sfs_inode) (own : Z → Prop) (data : list Z) : Prop := {
  fn_inode : inodes v !! p = Some n;
  fn_ops : in_ops n = SFS_FILEOPS;
  fn_check : inode_check n sfs_node_fileops = true;
  fn_type : in_type n = inode_type_sfs_inode_info;
  fn_fs : in_fs n = Some fs;
  fn_mounted : mounted (priv v) !! fs = Some (dv, x);
  fn_sin : sins (priv v) !! p = Some sin;
  fn_inv : sfs_inv x;
  fn_sound : sound x;
  fn_file : file_ok x sin own;
  fn_data : content x (din sin) = data
}.

Lemma node_vop v p n fs dv x sin own data : file_node v p n fs dv x sin own data → vop_op vop_read (Some p) v = Ok (p, sfs_read).
Proof.
  intros Hn. unfold vop_op, get_inode. rewrite (fn_inode _ _ _ _ _ _ _ _ _ Hn). cbn [deref bind].
  rewrite (fn_ops _ _ _ _ _ _ _ _ _ Hn). change (ops_at SFS_FILEOPS) with (Some (sfs_node_fileops (D := D))). cbn [vop_read sfs_node_fileops sfs_node_fileops_of].
  by rewrite (fn_check _ _ _ _ _ _ _ _ _ Hn).
Qed.

Lemma length_content x sin own : io_inv x → file_ok x sin own → Z.of_nat (length (content x (din sin))) = di_size (din sin).
Proof.
  intros Hx [Hf _ Hs]. pose proof (fi_pos _ _ _ Hf). unfold content, size_ok in *. rewrite length_take.
  pose proof (length_fbytes x (din sin)) as Hl. rewrite Hl by done. lia.
Qed.

(** One [read] of the inode, whatever the tables of open files are. *)
Lemma sfs_read_node v p n fs dv x sin own data k b len :
  file_node v p n fs dv x sin own data → (k ≤ length data)%nat → 0 < len ≤ IOBUF_SIZE → mapped (bytes v) b len →
  let l := take (Z.to_nat len) (drop k data) in
  ∃ iob v' x', (∀ t, sfs_read p (iobuf_init b len (Z.of_nat k)) (set_fss t v) = Ok (0, iob, set_fss t v')) ∧ iobuf_used iob = Z.of_nat (length l) ∧
    file_node v' p n fs dv x' sin own data ∧ filesp v' = filesp v ∧ fss v' = fss v ∧ bytes_at (bytes v') b l ∧
    (∀ a, ¬ (b ≤ a < b + len) → bytes v' !! a = bytes v !! a) ∧ mapped (bytes v') b len.
Proof.
  intros Hn Hk Hlen Hm l. pose proof Hn as [Hi Ho Hc Ht Hf Hmt Hsin Hx Hso Hfo Hd].
  pose proof (length_content x sin own (iv_io _ Hx) Hfo) as Hsz. rewrite Hd in Hsz. pose proof (fi_blocks _ _ _ (fo_file _ _ _ Hfo)) as Hb.
  pose proof (fo_size _ _ _ Hfo) as Hfit. unfold size_ok, MAX_BLOCKS, IOBUF_SIZE in *.
  destruct (mapped_bytes (bytes v) b (Z.to_nat len)) as (buf & Hbuf & Hlb); [by rewrite Z2Nat.id by lia|].
  destruct (io_nolock_read own x sin buf (Z.of_nat k)) as (ret & n' & buf' & x' & E & He & Hl' & Hn' & Hdata & Hret & Hz);
    [done|done|unfold SFS_MAX_FILE_SIZE; lia|lia|unfold SFS_MAX_FILE_SIZE; lia|].
  apply load_bytes_ok in Hbuf. rewrite Hlb in *. rewrite Z2Nat.id in * by lia. rewrite (Hz Hso) in *. specialize (Hret eq_refl).
  destruct (store_bytes_ok (bytes v) b buf') as (m & Em & Hu); [by rewrite Hl', Z2Nat.id by lia|].
  destruct (file_evolve_all _ _ _ _ (fo_file _ _ _ Hfo) He) as (Hfo' & Hda & _). rewrite Nat2Z.id, Hd in Hdata.
  assert (length l = Z.to_nat n') as Hll by (unfold l; rewrite length_take, length_drop; lia).
  assert (l = take (Z.to_nat n') buf') as El.
  { rewrite Hdata. unfold l. destruct (decide (n' = len)) as [->|]; [done|]. rewrite !take_ge by (rewrite length_drop; lia). done. }
  exists (if n' =? 0 then iobuf_init b len (Z.of_nat k) else mkIobuf (b + n') (i32 (Z.of_nat k + n')) len (u32 (len - n'))).
  exists (set_bytes m (put_sin p sin (on_priv (set_mounted (<[fs:=(dv, x')]> (mounted (priv v)))) v))), x'.
  split; [|split; [|split; [|split; [done|split; [done|split; [|split]]]]]].
  - intros t. unfold sfs_read, sfs_io. cbn [io_resid io_base io_offset iobuf_init bytes set_fss]. rewrite Hbuf. cbn [bind].
    unfold on_sin, vop_fs, get_sin, get_sfs, get_inode. cbn [inodes priv set_fss]. rewrite Hi. cbn [deref bind]. rewrite Hf. cbn [bind].
    rewrite Hmt. cbn [deref bind snd]. rewrite Ht, (Z.eqb_refl _), Hsin. cbn [deref bind]. rewrite E. cbn [bind].
    unfold put_sfs. cbn [priv set_fss]. rewrite Hmt. cbn [deref bind fst bytes put_sin on_priv set_priv set_fss]. rewrite Em. cbn [bind].
    destruct (n' =? 0); cbn [negb]; [done|]. unfold iobuf_skip. cbn [io_resid io_base io_offset io_len iobuf_init].
    rewrite (proj2 (Z.leb_le n' len)) by lia. done.
  - rewrite Hll. destruct (Z.eqb_spec n' 0) as [->|?]; unfold iobuf_used; cbn; [by rewrite Z.sub_diag|].
    rewrite (u32_small (len - n')), u32_small; lia.
  - split; try done; cbn [bytes priv set_bytes put_sin on_priv set_priv mounted sins set_mounted set_sins].
    + by rewrite lookup_insert_eq.
    + by rewrite lookup_insert_eq.
    + apply He.
    + by apply (ev_sound _ _ _ He).
    + split; [done|apply Hfo..].
    + unfold content, fbytes. rewrite Hda. exact Hd.
  - rewrite El. apply updated_bytes in Hu. rewrite <- (take_drop (Z.to_nat n') buf') in Hu. by apply bytes_at_app in Hu as [Hu _].
  - intros a Ha. eapply updated_frame; [exact Hu|]. rewrite Hl'. lia.
  - by eapply updated_mapped.
Qed.

(** What [sfs_read_node] needs does not depend on the tables of open files. *)
Definition reads (own : Z → Prop) (p : ptr) (fd : Z) (data : list Z) (k : nat) v : Prop :=
  (k ≤ length data)%nat ∧ open_at v fd p (Z.of_nat k) ∧ ∃ n fs dv x sin, file_node v p n fs dv x sin own data.

Lemma file_node_small v p n fs dv x sin own data : file_node v p n fs dv x sin own data → Z.of_nat (length data) ≤ 4096 * MAX_BLOCKS.
Proof.
  intros Hn. rewrite <- (fn_data _ _ _ _ _ _ _ _ _ Hn), (length_content _ _ own); [|apply Hn|apply Hn].
  pose proof (fi_blocks _ _ _ (fo_file _ _ _ (fn_file _ _ _ _ _ _ _ _ _ Hn))).
  pose proof (fo_size _ _ _ (fn_file _ _ _ _ _ _ _ _ _ Hn)). unfold size_ok in *. lia.
Qed.

Lemma sfs_stream own p fd data : stream fd data (reads own p fd data).
Proof.
  split.
  - intros k v m (Hk & [Hfd Hq He] & n & fs & dv & x & sin & []). split; [done|]. split; [by split|]. by exists n, fs, dv, x, sin.
  - intros k v (_ & Ho & _). by eapply testfd_open.
  - intros k v b len (Hk & Ho & n & fs & dv & x & sin & Hn) Hlen Hm l.
    pose proof (file_node_small _ _ _ _ _ _ _ _ _ Hn) as Hsmall. unfold MAX_BLOCKS in Hsmall.
    assert (length l ≤ length data - k)%nat as Hll by (unfold l; rewrite length_take, length_drop; lia).
    destruct (sfs_read_node v p n fs dv x sin own data k b len Hn Hk Hlen Hm) as (iob & v' & x' & Er & Hu & Hn' & Hp & _ & Hb & Hf & Hm').
    fold l in Hu, Hb. assert (∀ m, file_node (set_fss m v) p n fs dv x sin own data) as Hns by (intros m; by destruct Hn).
    destruct (read_open v fd p (Z.of_nat k) b len sfs_read iob v') as (m & E & Ho'); try done.
    + unfold is_u32, IOBUF_SIZE in *. lia.
    + lia.
    + rewrite Hu. lia.
    + intros m. by eapply node_vop.
    + rewrite E, Hu in *. rewrite <- Nat2Z.inj_add in Ho'. exists (set_fss m v'). split; [done|]. split; [|by split_and!].
      split; [lia|]. split; [done|]. exists n, fs, dv, x', sin. by destruct Hn'.
Qed.
End sfs_stream.

(** C5: the system call [read] on a regular file of a mounted volume, from the disk to the
    process: it returns the number of bytes that there are from the position on, at most
    [len]; they are copied to [base] chunk by chunk, the position moves behind them, the
    content and the state of the open file stay, and outside the two buffers no byte of
    memory changes.  The hypotheses are that the descriptor is open for reading, the volume
    is consistent and its device works, and the process may write to its buffer. *)
Theorem sysfile_read_sfs {D : Type} `{block_dev_laws D} own p fd data k buffer base len (u : ustate (sfs_world D)) :
  reads own p fd data k (uvs u) → space_ok (uva u) (umm u) → area_ok (uva u) (umm u) base len true →
  0 ≤ base → base + len < 2 ^ 32 → 0 ≤ len < 2 ^ 31 → (buffer + IOBUF_SIZE ≤ base ∨ base + len ≤ buffer) →
  mapped (umem u) buffer IOBUF_SIZE → mapped (umem u) base len →
  let l := take (Z.to_nat len) (drop k data) in
  ∃ u', sysfile_read (Some buffer) fd base len u = Ok (Z.of_nat (length l), u') ∧ bytes_at (umem u') base l ∧
    reads own p fd data (k + length l)%nat (uvs u') ∧
    ∀ a, ¬ (buffer ≤ a < buffer + IOBUF_SIZE) → ¬ (base ≤ a < base + len) → umem u' !! a = umem u !! a.
Proof.
  intros Hr Hs Ha B0 B1 Hl Hd Hb Hm l.
  destruct (sysfile_read_stream fd data _ buffer base len k u (sfs_stream own p fd data) Hr Hs Ha B0 B1 Hl Hd Hb Hm) as (u' & E & Hr' & Hat & Hf).
  by exists u'.
Qed.

(** ** The file of [SfsDemo], open as descriptor 3 of a process *)

Definition blank (a n : Z) : mem := gset_to_gmap 0 (list_to_set (seqZ a n)).

Lemma blank_mapped a n : mapped (blank a n) a n.
Proof.
  intros x Hx. unfold blank. rewrite lookup_gset_to_gmap, option_guard_True; [done|]. apply elem_of_list_to_set, elem_of_seqZ. lia.
Qed.

Definition read_inode : inode := mkInode inode_type_sfs_inode_info 1 1 (Some 40) SFS_FILEOPS.
Definition read_table : files_struct :=
  mkFiles None (<[3%nat := mkFile FD_OPENED true false 3 98 (Some 7) 1]> (replicate 145 (mkFile FD_NONE false false 0 0 None 0))) 1.
Definition read_state : vstate (sfs_world ramdisk) :=
  mkV {[ 7 := read_inode ]} [] None {[ 100 := read_table ]} 100 (blank 0xC0001000 4096 ∪ blank 0x00800000 16)
    (mkWorld ∅ {[ 40 := (30, SfsDemo.demo) ]} {[ 7 := file_sin ]} []).
Definition read_user : ustate (sfs_world ramdisk) := mkU (Some 1) demo_vmm read_state.

Lemma read_user_reads : reads file_own 7 3 (content SfsDemo.demo demo_file) 98 read_state.
Proof.
  assert (length (content SfsDemo.demo demo_file) = 100%nat) as Hl by (by vm_compute).
  split; [lia|]. split.
  - split; [done|done|]. eexists. split; [by exists read_table|]. done.
  - exists read_inode, 40, 30, SfsDemo.demo, file_sin. split; [done..|exact demo_inv|exact I|exact demo_file_ok|reflexivity].
Qed.

Lemma sysfile_read_sfs_witness :
  let l := take (Z.to_nat 5) (drop 98 (content SfsDemo.demo demo_file)) in l = [7; 7] ∧
  ∃ u', sysfile_read (Some 0xC0001000) 3 0x00800004 5 read_user = Ok (Z.of_nat (length l), u') ∧ bytes_at (umem u') 0x00800004 l ∧
    reads file_own 7 3 (content SfsDemo.demo demo_file) (98 + length l)%nat (uvs u') ∧
    ∀ a, ¬ (0xC0001000 ≤ a < 0xC0001000 + IOBUF_SIZE) → ¬ (0x00800004 ≤ a < 0x00800004 + 5) → umem u' !! a = umem read_user !! a.
Proof.
  split; [by vm_compute|]. apply (sysfile_read_sfs (D := ramdisk) file_own 7 3 _ 98 0xC0001000 0x00800004 5 read_user).
  - exact read_user_reads.
  - exact demo_space_ok.
  - destruct (user_mem_check_spec demo_vmm (Some 1) 0x00800004 5 true demo_space_ok) as (ok & a & E & _ & _ & Hok).
    apply Hok. vm_compute in E. congruence.
  - lia.
  - lia.
  - lia.
  - unfold IOBUF_SIZE. lia.
  - intros x Hx. apply lookup_union_is_Some. left. by apply blank_mapped.
  - intros x Hx. apply lookup_union_is_Some. right. apply blank_mapped. lia.
Defined.
