(* ===== verification/Proc.v ===== *)
(** * kern/process/proc.c: processes

    [kstate] puts the components together: the scheduler with the table of
    processes, physical memory, address spaces, open files, and the global variables of
    proc.c.  [proc_list] and the 1024 lists of [hash_list] are sequences of process
    addresses in list order (libs/list.h is verified in [ListH]).  A function that
    calls [kmalloc] takes the address of the new object, or [None] when there is no memory.

    [schedule] switches to another process: what the source does behind a call of
    [schedule] is a function of its own ([do_wait] is one round of the loop, started
    again when the process runs again; [do_sleep_end]).  Register contexts and trap
    frames ([copy_thread], [kernel_thread_entry]) are not kept, nor are the locks of
    address spaces. *)

From S2P Require Import Prelude Hash CString ListH DefaultPmm PmmManager Vmm Paging AddrSpace SkewHeap ProcData StrideSched Sched Vfs File.

(** ** Parameters *)

Definition HASH_SHIFT : Z := 10.
Definition HASH_LIST_SIZE : Z := Z.shiftl 1 HASH_SHIFT.
Definition pid_hashfn (x : Z) : Z := hash32 (u32 x) HASH_SHIFT.

Definition KSTACKPAGE : Z := 2.
Definition VPT : Z := 0xFAC00000.
Definition CLONE_VM : Z := 0x100.
Definition CLONE_FS : Z := 0x800.

Record kstate (RQ M F : Type) := mkK {
  sd : sched_state RQ;
  vm : vmem M;
  va : vmm;
  vs : vstate F;
  proc_list : list ptr;
  hash_list : gmap Z (list ptr);
  initproc : option ptr;
  nr_process : Z;
  next_safe : Z;
  last_pid : Z
}.
Arguments mkK {RQ M F}.
Arguments sd {RQ M F}.
Arguments vm {RQ M F}.
Arguments va {RQ M F}.
Arguments vs {RQ M F}.
Arguments proc_list {RQ M F}.
Arguments hash_list {RQ M F}.
Arguments initproc {RQ M F}.
Arguments nr_process {RQ M F}.
Arguments next_safe {RQ M F}.
Arguments last_pid {RQ M F}.

Section setters.
Context {RQ M F : Type}.
Implicit Types s : kstate RQ M F.

Definition set_sd x s : kstate RQ M F := mkK x (vm s) (va s) (vs s) (proc_list s) (hash_list s) (initproc s) (nr_process s) (next_safe s) (last_pid s).
Definition set_vm x s : kstate RQ M F := mkK (sd s) x (va s) (vs s) (proc_list s) (hash_list s) (initproc s) (nr_process s) (next_safe s) (last_pid s).
Definition set_va x s : kstate RQ M F := mkK (sd s) (vm s) x (vs s) (proc_list s) (hash_list s) (initproc s) (nr_process s) (next_safe s) (last_pid s).
Definition set_vs x s : kstate RQ M F := mkK (sd s) (vm s) (va s) x (proc_list s) (hash_list s) (initproc s) (nr_process s) (next_safe s) (last_pid s).
Definition set_proc_list l n s : kstate RQ M F := mkK (sd s) (vm s) (va s) (vs s) l (hash_list s) (initproc s) n (next_safe s) (last_pid s).
Definition set_hash_list h s : kstate RQ M F := mkK (sd s) (vm s) (va s) (vs s) (proc_list s) h (initproc s) (nr_process s) (next_safe s) (last_pid s).
Definition set_initproc p s : kstate RQ M F := mkK (sd s) (vm s) (va s) (vs s) (proc_list s) (hash_list s) p (nr_process s) (next_safe s) (last_pid s).
Definition set_pids n l s : kstate RQ M F := mkK (sd s) (vm s) (va s) (vs s) (proc_list s) (hash_list s) (initproc s) (nr_process s) n l.

Definition ptab s : ptable := procs (sd s).
Definition set_ptab t s : kstate RQ M F := set_sd (set_procs (sd s) t) s.
Definition upd s (p : ptr) (f : proc_struct → proc_struct) : res (kstate RQ M F) :=
  let! t := upd_proc (ptab s) p f in Ok (set_ptab t s).
Definition cur s : res proc_struct := get_proc (ptab s) (current (sd s)).
End setters.

(** ** Pids *)

(** One pass over the processes' pids; the result tells whether the pass ended or starts
    again ([goto repeat]). *)
Fixpoint pid_pass (pids : list Z) (last next : Z) : bool * Z * Z :=
  match pids with
  | [] => (true, last, next)
  | q :: pids =>
      if q =? last then
        let last := i32 (last + 1) in
        if next <=? last then (false, if MAX_PID <=? last then 1 else last, MAX_PID) else pid_pass pids last next
      else if (last <? q) && (q <? next) then pid_pass pids last q
      else pid_pass pids last next
  end.

Fixpoint pid_repeat (fuel : nat) (pids : list Z) (last next : Z) : res (Z * Z) :=
  match fuel with
  | O => NoFuel
  | S fuel =>
      let '(done, last, next) := pid_pass pids last next in
      if done : bool then Ok (last, next) else pid_repeat fuel pids last next
  end.

(** Every new start of the pass raises [last_pid] or sets it back to 1, which happens once. *)
Definition pid_fuel : nat := Z.to_nat (2 * MAX_PID + 2).

(** New [last_pid] and [next_safe]. *)
Definition get_pid_from (pids : list Z) (last next : Z) : res (Z * Z) :=
  let last := i32 (last + 1) in
  if MAX_PID <=? last then pid_repeat pid_fuel pids 1 MAX_PID
  else if next <=? last then pid_repeat pid_fuel pids last MAX_PID
  else Ok (last, next).

Fixpoint pids_of (t : ptable) (l : list ptr) : res (list Z) :=
  match l with
  | [] => Ok []
  | p :: l => let! pr := get_proc t p in let! r := pids_of t l in Ok (pid pr :: r)
  end.

(** ** Operations *)

Section proc.
Context {RQ M F : Type} `{sched_class RQ} `{pmm_manager M} `{vfs_impl F}.
Context (ide : Z → bool) (boot_cr3 boot_pgdir : Z).
Notation kst := (kstate RQ M F).
Implicit Types s : kst.

Definition get_pid s : res (Z * kst) :=
  let! pids := pids_of (ptab s) (proc_list s) in
  let! (last, next) := get_pid_from pids (last_pid s) (next_safe s) in
  Ok (last, set_pids next last s).

(** The new object holds [raw]; [exit_code] and the last byte of [name] keep it. *)
Definition alloc_proc (new : option (ptr * proc_struct) ) s : option ptr * kst :=
  match new with
  | None => (None, s)
  | Some (p, raw) =>
      (Some p, set_ptab (<[p := mkProc PROC_UNINIT (-1) 0 0 false None None boot_cr3 0
         (replicate (Z.to_nat PROC_NAME_LEN) 0 ++ drop (Z.to_nat PROC_NAME_LEN) (name raw))
         (exit_code raw) 0 None None None false 0 0 0 None]> (ptab s)) s)
  end.

(** [bytes]: the [PROC_NAME_LEN] bytes at the address [name]. *)
Definition set_proc_name (p : ptr) (bytes : list Z) s : res kst :=
  upd s p (λ pr, mkProc (state pr) (pid pr) (runs pr) (kstack pr) (need_resched pr) (parent pr) (mm pr) (cr3 pr) (flags pr)
    (take (Z.to_nat PROC_NAME_LEN) bytes ++ [0]) (exit_code pr) (wait_state pr) (cptr pr) (yptr pr) (optr pr) (rq pr)
    (time_slice pr) (lab6_stride pr) (lab6_priority pr) (ProcData.filesp pr)).

Definition get_proc_name (p : ptr) s : res (list Z) :=
  let! pr := get_proc (ptab s) p in Ok (take (Z.to_nat PROC_NAME_LEN) (name pr) ++ [0]).

Definition set_links (p : ptr) s : res kst :=
  let s := set_proc_list (p :: proc_list s) (nr_process s) s in
  let! s := upd s p (set_yptr None) in
  let! pr := get_proc (ptab s) p in
  let! par := deref (parent pr) in
  let! parp := get_proc (ptab s) par in
  let! s := upd s p (set_optr (cptr parp)) in
  let! s := match cptr parp with Some o => upd s o (set_yptr (Some p)) | None => Ok s end in
  let! s := upd s par (set_cptr (Some p)) in
  Ok (set_proc_list (proc_list s) (i32 (nr_process s + 1)) s).

Definition remove_links (p : ptr) s : res kst :=
  let s := set_proc_list (filter (λ q, q ≠ p) (proc_list s)) (nr_process s) s in
  let! pr := get_proc (ptab s) p in
  let! s := match optr pr with Some o => upd s o (set_yptr (yptr pr)) | None => Ok s end in
  let! s := match yptr pr with
            | Some y => upd s y (set_optr (optr pr))
            | None => let! par := deref (parent pr) in upd s par (set_cptr (optr pr))
            end in
  Ok (set_proc_list (proc_list s) (i32 (nr_process s - 1)) s).

Definition hash_bucket s (h : Z) : list ptr := default [] (hash_list s !! h).

Definition hash_proc (p : ptr) s : res kst :=
  let! pr := get_proc (ptab s) p in
  let h := pid_hashfn (pid pr) in
  Ok (set_hash_list (<[h := p :: hash_bucket s h]> (hash_list s)) s).

(** [list_del] finds the list of the entry by its links. *)
Definition unhash_proc (p : ptr) s : kst :=
  set_hash_list (filter (λ q, q ≠ p) <$> hash_list s) s.

Fixpoint find_in_bucket (t : ptable) (l : list ptr) (id : Z) : res (option ptr) :=
  match l with
  | [] => Ok None
  | p :: l => let! pr := get_proc t p in if pid pr =? id then Ok (Some p) else find_in_bucket t l id
  end.

Definition find_proc (id : Z) s : res (option ptr) :=
  if (0 <? id) && (id <? MAX_PID) then find_in_bucket (ptab s) (hash_bucket s (pid_hashfn id)) id else Ok None.

(** ** Kernel stacks and page directories *)

Definition setup_kstack (p : ptr) s : res (Z * kst) :=
  let! (o, m) := Paging.alloc_pages ide KSTACKPAGE (vm s) in
  let s := set_vm m s in
  match o with
  | Some page => let! k := page2kva page (vm s) in let! s := upd s p (set_kstack k) in Ok (0, s)
  | None => Ok (- E_NO_MEM, s)
  end.

Definition put_kstack (p : ptr) s : res kst :=
  let! pr := get_proc (ptab s) p in
  let! page := kva2page (kstack pr) (vm s) in
  let! m := Paging.free_pages page KSTACKPAGE (vm s) in Ok (set_vm m s).

Definition setup_pgdir (q : ptr) s : res (Z * kst) :=
  let! (o, m) := alloc_page ide (vm s) in
  let s := set_vm m s in
  match o with
  | None => Ok (- E_NO_MEM, s)
  | Some page =>
      let! _ := page2kva page (vm s) in
      let m := set_frame page (phys (vm s) boot_pgdir) (vm s) in
      let m := set_word page (PDX VPT) (Z.lor (Z.lor (page2pa page) PTE_P) PTE_W) m in
      let! sp := get_mm (va s) q in
      let sp := mkMm (mmap_list sp) (mmap_cache sp) (Some page) (map_count sp) (sm_priv sp) (mm_count sp) in
      Ok (0, set_va (put_mm (va s) q sp) (set_vm m s))
  end.

Definition put_pgdir (q : ptr) s : res kst :=
  let! sp := get_mm (va s) q in
  let! d := deref (pgdir sp) in
  let! m := free_page d (vm s) in Ok (set_vm m s).

(** [lcr3]: another page directory, and an empty TLB. *)
Definition lcr3 (d : Z) s : kst :=
  let m := vm s in
  set_vm (mkVm (mgr m) (npage m) (page_refs m) (pra_vaddr m) (phys m) ∅ (PPN d)
            (swap_init_ok m) (check_mm_struct m) (pra_list m) (swap_area m) (max_swap_offset m)) s.

(** [mm_create] with [swap_init_mm] for the new space when swapping is on. *)
Definition mm_create (new : option ptr ) s : option ptr * kst :=
  let on := swap_init_ok (vm s) in
  let (o, a) := Vmm.mm_create (va s) new (if on then Some pra_list_head else None) in
  (o, set_va a (if bool_decide (o ≠ None) && on then set_vm (set_pra_list [] (vm s)) s else s)).

(** [exit_mmap], [put_pgdir] and [mm_destroy], for an address space that nobody uses. *)
Definition free_space (q : ptr) s : res kst :=
  let! m := exit_mmap (va s) q (vm s) in
  let! s := put_pgdir q (set_vm m s) in
  let! a := mm_destroy (va s) q in Ok (set_va a s).

(** What the calls of [kmalloc] return during a fork. *)
Record fork_mem := mkForkMem {
  new_proc : option (ptr * proc_struct);
  new_files : option ptr;
  raw_files : list file;
  new_mm : option ptr;
  new_vmas : list (option Z)
}.

Definition use_mm (p q : ptr) s : res (Z * kst) :=
  let! sp := get_mm (va s) q in
  let sp := mm_count_inc sp in
  let s := set_va (put_mm (va s) q sp) s in
  let! s := upd s p (set_mm (Some q)) in
  let! d := deref (pgdir sp) in
  let! s := upd s p (set_cr3 (page2pa d)) in Ok (0, s).

Definition copy_mm (fm : fork_mem) (clone_flags : Z) (p : ptr) s : res (Z * kst) :=
  let! c := cur s in
  match mm c with
  | None => Ok (0, s)
  | Some old =>
      if has_bit clone_flags CLONE_VM then use_mm p old s else
      let (o, s) := mm_create (new_mm fm) s in
      match o with
      | None => Ok (- E_NO_MEM, s)
      | Some q =>
          let! (r, s) := setup_pgdir q s in
          if decide (r ≠ 0) then let! a := mm_destroy (va s) q in Ok (- E_NO_MEM, set_va a s) else
          let! (r, a, m) := dup_mmap ide (va s) q old (new_vmas fm) (vm s) in
          let s := set_vm m (set_va a s) in
          if decide (r ≠ 0) then let! s := free_space q s in Ok (r, s) else use_mm p q s
      end
  end.

Definition files_count_inc (q : ptr) s : res kst :=
  let! t := get_files (vs s) q in
  Ok (set_vs (put_files q (set_files_count (i32 (files_count t + 1)) t) (vs s)) s).

Definition copy_fs (fm : fork_mem) (clone_flags : Z) (p : ptr) s : res (Z * kst) :=
  let! c := cur s in
  match ProcData.filesp c with
  | None => Panicked
  | Some old =>
      let good q s :=
        let! s := files_count_inc q s in
        let! s := upd s p (set_filesp (Some q)) in Ok (0, s) in
      if has_bit clone_flags CLONE_FS then good old s else
      let (o, v) := files_create (new_files fm) (raw_files fm) (vs s) in
      match o with
      | None => Ok (- E_NO_MEM, s)
      | Some q => let! v := dup_fs q old v in good q (set_vs v s)    (* dup_fs returns 0 *)
      end
  end.

Definition put_fs (p : ptr) s : res kst :=
  let! pr := get_proc (ptab s) p in
  match ProcData.filesp pr with
  | None => Ok s
  | Some q =>
      let! t := get_files (vs s) q in
      let n := i32 (files_count t - 1) in
      let s := set_vs (put_files q (set_files_count n t) (vs s)) s in
      if n =? 0 then let! v := files_destroy q (vs s) in Ok (set_vs v s) else Ok s
  end.

Definition kfree_proc (p : ptr) s : kst := set_ptab (delete p (ptab s)) s.

(** ** Fork, exit, wait and kill *)

(** From [get_pid] to the end of [do_fork]. *)
Definition fork_link (p : ptr) s : res (Z * kst) :=
  let! (id, s) := get_pid s in
  let! s := upd s p (set_pid id) in
  let! s := hash_proc p s in
  let! s := set_links p s in
  let! d := wakeup_proc (sd s) p in
  let s := set_sd d s in
  let! pr := get_proc (ptab s) p in Ok (pid pr, s).

Definition do_fork (fm : fork_mem) (clone_flags : Z) s : res (Z * kst) :=
  if MAX_PROCESS <=? nr_process s then Ok (- E_NO_FREE_PROC, s) else
  let (o, s) := alloc_proc (new_proc fm) s in
  match o with
  | None => Ok (- E_NO_MEM, s)
  | Some p =>
      let! s := upd s p (set_parent (Some (current (sd s)))) in
      let! c := cur s in
      assert! wait_state c =? 0 ;;
      let! (r, s) := setup_kstack p s in
      if decide (r ≠ 0) then Ok (- E_NO_MEM, kfree_proc p s) else
      let! (r, s) := copy_fs fm clone_flags p s in
      if decide (r ≠ 0) then let! s := put_kstack p s in Ok (- E_NO_MEM, kfree_proc p s) else
      let! (r, s) := copy_mm fm clone_flags p s in
      if decide (r ≠ 0) then let! s := put_kstack p s in Ok (- E_NO_MEM, kfree_proc p s) else
      fork_link p s
  end.

(** [kernel_thread]: a fork that shares the address space. *)
Definition kernel_thread (fm : fork_mem) (clone_flags : Z) s : res (Z * kst) :=
  do_fork fm (Z.lor clone_flags CLONE_VM) s.

(** One child of the exiting process goes to [initproc]. *)
Definition reparent (i : ptr) (p : ptr) s : res kst :=
  let! pr := get_proc (ptab s) p in
  let! s := upd s (current (sd s)) (set_cptr (optr pr)) in
  let! s := upd s p (set_yptr None) in
  let! ip := get_proc (ptab s) i in
  let! s := upd s p (set_optr (cptr ip)) in
  let! s := match cptr ip with Some o => upd s o (set_yptr (Some p)) | None => Ok s end in
  let! s := upd s p (set_parent (Some i)) in
  let! s := upd s i (set_cptr (Some p)) in
  let! pr := get_proc (ptab s) p in
  if decide (ProcData.state pr = PROC_ZOMBIE) then
    let! ip := get_proc (ptab s) i in
    if wait_state ip =? WT_CHILD then let! d := wakeup_proc (sd s) i in Ok (set_sd d s) else Ok s
  else Ok s.

(** The children are on the list of processes, so its length bounds the rounds. *)
Fixpoint reparent_loop (fuel : nat) (i : ptr) s : res kst :=
  let! c := cur s in
  match cptr c with
  | None => Ok s
  | Some p =>
      match fuel with
      | O => NoFuel
      | S fuel => let! s := reparent i p s in reparent_loop fuel i s
      end
  end.

(** What [do_exit] and [do_execve] do with the address space of the process. *)
Definition release_mm s : res kst :=
  let! c := cur s in
  match mm c with
  | None => Ok s
  | Some q =>
      let s := lcr3 boot_cr3 s in
      let! sp := get_mm (va s) q in
      let sp := mm_count_dec sp in
      let s := set_va (put_mm (va s) q sp) s in
      let! s := if mm_count sp =? 0 then free_space q s else Ok s in
      upd s (current (sd s)) (set_mm None)
  end.

(** The release of memory and files in [do_exit]. *)
Definition exit_release s : res kst := let! s := release_mm s in put_fs (current (sd s)) s.

(** [do_exit] up to its call of [schedule]. *)
Definition exit_leave (error_code : Z) s : res kst :=
  let me := current (sd s) in
  let! s := exit_release s in
  let! s := upd s me (set_state PROC_ZOMBIE) in
  let! s := upd s me (set_exit_code error_code) in
  let! c := cur s in
  let! par := deref (parent c) in
  let! pp := get_proc (ptab s) par in
  let! s := if wait_state pp =? WT_CHILD then let! d := wakeup_proc (sd s) par in Ok (set_sd d s) else Ok s in
  let! i := deref (initproc s) in
  reparent_loop (length (proc_list s)) i s.

Definition do_exit (error_code : Z) s : res kst :=
  if decide (current (sd s) = idleproc (sd s)) then Panicked
  else if decide (Some (current (sd s)) = initproc s) then Panicked
  else
    let! s := exit_leave error_code s in
    let! d := schedule (sd s) in Ok (set_sd d s).

(** The loop over the children: the first zombie, and whether there is a child. *)
Fixpoint find_zombie (fuel : nat) (t : ptable) (p : option ptr) (haskid : bool) : res (option ptr * bool) :=
  match p with
  | None => Ok (None, haskid)
  | Some p =>
      match fuel with
      | O => NoFuel
      | S fuel =>
          let! pr := get_proc t p in
          if decide (ProcData.state pr = PROC_ZOMBIE) then Ok (Some p, true) else find_zombie fuel t (optr pr) true
      end
  end.

Inductive wait_result := Wret (ret : Z) (code : option Z) | Wsleep.

(** From [found] on: the exit code goes to the caller. *)
Definition reap (p : ptr) s : res (wait_result * kst) :=
  assert! bool_decide (p ≠ idleproc (sd s) ∧ Some p ≠ initproc s) ;;
  let! pr := get_proc (ptab s) p in
  let s := unhash_proc p s in
  let! s := remove_links p s in
  let! s := put_kstack p s in
  Ok (Wret 0 (Some (exit_code pr)), kfree_proc p s).

(** One round of the loop; [Wsleep] is a process that sleeps and starts the next round,
    or exits, when it runs again. *)
Definition wait_round (id : Z) s : res (wait_result * kst) :=
  let! c := cur s in
  let! (found, haskid) :=
    if decide (id ≠ 0) then
      let! o := find_proc id s in
      match o with
      | None => Ok (None, false)
      | Some p =>
          let! pr := get_proc (ptab s) p in
          if decide (parent pr = Some (current (sd s))) then
            Ok (if decide (ProcData.state pr = PROC_ZOMBIE) then Some p else None, true)
          else Ok (None, false)
      end
    else find_zombie (length (proc_list s)) (ptab s) (cptr c) false in
  match found with
  | Some p => reap p s
  | None =>
      if haskid : bool then
        let! s := upd s (current (sd s)) (set_state PROC_SLEEPING) in
        let! s := upd s (current (sd s)) (set_wait_state WT_CHILD) in
        let! d := schedule (sd s) in Ok (Wsleep, set_sd d s)
      else Ok (Wret (- E_BAD_PROC) None, s)
  end.

(** The start of [do_wait]; [code_store] is the address for the exit code. *)
Definition do_wait (id : Z) (code_store : option Z) s : res (wait_result * kst) :=
  let! c := cur s in
  let! (ok, s) :=
    match code_store with
    | None => Ok (true, s)
    | Some a => let! (ok, a') := user_mem_check (va s) (mm c) a 4 true in Ok (ok, set_va a' s)
    end in
  if ok : bool then wait_round id s else Ok (Wret (- E_INVAL) None, s).

(** What a waiting process does when it runs again. *)
Definition wait_again (id : Z) s : res (option wait_result * kst) :=
  let! c := cur s in
  if has_bit (flags c) PF_EXITING then let! s := do_exit (- E_KILLED) s in Ok (None, s)
  else let! (w, s) := wait_round id s in Ok (Some w, s).

Definition do_kill (id : Z) s : res (Z * kst) :=
  let! o := find_proc id s in
  match o with
  | None => Ok (- E_INVAL, s)
  | Some p =>
      let! pr := get_proc (ptab s) p in
      if has_bit (flags pr) PF_EXITING then Ok (- E_KILLED, s) else
      let! s := upd s p (set_flags (Z.lor (flags pr) PF_EXITING)) in
      if has_bit (wait_state pr) WT_INTERRUPTED then let! d := wakeup_proc (sd s) p in Ok (0, set_sd d s) else Ok (0, s)
  end.

Definition do_yield s : res (Z * kst) :=
  let! s := upd s (current (sd s)) (set_need_resched true) in Ok (0, s).

Definition lab6_set_priority (priority : Z) s : res kst :=
  upd s (current (sd s)) (set_lab6_priority (if priority =? 0 then 1 else priority)).

(** [tm] is the address of the timer on the process's stack. *)
Definition do_sleep (tm : ptr) (time : Z) s : res (option Z * kst) :=
  if time =? 0 then Ok (Some 0, s) else
  let s := set_sd (timer_init (sd s) tm (current (sd s)) time) s in
  let! s := upd s (current (sd s)) (set_state PROC_SLEEPING) in
  let! s := upd s (current (sd s)) (set_wait_state WT_TIMER) in
  let! d := add_timer (sd s) tm in
  let! d := schedule d in Ok (None, set_sd d s).

Definition do_sleep_end (tm : ptr) s : res (Z * kst) :=
  let! d := del_timer (sd s) tm in Ok (0, set_sd d s).

(** ** Start of the system *)

Definition IDLE_NAME : list Z := [105; 100; 108; 101] ++ replicate 46 0.
Definition INIT_NAME : list Z := [105; 110; 105; 116] ++ replicate 46 0.

Definition proc_init (bootstack : Z) (fm0 fm1 : fork_mem) s : res kst :=
  let s := set_hash_list ∅ (set_proc_list [] (nr_process s) s) in
  let (o, s) := alloc_proc (new_proc fm0) s in
  match o with
  | None => Panicked
  | Some p =>
      let s := set_sd (mkSched (ptab s) (current (sd s)) p (runq (sd s)) (timers (sd s)) (timer_list (sd s))) s in
      let! s := upd s p (set_pid 0) in
      let! s := upd s p (set_state PROC_RUNNABLE) in
      let! s := upd s p (set_kstack bootstack) in
      let! s := upd s p (set_need_resched true) in
      let (f, v) := files_create (new_files fm0) (raw_files fm0) (vs s) in
      match f with
      | None => Panicked
      | Some q =>
          let! s := upd (set_vs v s) p (set_filesp (Some q)) in
          let! s := files_count_inc q s in
          let! s := set_proc_name p IDLE_NAME s in
          let s := set_proc_list (proc_list s) (i32 (nr_process s + 1)) s in
          let s := set_sd (set_current (sd s) p) s in
          let! (id, s) := kernel_thread fm1 0 s in
          if id <=? 0 then Panicked else
          let! i := find_proc id s in
          let s := set_initproc i s in
          let! ip := deref i in
          let! s := set_proc_name ip INIT_NAME s in
          let! idp := get_proc (ptab s) p in
          let! inp := get_proc (ptab s) ip in
          assert! pid idp =? 0 ;; assert! pid inp =? 1 ;; Ok s
      end
  end.

(** One round of [cpu_idle]. *)
Definition cpu_idle s : res kst :=
  let! c := cur s in
  if need_resched c then let! d := schedule (sd s) in Ok (set_sd d s) else Ok s.
End proc.
