(* ===== verification/ProcTree.v ===== *)
(** * Processes: pids, relations and the invariant of proc.c

    [get_pid] is verified on the list of the pids in use.  [kin] is what the relations
    of processes consist of: the pid, the four links, the kernel stack, the exit code,
    and whether the process is a zombie.  [proc_inv] says that the list of processes, the hash lists and the links
    describe one tree with distinct pids. *)

From stdpp Require Import functions.
From S2P Require Import Prelude CString ListH DefaultPmm PmmManager Vmm Paging AddrSpace SkewHeap ProcData StrideSched Sched Vfs File Proc.

(** ** Pids *)

(** No pid lies strictly between [last] and [next]. *)
Definition gap_ok (pids : list Z) (last next : Z) : Prop :=
  1 ≤ last ≤ MAX_PID ∧ next ≤ MAX_PID ∧ ∀ q, q ∈ pids → q ≤ last ∨ next ≤ q.

Lemma pid_pass_spec (pids seen : list Z) last next :
  1 ≤ last < next → next ≤ MAX_PID → (∀ q, q ∈ seen → q < last ∨ next ≤ q) →
  match pid_pass pids last next with
  | (true, l, n) => last ≤ l < n ∧ n ≤ MAX_PID ∧ (∀ q, q ∈ seen ∨ q ∈ pids → q < l ∨ n ≤ q) ∧ (∀ v, last ≤ v < l → v ∈ pids)
  | (false, l', n) => n = MAX_PID ∧
      ∃ l, last < l ≤ MAX_PID ∧ l' = (if MAX_PID <=? l then 1 else l) ∧ (∀ v, last ≤ v < l → v ∈ pids)
  end.
Proof.
  revert seen last next. induction pids as [|q pids IH]; intros seen last next Hl Hn Hs; cbn [pid_pass].
  { split_and!; [lia|lia|lia| |lia]. intros q [Hq|Hq%elem_of_nil]; [auto|done]. }
  destruct (Z.eqb_spec q last) as [->|Hql].
  - cbv zeta. rewrite i32_small by (unfold MAX_PID, MAX_PROCESS in *; lia).
    destruct (Z.leb_spec next (last + 1)) as [Hle|Hgt].
    + split; [done|]. exists (last + 1). split_and!; [lia|lia|done|]. intros v Hv. replace v with last by lia. by left.
    + specialize (IH (last :: seen) (last + 1) next ltac:(lia) Hn).
      assert (∀ q, q ∈ last :: seen → q < last + 1 ∨ next ≤ q) as Hs'.
      { intros q [->|Hq]%elem_of_cons; [lia|]. destruct (Hs _ Hq); lia. }
      specialize (IH Hs'). destruct (pid_pass pids (last + 1) next) as [[[|] l] n].
      * destruct IH as ([? ?] & ? & Hall & Hv). split_and!; [lia|lia|lia| |].
        -- intros q [Hq|[->|Hq]%elem_of_cons]; apply Hall; [left; by right|left; by left|by right].
        -- intros v Hv'. destruct (decide (v = last)) as [->|]; [by left|right; apply Hv; lia].
      * destruct IH as (? & l0 & ? & ? & Hv). split; [done|]. exists l0. split_and!; [lia|lia|done|].
        intros v Hv'. destruct (decide (v = last)) as [->|]; [by left|right; apply Hv; lia].
  - assert (∀ next', next' = next ∨ (last < q ∧ next' = q ∧ q < next) →
      (last < q < next → next' = q) →
      match pid_pass pids last next' with
      | (true, l, n) => last ≤ l < n ∧ n ≤ MAX_PID ∧ (∀ x, x ∈ seen ∨ x ∈ q :: pids → x < l ∨ n ≤ x) ∧ (∀ v, last ≤ v < l → v ∈ q :: pids)
      | (false, l', n) => n = MAX_PID ∧
          ∃ l, last < l ≤ MAX_PID ∧ l' = (if MAX_PID <=? l then 1 else l) ∧ (∀ v, last ≤ v < l → v ∈ q :: pids)
      end) as Hgen.
    { intros next' Hnext' Hq'.
      assert (∀ x, x ∈ q :: seen → x < last ∨ next' ≤ x) as Hs'.
      { intros x [->|Hx]%elem_of_cons; [lia|]. destruct (Hs _ Hx); lia. }
      specialize (IH (q :: seen) last next' ltac:(lia) ltac:(lia) Hs').
      destruct (pid_pass pids last next') as [[[|] l] n].
      * destruct IH as ([? ?] & ? & Hall & Hv). split_and!; [lia|lia|lia| |].
        -- intros x [Hx|[->|Hx]%elem_of_cons]; apply Hall; [left; by right|left; by left|by right].
        -- intros v Hv'. right. by apply Hv.
      * destruct IH as (? & l0 & ? & ? & Hv). split; [done|]. exists l0. split_and!; [lia|lia|done|].
        intros v Hv'. right. by apply Hv. }
    destruct ((last <? q) && (q <? next)) eqn:Hc.
    + apply andb_true_iff in Hc as [?%Z.ltb_lt ?%Z.ltb_lt]. apply Hgen; [right; lia|done].
    + apply Hgen; [by left|]. intros [? ?]. rewrite !(proj2 (Z.ltb_lt _ _)) in Hc by done. done.
Qed.

(** How far the search is from the free pid [f]. *)
Definition pid_dist (f last : Z) : Z := if last <=? f then f - last else MAX_PID - last + f.

Lemma pid_repeat_spec fuel pids f last :
  1 ≤ last < MAX_PID → 1 ≤ f < MAX_PID → f ∉ pids → pid_dist f last < Z.of_nat fuel →
  ∃ l n, pid_repeat fuel pids last MAX_PID = Ok (l, n) ∧ 1 ≤ l < MAX_PID ∧ n ≤ MAX_PID ∧ ∀ q, q ∈ pids → q < l ∨ n ≤ q ∧ q ≠ l.
Proof.
  revert last. induction fuel as [|fuel IH]; intros last Hl Hf Hfree Hd.
  { unfold pid_dist in Hd. destruct (Z.leb_spec last f); lia. }
  cbn [pid_repeat]. pose proof (pid_pass_spec pids [] last MAX_PID ltac:(lia) ltac:(lia) ltac:(by intros ? ?%elem_of_nil)) as Hp.
  destruct (pid_pass pids last MAX_PID) as [[[|] l] n].
  - destruct Hp as ([? ?] & ? & Hall & _). exists l, n. split_and!; [done|lia|lia|done|]. intros q Hq.
    destruct (Hall q (or_intror Hq)); [by left|right; lia].
  - destruct Hp as (-> & l0 & Hl0 & -> & Hv).
    assert (last ≤ f → l0 ≤ f) as Hstop.
    { intros Hlf. destruct (decide (l0 ≤ f)); [done|]. exfalso. apply Hfree, Hv. lia. }
    unfold pid_dist in Hd. destruct (Z.leb_spec MAX_PID l0).
    + apply IH; [unfold MAX_PID, MAX_PROCESS; lia|done|done|]. unfold pid_dist.
      destruct (Z.leb_spec last f); [lia|]. destruct (Z.leb_spec 1 f); lia.
    + apply IH; [lia|done|done|]. unfold pid_dist.
      destruct (Z.leb_spec last f), (Z.leb_spec l0 f); lia.
Qed.

Lemma free_pid pids : Z.of_nat (length pids) < MAX_PID - 1 → ∃ f, 1 ≤ f < MAX_PID ∧ f ∉ pids.
Proof.
  intros Hlen. destruct (decide (Exists (λ v, v ∉ pids) (seqZ 1 (MAX_PID - 1)))) as [Hex|Hno].
  - apply Exists_exists in Hex as (f & Hf%elem_of_seqZ & Hn). exists f. split; [lia|done].
  - exfalso. assert (seqZ 1 (MAX_PID - 1) ⊆+ pids) as Hsub.
    { apply NoDup_submseteq; [apply NoDup_seqZ|]. intros v Hv. destruct (decide (v ∈ pids)) as [|Hnv]; [done|].
      exfalso. apply Hno. apply Exists_exists. eauto. }
    apply submseteq_length in Hsub. rewrite length_seqZ in Hsub. lia.
Qed.

Lemma get_pid_spec pids last next :
  gap_ok pids last next → Z.of_nat (length pids) < MAX_PID - 1 →
  ∃ l n, get_pid_from pids last next = Ok (l, n) ∧ 1 ≤ l < MAX_PID ∧ l ∉ pids ∧ gap_ok (l :: pids) l n.
Proof.
  intros (Hl & Hn & Hgap) Hlen. destruct (free_pid pids Hlen) as (f & Hf & Hfree).
  assert (∀ l n, 1 ≤ l < MAX_PID → n ≤ MAX_PID → (∀ q, q ∈ pids → q < l ∨ n ≤ q ∧ q ≠ l) →
    1 ≤ l < MAX_PID ∧ l ∉ pids ∧ gap_ok (l :: pids) l n) as Hfin.
  { intros l n Hl' Hn' Hq. split; [done|]. split; [|split; [lia|split; [lia|]]].
    - intros Hin. destruct (Hq _ Hin); lia.
    - intros q [->|Hin]%elem_of_cons; [lia|]. destruct (Hq _ Hin); lia. }
  unfold get_pid_from. cbv zeta. rewrite i32_small by (unfold MAX_PID, MAX_PROCESS in *; lia).
  assert (∀ l0, pid_dist f l0 < Z.of_nat pid_fuel ∨ l0 < 1) as Hfuel.
  { intros l0. unfold pid_dist, pid_fuel. rewrite Z2Nat.id by done. destruct (Z.leb_spec l0 f); lia. }
  assert (∀ l0, 1 ≤ l0 < MAX_PID → ∃ l n, pid_repeat pid_fuel pids l0 MAX_PID = Ok (l, n) ∧ 1 ≤ l < MAX_PID ∧ l ∉ pids ∧ gap_ok (l :: pids) l n) as Hrep.
  { intros l0 Hl0. destruct (Hfuel l0); [|lia].
    destruct (pid_repeat_spec pid_fuel pids f l0) as (l & n & Hr & Hl' & Hn' & Hq); [done..|].
    exists l, n. split; [done|]. by apply Hfin. }
  destruct (Z.leb_spec MAX_PID (last + 1)); [apply Hrep; unfold MAX_PID, MAX_PROCESS; lia|].
  destruct (Z.leb_spec next (last + 1)); [apply Hrep; lia|].
  exists (last + 1), next. split; [done|]. apply Hfin; [lia|lia|]. intros q Hq. destruct (Hgap _ Hq); lia.
Qed.

(** C16: [get_pid] always comes to an end and returns a pid between 1 and [MAX_PID]
    that no process has, as long as there are fewer than [MAX_PID - 1] processes; and it
    leaves [last_pid] and [next_safe] such that the short cut of the next call is right. *)
Theorem get_pid_fresh pids last next :
  gap_ok pids last next → Z.of_nat (length pids) < MAX_PID - 1 →
  ∃ l n, get_pid_from pids last next = Ok (l, n) ∧ 1 ≤ l < MAX_PID ∧ l ∉ pids ∧ gap_ok (l :: pids) l n.
Proof. apply get_pid_spec. Qed.

(** ** What the relations consist of *)

Definition kin (pr : proc_struct) : Z * option ptr * option ptr * option ptr * option ptr * bool * Z * Z :=
  (pid pr, parent pr, cptr pr, yptr pr, optr pr, bool_decide (state pr = PROC_ZOMBIE), kstack pr, exit_code pr).

(** Every process of [t] is in [t'] with the same [f]. *)
Definition frame_by {A} (f : proc_struct → A) (t t' : ptable) : Prop :=
  ∀ q pr, t !! q = Some pr → ∃ pr', t' !! q = Some pr' ∧ f pr' = f pr.

Notation tframe := (frame_by kin).

(** A part of a process that the scheduling class, [runs] and [need_resched] do not touch. *)
Record unscheduled {A} (f : proc_struct → A) : Prop := {
  un_sched p p' : same_but_sched p p' → f p' = f p;
  un_runs v p : f (set_runs v p) = f p;
  un_need v p : f (set_need_resched v p) = f p
}.

Lemma kin_unscheduled : unscheduled kin.
Proof. split; try done. unfold same_but_sched. intros p p' Hs. symmetry. exact (f_equal kin Hs). Qed.

Section frames.
Context {A : Type} (f : proc_struct → A).

Lemma frame_refl t : frame_by f t t.
Proof. intros q pr Hq. eauto. Qed.

Lemma frame_trans t1 t2 t3 : frame_by f t1 t2 → frame_by f t2 t3 → frame_by f t1 t3.
Proof.
  intros H12 H23 q pr Hq. destruct (H12 _ _ Hq) as (pr2 & Hq2 & E2). destruct (H23 _ _ Hq2) as (pr3 & Hq3 & E3).
  exists pr3. split; [done|congruence].
Qed.

Lemma frame_insert t p pr pr' : t !! p = Some pr → f pr' = f pr → frame_by f t (<[p := pr']> t).
Proof.
  intros Hp E q pq Hq. destruct (decide (p = q)) as [<-|Hne].
  - rewrite Hp in Hq. injection Hq as <-. exists pr'. by rewrite lookup_insert_eq.
  - exists pq. by rewrite lookup_insert_ne.
Qed.

Lemma upd_frame t p g t' : upd_proc t p g = Ok t' → (∀ pr, f (g pr) = f pr) → frame_by f t t'.
Proof.
  unfold upd_proc, get_proc. intros Hu Hf. destruct (t !! p) as [pr|] eqn:Hp; [|done]. injection Hu as <-.
  by eapply frame_insert.
Qed.

Context (Hun : unscheduled f).

Lemma sched_frame_by x t t' : sched_frame x t t' → frame_by f t t'.
Proof.
  intros [Hne Hx] q pr Hq. destruct (decide (q = x)) as [->|Hq'].
  - destruct (Hx _ Hq) as (pr' & ? & ?%(un_sched _ Hun)). eauto.
  - exists pr. by rewrite Hne.
Qed.

Context {RQ : Type} `{sched_class RQ}.
Implicit Types d : sched_state RQ.

Lemma enqueue_frame d x l d' :
  queued (runq d) l → x ∉ l → is_Some (procs d !! x) → sched_class_enqueue d x = Ok d' → frame_by f (procs d) (procs d').
Proof.
  intros Hq Hx [pr Hpr] He. unfold sched_class_enqueue in He. destruct (decide (x = idleproc d)).
  - injection He as <-. apply frame_refl.
  - destruct (enqueue_law _ _ _ _ _ Hq Hx Hpr) as (q' & t' & E & _ & Hf). rewrite E in He. injection He as <-.
    cbn. by eapply sched_frame_by.
Qed.

Lemma dispatch_frame d l n d' :
  queued (runq d) l → (∀ p, p ∈ l → is_Some (procs d !! p)) → dispatch d = Ok (n, d') → frame_by f (procs d) (procs d').
Proof.
  intros Hq Hl Hd. unfold dispatch, sched_class_pick_next, sched_class_dequeue in Hd.
  destruct (decide (l = [])) as [->|Hne].
  - rewrite (pick_empty_law _ _ Hq) in Hd. cbn in Hd. inv_ok Hd. subst. cbn. eapply upd_frame; [eassumption|apply Hun].
  - destruct (pick_dequeue_law (runq d) (procs d) l) as (x & l' & t' & q' & t'' & _ & Hpick & Hdeq & _ & Hf); [done..|].
    rewrite Hpick in Hd. cbn in Hd. rewrite Hdeq in Hd. cbn in Hd. inv_ok Hd. subst. cbn.
    eapply frame_trans; [by eapply sched_frame_by|]. eapply upd_frame; [eassumption|apply Hun].
Qed.

Lemma schedule_frame d d' : sched_inv d → schedule d = Ok d' → frame_by f (procs d) (procs d').
Proof.
  intros [(l & Hq & Hl) [pc Hpc] Hidle] Hs. unfold schedule in Hs.
  rewrite (upd_proc_ok _ _ _ _ Hpc) in Hs. cbn [bind] in Hs. set (t1 := <[_ := _]> _) in Hs.
  assert (∀ p, runnable t1 p ↔ runnable (procs d) p) as Hrun1 by (intros p; by apply upd_runnable).
  assert (t1 !! current d = Some (set_need_resched false pc)) as Hpc1 by apply lookup_insert_eq.
  cbn [current set_procs procs] in Hs. rewrite (get_proc_ok _ _ _ Hpc1) in Hs. cbn [bind] in Hs.
  change (state (set_need_resched false pc)) with (state pc) in Hs.
  destruct (requeue_ok d t1 l pc Hq Hl Hpc Hrun1 Hpc1 Hidle) as (s1 & l1 & E1 & Hq1 & Hrest1 & Hrs1 & Hcur1 & Hl1).
  rewrite E1 in Hs. cbn [bind] in Hs.
  assert (frame_by f (procs d) (procs s1)) as F1.
  { assert (frame_by f (procs d) t1) as F0 by exact (frame_insert _ _ pc _ Hpc (un_need _ Hun _ _)). eapply frame_trans; [exact F0|].
    destruct (decide (state pc = PROC_RUNNABLE)); [|injection E1 as <-; apply frame_refl].
    refine (enqueue_frame (set_procs d t1) (current d) l s1 Hq _ _ E1); [|cbn; by rewrite Hpc1].
    intros Hin. apply Hl in Hin as (_ & ? & _). done. }
  destruct (dispatch s1) as [[n s2]| | |] eqn:E2; try done. cbn [bind] in Hs. injection Hs as <-.
  eapply frame_trans; [exact F1|]. eapply frame_trans; [eapply (dispatch_frame s1 l1); [exact Hq1| |exact E2]|].
  - intros p Hp%Hl1. destruct Hp as [Hr _]. apply Hrs1 in Hr as (? & ? & _). eauto.
  - unfold proc_run. repeat destruct (decide _); apply frame_refl.
Qed.
End frames.

Lemma wakeup_tframe {RQ} `{sched_class RQ} (d : sched_state RQ) p d' :
  sched_inv d → wakeup_proc d p = Ok d' → tframe (procs d) (procs d').
Proof.
  intros [(l & Hq & Hl) _ _] Hw. unfold wakeup_proc, get_proc in Hw. destruct (procs d !! p) as [pr|] eqn:Hp; [|done].
  cbn [deref bind] in Hw. rewrite bool_decide_decide in Hw. destruct (decide (state pr ≠ PROC_ZOMBIE)) as [Hz|]; [|done].
  destruct (decide (state pr ≠ PROC_RUNNABLE)) as [Hnr|]; [|injection Hw as <-; apply frame_refl].
  rewrite (upd_proc_ok _ _ _ _ Hp) in Hw. cbn [bind] in Hw.
  rewrite (upd_proc_ok _ _ (set_state PROC_RUNNABLE pr)) in Hw by apply lookup_insert_eq.
  rewrite insert_insert_eq in Hw. cbn [bind] in Hw.
  set (pr' := set_wait_state 0 (set_state PROC_RUNNABLE pr)) in Hw.
  assert (tframe (procs d) (<[p := pr']> (procs d))) as H1.
  { eapply frame_insert; [done|]. unfold kin, pr'. cbn. rewrite (bool_decide_eq_false_2 (state pr = _)) by done. done. }
  destruct (decide _); [|injection Hw as <-; exact H1].
  eapply frame_trans; [exact H1|].
  refine (enqueue_frame kin kin_unscheduled (set_procs d (<[p := pr']> (procs d))) p l d' Hq _ _ Hw).
  - intros Hin. apply Hl in Hin as [(? & ? & ?) _]. congruence.
  - cbn. by rewrite lookup_insert_eq.
Qed.

(** ** Parents and children *)

Definition links (pr : proc_struct) : option ptr * option ptr * option ptr := (parent pr, yptr pr, optr pr).

(** The siblings [l], from one whose younger sibling is [y] to the oldest. *)
Fixpoint sibs (t : ptable) (par : ptr) (y : option ptr) (l : list ptr) : Prop :=
  match l with
  | [] => True
  | c :: l => (∃ pr, t !! c = Some pr ∧ links pr = (Some par, y, head l)) ∧ sibs t par (Some c) l
  end.

Definition family (t : ptable) (p : ptr) (l : list ptr) : Prop :=
  (∃ pr, t !! p = Some pr ∧ cptr pr = head l) ∧ sibs t p None l.

(** [p] comes after [c] in the list [l], whose first entry is the newest process. *)
Definition older (l : list ptr) (p c : ptr) : Prop := ∃ l1 l2, l = l1 ++ c :: l2 ∧ p ∈ l2.

Lemma older_cons x l p c : older l p c → older (x :: l) p c.
Proof. intros (l1 & l2 & -> & Hp). by exists (x :: l1), l2. Qed.

Lemma older_filter (P : ptr → Prop) `{∀ x, Decision (P x)} l p c : older l p c → P p → P c → older (filter P l) p c.
Proof.
  intros (l1 & l2 & -> & Hp) HPp HPc. exists (filter P l1), (filter P l2). split.
  - by rewrite filter_app, filter_cons_True.
  - by apply list_elem_of_filter.
Qed.

Lemma older_last l i c : last l = Some i → c ∈ l → c ≠ i → older l i c.
Proof.
  intros (l' & ->)%last_Some [Hc| ->%list_elem_of_singleton]%elem_of_app Hne; [|done].
  apply list_elem_of_split in Hc as (l1 & l2 & ->). exists l1, (l2 ++ [i]). rewrite <- app_assoc. split; [done|].
  apply elem_of_app. right. by left.
Qed.

Lemma older_ne l p c : NoDup l → older l p c → p ≠ c.
Proof. intros Hnd (l1 & l2 & -> & Hp) ->. apply NoDup_app in Hnd as (_ & _ & [? _]%NoDup_cons). done. Qed.

(** Every process but the idle one is a child of exactly one process, which is older, and
    zombies have no children. *)
Record tree_inv (t : ptable) (idle : ptr) (l : list ptr) (kids : ptr → list ptr) : Prop := {
  t_nodup : NoDup (idle :: l);
  t_family p : p ∈ idle :: l → family t p (kids p);
  t_kids p c : p ∈ idle :: l → c ∈ kids p → c ∈ l;
  t_kids_nodup p : p ∈ idle :: l → NoDup (kids p);
  t_older p c : p ∈ idle :: l → c ∈ kids p → p = idle ∨ older l p c;
  t_parent c : c ∈ l → ∃ p, p ∈ idle :: l ∧ c ∈ kids p;
  t_zombie p pr : p ∈ idle :: l → t !! p = Some pr → state pr = PROC_ZOMBIE → kids p = []
}.

Lemma sibs_ext t t' par y l :
  (∀ c pr, c ∈ l → t !! c = Some pr → ∃ pr', t' !! c = Some pr' ∧ links pr' = links pr) →
  sibs t par y l → sibs t' par y l.
Proof.
  revert y. induction l as [|c l IH]; intros y Ht; cbn; [done|]. intros [(pr & Hc & Hl) Hs].
  destruct (Ht c pr) as (pr' & ? & ?); [by left|done|]. split; [exists pr'; split; [done|congruence]|].
  apply IH; [|done]. intros c' pr0 Hc' ?. eapply Ht; [by right|done].
Qed.

Lemma sibs_parent t par y l c : sibs t par y l → c ∈ l → ∃ pr, t !! c = Some pr ∧ parent pr = Some par.
Proof.
  revert y. induction l as [|x l IH]; intros y; cbn; [by intros _ ?%elem_of_nil|].
  intros [(pr & Hx & Hl) Hs] [->|Hin]%elem_of_cons; [|eauto]. exists pr. split; [done|]. by injection Hl.
Qed.

Lemma family_parent t p l c : family t p l → c ∈ l → ∃ pr, t !! c = Some pr ∧ parent pr = Some p.
Proof. intros [_ Hs]. by eapply sibs_parent. Qed.

(** A child has one parent. *)
Lemma kids_disjoint t idle l kids p q c :
  tree_inv t idle l kids → p ∈ idle :: l → q ∈ idle :: l → c ∈ kids p → c ∈ kids q → p = q.
Proof.
  intros T Hp Hq Hcp Hcq. destruct (family_parent _ _ _ _ (t_family _ _ _ _ T _ Hp) Hcp) as (pr & H1 & E1).
  destruct (family_parent _ _ _ _ (t_family _ _ _ _ T _ Hq) Hcq) as (pr' & H2 & E2). congruence.
Qed.

Lemma tree_inv_frame t t' idle l kids :
  tree_inv t idle l kids →
  (∀ q pr, q ∈ idle :: l → t !! q = Some pr → ∃ pr', t' !! q = Some pr' ∧ kin pr' = kin pr) →
  tree_inv t' idle l kids.
Proof.
  intros T Hf. assert (∀ p, p ∈ idle :: l → family t' p (kids p)) as Hfam.
  { intros p Hp. destruct (t_family _ _ _ _ T p Hp) as [(pr & Ht & Hc) Hs]. split.
    - destruct (Hf p pr Hp Ht) as (pr' & ? & E). exists pr'. split; [done|]. unfold kin in E. congruence.
    - eapply sibs_ext; [|exact Hs]. intros c prc Hc' Htc.
      destruct (Hf c prc) as (pr' & ? & E); [right; by eapply t_kids|done|]. exists pr'. split; [done|].
      unfold kin, links in *. congruence. }
  split; [by destruct T|done|by destruct T..|].
  intros p pr' Hp Hpr' Hz. destruct (t_family _ _ _ _ T p Hp) as [(pr & Ht & _) _].
  eapply (t_zombie _ _ _ _ T p pr); [done..|]. destruct (Hf p pr Hp Ht) as (pr2 & Hpr2 & E).
  rewrite Hpr' in Hpr2. injection Hpr2 as <-. unfold kin in E.
  assert (bool_decide (state pr' = PROC_ZOMBIE) = bool_decide (state pr = PROC_ZOMBIE)) as Eb by congruence.
  rewrite (bool_decide_eq_true_2 _ Hz) in Eb. by symmetry in Eb; apply bool_decide_eq_true in Eb.
Qed.

Lemma upd_alter (t : ptable) p f : is_Some (t !! p) → upd_proc t p f = Ok (alter f p t).
Proof.
  intros [pr Hp]. rewrite (upd_proc_ok _ _ _ _ Hp). f_equal. apply map_eq. intros q.
  destruct (decide (p = q)) as [<-|]; [by rewrite lookup_insert_eq, lookup_alter_eq, Hp|by rewrite lookup_insert_ne, lookup_alter_ne].
Qed.

(** The table after [set_links]. *)
Definition linked (t : ptable) (p par : ptr) (o : option ptr) : ptable :=
  let t := alter (set_optr o) p (alter (set_yptr None) p t) in
  let t := match o with Some q => alter (set_yptr (Some p)) q t | None => t end in
  alter (set_cptr (Some p)) par t.

Lemma linked_lookup t p par o q :
  linked t p par o !! q =
    (λ pr, mkProc (state pr) (pid pr) (runs pr) (kstack pr) (need_resched pr) (parent pr) (mm pr) (cr3 pr) (flags pr)
       (name pr) (exit_code pr) (wait_state pr) (if decide (q = par) then Some p else cptr pr)
       (if decide (o = Some q) then Some p else if decide (q = p) then None else yptr pr)
       (if decide (q = p) then o else optr pr) (rq pr) (time_slice pr) (lab6_stride pr) (lab6_priority pr) (ProcData.filesp pr)) <$> t !! q.
Proof.
  unfold linked. destruct o as [o|]; rewrite !lookup_alter.
  all: repeat case_decide; simplify_eq; by destruct (t !! _) as [[]|].
Qed.

Lemma linked_same t p par o q pr :
  t !! q = Some pr → q ≠ p → o ≠ Some q → ∃ pr', linked t p par o !! q = Some pr' ∧ links pr' = links pr ∧ state pr' = state pr ∧
    (q ≠ par → cptr pr' = cptr pr).
Proof.
  intros Hq Hp Ho. rewrite linked_lookup, Hq. cbn. eexists. split; [done|]. unfold links. cbn.
  rewrite !decide_False by done. split_and!; [done|done|]. intros. by rewrite decide_False.
Qed.

(** A new process becomes the youngest child of its parent. *)
Lemma linked_tree t idle l kids p par prp :
  tree_inv t idle l kids → p ∉ idle :: l → par ∈ idle :: l → t !! p = Some prp → parent prp = Some par →
  cptr prp = None → state prp ≠ PROC_ZOMBIE → (∀ pr, t !! par = Some pr → state pr ≠ PROC_ZOMBIE) →
  tree_inv (linked t p par (head (kids par))) idle (p :: l) (<[p := []]> (<[par := p :: kids par]> kids)).
Proof.
  intros T Hp Hpar Htp Hpp Hcp Hzp Hzpar. set (o := head (kids par)). set (t' := linked t p par o).
  set (kids' := <[p := []]> (<[par := p :: kids par]> kids)).
  assert (p ≠ par) as Hne by (intros ->; done).
  assert (∀ c, o = Some c → c ∈ kids par) as Ho.
  { intros c Hc. unfold o in Hc. destruct (kids par); [done|]. injection Hc as ->. by left. }
  assert (∀ c, c ∈ l → c ≠ p) as Hlp by (intros c Hc ->; apply Hp; by right).
  assert (kids' p = [] ∧ kids' par = p :: kids par ∧ ∀ q, q ≠ p → q ≠ par → kids' q = kids q) as (Kp & Kpar & Kq).
  { unfold kids'. rewrite fn_lookup_insert, fn_lookup_insert_ne, fn_lookup_insert by done. split_and!; [done|done|].
    intros q Hqp Hqpar. by rewrite !fn_lookup_insert_ne. }
  assert (∀ q, q ∈ idle :: p :: l ↔ q = p ∨ q ∈ idle :: l) as Hin by (intros q; rewrite !elem_of_cons; tauto).
  assert (∀ q c pr, q ∈ idle :: l → q ≠ par → c ∈ kids q → t !! c = Some pr →
    ∃ pr', t' !! c = Some pr' ∧ links pr' = links pr) as Hother.
  { intros q c pr Hq Hqpar Hc Htc. destruct (linked_same t p par o c pr) as (pr' & ? & ? & _); [done| | |eauto].
    - apply Hlp. by eapply t_kids.
    - intros Hoc. apply Hqpar. eapply kids_disjoint; [done|exact Hq|exact Hpar|exact Hc|by apply Ho]. }
  assert (family t' p []) as Fp.
  { split; [|done]. unfold t'. rewrite linked_lookup, Htp. cbn. eexists. split; [done|]. cbn. by rewrite decide_False. }
  assert (family t' par (p :: kids par)) as Fpar.
  { destruct (t_family _ _ _ _ T par Hpar) as [(pr & Htpar & _) Hs]. split.
    - unfold t'. rewrite linked_lookup, Htpar. cbn. eexists. split; [done|]. cbn. by rewrite decide_True.
    - cbn. split.
      + unfold t'. rewrite linked_lookup, Htp. cbn. eexists. split; [done|]. unfold links. cbn.
        rewrite decide_False, !decide_True, Hpp by (done || (intros Hop; apply Ho, (t_kids _ _ _ _ T par _ Hpar), Hlp in Hop; done)). done.
      + pose proof (t_kids_nodup _ _ _ _ T par Hpar) as Hnd. pose proof (t_kids _ _ _ _ T par) as Hkl.
        unfold t', o. destruct (kids par) as [|c rest]; [done|]. destruct Hs as [(prc & Htc & Hlc) Hs]. cbn [head sibs] in *. split.
        * rewrite linked_lookup, Htc. cbn. eexists. split; [done|]. unfold links in *. cbn.
          assert (c ≠ p) by (apply Hlp, Hkl; [done|by left]).
          rewrite decide_True, decide_False by done. congruence.
        * apply NoDup_cons in Hnd as [Hc Hnd]. eapply sibs_ext; [|exact Hs]. intros x prx Hx Htx.
          destruct (linked_same t p par (Some c) x prx) as (pr' & ? & ? & _); [done| | |eauto].
          -- apply Hlp, Hkl; [done|by right].
          -- intros [= ->]. done. }
  split.
  - pose proof (t_nodup _ _ _ _ T) as [Hi Hl]%NoDup_cons. apply NoDup_cons. split.
    + intros [->|]%elem_of_cons; [apply Hp; by left|done].
    + apply NoDup_cons. split; [|done]. intros Hpl. apply Hp. by right.
  - intros q [->|Hq]%Hin; [by rewrite Kp|]. destruct (decide (q = par)) as [->|Hqpar]; [by rewrite Kpar|].
    assert (q ≠ p) as Hqp by (intros ->; done). rewrite Kq by done. destruct (t_family _ _ _ _ T q Hq) as [(pr & Htq & Hc) Hs]. split.
    + unfold t'. rewrite linked_lookup, Htq. cbn. eexists. split; [done|]. cbn. by rewrite decide_False.
    + eapply sibs_ext; [|exact Hs]. intros c prc Hc' Htc. by eapply Hother.
  - intros q c [->|Hq]%Hin Hc; [by rewrite Kp in Hc; apply elem_of_nil in Hc|].
    destruct (decide (q = par)) as [->|Hqpar].
    + rewrite Kpar in Hc. apply elem_of_cons in Hc as [->|Hc]; [by left|right; by eapply t_kids].
    + rewrite Kq in Hc by (done || by intros ->). right. by eapply t_kids.
  - intros q [->|Hq]%Hin; [rewrite Kp; constructor|]. destruct (decide (q = par)) as [->|Hqpar].
    + rewrite Kpar. apply NoDup_cons. split; [|by eapply t_kids_nodup]. intros Hc. eapply Hlp; [|done]. by eapply t_kids.
    + rewrite Kq by (done || by intros ->). by eapply t_kids_nodup.
  - intros q c [->|Hq]%Hin Hc; [by rewrite Kp in Hc; apply elem_of_nil in Hc|].
    assert (c ∈ kids q → q = idle ∨ older (p :: l) q c) as Hold.
    { intros Hcq. destruct (t_older _ _ _ _ T q c Hq Hcq); [by left|right; by apply older_cons]. }
    destruct (decide (q = par)) as [->|Hqpar]; [|rewrite Kq in Hc by (done || by intros ->); auto].
    rewrite Kpar in Hc. apply elem_of_cons in Hc as [->|Hc]; [|auto].
    apply elem_of_cons in Hpar as [->|Hpar]; [by left|right; by exists [], l].
  - intros c [->|Hc]%elem_of_cons.
    + exists par. split; [apply Hin; by right|]. rewrite Kpar. by left.
    + destruct (t_parent _ _ _ _ T c Hc) as (q & Hq & Hcq). exists q. split; [apply Hin; by right|].
      destruct (decide (q = par)) as [->|Hqpar]; [rewrite Kpar; by right|]. by rewrite Kq by (done || by intros ->).
  - intros q pr' [->|Hq]%Hin Hpr' Hz; [done|].
    destruct (t_family _ _ _ _ T q Hq) as [(pr & Htq & _) _]. unfold t' in Hpr'. rewrite linked_lookup, Htq in Hpr'. cbn in Hpr'.
    injection Hpr' as <-. cbn in Hz. destruct (decide (q = par)) as [->|Hqpar]; [by eapply Hzpar in Hz|].
    rewrite Kq by (done || by intros ->). by eapply t_zombie.
Qed.

(** The table after [remove_links]; [prp] is the process that goes. *)
Definition unlinked (t : ptable) (par : ptr) (prp : proc_struct) : ptable :=
  let t := match optr prp with Some o => alter (set_yptr (yptr prp)) o t | None => t end in
  match yptr prp with Some y => alter (set_optr (optr prp)) y t | None => alter (set_cptr (optr prp)) par t end.

Lemma unlinked_lookup t par prp q :
  unlinked t par prp !! q =
    (λ pr, mkProc (state pr) (pid pr) (runs pr) (kstack pr) (need_resched pr) (parent pr) (mm pr) (cr3 pr) (flags pr)
       (name pr) (exit_code pr) (wait_state pr) (if decide (yptr prp = None ∧ q = par) then optr prp else cptr pr)
       (if decide (optr prp = Some q) then yptr prp else yptr pr)
       (if decide (yptr prp = Some q) then optr prp else optr pr) (rq pr) (time_slice pr) (lab6_stride pr) (lab6_priority pr) (ProcData.filesp pr)) <$> t !! q.
Proof.
  unfold unlinked. destruct (optr prp) as [o|] eqn:Eo, (yptr prp) as [y|] eqn:Ey; rewrite !lookup_alter.
  all: repeat case_decide; destruct_and?; simplify_eq; try (exfalso; tauto); by destruct (t !! _) as [[]|].
Qed.

(** Taking [p] out of a chain of siblings. *)
Lemma sibs_remove t par prp p y a b :
  sibs t par y (a ++ p :: b) → NoDup (a ++ p :: b) → (∀ x, y = Some x → x ∉ a ++ p :: b) → t !! p = Some prp →
  (a = [] → yptr prp = y) ∧ sibs (unlinked t par prp) par y (a ++ b).
Proof.
  revert y. induction a as [|x a IH]; intros y Hs Hnd Hy Hp; cbn [app] in *.
  - destruct Hs as [(pr & Hp' & Hl) Hs]. rewrite Hp in Hp'. injection Hp' as <-. unfold links in Hl. split; [congruence|].
    apply NoDup_cons in Hnd as [Hpb Hnd]. destruct b as [|c b]; [done|]. destruct Hs as [(prc & Hc & Hlc) Hs].
    cbn [head] in *. assert (yptr prp = y ∧ optr prp = Some c) as [Ey Eo] by (split; congruence).
    apply NoDup_cons in Hnd as [Hcb Hnd]. split.
    + rewrite unlinked_lookup, Hc. cbn. eexists. split; [done|]. unfold links in *. cbn.
      rewrite decide_True, Ey, decide_False by (done || (intros E; eapply Hy; [exact E|by right; left])). congruence.
    + eapply sibs_ext; [|exact Hs]. intros x prx Hx Htx. rewrite unlinked_lookup, Htx. cbn. eexists. split; [done|].
      unfold links. cbn. rewrite !decide_False; [done| |].
      * rewrite Ey. intros E. eapply Hy; [exact E|]. by right; right.
      * rewrite Eo. intros [= ->]. done.
  - split; [done|]. apply NoDup_cons in Hnd as [Hxl Hnd]. destruct Hs as [(prx & Hx & Hlx) Hs].
    destruct (IH (Some x) Hs Hnd) as [Ha Hs']; [by intros x' [= <-]|done|].
    split; [|exact Hs']. rewrite unlinked_lookup, Hx. cbn. eexists. split; [done|]. unfold links in *. cbn.
    assert (optr prp ≠ Some x) as Ho.
    { intros Eo. assert (∃ y0, sibs t par y0 (p :: b)) as [y0 [(pr & Hp' & Hl) _]].
      { clear -Hs. revert Hs. generalize (Some x). induction a as [|z a IH]; intros y0; cbn [app]; [eauto|]. intros [_ Hs]. eauto. }
      rewrite Hp in Hp'. injection Hp' as <-. apply Hxl. apply elem_of_app. right. right.
      destruct b as [|c b]; unfold links in Hl; cbn in Hl; [congruence|]. assert (x = c) as -> by congruence. by left. }
    rewrite decide_False by done. destruct a as [|z a]; cbn [app head] in *.
    + rewrite Ha, decide_True by done.
      destruct Hs as [(pr & Hp' & Hl) _]. rewrite Hp in Hp'. injection Hp' as <-. unfold links in Hl. congruence.
    + rewrite decide_False; [congruence|].
      assert (∃ w, yptr prp = Some w ∧ w ∈ z :: a) as (w & Hw & Hin).
      { clear -Hs Hp. destruct Hs as [_ Hs]. revert z Hs. induction a as [|v a IH]; intros z Hs; cbn [app] in Hs.
        - destruct Hs as [(pr & Hp' & Hl) _]. rewrite Hp in Hp'. injection Hp' as <-. unfold links in Hl. exists z. split; [congruence|by left].
        - destruct Hs as [_ Hs]. destruct (IH v Hs) as (w & ? & ?). exists w. split; [done|by right]. }
      rewrite Hw. intros [= ->]. apply Hxl. apply elem_of_cons in Hin as [->|Hin]; [by left|]. right. apply elem_of_app. by left.
Qed.

Lemma sibs_neighbours t par prp p y a b :
  sibs t par y (a ++ p :: b) → t !! p = Some prp →
  optr prp = head b ∧ yptr prp = match last a with Some w => Some w | None => y end.
Proof.
  intros Hs Hp. revert y Hs. induction a as [|x a IH]; intros y Hs; cbn [app sibs] in Hs.
  - destruct Hs as [(pr & Hp' & Hl) _]. rewrite Hp in Hp'. injection Hp' as <-. unfold links in Hl. cbn. split; congruence.
  - destruct Hs as [_ Hs]. destruct (IH _ Hs) as [? Hy]. split; [done|]. rewrite last_cons. by destruct (last a).
Qed.

(** A childless process leaves the tree. *)
Lemma unlinked_tree t idle l kids par p prp a b :
  tree_inv t idle l kids → par ∈ idle :: l → kids par = a ++ p :: b → kids p = [] → t !! p = Some prp →
  parent prp = Some par ∧
  tree_inv (unlinked t par prp) idle (filter (λ q, q ≠ p) l) (<[par := a ++ b]> kids).
Proof.
  intros T Hpar Hk Hkp Htp. set (t' := unlinked t par prp). set (kids' := <[par := a ++ b]> kids).
  assert (p ∈ kids par) as Hpk by (rewrite Hk; apply elem_of_app; right; by left).
  pose proof (t_kids _ _ _ _ T par p Hpar Hpk) as Hpl.
  pose proof (t_nodup _ _ _ _ T) as [Hil Hndl]%NoDup_cons.
  assert (p ≠ idle) as Hpi by (intros ->; done).
  assert (p ≠ par) as Hpp by (intros ->; rewrite Hkp in Hk; by destruct a).
  pose proof (t_kids_nodup _ _ _ _ T par Hpar) as Hnd. rewrite Hk in Hnd.
  destruct (t_family _ _ _ _ T par Hpar) as [(prpar & Htpar & Hcpar) Hs]. rewrite Hk in Hs, Hcpar.
  destruct (sibs_parent _ _ _ _ p Hs) as (prp' & Htp' & Hpar'); [apply elem_of_app; right; by left|].
  rewrite Htp in Htp'. injection Htp' as <-. split; [done|].
  destruct (sibs_remove t par prp p None a b Hs Hnd ltac:(done) Htp) as [Hay Hs'].
  assert (∀ q, q ∈ idle :: filter (λ q, q ≠ p) l ↔ q ∈ idle :: l ∧ q ≠ p) as Hin.
  { intros q. rewrite !elem_of_cons, list_elem_of_filter. split; [|tauto]. intros [->|[? ?]]; auto. }
  assert (kids' par = a ++ b ∧ ∀ q, q ≠ par → kids' q = kids q) as [Kpar Kq].
  { unfold kids'. rewrite fn_lookup_insert. split; [done|]. intros q Hq. by rewrite fn_lookup_insert_ne. }
  assert (∀ c, c ∈ a ++ b → c ∈ kids par ∧ c ≠ p) as Hab.
  { intros c Hc. apply NoDup_app in Hnd as (_ & Ha & [Hpb _]%NoDup_cons). rewrite Hk. apply elem_of_app in Hc as [Hc|Hc].
    - split; [apply elem_of_app; by left|]. intros ->. apply (Ha _ Hc). by left.
    - split; [apply elem_of_app; right; by right|]. by intros ->. }
  destruct (sibs_neighbours _ _ _ _ _ _ _ Hs Htp) as [Eo Ey].
  assert (∀ x, optr prp = Some x ∨ yptr prp = Some x → x ∈ kids par) as Hnb.
  { intros x [Hx|Hx]; rewrite Hk; apply elem_of_app.
    - right. right. rewrite Eo in Hx. destruct b; [done|]. injection Hx as ->. by left.
    - left. rewrite Ey in Hx. destruct (last a) as [w|] eqn:Hlast; [|done]. injection Hx as ->. by apply last_Some_elem_of. }
  split.
  - apply NoDup_cons. split; [|by apply NoDup_filter]. by intros [_ ?]%list_elem_of_filter.
  - intros q [Hq Hqp]%Hin. destruct (decide (q = par)) as [->|Hqpar].
    + rewrite Kpar. split; [|exact Hs']. unfold t'. rewrite unlinked_lookup, Htpar. cbn. eexists. split; [done|]. cbn.
      destruct a as [|x a]; cbn [app head last] in *.
      * rewrite decide_True by auto. by rewrite Eo.
      * rewrite decide_False; [done|]. rewrite Ey. intros [Hn _]. by destruct (last (x :: a)) eqn:Hlast; [|apply last_None in Hlast].
    + rewrite Kq by done. destruct (t_family _ _ _ _ T q Hq) as [(pr & Htq & Hc) Hsq]. split.
      * unfold t'. rewrite unlinked_lookup, Htq. cbn. eexists. split; [done|]. cbn. by rewrite decide_False by tauto.
      * eapply sibs_ext; [|exact Hsq]. intros c prc Hc' Htc. unfold t'. rewrite unlinked_lookup, Htc. cbn. eexists. split; [done|].
        unfold links. cbn. rewrite !decide_False; [done| |]; intros E; apply Hqpar; eapply kids_disjoint; eauto.
  - intros q c [Hq Hqp]%Hin Hc. apply list_elem_of_filter. destruct (decide (q = par)) as [->|Hqpar].
    + rewrite Kpar in Hc. apply Hab in Hc as [Hc Hcp]. split; [done|]. by eapply t_kids.
    + rewrite Kq in Hc by done. split; [|by eapply t_kids]. intros ->. apply Hqpar. eapply kids_disjoint; eauto.
  - intros q [Hq Hqp]%Hin. destruct (decide (q = par)) as [->|Hqpar]; [|rewrite Kq by done; by eapply t_kids_nodup].
    rewrite Kpar. apply NoDup_app in Hnd as (? & Ha & [? ?]%NoDup_cons). apply NoDup_app. split_and!; [done| |done].
    intros x Hxa Hxb. apply (Ha x Hxa). by right.
  - intros q c [Hq Hqp]%Hin Hc.
    assert (c ∈ kids q ∧ c ≠ p) as [Hcq Hcp].
    { destruct (decide (q = par)) as [->|Hqpar]; [rewrite Kpar in Hc; by apply Hab|]. rewrite Kq in Hc by done. split; [done|].
      intros ->. apply Hqpar. eapply kids_disjoint; eauto. }
    destruct (t_older _ _ _ _ T q c Hq Hcq); [by left|right; by apply older_filter].
  - intros c [Hcp Hc]%list_elem_of_filter. destruct (t_parent _ _ _ _ T c Hc) as (q & Hq & Hcq). exists q.
    assert (q ≠ p) as Hqp by (intros ->; rewrite Hkp in Hcq; by apply elem_of_nil in Hcq).
    split; [by apply Hin|]. destruct (decide (q = par)) as [->|Hqpar]; [|by rewrite Kq by done].
    rewrite Kpar. rewrite Hk in Hcq. apply elem_of_app. apply elem_of_app in Hcq as [|[->|]%elem_of_cons]; [by left|done|by right].
  - intros q pr' [Hq Hqp]%Hin Hpr' Hz. destruct (t_family _ _ _ _ T q Hq) as [(pr & Htq & _) _].
    unfold t' in Hpr'. rewrite unlinked_lookup, Htq in Hpr'. injection Hpr' as <-. cbn in Hz.
    pose proof (t_zombie _ _ _ _ T q pr Hq Htq Hz) as Hkq. destruct (decide (q = par)) as [->|Hqpar].
    + rewrite Hk in Hkq. by destruct a.
    + by rewrite Kq.
Qed.

(** ** While the children of a process move to another one

    The exiting process [me] has the children [rest]; only their older links count. *)
Fixpoint chain (t : ptable) (par : ptr) (l : list ptr) : Prop :=
  match l with
  | [] => True
  | c :: l => (∃ pr, t !! c = Some pr ∧ parent pr = Some par ∧ optr pr = head l) ∧ chain t par l
  end.

Record mid_inv (t : ptable) (idle : ptr) (l : list ptr) (kids : ptr → list ptr) (me : ptr) (rest : list ptr) : Prop := {
  m_nodup : NoDup (idle :: l);
  m_family p : p ∈ idle :: l → p ≠ me → family t p (kids p);
  m_kids p c : p ∈ idle :: l → p ≠ me → c ∈ kids p → c ∈ l;
  m_kids_nodup p : p ∈ idle :: l → p ≠ me → NoDup (kids p);
  m_older p c : p ∈ idle :: l → p ≠ me → c ∈ kids p → p = idle ∨ older l p c;
  m_parent c : c ∈ l → (∃ p, p ∈ idle :: l ∧ p ≠ me ∧ c ∈ kids p) ∨ c ∈ rest;
  m_zombie p pr : p ∈ idle :: l → p ≠ me → t !! p = Some pr → state pr = PROC_ZOMBIE → kids p = [];
  m_head : ∃ pr, t !! me = Some pr ∧ cptr pr = head rest;
  m_chain : chain t me rest;
  m_rest : NoDup rest;
  m_rest_in c : c ∈ rest → c ∈ l
}.

Lemma chain_ext t t' par l :
  (∀ c pr, c ∈ l → t !! c = Some pr → ∃ pr', t' !! c = Some pr' ∧ parent pr' = parent pr ∧ optr pr' = optr pr) →
  chain t par l → chain t' par l.
Proof.
  induction l as [|c l IH]; intros Ht; cbn; [done|]. intros [(pr & Hc & Hp & Ho) Hs].
  destruct (Ht c pr) as (pr' & ? & ? & ?); [by left|done|]. split; [exists pr'; split_and!; [done|congruence|congruence]|].
  apply IH; [|done]. intros c' pr0 Hc' ?. eapply Ht; [by right|done].
Qed.

Lemma sibs_chain t par y l : sibs t par y l → chain t par l.
Proof.
  revert y. induction l as [|c l IH]; intros y; cbn; [done|]. intros [(pr & Hc & Hl) Hs]. split; [|eauto].
  exists pr. unfold links in Hl. split_and!; [done|congruence|congruence].
Qed.

Lemma chain_parent t par l c : chain t par l → c ∈ l → ∃ pr, t !! c = Some pr ∧ parent pr = Some par.
Proof.
  induction l as [|x l IH]; cbn; [by intros _ ?%elem_of_nil|].
  intros [(pr & Hx & Hp & _) Hs] [->|Hin]%elem_of_cons; eauto.
Qed.

Lemma tree_mid t idle l kids me : tree_inv t idle l kids → me ∈ idle :: l → mid_inv t idle l kids me (kids me).
Proof.
  intros T Hme. destruct (t_family _ _ _ _ T me Hme) as [Hc Hs].
  split.
  - by destruct T.
  - intros p Hp _. by eapply t_family.
  - intros p c Hp _. by eapply t_kids.
  - intros p Hp _. by eapply t_kids_nodup.
  - intros p c Hp _. by eapply t_older.
  - intros c Hc'. destruct (t_parent _ _ _ _ T c Hc') as (p & Hp & Hcp).
    destruct (decide (p = me)) as [->|]; [by right|left; eauto].
  - intros p pr Hp _. by eapply t_zombie.
  - done.
  - by eapply sibs_chain.
  - by eapply t_kids_nodup.
  - intros c Hc'. by eapply t_kids.
Qed.

Lemma mid_tree t idle l kids me : mid_inv t idle l kids me [] → me ∈ idle :: l → tree_inv t idle l (<[me := []]> kids).
Proof.
  intros T Hme. assert (∀ p, p ≠ me → (<[me := []]> kids) p = kids p) as Kq by (intros; by rewrite fn_lookup_insert_ne).
  assert ((<[me := []]> kids) me = []) as Km by by rewrite fn_lookup_insert.
  split.
  - by destruct T.
  - intros p Hp. destruct (decide (p = me)) as [->|]; [rewrite Km; split; [by eapply m_head|done]|]. rewrite Kq by done. by eapply m_family.
  - intros p c Hp. destruct (decide (p = me)) as [->|]; [rewrite Km; by intros ?%elem_of_nil|]. rewrite Kq by done. by eapply m_kids.
  - intros p Hp. destruct (decide (p = me)) as [->|]; [rewrite Km; constructor|]. rewrite Kq by done. by eapply m_kids_nodup.
  - intros p c Hp. destruct (decide (p = me)) as [->|]; [rewrite Km; by intros ?%elem_of_nil|]. rewrite Kq by done. by eapply m_older.
  - intros c Hc. destruct (m_parent _ _ _ _ _ _ T c Hc) as [(p & Hp & Hne & Hcp)|?%elem_of_nil]; [|done].
    exists p. by rewrite Kq.
  - intros p pr Hp Hpr Hz. destruct (decide (p = me)) as [->|]; [done|]. rewrite Kq by done. by eapply m_zombie.
Qed.

Lemma kin_fields pr pr' : kin pr' = kin pr →
  pid pr' = pid pr ∧ parent pr' = parent pr ∧ cptr pr' = cptr pr ∧ yptr pr' = yptr pr ∧ optr pr' = optr pr ∧
  kstack pr' = kstack pr ∧ exit_code pr' = exit_code pr ∧ (state pr' = PROC_ZOMBIE ↔ state pr = PROC_ZOMBIE).
Proof.
  unfold kin. intros E. split_and!; try congruence.
  assert (bool_decide (state pr' = PROC_ZOMBIE) = bool_decide (state pr = PROC_ZOMBIE)) as Eb by congruence.
  split; intros Hz; apply (bool_decide_eq_true_1 (_ = PROC_ZOMBIE)).
  - rewrite <- Eb. by apply bool_decide_eq_true_2.
  - rewrite Eb. by apply bool_decide_eq_true_2.
Qed.

Lemma mid_frame t t' idle l kids me rest :
  mid_inv t idle l kids me rest →
  (∀ q pr, q ∈ idle :: l → t !! q = Some pr → ∃ pr', t' !! q = Some pr' ∧ links pr' = links pr ∧ cptr pr' = cptr pr ∧
     (q ≠ me → state pr' = PROC_ZOMBIE → state pr = PROC_ZOMBIE)) →
  me ∈ idle :: l → mid_inv t' idle l kids me rest.
Proof.
  intros T Hf Hme. split; try (by destruct T).
  - intros p Hp Hne. destruct (m_family _ _ _ _ _ _ T p Hp Hne) as [(pr & Ht & Hc) Hs]. split.
    + destruct (Hf p pr Hp Ht) as (pr' & ? & _ & E & _). exists pr'. split; [done|congruence].
    + eapply sibs_ext; [|exact Hs]. intros c prc Hc' Htc.
      destruct (Hf c prc) as (pr' & ? & ? & _); [right; by eapply m_kids|done|eauto].
  - intros p pr' Hp Hne Hpr' Hz. destruct (m_family _ _ _ _ _ _ T p Hp Hne) as [(pr & Ht & _) _].
    destruct (Hf p pr Hp Ht) as (pr2 & Hpr2 & _ & _ & E). rewrite Hpr' in Hpr2. injection Hpr2 as <-.
    eapply (m_zombie _ _ _ _ _ _ T p pr); eauto.
  - destruct (m_head _ _ _ _ _ _ T) as (pr & Ht & Hc). destruct (Hf me pr Hme Ht) as (pr' & ? & _ & ? & _).
    exists pr'. split; [done|congruence].
  - eapply chain_ext; [|by eapply m_chain]. intros c prc Hc Htc.
    destruct (Hf c prc) as (pr' & ? & E & _); [right; by eapply m_rest_in|done|]. exists pr'. unfold links in E.
    split_and!; [done|congruence|congruence].
Qed.

(** The table after [p], the first child of [me], was given to [i]. *)
Definition adopted (t : ptable) (me i p : ptr) (older o : option ptr) : ptable :=
  let t := alter (set_optr o) p (alter (set_yptr None) p (alter (set_cptr older) me t)) in
  let t := match o with Some q => alter (set_yptr (Some p)) q t | None => t end in
  alter (set_cptr (Some p)) i (alter (set_parent (Some i)) p t).

Lemma adopted_lookup t me i p older o q :
  adopted t me i p older o !! q =
    (λ pr, mkProc (state pr) (pid pr) (runs pr) (kstack pr) (need_resched pr) (if decide (q = p) then Some i else parent pr)
       (mm pr) (cr3 pr) (flags pr) (name pr) (exit_code pr) (wait_state pr)
       (if decide (q = i) then Some p else if decide (q = me) then older else cptr pr)
       (if decide (o = Some q) then Some p else if decide (q = p) then None else yptr pr)
       (if decide (q = p) then o else optr pr) (rq pr) (time_slice pr) (lab6_stride pr) (lab6_priority pr) (ProcData.filesp pr)) <$> t !! q.
Proof.
  unfold adopted. destruct o as [o|]; rewrite !lookup_alter.
  all: repeat case_decide; simplify_eq; by destruct (t !! _) as [[]|].
Qed.

Lemma adopted_mid t idle l kids me i p rest :
  mid_inv t idle l kids me (p :: rest) → i ∈ idle :: l → i ≠ me → p ≠ i → me ∉ p :: rest → i ∉ rest →
  (∀ pr, t !! i = Some pr → state pr ≠ PROC_ZOMBIE) → last l = Some i →
  mid_inv (adopted t me i p (head rest) (head (kids i))) idle l (<[i := p :: kids i]> kids) me rest.
Proof.
  intros T Hi Hime Hpi Hmer Hir Hzi Hlast. set (o := head (kids i)). set (t' := adopted _ _ _ _ _ _). set (kids' := <[i := _]> kids).
  assert (kids' i = p :: kids i ∧ ∀ q, q ≠ i → kids' q = kids q) as [Ki Kq].
  { unfold kids'. rewrite fn_lookup_insert. split; [done|]. intros q Hq. by rewrite fn_lookup_insert_ne. }
  pose proof (m_rest_in _ _ _ _ _ _ T p ltac:(by left)) as Hpl.
  destruct (m_chain _ _ _ _ _ _ T) as [(prp & Htp & Hpp & Hop) Hch].
  pose proof (m_rest _ _ _ _ _ _ T) as [Hpr Hndr]%NoDup_cons.
  assert (p ≠ me) as Hpme by (intros ->; apply Hmer; by left).
  (* the children of other processes are not in the chain *)
  assert (∀ q c, q ∈ idle :: l → q ≠ me → c ∈ kids q → c ∈ p :: rest → False) as Hsep.
  { intros q c Hq Hqme Hc Hcr. destruct (family_parent _ _ _ _ (m_family _ _ _ _ _ _ T q Hq Hqme) Hc) as (pr1 & H1 & E1).
    destruct (chain_parent _ _ _ _ (m_chain _ _ _ _ _ _ T) Hcr) as (pr2 & H2 & E2). congruence. }
  assert (∀ c, o = Some c → c ∈ kids i) as Ho.
  { intros c Hc. unfold o in Hc. destruct (kids i); [done|]. injection Hc as ->. by left. }
  assert (∀ q c pr, q ∈ idle :: l → q ≠ me → c ∈ kids q → o ≠ Some c → t !! c = Some pr →
     ∃ pr', t' !! c = Some pr' ∧ links pr' = links pr) as Hlinks.
  { intros q c pr Hq Hqme Hc Hoc Htc. unfold t'. rewrite adopted_lookup, Htc. cbn. eexists. split; [done|]. unfold links. cbn.
    assert (c ≠ p) by (intros ->; eapply Hsep; [exact Hq|done|done|by left]). by rewrite !decide_False. }
  split.
  - by destruct T.
  - intros q Hq Hqme. destruct (m_family _ _ _ _ _ _ T q Hq Hqme) as [(pr & Htq & Hc) Hs].
    destruct (decide (q = i)) as [->|Hqi].
    + rewrite Ki. split.
      * unfold t'. rewrite adopted_lookup, Htq. cbn. eexists. split; [done|]. cbn. by rewrite decide_True.
      * cbn. split.
        { unfold t'. rewrite adopted_lookup, Htp. cbn. eexists. split; [done|]. unfold links. cbn.
          destruct (decide (o = Some p)) as [E%Ho|_]; [|by rewrite !decide_True]. exfalso. eapply Hsep; [exact Hi|done|exact E|by left]. }
        pose proof (m_kids_nodup _ _ _ _ _ _ T i Hi Hime) as Hnd. unfold o in *.
        destruct (kids i) as [|c ks] eqn:Ek; [done|]. cbn [head sibs] in *. apply NoDup_cons in Hnd as [Hcks Hnd].
        destruct Hs as [(prc & Htc & Hlc) Hs]. split.
        -- unfold t'. rewrite adopted_lookup, Htc. cbn. eexists. split; [done|]. unfold links in *. cbn.
           assert (c ≠ p) by (intros ->; eapply (Hsep i p); [done|done|rewrite Ek; by left|by left]).
           rewrite decide_False, decide_True, decide_False by done. congruence.
        -- eapply sibs_ext; [|exact Hs]. intros x prx Hx Htx. eapply (Hlinks i); [done|done|rewrite Ek; by right| |done].
           intros [= ->]. done.
    + rewrite Kq by done. split.
      * unfold t'. rewrite adopted_lookup, Htq. cbn. eexists. split; [done|]. cbn. by rewrite !decide_False.
      * eapply sibs_ext; [|exact Hs]. intros c prc Hc' Htc. eapply (Hlinks q); [done..| |done].
        intros E%Ho. apply Hqi. destruct (family_parent _ _ _ _ (m_family _ _ _ _ _ _ T q Hq Hqme) Hc') as (pr1 & H1 & E1).
        destruct (family_parent _ _ _ _ (m_family _ _ _ _ _ _ T i Hi Hime) E) as (pr2 & H2 & E2). congruence.
  - intros q c Hq Hqme Hc. destruct (decide (q = i)) as [->|Hqi].
    + rewrite Ki in Hc. apply elem_of_cons in Hc as [->|Hc]; [done|by eapply m_kids].
    + rewrite Kq in Hc by done. by eapply m_kids.
  - intros q Hq Hqme. destruct (decide (q = i)) as [->|Hqi]; [|rewrite Kq by done; by eapply m_kids_nodup].
    rewrite Ki. apply NoDup_cons. split; [|by eapply m_kids_nodup]. intros Hc. eapply Hsep; [exact Hi|done|exact Hc|by left].
  - intros q c Hq Hqme Hc. destruct (decide (q = i)) as [->|Hqi]; [|rewrite Kq in Hc by done; by eapply m_older].
    rewrite Ki in Hc. apply elem_of_cons in Hc as [->|Hc]; [right; by apply older_last|by eapply m_older].
  - intros c Hc. destruct (m_parent _ _ _ _ _ _ T c Hc) as [(q & Hq & Hqme & Hcq)|[->|Hcr]%elem_of_cons]; [| |by right].
    + left. exists q. split_and!; [done..|]. destruct (decide (q = i)) as [->|]; [rewrite Ki; by right|by rewrite Kq].
    + left. exists i. split_and!; [done..|]. rewrite Ki. by left.
  - intros q pr' Hq Hqme Hpr' Hz. destruct (m_family _ _ _ _ _ _ T q Hq Hqme) as [(pr & Htq & _) _].
    unfold t' in Hpr'. rewrite adopted_lookup, Htq in Hpr'. injection Hpr' as <-. cbn in Hz.
    destruct (decide (q = i)) as [->|Hqi]; [by eapply Hzi in Hz|]. rewrite Kq by done. by eapply m_zombie.
  - destruct (m_head _ _ _ _ _ _ T) as (pr & Hpr' & _). unfold t'. rewrite adopted_lookup, Hpr'. cbn. eexists. split; [done|].
    cbn. by rewrite decide_False, decide_True.
  - eapply chain_ext; [|exact Hch]. intros c prc Hc Htc. unfold t'. rewrite adopted_lookup, Htc. cbn. eexists. split; [done|].
    cbn. rewrite !decide_False; [done|..]; by intros ->.
  - done.
  - intros c Hc. eapply (m_rest_in _ _ _ _ _ _ T). by right.
Qed.
