(* ===== verification/ProcInv.v ===== *)
(** * Processes: the operations keep the invariant

    [base_inv] is the part of the invariant that holds also while a process exits;
    [proc_inv] adds the tree of processes and that the current process runs.
    [calm s s'] is a step that changes no relation, no state and no list. *)

From stdpp Require Import functions.
From S2P Require Import Prelude CString ListH DefaultPmm PmmManager Vmm Paging AddrSpace SkewHeap ProcData StrideSched Sched Vfs File Proc ProcTree.

(** What a run returns, if it returns, satisfies [Q]. *)
Definition lets {A} (Q : A → Prop) (m : res A) : Prop := match m with Ok a => Q a | _ => True end.

Lemma lets_bind {A B} (P : A → Prop) (Q : B → Prop) m (k : A → res B) :
  lets P m → (∀ a, P a → lets Q (k a)) → lets Q (bind m k).
Proof. destruct m; cbn; auto. Qed.

Lemma lets_any {A B} (Q : B → Prop) (m : res A) (k : A → res B) : (∀ a, m = Ok a → lets Q (k a)) → lets Q (bind m k).
Proof. destruct m; cbn; auto. Qed.

Lemma lets_weaken {A} (P Q : A → Prop) m : lets P m → (∀ a, P a → Q a) → lets Q m.
Proof. destruct m; cbn; auto. Qed.

Lemma lets_ok {A} (Q : A → Prop) m a : lets Q m → m = Ok a → Q a.
Proof. by intros HQ ->. Qed.

Definition kinst (pr : proc_struct) := (kin pr, state pr).

(** Reads and writes of the table through updates of other parts. *)
Ltac flat_tab := repeat match goal with
  | |- context [ptab (set_ptab ?t ?x)] => change (ptab (set_ptab t x)) with t
  | |- context [set_ptab ?t (set_ptab ?t' ?x)] => change (set_ptab t (set_ptab t' x)) with (set_ptab t x)
  end.

Section inv.
Context {RQ M F : Type} `{sched_class RQ} `{pmm_manager M} `{vfs_impl F}.
Context (ide : Z → bool) (boot_cr3 boot_pgdir : Z).
Notation kst := (kstate RQ M F).
Implicit Types s : kst.

(** ** Calm steps *)

Definition same_lists s s' : Prop :=
  proc_list s' = proc_list s ∧ hash_list s' = hash_list s ∧ initproc s' = initproc s ∧
  nr_process s' = nr_process s ∧ next_safe s' = next_safe s ∧ last_pid s' = last_pid s.

Record calm s s' : Prop := {
  calm_lists : same_lists s s';
  calm_sd : sd s' = set_procs (sd s) (ptab s');
  calm_tab q : kinst <$> (ptab s' !! q) = kinst <$> (ptab s !! q)
}.

Lemma calm_same s s' : sd s' = sd s → same_lists s s' → calm s s'.
Proof.
  intros D L. split; [done| |]; unfold ptab; rewrite D; [|done]. by destruct (sd s).
Qed.

Lemma calm_refl s : calm s s.
Proof. by apply calm_same. Qed.

Lemma calm_trans s1 s2 s3 : calm s1 s2 → calm s2 s3 → calm s1 s3.
Proof.
  intros [(?&?&?&?&?&?) D1 T1] [(?&?&?&?&?&?) D2 T2]. split.
  - repeat split; congruence.
  - rewrite D2, D1. done.
  - intros q. by rewrite T2, T1.
Qed.

Lemma calm_set_vm m s : calm s (set_vm m s).
Proof. by apply calm_same. Qed.
Lemma calm_set_va m s : calm s (set_va m s).
Proof. by apply calm_same. Qed.
Lemma calm_set_vs m s : calm s (set_vs m s).
Proof. by apply calm_same. Qed.

Lemma upd_calm s p f : (∀ pr, kinst (f pr) = kinst pr) → lets (calm s) (upd s p f).
Proof.
  intros Hf. unfold upd, upd_proc, get_proc. destruct (ptab s !! p) as [pr|] eqn:Hp; [|done]. cbn. split; [done|done|].
  intros q. cbn. rewrite lookup_insert. case_decide; [subst; by rewrite Hp; cbn; rewrite Hf|done].
Qed.

Ltac calm_bind lem := eapply lets_bind; [apply lem|].

Lemma put_kstack_calm p s : lets (calm s) (put_kstack p s).
Proof.
  unfold put_kstack. apply lets_any. intros pr _. apply lets_any. intros page _. apply lets_any. intros m _. apply calm_set_vm.
Qed.

Lemma setup_pgdir_calm q s : lets (λ r, calm s r.2) (setup_pgdir ide boot_pgdir q s).
Proof.
  unfold setup_pgdir. apply lets_any. intros [[page|] m] _; [|apply calm_set_vm].
  apply lets_any. intros k _. apply lets_any. intros sp _. by apply calm_same.
Qed.

Lemma free_space_calm q s : lets (calm s) (free_space q s).
Proof.
  unfold free_space, put_pgdir. apply lets_any. intros m _. apply (lets_bind (calm s)); [|intros s1 C1].
  - apply lets_any. intros sp _. apply lets_any. intros d _. apply lets_any. intros m' _. by apply calm_same.
  - apply lets_any. intros a _. eapply calm_trans; [exact C1|apply calm_set_va].
Qed.

Lemma use_mm_calm p q s : lets (λ r, calm s r.2) (use_mm p q s).
Proof.
  unfold use_mm. apply lets_any. intros sp _. apply (lets_bind (calm s)).
  { eapply lets_weaken; [by apply upd_calm|]. intros s' C. eapply calm_trans; [|exact C]. by apply calm_same. }
  intros s1 C1. apply lets_any. intros d _. eapply lets_bind; [by apply upd_calm|]. intros s2 C2. by eapply calm_trans.
Qed.

Lemma copy_mm_calm fm fl p s : lets (λ r, calm s r.2) (copy_mm ide boot_pgdir fm fl p s).
Proof.
  unfold copy_mm. apply lets_any. intros c _. destruct (mm c) as [old|]; [|apply calm_refl].
  destruct (has_bit fl CLONE_VM); [apply use_mm_calm|].
  assert (calm s (mm_create (new_mm fm) s).2) as C0.
  { unfold mm_create. destruct (Vmm.mm_create _ _ _) as [o a]. cbn. destruct (_ && _); by apply calm_same. }
  destruct (mm_create (new_mm fm) s) as [[q|] s1]; cbn in C0; [|exact C0].
  eapply lets_bind; [apply setup_pgdir_calm|]. intros [r s2] C2. cbn in C2.
  destruct (decide (r ≠ 0)).
  { apply lets_any. intros a _. cbn. eapply calm_trans; [exact C0|]. eapply calm_trans; [exact C2|apply calm_set_va]. }
  apply lets_any. intros [[r' a] m] _.
  assert (calm s (set_vm m (set_va a s2))) as C3.
  { eapply calm_trans; [exact C0|]. eapply calm_trans; [exact C2|]. by apply calm_same. }
  cbv zeta. destruct (decide (r' ≠ 0)).
  - eapply lets_bind; [apply free_space_calm|]. intros s4 C4. cbn. by eapply calm_trans.
  - eapply lets_weaken; [apply use_mm_calm|]. intros [x s4] C4. by eapply calm_trans.
Qed.

Lemma files_count_inc_calm q s : lets (calm s) (files_count_inc q s).
Proof. unfold files_count_inc. apply lets_any. intros t _. apply calm_set_vs. Qed.

Lemma copy_fs_calm fm fl p s : lets (λ r, calm s r.2) (copy_fs fm fl p s).
Proof.
  unfold copy_fs. apply lets_any. intros c _. destruct (ProcData.filesp c) as [old|]; [|done]. cbv zeta.
  assert (∀ q s1, calm s s1 → lets (λ r : Z * kst, calm s r.2)
    (let! s2 := files_count_inc q s1 in let! s3 := upd s2 p (set_filesp (Some q)) in Ok (0, s3))) as Hgood.
  { intros q s1 C1. eapply lets_bind; [apply files_count_inc_calm|]. intros s2 C2.
    eapply lets_bind; [by apply upd_calm|]. intros s3 C3. cbn. eapply calm_trans; [exact C1|]. by eapply calm_trans. }
  destruct (has_bit fl CLONE_FS); [apply Hgood, calm_refl|].
  destruct (files_create _ _ _) as [[q|] v]; [|apply calm_refl].
  apply lets_any. intros v' _. apply Hgood, calm_set_vs.
Qed.

Lemma put_fs_calm p s : lets (calm s) (put_fs p s).
Proof.
  unfold put_fs. apply lets_any. intros pr _. destruct (ProcData.filesp pr) as [q|]; [|apply calm_refl].
  apply lets_any. intros t _. cbv zeta. destruct (_ =? 0); [|apply calm_set_vs]. apply lets_any. intros v _. by apply calm_same.
Qed.

Lemma release_mm_calm s : lets (calm s) (release_mm boot_cr3 s).
Proof.
  unfold release_mm. apply lets_any. intros c _. destruct (mm c) as [q|]; [|apply calm_refl].
  cbv zeta. apply lets_any. intros sp _. apply (lets_bind (calm s)).
  - destruct (_ =? 0); [|by apply calm_same]. eapply lets_weaken; [apply free_space_calm|]. intros s1 C1. eapply calm_trans; [|exact C1]. by apply calm_same.
  - intros s1 C1. eapply lets_weaken; [by apply upd_calm|]. intros s2 C2. by eapply calm_trans.
Qed.

Lemma exit_release_calm s : lets (calm s) (exit_release boot_cr3 s).
Proof.
  unfold exit_release. eapply lets_bind; [apply release_mm_calm|].
  intros s1 C1. eapply lets_weaken; [apply put_fs_calm|]. intros s2 C2. by eapply calm_trans.
Qed.

(** ** The invariant *)

Definition hash_ok (t : ptable) (l : list ptr) (h : gmap Z (list ptr)) : Prop :=
  ∀ k, NoDup (default [] (h !! k)) ∧
       ∀ p, p ∈ default [] (h !! k) ↔ p ∈ l ∧ ∃ pr, t !! p = Some pr ∧ pid_hashfn (pid pr) = k.

Record base_inv s (kids : ptr → list ptr) : Prop := {
  b_sched : sched_inv (sd s);
  b_cur : current (sd s) ∈ idleproc (sd s) :: proc_list s;
  b_all p : runnable (ptab s) p → p ∈ idleproc (sd s) :: proc_list s;
  b_init i : initproc s = Some i → last (proc_list s) = Some i ∧ i ∈ kids (idleproc (sd s)) ∧ ∀ pr, ptab s !! i = Some pr → state pr ≠ PROC_ZOMBIE;
  b_pids : ∃ ids, pids_of (ptab s) (proc_list s) = Ok ids ∧ NoDup ids ∧ Forall (λ q, 1 ≤ q < MAX_PID) ids ∧
             gap_ok ids (last_pid s) (next_safe s);
  b_hash : hash_ok (ptab s) (proc_list s) (hash_list s);
  b_count : nr_process s = Z.of_nat (length (proc_list s)) + 1 ∧ nr_process s ≤ MAX_PROCESS
}.

Record proc_inv s (kids : ptr → list ptr) : Prop := {
  p_base : base_inv s kids;
  p_tree : tree_inv (ptab s) (idleproc (sd s)) (proc_list s) kids;
  p_run : runnable (ptab s) (current (sd s))
}.

Lemma pids_of_spec t l ids : pids_of t l = Ok ids ↔ Forall2 (λ p q, ∃ pr, t !! p = Some pr ∧ pid pr = q) l ids.
Proof.
  revert ids. induction l as [|p l IH]; intros ids; cbn.
  - split; [by intros [= <-]|by inversion 1].
  - unfold get_proc. destruct (t !! p) as [pr|] eqn:Hp; cbn.
    + destruct (pids_of t l) as [r| | |] eqn:Er; cbn.
      * split; [intros [= <-]; constructor; [eauto|by apply IH]|].
        inversion 1 as [|? q ? r' (pr' & Hp' & <-) Hf]; subst. apply IH in Hf. injection Hf as ->. congruence.
      * split; [done|]. inversion 1 as [|? q ? r' _ Hf]; subst. apply IH in Hf. done.
      * split; [done|]. inversion 1 as [|? q ? r' _ Hf]; subst. apply IH in Hf. done.
      * split; [done|]. inversion 1 as [|? q ? r' _ Hf]; subst. apply IH in Hf. done.
    + split; [done|]. inversion 1 as [|? q ? r' (pr' & Hp' & _) Hf]; subst. congruence.
Qed.

Lemma pids_of_frame t t' l ids :
  pids_of t l = Ok ids → (∀ p pr, p ∈ l → t !! p = Some pr → ∃ pr', t' !! p = Some pr' ∧ pid pr' = pid pr) →
  pids_of t' l = Ok ids.
Proof.
  rewrite !pids_of_spec. intros Hf Ht. eapply Forall2_impl_in; [exact Hf|]. intros p q Hp _ (pr & Hpr & <-). by apply Ht.
Qed.

Lemma pids_of_in t l ids p : pids_of t l = Ok ids → p ∈ l → ∃ pr, t !! p = Some pr ∧ pid pr ∈ ids.
Proof.
  rewrite pids_of_spec. induction 1 as [|x q l ids (pr & Hx & <-) Hf IH]; [by intros ?%elem_of_nil|].
  intros [->|Hin]%elem_of_cons; [exists pr; split; [done|by left]|]. destruct (IH Hin) as (pr' & ? & ?). exists pr'. split; [done|by right].
Qed.

Lemma pids_of_unique t l ids p q pr pr' :
  pids_of t l = Ok ids → NoDup ids → p ∈ l → q ∈ l → t !! p = Some pr → t !! q = Some pr' → pid pr = pid pr' → p = q.
Proof.
  rewrite pids_of_spec. induction 1 as [|x v l ids (prx & Hx & <-) Hf IH]; intros Hnd Hp Hq Htp Htq E; [by apply elem_of_nil in Hp|].
  apply NoDup_cons in Hnd as [Hn Hnd].
  assert (∀ y pry, y ∈ l → t !! y = Some pry → pid pry ∈ ids) as Hin.
  { intros y pry Hy Hty. destruct (pids_of_in t l ids y) as (pr0 & ? & ?); [by apply pids_of_spec|done|]. by simplify_eq. }
  apply elem_of_cons in Hp as [->|Hp], Hq as [->|Hq]; [done| | |by apply IH].
  - exfalso. apply Hn. simplify_eq. rewrite E. by eapply Hin.
  - exfalso. apply Hn. simplify_eq. rewrite <- E. by eapply Hin.
Qed.

Lemma hash_frame t t' l h :
  hash_ok t l h → (∀ p, p ∈ l → ∃ pr pr', t !! p = Some pr ∧ t' !! p = Some pr' ∧ pid pr' = pid pr) → hash_ok t' l h.
Proof.
  intros Hh Ht k. destruct (Hh k) as [Hnd Hb]. split; [done|]. intros p. rewrite Hb.
  split; intros (Hp & pr0 & Hpr & Hk); (split; [done|]); destruct (Ht p Hp) as (pr & pr' & ? & ? & E); simplify_eq;
    (eexists; split; [eassumption|congruence]).
Qed.

(** ** Frames *)

Lemma init_in s kids i : base_inv s kids → initproc s = Some i → i ∈ proc_list s.
Proof. intros B Hi. apply last_Some_elem_of. by apply (b_init _ _ B). Qed.

Lemma base_kids s kids kids' :
  base_inv s kids → (∀ i, i ∈ kids (idleproc (sd s)) → initproc s = Some i → i ∈ kids' (idleproc (sd s))) → base_inv s kids'.
Proof.
  intros B Hk. split; try (by destruct B). intros i Hi. destruct (b_init _ _ B i Hi) as (? & ? & ?). auto.
Qed.

Lemma base_change s s' kids :
  base_inv s kids → same_lists s s' → sched_inv (sd s') → idleproc (sd s') = idleproc (sd s) →
  current (sd s') ∈ idleproc (sd s) :: proc_list s →
  (∀ p, runnable (ptab s') p → p ∈ idleproc (sd s) :: proc_list s) →
  (∀ q pr, q ∈ proc_list s → ptab s !! q = Some pr → ∃ pr', ptab s' !! q = Some pr' ∧ pid pr' = pid pr ∧
     (initproc s = Some q → state pr' = PROC_ZOMBIE → state pr = PROC_ZOMBIE)) →
  base_inv s' kids.
Proof.
  intros B (El & Eh & Ei & En & Enx & Ela) Hsd Eidle Hcur Hall Htab.
  destruct (b_pids _ _ B) as (ids & Hids & Hnd & Hr & Hgap).
  assert (∀ p, p ∈ proc_list s → ∃ pr pr', ptab s !! p = Some pr ∧ ptab s' !! p = Some pr' ∧ pid pr' = pid pr) as Hpid.
  { intros p Hp. destruct (pids_of_in _ _ _ _ Hids Hp) as (pr & Hpr & _).
    destruct (Htab p pr) as (pr' & ? & ? & _); [done..|]. eauto. }
  split.
  - done.
  - by rewrite Eidle, El.
  - rewrite Eidle, El. done.
  - intros i Hi. rewrite Ei in Hi. destruct (b_init _ _ B i Hi) as (Hin & Hk & Hz). rewrite Eidle, El. split_and!; [done..|].
    intros pr' Hpr' Hzz. destruct (Hpid i) as (pr & _ & Hpr & _); [by eapply init_in|].
    destruct (Htab i pr) as (pr2 & Hpr2 & _ & E); [by eapply init_in|done|]. simplify_eq. apply (Hz pr Hpr). auto.
  - rewrite El, Enx, Ela. exists ids. split_and!; [|done..]. eapply pids_of_frame; [exact Hids|].
    intros p pr Hp Hpr. destruct (Hpid p Hp) as (pr1 & pr' & ? & ? & ?). simplify_eq. eauto.
  - rewrite El, Eh. eapply hash_frame; [apply B|done].
  - rewrite El, En. apply B.
Qed.

Lemma kin_pid_zombie pr pr' P : kin pr' = kin pr → pid pr' = pid pr ∧ (P → state pr' = PROC_ZOMBIE → state pr = PROC_ZOMBIE).
Proof. intros E%kin_fields. split; [apply E|intros _; apply E]. Qed.

(** The running process stops. *)
Lemma sched_inv_stop (d : sched_state RQ) t' :
  sched_inv d → (∀ p, p ≠ current d → runnable t' p ↔ runnable (procs d) p) → current d ≠ idleproc d →
  is_Some (t' !! current d) → sched_inv (set_procs d t').
Proof.
  intros [(l & Hq & Hl) Hc Hi] Hr Hne Hc'. split; cbn; [|done|by apply Hr].
  exists l. split; [done|]. intros p. rewrite Hl. unfold waiting. cbn. split; intros (? & ? & ?); (split; [by apply Hr|done]).
Qed.

Lemma sched_inv_tab (d : sched_state RQ) t' :
  sched_inv d → (∀ p, runnable t' p ↔ runnable (procs d) p) → is_Some (t' !! current d) → sched_inv (set_procs d t').
Proof.
  intros [(l & Hq & Hl) Hc Hi] Hr Hc'. split; cbn; [|done|by apply Hr].
  exists l. split; [done|]. intros p. rewrite Hl. unfold waiting. cbn. by rewrite Hr.
Qed.

Lemma kinst_runnable (t t' : ptable) p : kinst <$> (t' !! p) = kinst <$> (t !! p) → runnable t' p ↔ runnable t p.
Proof.
  unfold runnable. destruct (t' !! p) as [pr'|], (t !! p) as [pr|]; cbn; intros E; try done.
  apply (inj Some), (f_equal snd) in E. cbn in E. split; intros (pr0 & [= <-] & ?); eexists; (split; [done|congruence]).
Qed.

Lemma kinst_kin (t t' : ptable) p pr : kinst <$> (t' !! p) = kinst <$> (t !! p) → t !! p = Some pr →
  ∃ pr', t' !! p = Some pr' ∧ kin pr' = kin pr ∧ state pr' = state pr.
Proof. intros E Hp. rewrite Hp in E. destruct (t' !! p) as [pr'|]; [|done]. apply (inj Some) in E.
  exists pr'. split_and!; [done|exact (f_equal fst E)|exact (f_equal snd E)]. Qed.

(** A table that agrees on every process but [x], which is on no list and does not run. *)
Lemma base_but x s s' kids :
  base_inv s kids → same_lists s s' → sd s' = set_procs (sd s) (ptab s') → x ∉ idleproc (sd s) :: proc_list s →
  (∀ q, q ≠ x → kinst <$> (ptab s' !! q) = kinst <$> (ptab s !! q)) → ¬ runnable (ptab s') x → base_inv s' kids.
Proof.
  intros B L D Hx Ht Hnr.
  assert (∀ p, runnable (ptab s') p ↔ runnable (ptab s) p) as Hrun.
  { intros p. destruct (decide (p = x)) as [->|Hp]; [|by apply kinst_runnable, Ht].
    split; [done|]. intros Hr%(b_all _ _ B). done. }
  assert (∀ q pr, q ∈ idleproc (sd s) :: proc_list s → ptab s !! q = Some pr → ∃ pr', ptab s' !! q = Some pr' ∧ kin pr' = kin pr) as Htab.
  { intros q pr Hq Hpr. destruct (kinst_kin (ptab s) (ptab s') q pr) as (pr' & ? & ? & _); [apply Ht; by intros ->|done|eauto]. }
  eapply base_change; [exact B|exact L| | | | |].
  - rewrite D. apply sched_inv_tab; [apply B|done|]. destruct (inv_current _ (b_sched _ _ B)) as [pr Hpr].
    destruct (Htab _ pr (b_cur _ _ B) Hpr) as (pr' & ? & _). eauto.
  - by rewrite D.
  - rewrite D. apply B.
  - intros p Hr. by apply (b_all _ _ B), Hrun.
  - intros q pr Hq Hpr. destruct (Htab q pr) as (pr' & ? & ?); [by right|done|]. exists pr'. split; [done|]. by apply kin_pid_zombie.
Qed.

Lemma proc_but x s s' kids :
  proc_inv s kids → same_lists s s' → sd s' = set_procs (sd s) (ptab s') → x ∉ idleproc (sd s) :: proc_list s →
  (∀ q, q ≠ x → kinst <$> (ptab s' !! q) = kinst <$> (ptab s !! q)) → ¬ runnable (ptab s') x → proc_inv s' kids.
Proof.
  intros [B T R] L D Hx Ht Hnr. split; [by eapply base_but| |].
  - pose proof L as (El & _). rewrite D, El. cbn. eapply tree_inv_frame; [exact T|]. intros q pr Hq Hpr.
    destruct (kinst_kin (ptab s) (ptab s') q pr) as (pr' & ? & ? & _); [apply Ht; by intros ->|done|eauto].
  - rewrite D. cbn. apply (kinst_runnable (ptab s)); [|done]. apply Ht. intros E. apply Hx. rewrite <- E. apply B.
Qed.

Lemma calm_proc s s' kids : proc_inv s kids → calm s s' → proc_inv s' kids.
Proof.
  intros [B T R] [L D Ht]. assert (∀ p, runnable (ptab s') p ↔ runnable (ptab s) p) as Hrun by (intros p; by apply kinst_runnable).
  assert (∀ q pr, q ∈ idleproc (sd s) :: proc_list s → ptab s !! q = Some pr → ∃ pr', ptab s' !! q = Some pr' ∧ kin pr' = kin pr) as Htab.
  { intros q pr _ Hpr. destruct (kinst_kin (ptab s) (ptab s') q pr) as (pr' & ? & ? & _); [done..|eauto]. }
  split.
  - eapply base_change; [exact B|exact L| | | | |].
    + rewrite D. apply sched_inv_tab; [apply B|done|]. destruct (inv_current _ (b_sched _ _ B)) as [pr Hpr].
      destruct (Htab _ pr (b_cur _ _ B) Hpr) as (pr' & ? & _). eauto.
    + by rewrite D.
    + rewrite D. apply B.
    + intros p Hr. by apply (b_all _ _ B), Hrun.
    + intros q pr Hq Hpr. destruct (Htab q pr) as (pr' & ? & ?); [by right|done|]. exists pr'. split; [done|]. by apply kin_pid_zombie.
  - pose proof L as (El & _). rewrite D, El. cbn. by eapply tree_inv_frame.
  - rewrite D. cbn. by apply Hrun.
Qed.

(** ** Processes that live on *)

Definition alive (t : ptable) (p : ptr) : Prop := ∃ pr, t !! p = Some pr ∧ state pr ≠ PROC_ZOMBIE.

(** No timer changes, and no process but [x] leaves or becomes a zombie. *)
Record live (x : option ptr) s s' : Prop := {
  live_timers : timers (sd s') = timers (sd s);
  live_list : timer_list (sd s') = timer_list (sd s);
  live_idle : idleproc (sd s') = idleproc (sd s);
  live_init : initproc s' = initproc s;
  live_proc q : q ∈ proc_list s → x ≠ Some q → alive (ptab s) q → q ∈ proc_list s' ∧ alive (ptab s') q
}.

Lemma live_refl x s : live x s s.
Proof. by split. Qed.

Lemma live_trans x s1 s2 s3 : live x s1 s2 → live x s2 s3 → live x s1 s3.
Proof.
  intros [T1 L1 D1 I1 P1] [T2 L2 D2 I2 P2]. split; [congruence..|]. intros q Hq Hx Ha. destruct (P1 q Hq Hx Ha). auto.
Qed.

Lemma live_weaken x s1 s2 : live None s1 s2 → live x s1 s2.
Proof. intros [T L D I P]. split; [done..|]. intros q Hq _. by apply P. Qed.

Lemma kin_alive t t' p pr : t !! p = Some pr → (∃ pr', t' !! p = Some pr' ∧ kin pr' = kin pr) → alive t p → alive t' p.
Proof. intros Hp (pr' & Hp' & E%kin_fields) (pr2 & ? & Hz). simplify_eq. exists pr'. split; [done|]. intros ?. apply Hz. by apply E. Qed.

Lemma calm_live s s' : calm s s' → live None s s'.
Proof.
  intros [(El & _ & Ei & _) D T]. split; [by rewrite D|by rewrite D|by rewrite D|done|]. intros q Hq _ Ha. split; [by rewrite El|].
  pose proof Ha as (pr & Hpr & _). eapply kin_alive; [exact Hpr| |done].
  destruct (kinst_kin _ _ q pr (T q) Hpr) as (pr' & ? & ? & _). eauto.
Qed.

Lemma tframe_live s s' :
  timers (sd s') = timers (sd s) → timer_list (sd s') = timer_list (sd s) → proc_list s' = proc_list s →
  idleproc (sd s') = idleproc (sd s) → initproc s' = initproc s → tframe (ptab s) (ptab s') → live None s s'.
Proof.
  intros Et El Ep Ed Ei Hf. split; [done..|]. intros q Hq _ Ha. split; [by rewrite Ep|].
  pose proof Ha as (pr & Hpr & _). eapply kin_alive; [exact Hpr|by apply Hf|done].
Qed.

(** The scheduler moves on. *)
Lemma base_sd s d' kids :
  base_inv s kids → sched_inv d' → idleproc d' = idleproc (sd s) → tframe (ptab s) (procs d') →
  current d' ∈ idleproc (sd s) :: proc_list s → (∀ p, runnable (procs d') p → p ∈ idleproc (sd s) :: proc_list s) →
  base_inv (set_sd d' s) kids.
Proof.
  intros B Hsd Hi Ht Hc Hall. eapply (base_change s); [exact B|done|exact Hsd|exact Hi|exact Hc|exact Hall|].
  intros q pr _ Hpr. destruct (Ht q pr Hpr) as (pr' & ? & ?). exists pr'. split; [done|]. by apply kin_pid_zombie.
Qed.

Lemma tree_tframe t t' idle l kids : tree_inv t idle l kids → tframe t t' → tree_inv t' idle l kids.
Proof. intros T Ht. eapply tree_inv_frame; [exact T|]. intros q pr _. apply Ht. Qed.
End inv.
