(* ===== verification/ProcFork.v ===== *)
(** * Processes: do_fork

    The steps that make a process known ([get_pid], [hash_proc], [set_links],
    [wakeup_proc]) always succeed and keep the invariant; a fork that fails before them
    leaves the processes as they were. *)

From stdpp Require Import functions.
From S2P Require Import Prelude CString ListH DefaultPmm PmmManager Vmm Paging PagingInv AddrSpace SkewHeap ProcData StrideSched Sched Vfs File Proc ProcTree ProcInv.

Section fork.
Context {RQ M F : Type} `{sched_class RQ} `{pmm_manager M} `{vfs_impl F}.
Context (ide : Z → bool) (boot_cr3 boot_pgdir : Z).
Notation kst := (kstate RQ M F).
Implicit Types s : kst.

(** ** Links *)

Lemma upd_ok s p f : is_Some (ptab s !! p) → upd s p f = Ok (set_ptab (alter f p (ptab s)) s).
Proof. intros Hp. unfold upd. by rewrite upd_alter. Qed.

Lemma get_alter (t : ptable) p q f pr : t !! q = Some pr → get_proc (alter f p t) q = Ok (if decide (p = q) then f pr else pr).
Proof. intros Hq. unfold get_proc. rewrite lookup_alter. case_decide; [subst|]; by rewrite Hq. Qed.

Lemma set_links_ok p prp par prpar s :
  ptab s !! p = Some prp → parent prp = Some par → ptab s !! par = Some prpar → p ≠ par →
  (∀ o, cptr prpar = Some o → is_Some (ptab s !! o)) →
  set_links p s = Ok (set_proc_list (p :: proc_list s) (i32 (nr_process s + 1)) (set_ptab (linked (ptab s) p par (cptr prpar)) s)).
Proof.
  intros Hp Hpp Hpar Hne Ho. unfold set_links. cbv zeta. set (s1 := set_proc_list _ _ s).
  change (ptab s) with (ptab s1) in *. rewrite upd_ok by eauto. cbn [bind].
  change (ptab (set_ptab ?t s1)) with t. rewrite (get_alter _ _ _ _ prp) by done. rewrite decide_True by done. cbn [bind].
  cbn [parent set_yptr]. rewrite Hpp. cbn [deref bind]. rewrite (get_alter _ _ _ _ prpar) by done. rewrite decide_False by done. cbn [bind].
  rewrite upd_ok by (cbn; rewrite lookup_alter_is_Some; eauto). cbn [bind].
  change (set_ptab ?t (set_ptab ?t' s1)) with (set_ptab t s1). change (ptab (set_ptab ?t s1)) with t.
  unfold linked. destruct (cptr prpar) as [o|] eqn:Hc.
  - rewrite upd_ok by (cbn; rewrite !lookup_alter_is_Some; by apply Ho). cbn [bind].
    rewrite upd_ok by (cbn; rewrite !lookup_alter_is_Some; eauto). reflexivity.
  - cbn [bind]. rewrite upd_ok by (cbn; rewrite !lookup_alter_is_Some; eauto). reflexivity.
Qed.

Lemma linked_kinst t p par o q : q ≠ p → q ≠ par → o ≠ Some q → kinst <$> (linked t p par o !! q) = kinst <$> (t !! q).
Proof.
  intros Hp Hpar Ho. rewrite linked_lookup. destruct (t !! q) as [pr|]; [|done]. cbn. unfold kinst, kin. cbn.
  by rewrite !decide_False.
Qed.

Lemma linked_runnable t p par o q : runnable (linked t p par o) q ↔ runnable t q.
Proof.
  unfold runnable. rewrite linked_lookup. destruct (t !! q) as [pr|]; cbn; [|done].
  split; intros (pr0 & [= <-] & ?); eauto.
Qed.

Lemma linked_pid t p par o q pr : t !! q = Some pr → ∃ pr', linked t p par o !! q = Some pr' ∧ pid pr' = pid pr ∧ state pr' = state pr.
Proof. intros Hq. rewrite linked_lookup, Hq. cbn. eauto. Qed.

Lemma linked_kstack t p par o q : kstack <$> (linked t p par o !! q) = kstack <$> (t !! q).
Proof. rewrite linked_lookup. by destruct (t !! q). Qed.

(** The new process before [get_pid]. *)
Record newborn s (p : ptr) : Prop := {
  nb_out : p ∉ idleproc (sd s) :: proc_list s;
  nb_tab : ∃ pr, ptab s !! p = Some pr ∧ parent pr = Some (current (sd s)) ∧ cptr pr = None ∧ state pr = PROC_UNINIT
}.

Definition born (kids : ptr → list ptr) (par p : ptr) : ptr → list ptr := <[p := []]> (<[par := p :: kids par]> kids).

(** ** The new process becomes known *)

Lemma hash_cons t t' l h p pr :
  hash_ok t l h → p ∉ l → t' !! p = Some pr →
  (∀ q, q ∈ l → ∃ prq prq', t !! q = Some prq ∧ t' !! q = Some prq' ∧ pid prq' = pid prq) →
  hash_ok t' (p :: l) (<[pid_hashfn (pid pr) := p :: default [] (h !! pid_hashfn (pid pr))]> h).
Proof.
  intros Hh Hp Htp Ht k. destruct (hash_frame t t' l h Hh Ht k) as [Hnd Hb].
  destruct (decide (pid_hashfn (pid pr) = k)) as [Hk|Hk].
  - rewrite Hk, lookup_insert_eq. cbn. split.
    + apply NoDup_cons. split; [|done]. by intros [? _]%Hb.
    + intros q. rewrite !elem_of_cons, Hb. split.
      * intros [->|[? ?]]; eauto.
      * intros [[->|?] ?]; auto.
  - rewrite lookup_insert_ne by done. split; [done|]. intros q. rewrite Hb, elem_of_cons. split; [intros [? ?]; auto|].
    intros [[->|Hq] (pr' & Hpr & E)]; [|eauto]. exfalso. apply Hk. congruence.
Qed.

(** The state before [wakeup_proc], when the pid is [id]. *)
Definition enlisted s (p par : ptr) (o : option ptr) (id nx : Z) : kst :=
  set_proc_list (p :: proc_list s) (i32 (nr_process s + 1))
    (set_ptab (linked (alter (set_pid id) p (ptab s)) p par o)
       (set_hash_list (<[pid_hashfn id := p :: hash_bucket s (pid_hashfn id)]> (hash_list s)) (set_pids nx id s))).

Section enlist.
Context s (kids : ptr → list ptr) (p id nx : Z) (ids : list Z).
Context (Hinv : proc_inv s kids) (Hnew : newborn s p) (Hnr : nr_process s < MAX_PROCESS).
Context (Hids : pids_of (ptab s) (proc_list s) = Ok ids) (Hnd : NoDup ids) (Hr : Forall (λ q, 1 ≤ q < MAX_PID) ids).
Context (Hget : get_pid_from ids (last_pid s) (next_safe s) = Ok (id, nx)) (Hid : 1 ≤ id < MAX_PID) (Hfresh : id ∉ ids) (Hgap : gap_ok (id :: ids) id nx).
Let par : Z := current (sd s).
Let o : option Z := head (kids par).
Let t2 : ptable := alter (set_pid id) p (ptab s).
Let s4 : kst := enlisted s p par o id nx.

Lemma enlist_dom q : q ∈ idleproc (sd s) :: proc_list s → q ≠ p ∧ is_Some (ptab s !! q).
Proof.
  intros Hq. destruct (t_family _ _ _ _ (p_tree _ _ Hinv) q Hq) as [(pr & ? & _) _]. split; [|eauto].
  intros ->. by apply (nb_out _ _ Hnew).
Qed.

Lemma enlist_p : ∃ prp, t2 !! p = Some (set_pid id prp) ∧ ptab s !! p = Some prp ∧ parent prp = Some par ∧ cptr prp = None ∧ state prp = PROC_UNINIT.
Proof.
  destruct (nb_tab _ _ Hnew) as (prp & Hp & ? & ? & ?). exists prp. split_and!; try done. unfold t2. by rewrite lookup_alter_eq, Hp.
Qed.

Lemma enlist_old q : q ≠ p → t2 !! q = ptab s !! q.
Proof. intros Hq. unfold t2. by rewrite lookup_alter_ne. Qed.

Lemma enlist_par : ∃ pr, t2 !! par = Some pr ∧ state pr = PROC_RUNNABLE ∧ cptr pr = o.
Proof.
  pose proof (b_cur _ _ (p_base _ _ Hinv)) as Hc. destruct (p_run _ _ Hinv) as (pr & Hpr & Hst).
  exists pr. rewrite enlist_old by apply (enlist_dom par Hc). split_and!; [done|done|].
  destruct (t_family _ _ _ _ (p_tree _ _ Hinv) par Hc) as [(pr' & Hpr' & ?) _]. unfold o, par in *. congruence.
Qed.

Lemma enlist_run : fork_link p s = (let! d := wakeup_proc (sd s4) p in
  let s := set_sd d s4 in let! pr := get_proc (ptab s) p in Ok (pid pr, s)).
Proof.
  destruct enlist_p as (prp & Hp2 & Hp & Hpp & _). destruct enlist_par as (prpar & Hpar & _ & Ho).
  unfold fork_link, get_pid. rewrite Hids. cbn [bind]. rewrite Hget. cbn [bind].
  change (ptab s) with (ptab (set_pids nx id s)) in Hp. rewrite upd_ok by eauto. cbn [bind].
  unfold hash_proc. change (ptab (set_ptab ?t ?s)) with t. change (ptab (set_pids nx id s)) with (ptab s). fold t2.
  rewrite (get_proc_ok _ _ _ Hp2). cbn [bind pid set_pid]. set (s3 := set_hash_list _ _).
  rewrite (set_links_ok p (set_pid id prp) par prpar s3); [by rewrite Ho|done|done|done| |].
  - intros E. apply (nb_out _ _ Hnew). rewrite E. apply (p_base _ _ Hinv).
  - intros c Hc. destruct (enlist_dom c) as [Hcp Hsome].
    { right. eapply (t_kids _ _ _ _ (p_tree _ _ Hinv) par); [apply (p_base _ _ Hinv)|].
      rewrite Ho in Hc. unfold o in Hc. destruct (kids par); [done|]. injection Hc as ->. by left. }
    cbn. by rewrite enlist_old.
Qed.
Lemma enlist_kin q pr : q ∈ idleproc (sd s) :: proc_list s → ptab s !! q = Some pr →
  ∃ pr', ptab s4 !! q = Some pr' ∧ pid pr' = pid pr ∧ state pr' = state pr.
Proof. intros Hq Hpr. apply linked_pid. rewrite enlist_old by by apply enlist_dom. done. Qed.

Lemma enlist_new : ∃ pr, ptab s4 !! p = Some pr ∧ pid pr = id ∧ state pr = PROC_UNINIT.
Proof.
  destruct enlist_p as (prp & Hp & _ & _ & _ & Hst). destruct (linked_pid t2 p par o p _ Hp) as (pr & ? & ? & E).
  exists pr. cbn in E. split_and!; [done|done|by rewrite E].
Qed.

Lemma enlist_runnable q : runnable (ptab s4) q ↔ runnable (ptab s) q.
Proof.
  change (ptab s4) with (linked t2 p par o). rewrite linked_runnable. destruct (decide (q = p)) as [->|Hq].
  - destruct enlist_p as (prp & Hp2 & Hp & _ & _ & Hst). unfold runnable. rewrite Hp2, Hp.
    split; intros (pr & [= <-] & E); cbn in E; congruence.
  - unfold runnable. by rewrite enlist_old.
Qed.

Lemma enlist_tree : tree_inv (ptab s4) (idleproc (sd s)) (p :: proc_list s) (born kids par p).
Proof.
  destruct enlist_p as (prp & Hp2 & _ & Hpp & Hcp & Hst). destruct enlist_par as (prpar & Hpar & Hparst & _).
  apply (linked_tree t2 _ _ kids p par (set_pid id prp)); [|by apply nb_out|apply (p_base _ _ Hinv)|done|done|done| |].
  - eapply tree_inv_frame; [apply Hinv|]. intros q pr Hq Hqt. exists pr. split; [|done]. rewrite enlist_old; [done|].
    by apply enlist_dom.
  - cbn. by rewrite Hst.
  - intros pr Hpr. simplify_eq. by rewrite Hparst.
Qed.

Lemma enlist_live : live None s s4.
Proof.
  split; [done..|]. intros q Hq _ (pr & Hpr & Hz). split; [by right|].
  destruct (enlist_kin q pr) as (pr' & ? & _ & E); [by right|done|]. exists pr'. by rewrite E.
Qed.

Lemma enlist_base : base_inv s4 (born kids par p).
Proof.
  pose proof (p_base _ _ Hinv) as B. destruct enlist_new as (pr4 & Hp4 & Hpid4 & _).
  assert (∀ q, q ∈ idleproc (sd s) :: proc_list s → q ∈ idleproc (sd s) :: p :: proc_list s) as Hsub.
  { intros q [->|Hq]%elem_of_cons; [by left|by right; right]. }
  assert (∀ q, q ∈ proc_list s → ∃ prq prq', ptab s !! q = Some prq ∧ ptab s4 !! q = Some prq' ∧ pid prq' = pid prq) as Hpid.
  { intros q Hq. destruct (enlist_dom q) as [_ [pr Hpr]]; [by right|].
    destruct (enlist_kin q pr) as (pr' & ? & ? & _); [by right|done|eauto]. }
  split.
  - refine (sched_inv_tab (sd s) (ptab s4) (b_sched _ _ B) enlist_runnable _).
    destruct enlist_par as (prpar & Hpar & _). destruct (linked_pid t2 p par o par _ Hpar) as (pr & ? & _). eauto.
  - apply Hsub, B.
  - intros q Hq%enlist_runnable. by apply Hsub, B.
  - intros i Hi. destruct (b_init _ _ B i Hi) as (Hil & Hik & Hiz). pose proof (init_in _ _ _ B Hi).
    split_and!; [cbn; by rewrite last_cons, Hil| |].
    + assert (p ≠ idleproc (sd s)) as Hpi by (intros ->; apply (nb_out _ _ Hnew); by left). cbn. unfold born.
      rewrite fn_lookup_insert_ne by done. destruct (decide (par = idleproc (sd s))) as [->|Hpar'].
      * rewrite fn_lookup_insert. by right.
      * by rewrite fn_lookup_insert_ne.
    + intros pr' Hpr'. destruct (enlist_dom i) as [_ [pr Hpr]]; [by right|].
      destruct (enlist_kin i pr) as (pr2 & Hpr2 & _ & Est); [by right|done|]. simplify_eq. rewrite Est. by apply Hiz.
  - exists (id :: ids). split; [|split; [by apply NoDup_cons|split; [by constructor|exact Hgap]]].
    apply (pids_of_spec (ptab s4) (p :: proc_list s)). constructor; [eauto|]. apply pids_of_spec. eapply pids_of_frame; [exact Hids|].
    intros q pr Hq Hqt. destruct (Hpid q Hq) as (? & ? & ? & ? & ?). simplify_eq. eauto.
  - change (hash_list s4) with (<[pid_hashfn id := p :: default [] (hash_list s !! pid_hashfn id)]> (hash_list s)).
    change (proc_list s4) with (p :: proc_list s).
    rewrite <- Hpid4. apply (hash_cons (ptab s)); [apply B| |done|done]. intros Hl. apply (nb_out _ _ Hnew). by right.
  - pose proof (b_count _ _ B) as [Hcnt _]. cbn. rewrite i32_small by (unfold MAX_PROCESS in *; lia). unfold MAX_PROCESS in *. lia.
Qed.
End enlist.

(** [fork_link] always succeeds: the child is the youngest child of the running process, it
    can run, and its pid is new. *)
Record forked s s' (kids : ptr → list ptr) (p id : Z) : Prop := {
  fk_inv : proc_inv s' (born kids (current (sd s)) p);
  fk_pid : 1 ≤ id < MAX_PID;
  fk_new q pr : q ∈ proc_list s → ptab s !! q = Some pr → pid pr ≠ id;
  fk_list : proc_list s' = p :: proc_list s;
  fk_cur : current (sd s') = current (sd s);
  fk_child : ∃ pr, ptab s' !! p = Some pr ∧ pid pr = id ∧ state pr = PROC_RUNNABLE
}.

Lemma fork_link_spec s kids p :
  proc_inv s kids → newborn s p → nr_process s < MAX_PROCESS →
  ∃ id s', fork_link p s = Ok (id, s') ∧ forked s s' kids p id ∧
    vm s' = vm s ∧ kstack <$> (ptab s' !! p) = kstack <$> (ptab s !! p) ∧ live None s s'.
Proof.
  intros I N Hnr. pose proof (p_base _ _ I) as B. destruct (b_pids _ _ B) as (ids & Hids & Hnd & Hr & Hgap).
  pose proof (b_count _ _ B) as [Hcnt _].
  assert (length ids = length (proc_list s)) as Hlen by (symmetry; eapply Forall2_length; by apply pids_of_spec).
  destruct (get_pid_spec ids (last_pid s) (next_safe s) Hgap) as (id & nx & Hget & Hid & Hfresh & Hgap').
  { rewrite Hlen. unfold MAX_PID, MAX_PROCESS in *. lia. }
  rewrite (enlist_run s kids p id nx ids) by done.
  pose proof (enlist_base s kids p id nx ids I N Hnr Hids Hnd Hr Hget Hid Hfresh Hgap') as B4.
  pose proof (enlist_tree s kids p id nx I N) as T4. pose proof (enlist_runnable s kids p id nx N) as R4.
  destruct (enlist_new s kids p id nx N) as (pr4 & Hp4 & Hpid4 & Hst4).
  set (s4 := enlisted _ _ _ _ _ _) in *.
  pose proof (enlist_live s kids p id nx I N) as V4. fold s4 in V4.
  destruct (wakeup_proc_ok (sd s4) p pr4 (b_sched _ _ B4)) as (d5 & Hw & Hsd5 & (Hc5 & Hi5 & Ht5 & Hl5) & (pr5 & Hp5 & Hst5 & _) & Hoth);
    [exact Hp4|by rewrite Hst4|].
  rewrite Hw. cbn [bind]. pose proof (wakeup_tframe _ _ _ (b_sched _ _ B4) Hw) as Hfr.
  change (ptab (set_sd d5 s4)) with (procs d5). rewrite (get_proc_ok _ _ _ Hp5). cbn [bind].
  destruct (Hfr p pr4 Hp4) as (pr5' & Hp5' & E5%kin_fields). rewrite Hp5 in Hp5'. injection Hp5' as <-.
  exists (pid pr5), (set_sd d5 s4). assert (pid pr5 = id) as -> by (rewrite (proj1 E5); exact Hpid4).
  assert (p ≠ current (sd s)) as Hpc by (intros E; apply (nb_out _ _ N); rewrite E; apply B).
  split; [done|]. split; [|split; [done|split; [|by eapply live_trans; [exact V4|apply tframe_live]]]].
  - split; [split| | | | |].
    + apply base_sd; [exact B4|exact Hsd5|exact Hi5|exact Hfr|rewrite Hc5; apply B4|]. intros q Hq.
      destruct (decide (q = p)) as [->|Hqp]; [by right; left|]. apply (b_all _ _ B4). unfold runnable in *. by rewrite Hoth in Hq by done.
    + change (idleproc (sd (set_sd d5 s4))) with (idleproc d5). rewrite Hi5. eapply tree_tframe; [exact T4|exact Hfr].
    + cbn. rewrite Hc5. cbn. unfold runnable. rewrite Hoth by done. apply R4, I.
    + done.
    + intros q pr Hq Hqt E. apply Hfresh. rewrite <- E. destruct (pids_of_in _ _ _ _ Hids Hq) as (pr' & ? & ?). by simplify_eq.
    + done.
    + exact Hc5.
    + exists pr5. split_and!; [exact Hp5|rewrite (proj1 E5); exact Hpid4|exact Hst5].
  - change (ptab (set_sd d5 s4)) with (procs d5). rewrite Hp5. cbn [fmap option_fmap option_map]. transitivity (kstack <$> (ptab s4 !! p)).
    + rewrite Hp4. cbn. f_equal. apply E5.
    + change (ptab s4) with (linked (alter (set_pid id) p (ptab s)) p (current (sd s)) (head (kids (current (sd s))))).
      rewrite linked_kstack, lookup_alter_eq. by destruct (ptab s !! p).
Qed.
(** ** [do_fork] *)

(** Nothing but the process [p], which is not in use, differs. *)
Record prepared s (p : ptr) s' : Prop := {
  pr_lists : same_lists s s';
  pr_sd : sd s' = set_procs (sd s) (ptab s');
  pr_tab q : q ≠ p → kinst <$> (ptab s' !! q) = kinst <$> (ptab s !! q)
}.

Lemma prepared_calm s p s1 s2 : prepared s p s1 → calm s1 s2 → prepared s p s2.
Proof.
  intros [(?&?&?&?&?&?) D1 T1] [(?&?&?&?&?&?) D2 T2]. split.
  - repeat split; congruence.
  - rewrite D2, D1. done.
  - intros q Hq. by rewrite T2, T1.
Qed.

Lemma prepared_tab s p s1 t : prepared s p s1 → (∀ q, q ≠ p → t !! q = ptab s1 !! q) → prepared s p (set_ptab t s1).
Proof.
  intros [L D T] Ht. split; [exact L|cbn; by rewrite D|]. intros q Hq. change (ptab (set_ptab t s1)) with t. by rewrite Ht, T.
Qed.

Lemma prepared_inv s p s' kids :
  proc_inv s kids → prepared s p s' → p ∉ idleproc (sd s) :: proc_list s → ¬ runnable (ptab s') p → proc_inv s' kids.
Proof. intros I [L D T] Hp Hr. by eapply proc_but. Qed.

Lemma newborn_calm s1 s2 p : newborn s1 p → calm s1 s2 → newborn s2 p.
Proof.
  intros [Hout (pr & Hp & ? & ? & ?)] [L D T]. destruct L as (El & _).
  destruct (kinst_kin (ptab s1) (ptab s2) p pr (T p) Hp) as (pr' & Hp' & E%kin_fields & Est). split.
  - rewrite El, D. exact Hout.
  - exists pr'. rewrite D. cbn. destruct E as (_ & -> & -> & _). split_and!; [done..|congruence].
Qed.

Lemma newborn_not_runnable s p : newborn s p → ¬ runnable (ptab s) p.
Proof. intros [_ (pr & Hp & _ & _ & Hst)] (pr' & ? & ?). simplify_eq. congruence. Qed.

(** The address of the new process is not in use. *)
Definition fresh_proc (fm : fork_mem) s : Prop :=
  ∀ p raw, new_proc fm = Some (p, raw) → p ∉ idleproc (sd s) :: proc_list s.

Lemma alloc_prepared fm s p s1 :
  fresh_proc fm s → alloc_proc boot_cr3 (new_proc fm) s = (Some p, s1) →
  ∃ s2, upd s1 p (set_parent (Some (current (sd s1)))) = Ok s2 ∧ prepared s p s2 ∧ newborn s2 p ∧
    (current (sd s) ≠ p → ptab s2 !! current (sd s) = ptab s !! current (sd s)) ∧ vm s2 = vm s ∧ vs s2 = vs s.
Proof.
  intros Hf Ha. unfold alloc_proc in Ha. destruct (new_proc fm) as [[p' raw]|] eqn:Hn; [|done]. injection Ha as <- <-.
  pose proof (Hf _ _ Hn) as Hp. set (pr0 := mkProc _ _ _ _ _ _ _ _ _ _ _ _ _ _ _ _ _ _ _ _). set (s1 := set_ptab _ s).
  assert (ptab s1 !! p' = Some pr0) as Hp1 by apply lookup_insert_eq.
  rewrite upd_ok by eauto. eexists. split; [reflexivity|]. split_and!; [| |intros Hne|done|done].
  - apply prepared_tab.
    + split; [done|by destruct s as [[]]|]. intros q Hq. cbn. by rewrite lookup_insert_ne.
    + intros q Hq. by rewrite lookup_alter_ne.
  - split; [exact Hp|]. eexists. cbn. rewrite lookup_alter_eq. change (ptab s1 !! p') with (<[p':=pr0]> (ptab s) !! p') in Hp1. cbn.
    rewrite lookup_insert_eq. cbn. split; [reflexivity|]. done.
  - cbn. by rewrite lookup_alter_ne, lookup_insert_ne.
Qed.

(** What a fork does: an error that leaves the processes as they were, or a new child. *)
Definition fork_outcome s (kids : ptr → list ptr) (fm : fork_mem) (r : Z) s' : Prop :=
  ((r = - E_NO_FREE_PROC ∨ r = - E_NO_MEM) ∧ proc_inv s' kids ∧ same_lists s s' ∧ current (sd s') = current (sd s) ∧ live None s s') ∨
  (∃ p raw, new_proc fm = Some (p, raw) ∧ forked s s' kids p r ∧ live None s s').

Lemma prepared_live s p s' : prepared s p s' → p ∉ idleproc (sd s) :: proc_list s → live None s s'.
Proof.
  intros [(El & _ & Ei & _) D T] Hp. split; [by rewrite D|by rewrite D|by rewrite D|done|]. intros q Hq _ Ha. split; [by rewrite El|].
  pose proof Ha as (pr & Hpr & _). eapply kin_alive; [exact Hpr| |done].
  destruct (kinst_kin (ptab s) (ptab s') q pr) as (pr' & ? & ? & _); [|done|eauto]. apply T. intros ->. apply Hp. by right.
Qed.

Lemma fork_link_prepared s p s2 kids :
  proc_inv s kids → prepared s p s2 → newborn s2 p → nr_process s < MAX_PROCESS →
  ∃ id s', fork_link p s2 = Ok (id, s') ∧ forked s s' kids p id ∧ vm s' = vm s2 ∧
    kstack <$> (ptab s' !! p) = kstack <$> (ptab s2 !! p) ∧ live None s s'.
Proof.
  intros I Hp N Hnr. pose proof Hp as [(El & _ & _ & En & _) D T].
  assert (p ∉ idleproc (sd s) :: proc_list s) as Hout by (pose proof (nb_out _ _ N) as Ho; by rewrite El, D in Ho).
  assert (proc_inv s2 kids) as I2 by (eapply prepared_inv; [done..|by apply newborn_not_runnable]).
  destruct (fork_link_spec s2 kids p I2 N) as (id & s' & E & [F1 F2 F3 F4 F5 F6] & Hvm & Hk & V); [by rewrite En|].
  exists id, s'. split_and!; [done| |done|done|by eapply live_trans; [by apply (prepared_live s p)|]]. assert (current (sd s2) = current (sd s)) as Ec by by rewrite D.
  rewrite Ec in F1, F5. rewrite El in F3, F4. split; [done|done| |done|done|done].
  intros q pr Hq Hpr. destruct (kinst_kin (ptab s) (ptab s2) q pr) as (pr' & Hpr' & E'%kin_fields & _); [|done|].
  - apply T. intros ->. apply Hout. by right.
  - rewrite <- (proj1 E'). by eapply F3.
Qed.

Lemma kfree_ok s p s2 kids :
  proc_inv s kids → prepared s p s2 → newborn s2 p →
  proc_inv (kfree_proc p s2) kids ∧ same_lists s (kfree_proc p s2) ∧ current (sd (kfree_proc p s2)) = current (sd s) ∧
  live None s (kfree_proc p s2).
Proof.
  intros I Hp N. pose proof Hp as [(El & Er) D _].
  assert (p ∉ idleproc (sd s) :: proc_list s) as Hout by (pose proof (nb_out _ _ N) as Ho; by rewrite El, D in Ho).
  assert (prepared s p (kfree_proc p s2)) as Hp' by (apply prepared_tab; [exact Hp|]; intros q Hq; by rewrite lookup_delete_ne).
  split_and!; [|done|by cbn; rewrite D|by apply (prepared_live s p)]. eapply prepared_inv; [exact I|exact Hp'|exact Hout|].
  - intros (pr & Hpr & _). cbn in Hpr. by rewrite lookup_delete_eq in Hpr.
Qed.

Lemma setup_kstack_prepared s p s1 :
  prepared s p s1 → newborn s1 p → lets (λ r, prepared s p r.2 ∧ newborn r.2 p) (setup_kstack ide p s1).
Proof.
  intros Hp N. unfold setup_kstack. apply lets_any. intros [o m] _.
  assert (calm s1 (set_vm m s1)) as C by apply calm_set_vm.
  assert (prepared s p (set_vm m s1) ∧ newborn (set_vm m s1) p) as [Hp' N'] by (split; [by eapply prepared_calm|by eapply newborn_calm]).
  destruct o as [page|]; [|done]. apply lets_any. intros k _. pose proof N' as [Hout (pr & Hpr & ? & ? & ?)].
  rewrite upd_ok by eauto. cbn. split.
  - apply prepared_tab; [done|]. intros q Hq. by rewrite lookup_alter_ne.
  - split; [exact Hout|]. exists (set_kstack k pr). split_and!; [|done..]. cbn. cbn in Hpr.
    change (ptab (set_vm m s1)) with (ptab s1) in *. by rewrite lookup_alter_eq, Hpr.
Qed.

Lemma do_fork_lets fm fl s kids :
  proc_inv s kids → fresh_proc fm s → lets (λ r, fork_outcome s kids fm r.1 r.2) (do_fork ide boot_cr3 boot_pgdir fm fl s).
Proof.
  intros I Hf. unfold do_fork. destruct (Z.leb_spec MAX_PROCESS (nr_process s)) as [|Hnr]; [left; split_and!; auto using live_refl; done|].
  destruct (alloc_proc boot_cr3 (new_proc fm) s) as [[p|] s1] eqn:Ha.
  2:{ unfold alloc_proc in Ha. destruct (new_proc fm) as [[]|]; [done|]. injection Ha as <-. left. split_and!; auto using live_refl; done. }
  destruct (alloc_prepared fm s p s1 Hf Ha) as (s2 & -> & Hp2 & N2 & _). cbn [bind]. apply lets_any. intros c _.
  destruct (_ =? 0); [|done].
  assert (∀ s3, prepared s p s3 ∧ newborn s3 p → fork_outcome s kids fm (- E_NO_MEM) (kfree_proc p s3)) as Hfail.
  { intros s3 [Hp3 N3]. left. split; [auto|]. by apply (kfree_ok s p). }
  assert (∀ s3 s4, prepared s p s3 ∧ newborn s3 p → calm s3 s4 → prepared s p s4 ∧ newborn s4 p) as Hcalm.
  { intros s3 s4 [? ?] ?. split; [by eapply prepared_calm|by eapply newborn_calm]. }
  eapply lets_bind; [by apply setup_kstack_prepared|]. intros [r3 s3] P3. cbn in P3.
  destruct (decide (r3 ≠ 0)); [by apply Hfail|].
  eapply lets_bind; [apply copy_fs_calm|]. intros [r4 s4] C4. cbn in C4. assert (prepared s p s4 ∧ newborn s4 p) as P4 by by eapply Hcalm.
  assert (∀ s5, prepared s p s5 ∧ newborn s5 p →
    lets (λ r, fork_outcome s kids fm r.1 r.2) (let! s := put_kstack p s5 in Ok (- E_NO_MEM, kfree_proc p s))) as Hstack.
  { intros s5 P5. eapply lets_bind; [apply put_kstack_calm|]. intros s6 C6. apply Hfail. by eapply Hcalm. }
  destruct (decide (r4 ≠ 0)); [by apply Hstack|].
  eapply lets_bind; [apply copy_mm_calm|]. intros [r5 s5] C5. cbn in C5. assert (prepared s p s5 ∧ newborn s5 p) as P5 by by eapply Hcalm.
  destruct (decide (r5 ≠ 0)); [by apply Hstack|].
  destruct P5 as [P5 N5]. destruct (fork_link_prepared s p s5 kids I P5 N5 Hnr) as (id & s' & -> & Hk & _ & _ & V).
  right. unfold alloc_proc in Ha. destruct (new_proc fm) as [[p' raw]|]; [|done]. injection Ha as -> _. eauto.
Qed.

(** ** Kernel stacks *)

(** The page manager owns its pages, and the memory ends below [KMEMSIZE]. *)
Record mem_ok s (own : list block) (fr : list Z) : Prop := {
  mk_mgr : mgr_inv (mgr (vm s)) own fr;
  mk_range p : p ∈ pages_of own ++ fr → 0 ≤ p < npage (vm s);
  mk_npage : npage (vm s) ≤ KMEMSIZE / PGSIZE
}.

Definition same_res s s' : Prop := sd s' = sd s ∧ va s' = va s ∧ same_lists s s'.

Lemma setup_kstack_ok p s own fr :
  mem_ok s own fr → is_Some (ptab s !! p) →
  (∃ s', setup_kstack ide p s = Ok (- E_NO_MEM, s') ∧ mem_ok s' own fr ∧ vs s' = vs s) ∨
  (∃ s' b fr', setup_kstack ide p s = Ok (0, s') ∧ fr ≡ₚ seqZ b KSTACKPAGE ++ fr' ∧ mem_ok s' ((b, KSTACKPAGE) :: own) fr' ∧
     vs s' = vs s ∧ ptab s' = alter (set_kstack (kva_of b)) p (ptab s)).
Proof.
  intros [Hm Hr Hn] Hp. unfold setup_kstack, Paging.alloc_pages. rewrite Nat.add_comm. cbn [Nat.add alloc_loop].
  destruct (alloc_pages_law _ _ _ KSTACKPAGE Hm) as (o & m & -> & Ho); [done|]. cbn [bind].
  change (1 <? KSTACKPAGE) with true. rewrite orb_true_r. cbn [orb bind]. destruct o as [b|].
  - right. destruct Ho as (fr' & Hfr & Hm'). rewrite page2kva_ok; [|apply Hr|exact Hn].
    2:{ rewrite Hfr, !elem_of_app, elem_of_seqZ. right. left. unfold KSTACKPAGE. lia. }
    cbn [bind]. rewrite upd_ok by done. cbn [bind]. eexists _, b, fr'. split; [done|].
    split; [done|]. split; [|done]. split; [exact Hm'| |exact Hn]. intros q Hq. apply Hr. rewrite Hfr.
    cbn in Hq. rewrite <- app_assoc in Hq. rewrite !elem_of_app in Hq |- *. tauto.
  - left. subst m. eexists. split; [done|]. done.
Qed.

Lemma put_kstack_ok p pr s b own1 own2 fr :
  mem_ok s (own1 ++ (b, KSTACKPAGE) :: own2) fr → ptab s !! p = Some pr → kstack pr = kva_of b →
  ∃ s', put_kstack p s = Ok s' ∧ mem_ok s' (own1 ++ own2) (seqZ b KSTACKPAGE ++ fr).
Proof.
  clear ide boot_cr3 boot_pgdir.
  intros [Hm Hr Hn] Hp Hk. unfold put_kstack. rewrite (get_proc_ok _ _ _ Hp). cbn [bind]. rewrite Hk, kva2page_page2kva; [|apply Hr|done].
  2:{ rewrite pages_of_app. cbn. rewrite !elem_of_app, elem_of_seqZ. left. right. left. unfold KSTACKPAGE. lia. }
  cbn [bind]. unfold Paging.free_pages. destruct (free_pages_law _ _ _ _ _ _ Hm) as (m & -> & Hm'). cbn [bind].
  eexists. split; [done|]. split.
  - cbn. rewrite mgr_set_refs. done.
  - intros q Hq. cbn. assert (∀ vm : vmem M, ∀ l, npage (foldr (λ p vm, set_ref p 0 vm) vm l) = npage vm) as Hnp by (intros ? l; by induction l).
    rewrite Hnp. apply Hr. rewrite pages_of_app in Hq |- *. cbn. rewrite !elem_of_app in Hq |- *. tauto.
  - exact Hn.
Qed.
(** ** A kernel thread forks *)

(** No open file, and the working directory is in memory. *)
Definition quiet (v : vstate F) (t : files_struct) : Prop :=
  length (fd_array t) = Z.to_nat FILES_STRUCT_NENTRY ∧ (∀ j e, fd_array t !! j = Some e → status e ≠ FD_OPENED) ∧
  0 < files_count t ∧ ∀ q, pwd t = Some q → is_Some (inodes v !! q).

Lemma dup_loop_quiet n i to from (v : vstate F) t :
  fss v !! from = Some t → (∀ j e, fd_array t !! j = Some e → status e ≠ FD_OPENED) →
  (i + n ≤ length (fd_array t))%nat → dup_loop n i to from v = Ok v.
Proof.
  intros Ht Hno. revert i. induction n as [|n IH]; intros i Hi; cbn [dup_loop]; [done|].
  destruct (lookup_lt_is_Some_2 (fd_array t) i) as [e He]; [lia|]. unfold get_file, get_files. cbn [fst snd]. rewrite Ht.
  cbn [deref bind]. rewrite He. cbn [deref bind]. rewrite decide_False by by eapply Hno. cbn [bind]. apply IH. lia.
Qed.

Lemma dup_fs_quiet to from (v : vstate F) t t' :
  fss v !! from = Some t → quiet v t → fss v !! to = Some t' → files_count t' = 0 → to ≠ from →
  ∃ v', dup_fs to from v = Ok v' ∧ is_Some (fss v' !! to).
Proof.
  intros Hf (Hl & Hno & Hc & Hpwd) Ht Hz Hne. unfold dup_fs, get_files. rewrite Ht, Hf. cbn [deref bind]. rewrite Hz.
  rewrite (proj2 (Z.ltb_lt _ _) Hc). cbn [Z.eqb andb]. cbv zeta. set (v1 := put_files to _ v).
  assert (fss v1 !! from = Some t ∧ is_Some (fss v1 !! to)) as [Hf1 Ht1].
  { cbn. by rewrite lookup_insert_ne, lookup_insert_eq. }
  destruct (pwd t) as [q|] eqn:Hq.
  - destruct (Hpwd q eq_refl) as [nd Hnd]. unfold inode_ref_inc, get_inode. change (inodes v1) with (inodes v). rewrite Hnd. cbn [deref bind].
    eexists. split; [apply (dup_loop_quiet _ _ _ _ _ t)|]; [exact Hf1|exact Hno|rewrite Hl; lia|exact Ht1].
  - cbn [bind]. eexists. split; [apply (dup_loop_quiet _ _ _ _ _ t)|]; [exact Hf1|exact Hno|rewrite Hl; lia|exact Ht1].
Qed.

Lemma copy_fs_quiet fm fl p s c old t :
  cur s = Ok c → ProcData.filesp c = Some old → fss (vs s) !! old = Some t → quiet (vs s) t →
  (∀ q, new_files fm = Some q → q ≠ old) → is_Some (ptab s !! p) →
  ∃ r s', copy_fs fm fl p s = Ok (r, s') ∧ vm s' = vm s ∧ ∀ q, q ≠ p → ptab s' !! q = ptab s !! q.
Proof.
  intros Hc Hfs Ht Hq Hnew Hp. unfold copy_fs. rewrite Hc. cbn [bind]. rewrite Hfs. cbv zeta.
  assert (∀ q s1, is_Some (fss (vs s1) !! q) → ptab s1 = ptab s → vm s1 = vm s → ∃ r s',
    (let! s2 := files_count_inc q s1 in let! s3 := upd s2 p (set_filesp (Some q)) in Ok (0, s3)) = Ok (r, s') ∧
    vm s' = vm s ∧ ∀ q, q ≠ p → ptab s' !! q = ptab s !! q) as Hgood.
  { intros q s1 [tq Htq] Et Ev. unfold files_count_inc, get_files. rewrite Htq. cbn [deref bind].
    rewrite upd_ok by by rewrite <- Et in Hp. cbn [bind]. eexists _, _. split; [done|]. split; [done|].
    intros x Hx. rewrite <- Et. by apply lookup_alter_ne. }
  destruct (has_bit fl CLONE_FS); [apply Hgood; eauto|]. unfold files_create. destruct (new_files fm) as [q|]; [|eauto].
  set (v1 := put_files q _ (vs s)). assert (q ≠ old) as Hne by by apply Hnew.
  destruct (dup_fs_quiet q old v1 t (mkFiles None (fd_array_init (raw_files fm)) 0)) as (v' & -> & Hs').
  - cbn. by rewrite lookup_insert_ne.
  - exact Hq.
  - apply lookup_insert_eq.
  - done.
  - done.
  - cbn [bind]. by apply Hgood.
Qed.

(** An error with the processes and the set of free pages as before, or a new child with
    a stack of two pages. *)
Definition thread_outcome s (kids : ptr → list ptr) (fm : fork_mem) own fr (r : Z) s' : Prop :=
  (r = - E_NO_FREE_PROC ∨ r = - E_NO_MEM) ∧ proc_inv s' kids ∧ same_lists s s' ∧ current (sd s') = current (sd s) ∧
    (∃ fr', fr' ≡ₚ fr ∧ mem_ok s' own fr') ∨
  ∃ p raw b fr', new_proc fm = Some (p, raw) ∧ forked s s' kids p r ∧ fr ≡ₚ seqZ b KSTACKPAGE ++ fr' ∧
    mem_ok s' ((b, KSTACKPAGE) :: own) fr' ∧ kstack <$> (ptab s' !! p) = Some (kva_of b).

Lemma cur_same s s' c : cur s = Ok c → sd s' = set_procs (sd s) (ptab s') →
  ptab s' !! current (sd s) = ptab s !! current (sd s) → cur s' = Ok c.
Proof. unfold cur, get_proc. intros Hc -> Ht. cbn in *. by rewrite Ht. Qed.

Lemma mem_ok_vm s s' own fr : mem_ok s own fr → vm s' = vm s → mem_ok s' own fr.
Proof. intros [? ? ?] E. split; by rewrite E. Qed.

(** The fork from [copy_fs] on; the child has the stack [b]. *)
Lemma thread_fork_tail fm fl s kids p raw s3 b own fr' pr3 c old t :
  proc_inv s kids → nr_process s < MAX_PROCESS → new_proc fm = Some (p, raw) → prepared s p s3 → newborn s3 p →
  mem_ok s3 ((b, KSTACKPAGE) :: own) fr' → ptab s3 !! p = Some pr3 → kstack pr3 = kva_of b → current (sd s3) ≠ p →
  cur s3 = Ok c → mm c = None → ProcData.filesp c = Some old → fss (vs s3) !! old = Some t → quiet (vs s3) t →
  (∀ q, new_files fm = Some q → q ≠ old) →
  ∃ r s', (let! (r, s) := copy_fs fm fl p s3 in
           if decide (r ≠ 0) then let! s := put_kstack p s in Ok (- E_NO_MEM, kfree_proc p s) else
           let! (r, s) := copy_mm ide boot_pgdir fm fl p s in
           if decide (r ≠ 0) then let! s := put_kstack p s in Ok (- E_NO_MEM, kfree_proc p s) else
           fork_link p s) = Ok (r, s') ∧ thread_outcome s kids fm own (seqZ b KSTACKPAGE ++ fr') r s'.
Proof.
  intros I Hnr Hraw Hp3 N3 Hm3 Hps3 Hks3 Hcp Hc3 Hmm Hfs Ht Hq Hnf.
  destruct (copy_fs_quiet fm fl p s3 c old t) as (r4 & s4 & E4 & Ev4 & Ht4); [done..|eauto|].
  rewrite E4. cbn [bind]. pose proof (copy_fs_calm fm fl p s3) as C4. rewrite E4 in C4. cbn in C4.
  pose proof (mem_ok_vm _ s4 _ _ Hm3 Ev4) as Hm4.
  destruct (kinst_kin (ptab s3) (ptab s4) p _ (calm_tab _ _ C4 p) Hps3) as (pr4 & Hp4s & Ek%kin_fields & _).
  assert (kstack pr4 = kva_of b) as Hks4 by (rewrite <- Hks3; apply Ek).
  assert (prepared s p s4) as Hp4 by by eapply prepared_calm. assert (newborn s4 p) as N4 by by eapply newborn_calm.
  destruct (decide (r4 ≠ 0)).
  - destruct (put_kstack_ok p pr4 s4 b [] own fr' Hm4 Hp4s Hks4) as (s5 & E5 & Hm5). rewrite E5. cbn [bind].
    pose proof (put_kstack_calm p s4) as C5. rewrite E5 in C5. cbn in C5.
    destruct (kfree_ok s p s5 kids I) as (? & ? & ? & _); [by eapply prepared_calm|by eapply newborn_calm|].
    eexists _, _. split; [done|]. left. split_and!; eauto. exists (seqZ b KSTACKPAGE ++ fr'). split; [done|]. by destruct Hm5.
  - assert (cur s4 = Ok c) as Hc4 by (eapply cur_same; [exact Hc3|apply C4|by apply Ht4]).
    unfold copy_mm. rewrite Hc4. cbn [bind]. rewrite Hmm. cbn [bind]. rewrite decide_False by auto.
    destruct (fork_link_prepared s p s4 kids I Hp4 N4 Hnr) as (id & s' & -> & Hk & Ev & Eks & _).
    eexists _, _. split; [done|]. right. exists p, raw, b, fr'. split_and!; [done|done|done|by eapply mem_ok_vm|].
    rewrite Eks, Hp4s. cbn. by rewrite Hks4.
Qed.

(** C15: a fork by a kernel thread always returns.  It returns an error and leaves the
    processes and the set of free pages as they were; or it returns a pid that no process
    has, and the child with this pid can run, is the youngest child of the running
    process, and has two pages of its own as kernel stack.  All relations between
    processes, the hash lists and the run queue stay right. *)
Theorem thread_fork_total fm fl s kids own fr c old t :
  proc_inv s kids → fresh_proc fm s → mem_ok s own fr →
  cur s = Ok c → mm c = None → wait_state c = 0 → ProcData.filesp c = Some old → fss (vs s) !! old = Some t → quiet (vs s) t →
  (∀ q, new_files fm = Some q → q ≠ old) →
  ∃ r s', do_fork ide boot_cr3 boot_pgdir fm fl s = Ok (r, s') ∧ thread_outcome s kids fm own fr r s'.
Proof.
  intros I Hf Hm Hc Hmm Hw Hfs Ht Hq Hnf. unfold do_fork.
  destruct (Z.leb_spec MAX_PROCESS (nr_process s)) as [|Hnr]; [eexists _, _; split; [done|]; left; split_and!; eauto; done|].
  destruct (alloc_proc boot_cr3 (new_proc fm) s) as [[p|] s1] eqn:Ha.
  2:{ unfold alloc_proc in Ha. destruct (new_proc fm) as [[]|]; [done|]. injection Ha as <-.
      eexists _, _. split; [done|]. left. split_and!; eauto; done. }
  assert (∃ raw, new_proc fm = Some (p, raw)) as [raw Hraw].
  { unfold alloc_proc in Ha. destruct (new_proc fm) as [[p' raw]|]; [|done]. injection Ha as -> _. eauto. }
  pose proof (Hf _ _ Hraw) as Hout.
  destruct (alloc_prepared fm s p s1 Hf Ha) as (s2 & -> & Hp2 & N2 & Hcur2 & Ev2 & Efs2). cbn [bind].
  assert (current (sd s) ≠ p) as Hcp by (intros E; apply Hout; rewrite <- E; apply (p_base _ _ I)).
  assert (current (sd s2) = current (sd s)) as Ec2 by by rewrite (pr_sd _ _ _ Hp2).
  assert (cur s2 = Ok c) as Hc2 by (eapply cur_same; [exact Hc|apply Hp2|by apply Hcur2]).
  rewrite Hc2. cbn [bind]. rewrite Hw. cbn [Z.eqb].
  pose proof (mem_ok_vm _ s2 _ _ Hm Ev2) as Hm2. destruct (nb_tab _ _ N2) as (prp & Hpp & _).
  pose proof (setup_kstack_prepared s p s2 Hp2 N2) as Hk3.
  destruct (setup_kstack_ok p s2 own fr Hm2) as [(s3 & E3 & Hm3 & _)|(s3 & b & fr' & E3 & Hfr & Hm3 & Ev3 & Et3)]; [eauto| |].
  - rewrite E3 in *. cbn [bind]. rewrite decide_True by done. destruct Hk3 as [Hp3 N3].
    destruct (kfree_ok s p s3 kids I Hp3 N3) as (? & ? & ? & _). eexists _, _. split; [done|]. left. split_and!; eauto.
    exists fr. split; [done|]. by destruct Hm3.
  - rewrite E3 in *. cbn [bind]. rewrite decide_False by auto. destruct Hk3 as [Hp3 N3]. cbn [snd] in *.
    assert (sd s3 = set_procs (sd s2) (ptab s3)) as D3 by (by rewrite (pr_sd _ _ _ Hp3), (pr_sd _ _ _ Hp2)).
    assert (cur s3 = Ok c) as Hc3.
    { eapply cur_same; [exact Hc2|exact D3|]. rewrite Et3, lookup_alter_ne; [done|]. rewrite Ec2. auto. }
    destruct (thread_fork_tail fm fl s kids p raw s3 b own fr' (set_kstack (kva_of b) prp) c old t)
      as (r & s' & E & Hout'); try done.
    + by rewrite Et3, lookup_alter_eq, Hpp.
    + rewrite D3. cbn. by rewrite Ec2.
    + by rewrite Ev3, Efs2.
    + by rewrite Ev3, Efs2.
    + exists r, s'. split; [exact E|]. destruct Hout' as [(? & ? & ? & ? & fr2 & Hp & ?)|(p' & raw' & b' & fr2 & ? & ? & Hp & ?)].
      * left. split_and!; eauto. exists fr2. split; [|done]. by rewrite Hp, Hfr.
      * right. exists p', raw', b', fr2. split_and!; try done; [by rewrite Hfr|tauto..].
Qed.
End fork.
