(* ===== verification/ProcExit.v ===== *)
(** * Processes: exit

    [do_exit] hands the children to [initproc], wakes whoever waits, and gives the
    processor away: it always comes to an end, and the relations stay a tree. *)

From stdpp Require Import functions.
From S2P Require Import Prelude CString ListH DefaultPmm PmmManager Vmm Paging AddrSpace SkewHeap ProcData StrideSched Sched Vfs File Proc ProcTree ProcInv ProcFork.

Section exit.
Context {RQ M F : Type} `{sched_class RQ} `{pmm_manager M} `{vfs_impl F}.
Context (boot_cr3 : Z).
Notation kst := (kstate RQ M F).
Implicit Types s : kst.

(** ** The scheduler takes over *)

Lemma resched s kids :
  base_inv s kids → tree_inv (ptab s) (idleproc (sd s)) (proc_list s) kids →
  ∃ d, schedule (sd s) = Ok d ∧ proc_inv (set_sd d s) kids ∧ tframe (ptab s) (procs d) ∧ idleproc d = idleproc (sd s) ∧
    frame_by (λ pr, (state pr, wait_state pr)) (ptab s) (procs d) ∧ live None s (set_sd d s).
Proof.
  intros B T. destruct (schedule_step (sd s) (b_sched _ _ B)) as (d & Hs & Hsd & Hr & Hi & Ht & Hl & Hrun & _).
  exists d. pose proof (schedule_frame _ kin_unscheduled _ _ (b_sched _ _ B) Hs) as Hf.
  split_and!; [done| |exact Hf|done| |by apply tframe_live].
  2:{ eapply schedule_frame; [|apply B|done]. split; try done. intros p p' Hsb. symmetry.
      exact (f_equal (λ pr, (state pr, wait_state pr)) Hsb). }
  split; [| |exact Hr].
  - apply base_sd; [done..| |].
    + apply (b_all _ _ B). by apply Hrun.
    + intros p Hp. apply (b_all _ _ B). by apply Hrun.
  - cbn. rewrite Hi. by eapply tree_tframe.
Qed.

(** [wakeup_proc] of a process that is not a zombie. *)
Lemma wake s kids p pr :
  base_inv s kids → p ∈ idleproc (sd s) :: proc_list s → ptab s !! p = Some pr → state pr ≠ PROC_ZOMBIE →
  ∃ d, wakeup_proc (sd s) p = Ok d ∧ base_inv (set_sd d s) kids ∧ tframe (ptab s) (procs d) ∧
    current d = current (sd s) ∧ idleproc d = idleproc (sd s) ∧ (∀ q, q ≠ p → procs d !! q = ptab s !! q) ∧
    live None s (set_sd d s) ∧ runnable (procs d) p.
Proof.
  intros B Hin Hp Hz.
  destruct (wakeup_proc_ok (sd s) p pr (b_sched _ _ B) Hp Hz) as (d & Hw & Hsd & (Hc & Hi & Ht & Hl) & (pr' & Hpr' & Hst' & _) & Hoth).
  exists d. pose proof (wakeup_tframe _ _ _ (b_sched _ _ B) Hw) as Hf.
  split_and!; try done; [|by apply tframe_live|by exists pr'].
  apply base_sd; [done..|rewrite Hc; apply B|]. intros q Hq. destruct (decide (q = p)) as [->|Hne]; [done|].
  apply (b_all _ _ B). unfold runnable in *. by rewrite Hoth in Hq by done.
Qed.

Lemma wake_inv s kids p pr :
  proc_inv s kids → p ∈ idleproc (sd s) :: proc_list s → ptab s !! p = Some pr → state pr ≠ PROC_ZOMBIE →
  ∃ d, wakeup_proc (sd s) p = Ok d ∧ proc_inv (set_sd d s) kids ∧ live None s (set_sd d s).
Proof.
  intros [B T R] Hin Hp Hz. destruct (wake s kids p pr) as (d & Hw & B' & Hf & Hc & Hi & Hoth & V & Hr); [done..|].
  exists d. split_and!; [done| |done]. split; [done|cbn; rewrite Hi; by eapply tree_tframe|]. cbn. rewrite Hc.
  destruct (decide (current (sd s) = p)) as [->|Hne]; [done|]. unfold runnable. cbn. by rewrite Hoth.
Qed.

(** ** The children go to [initproc] *)

Lemma reparent_run i p me prp prme pri s :
  current (sd s) = me → ptab s !! p = Some prp → ptab s !! me = Some prme → ptab s !! i = Some pri →
  p ≠ i → i ≠ me → (∀ o, cptr pri = Some o → is_Some (ptab s !! o)) →
  let s1 := set_ptab (adopted (ptab s) me i p (optr prp) (cptr pri)) s in
  reparent i p s =
    if decide (state prp = PROC_ZOMBIE) then
      let! ip := get_proc (ptab s1) i in
      if wait_state ip =? WT_CHILD then let! d := wakeup_proc (sd s1) i in Ok (set_sd d s1) else Ok s1
    else Ok s1.
Proof.
  intros Hme Hp Hm Hi Hpi Hime Ho. cbv zeta. unfold reparent. rewrite (get_proc_ok _ _ _ Hp). cbn [bind]. rewrite Hme.
  assert (∃ pr', adopted (ptab s) me i p (optr prp) (cptr pri) !! p = Some pr' ∧ state pr' = state prp) as (pr' & Hp' & Est).
  { rewrite adopted_lookup, Hp. cbn. eauto. }
  rewrite upd_ok by eauto. cbn [bind]. rewrite upd_ok by (cbn; rewrite !lookup_alter_is_Some; eauto). cbn [bind].
  flat_tab.
  rewrite (get_proc_ok _ i pri) by by rewrite !lookup_alter_ne. cbn [bind].
  rewrite upd_ok by (cbn; rewrite !lookup_alter_is_Some; eauto). cbn [bind].
  flat_tab.
  unfold adopted in *. destruct (cptr pri) as [o|].
  - rewrite upd_ok by (cbn; rewrite !lookup_alter_is_Some; auto). cbn [bind].
    rewrite upd_ok by (cbn; rewrite !lookup_alter_is_Some; eauto). cbn [bind].
    rewrite upd_ok by (cbn; rewrite !lookup_alter_is_Some; eauto). cbn [bind].
    flat_tab.
    rewrite (get_proc_ok _ _ _ Hp'). cbn [bind]. by rewrite Est.
  - cbn [bind]. rewrite upd_ok by (cbn; rewrite !lookup_alter_is_Some; eauto). cbn [bind].
    rewrite upd_ok by (cbn; rewrite !lookup_alter_is_Some; eauto). cbn [bind].
    flat_tab.
    rewrite (get_proc_ok _ _ _ Hp'). cbn [bind]. by rewrite Est.
Qed.

(** While [me] exits: the first [rest] of its children are still its own. *)
Record leaving s (kids : ptr → list ptr) (me i : ptr) (rest : list ptr) : Prop := {
  lv_base : base_inv s kids;
  lv_mid : mid_inv (ptab s) (idleproc (sd s)) (proc_list s) kids me rest;
  lv_me : current (sd s) = me ∧ me ∈ proc_list s ∧ me ≠ i ∧ me ∉ rest ∧ me ≠ idleproc (sd s);
  lv_zombie : ∃ pr, ptab s !! me = Some pr ∧ state pr = PROC_ZOMBIE;
  lv_init : initproc s = Some i
}.

Lemma adopted_runnable t me i p older o q : runnable (adopted t me i p older o) q ↔ runnable t q.
Proof.
  unfold runnable. rewrite adopted_lookup. destruct (t !! q) as [pr|]; cbn; [|done]. split; intros (pr0 & [= <-] & ?); eauto.
Qed.

Lemma leaving_adopt s kids me i p rest prp pri :
  leaving s kids me i (p :: rest) → ptab s !! p = Some prp → ptab s !! i = Some pri →
  let s1 := set_ptab (adopted (ptab s) me i p (head rest) (head (kids i))) s in
  optr prp = head rest ∧ cptr pri = head (kids i) ∧ p ≠ i ∧ leaving s1 (<[i := p :: kids i]> kids) me i rest ∧ live None s s1.
Proof.
  intros [B T (Hc & Hme & Hmi & Hmr & Hmidle) (prme & Hprme & Hz) Hi] Hp Hpri. cbv zeta. set (t' := adopted _ _ _ _ _ _).
  destruct (b_init _ _ B i Hi) as (Hlast & Hik & Hiz). pose proof (init_in _ _ _ B Hi) as Hil.
  pose proof (m_nodup _ _ _ _ _ _ T) as [Hidle Hndl]%NoDup_cons.
  assert (i ≠ idleproc (sd s)) as Hii by (intros ->; done).
  destruct (m_family _ _ _ _ _ _ T i) as [(pri' & Hpri' & Hci) _]; [by right|done|]. rewrite Hpri in Hpri'. injection Hpri' as <-.
  destruct (m_chain _ _ _ _ _ _ T) as [(prp' & Hp' & _ & Hop) _]. rewrite Hp in Hp'. injection Hp' as <-.
  destruct (family_parent _ _ _ i (m_family _ _ _ _ _ _ T (idleproc (sd s)) ltac:(by left) ltac:(done)) Hik) as (pri' & Hpri' & Hpari).
  rewrite Hpri in Hpri'. injection Hpri' as <-.
  assert (i ∉ p :: rest) as Hir.
  { intros Hin. destruct (chain_parent _ _ _ _ (m_chain _ _ _ _ _ _ T) Hin) as (pr' & Hpr' & E). congruence. }
  assert (p ≠ i) as Hpi by (intros ->; apply Hir; by left).
  assert (∀ q pr, ptab s !! q = Some pr → ∃ pr', t' !! q = Some pr' ∧ pid pr' = pid pr ∧ state pr' = state pr) as Hkeep.
  { intros q pr Hq. unfold t'. rewrite adopted_lookup, Hq. cbn. eauto. }
  split_and!; [done|done|done| |].
  2:{ split; [done..|]. intros q Hq _ (pr & Hpr & Hz'). split; [done|]. destruct (Hkeep q pr Hpr) as (pr' & ? & _ & E).
      exists pr'. by rewrite E. }
  split.
  - apply (base_kids _ kids).
    + eapply base_change; [exact B|done| |done|apply B| |].
      * apply sched_inv_tab; [apply B|intros q; apply adopted_runnable|].
        rewrite Hc. destruct (Hkeep me prme Hprme) as (pr' & ? & _). eauto.
      * intros q Hq. apply (b_all _ _ B). by apply adopted_runnable in Hq.
      * intros q pr _ Hq. destruct (Hkeep q pr Hq) as (pr' & ? & ? & E). exists pr'. split_and!; [done|done|]. intros _ Hz'. congruence.
    + intros i' Hi' _. cbn. by rewrite fn_lookup_insert_ne.
  - cbn. apply adopted_mid; try done; [by right|intros Hin; apply Hir; by right].
  - split_and!; try done. intros Hin. apply Hmr. by right.
  - destruct (Hkeep me prme Hprme) as (pr' & ? & _ & ?). exists pr'. split; [done|congruence].
  - done.
Qed.

Lemma leaving_wake s kids me i rest w prw :
  leaving s kids me i rest → w ∈ idleproc (sd s) :: proc_list s → w ≠ me → ptab s !! w = Some prw → state prw ≠ PROC_ZOMBIE →
  ∃ d, wakeup_proc (sd s) w = Ok d ∧ leaving (set_sd d s) kids me i rest ∧ ptab (set_sd d s) !! me = ptab s !! me ∧
    live None s (set_sd d s).
Proof.
  intros [B T (Hc & Hme & Hmi & Hmr & Hmidle) (prme & Hprme & Hz) Hi] Hw Hwme Hprw Hzw.
  destruct (wake s kids w prw) as (d & Hwk & B' & Hf & Hcd & Hid & Hoth & V & _); [done..|].
  exists d. split; [done|]. split; [|split; [cbn; by rewrite Hoth by done|exact V]]. split; [done| | | |done]; cbn [set_sd sd proc_list]; rewrite ?Hid, ?Hcd.
  - eapply mid_frame; [exact T| |by right]. intros q pr _ Hq. destruct (Hf q pr Hq) as (pr' & ? & E%kin_fields).
    destruct E as (_ & E1 & E2 & E3 & E4 & _ & _ & E5). exists pr'. unfold links. split_and!; [done|congruence|done|intros _; apply E5].
  - done.
  - exists prme. cbn. by rewrite Hoth.
Qed.

Lemma reparent_ok s kids me i p rest :
  leaving s kids me i (p :: rest) →
  ∃ s', reparent i p s = Ok s' ∧ leaving s' (<[i := p :: kids i]> kids) me i rest ∧ same_lists s s' ∧
    (∀ c, exit_code <$> (ptab s !! me) = Some c → exit_code <$> (ptab s' !! me) = Some c) ∧ live None s s'.
Proof.
  intros L. pose proof L as [B T (Hc & Hme & Hmi & Hmr & Hmidle) (prme & Hprme & Hz) Hi].
  destruct (m_chain _ _ _ _ _ _ T) as [(prp & Hp & _) _]. pose proof (init_in _ _ _ B Hi) as Hil.
  destruct (m_family _ _ _ _ _ _ T i) as [(pri & Hpri & Hck) Hsi]; [by right|done|].
  destruct (leaving_adopt s kids me i p rest prp pri L Hp Hpri) as (Eo & Ec & Hpi & L1 & V1).
  rewrite (reparent_run i p me prp prme pri s); [|done..|].
  2:{ intros o Ho. rewrite Hck in Ho. destruct (kids i) as [|o' ks] eqn:Ek; [done|]. injection Ho as ->.
      destruct Hsi as [(pr & ? & _) _]. eauto. }
  rewrite Eo, Ec. cbv zeta. set (s1 := set_ptab _ s) in *.
  assert (∀ c, exit_code <$> (ptab s !! me) = Some c → exit_code <$> (ptab s1 !! me) = Some c) as Hx.
  { intros c. change (ptab s1) with (adopted (ptab s) me i p (head rest) (head (kids i))). rewrite adopted_lookup, Hprme. done. }
  destruct (decide (state prp = PROC_ZOMBIE)); [|by exists s1].
  destruct (m_family _ _ _ _ _ _ (lv_mid _ _ _ _ _ L1) i) as [(pri1 & Hpri1 & _) _]; [by right|done|].
  rewrite (get_proc_ok _ _ _ Hpri1). cbn [bind]. destruct (_ =? WT_CHILD); [|by exists s1].
  destruct (leaving_wake s1 _ me i rest i pri1 L1) as (d & -> & L2 & E2 & V2);
    [by right|done|done|by apply (b_init _ _ (lv_base _ _ _ _ _ L1) i)|]. cbn [bind]. eexists. split_and!; [done|done|done| |by eapply live_trans].
  intros c. rewrite E2. apply Hx.
Qed.

(** The children in their new order, the last to move first. *)
Fixpoint adopt (kids : ptr → list ptr) (i : ptr) (rest : list ptr) : ptr → list ptr :=
  match rest with [] => kids | p :: rest => adopt (<[i := p :: kids i]> kids) i rest end.

Lemma adopt_spec kids i rest q : adopt kids i rest q = if decide (q = i) then rev rest ++ kids i else kids q.
Proof.
  revert kids. induction rest as [|p rest IH]; intros kids; cbn; [by case_decide; subst|]. rewrite IH, fn_lookup_insert.
  case_decide; [|by rewrite fn_lookup_insert_ne]. by rewrite <- app_assoc.
Qed.

Lemma reparent_loop_ok fuel s kids me i rest :
  leaving s kids me i rest → (length rest ≤ fuel)%nat →
  ∃ s', reparent_loop fuel i s = Ok s' ∧ leaving s' (adopt kids i rest) me i [] ∧ same_lists s s' ∧
    (∀ c, exit_code <$> (ptab s !! me) = Some c → exit_code <$> (ptab s' !! me) = Some c) ∧ live None s s'.
Proof.
  revert fuel s kids. induction rest as [|p rest IH]; intros fuel s kids L Hf.
  - assert (reparent_loop fuel i s = Ok s) as ->; [|exists s; split_and!; [done..|apply live_refl]].
    destruct (m_head _ _ _ _ _ _ (lv_mid _ _ _ _ _ L)) as (pr & Hpr & Hc). destruct fuel; cbn; unfold cur;
      rewrite (proj1 (lv_me _ _ _ _ _ L)), (get_proc_ok _ _ _ Hpr); cbn [bind]; by rewrite Hc.
  - destruct fuel as [|fuel]; cbn in Hf; [lia|].
    destruct (m_head _ _ _ _ _ _ (lv_mid _ _ _ _ _ L)) as (pr & Hpr & Hc). cbn [reparent_loop]. unfold cur.
    rewrite (proj1 (lv_me _ _ _ _ _ L)), (get_proc_ok _ _ _ Hpr). cbn [bind]. rewrite Hc. cbn [head].
    destruct (reparent_ok _ _ _ _ _ _ L) as (s1 & -> & L1 & (?&?&?&?&?&?) & Hx1 & V1). cbn [bind].
    destruct (IH fuel s1 _ L1) as (s2 & -> & L2 & (?&?&?&?&?&?) & Hx2 & V2); [lia|]. exists s2. split_and!; [done|done| |auto|by eapply live_trans].
    repeat split; congruence.
Qed.
(** ** [do_exit] *)

Lemma leaving_start s kids i code :
  proc_inv s kids → current (sd s) ≠ idleproc (sd s) → initproc s = Some i → current (sd s) ≠ i →
  let me := current (sd s) in
  let s1 := set_ptab (alter (set_exit_code code) me (alter (set_state PROC_ZOMBIE) me (ptab s))) s in
  leaving s1 kids me i (kids me) ∧ live (Some me) s s1.
Proof.
  intros [B T (prme & Hprme & Hst)] Hidle Hi Hne. cbv zeta. set (me := current (sd s)) in *. set (t' := alter _ me _).
  assert (me ∈ proc_list s) as Hmel by (pose proof (b_cur _ _ B) as [?|?]%elem_of_cons; done).
  assert (t' !! me = Some (set_exit_code code (set_state PROC_ZOMBIE prme))) as Hme' by (unfold t'; by rewrite !lookup_alter_eq, Hprme).
  assert (∀ q, q ≠ me → t' !! q = ptab s !! q) as Hoth by (intros q Hq; unfold t'; by rewrite !lookup_alter_ne).
  split.
  2:{ split; [done..|]. intros q Hq Hqme (pr & Hpr & Hz). split; [done|]. exists pr. split; [|done].
      change (ptab (set_ptab t' s)) with t'. rewrite Hoth; [done|]. congruence. }
  split.
  - eapply base_change; [exact B|done| |done|apply B| |].
    + apply sched_inv_stop; [apply B| |done|exact (mk_is_Some _ _ Hme')]. intros q Hq. unfold runnable. by rewrite Hoth.
    + intros q Hq. destruct (decide (q = me)) as [->|Hqme]; [apply B|]. apply (b_all _ _ B). unfold runnable in *.
      change (ptab (set_ptab t' s)) with t' in Hq. by rewrite Hoth in Hq.
    + intros q pr _ Hq. destruct (decide (q = me)) as [->|Hqme].
      * exists (set_exit_code code (set_state PROC_ZOMBIE prme)). rewrite Hprme in Hq. injection Hq as <-.
        split_and!; [exact Hme'|done|]. intros E. congruence.
      * exists pr. split_and!; [|done|done]. change (ptab (set_ptab t' s)) with t'. by rewrite Hoth.
  - eapply mid_frame; [apply tree_mid; [exact T|apply B]| |apply B]. intros q pr _ Hq. change (ptab (set_ptab t' s)) with t'.
    destruct (decide (q = me)) as [->|Hqme].
    + rewrite Hprme in Hq. injection Hq as <-. eexists. split; [exact Hme'|]. by split_and!.
    + exists pr. rewrite Hoth by done. by split_and!.
  - split_and!; try done. intros Hin. destruct (t_older _ _ _ _ T me me) as [?|Ho]; [by right|done|done|].
    apply older_ne in Ho; [done|]. pose proof (t_nodup _ _ _ _ T) as [_ ?]%NoDup_cons. done.
  - eexists. split; [exact Hme'|done].
  - done.
Qed.

(** The parent of a process. *)
Lemma parent_ok s kids p pr :
  tree_inv (ptab s) (idleproc (sd s)) (proc_list s) kids → p ∈ proc_list s → p ≠ idleproc (sd s) → ptab s !! p = Some pr →
  ∃ par prpar, parent pr = Some par ∧ par ∈ idleproc (sd s) :: proc_list s ∧ par ≠ p ∧ p ∈ kids par ∧
    ptab s !! par = Some prpar ∧ state prpar ≠ PROC_ZOMBIE.
Proof.
  intros T Hp Hpi Hpr. destruct (t_parent _ _ _ _ T p Hp) as (par & Hpar & Hk).
  destruct (family_parent _ _ _ _ (t_family _ _ _ _ T par Hpar) Hk) as (pr' & Hpr' & Hpp). simplify_eq.
  destruct (t_family _ _ _ _ T par Hpar) as [(prpar & Hprpar & _) _]. exists par, prpar. split_and!; try done.
  - destruct (t_older _ _ _ _ T par p Hpar Hk) as [->|Ho]; [done|]. eapply older_ne; [|exact Ho].
    by pose proof (t_nodup _ _ _ _ T) as [_ ?]%NoDup_cons.
  - intros Hz. rewrite (t_zombie _ _ _ _ T par prpar Hpar Hprpar Hz) in Hk. by apply elem_of_nil in Hk.
Qed.

Definition exited s s' (kids kids' : ptr → list ptr) (me i : ptr) (code : Z) : Prop :=
  kids' me = [] ∧ kids' i = rev (kids me) ++ kids i ∧ (∀ q, q ≠ me → q ≠ i → kids' q = kids q) ∧
  proc_list s' = proc_list s ∧
  ∃ pr, ptab s' !! me = Some pr ∧ state pr = PROC_ZOMBIE ∧ exit_code pr = code ∧ cptr pr = None.

Lemma length_kids s kids p : tree_inv (ptab s) (idleproc (sd s)) (proc_list s) kids → p ∈ idleproc (sd s) :: proc_list s →
  (length (kids p) ≤ length (proc_list s))%nat.
Proof.
  intros T Hp. apply submseteq_length, NoDup_submseteq; [by eapply t_kids_nodup|]. intros c. by eapply t_kids.
Qed.

Lemma exit_leave_ok s kids i code s1 :
  proc_inv s kids → current (sd s) ≠ idleproc (sd s) → initproc s = Some i → current (sd s) ≠ i →
  exit_release boot_cr3 s = Ok s1 →
  let me := current (sd s) in
  ∃ s', exit_leave boot_cr3 code s = Ok s' ∧ leaving s' (adopt kids i (kids me)) me i [] ∧ proc_list s' = proc_list s ∧
    exit_code <$> (ptab s' !! me) = Some code ∧ live (Some me) s s'.
Proof.
  intros I0 Hidle Hi Hne Hrel. cbv zeta. unfold exit_leave. cbv zeta. rewrite Hrel. cbn [bind].
  pose proof (exit_release_calm boot_cr3 s) as C. rewrite Hrel in C. cbn in C.
  pose proof (calm_proc _ _ _ I0 C) as I. pose proof (live_weaken (Some (current (sd s))) _ _ (calm_live _ _ C)) as V0.
  destruct C as [(El & _ & Ei & _) D _].
  assert (current (sd s1) = current (sd s) ∧ idleproc (sd s1) = idleproc (sd s)) as [Ec Eid] by by rewrite D.
  rewrite <- El. rewrite <- Ei in Hi. rewrite <- Ec in *. rewrite <- Eid in *. clear Hrel I0 D El Ei Ec Eid.
  rename s into s0. rename s1 into s. set (me := current (sd s)) in *.
  destruct (leaving_start s kids i code I Hidle Hi Hne) as [L V2]. cbv zeta in L. fold me in L, V2.
  destruct I as [B T (prme & Hprme & Hst)]. fold me in Hprme.
  assert (me ∈ proc_list s) as Hmel by (pose proof (b_cur _ _ B) as [?|?]%elem_of_cons; done).
  destruct (parent_ok s kids me prme T Hmel Hidle Hprme) as (par & prpar & Hpp & Hpar & Hpme & Hk & Hprpar & Hz).
  rewrite upd_ok by eauto. cbn [bind]. rewrite upd_ok by (cbn; rewrite lookup_alter_is_Some; eauto). cbn [bind]. flat_tab.
  set (s2 := set_ptab _ s) in *. unfold cur.
  assert (ptab s2 !! me = Some (set_exit_code code (set_state PROC_ZOMBIE prme))) as Hme2.
  { cbn. by rewrite !lookup_alter_eq, Hprme. }
  change (current (sd s2)) with me. rewrite (get_proc_ok _ _ _ Hme2). cbn [bind parent set_exit_code set_state]. rewrite Hpp. cbn [deref bind].
  assert (ptab s2 !! par = Some prpar) as Hpar2 by (cbn; by rewrite !lookup_alter_ne).
  rewrite (get_proc_ok _ par prpar) by exact Hpar2. cbn [bind].
  assert (∃ s3, (if wait_state prpar =? WT_CHILD then let! d := wakeup_proc (sd s2) par in Ok (set_sd d s2) else Ok s2) = Ok s3 ∧
    leaving s3 kids me i (kids me) ∧ ptab s3 !! me = ptab s2 !! me ∧ proc_list s3 = proc_list s ∧ live None s2 s3)
    as (s3 & -> & L3 & E3 & El3 & V3).
  { destruct (_ =? WT_CHILD); [|exists s2; split_and!; [done..|apply live_refl]].
    destruct (leaving_wake s2 kids me i (kids me) par prpar L) as (d & -> & L3 & E3 & V3); [done..|]. cbn [bind]. by eexists. }
  cbn [bind]. rewrite (lv_init _ _ _ _ _ L3). cbn [deref bind]. rewrite El3.
  destruct (reparent_loop_ok (length (proc_list s)) s3 kids me i (kids me) L3) as (s4 & E4 & L4 & (El4 & _) & Hx4 & V4).
  { apply length_kids; [done|by right]. }
  exists s4. split_and!; [done|done|congruence|apply Hx4; by rewrite E3, Hme2|].
  eapply live_trans; [exact V0|]. eapply live_trans; [exact V2|]. apply live_weaken. by eapply live_trans.
Qed.

Lemma do_exit_spec s kids i code s1 :
  proc_inv s kids → current (sd s) ≠ idleproc (sd s) → initproc s = Some i → current (sd s) ≠ i →
  exit_release boot_cr3 s = Ok s1 →
  ∃ s' kids', do_exit boot_cr3 code s = Ok s' ∧ proc_inv s' kids' ∧ exited s s' kids kids' (current (sd s)) i code ∧
    current (sd s') ≠ current (sd s) ∧ live (Some (current (sd s))) s s'.
Proof.
  intros I Hidle Hi Hne Hrel. unfold do_exit. rewrite decide_False by done. rewrite decide_False by congruence.
  destruct (exit_leave_ok s kids i code s1 I Hidle Hi Hne Hrel) as (s2 & -> & L & El & Hx & V). cbn [bind].
  set (me := current (sd s)) in *. destruct L as [B T (Hc & Hmel & Hmi & _ & Hmidle) (pr & Hpr & Hz) Hi2].
  set (kids' := <[me := []]> (adopt kids i (kids me))).
  destruct (resched s2 kids') as (d & -> & I' & Hf & Hid & _ & V').
  - apply (base_kids _ (adopt kids i (kids me))); [done|]. intros j Hj _. unfold kids'. by rewrite fn_lookup_insert_ne.
  - apply mid_tree; [done|by right].
  - cbn [bind]. exists (set_sd d s2), kids'. split_and!; [done|done| | |].
    3:{ eapply live_trans; [exact V|by apply live_weaken]. }
    + unfold exited, kids'. rewrite fn_lookup_insert, fn_lookup_insert_ne, adopt_spec, decide_True by done.
      split_and!; [done|done| |done|].
      * intros q Hq Hqi. by rewrite fn_lookup_insert_ne, adopt_spec, decide_False.
      * destruct (Hf me pr Hpr) as (pr' & ? & E%kin_fields). exists pr'. rewrite Hpr in Hx. injection Hx as Hx.
        destruct E as (_ & _ & E1 & _ & _ & _ & E2 & E3). split_and!; [done|by apply E3|congruence|].
        destruct (m_head _ _ _ _ _ _ T) as (pr2 & Hpr2 & Hc2). cbn in Hc2. congruence.
    + intros E. destruct (p_run _ _ I') as (pr' & Hpr' & Hr). cbn in E. change (procs d !! current d = Some pr') in Hpr'. rewrite E in Hpr'.
      destruct (Hf me pr Hpr) as (pr2 & Hpr2 & E2%kin_fields). rewrite Hpr' in Hpr2. injection Hpr2 as <-.
      destruct E2 as (_ & _ & _ & _ & _ & _ & _ & E3). apply E3 in Hz. congruence.
Qed.

End exit.
