(* ===== verification/ProcWait.v ===== *)
(** * Processes: find_proc, wait and kill

    [find_proc] on the hash lists is the search through all processes; [do_wait] finds a
    zombie child, sleeps or fails, and takes the child it reaps out of every
    structure. *)

From stdpp Require Import functions.
From S2P Require Import Prelude CString ListH DefaultPmm PmmManager Vmm Paging AddrSpace SkewHeap ProcData StrideSched Sched Vfs File Proc ProcTree ProcInv ProcFork ProcExit.

(** ** Searching *)

Lemma find_bucket_spec (t : ptable) l id :
  (∀ p, p ∈ l → is_Some (t !! p)) →
  ∃ o, find_in_bucket t l id = Ok o ∧
    match o with
    | Some p => p ∈ l ∧ ∃ pr, t !! p = Some pr ∧ pid pr = id
    | None => ∀ p pr, p ∈ l → t !! p = Some pr → pid pr ≠ id
    end.
Proof.
  induction l as [|x l IH]; intros Hl; cbn [find_in_bucket]; [exists None; split; [done|]; by intros ? ? ?%elem_of_nil|].
  destruct (Hl x) as [pr Hx]; [by left|]. rewrite (get_proc_ok _ _ _ Hx). cbn [bind].
  destruct (Z.eqb_spec (pid pr) id) as [E|Hne]; [exists (Some x); split; [done|]; split; [by left|eauto]|].
  destruct IH as (o & -> & Ho); [intros p Hp; apply Hl; by right|]. exists o. split; [done|]. destruct o as [p|].
  - destruct Ho as [? ?]. split; [by right|done].
  - intros p pr' [->|Hp]%elem_of_cons Htp; [congruence|eauto].
Qed.

(** The first zombie among the siblings. *)
Definition zombie (t : ptable) (p : ptr) : Prop := ∃ pr, t !! p = Some pr ∧ state pr = PROC_ZOMBIE.

Lemma find_zombie_spec fuel t par y l b :
  sibs t par y l → (length l ≤ fuel)%nat →
  ∃ o, find_zombie fuel t (head l) b = Ok (o, b || negb (bool_decide (l = []))) ∧
    match o with Some p => p ∈ l ∧ zombie t p | None => ∀ p, p ∈ l → ¬ zombie t p end.
Proof.
  revert fuel y b. induction l as [|c l IH]; intros fuel y b Hs Hf; cbn [head].
  - exists None. split; [destruct fuel; cbn; by rewrite orb_false_r|]. by intros ? ?%elem_of_nil.
  - destruct fuel as [|fuel]; cbn in Hf; [lia|]. destruct Hs as [(pr & Hc & Hl) Hs]. cbn [find_zombie].
    rewrite (get_proc_ok _ _ _ Hc). cbn [bind]. rewrite bool_decide_false, orb_true_r by done.
    destruct (decide (state pr = PROC_ZOMBIE)) as [Hz|Hnz].
    + exists (Some c). split; [done|]. split; [by left|by exists pr].
    + assert (optr pr = head l) as -> by (unfold links in Hl; congruence).
      destruct (IH fuel (Some c) true Hs) as (o & -> & Ho); [lia|]. exists o. split; [done|]. destruct o as [p|].
      * destruct Ho. split; [by right|done].
      * intros p [->|Hp]%elem_of_cons; [|auto]. intros (pr' & ? & ?). by simplify_eq.
Qed.

Section wait.
Context {RQ M F : Type} `{sched_class RQ} `{pmm_manager M} `{vfs_impl F}.
Notation kst := (kstate RQ M F).
Implicit Types s : kst.

Lemma proc_dom s kids p : base_inv s kids → p ∈ proc_list s → is_Some (ptab s !! p).
Proof.
  intros B Hp. destruct (b_pids _ _ B) as (ids & Hids & _). destruct (pids_of_in _ _ _ _ Hids Hp) as (pr & ? & _). eauto.
Qed.

Lemma find_proc_eq s kids id : base_inv s kids → find_proc id s = find_in_bucket (ptab s) (proc_list s) id.
Proof.
  intros B. destruct (b_pids _ _ B) as (ids & Hids & Hnd & Hr & _).
  destruct (find_bucket_spec (ptab s) (proc_list s) id) as (o & Eo & Ho); [intros p; by eapply proc_dom|].
  rewrite Eo. unfold find_proc. destruct ((0 <? id) && (id <? MAX_PID)) eqn:Hid.
  - destruct (b_hash _ _ B (pid_hashfn id)) as [_ Hb].
    destruct (find_bucket_spec (ptab s) (hash_bucket s (pid_hashfn id)) id) as (o' & Eo' & Ho').
    { intros p [Hp _]%Hb. by eapply proc_dom. }
    rewrite Eo'. f_equal. destruct o' as [p'|], o as [p|]; try done.
    + destruct Ho' as [[Hp' _]%Hb (pr' & ? & E')], Ho as [Hp (pr & ? & E)]. f_equal. eapply pids_of_unique; eauto. congruence.
    + exfalso. destruct Ho' as [[Hp' _]%Hb (pr' & ? & E')]. by eapply Ho.
    + exfalso. destruct Ho as [Hp (pr & ? & E)]. eapply (Ho' p pr); [|done|done]. apply Hb. split; [done|]. exists pr. by rewrite E.
  - destruct o as [p|]; [|done]. exfalso. destruct Ho as [Hp (pr & Hpr & E)].
    destruct (pids_of_in _ _ _ _ Hids Hp) as (pr' & ? & Hin). simplify_eq. rewrite Forall_forall in Hr. apply Hr in Hin.
    apply andb_false_iff in Hid as [?%Z.ltb_ge|?%Z.ltb_ge]; lia.
Qed.

(** C37: looking a pid up in the hash lists gives what a search through the list of all
    processes gives, for every number: a pid that is in use, a free one, and one out of range. *)
Theorem find_proc_linear s kids id :
  proc_inv s kids → find_proc id s = find_in_bucket (ptab s) (proc_list s) id.
Proof. intros I. eapply find_proc_eq, I. Qed.

(** ** Reaping *)

(** The state before [put_kstack] in [do_wait]. *)
Definition gone (p par : ptr) (prp : proc_struct) s : kst :=
  set_proc_list (filter (λ q, q ≠ p) (proc_list s)) (i32 (nr_process s - 1))
    (set_ptab (unlinked (ptab s) par prp) (unhash_proc p s)).

Lemma remove_links_ok p prp par s :
  ptab s !! p = Some prp → parent prp = Some par → is_Some (ptab s !! par) →
  (∀ o, optr prp = Some o → is_Some (ptab s !! o)) → (∀ y, yptr prp = Some y → is_Some (ptab s !! y)) →
  remove_links p (unhash_proc p s) = Ok (gone p par prp s).
Proof.
  intros Hp Hpp Hpar Ho Hy. unfold remove_links. cbv zeta. set (s1 := set_proc_list _ _ _).
  change (ptab s) with (ptab s1) in *. rewrite (get_proc_ok _ _ _ Hp). cbn [bind].
  unfold gone, unlinked. destruct (optr prp) as [o|].
  - rewrite upd_ok by auto. cbn [bind]. destruct (yptr prp) as [y|].
    + rewrite upd_ok by (cbn; rewrite lookup_alter_is_Some; auto). reflexivity.
    + rewrite Hpp. cbn [deref bind]. rewrite upd_ok by (cbn; rewrite lookup_alter_is_Some; auto). reflexivity.
  - cbn [bind]. destruct (yptr prp) as [y|].
    + rewrite upd_ok by auto. reflexivity.
    + rewrite Hpp. cbn [deref bind]. rewrite upd_ok by auto. reflexivity.
Qed.

Lemma filter_ne_id (l : list Z) p : p ∉ l → filter (λ q, q ≠ p) l = l.
Proof.
  induction l as [|x l IH]; intros Hx; [done|]. rewrite not_elem_of_cons in Hx. destruct Hx.
  rewrite filter_cons_True by auto. by rewrite IH.
Qed.

Lemma filter_ne_split (a b : list Z) p : NoDup (a ++ p :: b) → filter (λ q, q ≠ p) (a ++ p :: b) = a ++ b.
Proof.
  intros (_ & Hd & [Hpb _]%NoDup_cons)%NoDup_app.
  rewrite filter_app, filter_cons_False, !filter_ne_id by (auto || (intros Hin; apply (Hd _ Hin); by left)). done.
Qed.

Lemma pids_of_filter t l ids p : pids_of t l = Ok ids → NoDup l → p ∈ l →
  ∃ ids', pids_of t (filter (λ q, q ≠ p) l) = Ok ids' ∧ ids' `sublist_of` ids ∧ S (length (filter (λ q, q ≠ p) l)) = length l.
Proof.
  rewrite pids_of_spec. intros Hf Hnd Hp. apply list_elem_of_split in Hp as (l1 & l2 & ->).
  rewrite filter_ne_split by done.
  apply Forall2_app_inv_l in Hf as (i1 & i2 & Hf1 & Hf2 & ->). inversion Hf2 as [|? q ? i2' _ Hf2']; subst.
  exists (i1 ++ i2'). split; [apply pids_of_spec; by apply Forall2_app|]. split.
  - apply sublist_app; [done|]. by apply sublist_cons.
  - rewrite !length_app. cbn. lia.
Qed.

Lemma last_filter (l : list Z) i p : last l = Some i → i ≠ p → last (filter (λ q, q ≠ p) l) = Some i.
Proof.
  intros (l' & ->)%last_Some Hne. rewrite filter_app, filter_cons_True by done. cbn. by rewrite last_snoc.
Qed.

Lemma unlinked_keep t par prp q : (λ pr, (state pr, pid pr, exit_code pr, kstack pr, wait_state pr)) <$> (unlinked t par prp !! q) =
  (λ pr, (state pr, pid pr, exit_code pr, kstack pr, wait_state pr)) <$> (t !! q).
Proof. rewrite unlinked_lookup. by destruct (t !! q). Qed.

Lemma unlinked_get t par prp q pr : t !! q = Some pr →
  ∃ pr', unlinked t par prp !! q = Some pr' ∧ pid pr' = pid pr ∧ state pr' = state pr ∧ kstack pr' = kstack pr.
Proof. intros Hq. rewrite unlinked_lookup, Hq. cbn. eauto 10. Qed.

Lemma unlinked_runnable t par prp q : runnable (unlinked t par prp) q ↔ runnable t q.
Proof.
  unfold runnable. rewrite unlinked_lookup. destruct (t !! q) as [pr|]; cbn; [|done]. split; intros (pr0 & [= <-] & ?); eauto.
Qed.

(** The children of [par] without [p]. *)
Definition orphan (kids : ptr → list ptr) (par p : ptr) : ptr → list ptr := <[par := filter (λ q, q ≠ p) (kids par)]> kids.

Lemma orphan_split kids par p a b :
  kids par = a ++ p :: b → NoDup (kids par) → orphan kids par p = <[par := a ++ b]> kids.
Proof.
  intros Hk Hnd. unfold orphan. rewrite Hk in *. by rewrite filter_ne_split.
Qed.

(** A zombie leaves every structure. *)
Section reap.
Context s (kids : ptr → list ptr) (p par : ptr) (prp : proc_struct).
Context (Hinv : proc_inv s kids) (Hpar : par ∈ idleproc (sd s) :: proc_list s) (Hk : p ∈ kids par).
Context (Hp : ptab s !! p = Some prp) (Hz : state prp = PROC_ZOMBIE).
Let s' : kst := gone p par prp s.

Lemma reap_facts : p ∈ proc_list s ∧ p ≠ idleproc (sd s) ∧ initproc s ≠ Some p ∧ kids p = [] ∧ parent prp = Some par ∧
  p ≠ current (sd s) ∧ NoDup (proc_list s).
Proof.
  pose proof (p_tree _ _ Hinv) as T. pose proof (p_base _ _ Hinv) as B. pose proof (t_nodup _ _ _ _ T) as [Hi Hnd]%NoDup_cons.
  assert (p ∈ proc_list s) as Hpl by by eapply t_kids. split_and!; try done.
  - intros ->. done.
  - intros Hi'. destruct (b_init _ _ B p Hi') as (_ & _ & Hnz). by eapply Hnz.
  - eapply t_zombie; [exact T|by right|done|done].
  - destruct (family_parent _ _ _ _ (t_family _ _ _ _ T par Hpar) Hk) as (pr & ? & ?). by simplify_eq.
  - intros ->. destruct (p_run _ _ Hinv) as (pr & ? & ?). simplify_eq. congruence.
Qed.

Lemma reap_tree : tree_inv (ptab s') (idleproc (sd s)) (proc_list s') (orphan kids par p).
Proof.
  pose proof (p_tree _ _ Hinv) as T. destruct reap_facts as (_ & _ & _ & Hkp & _).
  pose proof (t_kids_nodup _ _ _ _ T par Hpar) as Hnd. destruct (list_elem_of_split _ _ Hk) as (a & b & Eab).
  rewrite (orphan_split _ _ _ a b) by done. by apply (unlinked_tree (ptab s) _ _ kids par p prp a b).
Qed.

Lemma reap_base : base_inv s' (orphan kids par p).
Proof.
  pose proof (p_base _ _ Hinv) as B. destruct reap_facts as (Hpl & Hpi & Hpn & _ & _ & Hpc & Hndl).
  destruct (b_pids _ _ B) as (ids & Hids & Hnd & Hr & Hg1 & Hg2 & Hg3).
  destruct (pids_of_filter (ptab s) (proc_list s) ids p Hids Hndl Hpl) as (ids' & Hids' & Hsub & Hlen).
  assert (∀ q, q ∈ idleproc (sd s) :: proc_list s → q ≠ p → q ∈ idleproc (sd s) :: filter (λ q, q ≠ p) (proc_list s)) as Hin.
  { intros q [->|Hq]%elem_of_cons Hqp; [by left|right]. by apply list_elem_of_filter. }
  split.
  - apply (sched_inv_tab (sd s)); [apply B|intros q; apply unlinked_runnable|].
    destruct (inv_current _ (b_sched _ _ B)) as [pr Hpr]. destruct (unlinked_get (ptab s) par prp _ _ Hpr) as (pr' & ? & _). eauto.
  - apply Hin; [apply B|auto].
  - intros q Hq. apply (unlinked_runnable (ptab s) par prp) in Hq. apply Hin; [by apply B|]. intros ->.
    destruct Hq as (pr & ? & ?). simplify_eq. congruence.
  - intros i Hi. change (initproc s = Some i) in Hi. destruct (b_init _ _ B i Hi) as (Hl & Hik & Hnz). assert (i ≠ p) as Hip by congruence. split_and!.
    + by apply last_filter.
    + unfold orphan. cbn. destruct (decide (par = idleproc (sd s))) as [->|Hne].
      * rewrite fn_lookup_insert. by apply list_elem_of_filter.
      * by rewrite fn_lookup_insert_ne.
    + intros pr' Hpr'. destruct (proc_dom s kids i B) as [pr Hpr]; [by eapply init_in|].
      destruct (unlinked_get (ptab s) par prp _ _ Hpr) as (pr2 & Hpr2 & _ & E & _). cbn in Hpr'. simplify_eq. rewrite E. by apply Hnz.
  - exists ids'. split_and!.
    + eapply (pids_of_frame (ptab s)); [done|]. intros q pr _ Hq. destruct (unlinked_get (ptab s) par prp _ _ Hq) as (pr' & ? & ? & _). eauto.
    + by eapply sublist_NoDup.
    + apply Forall_forall. intros q Hq. rewrite Forall_forall in Hr. apply Hr. by eapply elem_of_sublist.
    + split; [done|]. split; [done|]. intros q Hq. apply Hg3. by eapply elem_of_sublist.
  - apply (hash_frame (ptab s)); [|].
    + intros k. destruct (b_hash _ _ B k) as [Hbnd Hb]. cbn. rewrite lookup_fmap. destruct (hash_list s !! k) as [l|]; cbn in *.
      * split; [by apply NoDup_filter|]. intros q. rewrite !list_elem_of_filter, Hb. tauto.
      * split; [constructor|]. intros q. split; [by intros ?%elem_of_nil|]. intros [[_ ?]%list_elem_of_filter ?].
        apply Hb. split; done.
    + intros q [_ Hq]%list_elem_of_filter. destruct (proc_dom s kids q B Hq) as [pr Hpr].
      destruct (unlinked_get (ptab s) par prp _ _ Hpr) as (pr' & ? & ? & _). eauto.
  - pose proof (b_count _ _ B) as [Hc Hm]. cbn. rewrite i32_small by (unfold MAX_PROCESS in *; lia). lia.
Qed.

Lemma reap_inv s2 : calm s' s2 → proc_inv (kfree_proc p s2) (orphan kids par p).
Proof.
  destruct reap_facts as (Hpl & Hpi & _ & _ & _ & Hpc & _). intros C.
  assert (proc_inv s' (orphan kids par p)) as I'.
  { split; [apply reap_base|apply reap_tree|]. apply (unlinked_runnable (ptab s) par prp), Hinv. }
  assert (proc_inv s2 (orphan kids par p)) as I2 by by eapply calm_proc.
  destruct C as [(El & _) D _]. eapply (proc_but p s2); [exact I2|done| | | |].
  - cbn. rewrite D. done.
  - rewrite D, El. cbn. rewrite elem_of_cons, list_elem_of_filter. tauto.
  - intros q Hq. cbn. by rewrite lookup_delete_ne.
  - intros (pr & Hpr & _). cbn in Hpr. by rewrite lookup_delete_eq in Hpr.
Qed.

Lemma reap_live s2 : calm s' s2 → live None s (kfree_proc p s2).
Proof.
  intros [(El & _ & Ei & _) D T]. split; [cbn; by rewrite D|cbn; by rewrite D|cbn; by rewrite D|exact Ei|]. intros q Hq _ Ha. pose proof Ha as (pr & Hpr & Hnz).
  assert (q ≠ p) as Hqp by (intros ->; congruence). split; [cbn; rewrite El; by apply list_elem_of_filter|].
  destruct (unlinked_get (ptab s) par prp q pr Hpr) as (pr1 & Hpr1 & _ & E1 & _).
  destruct (kinst_kin (ptab s') (ptab s2) q pr1 (T q) Hpr1) as (pr2 & Hpr2 & _ & E2). exists pr2.
  split; [|congruence]. cbn. by rewrite lookup_delete_ne.
Qed.

Lemma reap_run : reap p s = (let! s2 := put_kstack p s' in Ok (Wret 0 (Some (exit_code prp)), kfree_proc p s2)).
Proof.
  destruct reap_facts as (Hpl & Hpi & Hpn & _ & Hpp & _). unfold reap. rewrite bool_decide_true by auto.
  rewrite (get_proc_ok _ _ _ Hp). cbn [bind]. pose proof (p_tree _ _ Hinv) as T.
  destruct (t_family _ _ _ _ T par Hpar) as [(prpar & Hprpar & _) Hs].
  destruct (list_elem_of_split _ _ Hk) as (a & b & Eab). rewrite Eab in Hs. destruct (sibs_neighbours _ _ _ _ _ _ _ Hs Hp) as [Eo Ey].
  assert (∀ c, c ∈ a ++ p :: b → is_Some (ptab s !! c)) as Hdom.
  { intros c Hc. destruct (sibs_parent _ _ _ _ c Hs Hc) as (pr & ? & _). eauto. }
  rewrite (remove_links_ok p prp par); [done|done|done|eauto| |].
  - intros o Ho. apply Hdom, elem_of_app. right. right. rewrite Eo in Ho. destruct b; [done|]. injection Ho as ->. by left.
  - intros y Hy. apply Hdom, elem_of_app. left. rewrite Ey in Hy. destruct (last a) as [w|] eqn:Hl; [|done]. injection Hy as ->.
    by apply last_Some_elem_of.
Qed.
End reap.
(** ** Sleeping *)

Lemma sleep_inv s kids f :
  proc_inv s kids → current (sd s) ≠ idleproc (sd s) →
  (∀ pr, state pr = PROC_RUNNABLE → kin (f pr) = kin pr) →
  let s1 := set_ptab (alter f (current (sd s)) (ptab s)) s in
  base_inv s1 kids ∧ tree_inv (ptab s1) (idleproc (sd s1)) (proc_list s1) kids ∧ live None s s1.
Proof.
  intros [B T (prme & Hprme & Hst)] Hidle Hf. cbv zeta. set (me := current (sd s)) in *. set (t' := alter f me (ptab s)).
  assert (t' !! me = Some (f prme)) as Hme' by (unfold t'; by rewrite lookup_alter_eq, Hprme).
  assert (∀ q, q ≠ me → t' !! q = ptab s !! q) as Hoth by (intros q Hq; unfold t'; by rewrite lookup_alter_ne).
  assert (∀ q pr, ptab s !! q = Some pr → ∃ pr', t' !! q = Some pr' ∧ kin pr' = kin pr) as Hkin.
  { intros q pr Hq. destruct (decide (q = me)) as [->|Hne]; [|exists pr; by rewrite Hoth].
    rewrite Hprme in Hq. injection Hq as <-. eauto. }
  split; [|split; [eapply tree_inv_frame; [exact T|]; intros q pr _; apply Hkin|by apply tframe_live]].
  eapply base_change; [exact B|done| |done|apply B| |].
  - apply sched_inv_stop; [apply B| |done|exact (mk_is_Some _ _ Hme')]. intros q Hq. unfold runnable. by rewrite Hoth.
  - intros q Hq. destruct (decide (q = me)) as [->|Hqme]; [apply B|]. apply (b_all _ _ B). unfold runnable in *.
    change (ptab (set_ptab t' s)) with t' in Hq. by rewrite Hoth in Hq.
  - intros q pr _ Hq. destruct (Hkin q pr Hq) as (pr' & ? & E). exists pr'. split; [done|]. by apply kin_pid_zombie.
Qed.

(** ** [do_wait] *)

(** A child of [me] that the call waits for. *)
Definition awaited s (kids : ptr → list ptr) (id : Z) (c : ptr) : Prop :=
  c ∈ kids (current (sd s)) ∧ (id = 0 ∨ ∃ pr, ptab s !! c = Some pr ∧ pid pr = id).

Lemma child_parent s kids c pr : proc_inv s kids → c ∈ proc_list s → ptab s !! c = Some pr →
  parent pr = Some (current (sd s)) ↔ c ∈ kids (current (sd s)).
Proof.
  intros [B T _] Hc Hpr. destruct (t_parent _ _ _ _ T c Hc) as (par & Hpar & Hk).
  destruct (family_parent _ _ _ _ (t_family _ _ _ _ T par Hpar) Hk) as (pr' & ? & Hpp). simplify_eq. split.
  - intros E. by simplify_eq.
  - intros Hk'. rewrite Hpp. f_equal. eapply kids_disjoint; [exact T|exact Hpar|apply B|done|done].
Qed.

Lemma wait_search s kids id c :
  proc_inv s kids → cur s = Ok c →
  ∃ found haskid,
    (if decide (id ≠ 0) then
      let! o := find_proc id s in
      match o with
      | None => Ok (None, false)
      | Some p =>
          let! pr := get_proc (ptab s) p in
          if decide (parent pr = Some (current (sd s))) then
            Ok (if decide (ProcData.state pr = PROC_ZOMBIE) then Some p else None, true)
          else Ok (None, false)
      end
    else find_zombie (length (proc_list s)) (ptab s) (cptr c) false) = Ok (found, haskid) ∧
    (haskid = true ↔ ∃ q, awaited s kids id q) ∧
    match found with
    | Some p => awaited s kids id p ∧ zombie (ptab s) p ∧ haskid = true
    | None => ∀ q, awaited s kids id q → ¬ zombie (ptab s) q
    end.
Proof.
  intros I Hc. pose proof I as [B T R]. unfold awaited. set (me := current (sd s)).
  destruct (t_family _ _ _ _ T me (b_cur _ _ B)) as [(prme & Hprme & Hcp) Hs].
  assert (c = prme) as -> by (unfold cur, get_proc in Hc; fold me in Hc; rewrite Hprme in Hc; by injection Hc).
  destruct (decide (id ≠ 0)) as [Hid|Hid].
  - rewrite (find_proc_eq _ kids) by done.
    destruct (find_bucket_spec (ptab s) (proc_list s) id) as (o & -> & Ho); [intros p; by eapply proc_dom|]. cbn [bind].
    assert (∀ q, (q ∈ kids me ∧ (id = 0 ∨ ∃ pr, ptab s !! q = Some pr ∧ pid pr = id)) →
      q ∈ proc_list s ∧ ∃ pr, ptab s !! q = Some pr ∧ pid pr = id ∧ parent pr = Some me) as Haw.
    { intros q [Hq [?|(pr & Hpr & E)]]; [done|]. assert (q ∈ proc_list s) as Hql by (eapply t_kids; [exact T|apply B|done]).
      split; [done|]. exists pr. split_and!; [done|done|]. by eapply child_parent. }
    destruct o as [p|].
    + destruct Ho as [Hp (pr & Hpr & E)]. rewrite (get_proc_ok _ _ _ Hpr). cbn [bind].
      assert (∀ q, (q ∈ kids me ∧ (id = 0 ∨ ∃ pr, ptab s !! q = Some pr ∧ pid pr = id)) → q = p) as Huniq.
      { intros q (Hq & pr' & ? & ? & _)%Haw. destruct (b_pids _ _ B) as (ids & Hids & Hnd & _).
        eapply pids_of_unique; eauto. congruence. }
      destruct (decide (parent pr = Some me)) as [Hpp|Hpp].
      * assert (p ∈ kids me ∧ (id = 0 ∨ ∃ pr, ptab s !! p = Some pr ∧ pid pr = id)) as Hpa by (split; [by eapply child_parent|eauto]).
        eexists _, true. split; [reflexivity|]. split; [split; [eauto|done]|]. destruct (decide (state pr = PROC_ZOMBIE)) as [Hz|Hz].
        -- split_and!; [apply Hpa|apply Hpa|by exists pr|done].
        -- intros q Hq%Huniq. subst q. intros (pr' & ? & ?). by simplify_eq.
      * eexists None, false. split; [done|]. assert (∀ q, ¬ (q ∈ kids me ∧ (id = 0 ∨ ∃ pr, ptab s !! q = Some pr ∧ pid pr = id))) as Hno.
        { intros q Hq. pose proof (Huniq q Hq). subst q. destruct (Haw _ Hq) as (_ & pr' & ? & _ & ?). by simplify_eq. }
        split; [split; [done|intros [q Hq]; by apply Hno in Hq]|]. intros q Hq. by apply Hno in Hq.
    + eexists None, false. split; [done|]. assert (∀ q, ¬ (q ∈ kids me ∧ (id = 0 ∨ ∃ pr, ptab s !! q = Some pr ∧ pid pr = id))) as Hno.
      { intros q (Hq & pr' & ? & ? & _)%Haw. by eapply Ho. }
      split; [split; [done|intros [q Hq]; by apply Hno in Hq]|]. intros q Hq. by apply Hno in Hq.
  - rewrite Hcp. destruct (find_zombie_spec (length (proc_list s)) (ptab s) me None (kids me) false Hs) as (o & -> & Ho).
    { apply length_kids; [done|apply B]. }
    eexists _, _. split; [done|]. assert (id = 0) as -> by lia. rewrite orb_false_l, negb_true_iff, bool_decide_eq_false. split.
    + split; [intros Hne; destruct (kids me) as [|q ks]; [done|]; exists q; split; [by left|by left]|].
      intros (q & Hq & _) E. rewrite E in Hq. by apply elem_of_nil in Hq.
    + destruct o as [p|]; [|intros q [Hq _]; auto]. destruct Ho as [Hp Hz]. split_and!; [done|by left|done|].
      apply negb_true_iff, bool_decide_eq_false. intros E. rewrite E in Hp. by apply elem_of_nil in Hp.
Qed.

(** What one round of [do_wait] does. *)
Inductive waited s (kids : ptr → list ptr) (id : Z) : wait_result → kst → Prop :=
  | wait_reaps p pr s2 :
      awaited s kids id p → ptab s !! p = Some pr → state pr = PROC_ZOMBIE →
      put_kstack p (gone p (current (sd s)) pr s) = Ok s2 →
      proc_inv (kfree_proc p s2) (orphan kids (current (sd s)) p) → live None s (kfree_proc p s2) →
      waited s kids id (Wret 0 (Some (exit_code pr))) (kfree_proc p s2)
  | wait_sleeps q s' pr' :
      awaited s kids id q → (∀ q, awaited s kids id q → ¬ zombie (ptab s) q) →
      proc_inv s' kids → proc_list s' = proc_list s → live None s s' →
      ptab s' !! current (sd s) = Some pr' → state pr' = PROC_SLEEPING → wait_state pr' = WT_CHILD →
      waited s kids id Wsleep s'
  | wait_fails :
      (∀ q, ¬ awaited s kids id q) → proc_inv s kids → waited s kids id (Wret (- E_BAD_PROC) None) s.

Lemma wait_round_cases s kids id :
  proc_inv s kids → current (sd s) ≠ idleproc (sd s) →
  (∃ w s', wait_round id s = Ok (w, s') ∧ waited s kids id w s') ∨
  (∃ p pr, awaited s kids id p ∧ ptab s !! p = Some pr ∧ state pr = PROC_ZOMBIE ∧
     (∀ s2, put_kstack p (gone p (current (sd s)) pr s) ≠ Ok s2) ∧ ∀ r, wait_round id s ≠ Ok r).
Proof.
  intros I Hidle. pose proof I as [B T (prme & Hprme & Hst)]. set (me := current (sd s)) in *.
  unfold wait_round. assert (cur s = Ok prme) as Hc by by apply get_proc_ok. rewrite Hc. cbn [bind].
  destruct (wait_search s kids id prme I Hc) as (found & haskid & -> & Hk & Hf). cbn [bind]. destruct found as [p|].
  - destruct Hf as (Hp & (pr & Hpr & Hz) & _). pose proof Hp as [Hpk _].
    rewrite (reap_run s kids p me pr) by (done || apply B).
    destruct (put_kstack p (gone p me pr s)) as [s2| | |] eqn:E; [left|right; exists p, pr; split_and!; [done..|intros s2; by rewrite E|done]..].
    pose proof (put_kstack_calm p (gone p me pr s)) as C. rewrite E in C. cbn in C.
    eexists _, _. split; [done|]. eapply wait_reaps; [done..| |].
    + apply (reap_inv s kids p me pr); [done|apply B|done..].
    + by apply (reap_live s p me pr).
  - left. destruct haskid.
    + destruct (proj1 Hk eq_refl) as [q Hq].
      rewrite upd_ok by eauto. cbn [bind]. rewrite upd_ok by (cbn; rewrite lookup_alter_is_Some; eauto). cbn [bind].
      flat_tab. rewrite alter_alter_eq. set (f := _ ∘ _). cbn [current set_ptab sd set_sd set_procs].
      destruct (sleep_inv s kids f I Hidle) as (B1 & T1 & V1).
      { intros pr Hr. unfold kin, f. cbn. by rewrite Hr. }
      set (s1 := set_ptab _ s) in *. destruct (resched s1 kids B1 T1) as (d & E & I' & Hfr & _ & Hsw & V2).
      assert (ptab s1 !! me = Some (f prme)) as Hme1 by (change (alter f me (ptab s) !! me = Some (f prme)); by rewrite lookup_alter_eq, Hprme).
      destruct (Hsw me (f prme) Hme1) as (pr' & Hpr' & Esw). injection Esw as Es Ew.
      eexists Wsleep, _. split; [|by eapply (wait_sleeps _ _ _ q _ pr'); try done; eapply live_trans].
      change (schedule _) with (schedule (sd s1)). by rewrite E.
    + eexists _, _. split; [done|]. constructor; [|done]. intros q Hq. by assert (false = true) by (apply Hk; eauto).
Qed.

(** The kernel stacks of all processes are blocks in use. *)
Definition stacks_ok s (own : list block) : Prop :=
  ∀ q pr, q ∈ proc_list s → ptab s !! q = Some pr → ∃ b, kstack pr = kva_of b ∧ (b, KSTACKPAGE) ∈ own.

(** C14: a round of [do_wait] always returns, and does exactly one of three things.
    When a zombie child is waited for, it returns 0 with the exit code of one of them, which
    leaves the list of processes, the hash lists and its siblings, and whose stack is
    free again; when there are only living children, the caller sleeps until a child exits;
    without a child to wait for, it returns [E_BAD_PROC] and changes nothing. *)
Theorem wait_round_total s kids own fr id :
  proc_inv s kids → current (sd s) ≠ idleproc (sd s) → mem_ok s own fr → stacks_ok s own →
  ∃ w s', wait_round id s = Ok (w, s') ∧ waited s kids id w s' ∧
    (∀ code, w = Wret 0 (Some code) → ∃ b own1 own2, own = own1 ++ (b, KSTACKPAGE) :: own2 ∧
       mem_ok s' (own1 ++ own2) (seqZ b KSTACKPAGE ++ fr)).
Proof.
  intros I Hidle Hm Hst. pose proof I as [B T _].
  assert (∀ p pr, p ∈ kids (current (sd s)) → ptab s !! p = Some pr → ∃ b own1 own2 s2, own = own1 ++ (b, KSTACKPAGE) :: own2 ∧
    put_kstack p (gone p (current (sd s)) pr s) = Ok s2 ∧ mem_ok s2 (own1 ++ own2) (seqZ b KSTACKPAGE ++ fr)) as Hput.
  { intros p pr Hp Hpr. destruct (Hst p pr) as (b & Hb & (own1 & own2 & ->)%list_elem_of_split); [eapply t_kids; [done|apply B|done]|done|].
    destruct (unlinked_get (ptab s) (current (sd s)) pr p pr Hpr) as (pr' & Hpr' & _ & _ & Ek).
    destruct (put_kstack_ok p pr' (gone p (current (sd s)) pr s) b own1 own2 fr) as (s2 & ? & ?);
      [by destruct Hm|done|congruence|]. exists b, own1, own2, s2. done. }
  destruct (wait_round_cases s kids id I Hidle) as [(w & s' & E & Hw)|(p & pr & [Hp _] & Hpr & _ & Hno & _)].
  - exists w, s'. split_and!; [done|done|]. intros code ->. inversion Hw as [p pr s2 [Hp _] Hpr Hz E2 I2 V2| |]; subst.
    destruct (Hput p pr Hp Hpr) as (b & own1 & own2 & s2' & ? & E2' & Hm2). rewrite E2 in E2'. injection E2' as <-.
    exists b, own1, own2. split; [done|]. by destruct Hm2.
  - destruct (Hput p pr Hp Hpr) as (b & own1 & own2 & s2 & _ & E2 & _). by apply Hno in E2.
Qed.
End wait.
