(* ===== verification/ProcRun.v ===== *)
(** * Processes: sequences of calls

    [run_pcall] is one call of the running process, or one clock interrupt.  Every
    sequence of them keeps [sys_inv]: the relations between processes form a tree, pids
    are unique, the hash lists and the run queue are exact, and every pending timer
    belongs to a process that lives. *)

From stdpp Require Import functions.
From S2P Require Import Prelude CString ListH DefaultPmm PmmManager Vmm Paging AddrSpace SkewHeap ProcData StrideSched Sched Vfs File Proc ProcTree ProcInv ProcFork ProcExit ProcWait.

Inductive proc_call :=
  | Pfork (fm : fork_mem) (clone_flags : Z)
  | Pthread (fm : fork_mem) (clone_flags : Z)
  | Pexit (error_code : Z)
  | Pwait (id : Z) (code_store : option Z)
  | Pwait_again (id : Z)
  | Pkill (id : Z)
  | Pyield
  | Ppriority (priority : Z)
  | Psleep (tm : ptr) (time : Z)
  | Psleep_end (tm : ptr)
  | Pidle
  | Ptick.

Section run.
Context {RQ M F : Type} `{sched_class RQ} `{pmm_manager M} `{vfs_impl F}.
Context (ide : Z → bool) (boot_cr3 boot_pgdir : Z).
Notation kst := (kstate RQ M F).
Implicit Types s : kst.

Definition run_pcall (c : proc_call) s : res kst :=
  match c with
  | Pfork fm fl => let! (_, s) := do_fork ide boot_cr3 boot_pgdir fm fl s in Ok s
  | Pthread fm fl => let! (_, s) := kernel_thread ide boot_cr3 boot_pgdir fm fl s in Ok s
  | Pexit code => do_exit boot_cr3 code s
  | Pwait id store => let! (_, s) := do_wait id store s in Ok s
  | Pwait_again id => let! (_, s) := wait_again boot_cr3 id s in Ok s
  | Pkill id => let! (_, s) := do_kill id s in Ok s
  | Pyield => let! (_, s) := do_yield s in Ok s
  | Ppriority v => lab6_set_priority v s
  | Psleep tm time => let! (_, s) := do_sleep tm time s in Ok s
  | Psleep_end tm => let! (_, s) := do_sleep_end tm s in Ok s
  | Pidle => cpu_idle s
  | Ptick => let! d := run_timer_list (sd s) in Ok (set_sd d s)
  end.

(** The timers on the list belong to processes that live. *)
Definition owned s (l : list ptr) : Prop :=
  ∀ x t p, x ∈ l → timers (sd s) !! x = Some t → timer_proc t = Some p → p ∈ proc_list s ∧ alive (ptab s) p.

Record sys_inv s (kids : ptr → list ptr) : Prop := {
  si_proc : proc_inv s kids;
  si_init : is_Some (initproc s);
  si_timers : owned s (timer_list (sd s))
}.

(** What the program text guarantees: a new process is at a new address, the idle process
    does not exit, wait or sleep, and [do_sleep] ends before the next call of its
    process. *)
Definition no_timer s : Prop :=
  ∀ x t, x ∈ timer_list (sd s) → timers (sd s) !! x = Some t → timer_proc t ≠ Some (current (sd s)).

Definition legal (c : proc_call) s : Prop :=
  match c with
  | Pfork fm _ | Pthread fm _ => fresh_proc fm s
  | Pexit _ | Pwait _ _ | Pwait_again _ | Psleep _ _ => current (sd s) ≠ idleproc (sd s) ∧ no_timer s
  | _ => True
  end.

(** The timer [x] is on the list and wakes the process [p]. *)
Definition timer_of (d : sched_state RQ) (x p : ptr) : Prop :=
  x ∈ timer_list d ∧ ∃ t, timers d !! x = Some t ∧ timer_proc t = Some p.
Definition fewer_timers (d d' : sched_state RQ) : Prop := ∀ x p, timer_of d' x p → timer_of d x p.

(** The invariant after a step, for some relation of parents and children; no timer is new. *)
Definition next_ok s (s' : kst) : Prop := (∃ kids, sys_inv s' kids) ∧ fewer_timers (sd s) (sd s').

Lemma fewer_refl d : fewer_timers d d.
Proof. by intros x p. Qed.

Lemma fewer_trans d1 d2 d3 : fewer_timers d1 d2 → fewer_timers d2 d3 → fewer_timers d1 d3.
Proof. intros H12 H23 x p Hx. by apply H12, H23. Qed.

Lemma fewer_same d d' : timers d' = timers d → timer_list d' = timer_list d → fewer_timers d d'.
Proof. intros Et El x p. unfold timer_of. by rewrite Et, El. Qed.

Lemma live_fewer x s s' : live x s s' → fewer_timers (sd s) (sd s').
Proof. intros V. apply fewer_same; apply V. Qed.

Lemma next_same s kids : sys_inv s kids → next_ok s s.
Proof. intros I. split; [by exists kids|apply fewer_refl]. Qed.

Lemma next_after s s1 s2 : fewer_timers (sd s) (sd s1) → next_ok s1 s2 → next_ok s s2.
Proof. intros Hf [I Hf2]. split; [done|by eapply fewer_trans]. Qed.

Lemma owned_live x s s' l :
  owned s l → live x s s' → (∀ y t p, y ∈ l → timers (sd s) !! y = Some t → timer_proc t = Some p → x ≠ Some p) → owned s' l.
Proof.
  intros Ho [T L D I P] Hx y t p Hy Ht Hp. rewrite T in Ht. destruct (Ho y t p Hy Ht Hp). apply P; eauto.
Qed.

Lemma sys_live x s s' kids kids' :
  sys_inv s kids → proc_inv s' kids' → live x s s' →
  (∀ y t p, y ∈ timer_list (sd s) → timers (sd s) !! y = Some t → timer_proc t = Some p → x ≠ Some p) → sys_inv s' kids'.
Proof.
  intros [Hp Hi Ht] Hp' V Hx. split; [done|by rewrite (live_init _ _ _ V)|]. rewrite (live_list _ _ _ V). by eapply owned_live.
Qed.

Lemma next_live s s' kids kids' : sys_inv s kids → proc_inv s' kids' → live None s s' → next_ok s s'.
Proof. intros I I' V. split; [exists kids'; by eapply sys_live|by eapply live_fewer]. Qed.

(** ** The calls *)

Lemma fork_next fm fl s kids : sys_inv s kids → fresh_proc fm s → lets (λ r, next_ok s r.2) (do_fork ide boot_cr3 boot_pgdir fm fl s).
Proof.
  intros I Hf. eapply lets_weaken; [apply do_fork_lets; [apply I|done]|].
  intros [r s'] [(_ & I' & _ & _ & V)|(p & raw & _ & Hk & V)]; eapply next_live; eauto. apply Hk.
Qed.

Lemma exit_next code s kids :
  sys_inv s kids → current (sd s) ≠ idleproc (sd s) → no_timer s → lets (next_ok s) (do_exit boot_cr3 code s).
Proof.
  intros I Hidle Hno. pose proof I as [Ip [i Hi] Ht]. destruct (decide (current (sd s) = i)) as [E|Hne].
  { unfold do_exit. rewrite decide_False by done. rewrite decide_True by congruence. done. }
  destruct (exit_release boot_cr3 s) as [s1| | |] eqn:Hrel.
  2-4: unfold do_exit, exit_leave; rewrite decide_False by done; rewrite decide_False by congruence; cbv zeta; by rewrite Hrel.
  destruct (do_exit_spec boot_cr3 s kids i code s1 Ip Hidle Hi Hne Hrel) as (s' & kids' & -> & I' & _ & _ & V).
  split; [|by eapply live_fewer]. exists kids'. eapply sys_live; [done..|]. intros y t p Hy Hyt Hp [= <-]. by eapply Hno.
Qed.

Lemma wait_round_next id s kids :
  sys_inv s kids → current (sd s) ≠ idleproc (sd s) → lets (λ r, next_ok s r.2) (wait_round id s).
Proof.
  intros I Hidle. destruct (wait_round id s) as [[w s']| | |] eqn:E; try done. cbn.
  destruct (wait_round_cases s kids id (si_proc _ _ I) Hidle) as [(w' & s2 & E' & Hw)|(p & pr & _ & _ & _ & _ & Hno)].
  - rewrite E in E'. injection E' as <- <-. destruct Hw; [by eapply next_live..|by eapply next_same].
  - by apply Hno in E.
Qed.
Lemma live_calm s s' kids : sys_inv s kids → calm s s' → next_ok s s'.
Proof. intros I C. eapply next_live; [done|by eapply calm_proc; [apply I|]|by apply calm_live]. Qed.

Lemma wake_next s kids p :
  sys_inv s kids → p ∈ proc_list s → lets (λ d, sys_inv (set_sd d s) kids ∧ live None s (set_sd d s)) (wakeup_proc (sd s) p).
Proof.
  intros I Hp. destruct (proc_dom s kids p (p_base _ _ (si_proc _ _ I)) Hp) as [pr Hpr].
  destruct (decide (state pr = PROC_ZOMBIE)) as [Hz|Hz].
  { unfold wakeup_proc. change (procs (sd s)) with (ptab s). rewrite (get_proc_ok _ _ _ Hpr). cbn [bind]. by rewrite bool_decide_false by auto. }
  destruct (wake_inv s kids p pr (si_proc _ _ I)) as (d & -> & I' & V); [by right|done..|]. split; [|done]. by eapply sys_live.
Qed.

Lemma kill_next id s kids : sys_inv s kids → lets (λ r, next_ok s r.2) (do_kill id s).
Proof.
  intros I. unfold do_kill. rewrite (find_proc_eq s kids) by apply I.
  destruct (find_bucket_spec (ptab s) (proc_list s) id) as (o & -> & Ho); [intros p; eapply proc_dom, I|]. cbn [bind].
  destruct o as [p|]; [|by eapply next_same]. destruct Ho as [Hp (pr & Hpr & _)]. rewrite (get_proc_ok _ _ _ Hpr). cbn [bind].
  destruct (has_bit (flags pr) PF_EXITING); [by eapply next_same|].
  eapply lets_bind; [by apply upd_calm|]. intros s1 C. destruct (has_bit _ _); [|by eapply live_calm].
  assert (sys_inv s1 kids) as I1 by (eapply sys_live; [exact I|by eapply calm_proc; [apply I|]|by apply calm_live|done]).
  eapply lets_bind; [apply (wake_next s1 kids p I1); by rewrite (proj1 (calm_lists _ _ C))|].
  intros d [Id V]. split; [by exists kids|]. exact (fewer_trans _ _ _ (live_fewer _ _ _ (calm_live _ _ C)) (live_fewer _ _ _ V)).
Qed.

Lemma schedule_next s kids : sys_inv s kids → lets (next_ok s) (let! d := schedule (sd s) in Ok (set_sd d s)).
Proof.
  intros I. destruct (resched s kids) as (d & -> & I' & _ & _ & _ & V); [apply I..|]. by eapply next_live.
Qed.

(** ** Timers *)

Lemma proc_timers s kids ts l : proc_inv s kids → proc_inv (set_sd (set_timers (sd s) ts l) s) kids.
Proof.
  intros [B T R]. split; [|exact T|exact R]. apply base_sd; [done| |done|apply frame_refl|apply B|apply B].
  destruct (b_sched _ _ B) as [Hq Hc Hi]. by split.
Qed.

Definition timer_procs (ts ts' : gmap ptr timer_t) : Prop :=
  ∀ x t', ts' !! x = Some t' → ∃ t, ts !! x = Some t ∧ timer_proc t' = timer_proc t.

Lemma timer_procs_insert ts x t v : ts !! x = Some t → timer_procs ts (<[x := set_expires v t]> ts).
Proof.
  intros Hx y t' Hy. destruct (decide (x = y)) as [<-|]; simplify_map_eq; eauto.
Qed.

Lemma timer_procs_trans ts1 ts2 ts3 : timer_procs ts1 ts2 → timer_procs ts2 ts3 → timer_procs ts1 ts3.
Proof. intros H12 H23 x t3 Hx. destruct (H23 x t3 Hx) as (t2 & Hx2 & ->). by apply H12. Qed.

Lemma owned_timers s ts l l' :
  owned s l → timer_procs (timers (sd s)) ts → owned (set_sd (set_timers (sd s) ts l') s) l.
Proof. intros Ho Ht x t p Hx Hxt Hp. cbn in *. destruct (Ht x t Hxt) as (t0 & ? & E). eapply Ho; [done..|congruence]. Qed.

Lemma del_timer_lets (d : sched_state RQ) tm : lets (λ d', ∃ ts, timer_procs (timers d) ts ∧
  d' = set_timers d ts (filter (λ x, x ≠ tm) (timer_list d)) ∨ d' = d ∧ tm ∉ timer_list d) (del_timer d tm).
Proof.
  unfold del_timer. destruct (decide (tm ∈ timer_list d)); [|cbn; by exists ∅; right].
  apply lets_any. intros t Ht. apply (lets_bind (timer_procs (timers d))).
  - destruct (expires t =? 0); [by intros x t'; eauto|]. destruct (next_timer _ _) as [nx|]; [|by intros x t'; eauto].
    apply lets_any. intros n Hn. unfold get_timer in Hn. destruct (timers d !! nx) as [n'|] eqn:Hnx; [|done]. injection Hn as ->.
    by apply timer_procs_insert.
  - intros ts Hts. exists ts. by left.
Qed.

Lemma del_timer_next s kids tm l :
  sys_inv s kids → owned s l → lets (λ d, sys_inv (set_sd d s) kids ∧ owned (set_sd d s) l ∧
    ∀ x p, timer_of d x p → x ≠ tm ∧ timer_of (sd s) x p) (del_timer (sd s) tm).
Proof.
  intros I Ho. eapply lets_weaken; [apply del_timer_lets|]. intros d (ts & [[Hts ->]|[-> Htm]]).
  - split; [|split; [by apply owned_timers|]]. { split; [by apply proc_timers, I|apply I|].
      intros x t p Hx Hxt Hp. cbn in Hx. apply list_elem_of_filter in Hx as [_ Hx].
      eapply (owned_timers s ts (timer_list (sd s)) []); [apply I|done|exact Hx|exact Hxt|exact Hp]. }
    intros x p [[Hne Hx]%list_elem_of_filter (t & Ht & Hp)]. split; [done|]. split; [done|].
    destruct (Hts x t Ht) as (t0 & Ht0 & E). exists t0. split; [done|congruence].
  - destruct s as [[]]. split; [done|]. split; [done|]. intros x p Hx. split; [by intros ->; apply Htm, Hx|done].
Qed.

Lemma tick_loop_next l : ∀ s kids,
  sys_inv s kids → owned s l → lets (λ d, sys_inv (set_sd d s) kids ∧ fewer_timers (sd s) d) (run_timer_loop (sd s) l).
Proof.
  induction l as [|tm l IH]; intros s kids I Ho; cbn [run_timer_loop].
  { destruct s as [[]]. split; [done|apply fewer_refl]. }
  apply lets_any. intros t Ht. unfold get_timer in Ht. destruct (timers (sd s) !! tm) as [t'|] eqn:Htm; [|done]. injection Ht as ->.
  destruct (expires t =? 0); [|destruct s as [[]]; split; [done|apply fewer_refl]]. apply lets_any. intros p Hp.
  apply lets_any. intros pr _. destruct (_ || _); [|done].
  assert (timer_proc t = Some p) as Htp by (destruct (timer_proc t); [by injection Hp as ->|done]).
  destruct (Ho tm t p) as [Hpl _]; [by left|done|done|].
  eapply lets_bind; [by apply (wake_next s kids p)|]. intros d1 [I1 V1].
  assert (owned (set_sd d1 s) l) as Ho1.
  { eapply owned_live; [|exact V1|done]. intros x tx px Hx. apply Ho. by right. }
  eapply lets_bind; [apply (del_timer_next (set_sd d1 s) kids tm l I1 Ho1)|]. intros d2 (I2 & Ho2 & Hf2).
  eapply lets_weaken; [apply (IH (set_sd d2 s) kids I2 Ho2)|]. intros d3 [I3 Hf3]. split; [done|].
  eapply fewer_trans; [exact (live_fewer _ _ _ V1)|]. eapply fewer_trans; [|exact Hf3]. intros x px Hx. by apply Hf2.
Qed.
Lemma proc_tick_calm s : is_Some (ptab s !! current (sd s)) → lets (λ d, calm s (set_sd d s)) (sched_class_proc_tick (sd s) (current (sd s))).
Proof.
  intros [pr Hpr]. change (ptab s) with (procs (sd s)) in Hpr.
  assert (∀ t', (∀ q, kinst <$> (t' !! q) = kinst <$> (ptab s !! q)) → calm s (set_sd (set_procs (sd s) t') s)) as Hcalm.
  { intros t' Ht. split; [done|done|]. intros q. apply Ht. }
  assert (∀ x pr pr', ptab s !! x = Some pr → kinst pr' = kinst pr → ∀ q, kinst <$> (<[x := pr']> (ptab s) !! q) = kinst <$> (ptab s !! q)) as Hins.
  { intros x prx pr' Hx E q. destruct (decide (x = q)) as [<-|Hne]; [|by rewrite lookup_insert_ne].
    rewrite lookup_insert_eq, Hx. cbn. by rewrite E. }
  unfold sched_class_proc_tick. destruct (decide _).
  - rewrite (upd_proc_ok _ _ _ _ Hpr). apply Hcalm. by eapply Hins.
  - destruct (tick_law (runq (sd s)) _ _ _ Hpr) as (pr' & -> & Hs). cbn [bind]. apply Hcalm. eapply Hins; [exact Hpr|].
      exact (f_equal kinst Hs).
Qed.

Lemma tick_next s kids : sys_inv s kids → lets (next_ok s) (let! d := run_timer_list (sd s) in Ok (set_sd d s)).
Proof.
  intros I. unfold run_timer_list. apply (lets_bind (λ d, next_ok s (set_sd d s))); [|done].
  assert (∀ d, sys_inv (set_sd d s) kids ∧ fewer_timers (sd s) d → lets (λ d, next_ok s (set_sd d s)) (sched_class_proc_tick d (current d))) as Hend.
  { intros d [Id Hfd]. eapply lets_weaken; [apply (proc_tick_calm (set_sd d s)); apply (b_sched _ _ (p_base _ _ (si_proc _ _ Id)))|].
    intros d' C. apply (next_after s (set_sd d s)); [done|]. exact (live_calm _ _ _ Id C). }
  apply (lets_bind (λ d, sys_inv (set_sd d s) kids ∧ fewer_timers (sd s) d)); [|exact Hend].
  destruct (timer_list (sd s)) as [|tm l] eqn:Hl; [destruct s as [[]]; split; [done|apply fewer_refl]|].
  apply lets_any. intros t Ht. unfold get_timer in Ht. destruct (timers (sd s) !! tm) as [t'|] eqn:Htm; [|done]. injection Ht as ->.
  destruct (negb _); [|done]. set (d1 := set_timers _ _ _).
  assert (timer_procs (timers (sd s)) (timers d1)) as Htp by by apply timer_procs_insert.
  assert (fewer_timers (sd s) d1) as Hf1.
  { intros x p [Hx (t1 & Ht1 & Hp)]. split; [rewrite Hl; exact Hx|]. destruct (Htp x t1 Ht1) as (t2 & Ht2 & E). exists t2. split; [done|congruence]. }
  eapply lets_weaken; [apply (tick_loop_next (tm :: l) (set_sd d1 s) kids)|intros d2 [I2 Hf2]; split; [exact I2|exact (fewer_trans _ _ _ Hf1 Hf2)]].
  - split; [by apply proc_timers, I|apply I|]. apply owned_timers; [|exact Htp].
    change (owned s (tm :: l)). rewrite <- Hl. apply I.
  - apply owned_timers; [rewrite <- Hl; apply I|exact Htp].
Qed.

Lemma sleep_end_next tm s kids : sys_inv s kids →
  lets (λ r, (∃ kids, sys_inv r.2 kids) ∧ ∀ x p, timer_of (sd r.2) x p → x ≠ tm ∧ timer_of (sd s) x p) (do_sleep_end tm s).
Proof.
  intros I. unfold do_sleep_end. eapply lets_bind; [eapply (del_timer_next s kids tm []); [done|by intros ??? ?%elem_of_nil]|].
  intros d (Id & _ & Hf). split; [by exists kids|done].
Qed.

Lemma add_timer_walk_lets tm l : ∀ ts, lets (λ r, timer_procs ts r.1 ∧ ∀ x, x ∈ r.2 → x = tm ∨ x ∈ l) (add_timer_walk ts tm l).
Proof.
  induction l as [|nx l IH]; intros ts; cbn [add_timer_walk].
  { split; [intros x t'; eauto|]. intros x ->%list_elem_of_singleton. by left. }
  apply lets_any. intros t Ht. apply lets_any. intros n Hn. unfold get_timer in *.
  destruct (ts !! tm) as [t'|] eqn:Htm; [|done]. injection Ht as ->. destruct (ts !! nx) as [n'|] eqn:Hnx; [|done]. injection Hn as ->.
  destruct (_ <? _).
  - split; [by apply timer_procs_insert|]. intros x [->|Hx]%elem_of_cons; auto.
  - eapply lets_bind; [apply IH|]. intros [ts' l'] [Hts Hin]. cbn in *. split.
    + eapply timer_procs_trans; [|exact Hts]. by apply timer_procs_insert.
    + intros x [->|Hx]%elem_of_cons; [right; by left|]. destruct (Hin x Hx); [by left|right; by right].
Qed.
(** The only timer that is new is the one of the process that sleeps. *)
Lemma sleep_next tm time s kids :
  sys_inv s kids → current (sd s) ≠ idleproc (sd s) →
  lets (λ r, (∃ kids, sys_inv r.2 kids) ∧
    ∀ x p, timer_of (sd r.2) x p → timer_of (sd s) x p ∨ r.1 = None ∧ x = tm ∧ p = current (sd s)) (do_sleep tm time s).
Proof.
  intros I Hidle. unfold do_sleep. destruct (time =? 0); [split; [by exists kids|by left]|]. cbv zeta.
  set (me := current (sd s)) in *. set (ts0 := <[tm := mkTimer (u32 time) (Some me)]> (timers (sd s))).
  set (s0 := set_sd (timer_init (sd s) tm me time) s).
  assert (proc_inv s0 kids) as I0 by by apply proc_timers, I.
  destruct (p_run _ _ I0) as (prme & Hprme & Hst). change (current (sd s0)) with me in *.
  rewrite upd_ok by eauto. cbn [bind]. rewrite upd_ok by (cbn; rewrite lookup_alter_is_Some; eauto). cbn [bind].
  flat_tab. change (current (sd (set_ptab _ s0))) with me. rewrite alter_alter_eq. set (f := _ ∘ _).
  destruct (sleep_inv s0 kids f I0 Hidle) as (B1 & T1 & V1).
  { intros pr Hr. unfold kin, f. cbn. by rewrite Hr. }
  change (current (sd s0)) with me in *. set (s1 := set_ptab _ s0) in *.
  assert (alive (ptab s1) me) as Hme.
  { exists (f prme). change (ptab s1) with (alter f me (ptab s0)). rewrite lookup_alter_eq, Hprme. split; done. }
  unfold add_timer. apply (lets_bind (λ d, ∃ ts l, d = set_timers (sd s1) ts l ∧ timer_procs ts0 ts ∧
    tm ∉ timer_list (sd s) ∧ ∀ x, x ∈ l → x = tm ∨ x ∈ timer_list (sd s))).
  { apply lets_any. intros t _. destruct (_ && _); [|done]. case_bool_decide as Htm; [|done].
    eapply lets_bind; [apply add_timer_walk_lets|]. intros [ts l] [Hts Hl]. cbn in *. eauto 10. }
  intros d (ts & l & -> & Hts & Htm & Hl).
  assert (base_inv (set_sd (set_timers (sd s1) ts l) s1) kids) as B2.
  { apply base_sd; [done| |done|apply frame_refl|apply B1|apply B1]. destruct (b_sched _ _ B1) as [? ? ?]. by split. }
  destruct (resched (set_sd (set_timers (sd s1) ts l) s1) kids B2 T1) as (d & E & I' & _ & _ & _ & V2).
  change (schedule (set_timers (sd s1) ts l) = Ok d) in E. rewrite E. cbn [bind lets snd].
  split.
  2:{ intros x p [Hx (t & Ht & Hp)]. pose proof (live_timers _ _ _ V2) as Et. pose proof (live_list _ _ _ V2) as El.
      change (timers d = ts) in Et. change (timer_list d = l) in El. cbn [sd set_sd] in Hx, Ht. rewrite Et in Ht. rewrite El in Hx.
      destruct (Hts x t Ht) as (t0 & Ht0 & E0). unfold ts0 in Ht0. destruct (decide (x = tm)) as [->|Hxm].
      - rewrite lookup_insert_eq in Ht0. injection Ht0 as <-. right. split_and!; [done|done|]. cbn in E0. congruence.
      - rewrite lookup_insert_ne in Ht0 by done. left. destruct (Hl x Hx); [done|]. split; [done|]. exists t0. split; [done|congruence]. }
  exists kids. split; [done|apply I|]. change (set_sd d s1) with (set_sd d (set_sd (set_timers (sd s1) ts l) s1)). rewrite (live_list _ _ _ V2). eapply owned_live; [|exact V2|done].
  intros x t p Hx Hxt Hp. cbn in Hx, Hxt. destruct (Hts x t Hxt) as (t0 & Ht0 & Etp). destruct (decide (x = tm)) as [->|Hxm].
  - unfold ts0 in Ht0. rewrite lookup_insert_eq in Ht0. injection Ht0 as <-. cbn in Etp. assert (p = me) as -> by congruence.
    split; [|done]. pose proof (b_cur _ _ B1) as [?|?]%elem_of_cons; done.
  - unfold ts0 in Ht0. rewrite lookup_insert_ne in Ht0 by done. destruct (Hl x Hx) as [?|Hxl]; [done|].
    destruct (si_timers _ _ I x t0 p Hxl Ht0) as [Hpl Ha]; [congruence|]. by apply (live_proc _ _ _ V1).
Qed.

Lemma wait_next id store s kids :
  sys_inv s kids → current (sd s) ≠ idleproc (sd s) → lets (λ r, next_ok s r.2) (do_wait id store s).
Proof.
  intros I Hidle. unfold do_wait. apply lets_any. intros c _. apply (lets_bind (λ r, calm s r.2)).
  { destruct store as [a|]; [|apply calm_refl]. apply lets_any. intros [ok a'] _. apply calm_set_va. }
  intros [ok s1] C. cbn in C. destruct ok; [|by eapply live_calm].
  assert (sys_inv s1 kids) as I1 by (eapply sys_live; [exact I|by eapply calm_proc; [apply I|]|by apply calm_live|done]).
  eapply lets_weaken; [apply (wait_round_next id s1 kids I1); by rewrite (calm_sd _ _ C)|].
  intros r. apply next_after. exact (live_fewer _ _ _ (calm_live _ _ C)).
Qed.

Lemma wait_again_next id s kids :
  sys_inv s kids → current (sd s) ≠ idleproc (sd s) → no_timer s → lets (λ r, next_ok s r.2) (wait_again boot_cr3 id s).
Proof.
  intros I Hidle Hno. unfold wait_again. apply lets_any. intros c _. destruct (has_bit _ _).
  - eapply lets_bind; [by eapply exit_next|]. done.
  - eapply lets_bind; [by eapply wait_round_next|]. intros [w s1]. done.
Qed.

Lemma yield_next s kids : sys_inv s kids → lets (λ r, next_ok s r.2) (do_yield s).
Proof. intros I. unfold do_yield. eapply lets_bind; [by apply upd_calm|]. intros s1 C. by eapply live_calm. Qed.

Lemma priority_next v s kids : sys_inv s kids → lets (next_ok s) (lab6_set_priority v s).
Proof. intros I. unfold lab6_set_priority. eapply lets_weaken; [by apply upd_calm|]. intros s1 C. by eapply live_calm. Qed.

Lemma idle_next s kids : sys_inv s kids → lets (next_ok s) (cpu_idle s).
Proof.
  intros I. unfold cpu_idle. apply lets_any. intros pr _. destruct (need_resched pr); [by eapply schedule_next|by eapply next_same].
Qed.

Lemma drop_result {A} s (m : res (A * kst)) (Q : kst → Prop) :
  lets (λ r, Q r.2) m → (∀ s', Q s' → ∃ kids, sys_inv s' kids) → lets (λ s', ∃ kids, sys_inv s' kids) (let! (_, s) := m in Ok s).
Proof. intros Hm HQ. eapply lets_bind; [exact Hm|]. intros [a s'] Hs. by apply HQ. Qed.

Lemma pcall_next c s kids : sys_inv s kids → legal c s → lets (λ s', ∃ kids, sys_inv s' kids) (run_pcall c s).
Proof.
  intros I Hl. assert (∀ s', next_ok s s' → ∃ kids, sys_inv s' kids) as Hn by by intros s' [? _].
  destruct c; cbn in Hl |- *; try destruct Hl.
  - apply (drop_result s _ (next_ok s)); [by eapply fork_next|done].
  - apply (drop_result s _ (next_ok s)); [by eapply fork_next|done].
  - eapply lets_weaken; [by eapply exit_next|done].
  - apply (drop_result s _ (next_ok s)); [by eapply wait_next|done].
  - apply (drop_result s _ (next_ok s)); [by eapply wait_again_next|done].
  - apply (drop_result s _ (next_ok s)); [by eapply kill_next|done].
  - apply (drop_result s _ (next_ok s)); [by eapply yield_next|done].
  - eapply lets_weaken; [by eapply priority_next|done].
  - eapply lets_bind; [by eapply sleep_next|]. by intros [r s1] [? _].
  - eapply lets_bind; [by eapply sleep_end_next|]. by intros [r s1] [? _].
  - eapply lets_weaken; [by eapply idle_next|done].
  - eapply lets_weaken; [by eapply tick_next|done].
Qed.

(** States reached by calls of the running process and by clock interrupts. *)
Inductive reaches : kst → kst → Prop :=
  | reaches_refl s : reaches s s
  | reaches_step c s1 s2 s3 : reaches s1 s2 → legal c s2 → run_pcall c s2 = Ok s3 → reaches s1 s3.

(** every state that is reached by forks, exits, waits, kills, sleeps, yields,
    changes of priority, the idle loop and clock interrupts, in any order, satisfies the
    invariant: the processes form one tree under the idle process in which every
    parent is older than its children and zombies have none, the links, the hash lists
    and the run queue agree with it, pids are unique and in range, the processes are counted,
    and each pending timer belongs to a process that lives. *)
Theorem reachable_sys_inv s kids s' : sys_inv s kids → reaches s s' → ∃ kids', sys_inv s' kids'.
Proof.
  intros I Hr. induction Hr as [|c s1 s2 s3 _ IH Hl Hc]; [eauto|]. destruct (IH I) as (kids2 & I2).
  exact (lets_ok _ _ _ (pcall_next c s2 kids2 I2 Hl) Hc).
Qed.
End run.
