(* ===== verification/ProcDemo.v ===== *)
(** * Processes: a running kernel

    A kernel with stride scheduling, eight pages and device files starts, forks the
    process [init] and a child of it; the child exits and is reaped.  Its states are the
    inputs at which the theorems of the process files are applied. *)

From stdpp Require Import functions.
From S2P Require Import Prelude CString ListH DefaultPmm PmmManager Vmm Paging AddrSpace SkewHeap ProcData StrideSched Sched Vfs File Dev OpenFiles Proc ProcTree ProcInv ProcFork ProcExit ProcWait ProcRun.

Notation dkst := (kstate run_queue free_area dev_state).

Definition idle_proc : proc_struct :=
  mkProc PROC_RUNNABLE 0 0 0 true None None 0 0 IDLE_NAME 0 0 None None None false 0 0 0 (Some 1000).

Definition boot_files : vstate dev_state :=
  mkV ∅ [] None {[1000 := mkFiles None (fd_array_init OpenFiles.raw_files) 1]} 1000 ∅ (priv demo_start).

(** The idle process at 100 runs, the eight pages are free. *)
Definition boot : dkst :=
  mkK (mkSched {[100 := idle_proc]} 100 100 (mkRq [] 0 5 None ∅) ∅ []) (zero_vm (demo_ready 8) 9 0) (mkVmm ∅ ∅) boot_files
    [] ∅ None 1 MAX_PID MAX_PID.

(** [kmalloc] of a fork: the process at [p], its table of files at [f]. *)
Definition fork_at (p f : ptr) : fork_mem := mkForkMem (Some (p, idle_proc)) (Some f) OpenFiles.raw_files None [].

Abbreviation fork p f := (do_fork (λ _, false) 0 0 (fork_at p f) 0).
Abbreviation call c := (run_pcall (λ _, false) 0 0 c).

(** [init] at 200; it becomes [initproc] and the idle process gives the processor away. *)
Definition forked_init : Z * dkst := get_ok (0, boot) (fork 200 2000 boot).
Definition started : dkst := set_initproc (Some 200) forked_init.2.
Definition in_init : dkst := get_ok boot (call Pidle started).
(** Its child at 300, which runs while [init] waits, and exits. *)
Definition forked_child : Z * dkst := get_ok (0, boot) (fork 300 3000 in_init).
Definition in_child : dkst := get_ok boot (call (Pwait 0 None) forked_child.2).
Definition after_exit : dkst := get_ok boot (call (Pexit 42) in_child).

Example demo_runs :
  forked_init.1 = 1 ∧ current (sd in_init) = 200 ∧ forked_child.1 = 2 ∧ current (sd in_child) = 300 ∧
  current (sd after_exit) = 200 ∧ proc_list after_exit = [300; 200] ∧
  match wait_round 0 after_exit with
  | Ok (w, s) => w = Wret 0 (Some 42) ∧ proc_list s = [200] ∧ PmmManager.nr_free_pages (mgr (vm s)) = 6
  | _ => False
  end.
Proof. vm_compute. split_and!; reflexivity. Qed.

(** ** The states satisfy the invariant *)

Lemma boot_sched : sched_inv (sd boot).
Proof.
  split; [|by eexists|by eexists]. exists []. split.
  - exists Leaf. split_and!; try done. apply NoDup_nil_2.
  - intros p. split; [by intros ?%elem_of_nil|]. intros ((pr & Hp & _) & H1 & _). cbn in Hp, H1. by simplify_map_eq.
Qed.

Lemma boot_inv : proc_inv boot (λ _, []).
Proof.
  assert (∀ p : ptr, p ∈ idleproc (sd boot) :: proc_list boot → p = 100) as Hp by (intros p ?%list_elem_of_singleton; done).
  split.
  - split.
    + apply boot_sched.
    + by left.
    + intros p (pr & Hpr & _). cbn in Hpr. destruct (decide (p = 100)) as [->|]; [by left|]. by simplify_map_eq.
    + done.
    + exists []. split; [done|]. split; [constructor|]. split; [constructor|]. split; [by vm_compute|]. split; [by vm_compute|].
      by intros q ?%elem_of_nil.
    + intros k. cbn. split; [constructor|]. intros p. split; [by intros ?%elem_of_nil|by intros [?%elem_of_nil _]].
    + by vm_compute.
  - split.
    + apply NoDup_singleton.
    + intros p ->%Hp. split; [by eexists|done].
    + intros p c _ ?%elem_of_nil. done.
    + intros p _. constructor.
    + intros p c _ ?%elem_of_nil. done.
    + intros c ?%elem_of_nil. done.
    + done.
  - by eexists.
Qed.

Lemma boot_mem : mem_ok boot [] (seqZ 1 8).
Proof.
  split; [apply demo_ready_mgr| |by vm_compute]. intros p Hp. cbn [pages_of app] in Hp. apply elem_of_seqZ in Hp. cbn. lia.
Qed.

Lemma raw_quiet : quiet boot_files (mkFiles None (fd_array_init OpenFiles.raw_files) 1).
Proof.
  split; [by vm_compute|]. split; [|split; [by vm_compute|done]]. intros j e Hj.
  by rewrite (fresh_free _ raw_fresh j e Hj).
Qed.

Lemma thread_fork_total_witness :
  ∃ r s', fork 200 2000 boot = Ok (r, s') ∧ thread_outcome boot (λ _, []) (fork_at 200 2000) [] (seqZ 1 8) r s'.
Proof.
  apply (thread_fork_total (λ _, false) 0 0 (fork_at 200 2000) 0 boot (λ _, []) [] (seqZ 1 8) idle_proc 1000
           (mkFiles None (fd_array_init OpenFiles.raw_files) 1) boot_inv).
  - intros p raw [= <- <-]. intros [?|?%elem_of_nil]%elem_of_cons; done.
  - exact boot_mem.
  - reflexivity.
  - reflexivity.
  - reflexivity.
  - reflexivity.
  - reflexivity.
  - exact raw_quiet.
  - by intros q [= <-].
Defined.

(** A fork that returned a pid. *)
Lemma fork_ok kids fm own fr (s : dkst) r s' :
  thread_outcome s kids fm own fr r s' → 0 < r →
  ∃ p raw b fr', new_proc fm = Some (p, raw) ∧ forked s s' kids p r ∧
    mem_ok s' ((b, KSTACKPAGE) :: own) fr' ∧ kstack <$> (ptab s' !! p) = Some (kva_of b).
Proof.
  intros [([->| ->] & _)|(p & raw & b & fr' & ? & ? & _ & ? & ?)] Hr; [done..|]. eauto 10.
Qed.

Lemma forked_init_ok : ∃ b fr, proc_inv forked_init.2 (born (λ _, []) 100 200) ∧
  mem_ok forked_init.2 [(b, KSTACKPAGE)] fr ∧ kstack <$> (ptab forked_init.2 !! 200) = Some (kva_of b).
Proof.
  destruct thread_fork_total_witness as (r & s' & E & Ho). assert (forked_init = (r, s')) as Ef by (unfold forked_init; by rewrite E).
  assert (0 < r) as Hr. { change r with (r, s').1. rewrite <- Ef. by vm_compute. }
  destruct (fork_ok _ _ _ _ _ _ _ Ho Hr) as (p & raw & b & fr' & [= <- _] & [Hi _] & Hm & Hk).
  rewrite Ef. cbn [snd]. eauto 10.
Qed.

Lemma set_initproc_inv (s : dkst) kids i :
  proc_inv s kids → last (proc_list s) = Some i → i ∈ kids (idleproc (sd s)) →
  (∀ pr, ptab s !! i = Some pr → state pr ≠ PROC_ZOMBIE) → timer_list (sd s) = [] → sys_inv (set_initproc (Some i) s) kids.
Proof.
  intros [[B1 B2 B3 B4 B5 B6 B7] T R] Hl Hi Hz Ht. split; [|by eexists|].
  - split; [|exact T|exact R]. split; [exact B1|exact B2|exact B3| |exact B5|exact B6|exact B7]. by intros j [= <-].
  - change (owned (set_initproc (Some i) s) (timer_list (sd s))). rewrite Ht. intros ??? []%elem_of_nil.
Qed.

Lemma started_inv : sys_inv started (born (λ _, []) 100 200).
Proof.
  destruct forked_init_ok as (_ & _ & I & _). apply (set_initproc_inv forked_init.2 _ 200 I).
  - by vm_compute.
  - assert (idleproc (sd forked_init.2) = 100) as -> by by vm_compute. by left.
  - intros pr Hpr. vm_compute in Hpr. by injection Hpr as <-.
  - by vm_compute.
Qed.

Lemma run_ok s kids c s' :
  sys_inv s kids → legal c s → call c s = Ok s' → ∃ kids', sys_inv s' kids'.
Proof. intros I Hl E. exact (lets_ok _ _ _ (pcall_next (λ _, false) 0 0 c s kids I Hl) E). Qed.

Lemma call_get c s : is_ok (call c s) = true → call c s = Ok (get_ok boot (call c s)).
Proof. by destruct (call c s). Qed.

Lemma in_init_inv : ∃ kids, sys_inv in_init kids.
Proof. apply (run_ok started _ Pidle _ started_inv); [done|]. apply call_get. by vm_compute. Qed.

(** Only the table of processes changes between the two forks. *)
Lemma in_init_vm : vm in_init = vm forked_init.2.
Proof. by vm_compute. Qed.

Definition init_files : files_struct := default (mkFiles None [] 0) (fss (vs in_init) !! 2000).

Lemma init_quiet : quiet (vs in_init) init_files.
Proof.
  split; [by vm_compute|]. split; [|split; [by vm_compute|]].
  - intros j e Hj%list_elem_of_lookup_2. assert (forallb (λ e, bool_decide (status e ≠ FD_OPENED)) (fd_array init_files) = true) as Hall
      by by vm_compute.
    rewrite forallb_forall in Hall. apply (bool_decide_eq_true_1 _ (Hall e (proj1 (list_elem_of_In _ _) Hj))).
  - assert (pwd init_files = None) as -> by by vm_compute. intros q; discriminate.
Qed.

Lemma forked_child_ok : ∃ kids own fr b1 b2, sys_inv forked_child.2 kids ∧ mem_ok forked_child.2 own fr ∧
  (b1, KSTACKPAGE) ∈ own ∧ (b2, KSTACKPAGE) ∈ own ∧
  kstack <$> (ptab in_init !! 200) = Some (kva_of b1) ∧ kstack <$> (ptab forked_child.2 !! 300) = Some (kva_of b2).
Proof.
  destruct forked_init_ok as (b1 & fr & _ & Hm & Hk). destruct in_init_inv as (kids & I).
  assert (mem_ok in_init [(b1, KSTACKPAGE)] fr) as Hm' by (eapply mem_ok_vm; [exact Hm|apply in_init_vm]).
  assert (∃ c, cur in_init = Ok c ∧ mm c = None ∧ wait_state c = 0 ∧ ProcData.filesp c = Some 2000) as (c & Hc & Hmm & Hw & Hf).
  { eexists. split; [vm_compute; reflexivity|]. vm_compute. split_and!; reflexivity. }
  destruct (thread_fork_total (λ _, false) 0 0 (fork_at 300 3000) 0 in_init kids [(b1, KSTACKPAGE)] fr c 2000 init_files)
    as (r & s' & E & Ho); [apply I| |done|done|done|done|done| |exact init_quiet|by intros q [= <-]|].
  { intros p raw [= <- _]. assert (idleproc (sd in_init) :: proc_list in_init = [100; 200]) as -> by by vm_compute.
    rewrite !elem_of_cons. intros [?|[?|?%elem_of_nil]]; done. }
  { by vm_compute. }
  assert (forked_child = (r, s')) as Ef by (unfold forked_child; by rewrite E).
  assert (0 < r) as Hr. { change r with (r, s').1. rewrite <- Ef. by vm_compute. }
  destruct (fork_ok _ _ _ _ _ _ _ Ho Hr) as (p & raw & b2 & fr2 & [= <- _] & _ & Hm2 & Hk2).
  destruct (run_ok in_init kids (Pfork (fork_at 300 3000) 0) s' I) as (kids2 & I2).
  { intros p' raw' [= <- _]. assert (idleproc (sd in_init) :: proc_list in_init = [100; 200]) as -> by by vm_compute.
    rewrite !elem_of_cons. intros [?|[?|?%elem_of_nil]]; done. }
  { cbn [run_pcall]. by rewrite E. }
  exists kids2, ((b2, KSTACKPAGE) :: [(b1, KSTACKPAGE)]), fr2, b1, b2. rewrite Ef. cbn [snd]. split_and!; [done|done| | | |done].
  - by right; left.
  - by left.
  - rewrite <- Hk. by vm_compute.
Qed.

Lemma in_child_inv : ∃ kids, sys_inv in_child kids.
Proof.
  destruct forked_child_ok as (kids & _ & _ & _ & _ & I & _). apply (run_ok forked_child.2 kids (Pwait 0 None) _ I).
  - split; [by vm_compute|]. assert (timer_list (sd forked_child.2) = []) as Ht by by vm_compute.
    unfold no_timer. rewrite Ht. intros ?? []%elem_of_nil.
  - apply call_get. by vm_compute.
Qed.

Lemma in_child_legal code : legal (Pexit code) in_child.
Proof.
  split; [by vm_compute|]. assert (timer_list (sd in_child) = []) as Ht by by vm_compute.
  unfold no_timer. rewrite Ht. intros ?? []%elem_of_nil.
Qed.

Lemma after_exit_inv : ∃ kids, sys_inv after_exit kids.
Proof.
  destruct in_child_inv as (kids & I). apply (run_ok in_child kids (Pexit 42) _ I (in_child_legal 42)).
  apply call_get. by vm_compute.
Qed.

Lemma after_exit_mem : ∃ own fr, mem_ok after_exit own fr ∧ stacks_ok after_exit own.
Proof.
  destruct forked_child_ok as (kids & own & fr & b1 & b2 & _ & Hm & Hb1 & Hb2 & Hk1 & Hk2). exists own, fr. split.
  - eapply mem_ok_vm; [exact Hm|]. by vm_compute.
  - assert (proc_list after_exit = [300; 200]) as Hl by by vm_compute.
    assert (kstack <$> (ptab after_exit !! 200) = Some (kva_of b1)) as H1 by (rewrite <- Hk1; by vm_compute).
    assert (kstack <$> (ptab after_exit !! 300) = Some (kva_of b2)) as H2 by (rewrite <- Hk2; by vm_compute).
    intros q pr Hq Hpr. rewrite Hl in Hq. apply elem_of_cons in Hq as [->|[->|[]%elem_of_nil]%elem_of_cons].
    + rewrite Hpr in H2. injection H2 as E. eauto.
    + rewrite Hpr in H1. injection H1 as E. eauto.
Qed.

(** ** Witnesses *)

Lemma get_pid_fresh_witness :
  gap_ok [3; 1; 2] 2 3 ∧
  ∃ l n, get_pid_from [3; 1; 2] 2 3 = Ok (l, n) ∧ 1 ≤ l < MAX_PID ∧ l ∉ [3; 1; 2] ∧ gap_ok (l :: [3; 1; 2]) l n.
Proof.
  assert (gap_ok [3; 1; 2] 2 3) as Hg.
  { split; [by vm_compute|]. split; [by vm_compute|]. intros q Hq. set_unfold. lia. }
  split; [exact Hg|]. apply (get_pid_fresh [3; 1; 2] 2 3 Hg). by vm_compute.
Defined.

Lemma find_proc_linear_witness : find_proc 2 in_child = find_in_bucket (ptab in_child) [300; 200] 2.
Proof. destruct in_child_inv as (kids & I). exact (find_proc_linear in_child kids 2 (si_proc _ _ I)). Defined.


Lemma wait_round_total_witness :
  ∃ kids own fr w s', stacks_ok after_exit own ∧ wait_round 0 after_exit = Ok (w, s') ∧ waited after_exit kids 0 w s' ∧
    (∀ code, w = Wret 0 (Some code) → ∃ b own1 own2, own = own1 ++ (b, KSTACKPAGE) :: own2 ∧
       mem_ok s' (own1 ++ own2) (seqZ b KSTACKPAGE ++ fr)).
Proof.
  destruct after_exit_inv as (kids & I). destruct after_exit_mem as (own & fr & Hm & Hs).
  destruct (wait_round_total after_exit kids own fr 0 (si_proc _ _ I)) as (w & s' & E); [by vm_compute|exact Hm|exact Hs|].
  exists kids, own, fr, w, s'. split; [exact Hs|exact E].
Defined.

Lemma reachable_sys_inv_witness : ∃ kids', sys_inv after_exit kids'.
Proof.
  destruct in_child_inv as (kids & I). apply (reachable_sys_inv (λ _, false) 0 0 in_child kids after_exit I).
  eapply (reaches_step _ _ _ (Pexit 42)); [constructor|exact (in_child_legal 42)|]. apply call_get. by vm_compute.
Defined.
