(* ===== verification/Syscall.v ===== *)
(** * kern/syscall/syscall.c and kern/trap/trap.c: entering the kernel

    A trap finds the registers of the process in its trap frame, and [trap_dispatch] does
    what the number of the trap asks for; the table of system calls is [syscalls].  A call
    that gives up the processor leaves in [pending] what the process does when it runs
    again.  [do_execve] is here too, as far as it does not depend on the file formats of
    programs: [load_icode] is a parameter, and so is what the console's interrupt handler
    does.  Output to the console is not kept. *)

From Stdlib Require Import String.
From S2P Require Import Prelude CString Iobuf Printfmt PmmManager Vmm Paging AddrSpace SkewHeap ProcData StrideSched Sched Vfs File SfsDisk Sysfile Proc.

Definition SYS_exit : Z := 1.
Definition SYS_fork : Z := 2.
Definition SYS_wait : Z := 3.
Definition SYS_exec : Z := 4.
Definition SYS_yield : Z := 10.
Definition SYS_sleep : Z := 11.
Definition SYS_kill : Z := 12.
Definition SYS_gettime : Z := 17.
Definition SYS_getpid : Z := 18.
Definition SYS_putc : Z := 30.
Definition SYS_pgdir : Z := 31.
Definition SYS_open : Z := 100.
Definition SYS_close : Z := 101.
Definition SYS_read : Z := 102.
Definition SYS_write : Z := 103.
Definition SYS_seek : Z := 104.
Definition SYS_fstat : Z := 110.
Definition SYS_fsync : Z := 111.
Definition SYS_getcwd : Z := 121.
Definition SYS_getdirentry : Z := 128.
Definition SYS_dup : Z := 130.
Definition SYS_lab6_set_priority : Z := 255.

Definition EXEC_MAX_ARG_NUM : Z := 32.
Definition EXEC_MAX_ARG_LEN : Z := 4095.

Definition T_PGFLT : Z := 14.
Definition T_SYSCALL : Z := 0x80.
Definition T_SWITCH_TOU : Z := 120.
Definition T_SWITCH_TOK : Z := 121.
Definition IRQ_OFFSET : Z := 32.
Definition IRQ_TIMER : Z := 0.
Definition IRQ_KBD : Z := 1.
Definition IRQ_COM1 : Z := 4.
Definition IRQ_IDE1 : Z := 14.
Definition IRQ_IDE2 : Z := 15.

(** The registers of a trap frame that the kernel looks at. *)
Record pushregs := mkRegs { reg_eax : Z; reg_edx : Z; reg_ecx : Z; reg_ebx : Z; reg_edi : Z; reg_esi : Z }.

Definition set_eax (v : Z) (r : pushregs) : pushregs :=
  mkRegs (u32 v) (reg_edx r) (reg_ecx r) (reg_ebx r) (reg_edi r) (reg_esi r).

(** What a process does when it gets the processor back inside a call. *)
Inductive resume := Rwait (id : Z) (code_store : option Z) | Rsleep (tm : ptr).

(** A call returns, ends the process, or gives up the processor. *)
Inductive progress := Ret (v : Z) | Gone | Waits (r : resume).

(** [frames]: the registers with which each process continues in user mode.  [pending]:
    processes in the middle of a call, with the mode from which it was made. *)
Record machine (RQ M F : Type) := mkMachine {
  ks : kstate RQ M F;
  frames : gmap ptr pushregs;
  pending : gmap ptr (resume * bool);
  ticks : Z
}.
Arguments mkMachine {RQ M F}.
Arguments ks {RQ M F}.
Arguments frames {RQ M F}.
Arguments pending {RQ M F}.
Arguments ticks {RQ M F}.

(** What [kmalloc] returns and where local variables are, during one call. *)
Record call_mem := mkCallMem {
  cm_fork : fork_mem;
  cm_buf : option ptr;
  cm_junk : option ptr;
  cm_local : Z;
  cm_devname : Z;
  cm_timer : ptr;
  cm_kargv : list (option ptr)
}.

(** A trap: its number and error code, the address of a page fault, the mode and the
    registers of the process. *)
Record trapframe := mkTrap { tf_trapno : Z; tf_err : Z; rcr2 : Z; in_user : bool; tf_regs : pushregs }.

#[export] Instance mm_struct_eq_dec : EqDecision mm_struct.
Proof. solve_decision. Defined.

(** [vmem] holds the [mm_struct] of the self-tests of the paging code by its value. *)
Definition mm_address (x : mm_struct) (a : vmm) : option Z := (λ e, e.2.1) <$> list_find (λ e, e.2 = x) (map_to_list (mms a)).

Section syscall.
Context {RQ M F : Type} `{sched_class RQ} `{pmm_manager M} `{vfs_impl F}.
Context (ide : Z → bool) (boot_cr3 boot_pgdir : Z).
(** [load_icode(fd, argc, kargv)] and the effect of [cons_getc] and [dev_stdin_write]. *)
Context (load_icode : Z → Z → list ptr → kstate RQ M F → res (Z * kstate RQ M F)).
Context (console_irq : vstate F → vstate F).
Notation kst := (kstate RQ M F).
Notation mach := (machine RQ M F).
Implicit Types s : kst.
Implicit Types m : mach.

Definition set_ks s m : mach := mkMachine s (frames m) (pending m) (ticks m).
Definition set_frames f m : mach := mkMachine (ks m) f (pending m) (ticks m).
Definition set_pending p m : mach := mkMachine (ks m) (frames m) p (ticks m).
Definition set_ticks t m : mach := mkMachine (ks m) (frames m) (pending m) t.

Definition running m : ptr := current (sd (ks m)).

(** ** Calls of sysfile.c *)

(** [current->filesp] may be NULL. *)
Definition with_files (q : option ptr) (v : vstate F) : vstate F :=
  mkV (inodes v) (vdev_list v) (bootfs_node v) (fss v) (default 0 q) (bytes v) (priv v).

(** The memory and the files of the current process. *)
Definition on_user {A} (f : ustate F → res (A * ustate F)) s : res (A * kst) :=
  let! c := cur s in
  let! (a, u) := f (mkU (mm c) (va s) (with_files (ProcData.filesp c) (vs s))) in
  Ok (a, set_va (uva u) (set_vs (uvs u) s)).

(** ** exec *)

(** A word that a pointer of the user designates. *)
Definition load_word (p : Z) (u : ustate F) : res Z := let! l := load_bytes 4 (umem u) p in Ok (le_val l).

(** [n] arguments from [argv] on; [bufs] are the results of [kmalloc]. *)
Fixpoint copy_kargv_loop (n : nat) (bufs : list (option ptr)) (argv : Z) (u : ustate F) : res (Z * list ptr * ustate F) :=
  match n with
  | O => Ok (0, [], u)
  | S n =>
      match bufs with
      | Some buffer :: bufs =>
          let! p := load_word argv u in
          let! (ok, u) := string_from_user buffer p (EXEC_MAX_ARG_LEN + 1) u in
          if negb ok then Ok (- E_INVAL, [], u) else
          let! (ret, kargv, u) := copy_kargv_loop n bufs (argv + 4) u in Ok (ret, buffer :: kargv, u)
      | _ => Ok (- E_NO_MEM, [], u)
      end
  end.

Definition copy_kargv (bufs : list (option ptr)) (argc argv : Z) (u : ustate F) : res (Z * list ptr * ustate F) :=
  let! (ok, a) := user_mem_check (uva u) (umm u) argv (u32 (4 * argc)) false in
  let u := mkU (umm u) a (uvs u) in
  if ok : bool then copy_kargv_loop (Z.to_nat argc) bufs argv u else Ok (- E_INVAL, [], u).

(** The name, the arguments and the path, before the files are closed.  [cm_local] is the
    address of [local_name]. *)
Definition exec_args (cm : call_mem) (pid name argc argv : Z) (u : ustate F) : res (Z * list ptr * Z * ustate F) :=
  let! (_, x) := memset (umem u) (cm_local cm) 0 (PROC_NAME_LEN + 1) in
  let u := set_umem (uva u) x u in
  let! (ok, u) :=
    if name =? 0 then
      let! (_, x) := vsnprintf (umem u) (cm_local cm) (PROC_NAME_LEN + 1) (lit "<null> %d") [u32 pid] in
      Ok (true, set_umem (uva u) x u)
    else string_from_user (cm_local cm) name (PROC_NAME_LEN + 1) u in
  if negb ok then Ok (- E_INVAL, [], 0, u) else
  let! (ret, kargv, u) := copy_kargv (cm_kargv cm) argc argv u in
  if decide (ret ≠ 0) then Ok (ret, [], 0, u) else
  let! path := load_word argv u in Ok (0, kargv, path, u).

Definition execve_exit (ret : Z) s : res (progress * kst) := let! s := do_exit boot_cr3 ret s in Ok (Gone, s).

Definition do_execve (cm : call_mem) (name argc argv : Z) s : res (progress * kst) :=
  if negb ((1 <=? argc) && (argc <=? EXEC_MAX_ARG_NUM)) then Ok (Ret (- E_INVAL), s) else
  let! c := cur s in
  let! (ret, kargv, path, s) := on_user (exec_args cm (pid c) name argc argv) s in
  if decide (ret ≠ 0) then Ok (Ret ret, s) else
  let! q := deref (ProcData.filesp c) in
  let! v := files_closeall q (vs s) in
  let s := set_vs v s in
  let! (fd, s) := on_user (sysfile_open (cm_buf cm) (cm_junk cm) path O_RDONLY) s in
  if fd <? 0 then execve_exit fd s else
  let! s := release_mm boot_cr3 s in
  let! (ret, s) := load_icode fd argc kargv s in
  if decide (ret ≠ 0) then execve_exit ret s else
  let! name := load_bytes (Z.to_nat PROC_NAME_LEN) (bytes (vs s)) (cm_local cm) in
  let! s := set_proc_name (current (sd s)) name s in Ok (Ret 0, s).

(** ** The table of system calls *)

(** The code that [do_wait] stores for the caller. *)
Definition wait_done (id : Z) (code_store : option Z) (w : wait_result) s : res (progress * kst) :=
  match w with
  | Wsleep => Ok (Waits (Rwait id code_store), s)
  | Wret ret (Some code) =>
      match code_store with
      | Some p => let! x := store_bytes (bytes (vs s)) p (le_bytes 4 (u32 code)) in Ok (Ret ret, set_vs (set_bytes x (vs s)) s)
      | None => Ok (Ret ret, s)
      end
  | Wret ret None => Ok (Ret ret, s)
  end.

(** A handler that only changes the state of the kernel, and one that returns a value. *)
Definition on_ks (f : kst → res (progress * kst)) m : res (progress * mach) := let! (p, s) := f (ks m) in Ok (p, set_ks s m).
Definition returns (f : kst → res (Z * kst)) m : res (progress * mach) := on_ks (λ s, let! (r, s) := f s in Ok (Ret r, s)) m.

Definition sys_exit (arg : nat → Z) m : res (progress * mach) :=
  on_ks (λ s, let! s := do_exit boot_cr3 (i32 (arg 0%nat)) s in Ok (Gone, s)) m.

(** [copy_thread]: the child continues with the registers of the parent and 0 in [eax].
    The new process is not in the middle of a call. *)
Definition copy_thread (p : ptr) (tf : pushregs) m : mach :=
  set_pending (delete p (pending m)) (set_frames (<[p := set_eax 0 tf]> (frames m)) m).

Definition sys_fork (cm : call_mem) m : res (progress * mach) :=
  let! tf := deref (frames m !! running m) in
  let! (r, s) := do_fork ide boot_cr3 boot_pgdir (cm_fork cm) 0 (ks m) in
  let m := set_ks s m in
  Ok (Ret r, match new_proc (cm_fork cm) with Some (p, _) => if 0 <? r then copy_thread p tf m else m | None => m end).

Definition sys_wait (arg : nat → Z) m : res (progress * mach) :=
  let pid := i32 (arg 0%nat) in
  let store := if arg 1%nat =? 0 then None else Some (arg 1%nat) in
  on_ks (λ s, let! (w, s) := do_wait pid store s in wait_done pid store w s) m.

Definition sys_exec (cm : call_mem) (arg : nat → Z) m : res (progress * mach) :=
  let! (p, s) := do_execve cm (arg 0%nat) (i32 (arg 1%nat)) (arg 2%nat) (ks m) in
  let m := set_ks s m in
  (* load_icode clears the registers *)
  Ok (p, match p with Ret 0 => set_frames (<[running m := mkRegs 0 0 0 0 0 0]> (frames m)) m | _ => m end).

Definition sys_yield m : res (progress * mach) := returns do_yield m.
Definition sys_kill (arg : nat → Z) m : res (progress * mach) := returns (do_kill (i32 (arg 0%nat))) m.
Definition sys_getpid m : res (progress * mach) := returns (λ s, let! c := cur s in Ok (pid c, s)) m.
Definition sys_putc m : res (progress * mach) := Ok (Ret 0, m).
Definition sys_pgdir m : res (progress * mach) := Ok (Ret 0, m).
Definition sys_gettime m : res (progress * mach) := Ok (Ret (i32 (ticks m)), m).
Definition sys_lab6_set_priority (arg : nat → Z) m : res (progress * mach) :=
  returns (λ s, let! s := lab6_set_priority (arg 0%nat) s in Ok (0, s)) m.

Definition sys_sleep (cm : call_mem) (arg : nat → Z) m : res (progress * mach) :=
  on_ks (λ s, let! (r, s) := do_sleep (cm_timer cm) (arg 0%nat) s in
              Ok (match r with Some r => Ret r | None => Waits (Rsleep (cm_timer cm)) end, s)) m.

Definition on_sysfile (c : sysfile_call) m : res (progress * mach) := returns (on_user (sysfile c)) m.

Definition sys_open (cm : call_mem) (arg : nat → Z) m := on_sysfile (Sopen (cm_buf cm) (cm_junk cm) (arg 0%nat) (arg 1%nat)) m.
Definition sys_close (arg : nat → Z) m := on_sysfile (Sclose (i32 (arg 0%nat))) m.
Definition sys_read (cm : call_mem) (arg : nat → Z) m := on_sysfile (Sread (cm_buf cm) (i32 (arg 0%nat)) (arg 1%nat) (arg 2%nat)) m.

Definition sys_write (cm : call_mem) (arg : nat → Z) m := on_sysfile (Swrite (cm_buf cm) (i32 (arg 0%nat)) (arg 1%nat) (arg 2%nat)) m.
Definition sys_seek (arg : nat → Z) m := on_sysfile (Sseek (i32 (arg 0%nat)) (i32 (arg 1%nat)) (i32 (arg 2%nat))) m.
Definition sys_fstat (cm : call_mem) (arg : nat → Z) m := on_sysfile (Sfstat (cm_local cm) (i32 (arg 0%nat)) (arg 1%nat)) m.
Definition sys_fsync (arg : nat → Z) m := on_sysfile (Sfsync (i32 (arg 0%nat))) m.
Definition sys_getcwd (cm : call_mem) (arg : nat → Z) m := on_sysfile (Sgetcwd (cm_devname cm) (arg 0%nat) (arg 1%nat)) m.
Definition sys_getdirentry (cm : call_mem) (arg : nat → Z) m := on_sysfile (Sgetdirentry (cm_buf cm) (i32 (arg 0%nat)) (arg 1%nat)) m.
Definition sys_dup (arg : nat → Z) m := on_sysfile (Sdup (i32 (arg 0%nat)) (i32 (arg 1%nat))) m.

(** The handler of each number; a null entry is [None]. *)
Definition syscalls (cm : call_mem) (num : Z) : option ((nat → Z) → mach → res (progress * mach)) :=
  if num =? SYS_exit then Some sys_exit
  else if num =? SYS_fork then Some (λ _, sys_fork cm)
  else if num =? SYS_wait then Some sys_wait
  else if num =? SYS_exec then Some (sys_exec cm)
  else if num =? SYS_yield then Some (λ _, sys_yield)
  else if num =? SYS_kill then Some sys_kill
  else if num =? SYS_getpid then Some (λ _, sys_getpid)
  else if num =? SYS_putc then Some (λ _, sys_putc)
  else if num =? SYS_pgdir then Some (λ _, sys_pgdir)
  else if num =? SYS_gettime then Some (λ _, sys_gettime)
  else if num =? SYS_lab6_set_priority then Some sys_lab6_set_priority
  else if num =? SYS_sleep then Some (sys_sleep cm)
  else if num =? SYS_open then Some (sys_open cm)
  else if num =? SYS_close then Some sys_close
  else if num =? SYS_read then Some (sys_read cm)
  else if num =? SYS_write then Some (sys_write cm)
  else if num =? SYS_seek then Some sys_seek
  else if num =? SYS_fstat then Some (sys_fstat cm)
  else if num =? SYS_fsync then Some sys_fsync
  else if num =? SYS_getcwd then Some (sys_getcwd cm)
  else if num =? SYS_getdirentry then Some (sys_getdirentry cm)
  else if num =? SYS_dup then Some sys_dup
  else None.

Definition NUM_SYSCALLS : Z := 256.

(** The result goes to [eax] of the trap frame of the process that made the call. *)
Definition put_eax (p : ptr) (v : Z) m : mach := set_frames (alter (set_eax v) p (frames m)) m.

Definition syscall_args (tf : pushregs) (i : nat) : Z :=
  nth i [reg_edx tf; reg_ecx tf; reg_ebx tf; reg_edi tf; reg_esi tf] 0.

Definition syscall (cm : call_mem) m : res (progress * mach) :=
  let me := running m in
  let! tf := deref (frames m !! me) in
  let num := i32 (reg_eax tf) in
  if (0 <=? num) && (num <? NUM_SYSCALLS) then
    match syscalls cm num with
    | None => Panicked
    | Some f =>
        let! (p, m) := f (syscall_args tf) m in
        Ok (p, match p with Ret v => put_eax me v m | _ => m end)
    end
  else Panicked.

(** ** Traps *)

Definition pgfault_handler (err addr : Z) s : res (Z * kst) :=
  let! c := cur s in
  let! o :=
    match check_mm_struct (vm s) with
    | Some x => assert! bool_decide (current (sd s) = idleproc (sd s)) ;; Ok (mm_address x (va s))
    | None => Ok (mm c)
    end in
  let! (ret, a, v) := do_pgfault ide (va s) o err addr (vm s) in Ok (ret, set_va a (set_vm v s)).

Definition trap_dispatch (cm : call_mem) (tf : trapframe) m : res (progress * mach) :=
  let n := tf_trapno tf in
  if n =? T_PGFLT then
    let! (ret, s) := pgfault_handler (tf_err tf) (rcr2 tf) (ks m) in
    if decide (ret ≠ 0) then Panicked else Ok (Ret 0, set_ks s m)
  else if n =? T_SYSCALL then syscall cm m
  else if n =? IRQ_OFFSET + IRQ_TIMER then
    let m := set_ticks (u32 (ticks m + 1)) m in
    let! d := run_timer_list (sd (ks m)) in Ok (Ret 0, set_ks (set_sd d (ks m)) m)
  else if (n =? IRQ_OFFSET + IRQ_COM1) || (n =? IRQ_OFFSET + IRQ_KBD) then
    Ok (Ret 0, set_ks (set_vs (console_irq (vs (ks m))) (ks m)) m)
  else if (n =? T_SWITCH_TOU) || (n =? T_SWITCH_TOK) then Panicked
  else if (n =? IRQ_OFFSET + IRQ_IDE1) || (n =? IRQ_OFFSET + IRQ_IDE2) then Ok (Ret 0, m)
  else let! s := do_exit boot_cr3 (- E_KILLED) (ks m) in Ok (Gone, set_ks s m).

(** The end of [trap] for a process in user mode. *)
Definition trap_return m : res mach :=
  let! c := cur (ks m) in
  if has_bit (flags c) PF_EXITING then let! s := do_exit boot_cr3 (- E_KILLED) (ks m) in Ok (set_ks s m)
  else if need_resched c then let! d := schedule (sd (ks m)) in Ok (set_ks (set_sd d (ks m)) m)
  else Ok m.

(** What happens with the process [me] after its handler; [user] is its mode. *)
Definition settle (me : ptr) (user : bool) (r : progress * mach) : res mach :=
  let '(p, m) := r in
  match p with
  | Ret _ => let m := set_pending (delete me (pending m)) m in if user then trap_return m else Ok m
  | Gone => Ok (set_pending (delete me (pending m)) m)
  | Waits w => Ok (set_pending (<[me := (w, user)]> (pending m)) m)
  end.

Definition trap (cm : call_mem) (tf : trapframe) m : res mach :=
  let me := running m in
  let otf := frames m !! me in
  let! (p, m) := trap_dispatch cm tf (set_frames (<[me := tf_regs tf]> (frames m)) m) in
  let m := if in_user tf then m else set_frames (partial_alter (λ _, otf) me (frames m)) m in
  settle me (in_user tf) (p, m).

(** A process that runs again inside a call. *)
Definition run_again (r : resume) m : res (progress * mach) :=
  match r with
  | Rwait id store =>
      on_ks (λ s, let! (w, s) := wait_again boot_cr3 id s in
                  match w with None => Ok (Gone, s) | Some w => wait_done id store w s end) m
  | Rsleep tm => returns (do_sleep_end tm) m
  end.

Definition continue_call m : res mach :=
  let me := running m in
  let! (r, user) := deref (pending m !! me) in
  let! (p, m) := run_again r m in
  settle me user (p, match p with Ret v => if user : bool then put_eax me v m else m | _ => m end).

(** What kernel threads call by themselves ([init_main] and the idle loop). *)
Inductive kthread_call :=
  | Kthread (fm : fork_mem) (clone_flags : Z)
  | Kexit (error_code : Z)
  | Kwait (id : Z)
  | Kschedule
  | Kidle.

Definition kthread (c : kthread_call) m : res mach :=
  let me := running m in
  match c with
  | Kthread fm fl => let! (r, s) := kernel_thread ide boot_cr3 boot_pgdir fm fl (ks m) in
      let m := set_ks s m in
      Ok (match new_proc fm with Some (p, _) => if 0 <? r then set_pending (delete p (pending m)) m else m | None => m end)
  | Kexit code => let! s := do_exit boot_cr3 code (ks m) in settle me false (Gone, set_ks s m)
  | Kwait id => let! r := on_ks (λ s, let! (w, s) := do_wait id None s in wait_done id None w s) m in settle me false r
  | Kschedule => let! d := schedule (sd (ks m)) in Ok (set_ks (set_sd d (ks m)) m)
  | Kidle => let! s := cpu_idle (ks m) in Ok (set_ks s m)
  end.
End syscall.
