(* ===== verification/TrapInv.v ===== *)
(** * The kernel under arbitrary programs

    Traps with whatever registers, interrupts, calls that continue, and the kernel's own
    threads keep the invariant of the processes; timers belong to processes that wait for
    them.  The stubs of user/libs/syscall.c reach the handlers with their arguments. *)

From stdpp Require Import functions.
From S2P Require Import Prelude CString Iobuf ListH DefaultPmm PmmManager Vmm Paging AddrSpace SkewHeap ProcData StrideSched Sched Vfs File.
From S2P Require Import SfsDisk Sysfile Proc ProcTree ProcInv ProcFork ProcExit ProcWait ProcRun Syscall.

(** ** Steps that keep the current process *)

Section current.
Context {RQ M F : Type} `{sched_class RQ} `{pmm_manager M} `{vfs_impl F}.
Context (ide : Z → bool) (boot_cr3 boot_pgdir : Z).
Notation kst := (kstate RQ M F).
Implicit Types (s : kst) (d : sched_state RQ).

Definition same_cur s s' : Prop := current (sd s') = current (sd s).

Lemma calm_cur s s' : calm s s' → same_cur s s'.
Proof. intros C. unfold same_cur. by rewrite (calm_sd _ _ C). Qed.

Lemma wakeup_cur d p : lets (λ d', current d' = current d) (wakeup_proc d p).
Proof.
  unfold wakeup_proc. apply lets_any. intros pr _. case_bool_decide; [|done]. case_decide; [|done].
  apply lets_any. intros t _. apply lets_any. intros t' _. case_decide; [|done].
  unfold sched_class_enqueue. case_decide; [done|]. by apply lets_any; intros [q t2] _.
Qed.

Lemma del_timer_cur d tm : lets (λ d', current d' = current d) (del_timer d tm).
Proof.
  unfold del_timer. case_decide; [|done]. apply lets_any. intros t _. apply lets_any. by intros ts _.
Qed.

Lemma run_timer_loop_cur l : ∀ d, lets (λ d', current d' = current d) (run_timer_loop d l).
Proof.
  induction l as [|tm l IH]; intros d; cbn [run_timer_loop]; [done|]. apply lets_any. intros t _. destruct (expires t =? 0); [|done].
  apply lets_any. intros p _. apply lets_any. intros pr _. destruct (_ || _); [|done].
  eapply lets_bind; [apply wakeup_cur|]. intros d1 E1. eapply lets_bind; [apply del_timer_cur|]. intros d2 E2.
  eapply lets_weaken; [apply IH|]. intros d3 E3. congruence.
Qed.

Lemma run_timer_list_cur d : lets (λ d', current d' = current d) (run_timer_list d).
Proof.
  unfold run_timer_list. apply (lets_bind (λ d', current d' = current d)).
  - destruct (timer_list d) as [|tm l]; [done|]. apply lets_any. intros t _. destruct (negb _); [|done].
    eapply lets_weaken; [apply run_timer_loop_cur|]. done.
  - intros d1 E1. unfold sched_class_proc_tick. case_decide; apply lets_any; by intros t _.
Qed.

Lemma upd_cur s p f : lets (same_cur s) (upd s p f).
Proof. unfold upd. apply lets_any. by intros t _. Qed.

Lemma kill_cur id s : lets (λ r, same_cur s r.2) (do_kill id s).
Proof.
  unfold do_kill. apply lets_any. intros [p|] _; [|done]. apply lets_any. intros pr _. destruct (has_bit _ _); [done|].
  eapply lets_bind; [apply upd_cur|]. intros s1 E1. destruct (has_bit _ _); [|done].
  eapply lets_bind; [apply wakeup_cur|]. intros d E2. unfold same_cur in *. cbn. congruence.
Qed.

Lemma upd_opt_cur s s1 (o : option ptr) f : same_cur s s1 → lets (same_cur s) (match o with Some p => upd s1 p f | None => Ok s1 end).
Proof. intros E. destruct o; [|done]. eapply lets_weaken; [apply upd_cur|]. intros s2 E2. unfold same_cur in *. congruence. Qed.

Lemma reap_cur p s : lets (λ r, same_cur s r.2) (reap p s).
Proof.
  unfold reap. case_bool_decide; [|done]. apply lets_any. intros pr _. apply (lets_bind (same_cur s)).
  - unfold remove_links. cbv zeta. apply lets_any. intros pr1 _. eapply lets_bind; [by apply upd_opt_cur|]. intros s1 E1.
    apply (lets_bind (same_cur s)); [|by intros s2 E2].
    destruct (yptr pr1) as [y|]; [apply (upd_opt_cur s s1 (Some y)), E1|]. apply lets_any. intros par _.
    apply (upd_opt_cur s s1 (Some par)), E1.
  - intros s1 E1. eapply lets_bind; [apply put_kstack_calm|]. intros s2 C. cbn. pose proof (calm_cur _ _ C). unfold same_cur in *. cbn. congruence.
Qed.

Lemma wait_round_cur id s : lets (λ r, r.1 = Wsleep ∨ same_cur s r.2) (wait_round id s).
Proof.
  unfold wait_round. apply lets_any. intros c _. apply lets_any. intros [found haskid] _. destruct found as [p|].
  - eapply lets_weaken; [apply reap_cur|]. by right.
  - destruct haskid; [|by right]. do 2 (apply lets_any; intros ? _). apply lets_any. intros d _. by left.
Qed.

Lemma do_wait_cur id store s : lets (λ r, r.1 = Wsleep ∨ same_cur s r.2) (do_wait id store s).
Proof.
  unfold do_wait. apply lets_any. intros c _. apply (lets_bind (λ r, same_cur s r.2)).
  { destruct store; [|done]. apply lets_any. by intros [ok a'] _. }
  intros [ok s1] E1. cbn in E1. destruct ok; [|by right]. eapply lets_weaken; [apply wait_round_cur|].
  intros r [?|E2]; [by left|right]. unfold same_cur in *. congruence.
Qed.

Lemma sleep_cur tm time s : lets (λ r, r.1 = None ∨ r.2 = s) (do_sleep tm time s).
Proof.
  unfold do_sleep. destruct (time =? 0); [by right|]. do 2 (apply lets_any; intros ? _). do 2 (apply lets_any; intros ? _). by left.
Qed.

End current.

(** ** One call *)

Section trap.
Context {RQ M F : Type} `{sched_class RQ} `{pmm_manager M} `{vfs_impl F}.
Context (ide : Z → bool) (boot_cr3 boot_pgdir : Z).
Context (load_icode : Z → Z → list ptr → kstate RQ M F → res (Z * kstate RQ M F)).
Context (console_irq : vstate F → vstate F).
Notation kst := (kstate RQ M F).
Notation mach := (machine RQ M F).
Implicit Types (s : kst) (m : mach).

(** [load_icode] builds an address space and reads a file; it is no business of the tables
    of processes. *)
Context (load_calm : ∀ fd argc kargv s, lets (λ r, calm s r.2) (load_icode fd argc kargv s)).

(** From [s] a call of the current process leads to [s']: the processes are in order, no
    timer is new but the one that the process waits for, and a call that returns has not
    switched. *)
Record called s (p : progress) s' : Prop := {
  ca_inv : ∃ kids, sys_inv s' kids;
  ca_timers x q : timer_of (sd s') x q →
    (q ≠ current (sd s) ∧ timer_of (sd s) x q) ∨ (q = current (sd s) ∧ p = Waits (Rsleep x));
  ca_cur v : p = Ret v → same_cur s s'
}.

(** The calling process has no timer. *)
Definition timeless s : Prop := ∀ x, ¬ timer_of (sd s) x (current (sd s)).

Lemma timeless_no_timer s : timeless s → no_timer s.
Proof. intros Ht x t Hx Hxt Hp. apply (Ht x). split; [done|]. by exists t. Qed.

Lemma next_called s p s' : timeless s → next_ok s s' → (∀ v, p = Ret v → same_cur s s') → called s p s'.
Proof.
  intros Ht [I Hf] Hc. split; [done| |done]. intros x q Hx%Hf. left. split; [|done]. intros ->. by apply (Ht x).
Qed.

Lemma calm_called s kids p s' : sys_inv s kids → timeless s → calm s s' → called s p s'.
Proof. intros I Ht C. apply next_called; [done|by eapply live_calm|]. intros v _. by apply calm_cur. Qed.

Lemma calm_inv s s' kids : sys_inv s kids → calm s s' → sys_inv s' kids.
Proof. intros I C. eapply sys_live; [exact I|eapply calm_proc; [apply I|done]|by apply calm_live|done]. Qed.

Lemma called_after s s1 p s2 : calm s s1 → called s1 p s2 → called s p s2.
Proof.
  intros C [I T Hc]. pose proof (calm_cur _ _ C) as E. unfold same_cur in *. split; [done| |].
  - intros x q Hx. rewrite <- E. destruct (T x q Hx) as [[Hq Hs]|?]; [left|by right]. split; [done|].
    exact (live_fewer _ _ _ (calm_live _ _ C) x q Hs).
  - intros v Hv. unfold same_cur. rewrite <- E. by eapply Hc.
Qed.

Lemma timeless_calm s s' : timeless s → calm s s' → timeless s'.
Proof.
  intros Ht C x Hx. pose proof (calm_cur _ _ C) as E. unfold same_cur in E. rewrite E in Hx. apply (Ht x).
  exact (live_fewer _ _ _ (calm_live _ _ C) _ _ Hx).
Qed.

(** The exit of a process; the idle process panics. *)
Lemma exit_called code s kids : sys_inv s kids → timeless s → lets (called s Gone) (do_exit boot_cr3 code s).
Proof.
  intros I Ht. destruct (decide (current (sd s) = idleproc (sd s))) as [E|Hi].
  { unfold do_exit. by rewrite decide_True. }
  eapply lets_weaken; [eapply exit_next; [exact I|exact Hi|by apply timeless_no_timer]|]. intros s' Hn. by apply next_called.
Qed.

(** ** Handlers *)

Lemma on_user_calm {A} (f : ustate F → res (A * ustate F)) s : lets (λ r, calm s r.2) (on_user f s).
Proof. unfold on_user. apply lets_any. intros c _. apply lets_any. intros [a u] _. by apply calm_same. Qed.

Lemma execve_called cm name argc argv s kids :
  sys_inv s kids → timeless s → lets (λ r, called s r.1 r.2) (do_execve boot_cr3 load_icode cm name argc argv s).
Proof.
  intros I Ht. unfold do_execve. assert (∀ p s1, calm s s1 → called s p s1) as Hq by (intros p s1 C; by eapply calm_called).
  destruct (negb _); [apply Hq, calm_refl|]. apply lets_any. intros c _.
  eapply lets_bind; [apply on_user_calm|]. intros [[[ret kargv] path] s1] C1. cbn [snd] in C1.
  destruct (decide (ret ≠ 0)); [by apply Hq|]. apply lets_any. intros q _. apply lets_any. intros v _.
  assert (calm s (set_vs v s1)) as C2 by (eapply calm_trans; [exact C1|by apply calm_set_vs]).
  eapply lets_bind; [apply on_user_calm|]. intros [fd s3] C3'. cbn [snd] in C3'. assert (calm s s3) as C3 by by eapply calm_trans.
  assert (∀ ret s4, calm s s4 → lets (λ r, called s r.1 r.2) (execve_exit boot_cr3 ret s4)) as Hexit.
  { intros r s4 C4. unfold execve_exit. eapply lets_bind; [eapply exit_called; [by eapply calm_inv|by eapply timeless_calm]|].
    intros s5 Hc. by eapply called_after. }
  destruct (fd <? 0); [by apply Hexit|]. eapply lets_bind; [apply release_mm_calm|]. intros s4 C4'.
  assert (calm s s4) as C4 by by eapply calm_trans. eapply lets_bind; [apply load_calm|]. intros [ret2 s5] C5'. cbn [snd] in C5'.
  assert (calm s s5) as C5 by by eapply calm_trans. destruct (decide (ret2 ≠ 0)); [by apply Hexit|].
  apply lets_any. intros nm _. unfold set_proc_name. eapply lets_bind; [by apply upd_calm|]. intros s6 C6. apply Hq. by eapply calm_trans.
Qed.

Lemma wait_done_called id store w s s1 p0 :
  called s p0 s1 → (w = Wsleep → p0 = Waits (Rwait id store)) → (∀ r c, w = Wret r c → ∃ v, p0 = Ret v) →
  lets (λ r, called s r.1 r.2) (wait_done id store w s1).
Proof.
  intros [I T C] Hs Hr. unfold wait_done.
  assert (∀ r s2, (∃ c, w = Wret r c) → calm s1 s2 → called s (Ret r) s2) as Hret.
  { intros r s2 [c Hw] Cm. destruct (Hr r c Hw) as [v ->]. destruct I as [kids I]. split; [exists kids; by eapply calm_inv| |].
    - intros x q Hx. destruct (T x q (live_fewer _ _ _ (calm_live _ _ Cm) _ _ Hx)) as [?|[_ ?]]; [by left|done].
    - intros _ _. pose proof (C v eq_refl). pose proof (calm_cur _ _ Cm). unfold same_cur in *. congruence. }
  destruct w as [r [code|]|].
  - destruct store as [p|]; [|apply Hret; eauto using calm_refl]. apply lets_any. intros x _. apply Hret; [eauto|apply calm_set_vs].
  - apply Hret; eauto using calm_refl.
  - rewrite <- (Hs eq_refl). by split.
Qed.

(** What [do_wait] and [wait_again] return. *)
Definition wait_progress (id : Z) (store : option Z) (w : wait_result) : progress :=
  match w with Wsleep => Waits (Rwait id store) | Wret r _ => Ret r end.

Lemma wait_call id store s (m : res (wait_result * kst)) :
  timeless s → lets (λ r, next_ok s r.2) m → lets (λ r, r.1 = Wsleep ∨ same_cur s r.2) m →
  lets (λ r, called s r.1 r.2) (let! (w, s) := m in wait_done id store w s).
Proof.
  intros Ht Hn Hc. destruct m as [[w s1]| | |]; try done. cbn in *.
  apply (wait_done_called id store w s s1 (wait_progress id store w)).
  - apply next_called; [done..|]. intros v Hv. destruct Hc as [->|?]; [done|done].
  - by intros ->.
  - intros r c ->. by eexists.
Qed.

(** ** The machine *)

Record minv m : Prop := {
  mi_sys : ∃ kids, sys_inv (ks m) kids;
  mi_timers x q : timer_of (sd (ks m)) x q → ∃ user, pending m !! q = Some (Rsleep x, user)
}.

(** [called], and what is pending stays so for every process that has a timer. *)
Record mcalled m (p : progress) m' : Prop := {
  mc_called : called (ks m) p (ks m');
  mc_pending q x : timer_of (sd (ks m)) x q → pending m' !! q = pending m !! q
}.

Lemma minv_timeless m : minv m → (∀ x user, pending m !! running m ≠ Some (Rsleep x, user)) → timeless (ks m).
Proof. intros [_ Ht] Hp x Hx. destruct (Ht x _ Hx) as [user E]. by eapply Hp. Qed.

Lemma on_ks_called f m : lets (λ r, called (ks m) r.1 r.2) (f (ks m)) → lets (λ r, mcalled m r.1 r.2) (on_ks f m).
Proof. intros Hf. unfold on_ks. eapply lets_bind; [exact Hf|]. intros [p s] Hc. by split. Qed.

Lemma returns_called f m kids :
  sys_inv (ks m) kids → timeless (ks m) → lets (λ r, next_ok (ks m) r.2) (f (ks m)) → lets (λ r, same_cur (ks m) r.2) (f (ks m)) →
  lets (λ r, mcalled m r.1 r.2) (returns f m).
Proof.
  intros I Ht Hn Hc. unfold returns. apply on_ks_called. destruct (f (ks m)) as [[r s]| | |]; try done. cbn in *.
  by apply next_called.
Qed.

Lemma calm_returns f m kids :
  sys_inv (ks m) kids → timeless (ks m) → lets (λ r, calm (ks m) r.2) (f (ks m)) → lets (λ r, mcalled m r.1 r.2) (returns f m).
Proof.
  intros I Ht Hc. eapply returns_called; [done..| |]; (eapply lets_weaken; [exact Hc|]); intros r C; [by eapply live_calm|by apply calm_cur].
Qed.

Lemma same_called m m' p : (∃ kids, sys_inv (ks m) kids) → timeless (ks m) → ks m' = ks m → pending m' = pending m → mcalled m p m'.
Proof.
  intros [kids I] Ht Ek Ep. split; [rewrite Ek; eapply calm_called; [done..|apply calm_refl]|by rewrite Ep].
Qed.

Lemma sys_fork_called cm m kids :
  sys_inv (ks m) kids → timeless (ks m) → fresh_proc (cm_fork cm) (ks m) →
  lets (λ r, mcalled m r.1 r.2) (sys_fork ide boot_cr3 boot_pgdir cm m).
Proof.
  intros I Ht Hf. unfold sys_fork. apply lets_any. intros tf _.
  eapply lets_bind; [apply (do_fork_lets _ _ _ _ _ _ kids); [apply I|done]|]. intros [r s'] Ho. cbn [fst snd] in Ho.
  assert (called (ks m) (Ret r) s') as Hc.
  { destruct Ho as [(_ & I' & _ & E & V)|(p & raw & _ & Hk & V)]; (apply next_called; [done|eapply next_live; eauto|]); [done|apply Hk|].
    intros v _. apply Hk. }
  cbv zeta. cbn [lets fst snd]. destruct (new_proc (cm_fork cm)) as [[p raw]|] eqn:Hnew; [|by split]. destruct (0 <? r); [|by split].
  split; [done|]. intros q x (Hx & t & Hxt & Hp). cbn. rewrite lookup_delete_ne; [done|]. intros <-.
  apply (Hf p raw Hnew). right. by eapply (si_timers _ _ I).
Qed.

Lemma syscall_called cm m kids :
  sys_inv (ks m) kids → timeless (ks m) → current (sd (ks m)) ≠ idleproc (sd (ks m)) → fresh_proc (cm_fork cm) (ks m) →
  lets (λ r, mcalled m r.1 r.2) (syscall ide boot_cr3 boot_pgdir load_icode cm m).
Proof.
  intros I Ht Hi Hf. unfold syscall. cbv zeta. apply lets_any. intros tf _. destruct (_ && _); [|done].
  assert (∀ c, lets (λ r, mcalled m r.1 r.2) (on_sysfile c m)) as Hfile.
  { intros c. eapply calm_returns; [done..|]. apply on_user_calm. }
  assert (∀ p, mcalled m p m) as Hsame by (intros p; apply same_called; eauto).
  assert (∀ f, syscalls ide boot_cr3 boot_pgdir load_icode cm (i32 (reg_eax tf)) = Some f →
    lets (λ r, mcalled m r.1 r.2) (f (syscall_args tf) m)) as Hall.
  { unfold syscalls. intros f. repeat (destruct (_ =? _); [intros [= <-]|]); try done; try apply Hfile; try apply Hsame.
    - apply on_ks_called. eapply lets_bind; [by eapply exit_called|]. done.
    - by eapply sys_fork_called.
    - apply on_ks_called. apply wait_call; [done|by eapply wait_next|apply do_wait_cur].
    - unfold sys_exec. eapply lets_bind; [by eapply execve_called|]. intros [p s'] Hc. cbv zeta. cbn [lets fst snd].
      split; [|by destruct p as [[]| |]]. by destruct p as [[]| |].
    - eapply returns_called; [done..|by eapply yield_next|]. eapply lets_bind; [apply upd_cur|]. done.
    - eapply returns_called; [done..|by eapply kill_next|apply kill_cur].
    - eapply calm_returns; [done..|]. apply lets_any. intros c _. apply calm_refl.
    - eapply calm_returns; [done..|]. eapply lets_bind; [unfold lab6_set_priority; by apply upd_calm|]. done.
    - apply on_ks_called. destruct (do_sleep (cm_timer cm) _ (ks m)) as [[r s']| | |] eqn:E; try done.
      pose proof (sleep_next (cm_timer cm) (syscall_args tf 0) (ks m) kids I Hi) as Hn. rewrite E in Hn. destruct Hn as [I' Hx].
      pose proof (sleep_cur (cm_timer cm) (syscall_args tf 0) (ks m)) as Hc. rewrite E in Hc. cbn in *. split; [done| |].
      + intros x q [Hxq|(-> & -> & ->)]%Hx; [left; split; [|done]; intros ->; by apply (Ht x)|by right].
      + intros v Hv. destruct Hc as [->| ->]; done. }
  destruct (syscalls _ _ _ _ _ _) as [f|]; [|done]. eapply lets_bind; [by apply Hall|]. intros [p m'] Hc. cbn [lets fst snd].
  destruct Hc. by destruct p.
Qed.

Lemma trap_dispatch_called cm tf m kids :
  sys_inv (ks m) kids → timeless (ks m) → (tf_trapno tf = T_SYSCALL → current (sd (ks m)) ≠ idleproc (sd (ks m))) →
  fresh_proc (cm_fork cm) (ks m) → lets (λ r, mcalled m r.1 r.2) (trap_dispatch ide boot_cr3 boot_pgdir load_icode console_irq cm tf m).
Proof.
  intros I Ht Hi Hf. unfold trap_dispatch. cbv zeta. destruct (tf_trapno tf =? T_PGFLT).
  { eapply lets_bind with (P := λ r, calm (ks m) r.2).
    - unfold pgfault_handler. apply lets_any. intros c _. apply lets_any. intros o _. apply lets_any. intros [[ret a] v] _. by apply calm_same.
    - intros [ret s'] C. destruct (decide (ret ≠ 0)); [done|]. split; [by eapply calm_called|done]. }
  destruct (Z.eqb_spec (tf_trapno tf) T_SYSCALL); [eapply syscall_called; eauto|].
  destruct (_ =? _).
  { eapply lets_bind with (P := λ d, next_ok (ks m) (set_sd d (ks m)) ∧ current d = current (sd (ks m))).
    - pose proof (tick_next (ks m) kids I) as Hn. pose proof (run_timer_list_cur (sd (ks m))) as Hc. cbn [ks set_ticks].
      destruct (run_timer_list _); [|done..]. by split.
    - intros d [Hn E]. split; [|done]. by apply next_called. }
  destruct (_ || _). { split; [|done]. eapply calm_called; [done..|]. cbn. apply calm_set_vs. }
  destruct (_ || _); [done|]. destruct (_ || _); [by apply same_called; eauto|].
  eapply lets_bind; [by eapply exit_called|]. intros s' Hc. by split.
Qed.

(** A step that is not a call of its own. *)
Lemma next_minv m s' : minv m → next_ok (ks m) s' → minv (set_ks s' m).
Proof. intros [_ Ht] [I Hf]. split; [done|]. intros x q Hx. apply Ht. by apply Hf. Qed.

Lemma trap_return_minv m : minv m → timeless (ks m) → lets minv (trap_return boot_cr3 m).
Proof.
  intros Hm Ht. pose proof Hm as [[kids I] _]. unfold trap_return. apply lets_any. intros c _. destruct (has_bit _ _).
  - destruct (decide (current (sd (ks m)) = idleproc (sd (ks m)))); [unfold do_exit; by rewrite decide_True|].
    eapply lets_bind; [eapply exit_next; [done..|by apply timeless_no_timer]|]. intros s'. by apply next_minv.
  - destruct (need_resched c); [|done]. pose proof (schedule_next (ks m) kids I) as Hn. destruct (schedule _); [|done..].
    by apply next_minv.
Qed.

Lemma settle_minv m p m' user :
  minv m → mcalled m p m' → lets minv (settle boot_cr3 (running m) user (p, m')).
Proof.
  intros [_ Hm] [[I T C] Hp]. unfold settle. pose proof I as [kids Ik].
  assert (∀ pend, (∀ x q, timer_of (sd (ks m')) x q → q ≠ running m → pend !! q = pending m' !! q) →
    (∀ x, p = Waits (Rsleep x) → ∃ b, pend !! running m = Some (Rsleep x, b)) → minv (set_pending pend m')) as Hset.
  { intros pend Hoth Hme. split; [done|]. intros x q Hx. destruct (T x q Hx) as [[Hq Hs]|[-> E]]; [|by apply Hme].
    cbn [pending set_pending]. rewrite (Hoth x q Hx Hq). rewrite (Hp q x Hs). by apply Hm. }
  assert ((∀ w, p ≠ Waits w) → minv (set_pending (delete (running m) (pending m')) m')) as Hdel.
  { intros Hw. apply Hset; [intros x q _ Hq; by rewrite lookup_delete_ne|]. intros x E. by destruct (Hw (Rsleep x)). }
  destruct p as [v| |w].
  - assert (minv (set_pending (delete (running m) (pending m')) m')) as Hmi by by apply Hdel.
    destruct user; [|exact Hmi]. apply trap_return_minv; [exact Hmi|]. intros x Hx. cbn in Hx.
    destruct (T x _ Hx) as [[Hq _]|[_ ?]]; [|done]. apply Hq, (C v eq_refl).
  - by apply Hdel.
  - apply Hset; [intros x q _ Hq; by rewrite lookup_insert_ne|]. intros x [= ->]. exists user. cbn. by rewrite lookup_insert_eq.
Qed.

Lemma trap_minv cm tf m :
  minv m → pending m !! running m = None → (tf_trapno tf = T_SYSCALL → current (sd (ks m)) ≠ idleproc (sd (ks m))) →
  fresh_proc (cm_fork cm) (ks m) → lets minv (trap ide boot_cr3 boot_pgdir load_icode console_irq cm tf m).
Proof.
  intros Hm Hp Hi Hf. pose proof Hm as [[kids I] _].
  assert (timeless (ks m)) as Ht by (apply minv_timeless; [done|intros x user; by rewrite Hp]).
  unfold trap. cbv zeta. eapply lets_bind; [by eapply (trap_dispatch_called cm tf (set_frames _ m) kids)|].
  intros [p m'] [Hc Hq]. cbn [fst snd] in Hc, Hq. apply (settle_minv m); [exact Hm|]. by destruct (in_user tf).
Qed.

Lemma run_again_called r m user :
  minv m → pending m !! running m = Some (r, user) → current (sd (ks m)) ≠ idleproc (sd (ks m)) →
  lets (λ x, mcalled m x.1 x.2) (run_again boot_cr3 r m).
Proof.
  intros Hm Hp Hi. pose proof Hm as [[kids I] Hpend]. destruct r as [id store|tm]; cbn [run_again].
  - assert (timeless (ks m)) as Ht by (apply minv_timeless; [done|intros x b E; rewrite Hp in E; by injection E]).
    apply on_ks_called. unfold wait_again. destruct (cur (ks m)) as [c| | |]; [|done..]. cbn [bind]. destruct (has_bit _ _).
    + pose proof (exit_called (- E_KILLED) (ks m) kids I Ht) as Hc. by destruct (do_exit _ _ _).
    + pose proof (wait_call id store (ks m) (wait_round id (ks m)) Ht (wait_round_next id (ks m) kids I Hi) (wait_round_cur id (ks m))) as Hc.
      by destruct (wait_round _ _) as [[w s1]| | |].
  - unfold returns. apply on_ks_called. pose proof (sleep_end_next tm (ks m) kids I) as Hn.
    assert (lets (λ r, same_cur (ks m) r.2) (do_sleep_end tm (ks m))) as Hc.
    { unfold do_sleep_end. eapply lets_bind; [apply del_timer_cur|]. done. }
    destruct (do_sleep_end tm (ks m)) as [[r s']| | |]; [|done..]. cbn in *. destruct Hn as [I' Hx]. split; [done| |done].
    intros x q [Hne Hs]%Hx. left. split; [|done]. intros ->. destruct (Hpend x _ Hs) as [b E]. unfold running in *. rewrite Hp in E. by simplify_eq.
Qed.

Lemma continue_minv m : minv m → current (sd (ks m)) ≠ idleproc (sd (ks m)) → lets minv (continue_call boot_cr3 m).
Proof.
  intros Hm Hi. unfold continue_call. cbv zeta. destruct (pending m !! running m) as [[r user]|] eqn:Hp; [|done]. cbn [deref bind].
  eapply lets_bind; [by eapply run_again_called|]. intros [p m'] [Hc Hq]. apply (settle_minv m); [done|]. by destruct p, user.
Qed.

(** What the text of the kernel's threads guarantees. *)
Definition thread_legal (c : kthread_call) m : Prop :=
  match c with
  | Kthread fm _ => fresh_proc fm (ks m)
  | Kwait _ => current (sd (ks m)) ≠ idleproc (sd (ks m))
  | _ => True
  end.

Lemma kthread_minv c m : minv m → pending m !! running m = None → thread_legal c m → lets minv (kthread ide boot_cr3 boot_pgdir c m).
Proof.
  intros Hm Hp Hl. pose proof Hm as [[kids I] Hpend].
  assert (timeless (ks m)) as Ht by (apply minv_timeless; [done|intros x user; by rewrite Hp]).
  destruct c as [fm fl|code|id| |]; cbn [kthread thread_legal] in *; cbv zeta.
  - eapply lets_bind; [by eapply (fork_next _ _ _ fm (Z.lor fl CLONE_VM))|]. intros [r s'] Hn. cbn [snd] in Hn.
    pose proof (next_minv m s' Hm Hn) as Hm'. destruct (new_proc fm) as [[p raw]|] eqn:Hnew; [|done]. destruct (0 <? r); [|done].
    destruct Hm' as [I' Ht']. split; [done|]. intros x q Hx. destruct (Ht' x q Hx) as [b E]. exists b. cbn. rewrite lookup_delete_ne; [done|].
    intros <-. apply (Hl p raw Hnew). right. cbn in Hx. apply (proj2 Hn) in Hx as (Hx & t & Hxt & Hpt). by eapply (si_timers _ _ I).
  - eapply lets_bind; [by eapply exit_called|]. intros s' Hc. by apply (settle_minv m).
  - eapply lets_bind; [apply on_ks_called, wait_call; [done|by eapply wait_next|apply do_wait_cur]|]. intros [p m'] Hc. by apply (settle_minv m).
  - pose proof (schedule_next (ks m) kids I) as Hn. destruct (schedule _); [|done..]. by apply next_minv.
  - eapply lets_bind; [by eapply idle_next|]. intros s'. by apply next_minv.
Qed.

(** States that the machine reaches: traps of programs and interrupts while the running
    process is not in the middle of a call, calls that continue, and the kernel's threads.
    [kmalloc] gives new processes new addresses; the idle process makes no call. *)
Inductive mreaches : mach → mach → Prop :=
  | mreaches_refl m : mreaches m m
  | mreaches_trap cm tf m1 m2 m3 :
      mreaches m1 m2 → pending m2 !! running m2 = None →
      (tf_trapno tf = T_SYSCALL → current (sd (ks m2)) ≠ idleproc (sd (ks m2))) → fresh_proc (cm_fork cm) (ks m2) →
      trap ide boot_cr3 boot_pgdir load_icode console_irq cm tf m2 = Ok m3 → mreaches m1 m3
  | mreaches_continue m1 m2 m3 :
      mreaches m1 m2 → current (sd (ks m2)) ≠ idleproc (sd (ks m2)) → continue_call boot_cr3 m2 = Ok m3 → mreaches m1 m3
  | mreaches_thread c m1 m2 m3 :
      mreaches m1 m2 → pending m2 !! running m2 = None → thread_legal c m2 →
      kthread ide boot_cr3 boot_pgdir c m2 = Ok m3 → mreaches m1 m3.

End trap.
