(* ===== verification/UserCalls.v ===== *)
(** * user/libs/syscall.c, and a machine that runs

    The stubs through which programs enter the kernel, with the proof that the handlers get
    the arguments; and the theorems of [TrapInv] at a machine in which a process forks,
    waits, sleeps and exits. *)

From S2P Require Import Prelude CString Iobuf DefaultPmm PmmManager Vmm Paging AddrSpace SkewHeap ProcData StrideSched Sched Vfs File SfsDisk.
From S2P Require Import Sysfile Dev OpenFiles Proc ProcInv ProcRun ProcDemo Syscall TrapInv.

Module User.

Definition MAX_ARGS : nat := 5.

(** The registers at the [int] instruction; arguments that the caller does not pass are
    what [va_arg] finds, [junk]. *)
Definition syscall (num : Z) (args junk : list Z) : pushregs :=
  let a i := nth i (take MAX_ARGS (args ++ junk)) 0 in
  mkRegs (u32 num) (a 0%nat) (a 1%nat) (a 2%nat) (a 3%nat) (a 4%nat).

Definition sys_exit (error_code : Z) := syscall SYS_exit [u32 error_code].
Definition sys_fork := syscall SYS_fork [].
Definition sys_wait (pid store : Z) := syscall SYS_wait [u32 pid; store].
Definition sys_yield := syscall SYS_yield [].
Definition sys_kill (pid : Z) := syscall SYS_kill [u32 pid].
Definition sys_getpid := syscall SYS_getpid [].
Definition sys_putc (c : Z) := syscall SYS_putc [u32 c].
Definition sys_pgdir := syscall SYS_pgdir [].
Definition sys_lab6_set_priority (priority : Z) := syscall SYS_lab6_set_priority [priority].
Definition sys_sleep (time : Z) := syscall SYS_sleep [time].
Definition sys_gettime := syscall SYS_gettime [].
Definition sys_exec (name argc argv : Z) := syscall SYS_exec [name; u32 argc; argv].
Definition sys_open (path open_flags : Z) := syscall SYS_open [path; open_flags].
Definition sys_close (fd : Z) := syscall SYS_close [u32 fd].
Definition sys_read (fd base len : Z) := syscall SYS_read [u32 fd; base; len].
Definition sys_write (fd base len : Z) := syscall SYS_write [u32 fd; base; len].
Definition sys_seek (fd pos whence : Z) := syscall SYS_seek [u32 fd; u32 pos; u32 whence].
Definition sys_fstat (fd stat : Z) := syscall SYS_fstat [u32 fd; stat].
Definition sys_fsync (fd : Z) := syscall SYS_fsync [u32 fd].
Definition sys_getcwd (buffer len : Z) := syscall SYS_getcwd [buffer; len].
Definition sys_getdirentry (fd dirent : Z) := syscall SYS_getdirentry [u32 fd; dirent].
Definition sys_dup (fd1 fd2 : Z) := syscall SYS_dup [u32 fd1; u32 fd2].
End User.

(** A call of the library with its C arguments. *)
Inductive user_call :=
  | Uexit (error_code : Z) | Ufork | Uwait (pid store : Z) | Uyield | Ukill (pid : Z) | Ugetpid | Uputc (c : Z) | Upgdir
  | Upriority (priority : Z) | Usleep (time : Z) | Ugettime | Uexec (name argc argv : Z)
  | Uopen (path open_flags : Z) | Uclose (fd : Z) | Uread (fd base len : Z) | Uwrite (fd base len : Z)
  | Useek (fd pos whence : Z) | Ufstat (fd stat : Z) | Ufsync (fd : Z) | Ugetcwd (buffer len : Z)
  | Ugetdirentry (fd dirent : Z) | Udup (fd1 fd2 : Z).

Definition stub (c : user_call) : list Z → pushregs :=
  match c with
  | Uexit code => User.sys_exit code
  | Ufork => User.sys_fork
  | Uwait pid store => User.sys_wait pid store
  | Uyield => User.sys_yield
  | Ukill pid => User.sys_kill pid
  | Ugetpid => User.sys_getpid
  | Uputc c => User.sys_putc c
  | Upgdir => User.sys_pgdir
  | Upriority v => User.sys_lab6_set_priority v
  | Usleep time => User.sys_sleep time
  | Ugettime => User.sys_gettime
  | Uexec name argc argv => User.sys_exec name argc argv
  | Uopen path flags => User.sys_open path flags
  | Uclose fd => User.sys_close fd
  | Uread fd base len => User.sys_read fd base len
  | Uwrite fd base len => User.sys_write fd base len
  | Useek fd pos whence => User.sys_seek fd pos whence
  | Ufstat fd stat => User.sys_fstat fd stat
  | Ufsync fd => User.sys_fsync fd
  | Ugetcwd buffer len => User.sys_getcwd buffer len
  | Ugetdirentry fd dirent => User.sys_getdirentry fd dirent
  | Udup fd1 fd2 => User.sys_dup fd1 fd2
  end.

(** Arguments that are [int]s in C. *)
Definition int_args (c : user_call) : list Z :=
  match c with
  | Uexit x | Ukill x | Uclose x | Ufsync x | Uwait x _ | Uexec _ x _ | Uread x _ _ | Uwrite x _ _ | Ufstat x _ | Ugetdirentry x _ => [x]
  | Useek x y z => [x; y; z]
  | Udup x y => [x; y]
  | _ => []
  end.

Section arrive.
Context {RQ M F : Type} `{sched_class RQ} `{pmm_manager M} `{vfs_impl F}.
Context (ide : Z → bool) (boot_cr3 boot_pgdir : Z).
Context (load_icode : Z → Z → list ptr → kstate RQ M F → res (Z * kstate RQ M F)).
Context (console_irq : vstate F → vstate F).
Notation kst := (kstate RQ M F).
Notation mach := (machine RQ M F).
Implicit Types (s : kst) (m : mach).

(** What the kernel does for the call. *)
Definition meant (cm : call_mem) (c : user_call) m : res (progress * mach) :=
  match c with
  | Uexit code => on_ks (λ s, let! s := do_exit boot_cr3 code s in Ok (Gone, s)) m
  | Ufork => sys_fork ide boot_cr3 boot_pgdir cm m
  | Uwait pid store =>
      let store := if store =? 0 then None else Some store in
      on_ks (λ s, let! (w, s) := do_wait pid store s in wait_done pid store w s) m
  | Uyield => returns do_yield m
  | Ukill pid => returns (do_kill pid) m
  | Ugetpid => returns (λ s, let! c := cur s in Ok (pid c, s)) m
  | Uputc _ | Upgdir => Ok (Ret 0, m)
  | Upriority v => returns (λ s, let! s := lab6_set_priority v s in Ok (0, s)) m
  | Usleep time => on_ks (λ s, let! (r, s) := do_sleep (cm_timer cm) time s in
                               Ok (match r with Some r => Ret r | None => Waits (Rsleep (cm_timer cm)) end, s)) m
  | Ugettime => Ok (Ret (i32 (ticks m)), m)
  | Uexec name argc argv =>
      let! (p, s) := do_execve boot_cr3 load_icode cm name argc argv (ks m) in
      let m := set_ks s m in
      Ok (p, match p with Ret 0 => set_frames (<[running m := mkRegs 0 0 0 0 0 0]> (frames m)) m | _ => m end)
  | Uopen path flags => on_sysfile (Sopen (cm_buf cm) (cm_junk cm) path flags) m
  | Uclose fd => on_sysfile (Sclose fd) m
  | Uread fd base len => on_sysfile (Sread (cm_buf cm) fd base len) m
  | Uwrite fd base len => on_sysfile (Swrite (cm_buf cm) fd base len) m
  | Useek fd pos whence => on_sysfile (Sseek fd pos whence) m
  | Ufstat fd stat => on_sysfile (Sfstat (cm_local cm) fd stat) m
  | Ufsync fd => on_sysfile (Sfsync fd) m
  | Ugetcwd buffer len => on_sysfile (Sgetcwd (cm_devname cm) buffer len) m
  | Ugetdirentry fd dirent => on_sysfile (Sgetdirentry (cm_buf cm) fd dirent) m
  | Udup fd1 fd2 => on_sysfile (Sdup fd1 fd2) m
  end.

Lemma i32_u32_int x : is_i32 x → i32 (u32 x) = x.
Proof. intros Hx. rewrite i32_u32. by apply i32_small. Qed.


(** A program that touches an address outside its areas stops the whole kernel: [do_pgfault]
    fails and [trap_dispatch] panics before it comes to the [do_exit] that would end the
    program alone. *)
Lemma wild_access_panics cm tf c q x m :
  check_mm_struct (vm (ks m)) = None → cur (ks m) = Ok c → mm c = Some q → mms (va (ks m)) !! q = Some x →
  mm_inv (vmas (va (ks m))) x → (∀ p, ¬ covers (vmas (va (ks m))) (mmap_list x) (rcr2 tf) p) → tf_trapno tf = T_PGFLT →
  trap ide boot_cr3 boot_pgdir load_icode console_irq cm tf m = Panicked.
Proof.
  intros Hck Hc Hq Hx Hm Hno Ht. unfold trap, trap_dispatch. cbv zeta. rewrite Ht, (Z.eqb_refl _). unfold pgfault_handler. cbn [ks set_frames].
  rewrite Hc. cbn [bind]. rewrite Hck, Hq. cbn [bind]. unfold do_pgfault.
  destruct (find_vma_ok (va (ks m)) q x (rcr2 tf) Hx Hm) as (r & ch & -> & _ & Hr & _). cbn [bind].
  destruct r as [p|]; [by destruct (Hno p); apply Hr|]. done.
Qed.
End arrive.

(** ** A machine that runs

    [init] (at 200) of [ProcDemo] forks, its child (at 300) sleeps for two ticks and exits
    with the code 42, for which [init] waits. *)

Notation dmach := (machine run_queue free_area dev_state).

Definition no_loader (fd argc : Z) (kargv : list ptr) (s : dkst) : res (Z * dkst) := Ok (- E_INVAL_ELF, s).
Definition keyboard (v : vstate dev_state) : vstate dev_state := set_priv (dev_stdin_write 65 (priv v)) v.

Lemma no_loader_calm fd argc kargv s : lets (λ r, calm s r.2) (no_loader fd argc kargv s).
Proof. apply calm_refl. Qed.

(** [kmalloc] for a call that makes a process at [child], if it makes one. *)
Definition demo_cm (child : option ptr) : call_mem :=
  mkCallMem (match child with Some p => fork_at p 3000 | None => mkForkMem None None [] None [] end) None None 0 0 7000 [].
Definition user_trap (c : user_call) : trapframe := mkTrap T_SYSCALL 0 0 true (stub c []).
Definition irq (n : Z) : trapframe := mkTrap (IRQ_OFFSET + n) 0 0 false (mkRegs 0 0 0 0 0 0).

Inductive demo_step := Dtrap (child : option ptr) (tf : trapframe) | Dcontinue | Didle.

Definition run_step (d : demo_step) (m : dmach) : res dmach :=
  match d with
  | Dtrap child tf => trap (λ _, false) 0 0 no_loader keyboard (demo_cm child) tf m
  | Dcontinue => continue_call 0 m
  | Didle => kthread (λ _, false) 0 0 Kidle m
  end.

Fixpoint run_steps (l : list demo_step) (m : dmach) : res dmach :=
  match l with [] => Ok m | d :: l => let! m := run_step d m in run_steps l m end.

(** What [mreaches] asks of a step. *)
Definition step_ok (d : demo_step) (m : dmach) : bool :=
  let other := negb (bool_decide (running m = idleproc (sd (ks m)))) in
  match d with
  | Dtrap child tf => bool_decide (pending m !! running m = None) && ((negb (tf_trapno tf =? T_SYSCALL)) || other) &&
                match child with Some p => bool_decide (p ∉ idleproc (sd (ks m)) :: proc_list (ks m)) | None => true end
  | Dcontinue => other
  | Didle => bool_decide (pending m !! running m = None)
  end.

Fixpoint steps_ok (l : list demo_step) (m : dmach) : bool :=
  match l with [] => true | d :: l => step_ok d m && match run_step d m with Ok m => steps_ok l m | _ => false end end.

Lemma steps_reach l : ∀ m m', steps_ok l m = true → run_steps l m = Ok m' →
  mreaches (λ _, false) 0 0 no_loader keyboard m m'.
Proof.
  assert (∀ l m1 m2 m3, mreaches (λ _, false) 0 0 no_loader keyboard m1 m2 → steps_ok l m2 = true → run_steps l m2 = Ok m3 →
    mreaches (λ _, false) 0 0 no_loader keyboard m1 m3) as Hgen; [|intros m m'; apply Hgen; constructor].
  clear l. intros l. induction l as [|d l IH]; intros m1 m2 m3 Hr Hok Hrun; cbn [steps_ok run_steps] in *.
  { by injection Hrun as <-. }
  apply andb_true_iff in Hok as [Hd Hl]. destruct (run_step d m2) as [m| | |] eqn:E; try done. cbn [bind] in Hrun.
  apply (IH m1 m m3); [|exact Hl|exact Hrun]. destruct d as [child tf| |]; cbn [step_ok run_step] in *.
  - apply andb_true_iff in Hd as [[Hp%bool_decide_eq_true Hs]%andb_true_iff Hf].
    eapply (mreaches_trap _ _ _ _ _ (demo_cm child) tf); [exact Hr|exact Hp| | |exact E].
    + intros Ht. rewrite Ht in Hs. cbn in Hs. by apply negb_true_iff, bool_decide_eq_false in Hs.
    + destruct child as [p|]; intros q raw E'; [|done]. apply bool_decide_eq_true in Hf. injection E' as <- _. exact Hf.
  - apply negb_true_iff, bool_decide_eq_false in Hd. by eapply mreaches_continue.
  - apply bool_decide_eq_true in Hd. by eapply (mreaches_thread _ _ _ _ _ Kidle).
Qed.

Definition machine0 : dmach :=
  mkMachine (set_vs (set_bytes (list_to_map ((λ a, (a, 0)) <$> seqZ 0xC0001000 4)) (vs in_init)) in_init) ∅ ∅ 0.

(** [init] forks and waits; the child sleeps; two ticks and a key while the idle process
    runs; the child goes on, and exits; [init] goes on. *)
Definition story : list demo_step :=
  [Dtrap (Some 300) (user_trap Ufork); Dtrap None (user_trap (Uwait 0 0xC0001000)); Dtrap None (user_trap (Usleep 2)); Dtrap None (irq IRQ_TIMER); Dtrap None (irq IRQ_KBD);
   Dtrap None (irq IRQ_TIMER); Didle; Dcontinue; Dtrap None (user_trap (Uexit 42)); Dcontinue].

Definition after_story : dmach := get_ok machine0 (run_steps story machine0).

(** At its end only [init] is left, its [wait] has returned 0 and the code is in memory. *)
Example story_end :
  running after_story = 200 ∧ proc_list (ks after_story) = [200] ∧ reg_eax <$> (frames after_story !! 200) = Some 0 ∧
  bytes (vs (ks after_story)) !! 0xC0001000 = Some 42 ∧ ticks after_story = 2.
Proof. vm_compute. split_and!; reflexivity. Qed.

Lemma machine0_minv : minv machine0.
Proof.
  destruct in_init_inv as [kids I]. split.
  - exists kids. exact (calm_inv in_init (ks machine0) kids I (calm_set_vs _ in_init)).
  - intros x q [Hx _]. assert (timer_list (sd (ks machine0)) = []) as E by by vm_compute. rewrite E in Hx. exfalso. exact (not_elem_of_nil x Hx).
Qed.


